(* ===== verification/_CoqProject ===== *)
-Q . S2P
Prelude.v
Text.v
Types.v
Uleb128.v
Frame.v
Codec.v
Dcp.v
Command.v
Errors.v
Event.v
Checkpoint.v
Assignment.v
Config.v
Async.v
Transport.v
Topology.v
Cccp.v
Settings.v
Connect.v
Auth.v
Mitigation.v
Stream.v
Bootstrap.v
Collections.v
Worker.v
StreamHandle.v
StreamHandleSpec.v
CheckpointRuntime.v
CheckpointSpec.v
CheckpointFlush.v
Scheduler.v
SchedulerSpec.v
Store.v
StoreSpec.v
StoreCouchbase.v
CheckpointKv.v
Progress.v
Delivery.v
Generation.v
Observability.v
Client.v
ClientSpec.v
Lifecycle.v
LifecycleSpec.v
Membership.v
MembershipRuntime.v
MembershipSpec.v
Kubernetes.v
KubernetesSpec.v
Prometheus.v
Sdk.v
