(* ===== verification/Prelude.v ===== *)
(** * rust-dcp: a verification development

    The repository is a Rust client for Couchbase's Database Change Protocol (DCP).  It
    opens change streams for the vBuckets of a bucket, delivers their events to an
    application, and stores a checkpoint per vBucket from which a later run resumes.  This
    library models the client's core as executable definitions that follow the source
    function by function, and proves the properties its users rely on.

    ** The parts and where they are modelled

    [rust-dcp-protocol], the wire protocol:
    - [Types]: magics, opcodes, statuses, protocol errors ([types.rs], [error.rs]);
    - [Uleb128]: collection-ID varints ([uleb128.rs]);
    - [Frame]: packets and framing extras ([frame.rs]);
    - [Codec]: the incremental decoder and the encoder ([codec.rs]);
    - [Dcp]: producer messages ([dcp.rs]);
    - [Command]: request builders and response parsers ([command.rs]).

    [rust-dcp-core], the client:
    - [Errors], [Event], [Checkpoint], [Assignment]: [error.rs], [event.rs],
      [checkpoint.rs], [assignment.rs];
    - [Text], [Config], [Settings]: the text functions the sources use, flow control with
      its floating point, and every setting with its validation ([config.rs], [auth.rs]);
    - [Async]: the state transformers that stand for [async fn]s;
    - [Transport]: [KvConnection], request correlation and batches ([transport.rs]);
    - [Topology], [Cccp]: revisions, routes and the topology state, and the cluster
      configuration they are built from ([topology.rs]);
    - [Connect]: the TCP and TLS connection ([transport.rs]);
    - [Auth], [Bootstrap]: SASL PLAIN and SCRAM, and the bootstrap of a connection from the
      seeds to the selected bucket ([auth.rs], [bootstrap.rs]);
    - [Mitigation]: rollback mitigation, from the observation plan to the delivery gate
      ([rollback_mitigation.rs]);
    - [Stream]: start positions, the open loop and rollback policy (first half of
      [stream.rs], [fetch_failover_log] of [topology.rs], capabilities of
      [bootstrap.rs]);
    - [Collections]: manifests, filters and the registry of names ([collections.rs]);
    - [Worker]: the task that owns a connection, from frames to events, with progress
      checks, flow-control credit and commands (second half of [stream.rs]);
    - [StreamHandle], [StreamHandleSpec]: the handle that owns the task, its channels, and
      its [shutdown] ([DcpStream] of [stream.rs]);
    - [CheckpointRuntime]: the checkpoint coordinator ([checkpoint_runtime.rs]);
    - [CheckpointSpec]: its abstract specification and the refinement;
    - [CheckpointFlush]: the coordinator, the flusher and the store as one transition
      system; [Scheduler], [SchedulerSpec]: its automatic loop, [shutdown], and the handles;
    - [Store], [StoreCouchbase]: the checkpoint documents, the file store and the Couchbase
      store ([checkpoint_store.rs], [checkpoint_couchbase.rs]), and [StoreSpec], what a
      store promises the flush;
    - [CheckpointKv]: the KV operations of the Couchbase store ([checkpoint_couchbase.rs]);
    - [Progress]: the coordinator as its clients see it, with the tokens it hands out;
    - [Delivery]: the worker and the coordinator side by side;
    - [Observability]: the counters and the health state ([observability.rs]);
    - [Generation]: opening the streams of all nodes (first part of [client.rs]);
    - [Client], [ClientSpec]: starting a subscription and the supervising task with its
      reconnection loop, the health task and the application (second part of [client.rs]),
      and what they promise together;
    - [Lifecycle], [LifecycleSpec]: [connect], [subscribe], [close] and the drops of a client
      by concurrent callers (third part of [client.rs]).

    [rust-dcp-membership-couchbase], groups of members that share the vBuckets:
    - [Membership]: the registry document ([model.rs], [error.rs]);
    - [MembershipRuntime]: the compare-and-swap loop, the background task and the KV
      store ([runtime.rs], [store.rs]);
    - [MembershipSpec]: any number of members over one document.

    [rust-dcp-membership-kubernetes], shares by the pods of a cluster:
    - [Kubernetes]: the pod list, the watch and the stateful set ([model.rs], [source.rs],
      [runtime.rs], [stateful.rs]);
    - [KubernetesSpec]: the cluster the watch follows, and the shares of its pods.

    [rust-dcp-prometheus]: [Prometheus], the collector and its metric families.

    [rust-dcp-couchbase-sdk]: [Sdk], the checkpoint and membership adapters over the official
    SDK ([checkpoint.rs], [membership.rs]).

    How they interact: the client discovers a topology ([discover_topology]), takes an
    assignment (its own or a membership's), and opens a generation: one connection a node,
    each with the start positions of its vBuckets ([open_tokio_generation]).
    [open_dcp_stream] hands the partitions to [run_worker], which delivers events over a
    bounded channel; the supervising task holds them at the mitigation gate, names their
    collection, registers them with the coordinator and queues them; the application
    acknowledges; [flush] saves the processed positions.  A lost connection or a newer
    topology ends the generation, and the next one starts at the processed positions.

    ** Correspondence

    A struct is a [Record] with the source's fields behind a short prefix, an enum an
    [Inductive] with the source's constructors, a function a [Definition] or [Fixpoint]
    of the source's name.  Machine integers are [Z] with their range stated; unchecked
    arithmetic, indexing and [expect] go to [Panic], the third outcome of [res], and the
    safety theorems show that it is not reached.  Error values carry the source's message.
    A [BTreeMap] is a [gmap] visited in ascending key order, a [VecDeque] a list.  An
    [async fn] is a state transformer of type [io]: the socket, the event channel and the
    branch [tokio::select!] takes are environment scripts in the state, and an await that
    never completes is [Hang], which a deadline turns into its timeout error.  The
    coordinator's flush is split at its lock sections, so that every interleaving with
    other operations is a path of [sys_step]; the supervising task is split at its awaits
    ([Phase]), and [client_step] executes the code from one await to the next; a registry
    update is split into its read and its conditional write ([group_step]).  Whether the
    shutdown of a node's stream answers is the environment's ([StopReply], [backend_stop]):
    [StreamHandle] shows that it may not, and everything that awaits it, the opening of a
    generation that fails, a refused reopening, a discarded preparation and the end of a
    subscription, is held up with it.

    Code outside the repository is a parameter: [serde_json] ([to_vec], [from_slice] and
    the decoders of manifests, cluster configurations and registries), [crc32fast], the
    Snappy codec (class [Snappy]), the TLS library ([TlsLibrary], with the answers of the
    socket in [ConnectEnv]), the digests and the nonce of SCRAM ([ScramCrypto]), the
    checkpoint text ([CheckpointJson]), the file system's answers, the collection of the
    Couchbase store ([XattrCollection]), the registration checks of the prometheus crate
    ([PrometheusCrate]), the official SDK ([SdkCollection], with its laws), the items of the Kubernetes watcher, the application's rollback
    handler ([handler]), and the clock.  What a component promises to another is a class or a contract that the
    implementation's theorems discharge: [MitigationSource], [ClientBackend],
    [CheckpointStore].

    ** What the theorems show

    - Checkpoints: in every interleaving of deliveries, acknowledgements, rebases and
      concurrent flushes the store never holds a position beyond an unacknowledged event
      (a save collected before a rebase may land after it, while the partition is dirty and
      so saved again); a clean partition is durable, the processed position is exactly the longest
      acknowledged prefix, and no coordinator call panics; a [shutdown] that succeeds has
      made everything processed before it durable, and none is ever stuck.
    - Client: opening a generation is all or nothing and exact, and ends unless a stream it
      has to shut down again never answers; the application receives
      each generation's events in order behind a generation fence; a processed position
      covers only events the application acknowledged; a reconnection loses nothing; the
      open streams are always exactly those of the driven generation; a cancelled
      subscription ends within five steps of its task.
    - Client life: a client has one active subscription at most, whoever is dropped and
      when; after [close] no subscription starts; every call that waits for a subscription
      gets its one result, the caller that joins its task the result itself and the others its
      text; a close is never stuck, unless on a stream whose shutdown never answers.
    - Stores: a save is one of the replies the flush is proved for; the file is replaced
      atomically and read back as written; the Couchbase store never overwrites the
      checkpoint of another bucket; each KV operation is exactly its command, sent to the
      active node of its key's vBucket, and repeated only when that route was stale.
    - Connecting: TLS verifies the dialled host against roots that are not empty; bootstrap
      authenticates before it selects the bucket; a SCRAM exchange is accepted only from a
      server that knows the password, and completes with one that does; the password itself
      is sent only to a server that offers no SCRAM.
    - Kubernetes: the view of the watch is the cluster's, pods with one view own disjoint
      shares, oldest first, and a pod that is replaced is fenced.
    - Prometheus: the collector never fails to build a family and exports every counter and
      the health state.
    - Mitigation: an event passes the gate only when every copy has persisted it, and an
      observation cycle is exactly the minimum over the answers.
    - Collections: resolving names is exact, and the registry never panics nor changes
      anything but names.
    - Topology: an accepted configuration gives exactly its endpoints and the route of every
      row of its vBucket map; change sets are exact and revisions only increase.
    - Membership: members that act on one generation own disjoint vBuckets that cover the
      bucket, and a member that keeps its lease is never removed; the SDK adapter's writes
      are steps of such a group, and its checkpoint collection is a lawful one.
    - Streams: start positions resolve to valid requests; opening ends within seventeen
      rounds and rewinds only with authorization; the worker delivers each vBucket's
      events in strictly increasing order within its bounds, is an exact transducer of
      the inbound frames, and conserves flow-control credit; what its owner reads is its
      output, in order; a [shutdown] of the stream returns with its credit acknowledged,
      unless the event channel is full, which it waits for but does not read; what the
      worker delivers the coordinator accepts.
    - Transport: requests get the response with their opaque, batches get theirs in
      order, and no other frame is lost or reordered (lemmas that the claims on bootstrap,
      authentication and opening use).
    - Protocol: encoding and decoding are inverse on frames, varints and the response
      layouts; decoders and parsers return errors, never panic, on any input.
    - Assignment: the members' shares partition the vBuckets and differ by at most one.

    ** Fuel and bounds

    Loops without a structural argument carry fuel with a proof that it is enough: the
    decoders use the length of their input, [open_loop] seventeen rounds (the
    seventeenth rollback fails), [threshold_search] 33 halvings of a 32-bit interval,
    [credit_flush_loop] one round per [u32::MAX] pending bytes, [allocate_free] one more
    attempt than there are claimed opaques, and the loops that await frames recurse over
    the frames that arrive.

    ** What is not modelled

    The re-exports of the facade crates, serde derives, [Debug] implementations, buffer
    capacities, and the bytes a failed write leaves in the sink's buffer.  The subscription
    of [Client] flushes at the end as one step; that [shutdown] runs beside the automatic
    loop is the subject of [Scheduler].  A tick of an interval is possible at any time. *)

From stdpp Require Export base gmap list list_numbers strings pretty sorting.
From Stdlib Require Export ZArith Lia.
#[export] Set Default Goal Selector "!".
Global Open Scope Z_scope.

(** ** Results

    A Rust call has three outcomes here: [Ok], [Err], and [Panic] for an index
    out of range, an [expect] on [None] or an arithmetic overflow caught by the
    checks of a debug build.  The safety theorems show which calls never reach
    [Panic]. *)

Inductive res (E A : Type) : Type :=
| Ok (a : A)
| Err (e : E)
| Panic.
Arguments Ok {E A} a.
Arguments Err {E A} e.
Arguments Panic {E A}.

Declare Scope res_scope.
Delimit Scope res_scope with res.
Global Open Scope res_scope.

(** The [?] operator: errors and panics leave the enclosing function. *)
Notation "'let?' x ':=' c1 'in' c2" :=
  (match c1 with Ok x => c2 | Err e => Err e | Panic => Panic end)
  (at level 10, x pattern, c1 at level 200, c2 at level 200) : res_scope.
Notation "'do?' c1 'in' c2" :=
  (match c1 with Ok _ => c2 | Err e => Err e | Panic => Panic end)
  (at level 10, c1 at level 200, c2 at level 200) : res_scope.

(** [Result::map], [Result::map_err] and [Option::ok_or_else]. *)
Definition res_map {E A B} (f : A → B) (r : res E A) : res E B :=
  let? a := r in Ok (f a).

Definition map_err {E F A} (f : E → F) (r : res E A) : res F A :=
  match r with Ok a => Ok a | Err e => Err (f e) | Panic => Panic end.

Definition ok_or {E A} (o : option A) (e : E) : res E A :=
  match o with Some a => Ok a | None => Err e end.

Definition is_ok {E A} (r : res E A) : bool :=
  match r with Ok _ => true | _ => false end.

Definition no_panic {E A} (r : res E A) : Prop := r ≠ Panic.

(** [iter.map(f).collect::<Result<Vec<_>>>()]: stops at the first failure. *)
Fixpoint mapM_res {E A B} (f : A → res E B) (l : list A) : res E (list B) :=
  match l with
  | [] => Ok []
  | x :: l =>
      let? y := f x in
      let? ys := mapM_res f l in
      Ok (y :: ys)
  end.

(** A [for] loop whose body may leave the function with [?]. *)
Fixpoint for_res {E A S} (l : list A) (s : S) (body : S → A → res E S) : res E S :=
  match l with
  | [] => Ok s
  | x :: l => let? s' := body s x in for_res l s' body
  end.

(** ** Machine integers, as integers with their range. *)

Definition u8_max : Z := 255.
Definition u16_max : Z := 65535.
Definition u32_max : Z := 4294967295.
Definition u64_max : Z := 18446744073709551615.
(** [usize] on the 64-bit targets the crates are built for. *)
Definition usize_max : Z := u64_max.

Definition in_range (m z : Z) : Prop := 0 ≤ z ≤ m.
Abbreviation is_u8 := (in_range u8_max).
Abbreviation is_u16 := (in_range u16_max).
Abbreviation is_u32 := (in_range u32_max).
Abbreviation is_u64 := (in_range u64_max).

Definition checked_add (m a b : Z) : option Z :=
  if a + b <=? m then Some (a + b) else None.
Definition saturating_sub (a b : Z) : Z := Z.max 0 (a - b).
(** [TryFrom] between unsigned integers. *)
Definition try_from (m z : Z) : option Z := if z <=? m then Some z else None.
(** Unchecked [+] of a debug build. *)
Definition add_or_panic {E} (m a b : Z) : res E Z :=
  if a + b <=? m then Ok (a + b) else Panic.

Definition mul_or_panic {E} (m a b : Z) : res E Z :=
  if a * b <=? m then Ok (a * b) else Panic.
(** The display text of [TryFromIntError]. *)
Definition try_from_int_error : string := "out of range integral type conversion attempted".

Ltac unfold_ranges :=
  unfold in_range, usize_max, u64_max, u32_max, u16_max, u8_max in *.

(** ** Byte strings *)

Abbreviation bytes := (list Z).
Definition wf_bytes (bs : bytes) : Prop := Forall is_u8 bs.
Definition len {A} (l : list A) : Z := Z.of_nat (length l).
Arguments len : simpl never.

(** [&bytes[i]] and [&bytes[a..b]]: a panic out of range. *)
Definition index {E A} (l : list A) (i : Z) : res E A :=
  match l !! Z.to_nat i with Some x => Ok x | None => Panic end.
Definition slice {E A} (l : list A) (a b : Z) : res E (list A) :=
  if (0 <=? a) && (a <=? b) && (b <=? len l)
  then Ok (take (Z.to_nat (b - a)) (drop (Z.to_nat a) l))
  else Panic.
Definition slice_from {E A} (l : list A) (a : Z) : res E (list A) := slice l a (len l).
Definition slice_to {E A} (l : list A) (b : Z) : res E (list A) := slice l 0 b.

(** [to_be_bytes] / [put_u16], [put_u32], [put_u64] and [from_be_bytes]. *)
Definition to_be_bytes (n z : Z) : bytes := reverse (Z_to_little_endian n 8 z).
Definition from_be_bytes (bs : bytes) : Z := little_endian_to_Z 8 (reverse bs).
Arguments to_be_bytes : simpl never.
Arguments from_be_bytes : simpl never.
Definition put_u8 (z : Z) : bytes := [z].
Definition put_u16 (z : Z) : bytes := to_be_bytes 2 z.
Definition put_u32 (z : Z) : bytes := to_be_bytes 4 z.
Definition put_u64 (z : Z) : bytes := to_be_bytes 8 z.

(** ** Text: a Rust [String] is a byte string; [as_bytes] exposes the bytes. *)

Definition as_bytes (s : string) : bytes :=
  (λ a, Z.of_N (Ascii.N_of_ascii a)) <$> String.list_ascii_of_string s.
Definition of_bytes (bs : bytes) : string :=
  String.string_of_list_ascii ((λ b, Ascii.ascii_of_N (Z.to_N b)) <$> bs).
Definition str_len (s : string) : Z := Z.of_nat (String.length s).

Definition is_ascii_alphanumeric (b : Z) : bool :=
  ((48 <=? b) && (b <=? 57)) || ((65 <=? b) && (b <=? 90)) || ((97 <=? b) && (b <=? 122)).
Definition is_ascii_graphic (b : Z) : bool := (33 <=? b) && (b <=? 126).

(** Lower-case hexadecimal digits, as [{:x}] prints them, least significant first
    in [hex_go]; [hex_pad2] is [{:02x}] and [hex_pad4] is [{:04x}]. *)
Definition hex_digit (d : Z) : Ascii.ascii :=
  Ascii.ascii_of_N (Z.to_N (if d <? 10 then 48 + d else 87 + d)).
Fixpoint hex_go (fuel : nat) (z : Z) (acc : string) : string :=
  match fuel with
  | O => acc
  | S fuel =>
      let acc := String (hex_digit (z `mod` 16)) acc in
      if z / 16 =? 0 then acc else hex_go fuel (z / 16) acc
  end.
(** Sixteen digits print every [u64]. *)
Definition hex (z : Z) : string := hex_go 16 z "".
Definition pad_to (n : nat) (s : string) : string :=
  Nat.iter (n - String.length s) (String (Ascii.ascii_of_N 48)) s.
Definition hex_pad2 (z : Z) : string := pad_to 2 (hex z).
Definition hex_pad4 (z : Z) : string := pad_to 4 (hex z).

(** [String::from_utf8] and [String::from_utf8_lossy].  [utf8_step bs] is the
    verdict on the first scalar value of [bs]: [(true, n)] for a well-formed
    sequence of [n] bytes, [(false, n)] for a maximal ill-formed prefix of [n]
    bytes, which the lossy conversion replaces by U+FFFD. *)
Definition is_cont (lo hi : Z) (b : option Z) : bool :=
  match b with Some b => (lo <=? b) && (b <=? hi) | None => false end.

Definition utf8_step (bs : bytes) : bool * nat :=
  let b1 := bs !! 1%nat in
  let b2 := bs !! 2%nat in
  let b3 := bs !! 3%nat in
  match bs with
  | [] => (true, 0%nat)
  | b0 :: _ =>
      if b0 <? 128 then (true, 1%nat)
      else if (194 <=? b0) && (b0 <=? 223) then
        if is_cont 128 191 b1 then (true, 2%nat) else (false, 1%nat)
      else if (224 <=? b0) && (b0 <=? 239) then
        let lo := if b0 =? 224 then 160 else 128 in
        let hi := if b0 =? 237 then 159 else 191 in
        if negb (is_cont lo hi b1) then (false, 1%nat)
        else if is_cont 128 191 b2 then (true, 3%nat) else (false, 2%nat)
      else if (240 <=? b0) && (b0 <=? 244) then
        let lo := if b0 =? 240 then 144 else 128 in
        let hi := if b0 =? 244 then 143 else 191 in
        if negb (is_cont lo hi b1) then (false, 1%nat)
        else if negb (is_cont 128 191 b2) then (false, 2%nat)
        else if is_cont 128 191 b3 then (true, 4%nat) else (false, 3%nat)
      else (false, 1%nat)
  end.

(** The length of the input is enough fuel: every step consumes a byte. *)
Fixpoint utf8_lossy_go (fuel : nat) (bs : bytes) : bytes :=
  match fuel, bs with
  | S fuel, _ :: _ =>
      let '(valid, n) := utf8_step bs in
      (if valid then take n bs else [239; 191; 189]) ++ utf8_lossy_go fuel (drop n bs)
  | _, _ => []
  end.
Definition from_utf8_lossy (bs : bytes) : string := of_bytes (utf8_lossy_go (length bs) bs).

Fixpoint utf8_valid_go (fuel : nat) (bs : bytes) : bool :=
  match fuel, bs with
  | S fuel, _ :: _ =>
      let '(valid, n) := utf8_step bs in valid && utf8_valid_go fuel (drop n bs)
  | _, _ => true
  end.
Definition from_utf8 (bs : bytes) : option string :=
  if utf8_valid_go (length bs) bs then Some (of_bytes bs) else None.

(** ** [BTreeMap]: a finite map visited in ascending key order. *)

Section BTree.
Context {A : Type}.
Implicit Types m : gmap Z A.

Definition btree_keys m : list Z := merge_sort Z.le (elements (dom m)).
Definition btree_to_list m : list (Z * A) :=
  omap (λ k, pair k <$> m !! k) (btree_keys m).
Definition btree_values m : list A := omap (λ k, m !! k) (btree_keys m).
(** [collect::<BTreeMap<_, _>>()]: a later entry replaces an earlier one. *)
Definition btree_collect (l : list (Z * A)) : gmap Z A :=
  foldl (λ m kv, <[kv.1 := kv.2]> m) ∅ l.
End BTree.

(** ** Shared lemmas *)

Lemma len_app {A} (l k : list A) : len (l ++ k) = len l + len k.
Proof. unfold len. rewrite length_app. lia. Qed.
Lemma len_cons {A} (x : A) l : len (x :: l) = 1 + len l.
Proof. unfold len. simpl. lia. Qed.
Lemma len_nonneg {A} (l : list A) : 0 ≤ len l.
Proof. unfold len. lia. Qed.
Lemma len_nil_inv {A} (l : list A) : len l = 0 → l = [].
Proof. destruct l; [done|]. unfold len. simpl. lia. Qed.

Lemma length_to_be_bytes n z : 0 ≤ n → length (to_be_bytes n z) = Z.to_nat n.
Proof.
  intros Hn. unfold to_be_bytes. rewrite length_reverse.
  pose proof (length_Z_to_little_endian n 8 z Hn). lia.
Qed.
Lemma len_to_be_bytes n z : 0 ≤ n → len (to_be_bytes n z) = n.
Proof. intros Hn. unfold len. rewrite length_to_be_bytes; lia. Qed.

Lemma len_put_u8 z : len (put_u8 z) = 1.
Proof. done. Qed.
Lemma len_put_u16 z : len (put_u16 z) = 2.
Proof. by apply len_to_be_bytes. Qed.
Lemma len_put_u32 z : len (put_u32 z) = 4.
Proof. by apply len_to_be_bytes. Qed.
Lemma len_put_u64 z : len (put_u64 z) = 8.
Proof. by apply len_to_be_bytes. Qed.

(** Lengths of laid-out buffers. *)
Create Rewrite HintDb len_db.
#[export] Hint Rewrite @len_app len_put_u8 len_put_u16 len_put_u32 len_put_u64 : len_db.

Lemma wf_to_be_bytes n z : 0 ≤ n → wf_bytes (to_be_bytes n z).
Proof.
  intros Hn. unfold wf_bytes, to_be_bytes. apply Forall_reverse.
  eapply Forall_impl; [apply (Z_to_little_endian_bound n 8 z); lia|].
  intros b. simpl. unfold_ranges. lia.
Qed.

Lemma from_to_be_bytes n z :
  0 ≤ n → 0 ≤ z < 2 ^ (n * 8) → from_be_bytes (to_be_bytes n z) = z.
Proof.
  intros Hn Hz. unfold from_be_bytes, to_be_bytes. rewrite reverse_involutive.
  rewrite little_endian_to_Z_to_little_endian by lia. by apply Z.mod_small.
Qed.

Lemma to_from_be_bytes bs :
  wf_bytes bs → to_be_bytes (len bs) (from_be_bytes bs) = bs.
Proof.
  intros Hbs. unfold from_be_bytes, to_be_bytes.
  rewrite Z_to_little_endian_to_Z; [apply reverse_involutive|..].
  - unfold len. by rewrite length_reverse.
  - lia.
  - apply Forall_reverse. eapply Forall_impl; [done|].
    intros b. simpl. unfold_ranges. lia.
Qed.

Lemma from_be_bytes_bound bs :
  wf_bytes bs → 0 ≤ from_be_bytes bs < 2 ^ (len bs * 8).
Proof.
  intros Hbs. unfold from_be_bytes, len.
  rewrite <-length_reverse. apply little_endian_to_Z_bound; [lia|].
  apply Forall_reverse. eapply Forall_impl; [done|].
  intros b. simpl. unfold_ranges. lia.
Qed.

(** Slices of concatenations, as a parser takes a buffer apart. *)
Lemma slice_app_mid {E A} (a b c : list A) i j :
  i = len a → j = len a + len b → slice (E:=E) (a ++ b ++ c) i j = Ok b.
Proof.
  intros -> ->. unfold slice. rewrite !len_app.
  pose proof (len_nonneg a). pose proof (len_nonneg b). pose proof (len_nonneg c).
  destruct (Z.leb_spec 0 (len a)); [|lia].
  destruct (Z.leb_spec (len a) (len a + len b)); [|lia].
  destruct (Z.leb_spec (len a + len b) (len a + (len b + len c))); [|lia]. simpl.
  unfold len. rewrite drop_app_length' by lia. rewrite take_app_length' by lia. done.
Qed.
Lemma slice_from_app {E A} (a b : list A) i :
  i = len a → slice_from (E:=E) (a ++ b) i = Ok b.
Proof.
  intros Hi. unfold slice_from. rewrite len_app, <-(app_nil_r b) at 1.
  by apply slice_app_mid.
Qed.
Lemma slice_to_app {E A} (a b : list A) j :
  j = len a → slice_to (E:=E) (a ++ b) j = Ok a.
Proof. intros Hj. by apply (slice_app_mid [] a b). Qed.
(** A slice that starts beyond a prefix. *)
Lemma slice_app_r {E A} (a l : list A) i j :
  len a ≤ i → slice (E:=E) (a ++ l) i j = slice l (i - len a) (j - len a).
Proof.
  intros Hi. pose proof (len_nonneg a). unfold slice. rewrite len_app.
  replace (0 <=? i) with true by lia. replace (0 <=? i - len a) with true by lia.
  replace (i <=? j) with (i - len a <=? j - len a) by lia.
  replace (j <=? len a + len l) with (j - len a <=? len l) by lia.
  case_match; [|done]. rewrite drop_app_ge by (unfold len in *; lia).
  do 2 f_equal; [f_equal; lia|]. f_equal. unfold len in *. lia.
Qed.
Lemma slice_from_cons {E A} (x : A) l : slice_from (E:=E) (x :: l) 1 = Ok l.
Proof. by apply (slice_from_app [x] l). Qed.

Lemma slice_from_ok {E A} (l : list A) a :
  0 ≤ a ≤ len l → slice_from (E:=E) l a = Ok (drop (Z.to_nat a) l).
Proof.
  intros Ha. unfold slice_from, slice.
  destruct (Z.leb_spec 0 a); [|lia]. destruct (Z.leb_spec a (len l)); [|lia].
  rewrite Z.leb_refl. simpl. f_equal. apply take_ge. rewrite length_drop. unfold len in *. lia.
Qed.
Lemma slice_ok {E A} (l : list A) a b :
  0 ≤ a ≤ b → b ≤ len l →
  slice (E:=E) l a b = Ok (take (Z.to_nat (b - a)) (drop (Z.to_nat a) l)).
Proof.
  intros Ha Hb. unfold slice. destruct (Z.leb_spec 0 a); [|lia].
  destruct (Z.leb_spec a b); [|lia]. by destruct (Z.leb_spec b (len l)); [|lia].
Qed.
Lemma index_ok {E A} (l : list A) i : 0 ≤ i < len l → ∃ x, index (E:=E) l i = Ok x ∧ x ∈ l.
Proof.
  intros Hi. unfold index.
  destruct (lookup_lt_is_Some_2 l (Z.to_nat i)) as [x Hx]; [unfold len in *; lia|].
  rewrite Hx. exists x. split; [done|]. by apply list_elem_of_lookup_2 in Hx.
Qed.

(** The big-endian fields, byte by byte. *)
Lemma put_u16_inv z : is_u16 z → ∃ a b, put_u16 z = [a; b] ∧ from_be_bytes [a; b] = z.
Proof.
  intros Hz. unfold put_u16.
  pose proof (from_to_be_bytes 2 z ltac:(lia) ltac:(unfold_ranges; lia)) as Hd.
  pose proof (length_to_be_bytes 2 z ltac:(lia)) as Hl.
  destruct (to_be_bytes 2 z) as [|a [|b [|? ?]]]; try done. eauto.
Qed.
Lemma put_u32_inv z :
  is_u32 z → ∃ a b c d, put_u32 z = [a; b; c; d] ∧ from_be_bytes [a; b; c; d] = z.
Proof.
  intros Hz. unfold put_u32.
  pose proof (from_to_be_bytes 4 z ltac:(lia) ltac:(unfold_ranges; lia)) as Hd.
  pose proof (length_to_be_bytes 4 z ltac:(lia)) as Hl.
  destruct (to_be_bytes 4 z) as [|a [|b [|c [|d [|? ?]]]]]; try done. eauto 6.
Qed.
Lemma put_u64_inv z :
  is_u64 z → ∃ a b c d e f g h, put_u64 z = [a; b; c; d; e; f; g; h]
    ∧ from_be_bytes [a; b; c; d; e; f; g; h] = z.
Proof.
  intros Hz. unfold put_u64.
  pose proof (from_to_be_bytes 8 z ltac:(lia) ltac:(unfold_ranges; lia)) as Hd.
  pose proof (length_to_be_bytes 8 z ltac:(lia)) as Hl.
  destruct (to_be_bytes 8 z) as [|a [|b [|c [|d [|e [|f [|g [|h [|? ?]]]]]]]]]; try done.
  eauto 12.
Qed.
Lemma index_cons_0 {E A} (x : A) l : index (E:=E) (x :: l) 0 = Ok x.
Proof. done. Qed.
Lemma index_app_l {E A} (l k : list A) i x :
  l !! Z.to_nat i = Some x → index (E:=E) (l ++ k) i = Ok x.
Proof. intros Hi. unfold index. by erewrite lookup_app_l_Some. Qed.
Lemma slice_inv {E A} (l l' : list A) a b :
  slice (E:=E) l a b = Ok l' → 0 ≤ a ≤ b ∧ b ≤ len l ∧ len l' = b - a.
Proof.
  unfold slice. destruct (Z.leb_spec 0 a); [|done]. destruct (Z.leb_spec a b); [|done].
  destruct (Z.leb_spec b (len l)); [|done]. simpl. intros. simplify_eq.
  split_and!; [lia..|]. unfold len in *. rewrite length_take, length_drop. lia.
Qed.
Lemma slice_from_inv {E A} (l l' : list A) a :
  slice_from (E:=E) l a = Ok l' → 0 ≤ a ≤ len l ∧ len l' = len l - a.
Proof. intros H%slice_inv. lia. Qed.
Lemma slice_wf {E} (l l' : bytes) a b : slice (E:=E) l a b = Ok l' → wf_bytes l → wf_bytes l'.
Proof.
  unfold slice. case_match; [|done]. intros ? ?. simplify_eq.
  by apply Forall_take, Forall_drop.
Qed.

(** Panics, read backwards: what an index, slice or addition must have violated. *)
Lemma index_panic {E A} (l : list A) i : index (E:=E) l i = Panic → 0 ≤ i → len l ≤ i.
Proof.
  unfold index. case_match eqn:H; [done|]. intros _ Hi. apply lookup_ge_None in H.
  unfold len. lia.
Qed.
Lemma index_not_err {E A} (l : list A) i e : index (E:=E) l i ≠ Err e.
Proof. unfold index. by case_match. Qed.
Lemma index_elem {E A} (l : list A) i x : index (E:=E) l i = Ok x → x ∈ l.
Proof. unfold index. case_match eqn:H; [|done]. intros. simplify_eq. by eapply list_elem_of_lookup_2. Qed.
Lemma slice_panic {E A} (l : list A) a b :
  slice (E:=E) l a b = Panic → ¬ (0 ≤ a ≤ b ∧ b ≤ len l).
Proof. intros H (? & ?). rewrite slice_ok in H; [done|lia|lia]. Qed.
Lemma slice_from_panic {E A} (l : list A) a :
  slice_from (E:=E) l a = Panic → ¬ (0 ≤ a ≤ len l).
Proof. intros H%slice_panic. lia. Qed.
Lemma slice_to_panic {E A} (l : list A) b : slice_to (E:=E) l b = Panic → ¬ (0 ≤ b ≤ len l).
Proof. intros H%slice_panic. lia. Qed.
Lemma slice_to_inv {E A} (l l' : list A) b :
  slice_to (E:=E) l b = Ok l' → 0 ≤ b ≤ len l ∧ len l' = b.
Proof. intros H%slice_inv. lia. Qed.
Lemma add_or_panic_panic {E} m a b : add_or_panic (E:=E) m a b = Panic → m < a + b.
Proof. unfold add_or_panic. destruct (Z.leb_spec (a + b) m); done. Qed.
Lemma add_or_panic_inv {E} m a b c :
  add_or_panic (E:=E) m a b = Ok c → c = a + b ∧ a + b ≤ m.
Proof. unfold add_or_panic. destruct (Z.leb_spec (a + b) m); [|done]. by intros; simplify_eq. Qed.
Lemma add_or_panic_ok {E} m a b : a + b ≤ m → add_or_panic (E:=E) m a b = Ok (a + b).
Proof. intros H. unfold add_or_panic. by destruct (Z.leb_spec (a + b) m); [|lia]. Qed.
Lemma mul_or_panic_ok {E} m a b : a * b ≤ m → mul_or_panic (E:=E) m a b = Ok (a * b).
Proof. intros H. unfold mul_or_panic. by destruct (Z.leb_spec (a * b) m); [|lia]. Qed.
Lemma mapM_res_id {E A} (f : A → res E A) l :
  (∀ x, x ∈ l → f x = Ok x) → mapM_res f l = Ok l.
Proof.
  induction l as [|x l IH]; intros Hf; cbn [mapM_res]; [done|].
  rewrite Hf by set_solver. rewrite IH; [done|]. set_solver.
Qed.
(** Sequencing computations that do not panic. *)
Lemma let_no_panic {E A B} (r : res E A) (k : A → res E B) :
  r ≠ Panic → (∀ a, k a ≠ Panic) → (let? a := r in k a) ≠ Panic.
Proof. intros Hr Hk. destruct r; [apply Hk|done..]. Qed.
Lemma for_res_no_panic {E A S} (body : S → A → res E S) l :
  (∀ s x, body s x ≠ Panic) → ∀ s, for_res l s body ≠ Panic.
Proof.
  intros Hb. induction l as [|x l IH]; intros s; cbn [for_res]; [done|].
  apply let_no_panic; [apply Hb|]. intros s'. apply IH.
Qed.
Lemma ok_or_no_panic {E A} (o : option A) (e : E) : ok_or o e ≠ Panic.
Proof. by destruct o. Qed.
Lemma res_map_panic {E A B} (f : A → B) (r : res E A) : res_map f r = Panic → r = Panic.
Proof. by destruct r. Qed.
Lemma mapM_res_no_panic {E A B} (f : A → res E B) l :
  (∀ x, x ∈ l → f x ≠ Panic) → mapM_res f l ≠ Panic.
Proof.
  induction l as [|x l IH]; intros Hf; cbn [mapM_res]; [done|].
  pose proof (Hf x ltac:(left)). destruct (f x); [|done..].
  assert (mapM_res f l ≠ Panic) by (apply IH; intros; apply Hf; by right).
  by destruct (mapM_res f l).
Qed.

Lemma mapM_res_total {E A B} (f : A → res E B) l :
  (∀ x, x ∈ l → ∃ y, f x = Ok y) → ∃ l', mapM_res f l = Ok l'.
Proof.
  induction l as [|x l IH]; intros Hf; cbn [mapM_res]; [by eexists|].
  destruct (Hf x) as [y ->]; [left|]. destruct IH as [l' ->]; [|by eexists].
  intros z Hz. apply Hf. by right.
Qed.
Lemma mapM_res_ok {E A B} (g : A → res E B) l l' :
  mapM_res g l = Ok l' → Forall2 (λ x y, g x = Ok y) l l'.
Proof.
  revert l'. induction l as [|x l IH]; intros l'; cbn [mapM_res]; [by intros [= <-]|].
  destruct (g x) eqn:Hg; [|done..]. destruct (mapM_res g l) eqn:Hl; [|done..].
  intros [= <-]. constructor; auto.
Qed.

Lemma ok_or_not_panic {E A} (o : option A) (e : E) : ok_or o e ≠ Panic.
Proof. by destruct o. Qed.
Lemma try_from_ok {E} m z (e : E) : z ≤ m → ok_or (try_from m z) e = Ok z.
Proof. intros Hz. unfold try_from. by destruct (Z.leb_spec z m); [|lia]. Qed.
Lemma checked_add_inv m a b c : checked_add m a b = Some c → c = a + b ∧ a + b ≤ m.
Proof. unfold checked_add. destruct (Z.leb_spec (a + b) m); [|done]. by intros; simplify_eq. Qed.
Lemma ok_or_inv {E A} (o : option A) (e : E) x : ok_or o e = Ok x → o = Some x.
Proof. destruct o; simpl; congruence. Qed.
Lemma try_from_inv m z c : try_from m z = Some c → c = z ∧ z ≤ m.
Proof. unfold try_from. destruct (Z.leb_spec z m); [|done]. by intros; simplify_eq. Qed.
Lemma wf_cons x (l : bytes) : wf_bytes (x :: l) ↔ is_u8 x ∧ wf_bytes l.
Proof. apply Forall_cons. Qed.
Lemma wf_app (l k : bytes) : wf_bytes (l ++ k) ↔ wf_bytes l ∧ wf_bytes k.
Proof. apply Forall_app. Qed.
Lemma wf_elem x (l : bytes) : wf_bytes l → x ∈ l → 0 ≤ x ≤ 255.
Proof. unfold wf_bytes. rewrite Forall_forall. intros H Hx. by apply H in Hx. Qed.
Lemma wf_index {E} (l : bytes) i x : wf_bytes l → index (E:=E) l i = Ok x → 0 ≤ x ≤ 255.
Proof. intros Hwf H%index_elem. by eapply wf_elem. Qed.
Lemma wf_from_be (bs : bytes) n :
  wf_bytes bs → 2 ^ (len bs * 8) ≤ n → 0 ≤ from_be_bytes bs < n.
Proof. intros H%from_be_bytes_bound. lia. Qed.

(** Case analysis of a computation in [res] down to its primitive steps, each with the
    facts about lengths and bytes it carries. *)
Ltac res_cases := repeat (case_match; simplify_eq/=).
Ltac res_facts := repeat match goal with
  | H : index ?l ?i = Panic |- _ => apply index_panic in H; [|lia]
  | H : index ?l ?i = Err _ |- _ => by apply index_not_err in H
  | H : ok_or _ _ = Panic |- _ => by apply ok_or_not_panic in H
  | H : slice_from _ _ = Panic |- _ => apply slice_from_panic in H
  | H : slice_to _ _ = Panic |- _ => apply slice_to_panic in H
  | H : slice _ _ _ = Panic |- _ => apply slice_panic in H
  | H : add_or_panic _ _ _ = Ok _ |- _ => apply add_or_panic_inv in H as [? ?]; subst
  | H : add_or_panic _ _ _ = Panic |- _ => apply add_or_panic_panic in H
  end.

(** The next guard of a definition. *)
Ltac next_guard H := match goal with |- context [if ?b then _ else _] => destruct b eqn:H end.

(** Ascending iteration visits every entry once. *)
Section BTreeLemmas.
Context {A : Type}.
Implicit Types m : gmap Z A.

Lemma elem_of_btree_keys m k : k ∈ btree_keys m ↔ is_Some (m !! k).
Proof.
  unfold btree_keys. rewrite merge_sort_Permutation, elem_of_elements. apply elem_of_dom.
Qed.
Lemma NoDup_btree_keys m : NoDup (btree_keys m).
Proof. unfold btree_keys. rewrite merge_sort_Permutation. apply NoDup_elements. Qed.
Lemma elem_of_btree_to_list m k v : (k, v) ∈ btree_to_list m ↔ m !! k = Some v.
Proof.
  unfold btree_to_list. rewrite list_elem_of_omap. split.
  - intros (k' & _ & Hk). destruct (m !! k') eqn:Hm; simplify_eq/=. done.
  - intros Hk. exists k. rewrite elem_of_btree_keys, Hk. split; [by eexists|done].
Qed.
Lemma btree_to_list_keys m : (btree_to_list m).*1 = btree_keys m.
Proof.
  unfold btree_to_list.
  assert (∀ l, (∀ k, k ∈ l → is_Some (m !! k)) →
    (omap (λ k, pair k <$> m !! k) l).*1 = l) as H.
  { induction l as [|k l IH]; intros Hl; [done|].
    destruct (Hl k ltac:(set_solver)) as [v Hv]. csimpl. rewrite Hv. csimpl.
    rewrite IH; [done|]. set_solver. }
  apply H. intros k. by rewrite elem_of_btree_keys.
Qed.
Lemma NoDup_btree_to_list_keys m : NoDup (btree_to_list m).*1.
Proof. rewrite btree_to_list_keys. apply NoDup_btree_keys. Qed.

Lemma length_btree_to_list m : length (btree_to_list m) = size m.
Proof.
  rewrite <-(length_fmap fst (btree_to_list m)), btree_to_list_keys. unfold btree_keys.
  rewrite merge_sort_Permutation, <-size_dom. done.
Qed.
Lemma elem_of_btree_values m v : v ∈ btree_values m ↔ ∃ k, m !! k = Some v.
Proof.
  unfold btree_values. rewrite list_elem_of_omap. split.
  - intros (k & _ & Hk). eauto.
  - intros (k & Hk). exists k. rewrite elem_of_btree_keys, Hk. split; [by eexists|done].
Qed.
Lemma btree_collect_list_to_map (l : list (Z * A)) : btree_collect l = list_to_map (reverse l).
Proof.
  unfold btree_collect. induction l as [|[k v] l IH] using rev_ind; [done|].
  rewrite foldl_app, reverse_snoc. cbn [foldl list_to_map fst snd]. by rewrite IH.
Qed.
Lemma btree_collect_lookup (l : list (Z * A)) k v :
  NoDup l.*1 → btree_collect l !! k = Some v ↔ (k, v) ∈ l.
Proof.
  intros Hnd. rewrite btree_collect_list_to_map, <-elem_of_list_to_map.
  - by rewrite elem_of_reverse.
  - by rewrite reverse_Permutation.
Qed.
End BTreeLemmas.

(** A checking loop succeeds exactly when every check does. *)
Lemma for_res_checks {E A} (l : list A) (f : A → res E unit) :
  match for_res l tt (λ _, f) with
  | Ok _ => ∀ x, x ∈ l → f x = Ok tt
  | Err e => ∃ x, x ∈ l ∧ f x = Err e
  | Panic => ∃ x, x ∈ l ∧ f x = Panic
  end.
Proof.
  induction l as [|x l IH]; cbn [for_res]; [by intros x ?%elem_of_nil|].
  destruct (f x) as [[]|e|] eqn:Hx; [|exists x; split; [left|done]..].
  destruct (for_res l tt (λ _, f)) as [[]|e|].
  - intros y [-> |Hy]%elem_of_cons; auto.
  - destruct IH as (y & Hy & ?). exists y. split; [by right|done].
  - destruct IH as (y & Hy & ?). exists y. split; [by right|done].
Qed.

(** Taking one element out of a list. *)
Lemma elem_of_delete {A} (l : list A) n x :
  l !! n = Some x → ∀ y, y ∈ l ↔ y = x ∨ y ∈ delete n l.
Proof.
  intros Hn y. rewrite <-elem_of_cons. pose proof (delete_Permutation _ _ _ Hn) as Hp.
  split; intros Hy; [by rewrite <-Hp|by rewrite Hp].
Qed.
Lemma NoDup_delete {A B} (h : A → B) (l : list A) n x :
  l !! n = Some x → NoDup (h <$> l) →
  NoDup (h <$> delete n l) ∧ ∀ y, y ∈ delete n l → h y ≠ h x.
Proof.
  intros Hn Hl. rewrite (delete_Permutation _ _ _ Hn) in Hl. apply NoDup_cons in Hl as [Hni Hnd].
  split; [done|]. intros y Hy Heq. apply Hni. rewrite <-Heq. by apply list_elem_of_fmap_2.
Qed.
