(* ===== verification/Text.v ===== *)
(** * Text helpers of the Rust standard library that the client uses

    [{:?}] of strings, white space, [trim], searching and splitting, and
    [from_str_radix].  A Rust string is its UTF-8 bytes; a multi-byte white-space
    character is recognised by its encoding, whose first byte only occurs at a character
    boundary. *)
From S2P Require Import Prelude.

Definition dot : Ascii.ascii := Ascii.ascii_of_N 46.
Definition slash : Ascii.ascii := Ascii.ascii_of_N 47.
Definition colon : Ascii.ascii := Ascii.ascii_of_N 58.

(** ** [Debug] *)

(** The [Debug] text of a string; printable text is kept. *)
Definition debug_char (a : Ascii.ascii) : string :=
  let n := Z.of_N (Ascii.N_of_ascii a) in
  if n =? 34 then String (Ascii.ascii_of_N 92) (String a "")
  else if n =? 92 then String a (String a "")
  else if n =? 9 then "\t" else if n =? 10 then "\n" else if n =? 13 then "\r"
  else if n =? 0 then "\0"
  else if (n <? 32) || (n =? 127) then "\u{" +:+ hex n +:+ "}"
  else String a "".
Fixpoint debug_chars (s : string) : string :=
  match s with
  | String a s => debug_char a +:+ debug_chars s
  | EmptyString => ""
  end.
Definition quote : string := String (Ascii.ascii_of_N 34) "".
Definition debug_str (s : string) : string := quote +:+ debug_chars s +:+ quote.

Definition debug_option {A} (f : A → string) (o : option A) : string :=
  match o with Some x => "Some(" +:+ f x +:+ ")" | None => "None" end.
Fixpoint join (separator : string) (l : list string) : string :=
  match l with
  | [] => ""
  | [s] => s
  | s :: l => s +:+ separator +:+ join separator l
  end.
Definition debug_list {A} (f : A → string) (l : list A) : string :=
  "[" +:+ join ", " (f <$> l) +:+ "]".

(** ** UTF-8 errors *)
Fixpoint utf8_error_go (fuel : nat) (index : Z) (bs : bytes) : option string :=
  match fuel, bs with
  | S fuel, b :: _ =>
      let '(valid, n) := utf8_step bs in
      if valid then utf8_error_go fuel (index + Z.of_nat n) (drop n bs)
      else if (194 <=? b) && (b <=? 244) && (len bs =? Z.of_nat n) then
        Some ("incomplete utf-8 byte sequence from index " +:+ pretty index)
      else Some ("invalid utf-8 sequence of " +:+ pretty (Z.of_nat n)
                   +:+ " bytes from index " +:+ pretty index)
  | _, _ => None
  end.
(** The display text of the [Utf8Error] of an ill-formed input. *)
Definition utf8_error (bs : bytes) : string := default "" (utf8_error_go (length bs) 0 bs).

(** ** White space ([char::is_whitespace]) *)
Definition char_code (a : Ascii.ascii) : Z := Z.of_N (Ascii.N_of_ascii a).
Definition ws1 (a : Ascii.ascii) : bool :=
  let a := char_code a in ((9 <=? a) && (a <=? 13)) || (a =? 32).
(** U+0085 and U+00A0. *)
Definition ws2 (a b : Ascii.ascii) : bool :=
  (char_code a =? 0xc2) && ((char_code b =? 0x85) || (char_code b =? 0xa0)).
(** U+1680, U+2000 to U+200A, U+2028, U+2029, U+202F, U+205F and U+3000. *)
Definition ws3 (a b c : Ascii.ascii) : bool :=
  let a := char_code a in
  let b := char_code b in
  let c := char_code c in
  ((a =? 0xe1) && (b =? 0x9a) && (c =? 0x80))
  || ((a =? 0xe2) && (b =? 0x80)
      && (((0x80 <=? c) && (c <=? 0x8a)) || (c =? 0xa8) || (c =? 0xa9) || (c =? 0xaf)))
  || ((a =? 0xe2) && (b =? 0x81) && (c =? 0x9f))
  || ((a =? 0xe3) && (b =? 0x80) && (c =? 0x80)).

Fixpoint trim_start (s : string) : string :=
  match s with
  | EmptyString => ""
  | String a r =>
      if ws1 a then trim_start r
      else match r with
      | EmptyString => s
      | String b r2 =>
          if ws2 a b then trim_start r2
          else match r2 with
          | EmptyString => s
          | String c r3 => if ws3 a b c then trim_start r3 else s
          end
      end
  end.
Definition all_whitespace (s : string) : bool := bool_decide (trim_start s = "").
Fixpoint trim_end (s : string) : string :=
  match s with
  | EmptyString => ""
  | String a r => if all_whitespace s then "" else String a (trim_end r)
  end.
Definition trim (s : string) : string := trim_end (trim_start s).

(** Whether a white-space character starts the text. *)
Definition starts_whitespace (s : string) : bool :=
  match s with
  | String a r =>
      ws1 a || match r with
      | String b r2 => ws2 a b || match r2 with String c _ => ws3 a b c | _ => false end
      | _ => false
      end
  | _ => false
  end.
(** [s.chars().any(char::is_whitespace)] *)
Fixpoint has_whitespace (s : string) : bool :=
  match s with
  | EmptyString => false
  | String a r => starts_whitespace s || has_whitespace r
  end.

(** ** Searching *)
Definition starts_with (a : Ascii.ascii) (s : string) : bool :=
  match s with String b _ => bool_decide (a = b) | _ => false end.
Definition strip_prefix (a : Ascii.ascii) (s : string) : option string :=
  match s with String b r => if decide (a = b) then Some r else None | _ => None end.
Fixpoint contains (a : Ascii.ascii) (s : string) : bool :=
  match s with EmptyString => false | String b r => bool_decide (a = b) || contains a r end.
Fixpoint count_char (a : Ascii.ascii) (s : string) : nat :=
  match s with
  | EmptyString => 0
  | String b r => (if decide (a = b) then 1 else 0) + count_char a r
  end.
(** [split_once]: the text before and after the first occurrence. *)
Fixpoint split_once (a : Ascii.ascii) (s : string) : option (string * string) :=
  match s with
  | EmptyString => None
  | String b r =>
      if decide (a = b) then Some ("", r)
      else match split_once a r with Some (x, y) => Some (String b x, y) | None => None end
  end.
(** [rsplit_once]: before and after the last occurrence. *)
Fixpoint rsplit_once (a : Ascii.ascii) (s : string) : option (string * string) :=
  match s with
  | EmptyString => None
  | String b r =>
      match rsplit_once a r with
      | Some (x, y) => Some (String b x, y)
      | None => if decide (a = b) then Some ("", r) else None
      end
  end.
Fixpoint strip_suffix (a : Ascii.ascii) (s : string) : option string :=
  match s with
  | EmptyString => None
  | String b EmptyString => if decide (a = b) then Some "" else None
  | String b r => String b <$> strip_suffix a r
  end.

Definition to_ascii_lowercase (a : Ascii.ascii) : Ascii.ascii :=
  let n := char_code a in
  if (65 <=? n) && (n <=? 90) then Ascii.ascii_of_N (Z.to_N (n + 32)) else a.
Fixpoint ascii_lowercase (s : string) : string :=
  match s with
  | EmptyString => ""
  | String a r => String (to_ascii_lowercase a) (ascii_lowercase r)
  end.
Definition eq_ignore_ascii_case (a b : string) : bool :=
  bool_decide (ascii_lowercase a = ascii_lowercase b).

(** ** [from_str_radix], with the display text of [ParseIntError] *)
Definition to_digit (radix : Z) (a : Ascii.ascii) : option Z :=
  let n := char_code a in
  let d :=
    if (48 <=? n) && (n <=? 57) then Some (n - 48)
    else if (97 <=? n) && (n <=? 122) then Some (n - 87)
    else if (65 <=? n) && (n <=? 90) then Some (n - 55)
    else None in
  match d with Some d => if d <? radix then Some d else None | None => None end.

Fixpoint parse_digits (radix max acc : Z) (s : string) : string + Z :=
  match s with
  | EmptyString => inr acc
  | String a r =>
      match to_digit radix a with
      | None => inl "invalid digit found in string"
      | Some d =>
          if max <? acc * radix + d then inl "number too large to fit in target type"
          else parse_digits radix max (acc * radix + d) r
      end
  end.
Definition plus_sign : Ascii.ascii := Ascii.ascii_of_N 43.
Definition from_str_radix (radix max : Z) (s : string) : string + Z :=
  match s with
  | EmptyString => inl "cannot parse integer from empty string"
  | String a r =>
      if decide (a = plus_sign) then
        match r with
        | EmptyString => inl "invalid digit found in string"
        | _ => parse_digits radix max 0 r
        end
      else parse_digits radix max 0 s
  end.
Definition parse_u16 (s : string) : string + Z := from_str_radix 10 u16_max s.

Example parse_u16_samples :
  parse_u16 "11210" = inr 11210 ∧ parse_u16 "+7" = inr 7
  ∧ parse_u16 "70000" = inl "number too large to fit in target type"
  ∧ parse_u16 "-1" = inl "invalid digit found in string"
  ∧ trim "  a b	" = "a b" ∧ from_str_radix 16 u32_max "fF" = inr 255.
Proof. vm_compute. done. Qed.

(** ** Lemmas: decimal numbers *)

(** ** Splitting and replacing *)

(** [str::split] with one character: there is always a last piece. *)
Fixpoint split (a : Ascii.ascii) (s : string) : list string :=
  match s with
  | EmptyString => [""]
  | String b s =>
      match split a s with
      | c :: cs => if decide (b = a) then "" :: c :: cs else String b c :: cs
      | [] => []
      end
  end.
(** [split_ascii_whitespace]: the pieces between white space, empty ones left out. *)
Definition is_ascii_whitespace (a : Ascii.ascii) : bool :=
  let n := char_code a in (n =? 32) || (n =? 9) || (n =? 10) || (n =? 12) || (n =? 13).
Fixpoint split_words (s : string) : list string :=
  match s with
  | EmptyString => [""]
  | String b s =>
      match split_words s with
      | c :: cs => if is_ascii_whitespace b then "" :: c :: cs else String b c :: cs
      | [] => []
      end
  end.
Definition split_ascii_whitespace (s : string) : list string :=
  filter (λ w, w ≠ "") (split_words s).
(** [str::replace] of one character. *)
Fixpoint replace_char (a : Ascii.ascii) (by_ : string) (s : string) : string :=
  match s with
  | EmptyString => ""
  | String b s => (if decide (b = a) then by_ else String b "") +:+ replace_char a by_ s
  end.


Fixpoint all_digits (s : string) : Prop :=
  match s with EmptyString => True | String a r => is_Some (to_digit 10 a) ∧ all_digits r end.

Lemma digit_char n : (n < 10)%N → to_digit 10 (pretty_N_char n) = Some (Z.of_N n).
Proof.
  intros Hn.
  assert (n = 0 ∨ n = 1 ∨ n = 2 ∨ n = 3 ∨ n = 4 ∨ n = 5 ∨ n = 6 ∨ n = 7 ∨ n = 8 ∨ n = 9)%N
    as Hc by lia.
  repeat destruct Hc as [-> |Hc]; try reflexivity. by subst.
Qed.

Lemma pretty_N_go_digits x s : all_digits s → all_digits (pretty_N_go x s).
Proof.
  revert s. induction (N.lt_wf_0 x) as [x _ IH]; intros s Hs.
  destruct (decide (x = 0%N)) as [->|Hx]; [done|].
  rewrite pretty_N_go_step by lia. apply IH; [apply N.div_lt; lia|].
  split; [|done]. rewrite digit_char by (apply N.mod_lt; lia). by eexists.
Qed.

Lemma pretty_N_go_parse max x s :
  Z.of_N x ≤ max →
  parse_digits 10 max 0 (pretty_N_go x s) = parse_digits 10 max (Z.of_N x) s.
Proof.
  revert s. induction (N.lt_wf_0 x) as [x _ IH]; intros s Hs.
  destruct (decide (x = 0%N)) as [->|Hx]; [done|].
  rewrite pretty_N_go_step by lia.
  assert (Z.of_N x = Z.of_N (x `div` 10) * 10 + Z.of_N (x `mod` 10)) as Hdm
    by (pose proof (N.div_mod x 10 ltac:(done)); lia).
  rewrite IH; [|apply N.div_lt; lia|].
  2:{ pose proof (N2Z.is_nonneg (x `div` 10)). pose proof (N2Z.is_nonneg (x `mod` 10)). lia. }
  cbn [parse_digits].
  rewrite digit_char by (apply N.mod_lt; lia). rewrite <-Hdm.
  destruct (Z.ltb_spec max (Z.of_N x)); [lia|done].
Qed.

Lemma pretty_nonneg z : 0 ≤ z → pretty z = pretty (Z.to_N z).
Proof. by destruct z. Qed.

Lemma pretty_digits z : 0 ≤ z → all_digits (pretty z) ∧ pretty z ≠ "".
Proof.
  intros Hz. rewrite pretty_nonneg by done. unfold pretty, pretty_N.
  destruct (decide _) as [_|Hne]; [split; [|done]; split; [by eexists|done]|].
  split; [by apply pretty_N_go_digits|]. intros Hs.
  assert (∀ x s, (0 < x)%N → pretty_N_go x s ≠ "") as Hgo; [|by apply (Hgo (Z.to_N z) ""); [lia|]].
  clear. intros x. induction (N.lt_wf_0 x) as [x _ IH]; intros s Hx.
  rewrite pretty_N_go_step by lia. destruct (decide (x `div` 10 = 0)%N) as [->|]; [done|].
  apply IH; [apply N.div_lt; lia|by apply N.neq_0_lt_0].
Qed.

(** Printing a number in range and parsing it gives the number back. *)
Lemma parse_pretty max z : 0 ≤ z ≤ max → from_str_radix 10 max (pretty z) = inr z.
Proof.
  intros Hz. destruct (pretty_digits z) as [Hd Hne]; [lia|].
  assert (parse_digits 10 max 0 (pretty z) = inr z) as Hp.
  { rewrite pretty_nonneg by lia. unfold pretty, pretty_N.
    destruct (decide _) as [H0|H0].
    { assert (z = 0) as -> by lia.
      change (parse_digits 10 max 0 "0") with
        (if max <? 0 then inl "number too large to fit in target type" else inr 0 : string + Z).
      destruct (Z.ltb_spec max 0); [lia|done]. }
    rewrite pretty_N_go_parse by lia. cbn. f_equal. lia. }
  destruct (pretty z) as [|a r]; [done|]. unfold from_str_radix.
  destruct (decide (a = plus_sign)) as [->|]; [|done].
  destruct Hd as [[d Hd] _]. by vm_compute in Hd.
Qed.
Lemma to_digit_nonneg radix c d : to_digit radix c = Some d → 0 ≤ d.
Proof. unfold to_digit. intros Hd. repeat case_match; simplify_eq; lia. Qed.
Lemma parse_digits_nonneg radix max s : ∀ acc k,
  0 ≤ radix → 0 ≤ acc → parse_digits radix max acc s = inr k → 0 ≤ k.
Proof.
  induction s as [|c s IH]; intros acc k Hr Ha; cbn [parse_digits]; [by intros [= <-]|].
  destruct (to_digit radix c) as [d|] eqn:Hd; [|done]. apply to_digit_nonneg in Hd.
  repeat case_match; try done. all: apply IH; nia.
Qed.
Lemma from_str_radix_nonneg max s k : from_str_radix 10 max s = inr k → 0 ≤ k.
Proof.
  unfold from_str_radix. repeat case_match; try done; by apply parse_digits_nonneg.
Qed.

Lemma all_digits_contains a s : to_digit 10 a = None → all_digits s → contains a s = false.
Proof.
  intros Ha. induction s as [|b r IH]; [done|]. intros [[d Hb] Hr]. cbn [contains].
  rewrite IH by done. case_bool_decide as Hab; [|done]. subst b. congruence.
Qed.

(** ** Lemmas: splitting *)

Lemma rsplit_once_none a s : contains a s = false → rsplit_once a s = None.
Proof.
  induction s as [|b r IH]; [done|]. cbn [contains rsplit_once]. intros H.
  apply orb_false_iff in H as [Hb Hr]. apply bool_decide_eq_false in Hb.
  rewrite IH by done. rewrite decide_False by congruence. done.
Qed.

Lemma rsplit_once_app a s t :
  contains a t = false → rsplit_once a (s +:+ String a t) = Some (s, t).
Proof.
  intros Ht. induction s as [|b r IH].
  - change ("" +:+ String a t) with (String a t). cbn [rsplit_once]. rewrite rsplit_once_none by done. by rewrite decide_True.
  - change (String b r +:+ String a t) with (String b (r +:+ String a t)).
    cbn [rsplit_once]. by rewrite IH.
Qed.

Lemma split_once_app a s t :
  contains a s = false → split_once a (s +:+ String a t) = Some (s, t).
Proof.
  induction s as [|b r IH]; [by change ("" +:+ String a t) with (String a t); cbn [split_once]; rewrite decide_True|].
  change (String b r +:+ String a t) with (String b (r +:+ String a t)).
  cbn [contains split_once].
  intros H. apply orb_false_iff in H as [Hb Hr]. apply bool_decide_eq_false in Hb.
  by rewrite decide_False, IH.
Qed.

(** ** Concatenation *)
Lemma append_assoc (a b c : string) : (a +:+ b) +:+ c = a +:+ (b +:+ c).
Proof. induction a as [|x a IH]; [done|]. exact (f_equal (String x) IH). Qed.
Lemma append_cons x (s t : string) : String x s +:+ t = String x (s +:+ t).
Proof. done. Qed.
Lemma append_nil_r (s : string) : s +:+ "" = s.
Proof. induction s as [|x s IH]; [done|]. exact (f_equal (String x) IH). Qed.
Lemma string_length_app s t :
  String.length (s +:+ t) = (String.length s + String.length t)%nat.
Proof. induction s as [|a s IH]; cbn; [done|]. by rewrite <-IH. Qed.
Lemma append_inj_l (s t u : string) : s +:+ t = s +:+ u → t = u.
Proof. induction s as [|a s IH]; [done|]. intros [= ?]. by apply IH. Qed.
Lemma append_inj_r (s t u : string) : s +:+ u = t +:+ u → s = t.
Proof.
  revert t. induction s as [|a s IH]; intros [|b t] Heq; [done|..].
  1,2: apply (f_equal String.length) in Heq; rewrite !string_length_app in Heq; cbn in Heq; lia.
  rewrite !append_cons in Heq. injection Heq as -> Heq. f_equal. by apply IH.
Qed.
Lemma of_as_bytes s : of_bytes (as_bytes s) = s.
Proof.
  unfold of_bytes, as_bytes. rewrite <-list_fmap_compose.
  rewrite <-(String.string_of_list_ascii_of_string s) at 2. f_equal.
  transitivity (id <$> String.list_ascii_of_string s); [|by rewrite list_fmap_id].
  apply list_fmap_ext. intros i x Hx. cbn. by rewrite N2Z.id, Ascii.ascii_N_embedding.
Qed.
Lemma from_utf8_inv s t : from_utf8 (as_bytes s) = Some t → t = s.
Proof. unfold from_utf8. case_match; [|done]. intros [= <-]. apply of_as_bytes. Qed.
Lemma contains_app a s t : contains a (s +:+ t) = contains a s || contains a t.
Proof.
  induction s as [|b s IH]; [done|]. rewrite append_cons. cbn [contains]. rewrite IH.
  apply orb_assoc.
Qed.

Lemma split_not_nil a s : split a s ≠ [].
Proof. induction s as [|b s IH]; [done|]. cbn [split]. by repeat case_match. Qed.
Lemma split_none a s : contains a s = false → split a s = [s].
Proof.
  induction s as [|b s IH]; [done|]. cbn [contains split]. intros [Hb Hs]%orb_false_iff.
  rewrite (IH Hs). apply bool_decide_eq_false in Hb. rewrite decide_False by congruence. done.
Qed.
Lemma split_app a s t : contains a s = false → split a (s +:+ String a t) = s :: split a t.
Proof.
  induction s as [|b s IH]; cbn [contains].
  - intros _. change ("" +:+ String a t) with (String a t). cbn [split].
    destruct (split a t) eqn:Ht; [|by rewrite decide_True].
    by apply split_not_nil in Ht.
  - intros [Hb Hs]%orb_false_iff. rewrite append_cons. cbn [split]. rewrite (IH Hs).
    apply bool_decide_eq_false in Hb. rewrite decide_False by congruence. done.
Qed.

(** ** Maps with string keys *)

(** The entries of a [BTreeMap] with string keys, in the order of the keys. *)
Definition string_entries {A} (m : gmap string A) : list (string * A) :=
  omap (λ k, pair k <$> m !! k) (merge_sort String.le (elements (dom m))).

Lemma elem_of_string_entries {A} (m : gmap string A) k x :
  (k, x) ∈ string_entries m ↔ m !! k = Some x.
Proof.
  unfold string_entries. rewrite list_elem_of_omap. split.
  - intros (k' & _ & Hk). destruct (m !! k') eqn:Hm; [|done]. by injection Hk as -> ->.
  - intros Hm. exists k. rewrite merge_sort_Permutation, elem_of_elements, elem_of_dom, Hm.
    split; [by eexists|done].
Qed.
Lemma string_entries_keys {A} (m : gmap string A) :
  (string_entries m).*1 = merge_sort String.le (elements (dom m)).
Proof.
  unfold string_entries.
  assert (∀ k, k ∈ merge_sort String.le (elements (dom m)) → is_Some (m !! k)) as Hin.
  { intros k. by rewrite merge_sort_Permutation, elem_of_elements, elem_of_dom. }
  revert Hin. induction (merge_sort String.le (elements (dom m))) as [|k l IH]; intros Hin; [done|].
  destruct (Hin k ltac:(left)) as [x Hx]. cbn [omap list_omap]. rewrite Hx.
  cbn [fmap option_fmap option_map]. rewrite fmap_cons. cbn [fst]. f_equal.
  apply IH. intros k' Hk'. apply Hin. by right.
Qed.
Lemma NoDup_string_entries {A} (m : gmap string A) : NoDup (string_entries m).
Proof.
  apply (NoDup_fmap_1 fst). rewrite string_entries_keys, merge_sort_Permutation.
  apply NoDup_elements.
Qed.
Lemma string_entries_Permutation {A} (m : gmap string A) : string_entries m ≡ₚ map_to_list m.
Proof.
  apply NoDup_Permutation; [apply NoDup_string_entries|apply NoDup_map_to_list|].
  intros [k x]. by rewrite elem_of_string_entries, elem_of_map_to_list.
Qed.
