(* ===== verification/Types.v ===== *)
(** * Wire types ([rust-dcp-protocol/src/types.rs], [error.rs])

    Magic bytes, opcodes, response statuses and the protocol error type. *)
From S2P Require Import Prelude.

(** ** [ProtocolError]

    The payloads of [Io] and [Json] are the foreign errors' display text. *)
Inductive ProtocolError : Type :=
| Io (e : string)
| InvalidMagic (magic : Z)
| InvalidLength (m : string)
| MalformedFrame (m : string)
| MalformedDcp (m : string)
| InvalidCollectionId (m : string)
| InvalidRequest (m : string)
| ServerStatus (status opcode : Z) (message : string)
| Json (e : string).

#[export] Instance ProtocolError_eq_dec : EqDecision ProtocolError.
Proof. solve_decision. Defined.

Abbreviation presult := (res ProtocolError).

(** ** [Magic] *)
Inductive Magic : Type :=
| Request
| Response
| ServerRequest
| AltRequest
| AltResponse.

#[export] Instance Magic_eq_dec : EqDecision Magic.
Proof. solve_decision. Defined.

Definition magic_as_u8 (m : Magic) : Z :=
  match m with
  | Request => 0x80
  | Response => 0x81
  | ServerRequest => 0x82
  | AltRequest => 0x08
  | AltResponse => 0x18
  end.

Definition magic_is_request (m : Magic) : bool :=
  match m with Request | AltRequest | ServerRequest => true | _ => false end.

Definition magic_is_response (m : Magic) : bool :=
  match m with Response | AltResponse => true | _ => false end.

Definition magic_is_alt (m : Magic) : bool :=
  match m with AltRequest | AltResponse => true | _ => false end.

Definition magic_try_from (value : Z) : presult Magic :=
  if value =? 0x80 then Ok Request
  else if value =? 0x81 then Ok Response
  else if value =? 0x82 then Ok ServerRequest
  else if value =? 0x08 then Ok AltRequest
  else if value =? 0x18 then Ok AltResponse
  else Err (InvalidMagic value).

(** The derived [Debug] text of a magic. *)
Definition magic_debug (m : Magic) : string :=
  match m with
  | Request => "Request"
  | Response => "Response"
  | ServerRequest => "ServerRequest"
  | AltRequest => "AltRequest"
  | AltResponse => "AltResponse"
  end.

(** ** [Opcode]: the raw byte *)
Abbreviation Opcode := Z (only parsing).
Definition OP_GET : Opcode := 0x00.
Definition OP_SET : Opcode := 0x01.
Definition OP_ADD : Opcode := 0x02.
Definition OP_REPLACE : Opcode := 0x03.
Definition OP_DELETE : Opcode := 0x04.
Definition OP_NOOP : Opcode := 0x0a.
Definition OP_HELLO : Opcode := 0x1f.
Definition OP_SASL_LIST_MECHS : Opcode := 0x20.
Definition OP_SASL_AUTH : Opcode := 0x21.
Definition OP_SASL_STEP : Opcode := 0x22.
Definition OP_GET_ALL_VB_SEQNOS : Opcode := 0x48.
Definition OP_DCP_OPEN : Opcode := 0x50.
Definition OP_DCP_CLOSE_STREAM : Opcode := 0x52.
Definition OP_DCP_STREAM_REQUEST : Opcode := 0x53.
Definition OP_DCP_GET_FAILOVER_LOG : Opcode := 0x54.
Definition OP_DCP_STREAM_END : Opcode := 0x55.
Definition OP_DCP_SNAPSHOT_MARKER : Opcode := 0x56.
Definition OP_DCP_MUTATION : Opcode := 0x57.
Definition OP_DCP_DELETION : Opcode := 0x58.
Definition OP_DCP_EXPIRATION : Opcode := 0x59.
Definition OP_DCP_NOOP : Opcode := 0x5c.
Definition OP_DCP_BUFFER_ACK : Opcode := 0x5d.
Definition OP_DCP_CONTROL : Opcode := 0x5e.
Definition OP_DCP_SYSTEM_EVENT : Opcode := 0x5f.
Definition OP_DCP_SEQNO_ADVANCED : Opcode := 0x64.
Definition OP_DCP_OSO_SNAPSHOT : Opcode := 0x65.
Definition OP_SELECT_BUCKET : Opcode := 0x89.
Definition OP_OBSERVE_SEQNO : Opcode := 0x91.
Definition OP_GET_CLUSTER_CONFIG : Opcode := 0xb5.
Definition OP_COLLECTIONS_GET_MANIFEST : Opcode := 0xba.
Definition OP_COLLECTIONS_GET_ID : Opcode := 0xbb.
Definition OP_SUBDOC_MULTI_LOOKUP : Opcode := 0xd0.
Definition OP_SUBDOC_MULTI_MUTATION : Opcode := 0xd1.

Definition between (lo hi z : Z) : bool := (lo <=? z) && (z <=? hi).

Definition is_collection_encoded (op : Opcode) : bool :=
  between 0x00 0x06 op || between 0x0e 0x0f op || between 0x1c 0x1d op
  || between 0x57 0x59 op || (op =? 0x83) || between 0x94 0x95 op
  || (op =? 0xa0) || (op =? 0xa2) || (op =? 0xa8) || between 0xc5 0xd2 op.

(** ** [Status]: the raw status value *)
Abbreviation Status := Z (only parsing).
Definition STATUS_SUCCESS : Status := 0x00.
Definition STATUS_KEY_NOT_FOUND : Status := 0x01.
Definition STATUS_KEY_EXISTS : Status := 0x02.
Definition STATUS_INVALID_ARGUMENTS : Status := 0x04.
Definition STATUS_NOT_MY_VBUCKET : Status := 0x07.
Definition STATUS_AUTH_ERROR : Status := 0x20.
Definition STATUS_AUTH_CONTINUE : Status := 0x21.
Definition STATUS_ROLLBACK : Status := 0x23.
Definition STATUS_UNKNOWN_COMMAND : Status := 0x81.
Definition STATUS_NOT_SUPPORTED : Status := 0x83.
Definition STATUS_TEMPORARY_FAILURE : Status := 0x86.
Definition STATUS_COLLECTION_UNKNOWN : Status := 0x88.
Definition STATUS_SCOPE_UNKNOWN : Status := 0x8c.
Definition STATUS_SUBDOC_PATH_NOT_FOUND : Status := 0xc0.
Definition STATUS_SUBDOC_MULTI_PATH_FAILURE : Status := 0xcc.

Definition status_is_success (s : Status) : bool := s =? 0.

(** ** [FailoverEntry], newest first on the wire *)
Record FailoverEntry : Type := mkFailoverEntry {
  fe_vbucket_uuid : Z;
  fe_seqno : Z
}.

#[export] Instance FailoverEntry_eq_dec : EqDecision FailoverEntry.
Proof. solve_decision. Defined.

(** The wire byte identifies the magic: decoding inverts encoding. *)
Lemma magic_try_from_as_u8 m : magic_try_from (magic_as_u8 m) = Ok m.
Proof. by destruct m. Qed.

Lemma magic_try_from_ok b m : magic_try_from b = Ok m → b = magic_as_u8 m.
Proof.
  unfold magic_try_from. repeat case_match; intros; simplify_eq; simpl; lia.
Qed.

Lemma magic_try_from_no_panic b : magic_try_from b ≠ Panic.
Proof. unfold magic_try_from. by repeat case_match. Qed.

Lemma magic_as_u8_u8 m : is_u8 (magic_as_u8 m).
Proof. destruct m; unfold_ranges; simpl; lia. Qed.

Lemma magic_request_xor_response m : magic_is_request m = negb (magic_is_response m).
Proof. by destruct m. Qed.
