(* ===== verification/Uleb128.v ===== *)
(** * Collection-ID prefixes ([rust-dcp-protocol/src/uleb128.rs]) *)
From S2P Require Import Prelude Types.

(** ** [encode_uleb128_u32]

    The loop shifts the value right by seven bits until it is zero; five rounds
    are enough for a [u32], so the fuel is never the reason the loop stops
    ([encode_uleb128_fuel] below). *)
Fixpoint encode_uleb128_loop (fuel : nat) (value : Z) : bytes :=
  match fuel with
  | O => []
  | S fuel =>
      let byte := Z.land value 0x7f in
      let value := Z.shiftr value 7 in
      let byte := if negb (value =? 0) then Z.lor byte 0x80 else byte in
      byte :: (if Z.land byte 0x80 =? 0 then [] else encode_uleb128_loop fuel value)
  end.

Definition encode_uleb128_u32 (value : Z) (destination : bytes) : bytes :=
  destination ++ encode_uleb128_loop 5 value.

(** ** [decode_uleb128_u32] *)
Fixpoint decode_uleb128_loop (index value : Z) (source : bytes) : presult (Z * Z) :=
  match source with
  | [] => Err (InvalidCollectionId "encoded value is truncated")
  | byte :: rest =>
      if 5 <=? index then Err (InvalidCollectionId "encoded value exceeds five bytes")
      else
        let value := Z.lor value (Z.shiftl (Z.land byte 0x7f) (index * 7)) in
        if Z.land byte 0x80 =? 0 then
          if u32_max <? value then Err (InvalidCollectionId "encoded value exceeds u32")
          else
            let? decoded :=
              ok_or (try_from u32_max value)
                (InvalidCollectionId "encoded value exceeds u32") in
            Ok (decoded, index + 1)
        else decode_uleb128_loop (index + 1) value rest
  end.

Definition decode_uleb128_u32 (source : bytes) : presult (Z * Z) :=
  match source with
  | [] => Err (InvalidCollectionId "no bytes supplied")
  | _ => decode_uleb128_loop 0 0 source
  end.

(** ** Correctness *)

(** Seven-bit groups: clearing or setting the continuation bit. *)
Lemma land_low7 z : 0 ≤ Z.land z 0x7f < 128.
Proof.
  replace 0x7f with (Z.ones 7) by reflexivity. rewrite Z.land_ones by lia.
  apply Z.mod_pos_bound. lia.
Qed.

Lemma land_cont_small b : 0 ≤ b < 128 → Z.land b 0x80 = 0.
Proof.
  intros Hb. apply Z.bits_inj_iff'. intros i Hi. rewrite Z.land_spec, Z.bits_0.
  replace 0x80 with (2 ^ 7) by reflexivity.
  destruct (decide (i = 7)) as [->|Hne].
  - rewrite (Z.bits_above_log2 b 7); [done|lia|].
    destruct (decide (b = 0)) as [->|]; [simpl; lia|].
    apply Z.log2_lt_pow2; lia.
  - rewrite Z.pow2_bits_false by lia. by rewrite andb_false_r.
Qed.

Lemma land_cont_set b : 0 ≤ b < 128 → Z.land (Z.lor b 0x80) 0x80 = 0x80.
Proof. intros Hb. rewrite Z.land_lor_distr_l, land_cont_small by done. done. Qed.

Lemma low7_cont_set b : 0 ≤ b < 128 → Z.land (Z.lor b 0x80) 0x7f = b.
Proof.
  intros Hb. rewrite Z.land_lor_distr_l.
  replace (Z.land 0x80 0x7f) with 0 by reflexivity. rewrite Z.lor_0_r.
  replace 0x7f with (Z.ones 7) by reflexivity. rewrite Z.land_ones by lia.
  by apply Z.mod_small.
Qed.

Lemma low7_small b : 0 ≤ b < 128 → Z.land b 0x7f = b.
Proof.
  intros Hb. replace 0x7f with (Z.ones 7) by reflexivity.
  rewrite Z.land_ones by lia. by apply Z.mod_small.
Qed.

Lemma land_shiftl_disjoint b c k : 0 ≤ k → 0 ≤ b < 2 ^ k → Z.land b (Z.shiftl c k) = 0.
Proof.
  intros Hk Hb. destruct (decide (b = 0)) as [->|]; [done|].
  apply Z.bits_inj_iff'. intros i Hi. rewrite Z.land_spec, Z.bits_0.
  destruct (decide (i < k)).
  - rewrite Z.shiftl_spec_low by lia. by rewrite andb_false_r.
  - rewrite (Z.bits_above_log2 b i); [done|lia|].
    apply Z.log2_lt_pow2; [lia|].
    apply Z.lt_le_trans with (2 ^ k); [lia|]. apply Z.pow_le_mono_r; lia.
Qed.

Lemma lor_lt b k : 0 ≤ k → 0 ≤ b < 2 ^ k → ∀ c, 0 ≤ c →
  Z.lor b (Z.shiftl c k) = b + c * 2 ^ k.
Proof.
  intros Hk Hb c Hc. rewrite <-Z.shiftl_mul_pow2 by lia.
  rewrite Z.add_nocarry_lxor; [symmetry; apply Z.lxor_lor|].
  all: by apply land_shiftl_disjoint.
Qed.

Lemma lor_cont b : 0 ≤ b < 128 → Z.lor b 0x80 = b + 128.
Proof. intros Hb. exact (lor_lt b 7 ltac:(lia) Hb 1 ltac:(lia)). Qed.

Lemma low7_mod z : Z.land z 0x7f = z `mod` 128.
Proof. replace 0x7f with (Z.ones 7) by reflexivity. by rewrite Z.land_ones by lia. Qed.

Lemma shiftr7_div z : Z.shiftr z 7 = z / 128.
Proof. by rewrite Z.shiftr_div_pow2 by lia. Qed.

(** One round of the encoder, with its bit operations read arithmetically. *)
Lemma encode_loop_S fuel v :
  encode_uleb128_loop (S fuel) v =
    if v / 128 =? 0 then [v `mod` 128]
    else Z.lor (v `mod` 128) 0x80 :: encode_uleb128_loop fuel (v / 128).
Proof.
  pose proof (land_low7 v) as Hlow. rewrite low7_mod in Hlow.
  cbn [encode_uleb128_loop]. rewrite shiftr7_div, low7_mod.
  destruct (Z.eqb_spec (v / 128) 0); simpl.
  - by rewrite land_cont_small.
  - by rewrite land_cont_set.
Qed.

Arguments encode_uleb128_loop : simpl never.

(** One round of the decoder on a byte with and without continuation bit. *)
Lemma decode_loop_last i acc b rest :
  0 ≤ i < 5 → 0 ≤ acc < 2 ^ (i * 7) → 0 ≤ b < 128 → acc + b * 2 ^ (i * 7) ≤ u32_max →
  decode_uleb128_loop i acc (b :: rest) = Ok (acc + b * 2 ^ (i * 7), i + 1).
Proof.
  intros Hi Hacc Hb Hmax. cbn [decode_uleb128_loop].
  rewrite low7_small, land_cont_small, lor_lt by lia.
  destruct (Z.leb_spec 5 i); [lia|]. simpl.
  unfold try_from. destruct (Z.ltb_spec u32_max (acc + b * 2 ^ (i * 7))); [lia|].
  destruct (Z.leb_spec (acc + b * 2 ^ (i * 7)) u32_max); [done|lia].
Qed.

Lemma decode_loop_more i acc b rest :
  0 ≤ i < 5 → 0 ≤ acc < 2 ^ (i * 7) → 0 ≤ b < 128 →
  decode_uleb128_loop i acc (Z.lor b 0x80 :: rest) =
  decode_uleb128_loop (i + 1) (acc + b * 2 ^ (i * 7)) rest.
Proof.
  intros Hi Hacc Hb. cbn [decode_uleb128_loop].
  rewrite low7_cont_set, land_cont_set, lor_lt by lia.
  by destruct (Z.leb_spec 5 i); [lia|].
Qed.

Lemma decode_encode_loop fuel i acc v rest :
  (0 < fuel)%nat → i + Z.of_nat fuel = 5 → 0 ≤ i →
  0 ≤ acc < 2 ^ (i * 7) → 0 ≤ v < 2 ^ (Z.of_nat fuel * 7) →
  acc + v * 2 ^ (i * 7) ≤ u32_max →
  decode_uleb128_loop i acc (encode_uleb128_loop fuel v ++ rest) =
    Ok (acc + v * 2 ^ (i * 7), i + len (encode_uleb128_loop fuel v)).
Proof.
  revert i acc v. induction fuel as [|fuel IH]; intros i acc v Hf Hi Hi0 Hacc Hv Hmax; [lia|].
  assert (0 ≤ v `mod` 128 < 128) as Hmod by (apply Z.mod_pos_bound; lia).
  pose proof (Z.div_mod v 128) as Hdm.
  rewrite encode_loop_S. destruct (Z.eqb_spec (v / 128) 0) as [Hz|Hz].
  - simpl app. assert (v `mod` 128 = v) as -> by lia.
    rewrite decode_loop_last by lia. by unfold len.
  - assert (0 < 2 ^ (i * 7)) by (apply Z.pow_pos_nonneg; lia).
    assert (0 ≤ v / 128) by (apply Z.div_pos; lia).
    destruct fuel as [|fuel].
    { replace (Z.of_nat 1 * 7) with 7 in Hv by lia.
      rewrite Z.div_small in Hz; [done|]. replace (2 ^ 7) with 128 in Hv by done. lia. }
    rewrite <-app_comm_cons, decode_loop_more by lia.
    assert (2 ^ ((i + 1) * 7) = 128 * 2 ^ (i * 7)) as Hpow.
    { replace ((i + 1) * 7) with (7 + i * 7) by lia. rewrite Z.pow_add_r by lia. done. }
    rewrite IH; rewrite ?Hpow.
    + rewrite len_cons. f_equal. f_equal; [|lia].
      rewrite Hdm at 3 by lia. ring.
    + lia.
    + lia.
    + lia.
    + nia.
    + split; [done|]. apply Z.div_lt_upper_bound; [lia|].
      replace (Z.of_nat (S (S fuel)) * 7) with (7 + Z.of_nat (S fuel) * 7) in Hv by lia.
      rewrite Z.pow_add_r in Hv by lia. lia.
    + nia.
Qed.

(** The encoder's fuel never cuts a value: more fuel writes the same bytes. *)
Lemma encode_uleb128_fuel fuel extra v :
  0 ≤ v < 2 ^ (Z.of_nat fuel * 7) →
  encode_uleb128_loop (fuel + extra) v = encode_uleb128_loop fuel v ∨ fuel = 0%nat.
Proof.
  revert v. induction fuel as [|fuel IH]; intros v Hv; [by right|left].
  rewrite Nat.add_succ_l, !encode_loop_S.
  destruct (Z.eqb_spec (v / 128) 0) as [|Hz]; [done|].
  assert (0 ≤ v / 128 < 2 ^ (Z.of_nat fuel * 7)) as Hd.
  { split; [apply Z.div_pos; lia|]. apply Z.div_lt_upper_bound; [lia|].
    replace (Z.of_nat (S fuel) * 7) with (7 + Z.of_nat fuel * 7) in Hv by lia.
    rewrite Z.pow_add_r in Hv by lia. lia. }
  destruct (IH _ Hd) as [-> | ->]; [done|]. simpl in Hd. lia.
Qed.

Lemma encode_loop_length fuel v : (1 ≤ length (encode_uleb128_loop (S fuel) v) ≤ S fuel)%nat.
Proof.
  revert v. induction fuel as [|fuel IH]; intros v; rewrite encode_loop_S; case_match; cbn [length];
    try lia.
  - unfold encode_uleb128_loop. simpl. lia.
  - specialize (IH (v / 128)). lia.
Qed.

Lemma encode_loop_wf fuel v : wf_bytes (encode_uleb128_loop fuel v).
Proof.
  revert v. induction fuel as [|fuel IH]; intros v; [by constructor|].
  assert (0 ≤ v `mod` 128 < 128) as Hmod by (apply Z.mod_pos_bound; lia).
  rewrite encode_loop_S. case_match.
  - constructor; [unfold_ranges; lia|constructor].
  - constructor; [|apply IH].
    rewrite lor_cont by done. unfold_ranges. lia.
Qed.

(** What the decoder accepts: at most five bytes, all present, and a [u32]. *)
Lemma decode_loop_bounds i acc src v n :
  0 ≤ i ≤ 5 → wf_bytes src → 0 ≤ acc → decode_uleb128_loop i acc src = Ok (v, n) →
  0 ≤ v ≤ u32_max ∧ i < n ≤ 5 ∧ n - i ≤ len src.
Proof.
  revert i acc. induction src as [|b rest IH]; intros i acc Hi Hwf Hacc; [done|].
  apply Forall_cons in Hwf as [Hb Hwf]. cbn [decode_uleb128_loop].
  destruct (Z.leb_spec 5 i); [done|].
  set (acc' := Z.lor acc _).
  assert (0 ≤ acc').
  { apply Z.lor_nonneg. split; [done|]. apply Z.shiftl_nonneg. apply land_low7. }
  rewrite len_cons. pose proof (len_nonneg rest). case_match.
  - destruct (Z.ltb_spec u32_max acc'); [done|]. unfold try_from.
    destruct (Z.leb_spec acc' u32_max); [|done]. intros. simplify_eq/=. lia.
  - intros Hok. apply IH in Hok; [lia|lia|done|done].
Qed.

Lemma decode_loop_no_panic i acc src : decode_uleb128_loop i acc src ≠ Panic.
Proof.
  revert i acc. induction src as [|b rest IH]; intros i acc; cbn [decode_uleb128_loop]; [done|].
  unfold try_from. repeat case_match; simplify_eq/=; try done; apply IH.
Qed.

Lemma decode_encode_uleb128 v rest :
  is_u32 v → decode_uleb128_u32 (encode_uleb128_u32 v [] ++ rest)
             = Ok (v, len (encode_uleb128_u32 v [])).
Proof.
  intros Hv. unfold encode_uleb128_u32. rewrite app_nil_l.
  assert (decode_uleb128_loop 0 0 (encode_uleb128_loop 5 v ++ rest)
          = Ok (0 + v * 2 ^ (0 * 7), 0 + len (encode_uleb128_loop 5 v))) as Hd.
  { apply decode_encode_loop; unfold_ranges; simpl; lia. }
  pose proof (encode_loop_length 4 v) as Hl.
  destruct (encode_uleb128_loop 5 v) as [|b bs] eqn:E; [simpl in Hl; lia|].
  rewrite <-!app_comm_cons in *. unfold decode_uleb128_u32. rewrite Hd.
  f_equal. f_equal. lia.
Qed.

Lemma decode_uleb128_bounds src v n :
  wf_bytes src → decode_uleb128_u32 src = Ok (v, n) →
  is_u32 v ∧ 1 ≤ n ≤ 5 ∧ n ≤ len src.
Proof.
  intros Hwf. unfold decode_uleb128_u32. destruct src as [|b src]; [done|].
  intros Hd. apply decode_loop_bounds in Hd; [|lia|done|lia]. unfold_ranges. lia.
Qed.

Lemma decode_uleb128_no_panic src : decode_uleb128_u32 src ≠ Panic.
Proof. destruct src; [done|]. apply decode_loop_no_panic. Qed.

(** ** Properties *)

(** The collection-ID prefix round trips: decoding what [encode_uleb128_u32] wrote for
    any [u32], with arbitrary bytes after it, returns that value and consumes exactly the
    bytes written. *)
Lemma uleb128_roundtrip v rest :
  is_u32 v →
  decode_uleb128_u32 (encode_uleb128_u32 v [] ++ rest)
  = Ok (v, len (encode_uleb128_u32 v [])).
Proof. apply decode_encode_uleb128. Qed.

(** On arbitrary input [decode_uleb128_u32] does not panic, and what it accepts is a
    [u32] read from between one and five bytes of the input. *)
Lemma uleb128_decode_safe src :
  wf_bytes src →
  decode_uleb128_u32 src ≠ Panic
  ∧ ∀ v n, decode_uleb128_u32 src = Ok (v, n) → is_u32 v ∧ 1 ≤ n ≤ 5 ∧ n ≤ len src.
Proof.
  intros Hwf. split; [apply decode_uleb128_no_panic|]. intros v n. by apply decode_uleb128_bounds.
Qed.

(** A non-minimal encoding of zero is accepted. *)
Lemma uleb128_accepts_non_minimal :
  decode_uleb128_u32 [0x80; 0x00] = Ok (0, 2) ∧ encode_uleb128_u32 0 [] = [0x00].
Proof. done. Qed.
