(* ===== verification/Frame.v ===== *)
(** * Frames ([rust-dcp-protocol/src/frame.rs], [lib.rs])

    The in-memory packet and its flexible framing extras. *)
From S2P Require Import Prelude Types.

Definition HEADER_LEN : Z := 24.

(** ** [FramingExtra] *)
Record FramingExtra : Type := mkFramingExtra {
  fx_id : Z;
  fx_data : bytes
}.

#[export] Instance FramingExtra_eq_dec : EqDecision FramingExtra.
Proof. solve_decision. Defined.

Definition framing_extra_new (id : Z) (data : bytes) : presult FramingExtra :=
  if 270 <? id then
    Err (InvalidLength ("framing-extra id " +:+ pretty id +:+ " exceeds 270"))
  else if 270 <? len data then
    Err (InvalidLength ("framing-extra data length " +:+ pretty (len data) +:+ " exceeds 270"))
  else Ok (mkFramingExtra id data).

Definition framing_extra_stream_id (stream_id : Z) : FramingExtra :=
  mkFramingExtra 2 (to_be_bytes 2 stream_id).

Definition encoded_header_len (e : FramingExtra) : Z :=
  1 + (if 15 <=? fx_id e then 1 else 0) + (if 15 <=? len (fx_data e) then 1 else 0).

(** ** [Frame] *)
Record Frame : Type := mkFrame {
  magic : Magic;
  opcode : Opcode;
  datatype : Z;
  vbucket : Z;
  status : Status;
  opaque : Z;
  cas : Z;
  framing_extras : list FramingExtra;
  extras : bytes;
  key : bytes;
  value : bytes;
  collection_id : option Z;
  received_wire_size : option Z
}.

#[export] Instance Frame_eq_dec : EqDecision Frame.
Proof. solve_decision. Defined.

Definition request (op : Opcode) : Frame :=
  mkFrame Request op 0 0 STATUS_SUCCESS 0 0 [] [] [] [] None None.

Definition response (op : Opcode) (st : Status) : Frame :=
  let r := request op in
  mkFrame Response (opcode r) (datatype r) (vbucket r) st (opaque r) (cas r)
    (framing_extras r) (extras r) (key r) (value r) (collection_id r) (received_wire_size r).

(** Field assignments, [frame.f = x]. *)
Definition set_vbucket (x : Z) (f : Frame) : Frame :=
  mkFrame (magic f) (opcode f) (datatype f) x (status f) (opaque f) (cas f)
    (framing_extras f) (extras f) (key f) (value f) (collection_id f) (received_wire_size f).
Definition set_datatype (x : Z) (f : Frame) : Frame :=
  mkFrame (magic f) (opcode f) x (vbucket f) (status f) (opaque f) (cas f)
    (framing_extras f) (extras f) (key f) (value f) (collection_id f) (received_wire_size f).
Definition set_opaque (x : Z) (f : Frame) : Frame :=
  mkFrame (magic f) (opcode f) (datatype f) (vbucket f) (status f) x (cas f)
    (framing_extras f) (extras f) (key f) (value f) (collection_id f) (received_wire_size f).
Definition set_cas (x : Z) (f : Frame) : Frame :=
  mkFrame (magic f) (opcode f) (datatype f) (vbucket f) (status f) (opaque f) x
    (framing_extras f) (extras f) (key f) (value f) (collection_id f) (received_wire_size f).
Definition set_framing_extras (x : list FramingExtra) (f : Frame) : Frame :=
  mkFrame (magic f) (opcode f) (datatype f) (vbucket f) (status f) (opaque f) (cas f)
    x (extras f) (key f) (value f) (collection_id f) (received_wire_size f).
Definition set_extras (x : bytes) (f : Frame) : Frame :=
  mkFrame (magic f) (opcode f) (datatype f) (vbucket f) (status f) (opaque f) (cas f)
    (framing_extras f) x (key f) (value f) (collection_id f) (received_wire_size f).
Definition set_key (x : bytes) (f : Frame) : Frame :=
  mkFrame (magic f) (opcode f) (datatype f) (vbucket f) (status f) (opaque f) (cas f)
    (framing_extras f) (extras f) x (value f) (collection_id f) (received_wire_size f).
Definition set_value (x : bytes) (f : Frame) : Frame :=
  mkFrame (magic f) (opcode f) (datatype f) (vbucket f) (status f) (opaque f) (cas f)
    (framing_extras f) (extras f) (key f) x (collection_id f) (received_wire_size f).
Definition set_collection_id (x : option Z) (f : Frame) : Frame :=
  mkFrame (magic f) (opcode f) (datatype f) (vbucket f) (status f) (opaque f) (cas f)
    (framing_extras f) (extras f) (key f) (value f) x (received_wire_size f).
Definition mark_received (wire_size : Z) (f : Frame) : Frame :=
  mkFrame (magic f) (opcode f) (datatype f) (vbucket f) (status f) (opaque f) (cas f)
    (framing_extras f) (extras f) (key f) (value f) (collection_id f) (Some wire_size).

Definition success_response_to (r : Frame) : Frame :=
  set_opaque (opaque r) (response (opcode r) STATUS_SUCCESS).

(** The last framing extra that is a well-formed stream-ID frame. *)
Definition stream_id (f : Frame) : option Z :=
  match List.find (λ e, (fx_id e =? 2) && (len (fx_data e) =? 2))
          (reverse (framing_extras f)) with
  | Some e =>
      match fx_data e with
      | d0 :: d1 :: _ => Some (from_be_bytes [d0; d1])
      | _ => None
      end
  | None => None
  end.

Definition wire_size (f : Frame) : Z :=
  match received_wire_size f with
  | Some n => n
  | None =>
      HEADER_LEN
      + foldr Z.add 0 ((λ e, encoded_header_len e + len (fx_data e)) <$> framing_extras f)
      + len (extras f) + len (key f) + len (value f)
  end.

(** ** Well-formed frames: every field within its machine type *)
Definition wf_framing_extra (e : FramingExtra) : Prop :=
  is_u16 (fx_id e) ∧ wf_bytes (fx_data e).

Record wf_frame (f : Frame) : Prop := mk_wf_frame {
  wf_opcode : is_u8 (opcode f);
  wf_datatype : is_u8 (datatype f);
  wf_vbucket : is_u16 (vbucket f);
  wf_status : is_u16 (status f);
  wf_opaque : is_u32 (opaque f);
  wf_cas : is_u64 (cas f);
  wf_framing : Forall wf_framing_extra (framing_extras f);
  wf_extras : wf_bytes (extras f);
  wf_key : wf_bytes (key f);
  wf_value : wf_bytes (value f);
  wf_cid : ∀ c, collection_id f = Some c → is_u32 c
}.

Lemma request_wf op : is_u8 op → wf_frame (request op).
Proof.
  intros Hop. split; try done; simpl; try constructor; unfold_ranges; try lia.
Qed.

Lemma stream_id_last f n :
  is_u16 n →
  stream_id (set_framing_extras (framing_extras f ++ [framing_extra_stream_id n]) f) = Some n.
Proof.
  intros Hn. unfold stream_id. cbn [framing_extras set_framing_extras].
  rewrite reverse_snoc. cbn [List.find fx_id fx_data framing_extra_stream_id].
  pose proof (len_to_be_bytes 2 n ltac:(lia)) as Hl.
  pose proof (from_to_be_bytes 2 n ltac:(lia)) as Hd. rewrite Hl, !Z.eqb_refl.
  cbn [andb fx_data framing_extra_stream_id].
  destruct (to_be_bytes 2 n) as [|a [|b [|? ?]]]; rewrite ?len_cons in Hl; try by unfold len in Hl.
  - rewrite Hd; [done|]. unfold_ranges. lia.
  - pose proof (len_nonneg l). lia.
Qed.
