(* ===== verification/Codec.v ===== *)
(** * The frame codec ([rust-dcp-protocol/src/codec.rs])

    [decode] consumes bytes from the receive buffer, [encode] appends to the send
    buffer.  Both return the buffer beside their result, since an error may leave
    it changed. *)
From S2P Require Import Prelude Types Uleb128 Frame.

Definition DEFAULT_MAX_FRAME_SIZE : Z := 32 * 1024 * 1024.

Record FrameCodec : Type := mkFrameCodec {
  max_frame_size : Z;
  collections_enabled : bool
}.

Definition codec_default : FrameCodec := mkFrameCodec DEFAULT_MAX_FRAME_SIZE false.
Definition codec_new (max : Z) : FrameCodec := mkFrameCodec max false.
Definition with_collections (enabled : bool) (c : FrameCodec) : FrameCodec :=
  mkFrameCodec (max_frame_size c) enabled.

(** ** Framing extras *)

Definition encode_framing_extra (extra : FramingExtra) : presult bytes :=
  if (270 <? fx_id extra) || (270 <? len (fx_data extra)) then
    Err (InvalidLength "framing-extra identifier and length must not exceed 270")
  else
    let? id_nibble := ok_or (try_from u8_max (Z.min (fx_id extra) 15))
      (InvalidLength "framing-extra id nibble exceeds u8") in
    let? len_nibble := ok_or (try_from u8_max (Z.min (len (fx_data extra)) 15))
      (InvalidLength "framing-extra length nibble exceeds u8") in
    let header := put_u8 (Z.lor (Z.land (Z.shiftl id_nibble 4) 0xff) len_nibble) in
    let? id_ext :=
      (if 15 <=? fx_id extra then
         let? b := ok_or (try_from u8_max (fx_id extra - 15))
           (InvalidLength "framing-extra id extension exceeds u8") in
         Ok (put_u8 b)
       else Ok []) in
    let? len_ext :=
      (if 15 <=? len (fx_data extra) then
         let? b := ok_or (try_from u8_max (len (fx_data extra) - 15))
           (InvalidLength "framing-extra length extension exceeds u8") in
         Ok (put_u8 b)
       else Ok []) in
    Ok (header ++ id_ext ++ len_ext ++ fx_data extra).

Definition encode_framing_extras (l : list FramingExtra) : presult bytes :=
  for_res l [] (λ destination extra,
    let? bs := encode_framing_extra extra in Ok (destination ++ bs)).

(** One round of the [while !source.is_empty()] loop. *)
Definition decode_framing_extra (source : bytes) : presult (FramingExtra * bytes) :=
  let? header := index source 0 in
  let? source := slice_from source 1 in
  let id := Z.shiftr header 4 in
  let length := Z.land header 0x0f in
  let? (id, source) :=
    (if id =? 15 then
       let? extension := ok_or (head source)
         (MalformedFrame "truncated framing-extra id extension") in
       let? source := slice_from source 1 in
       let? id := add_or_panic u16_max id extension in
       Ok (id, source)
     else Ok (id, source)) in
  let? (length, source) :=
    (if length =? 15 then
       let? extension := ok_or (head source)
         (MalformedFrame "truncated framing-extra length extension") in
       let? source := slice_from source 1 in
       let? length := add_or_panic usize_max length extension in
       Ok (length, source)
     else Ok (length, source)) in
  if len source <? length then
    Err (MalformedFrame ("framing-extra declares " +:+ pretty length
      +:+ " data bytes but only " +:+ pretty (len source) +:+ " remain"))
  else
    let? data := slice_to source length in
    let? source := slice_from source length in
    Ok (mkFramingExtra id data, source).

(** Every round consumes at least the header byte, so the length of the input is
    enough fuel ([decode_framing_fuel]). *)
Fixpoint decode_framing_loop (fuel : nat) (source : bytes) (extras : list FramingExtra)
    : presult (list FramingExtra) :=
  match fuel with
  | O => Ok extras
  | S fuel =>
      if decide (source = []) then Ok extras
      else
        let? (extra, source) := decode_framing_extra source in
        decode_framing_loop fuel source (extras ++ [extra])
  end.
Definition decode_framing_extras (source : bytes) : presult (list FramingExtra) :=
  decode_framing_loop (length source) source [].

(** ** [Decoder::decode] *)

(** The checks on the header, made before any byte is consumed: the magic, the body
    length and the total length. *)
Definition decode_header (c : FrameCodec) (source : bytes) : presult (Magic * Z * Z) :=
  let? b0 := index source 0 in
  let? magic := magic_try_from b0 in
  let? b8 := index source 8 in
  let? b9 := index source 9 in
  let? b10 := index source 10 in
  let? b11 := index source 11 in
  let? body_len := ok_or (try_from usize_max (from_be_bytes [b8; b9; b10; b11]))
    (InvalidLength "body length does not fit usize") in
  let? total_len := ok_or (checked_add usize_max HEADER_LEN body_len)
    (InvalidLength "frame length overflows usize") in
  if max_frame_size c <? total_len then
    Err (InvalidLength ("frame size " +:+ pretty total_len
      +:+ " exceeds configured maximum " +:+ pretty (max_frame_size c)))
  else Ok (magic, body_len, total_len).

(** The work on one complete packet. *)
Definition decode_packet (c : FrameCodec) (magic : Magic) (body_len total_len : Z)
    (packet : bytes) : presult Frame :=
  let? b2 := index packet 2 in
  let? b3 := index packet 3 in
  let '(framing_len, key_len) :=
    if magic_is_alt magic then (b2, b3) else (0, from_be_bytes [b2; b3]) in
  let? extras_len := index packet 4 in
  let? fields_len :=
    ok_or (match checked_add usize_max framing_len extras_len with
           | Some l => checked_add usize_max l key_len
           | None => None
           end) (InvalidLength "body fields overflow usize") in
  if body_len <? fields_len then
    Err (MalformedFrame ("framing (" +:+ pretty framing_len +:+ ") + extras ("
      +:+ pretty extras_len +:+ ") + key (" +:+ pretty key_len
      +:+ ") exceeds body (" +:+ pretty body_len +:+ ")"))
  else
    let? body := slice_from packet HEADER_LEN in
    let? framing_bytes := slice_to body framing_len in
    let? framing_extras := decode_framing_extras framing_bytes in
    let extras_start := framing_len in
    let key_start := extras_start + extras_len in
    let value_start := key_start + key_len in
    let? extras := slice body extras_start key_start in
    let? key := slice body key_start value_start in
    let? value := slice_from body value_start in
    let? opcode := index packet 1 in
    let? (key, collection_id) :=
      (if collections_enabled c && is_collection_encoded opcode
          && negb (bool_decide (key = [])) then
         let? (decoded, consumed) := decode_uleb128_u32 key in
         let? key := slice_from key consumed in
         Ok (key, Some decoded)
       else Ok (key, None)) in
    let? b6 := index packet 6 in
    let? b7 := index packet 7 in
    let status_or_vbucket := from_be_bytes [b6; b7] in
    let? datatype := index packet 5 in
    let? opaque_bytes := slice packet 12 16 in
    let? cas_bytes := slice packet 16 24 in
    Ok (mark_received total_len
          (mkFrame magic opcode datatype
             (if magic_is_request magic then status_or_vbucket else 0)
             (if magic_is_response magic then status_or_vbucket else STATUS_SUCCESS)
             (from_be_bytes opaque_bytes) (from_be_bytes cas_bytes)
             framing_extras extras key value collection_id None)).

Definition decode (c : FrameCodec) (source : bytes) : presult (option Frame) * bytes :=
  if len source <? HEADER_LEN then (Ok None, source)
  else
    match decode_header c source with
    | Err e => (Err e, source)
    | Panic => (Panic, source)
    | Ok (magic, body_len, total_len) =>
        if len source <? total_len then (Ok None, source)
        else
          (res_map Some
             (decode_packet c magic body_len total_len (take (Z.to_nat total_len) source)),
           drop (Z.to_nat total_len) source)
    end.

(** ** [Encoder::encode] *)

Definition encoded_magic (m : Magic) (has_framing : bool) : presult Magic :=
  if negb has_framing then Ok m
  else
    match m with
    | Request | AltRequest => Ok AltRequest
    | Response | AltResponse => Ok AltResponse
    | ServerRequest =>
        Err (InvalidRequest "server-request frames cannot carry flexible framing extras")
    end.

(** The key with its collection-ID prefix. *)
Definition encode_key (c : FrameCodec) (f : Frame) : presult bytes :=
  if collections_enabled c && is_collection_encoded (opcode f) then
    Ok (encode_uleb128_u32 (default 0 (collection_id f)) [] ++ key f)
  else if match collection_id f with Some cid => negb (cid =? 0) | None => false end then
    Err (InvalidRequest "collection ID supplied for a frame that cannot encode it")
  else Ok (key f).

Definition check_key_len (m : Magic) (k framing : bytes) : presult unit :=
  if magic_is_alt m then
    if u8_max <? len k then
      Err (InvalidLength ("flexible-frame key length " +:+ pretty (len k) +:+ " exceeds 255"))
    else if u8_max <? len framing then
      Err (InvalidLength ("framing extras length " +:+ pretty (len framing) +:+ " exceeds 255"))
    else Ok tt
  else if u16_max <? len k then
    Err (InvalidLength ("key length " +:+ pretty (len k) +:+ " exceeds 65535"))
  else Ok tt.

Definition check_direction (f : Frame) : presult unit :=
  if magic_is_request (magic f) && negb (status_is_success (status f)) then
    Err (InvalidRequest "request frame cannot carry a response status")
  else if magic_is_response (magic f) && negb (vbucket f =? 0) then
    Err (InvalidRequest "response frame cannot carry a vBucket")
  else Ok tt.

(** Everything [encode] computes before it writes: the effective magic, the framing
    and key bytes, and the three length fields. *)
Definition encode_plan (c : FrameCodec) (f : Frame)
    : presult (Magic * bytes * bytes * Z * Z * Z) :=
  let? framing := encode_framing_extras (framing_extras f) in
  let? m := encoded_magic (magic f) (negb (bool_decide (framing = []))) in
  if u8_max <? len (extras f) then
    Err (InvalidLength ("extras length " +:+ pretty (len (extras f)) +:+ " exceeds 255"))
  else
    let? k := encode_key c f in
    do? check_key_len m k framing in
    do? check_direction f in
    let? body_len :=
      ok_or (match checked_add usize_max (len framing) (len (extras f)) with
             | Some l =>
                 match checked_add usize_max l (len k) with
                 | Some l => checked_add usize_max l (len (value f))
                 | None => None
                 end
             | None => None
             end) (InvalidLength "body length overflows usize") in
    let? total_len := ok_or (checked_add usize_max HEADER_LEN body_len)
      (InvalidLength "frame length overflows usize") in
    if max_frame_size c <? total_len then
      Err (InvalidLength ("frame size " +:+ pretty total_len
        +:+ " exceeds configured maximum " +:+ pretty (max_frame_size c)))
    else
      let? body_len_u32 := ok_or (try_from u32_max body_len)
        (InvalidLength "body length exceeds u32::MAX") in
      let? extras_len_u8 := ok_or (try_from u8_max (len (extras f)))
        (InvalidLength "extras length exceeds u8::MAX") in
      let? framing_len_u8 := ok_or (try_from u8_max (len framing))
        (InvalidLength "framing extras length exceeds u8::MAX") in
      Ok (m, framing, k, body_len_u32, extras_len_u8, framing_len_u8).

Definition encode (c : FrameCodec) (f : Frame) (destination : bytes) : presult unit * bytes :=
  match encode_plan c f with
  | Err e => (Err e, destination)
  | Panic => (Panic, destination)
  | Ok (m, framing, k, body_len, extras_len, framing_len) =>
      let destination := destination ++ put_u8 (magic_as_u8 m) ++ put_u8 (opcode f) in
      let key_len_field :=
        if magic_is_alt m then
          res_map put_u8 (ok_or (try_from u8_max (len k))
            (InvalidLength "flexible-frame key length exceeds u8::MAX"))
        else
          res_map put_u16 (ok_or (try_from u16_max (len k))
            (InvalidLength "classic-frame key length exceeds u16::MAX")) in
      let destination :=
        if magic_is_alt m then destination ++ put_u8 framing_len else destination in
      match key_len_field with
      | Err e => (Err e, destination)
      | Panic => (Panic, destination)
      | Ok key_len_bytes =>
          (Ok tt,
           destination ++ key_len_bytes ++ put_u8 extras_len ++ put_u8 (datatype f)
           ++ (if magic_is_response (magic f) then put_u16 (status f) else put_u16 (vbucket f))
           ++ put_u32 body_len ++ put_u32 (opaque f) ++ put_u64 (cas f)
           ++ framing ++ extras f ++ k ++ value f)
      end
  end.

(** ** Framing extras round trip *)

Definition nibbles_ok (i l : Z) : Prop :=
  let h := Z.lor (Z.land (Z.shiftl i 4) 0xff) l in
  Z.shiftr h 4 = i ∧ Z.land h 0x0f = l ∧ is_u8 h.

Lemma nibbles_nat (i l : nat) :
  (i < 16)%nat → (l < 16)%nat → nibbles_ok (Z.of_nat i) (Z.of_nat l).
Proof.
  intros Hi Hl. unfold nibbles_ok.
  do 16 (destruct i as [|i];
    [do 16 (destruct l as [|l]; [repeat split; vm_compute; congruence|]); lia|]).
  lia.
Qed.

Lemma nibbles i l : 0 ≤ i ≤ 15 → 0 ≤ l ≤ 15 → nibbles_ok i l.
Proof.
  intros Hi Hl. pose proof (nibbles_nat (Z.to_nat i) (Z.to_nat l)) as Hn.
  rewrite !Z2Nat.id in Hn by lia. apply Hn; lia.
Qed.

(** The extension byte of an identifier or length of at least fifteen. *)
Definition ext_bytes (n : Z) : bytes := if 15 <=? n then [n - 15] else [].

Lemma encode_framing_extra_ok e bs :
  is_u16 (fx_id e) → encode_framing_extra e = Ok bs →
  fx_id e ≤ 270 ∧ len (fx_data e) ≤ 270 ∧
  ∃ h, nibbles_ok (Z.min (fx_id e) 15) (Z.min (len (fx_data e)) 15) ∧
       h = Z.lor (Z.land (Z.shiftl (Z.min (fx_id e) 15) 4) 0xff) (Z.min (len (fx_data e)) 15) ∧
       bs = h :: ext_bytes (fx_id e) ++ ext_bytes (len (fx_data e)) ++ fx_data e.
Proof.
  destruct e as [id data]. simpl. intros Hid. unfold encode_framing_extra. simpl.
  destruct ((270 <? id) || (270 <? len data)) eqn:Hlim; [done|].
  apply orb_false_iff in Hlim as [Hid'%Z.ltb_ge Hlen%Z.ltb_ge].
  pose proof (len_nonneg data) as Hl0. unfold_ranges.
  rewrite (try_from_ok _ (Z.min id 15)), (try_from_ok _ (Z.min (len data) 15)) by lia.
  unfold ext_bytes. intros Henc. split_and!; [done..|]. eexists. split_and!; [|done|].
  { apply nibbles; lia. }
  revert Henc. destruct (Z.leb_spec 15 id), (Z.leb_spec 15 (len data));
    rewrite ?try_from_ok by lia; intros; by simplify_eq/=.
Qed.

Lemma decode_extension {E} m n X (e : E) :
  0 ≤ n ≤ 270 → 270 ≤ m →
  (if Z.min n 15 =? 15 then
     let? extension := ok_or (head (ext_bytes n ++ X)) e in
     let? source := slice_from (ext_bytes n ++ X) 1 in
     let? id := add_or_panic m (Z.min n 15) extension in
     Ok (id, source)
   else Ok (Z.min n 15, ext_bytes n ++ X)) = Ok (n, X).
Proof.
  intros Hn Hm. unfold ext_bytes. destruct (Z.leb_spec 15 n).
  - rewrite Z.min_r, Z.eqb_refl by lia. simpl. rewrite slice_from_cons. unfold add_or_panic.
    destruct (Z.leb_spec (15 + (n - 15)) m); [|lia]. f_equal. f_equal. lia.
  - rewrite Z.min_l by lia. by destruct (Z.eqb_spec n 15); [lia|].
Qed.

(** One extra: its encoding decodes back to it and leaves the rest alone. *)
Lemma decode_encode_framing_extra e bs rest :
  is_u16 (fx_id e) → encode_framing_extra e = Ok bs →
  decode_framing_extra (bs ++ rest) = Ok (e, rest).
Proof.
  intros Hid Henc. pose proof (len_nonneg (fx_data e)) as Hl0.
  apply encode_framing_extra_ok in Henc as (Hi & Hl & h & (Hn1 & Hn2 & _) & Hh & ->); [|done].
  rewrite <-Hh in Hn1, Hn2. destruct e as [id data]; simpl in *.
  unfold decode_framing_extra. rewrite index_cons_0.
  rewrite slice_from_cons, Hn1, Hn2, <-!app_assoc.
  rewrite (decode_extension u16_max id) by (unfold_ranges; lia).
  rewrite (decode_extension usize_max (len data)) by (unfold_ranges; lia).
  rewrite len_app. pose proof (len_nonneg rest).
  destruct (Z.ltb_spec (len data + len rest) (len data)); [lia|].
  by rewrite slice_to_app, slice_from_app.
Qed.

Lemma decode_framing_extra_shrinks src e src' :
  decode_framing_extra src = Ok (e, src') → (length src' < length src)%nat.
Proof.
  unfold decode_framing_extra. intros Hd. enough (len src' < len src) by (unfold len in *; lia).
  repeat (case_match; simplify_eq/=); repeat match goal with
    | H : slice_from _ _ = Ok _ |- _ => apply slice_from_inv in H
    | H : slice_to _ _ = Ok _ |- _ => clear H
    end; lia.
Qed.

(** The decoding loop does not depend on the fuel once it covers the input. *)
Lemma decode_framing_fuel fuel fuel' src acc :
  (length src ≤ fuel)%nat → (length src ≤ fuel')%nat →
  decode_framing_loop fuel src acc = decode_framing_loop fuel' src acc.
Proof.
  revert fuel' src acc. induction fuel as [|fuel IH]; intros [|fuel'] src acc Hf Hf'; simpl.
  - done.
  - by destruct src; [|simpl in Hf; lia].
  - by destruct src; [|simpl in Hf'; lia].
  - case_decide; [done|].
    destruct (decode_framing_extra src) as [[e src']| |] eqn:E; [|done..].
    apply decode_framing_extra_shrinks in E. apply IH; lia.
Qed.

Lemma decode_framing_cons src e src' acc :
  decode_framing_extra src = Ok (e, src') →
  decode_framing_loop (length src) src acc
  = decode_framing_loop (length src') src' (acc ++ [e]).
Proof.
  intros Hd. pose proof (decode_framing_extra_shrinks _ _ _ Hd).
  destruct src as [|b src]; [simpl in *; lia|]. cbn [length decode_framing_loop].
  rewrite decide_False by done. rewrite Hd. apply decode_framing_fuel; simpl in *; lia.
Qed.

Lemma encode_framing_extras_cons e l dst bs :
  for_res (e :: l) dst (λ destination extra,
    let? bs := encode_framing_extra extra in Ok (destination ++ bs)) = Ok bs →
  ∃ b, encode_framing_extra e = Ok b ∧
    for_res l (dst ++ b) (λ destination extra,
      let? bs := encode_framing_extra extra in Ok (destination ++ bs)) = Ok bs.
Proof. simpl. repeat case_match; intros; simplify_eq. eauto. Qed.

(** The whole list of extras: what [encode_framing_extras] writes, the decoder reads
    back, in order. *)
Lemma decode_encode_framing_gen l dst bs acc :
  Forall (λ e, is_u16 (fx_id e)) l →
  for_res l dst (λ destination extra,
    let? bs := encode_framing_extra extra in Ok (destination ++ bs)) = Ok bs →
  ∃ tl, bs = dst ++ tl ∧ decode_framing_loop (length tl) tl acc = Ok (acc ++ l).
Proof.
  intros Hl. revert dst acc. induction Hl as [|e l He Hl IH]; intros dst acc Henc.
  - simpl in Henc. simplify_eq. exists []. by rewrite !app_nil_r.
  - apply encode_framing_extras_cons in Henc as (b & Hb & Henc).
    destruct (IH (dst ++ b) (acc ++ [e]) Henc) as (tl & -> & Htl).
    exists (b ++ tl). split; [by rewrite app_assoc|].
    erewrite decode_framing_cons by by apply decode_encode_framing_extra.
    by rewrite Htl, <-app_assoc.
Qed.

Lemma decode_encode_framing_extras l bs :
  Forall (λ e, is_u16 (fx_id e)) l → encode_framing_extras l = Ok bs →
  decode_framing_extras bs = Ok l.
Proof.
  intros Hl Henc. destruct (decode_encode_framing_gen l [] bs [] Hl Henc) as (tl & -> & Htl).
  done.
Qed.

(** ** No panic *)

Lemma nibble_bounds h : 0 ≤ h ≤ 255 → 0 ≤ Z.shiftr h 4 ≤ 15 ∧ 0 ≤ Z.land h 0x0f ≤ 15.
Proof.
  intros Hh. rewrite Z.shiftr_div_pow2 by lia.
  change (Z.land h 0x0f) with (Z.land h (Z.ones 4)). rewrite Z.land_ones by lia.
  change (2 ^ 4) with 16.
  pose proof (Z.mod_pos_bound h 16 ltac:(lia)). pose proof (Z.div_mod h 16 ltac:(lia)). lia.
Qed.

Lemma decode_framing_extra_no_panic src :
  wf_bytes src → src ≠ [] → decode_framing_extra src ≠ Panic.
Proof.
  intros Hwf Hne. destruct src as [|h src]; [done|]. apply wf_cons in Hwf as [Hh Hwf].
  unfold decode_framing_extra. rewrite index_cons_0, slice_from_cons.
  destruct (nibble_bounds h) as [Hn1 Hn2]; [done|].
  set (id := Z.shiftr h 4) in *. set (l := Z.land h 0x0f) in *. clearbody id l.
  intros Hp. destruct (id =? 15).
  2: { destruct (l =? 15); [|res_cases; res_facts; lia].
       destruct src as [|e src]; [done|]. apply wf_cons in Hwf as [He Hwf]. simpl in Hp.
       rewrite slice_from_cons in Hp. unfold_ranges. res_cases; res_facts; lia. }
  destruct src as [|e src]; [done|]. apply wf_cons in Hwf as [He Hwf]. simpl in Hp.
  rewrite slice_from_cons in Hp. unfold_ranges.
  destruct (add_or_panic 65535 id e) as [id'| |] eqn:Ha; [|done|res_facts; lia].
  destruct (l =? 15); [|res_cases; res_facts; lia].
  destruct src as [|e' src]; [done|].
  apply wf_cons in Hwf as [He' Hwf]. simpl in Hp.
  rewrite slice_from_cons in Hp. unfold_ranges. res_cases; res_facts; lia.
Qed.

Lemma decode_framing_extra_wf src e src' :
  wf_bytes src → decode_framing_extra src = Ok (e, src') → wf_framing_extra e ∧ wf_bytes src'.
Proof.
  intros Hwf. unfold decode_framing_extra. destruct src as [|h src]; [done|].
  apply wf_cons in Hwf as [Hh Hwf]. rewrite index_cons_0, slice_from_cons.
  destruct (nibble_bounds h) as [Hn1 Hn2]; [done|].
  set (id := Z.shiftr h 4) in *. set (l := Z.land h 0x0f) in *. clearbody id l.
  intros Hd. res_cases; res_facts; unfold wf_framing_extra; simpl;
    repeat match goal with
    | H : slice_from _ _ = Ok ?l |- _ => apply slice_wf in H; [|done]
    | H : slice_to _ _ = Ok ?l |- _ => apply slice_wf in H; [|done]
    | H : ok_or (head ?l) _ = Ok ?x, Hwf : wf_bytes ?l |- _ =>
        destruct l; simplify_eq/=; apply wf_cons in Hwf as [? ?]
    end; split_and!; try done; unfold_ranges; lia.
Qed.

Lemma decode_framing_no_panic fuel src acc :
  wf_bytes src → decode_framing_loop fuel src acc ≠ Panic.
Proof.
  revert src acc. induction fuel as [|fuel IH]; intros src acc Hwf; simpl; [done|].
  case_decide; [done|].
  destruct (decode_framing_extra src) as [[e src']| |] eqn:E; [|done|].
  - apply IH. by apply decode_framing_extra_wf in E as [_ ?].
  - by apply decode_framing_extra_no_panic in E.
Qed.

Lemma decode_header_no_panic c src : HEADER_LEN ≤ len src → decode_header c src ≠ Panic.
Proof.
  intros Hl Hp. unfold decode_header, HEADER_LEN in *. res_cases; res_facts; try lia.
  by eapply magic_try_from_no_panic.
Qed.

Lemma decode_header_inv c src m bl tl :
  wf_bytes src → decode_header c src = Ok (m, bl, tl) →
  0 ≤ bl ∧ tl = HEADER_LEN + bl ∧ tl ≤ max_frame_size c.
Proof.
  intros Hwf. unfold decode_header. intros Hd. res_cases.
  repeat match goal with
  | H : ok_or _ _ = Ok _ |- _ => apply ok_or_inv in H
  | H : checked_add _ _ _ = Some _ |- _ => apply checked_add_inv in H as [-> ?]
  | H : try_from _ _ = Some _ |- _ => apply try_from_inv in H as [-> ?]
  end.
  split_and!; [|done|lia].
  apply (wf_from_be _ (2 ^ 32)); [|unfold len; simpl; lia].
  repeat (apply wf_cons; split; [by eapply wf_index|]). constructor.
Qed.

(** The lengths a packet declares, once they passed the bound on the body. *)
Lemma fields_len_inv a b c e n :
  ok_or (E:=ProtocolError) (match checked_add usize_max a b with
         | Some l => checked_add usize_max l c | None => None end) e = Ok n → n = a + b + c.
Proof.
  intros H%ok_or_inv. case_match eqn:Ha; [|done].
  apply checked_add_inv in Ha as [-> _]. by apply checked_add_inv in H as [-> _].
Qed.

Lemma decode_packet_no_panic c m bl tl packet :
  wf_bytes packet → 0 ≤ bl → len packet = HEADER_LEN + bl →
  decode_packet c m bl tl packet ≠ Panic.
Proof.
  intros Hwf Hbl Hlen Hp. unfold decode_packet, HEADER_LEN in *.
  destruct (index packet 2) as [b2| |] eqn:E2; [|done|res_facts; lia].
  destruct (index packet 3) as [b3| |] eqn:E3; [|done|res_facts; lia].
  destruct (if magic_is_alt m then _ else _) as [fl kl] eqn:Efk.
  assert (0 ≤ fl ∧ 0 ≤ kl) as [Hfl Hkl].
  { apply wf_index in E2, E3; [|done..]. destruct (magic_is_alt m); simplify_eq; [lia|].
    split; [lia|]. apply (wf_from_be _ (2 ^ 16)); [|unfold len; simpl; lia].
    repeat (apply wf_cons; split; [done|]). constructor. }
  destruct (index packet 4) as [el| |] eqn:E4; [|done|res_facts; lia].
  apply wf_index in E4; [|done].
  destruct (ok_or _ _) as [n| |] eqn:En in Hp; [|done|res_facts].
  apply fields_len_inv in En as ->.
  destruct (Z.ltb_spec bl (fl + el + kl)); [done|].
  destruct (slice_from packet 24) as [body| |] eqn:Eb; [|done|res_facts; lia].
  pose proof (slice_wf _ _ _ _ Eb Hwf) as Hwb. apply slice_from_inv in Eb.
  destruct (slice_to body fl) as [fb| |] eqn:Ef; [|done|res_facts; lia].
  pose proof (slice_wf _ _ _ _ Ef Hwb) as Hwfb.
  destruct (decode_framing_extras fb) eqn:Edf; [|done|by apply decode_framing_no_panic in Edf].
  destruct (slice body fl (fl + el)) eqn:?; [|done|res_facts; lia].
  destruct (slice body (fl + el) (fl + el + kl)) as [k| |] eqn:Ek; [|done|res_facts; lia].
  pose proof (slice_wf _ _ _ _ Ek Hwb) as Hwk.
  destruct (slice_from body (fl + el + kl)) eqn:?; [|done|res_facts; lia].
  destruct (index packet 1) as [op| |] eqn:?; [|done|res_facts; lia].
  destruct (if collections_enabled c && _ && _ then _ else _) as [[k' cid]| |] eqn:Ec in Hp.
  - res_cases; res_facts; lia.
  - done.
  - destruct (_ && _) in Ec; [|done].
    destruct (decode_uleb128_u32 k) as [[d n]| |] eqn:Eu; [|done|].
    + apply decode_uleb128_bounds in Eu; [|done]. res_cases; res_facts; lia.
    + by apply decode_uleb128_no_panic in Eu.
Qed.

Lemma decode_no_panic c src : wf_bytes src → (decode c src).1 ≠ Panic.
Proof.
  intros Hwf. unfold decode. destruct (Z.ltb_spec (len src) HEADER_LEN); [done|].
  destruct (decode_header c src) as [[[m bl] tl]| |] eqn:Eh.
  - pose proof (decode_header_inv _ _ _ _ _ Hwf Eh) as (Hbl & Htl & _).
    destruct (Z.ltb_spec (len src) tl); [done|]. simpl.
    destruct (decode_packet c m bl tl _) eqn:Ep; [done|done|].
    exfalso. eapply decode_packet_no_panic; [..|exact Ep]; [by apply Forall_take|done|].
    unfold len, HEADER_LEN in *. rewrite length_take. lia.
  - done.
  - by apply decode_header_no_panic in Eh.
Qed.

(** What an accepted packet is: the buffer loses exactly its [total_len] bytes, which
    the frame records as its wire size and which respects the configured maximum. *)
Lemma decode_ok_inv c src f src' :
  wf_bytes src → decode c src = (Ok (Some f), src') →
  ∃ packet, src = packet ++ src' ∧ len packet = wire_size f ∧
    HEADER_LEN ≤ wire_size f ≤ max_frame_size c.
Proof.
  intros Hwf. unfold decode. destruct (Z.ltb_spec (len src) HEADER_LEN); [done|].
  destruct (decode_header c src) as [[[m bl] tl]| |] eqn:Eh; [|done..].
  pose proof (decode_header_inv _ _ _ _ _ Hwf Eh) as (Hbl & Htl & Hmax).
  destruct (Z.ltb_spec (len src) tl); [done|].
  intros [= Hp <-]. unfold res_map in Hp.
  destruct (decode_packet c m bl tl _) as [f'| |] eqn:Ep; [|done..]. simplify_eq.
  assert (wire_size f = HEADER_LEN + bl) as ->.
  { unfold decode_packet in Ep. by res_cases. }
  eexists. split; [symmetry; apply take_drop|].
  unfold len, HEADER_LEN in *. rewrite length_take. lia.
Qed.

Lemma decode_incomplete c src src' : decode c src = (Ok None, src') → src' = src.
Proof. unfold decode, res_map. intros Hd. by res_cases. Qed.

(** ** Round trip *)

(** The frame a peer with the same codec receives for [f]: the effective magic, the
    collection ID the prefix carries, and the wire size. *)
Definition received (c : FrameCodec) (m : Magic) (total : Z) (f : Frame) : Frame :=
  mkFrame m (opcode f) (datatype f) (vbucket f) (status f) (opaque f) (cas f)
    (framing_extras f) (extras f) (key f) (value f)
    (if collections_enabled c && is_collection_encoded (opcode f)
     then Some (default 0 (collection_id f)) else None)
    (Some total).

Lemma decode_encode_key c f k :
  wf_frame f → encode_key c f = Ok k →
  (if collections_enabled c && is_collection_encoded (opcode f) && negb (bool_decide (k = []))
   then
     let? (decoded, consumed) := decode_uleb128_u32 k in
     let? key := slice_from k consumed in
     Ok (key, Some decoded)
   else Ok (k, None))
  = Ok (E:=ProtocolError) (key f, collection_id (received c Request 0 f)).
Proof.
  intros Hwf. unfold encode_key, received. cbn [collection_id].
  destruct (collections_enabled c && is_collection_encoded (opcode f)) eqn:Hc; cbn [andb].
  - intros Hk.
    assert (k = encode_uleb128_u32 (default 0 (collection_id f)) [] ++ key f) as -> by congruence.
    clear Hk. assert (is_u32 (default 0 (collection_id f))) as Hcid.
    { destruct (collection_id f) as [cid|] eqn:E; simpl; [by apply (wf_cid f Hwf)|].
      unfold_ranges. lia. }
    rewrite bool_decide_eq_false_2.
    + cbn [negb]. rewrite decode_encode_uleb128 by done. by rewrite slice_from_app.
    + unfold encode_uleb128_u32. pose proof (encode_loop_length 4 (default 0 (collection_id f))).
      intros Hnil. apply (f_equal length) in Hnil. rewrite !length_app in Hnil. cbn [length] in Hnil. lia.
  - case_match; [done|]. intros. by simplify_eq.
Qed.

Lemma body_slices (framing ex k v : bytes) :
  let body := framing ++ ex ++ k ++ v in
  slice_to (E:=ProtocolError) body (len framing) = Ok framing ∧
  slice (E:=ProtocolError) body (len framing) (len framing + len ex) = Ok ex ∧
  slice (E:=ProtocolError) body (len framing + len ex) (len framing + len ex + len k) = Ok k ∧
  slice_from (E:=ProtocolError) body (len framing + len ex + len k) = Ok v.
Proof.
  simpl. split_and!.
  - by apply slice_to_app.
  - by apply slice_app_mid.
  - rewrite (app_assoc framing ex). apply slice_app_mid; rewrite !len_app; lia.
  - rewrite (app_assoc ex k), (app_assoc framing). apply slice_from_app. rewrite !len_app. lia.
Qed.

Section Wire.
Context (c : FrameCodec) (m : Magic) (op k0 k1 dt s0 s1 l0 l1 l2 l3 o0 o1 o2 o3 : Z).
Context (c0 c1 c2 c3 c4 c5 c6 c7 : Z) (framing ex k v : bytes).
Context (fx : list FramingExtra) (kc : bytes * option Z).

Definition wire_body : bytes := framing ++ ex ++ k ++ v.
(** The 24 header bytes, in wire order. *)
Definition wire_header : bytes :=
  [magic_as_u8 m; op; k0; k1; len ex; dt; s0; s1; l0; l1; l2; l3; o0; o1; o2; o3;
   c0; c1; c2; c3; c4; c5; c6; c7].
Definition wire_frame : Frame :=
  mkFrame m op dt
    (if magic_is_request m then from_be_bytes [s0; s1] else 0)
    (if magic_is_response m then from_be_bytes [s0; s1] else STATUS_SUCCESS)
    (from_be_bytes [o0; o1; o2; o3]) (from_be_bytes [c0; c1; c2; c3; c4; c5; c6; c7])
    fx ex kc.1 v kc.2 (Some (HEADER_LEN + len wire_body)).

Hypothesis Hbl : from_be_bytes [l0; l1; l2; l3] = len wire_body.
Hypothesis Hfk :
  (if magic_is_alt m then (k0, k1) else (0, from_be_bytes [k0; k1])) = (len framing, len k).
Hypothesis Hmax : HEADER_LEN + len wire_body ≤ max_frame_size c.
Hypothesis Hu32 : len wire_body ≤ u32_max.
Hypothesis Hfx : decode_framing_extras framing = Ok fx.
Hypothesis Hkc :
  (if collections_enabled c && is_collection_encoded op && negb (bool_decide (k = []))
   then
     let? (decoded, consumed) := decode_uleb128_u32 k in
     let? key := slice_from k consumed in
     Ok (key, Some decoded)
   else Ok (k, None)) = Ok kc.

Lemma decode_header_wire X :
  decode_header c (wire_header ++ X) = Ok (m, len wire_body, HEADER_LEN + len wire_body).
Proof using Hbl Hmax Hu32.
  unfold decode_header.
  rewrite (index_app_l wire_header _ 0 (magic_as_u8 m)), (index_app_l wire_header _ 8 l0),
    (index_app_l wire_header _ 9 l1), (index_app_l wire_header _ 10 l2),
    (index_app_l wire_header _ 11 l3) by done.
  rewrite magic_try_from_as_u8, Hbl, try_from_ok by (unfold_ranges; lia).
  unfold checked_add, HEADER_LEN in *. unfold_ranges.
  destruct (Z.leb_spec (24 + len wire_body) 18446744073709551615); [|lia]. cbn [ok_or].
  by destruct (Z.ltb_spec (max_frame_size c) (24 + len wire_body)); [lia|].
Qed.

Lemma decode_packet_wire :
  decode_packet c m (len wire_body) (HEADER_LEN + len wire_body) (wire_header ++ wire_body)
  = Ok wire_frame.
Proof using Hfk Hfx Hkc Hu32.
  unfold decode_packet.
  rewrite (index_app_l wire_header _ 2 k0), (index_app_l wire_header _ 3 k1),
    (index_app_l wire_header _ 4 (len ex)), (index_app_l wire_header _ 1 op),
    (index_app_l wire_header _ 6 s0), (index_app_l wire_header _ 7 s1),
    (index_app_l wire_header _ 5 dt) by done.
  rewrite Hfk, (slice_from_app wire_header wire_body) by done.
  pose proof (len_nonneg framing). pose proof (len_nonneg ex). pose proof (len_nonneg k).
  pose proof (len_nonneg v).
  assert (len wire_body = len framing + (len ex + (len k + len v))) as Hbody.
  { unfold wire_body. by rewrite !len_app. }
  unfold checked_add. unfold_ranges.
  destruct (Z.leb_spec (len framing + len ex) 18446744073709551615); [|lia].
  destruct (Z.leb_spec (len framing + len ex + len k) 18446744073709551615); [|lia].
  cbn [ok_or]. destruct (Z.ltb_spec (len wire_body) (len framing + len ex + len k)); [lia|].
  destruct (body_slices framing ex k v) as (S1 & S2 & S3 & S4).
  fold wire_body in S1, S2, S3, S4. rewrite S1, S2, S3, S4, Hfx, Hkc. unfold wire_frame. destruct kc as [k' cid].
  rewrite (slice_app_mid (take 12 wire_header) [o0; o1; o2; o3] (drop 16 wire_header ++ wire_body))
    by done.
  by rewrite (slice_app_mid (take 16 wire_header) [c0; c1; c2; c3; c4; c5; c6; c7] wire_body)
    by done.
Qed.

(** Decoding a buffer that starts with such a packet: the frame, and the rest untouched. *)
Lemma decode_wire rest :
  decode c (wire_header ++ wire_body ++ rest) = (Ok (Some wire_frame), rest).
Proof using All.
  pose proof (len_nonneg wire_body) as Hb0. pose proof (len_nonneg rest) as Hr0.
  assert (len wire_header = HEADER_LEN) as Hhdr by done.
  unfold decode. rewrite decode_header_wire, !len_app, Hhdr.
  destruct (Z.ltb_spec (HEADER_LEN + (len wire_body + len rest)) HEADER_LEN); [lia|].
  destruct (Z.ltb_spec (HEADER_LEN + (len wire_body + len rest)) (HEADER_LEN + len wire_body));
    [lia|].
  assert (Z.to_nat (HEADER_LEN + len wire_body) = length (wire_header ++ wire_body)) as ->.
  { rewrite length_app. unfold len, HEADER_LEN in *. lia. }
  by rewrite app_assoc, take_app_length, drop_app_length, decode_packet_wire.
Qed.
End Wire.

Lemma encode_framing_extras_nil l bs :
  Forall (λ e, is_u16 (fx_id e)) l → encode_framing_extras l = Ok bs → bs = [] ↔ l = [].
Proof.
  intros Hl Henc. split.
  - intros ->. apply decode_encode_framing_extras in Henc; [|done].
    unfold decode_framing_extras in Henc. by simplify_eq/=.
  - intros ->. unfold encode_framing_extras in Henc. by simplify_eq/=.
Qed.

Lemma encoded_magic_direction m b m' :
  encoded_magic m b = Ok m' →
  magic_is_request m' = magic_is_request m ∧ magic_is_response m' = magic_is_response m
  ∧ (magic_is_alt m' = false → b = false).
Proof. destruct m, b; simpl; intros [= <-]; split_and!; try done; intros [=]. Qed.

(** What [encode_plan] establishes before a byte is written. *)
Lemma encode_framing_extra_no_panic e : encode_framing_extra e ≠ Panic.
Proof. unfold encode_framing_extra. intros Hp. res_cases; res_facts. Qed.
Lemma encode_framing_extras_no_panic l : encode_framing_extras l ≠ Panic.
Proof.
  unfold encode_framing_extras. generalize (@nil Z).
  induction l as [|e l IH]; intros dst; cbn [for_res]; [done|].
  pose proof (encode_framing_extra_no_panic e).
  destruct (encode_framing_extra e); [apply IH|done..].
Qed.
Lemma encode_plan_no_panic c f : encode_plan c f ≠ Panic.
Proof.
  unfold encode_plan. apply let_no_panic; [apply encode_framing_extras_no_panic|].
  intros framing. apply let_no_panic; [unfold encoded_magic; by repeat case_match|].
  intros m. destruct (u8_max <? _); [done|].
  apply let_no_panic; [unfold encode_key; by repeat case_match|]. intros k.
  apply let_no_panic; [unfold check_key_len; by repeat case_match|]. intros _.
  apply let_no_panic; [unfold check_direction; by repeat case_match|]. intros _.
  do 2 (apply let_no_panic; [apply ok_or_not_panic|intros ?]).
  destruct (max_frame_size c <? _); [done|].
  by do 3 (apply let_no_panic; [apply ok_or_not_panic|intros ?]).
Qed.
Lemma encode_no_panic c f dst : (encode c f dst).1 ≠ Panic.
Proof.
  unfold encode. pose proof (encode_plan_no_panic c f).
  destruct (encode_plan c f) as [[[[[[m framing] k] bl] el] fl]|e|]; [|done..].
  intros Hp. unfold res_map, ok_or, try_from in Hp. by res_cases.
Qed.

Lemma encode_plan_inv c f m framing k bl el fl :
  encode_plan c f = Ok (m, framing, k, bl, el, fl) →
  encode_framing_extras (framing_extras f) = Ok framing ∧
  encoded_magic (magic f) (negb (bool_decide (framing = []))) = Ok m ∧
  encode_key c f = Ok k ∧
  (if magic_is_alt m then len k ≤ 255 else len k ≤ 65535) ∧
  check_direction f = Ok tt ∧
  bl = len framing + len (extras f) + len k + len (value f) ∧
  HEADER_LEN + bl ≤ max_frame_size c ∧ bl ≤ u32_max ∧
  el = len (extras f) ∧ el ≤ 255 ∧ fl = len framing ∧ fl ≤ 255.
Proof.
  unfold encode_plan. intros Hp.
  destruct (encode_framing_extras _) as [fr| |]; [|done..].
  destruct (encoded_magic _ _) as [m'| |] eqn:Hem; [|done..].
  destruct (Z.ltb_spec u8_max (len (extras f))); [done|].
  destruct (encode_key c f) as [k'| |]; [|done..].
  destruct (check_key_len m' k' fr) as [[]| |] eqn:Hck; [|done..].
  destruct (check_direction f) as [[]| |]; [|done..].
  unfold check_key_len in Hck. unfold_ranges.
  repeat match type of Hp with context [ok_or ?o ?e] =>
    let E := fresh "E" in destruct (ok_or o e) eqn:E; [|done..]; apply ok_or_inv in E end.
  repeat (case_match; simplify_eq/=); repeat match goal with
  | H : ok_or _ _ = Ok _ |- _ => apply ok_or_inv in H
  | H : checked_add _ _ _ = Some _ |- _ => apply checked_add_inv in H as [-> ?]
  | H : try_from _ _ = Some _ |- _ => apply try_from_inv in H as [-> ?]
  end; split_and!; try done; lia.
Qed.

(** The bytes of a successful [encode], header field by header field. *)
Lemma encode_bytes c f dst bs :
  encode c f dst = (Ok tt, bs) →
  ∃ m framing k bl el fl, encode_plan c f = Ok (m, framing, k, bl, el, fl) ∧
    bs = dst ++ [magic_as_u8 m; opcode f]
      ++ (if magic_is_alt m then [fl; len k] else put_u16 (len k)) ++ [el; datatype f]
      ++ (if magic_is_response (magic f) then put_u16 (status f) else put_u16 (vbucket f))
      ++ put_u32 bl ++ put_u32 (opaque f) ++ put_u64 (cas f)
      ++ framing ++ extras f ++ k ++ value f.
Proof.
  unfold encode.
  destruct (encode_plan c f) as [[[[[[m framing] k] bl] el] fl]| |]; [|done..].
  intros He. exists m, framing, k, bl, el, fl. split; [done|].
  unfold put_u8, try_from in He.
  destruct (magic_is_alt m); destruct (len k <=? _); simplify_eq/=; by rewrite <-!app_assoc.
Qed.

Lemma app_cons2 {A} (a b : A) l : [a; b] ++ l = a :: b :: l.
Proof. done. Qed.

(** Encoding, then decoding what follows on the wire. *)
Lemma decode_encode c f bs rest :
  wf_frame f → encode c f [] = (Ok tt, bs) →
  ∃ m, encoded_magic (magic f) (negb (bool_decide (framing_extras f = []))) = Ok m ∧
    decode c (bs ++ rest) = (Ok (Some (received c m (len bs) f)), rest).
Proof.
  intros Hwf Henc.
  apply encode_bytes in Henc as (m & framing & k & bl & el & fl & Hplan & ->).
  apply encode_plan_inv in Hplan
    as (Hfr & Hm & Hk & Hkl & Hdir & Hbl & Hmax & Hbu & -> & Hel & -> & Hfl).
  assert (Forall (λ e, is_u16 (fx_id e)) (framing_extras f)) as Hids.
  { eapply Forall_impl; [apply (wf_framing f Hwf)|]. by intros ? []. }
  exists m. split.
  { erewrite bool_decide_ext; [exact Hm|].
    symmetry. by apply encode_framing_extras_nil. }
  destruct (encoded_magic_direction _ _ _ Hm) as (Hrq & Hrs & Halt).
  pose proof (len_nonneg framing). pose proof (len_nonneg (extras f)).
  pose proof (len_nonneg k). pose proof (len_nonneg (value f)).
  destruct (put_u32_inv bl) as (l0 & l1 & l2 & l3 & -> & Hl); [unfold_ranges; lia|].
  destruct (put_u32_inv (opaque f)) as (o0 & o1 & o2 & o3 & -> & Ho); [apply Hwf|].
  destruct (put_u64_inv (cas f)) as (c0 & c1 & c2 & c3 & c4 & c5 & c6 & c7 & -> & Hc);
    [apply Hwf|].
  assert (∃ s0 s1, (if magic_is_response (magic f) then put_u16 (status f)
                    else put_u16 (vbucket f)) = [s0; s1] ∧
    (if magic_is_request m then from_be_bytes [s0; s1] else 0) = vbucket f ∧
    (if magic_is_response m then from_be_bytes [s0; s1] else STATUS_SUCCESS) = status f)
    as (s0 & s1 & -> & Hv & Hs).
  { destruct (put_u16_inv (status f)) as (a & b & Ha & Hab); [apply Hwf|].
    destruct (put_u16_inv (vbucket f)) as (a' & b' & Ha' & Hab'); [apply Hwf|].
    rewrite Hrq, Hrs, magic_request_xor_response.
    unfold check_direction, status_is_success in Hdir.
    rewrite magic_request_xor_response in Hdir.
    destruct (magic_is_response (magic f)); simpl in *.
    - exists a, b. destruct (Z.eqb_spec (vbucket f) 0); simplify_eq/=. done.
    - exists a', b'. destruct (Z.eqb_spec (status f) 0); simplify_eq/=. done. }
  assert (∃ k0 k1, (if magic_is_alt m then [len framing; len k] else put_u16 (len k)) = [k0; k1]
    ∧ (if magic_is_alt m then (k0, k1) else (0, from_be_bytes [k0; k1])) = (len framing, len k))
    as (k0 & k1 & -> & Hfk).
  { destruct (magic_is_alt m) eqn:Ea; [by eauto|].
    destruct (put_u16_inv (len k)) as (a & b & Ha & Hab); [unfold_ranges; lia|].
    exists a, b. rewrite Ha, Hab. split; [done|]. f_equal.
    specialize (Halt eq_refl). apply negb_false_iff in Halt. by case_bool_decide; subst. }
  pose proof (decode_wire c m (opcode f) k0 k1 (datatype f) s0 s1 l0 l1 l2 l3 o0 o1 o2 o3
    c0 c1 c2 c3 c4 c5 c6 c7 framing (extras f) k (value f) (framing_extras f)
    (key f, collection_id (received c Request 0 f))) as Hdec.
  unfold wire_header, wire_body, wire_frame in Hdec. rewrite !len_app in Hdec.
  specialize (Hdec ltac:(lia) Hfk ltac:(lia) ltac:(lia)
    ltac:(by apply decode_encode_framing_extras) ltac:(by apply decode_encode_key) rest).
  rewrite Hv, Hs, Ho, Hc in Hdec. rewrite <-!app_assoc in *.
  etransitivity; [exact Hdec|]. f_equal. f_equal. f_equal. unfold received. simpl. f_equal.
  f_equal. unfold wire_body, HEADER_LEN, len. cbn [app length]. rewrite !length_app. lia.
Qed.

(** ** Streams of frames *)

(** The loop a framed transport runs: decode until the buffer holds no complete frame.
    A frame consumes at least a header, so the buffer's length is enough fuel. *)
Fixpoint decode_all (fuel : nat) (c : FrameCodec) (src : bytes) : list Frame * bytes :=
  match fuel with
  | O => ([], src)
  | S fuel =>
      match decode c src with
      | (Ok (Some f), src') => let '(fs, rest) := decode_all fuel c src' in (f :: fs, rest)
      | (_, src') => ([], src')
      end
  end.

(** Sending a list of frames over one buffer. *)
Fixpoint encode_all (c : FrameCodec) (fs : list Frame) (dst : bytes) : presult bytes :=
  match fs with
  | [] => Ok dst
  | f :: fs =>
      match encode c f dst with
      | (Ok _, dst') => encode_all c fs dst'
      | (Err e, _) => Err e
      | (Panic, _) => Panic
      end
  end.

(** The frame the peer sees, with the framing decided by the extras it carries. *)
Definition peer_view (c : FrameCodec) (f f' : Frame) : Prop :=
  ∃ m bs, encode c f [] = (Ok tt, bs) ∧
    encoded_magic (magic f) (negb (bool_decide (framing_extras f = []))) = Ok m ∧
    f' = received c m (len bs) f.

Lemma encode_dst c f dst :
  encode c f dst = ((encode c f []).1, dst ++ (encode c f []).2).
Proof.
  unfold encode.
  destruct (encode_plan c f) as [[[[[[m framing] k] bl] el] fl]| |]; simpl;
    [|by rewrite app_nil_r..].
  unfold put_u8, try_from.
  destruct (magic_is_alt m); destruct (len k <=? _); simpl; by rewrite <-?app_assoc.
Qed.

Lemma encode_all_cons c f fs dst bs :
  encode_all c (f :: fs) dst = Ok bs →
  ∃ b, encode c f [] = (Ok tt, b) ∧ encode_all c fs (dst ++ b) = Ok bs.
Proof.
  simpl. rewrite encode_dst. destruct (encode c f []) as [[[]| |] b] eqn:E; simpl; [|done..].
  eauto.
Qed.

Lemma decode_all_stop fuel c rest :
  decode c rest = (Ok None, rest) → decode_all fuel c rest = ([], rest).
Proof. intros Hd. destruct fuel; simpl; [done|]. by rewrite Hd. Qed.

Lemma encode_len c f b : wf_frame f → encode c f [] = (Ok tt, b) → HEADER_LEN ≤ len b.
Proof.
  intros Hwf He. apply encode_bytes in He as (m & fr & k & bl & el & fl & _ & ->).
  assert (∀ z, len (put_u16 z) = 2) as H2 by (intros; by apply len_to_be_bytes).
  assert (∀ z, len (put_u32 z) = 4) as H4 by (intros; by apply len_to_be_bytes).
  assert (∀ z, len (put_u64 z) = 8) as H8 by (intros; by apply len_to_be_bytes).
  assert (len (if magic_is_alt m then [fl; len k] else put_u16 (len k)) = 2) as Hk
    by by destruct (magic_is_alt m).
  assert (len (if magic_is_response (magic f) then put_u16 (status f)
               else put_u16 (vbucket f)) = 2) as Hs by by destruct (magic_is_response _).
  rewrite !len_app, Hk, Hs, !H4, H8.
  pose proof (len_nonneg fr). pose proof (len_nonneg (extras f)).
  pose proof (len_nonneg k). pose proof (len_nonneg (value f)).
  unfold HEADER_LEN. change (len [] (A:=Z)) with 0.
  change (len [magic_as_u8 m; opcode f]) with 2. change (len [el; datatype f]) with 2. lia.
Qed.

Lemma decode_encode_all_gen c fs dst bs rest :
  Forall wf_frame fs → encode_all c fs dst = Ok bs → decode c rest = (Ok None, rest) →
  ∃ tl fs', bs = dst ++ tl ∧ Forall2 (peer_view c) fs fs' ∧ (length fs ≤ length tl)%nat ∧
    ∀ fuel, (length fs ≤ fuel)%nat → decode_all fuel c (tl ++ rest) = (fs', rest).
Proof.
  intros Hwf. revert dst. induction Hwf as [|f fs Hf Hwf IH]; intros dst He Hr.
  - simpl in He. simplify_eq. exists [], []. rewrite app_nil_r. split_and!; [done..|].
    intros fuel _. by apply decode_all_stop.
  - apply encode_all_cons in He as (b & Hb & He).
    destruct (IH _ He Hr) as (tl & fs' & -> & Hfs & Hlen & Hd).
    pose proof (encode_len _ _ _ Hf Hb) as Hb24.
    destruct (decode_encode c f b (tl ++ rest) Hf Hb) as (m & Hm & Hdf).
    exists (b ++ tl), (received c m (len b) f :: fs'). split_and!.
    + by rewrite app_assoc.
    + constructor; [by exists m, b|done].
    + rewrite length_app. unfold len, HEADER_LEN in *. simpl. lia.
    + intros [|fuel] Hfuel; simpl in Hfuel; [lia|]. cbn [decode_all].
      rewrite <-app_assoc, Hdf, Hd by lia. done.
Qed.

(** ** Fragmented delivery *)

Lemma decode_header_prefix c p q :
  HEADER_LEN ≤ len p → decode_header c (p ++ q) = decode_header c p.
Proof.
  intros Hp. unfold decode_header.
  assert (∀ i, 0 ≤ i < 24 → index (E:=ProtocolError) (p ++ q) i = index p i) as Hi.
  { intros i Hi. unfold index. rewrite lookup_app_l; [done|]. unfold len, HEADER_LEN in *. lia. }
  by rewrite !Hi by lia.
Qed.

Lemma decode_strict_prefix c f p q bs :
  wf_frame f → encode c f [] = (Ok tt, bs) → bs = p ++ q → q ≠ [] →
  decode c p = (Ok None, p).
Proof.
  intros Hwf He -> Hq. destruct (decode_encode c f (p ++ q) [] Hwf He) as (m & _ & Hd).
  unfold decode. destruct (Z.ltb_spec (len p) HEADER_LEN); [done|].
  unfold decode in Hd. rewrite app_nil_r in Hd.
  rewrite decode_header_prefix in Hd by done.
  destruct (Z.ltb_spec (len (p ++ q)) HEADER_LEN); [done|].
  destruct (decode_header c p) as [[[m' bl] tl]| |]; [|done..].
  destruct (Z.ltb_spec (len (p ++ q)) tl); [done|].
  assert (0 < len q).
  { destruct q; [done|]. rewrite len_cons. pose proof (len_nonneg q). lia. }
  destruct (Z.ltb_spec (len p) tl); [done|]. exfalso.
  simplify_eq. match goal with H : drop _ _ = [] |- _ => apply (f_equal length) in H;
    rewrite length_drop, length_app in H; simpl in H end.
  unfold len in *. lia.
Qed.

(** ** Properties *)

(** C31: what one side encodes the other side decodes.  Any sequence of well-formed frames
    written by [encode] into one buffer, followed by a partial frame, is decoded by
    repeated [decode] calls into the same sequence, each frame equal to the one sent up to
    the effective magic, the explicit default collection and the recorded wire size; the
    partial frame stays in the buffer. *)
Theorem codec_roundtrip c fs bs rest :
  Forall wf_frame fs → encode_all c fs [] = Ok bs → decode c rest = (Ok None, rest) →
  ∃ fs', decode_all (length bs) c (bs ++ rest) = (fs', rest) ∧ Forall2 (peer_view c) fs fs'.
Proof.
  intros Hwf He Hr.
  destruct (decode_encode_all_gen c fs [] bs rest Hwf He Hr) as (tl & fs' & -> & Hv & Hl & Hd).
  exists fs'. split; [|done]. by apply Hd.
Qed.

Definition sample_codec : FrameCodec := with_collections true codec_default.
Definition sample_mutation : Frame :=
  set_framing_extras [framing_extra_stream_id 7]
    (set_collection_id (Some 300) (set_key [107; 49] (set_vbucket 513 (set_extras (replicate 31 1)
      (set_value [123; 125] (request OP_DCP_MUTATION)))))).

Ltac range_compute := split; vm_compute; discriminate.

Lemma sample_mutation_wf : wf_frame sample_mutation.
Proof.
  constructor; [range_compute..| | | | |].
  - constructor; [|constructor]. split; [range_compute|]. by apply wf_to_be_bytes.
  - apply (Forall_replicate _ 31 1). range_compute.
  - apply (list.Forall_cons_2 _ 107 [49]); [range_compute|]. apply Forall_singleton. range_compute.
  - apply (list.Forall_cons_2 _ 123 [125]); [range_compute|]. apply Forall_singleton. range_compute.
  - intros c [= <-]. range_compute.
Qed.

Lemma codec_roundtrip_witness :
  ∃ bs fs', encode_all sample_codec [sample_mutation; request OP_DCP_NOOP] [] = Ok bs
    ∧ decode_all (length bs) sample_codec (bs ++ [0x80; 0x5c]) = (fs', [0x80; 0x5c])
    ∧ Forall2 (peer_view sample_codec) [sample_mutation; request OP_DCP_NOOP] fs'.
Proof.
  destruct (encode_all sample_codec [sample_mutation; request OP_DCP_NOOP] [])
    as [bs| |] eqn:He; [|vm_compute in He; discriminate He..].
  destruct (codec_roundtrip sample_codec [sample_mutation; request OP_DCP_NOOP] bs
    [0x80; 0x5c]) as (fs' & Hd & Hv).
  - apply Forall_cons. split; [apply sample_mutation_wf|].
    apply Forall_singleton, request_wf. range_compute.
  - exact He.
  - reflexivity.
  - by exists bs, fs'.
Defined.

(** A frame that arrives in pieces is not lost: every strict prefix of an encoded frame
    decodes to "not yet", and leaves the buffer as it is for the next read. *)
Lemma codec_fragmentation c f p q bs :
  wf_frame f → encode c f [] = (Ok tt, bs) → bs = p ++ q → q ≠ [] →
  decode c p = (Ok None, p).
Proof. apply decode_strict_prefix. Qed.

(** Decoding untrusted bytes is safe: [decode] never panics; when it returns a frame it
    has consumed exactly that frame's wire size, between the header length and the
    configured maximum, and nothing behind it; when it asks for more input the buffer is
    unchanged. *)
Lemma codec_decode_safe c src :
  wf_bytes src →
  (decode c src).1 ≠ Panic
  ∧ (∀ f src', decode c src = (Ok (Some f), src') →
       ∃ packet, src = packet ++ src' ∧ len packet = wire_size f
         ∧ HEADER_LEN ≤ wire_size f ≤ max_frame_size c)
  ∧ (∀ src', decode c src = (Ok None, src') → src' = src).
Proof.
  intros Hwf. split_and!; [by apply decode_no_panic| |apply decode_incomplete].
  intros f src'. by apply decode_ok_inv.
Qed.
