(* ===== verification/Dcp.v ===== *)
(** * DCP producer messages ([rust-dcp-protocol/src/dcp.rs]) *)
From S2P Require Import Prelude Types Frame.

(** ** Typed messages *)

Record DcpMutation : Type := mkDcpMutation {
  mut_vbucket : Z;
  mut_stream_id : option Z;
  mut_seqno : Z;
  mut_rev_seqno : Z;
  mut_flags : Z;
  mut_expiry : Z;
  mut_lock_time : Z;
  mut_cas : Z;
  mut_datatype : Z;
  mut_collection_id : option Z;
  mut_key : bytes;
  mut_value : bytes
}.

Record DcpDeletion : Type := mkDcpDeletion {
  del_vbucket : Z;
  del_stream_id : option Z;
  del_seqno : Z;
  del_rev_seqno : Z;
  del_delete_time : option Z;
  del_cas : Z;
  del_datatype : Z;
  del_collection_id : option Z;
  del_key : bytes;
  del_value : bytes
}.

Record DcpExpiration : Type := mkDcpExpiration {
  exp_vbucket : Z;
  exp_stream_id : option Z;
  exp_seqno : Z;
  exp_rev_seqno : Z;
  exp_delete_time : option Z;
  exp_cas : Z;
  exp_datatype : Z;
  exp_collection_id : option Z;
  exp_key : bytes;
  exp_value : bytes
}.

Record SnapshotMarker : Type := mkSnapshotMarker {
  snap_vbucket : Z;
  snap_stream_id : option Z;
  snap_start_seqno : Z;
  snap_end_seqno : Z;
  snap_flags : Z;
  snap_max_visible_seqno : option Z;
  snap_high_completed_seqno : option Z;
  snap_timestamp : option Z;
  snap_purge_seqno : option Z
}.

Inductive StreamEndReason : Type :=
| EndOk
| EndClosed
| EndStateChanged
| EndDisconnected
| EndTooSlow
| EndBackfillFailed
| EndFilterEmpty
| EndUnknown (code : Z).

Record StreamEnd : Type := mkStreamEnd {
  end_vbucket : Z;
  end_stream_id : option Z;
  end_reason : StreamEndReason
}.

Record SeqNoAdvanced : Type := mkSeqNoAdvanced {
  adv_vbucket : Z;
  adv_stream_id : option Z;
  adv_seqno : Z
}.

Inductive SystemEventKind : Type :=
| CollectionCreated (scope_id coll_id : Z) (max_ttl : option Z)
| CollectionDropped (scope_id coll_id : Z)
| CollectionFlushed (coll_id : Z)
| ScopeCreated (scope_id : Z)
| ScopeDropped (scope_id : Z)
| CollectionChanged (coll_id max_ttl : Z)
| UnknownEvent (code : Z) (data : bytes).

Record SystemEvent : Type := mkSystemEvent {
  sys_vbucket : Z;
  sys_stream_id : option Z;
  sys_seqno : Z;
  sys_version : Z;
  sys_manifest_uid : Z;
  sys_key : bytes;
  sys_kind : SystemEventKind
}.

Inductive OsoSnapshotState : Type :=
| OsoBegin
| OsoEnd
| OsoUnknown (code : Z).

Record OsoSnapshot : Type := mkOsoSnapshot {
  oso_vbucket : Z;
  oso_stream_id : option Z;
  oso_state : OsoSnapshotState
}.

Inductive DcpMessage : Type :=
| MMutation (m : DcpMutation)
| MDeletion (m : DcpDeletion)
| MExpiration (m : DcpExpiration)
| MSnapshotMarker (m : SnapshotMarker)
| MStreamEnd (m : StreamEnd)
| MSeqNoAdvanced (m : SeqNoAdvanced)
| MSystemEvent (m : SystemEvent)
| MOsoSnapshot (m : OsoSnapshot)
| MNoop (opaque : Z)
| MUnknown (f : Frame).

(** ** Field readers

    [read_u32] and [read_u64] panic when the caller did not check the length. *)

Definition require_len (label : string) (bs : bytes) (minimum : Z) : presult unit :=
  if len bs <? minimum then
    Err (MalformedDcp (label +:+ " requires at least " +:+ pretty minimum
      +:+ " bytes, got " +:+ pretty (len bs)))
  else Ok tt.

Definition read_u32 (bs : bytes) (offset : Z) : presult Z :=
  let? b := slice bs offset (offset + 4) in Ok (from_be_bytes b).

Definition read_u64 (bs : bytes) (offset : Z) : presult Z :=
  let? b := slice bs offset (offset + 8) in Ok (from_be_bytes b).

(** [cond.then(|| read)] *)
Definition then_read (cond : bool) (r : presult Z) : presult (option Z) :=
  if cond then res_map Some r else Ok None.

(** ** Parsers *)

Definition parse_mutation (f : Frame) (sid : option Z) : presult DcpMessage :=
  do? require_len "mutation extras" (extras f) 28 in
  let? seqno := read_u64 (extras f) 0 in
  let? rev_seqno := read_u64 (extras f) 8 in
  let? flags := read_u32 (extras f) 16 in
  let? expiry := read_u32 (extras f) 20 in
  let? lock_time := read_u32 (extras f) 24 in
  Ok (MMutation (mkDcpMutation (vbucket f) sid seqno rev_seqno flags expiry lock_time
    (cas f) (datatype f) (collection_id f) (key f) (value f))).

Definition parse_deletion (f : Frame) (sid : option Z) : presult DcpMessage :=
  do? require_len "deletion extras" (extras f) 16 in
  let? seqno := read_u64 (extras f) 0 in
  let? rev_seqno := read_u64 (extras f) 8 in
  let? delete_time := then_read (20 <=? len (extras f)) (read_u32 (extras f) 16) in
  Ok (MDeletion (mkDcpDeletion (vbucket f) sid seqno rev_seqno delete_time
    (cas f) (datatype f) (collection_id f) (key f) (value f))).

Definition parse_expiration (f : Frame) (sid : option Z) : presult DcpMessage :=
  do? require_len "expiration extras" (extras f) 16 in
  let? seqno := read_u64 (extras f) 0 in
  let? rev_seqno := read_u64 (extras f) 8 in
  let? delete_time := then_read (20 <=? len (extras f)) (read_u32 (extras f) 16) in
  Ok (MExpiration (mkDcpExpiration (vbucket f) sid seqno rev_seqno delete_time
    (cas f) (datatype f) (collection_id f) (key f) (value f))).

Definition parse_snapshot_marker (f : Frame) (sid : option Z) : presult DcpMessage :=
  let? marker :=
    (if len (extras f) =? 20 then
       let? start_seqno := read_u64 (extras f) 0 in
       let? end_seqno := read_u64 (extras f) 8 in
       let? flags := read_u32 (extras f) 16 in
       Ok (mkSnapshotMarker (vbucket f) sid start_seqno end_seqno flags None None None None)
     else if len (extras f) =? 1 then
       do? require_len "v2 snapshot marker value" (value f) 36 in
       let? version := index (extras f) 0 in
       do? (if 1 <=? version
            then require_len "v2.1 snapshot marker value" (value f) 44 else Ok tt) in
       do? (if 2 <=? version
            then require_len "v2.2 snapshot marker value" (value f) 52 else Ok tt) in
       let? start_seqno := read_u64 (value f) 0 in
       let? end_seqno := read_u64 (value f) 8 in
       let? flags := read_u32 (value f) 16 in
       let? max_visible := read_u64 (value f) 20 in
       let? high_completed := read_u64 (value f) 28 in
       let? timestamp := then_read (1 <=? version) (read_u64 (value f) 36) in
       let? purge := then_read (2 <=? version) (read_u64 (value f) 44) in
       Ok (mkSnapshotMarker (vbucket f) sid start_seqno end_seqno flags
             (Some max_visible) (Some high_completed) timestamp purge)
     else
       Err (MalformedDcp ("snapshot marker extras must be 20 bytes (v1) or 1 byte (v2), got "
         +:+ pretty (len (extras f))))) in
  if snap_end_seqno marker <? snap_start_seqno marker then
    Err (MalformedDcp ("snapshot start " +:+ pretty (snap_start_seqno marker)
      +:+ " exceeds end " +:+ pretty (snap_end_seqno marker)))
  else Ok (MSnapshotMarker marker).

Definition parse_system_event_kind (event_code version : Z) (v : bytes)
    : presult SystemEventKind :=
  if event_code =? 0 then
    do? require_len "collection-create value" v 16 in
    do? (if 1 <=? version then require_len "collection-create v1 value" v 20 else Ok tt) in
    let? scope_id := read_u32 v 8 in
    let? coll_id := read_u32 v 12 in
    let? max_ttl := then_read (1 <=? version) (read_u32 v 16) in
    Ok (CollectionCreated scope_id coll_id max_ttl)
  else if event_code =? 1 then
    do? require_len "collection-drop value" v 16 in
    let? scope_id := read_u32 v 8 in
    let? coll_id := read_u32 v 12 in
    Ok (CollectionDropped scope_id coll_id)
  else if event_code =? 2 then
    do? require_len "collection-flush value" v 12 in
    let? coll_id := read_u32 v 8 in
    Ok (CollectionFlushed coll_id)
  else if event_code =? 3 then
    do? require_len "scope-create value" v 12 in
    let? scope_id := read_u32 v 8 in
    Ok (ScopeCreated scope_id)
  else if event_code =? 4 then
    do? require_len "scope-drop value" v 12 in
    let? scope_id := read_u32 v 8 in
    Ok (ScopeDropped scope_id)
  else if event_code =? 5 then
    do? require_len "collection-change value" v 16 in
    let? coll_id := read_u32 v 8 in
    let? max_ttl := read_u32 v 12 in
    Ok (CollectionChanged coll_id max_ttl)
  else Ok (UnknownEvent event_code v).

Definition parse_system_event (f : Frame) (sid : option Z) : presult DcpMessage :=
  do? require_len "system-event extras" (extras f) 13 in
  let? seqno := read_u64 (extras f) 0 in
  let? event_code := read_u32 (extras f) 8 in
  let? version := index (extras f) 12 in
  do? require_len "system-event value" (value f) 8 in
  let? manifest_uid := read_u64 (value f) 0 in
  let? kind := parse_system_event_kind event_code version (value f) in
  Ok (MSystemEvent (mkSystemEvent (vbucket f) sid seqno version manifest_uid (key f) kind)).

Definition stream_end_reason (raw : Z) : StreamEndReason :=
  if raw =? 0 then EndOk
  else if raw =? 1 then EndClosed
  else if raw =? 2 then EndStateChanged
  else if raw =? 3 then EndDisconnected
  else if raw =? 4 then EndTooSlow
  else if raw =? 5 then EndBackfillFailed
  else if raw =? 7 then EndFilterEmpty
  else EndUnknown raw.

Definition oso_snapshot_state (raw : Z) : OsoSnapshotState :=
  if raw =? 0 then OsoBegin else if raw =? 1 then OsoEnd else OsoUnknown raw.

Definition parse_dcp_message (f : Frame) : presult DcpMessage :=
  if negb (magic_is_request (magic f)) then
    Err (MalformedDcp "DCP event must use request or server-request magic")
  else
    let sid := stream_id f in
    let op := opcode f in
    if op =? OP_DCP_MUTATION then parse_mutation f sid
    else if op =? OP_DCP_DELETION then parse_deletion f sid
    else if op =? OP_DCP_EXPIRATION then parse_expiration f sid
    else if op =? OP_DCP_SNAPSHOT_MARKER then parse_snapshot_marker f sid
    else if op =? OP_DCP_STREAM_END then
      do? require_len "stream-end extras" (extras f) 4 in
      let? raw := read_u32 (extras f) 0 in
      Ok (MStreamEnd (mkStreamEnd (vbucket f) sid (stream_end_reason raw)))
    else if op =? OP_DCP_SEQNO_ADVANCED then
      do? require_len "seqno-advanced extras" (extras f) 8 in
      let? seqno := read_u64 (extras f) 0 in
      Ok (MSeqNoAdvanced (mkSeqNoAdvanced (vbucket f) sid seqno))
    else if op =? OP_DCP_SYSTEM_EVENT then parse_system_event f sid
    else if op =? OP_DCP_OSO_SNAPSHOT then
      do? require_len "OSO snapshot extras" (extras f) 4 in
      let? raw := read_u32 (extras f) 0 in
      Ok (MOsoSnapshot (mkOsoSnapshot (vbucket f) sid (oso_snapshot_state raw)))
    else if op =? OP_DCP_NOOP then Ok (MNoop (opaque f))
    else Ok (MUnknown f).

(** ** Lemmas *)

Lemma require_len_inv label bs n u : require_len label bs n = Ok u → n ≤ len bs.
Proof. unfold require_len. destruct (Z.ltb_spec (len bs) n); [done|lia]. Qed.
Lemma require_len_no_panic label bs n : require_len label bs n ≠ Panic.
Proof. unfold require_len. by case_match. Qed.
Lemma read_u32_panic bs o : read_u32 bs o = Panic → 0 ≤ o → len bs < o + 4.
Proof. unfold read_u32. intros H ?. res_cases; res_facts; lia. Qed.
Lemma read_u64_panic bs o : read_u64 bs o = Panic → 0 ≤ o → len bs < o + 8.
Proof. unfold read_u64. intros H ?. res_cases; res_facts; lia. Qed.
Lemma then_read_panic b r : then_read b r = Panic → b = true ∧ r = Panic.
Proof. unfold then_read, res_map. intros. by res_cases. Qed.

(** Field readers in a range check they passed. *)
Ltac read_facts := repeat match goal with
  | H : require_len _ _ _ = Ok _ |- _ => apply require_len_inv in H
  | H : require_len _ _ _ = Panic |- _ => by apply require_len_no_panic in H
  | H : res_map _ _ = Panic |- _ => apply res_map_panic in H
  | H : then_read _ _ = Panic |- _ => apply then_read_panic in H as [? H]
  | H : read_u32 _ _ = Panic |- _ => apply read_u32_panic in H; [|lia]
  | H : read_u64 _ _ = Panic |- _ => apply read_u64_panic in H; [|lia]
  | _ => progress res_facts
  end.

Lemma parse_system_event_kind_no_panic code version v :
  parse_system_event_kind code version v ≠ Panic.
Proof.
  unfold parse_system_event_kind. intros Hp. res_cases; read_facts; try lia.
Qed.

Lemma parse_snapshot_marker_no_panic f sid : parse_snapshot_marker f sid ≠ Panic.
Proof.
  unfold parse_snapshot_marker. intros Hp. res_cases; read_facts; try lia.
Qed.

Lemma parse_dcp_message_no_panic f : parse_dcp_message f ≠ Panic.
Proof.
  unfold parse_dcp_message, parse_mutation, parse_deletion, parse_expiration,
    parse_system_event. intros Hp.
  destruct (negb _); [done|].
  repeat match type of Hp with (if ?b then _ else _) = _ => destruct b end;
    try (by apply parse_snapshot_marker_no_panic in Hp); res_cases; read_facts; try lia.
  all: first [done | by eapply parse_system_event_kind_no_panic].
Qed.

(** A field at the head of a buffer, and a field beyond a known prefix. *)
Lemma read_u32_head z c : is_u32 z → read_u32 (put_u32 z ++ c) 0 = Ok z.
Proof.
  intros Hz. unfold read_u32.
  assert (slice (put_u32 z ++ c) 0 (0 + 4) = Ok (put_u32 z)) as ->
    by (apply slice_to_app; by rewrite len_put_u32).
  unfold put_u32. rewrite from_to_be_bytes; [done|done|]. unfold_ranges. lia.
Qed.
Lemma read_u64_head z c : is_u64 z → read_u64 (put_u64 z ++ c) 0 = Ok z.
Proof.
  intros Hz. unfold read_u64.
  assert (slice (put_u64 z ++ c) 0 (0 + 8) = Ok (put_u64 z)) as ->
    by (apply slice_to_app; by rewrite len_put_u64).
  unfold put_u64. rewrite from_to_be_bytes; [done|done|]. unfold_ranges. lia.
Qed.
Lemma read_u32_skip a l o : len a ≤ o → read_u32 (a ++ l) o = read_u32 l (o - len a).
Proof. intros Ho. unfold read_u32. rewrite slice_app_r by done. by rewrite (Z.add_sub_swap o). Qed.
Lemma read_u64_skip a l o : len a ≤ o → read_u64 (a ++ l) o = read_u64 l (o - len a).
Proof. intros Ho. unfold read_u64. rewrite slice_app_r by done. by rewrite (Z.add_sub_swap o). Qed.

(** ** The wire layout of the document events *)

(** The extras of a mutation: [by_seqno], [rev_seqno], flags, expiry and lock time,
    followed by whatever the producer appends (meta length, NRU). *)
Definition mutation_layout (seqno rev flags expiry lock : Z) (tail : bytes) : bytes :=
  put_u64 seqno ++ put_u64 rev ++ put_u32 flags ++ put_u32 expiry ++ put_u32 lock ++ tail.
(** The extras of a deletion or expiration with its delete time. *)
Definition deletion_layout (seqno rev time : Z) (tail : bytes) : bytes :=
  put_u64 seqno ++ put_u64 rev ++ put_u32 time ++ tail.
(** The v1 snapshot marker extras and the v2.2 snapshot marker value. *)
Definition snapshot_v1_layout (start stop flags : Z) : bytes :=
  put_u64 start ++ put_u64 stop ++ put_u32 flags ++ [].
Definition snapshot_v2_layout (start stop flags visible completed stamp purge : Z)
    (tail : bytes) : bytes :=
  put_u64 start ++ put_u64 stop ++ put_u32 flags ++ put_u64 visible ++ put_u64 completed
  ++ put_u64 stamp ++ put_u64 purge ++ tail.

(** [layout_len] discharges a length check on a layout, [read_layout] evaluates a
    reader on one. *)
Ltac layout_len :=
  autorewrite with len_db;
  repeat match goal with |- context [len ?l] => pose proof (len_nonneg l); generalize dependent (len l) end;
  intros; lia.
Ltac read_layout :=
  lazymatch goal with
  | |- read_u64 _ _ = _ =>
      repeat (rewrite read_u64_skip by (autorewrite with len_db; lia);
              autorewrite with len_db);
      apply read_u64_head
  | |- read_u32 _ _ = _ =>
      repeat (rewrite read_u32_skip by (autorewrite with len_db; lia);
              autorewrite with len_db);
      apply read_u32_head
  end; assumption.
Ltac read_field r v := let H := fresh in assert (r = Ok v) as H by read_layout; rewrite H; clear H.

Lemma require_len_ok label bs n : n ≤ len bs → require_len label bs n = Ok tt.
Proof. intros H. unfold require_len. by destruct (Z.ltb_spec (len bs) n); [lia|]. Qed.

Lemma parse_mutation_layout f sid seqno rev flags expiry lock tail :
  extras f = mutation_layout seqno rev flags expiry lock tail →
  is_u64 seqno → is_u64 rev → is_u32 flags → is_u32 expiry → is_u32 lock →
  parse_mutation f sid = Ok (MMutation (mkDcpMutation (vbucket f) sid seqno rev flags
    expiry lock (cas f) (datatype f) (collection_id f) (key f) (value f))).
Proof.
  intros Hx Hs Hr Hf He Hl. unfold parse_mutation. rewrite Hx. unfold mutation_layout.
  rewrite require_len_ok by layout_len.
  match goal with |- context [read_u64 ?l 0] =>
    read_field (read_u64 l 0) seqno; read_field (read_u64 l 8) rev;
    read_field (read_u32 l 16) flags; read_field (read_u32 l 20) expiry;
    read_field (read_u32 l 24) lock
  end. done.
Qed.

Lemma parse_deletion_layout f sid seqno rev time tail :
  extras f = deletion_layout seqno rev time tail →
  is_u64 seqno → is_u64 rev → is_u32 time →
  parse_deletion f sid = Ok (MDeletion (mkDcpDeletion (vbucket f) sid seqno rev (Some time)
    (cas f) (datatype f) (collection_id f) (key f) (value f)))
  ∧ parse_expiration f sid = Ok (MExpiration (mkDcpExpiration (vbucket f) sid seqno rev
      (Some time) (cas f) (datatype f) (collection_id f) (key f) (value f))).
Proof.
  intros Hx Hs Hr Ht. unfold parse_deletion, parse_expiration, then_read. rewrite Hx.
  unfold deletion_layout. rewrite !require_len_ok by layout_len.
  assert ((20 <=? len (put_u64 seqno ++ put_u64 rev ++ put_u32 time ++ tail)) = true) as ->
    by layout_len.
  match goal with |- context [read_u64 ?l 0] =>
    read_field (read_u64 l 0) seqno; read_field (read_u64 l 8) rev;
    read_field (read_u32 l 16) time
  end. done.
Qed.

(** The verdict on a marker whose fields were read. *)
Definition checked_marker (m : SnapshotMarker) : presult DcpMessage :=
  if snap_end_seqno m <? snap_start_seqno m then
    Err (MalformedDcp ("snapshot start " +:+ pretty (snap_start_seqno m)
      +:+ " exceeds end " +:+ pretty (snap_end_seqno m)))
  else Ok (MSnapshotMarker m).

Lemma parse_snapshot_v1_layout f sid start stop flags :
  extras f = snapshot_v1_layout start stop flags →
  is_u64 start → is_u64 stop → is_u32 flags →
  parse_snapshot_marker f sid =
    checked_marker (mkSnapshotMarker (vbucket f) sid start stop flags None None None None).
Proof.
  intros Hx Hs He Hf. unfold parse_snapshot_marker. rewrite Hx.
  unfold snapshot_v1_layout.
  assert ((len (put_u64 start ++ put_u64 stop ++ put_u32 flags ++ []) =? 20) = true) as ->
    by (rewrite !len_app, !len_put_u64, len_put_u32; done).
  match goal with |- context [read_u64 ?l 0] =>
    read_field (read_u64 l 0) start; read_field (read_u64 l 8) stop;
    read_field (read_u32 l 16) flags
  end. done.
Qed.

Lemma parse_snapshot_v2_layout f sid version start stop flags visible completed stamp purge tail :
  extras f = [version] →
  value f = snapshot_v2_layout start stop flags visible completed stamp purge tail →
  is_u64 start → is_u64 stop → is_u32 flags → is_u64 visible → is_u64 completed →
  is_u64 stamp → is_u64 purge →
  parse_snapshot_marker f sid = checked_marker
    (mkSnapshotMarker (vbucket f) sid start stop flags (Some visible) (Some completed)
      (if 1 <=? version then Some stamp else None)
      (if 2 <=? version then Some purge else None)).
Proof.
  intros Hx Hv Hs He Hf Hvi Hc Hst Hp. unfold parse_snapshot_marker, then_read. rewrite Hx, Hv.
  unfold snapshot_v2_layout. change (len [version] =? 20) with false.
  change (len [version] =? 1) with true. cbn iota. rewrite index_cons_0.
  rewrite !require_len_ok by layout_len.
  match goal with |- context [read_u64 ?l 0] =>
    read_field (read_u64 l 0) start; read_field (read_u64 l 8) stop;
    read_field (read_u32 l 16) flags; read_field (read_u64 l 20) visible;
    read_field (read_u64 l 28) completed; read_field (read_u64 l 36) stamp;
    read_field (read_u64 l 44) purge
  end. by destruct (1 <=? version), (2 <=? version).
Qed.

Lemma parse_snapshot_marker_ordered f sid m :
  parse_snapshot_marker f sid = Ok m →
  ∃ sm, m = MSnapshotMarker sm ∧ snap_start_seqno sm ≤ snap_end_seqno sm
    ∧ snap_vbucket sm = vbucket f.
Proof.
  unfold parse_snapshot_marker. intros H.
  match type of H with (match ?r with _ => _ end) = _ => destruct r as [sm| |] eqn:Hr; try done end.
  destruct (Z.ltb_spec (snap_end_seqno sm) (snap_start_seqno sm)); [done|]. simplify_eq.
  exists sm. split_and!; [done|lia|]. by res_cases.
Qed.

(** ** What the stream relies on

    The vBucket and the sequence number of a message that occupies a position in the
    stream. *)
Definition msg_vbucket (m : DcpMessage) : option Z :=
  match m with
  | MMutation m => Some (mut_vbucket m)
  | MDeletion m => Some (del_vbucket m)
  | MExpiration m => Some (exp_vbucket m)
  | MSnapshotMarker m => Some (snap_vbucket m)
  | MStreamEnd m => Some (end_vbucket m)
  | MSeqNoAdvanced m => Some (adv_vbucket m)
  | MSystemEvent m => Some (sys_vbucket m)
  | MOsoSnapshot m => Some (oso_vbucket m)
  | MNoop _ => None
  | MUnknown f => Some (vbucket f)
  end.

Definition msg_seqno (m : DcpMessage) : option Z :=
  match m with
  | MMutation m => Some (mut_seqno m)
  | MDeletion m => Some (del_seqno m)
  | MExpiration m => Some (exp_seqno m)
  | MSeqNoAdvanced m => Some (adv_seqno m)
  | MSystemEvent m => Some (sys_seqno m)
  | _ => None
  end.

Lemma read_u64_bound bs o z : wf_bytes bs → read_u64 bs o = Ok z → is_u64 z.
Proof.
  unfold read_u64. intros Hwf H. destruct (slice bs o (o + 8)) as [b| |] eqn:Hb; simplify_eq/=.
  pose proof (slice_inv _ _ _ _ Hb) as (_ & _ & Hl).
  apply slice_wf in Hb; [|done]. pose proof (from_be_bytes_bound _ Hb) as Hz.
  rewrite Hl in Hz. replace ((o + 8 - o) * 8) with 64 in Hz by lia. unfold_ranges. lia.
Qed.

(** Every message that takes a position in the stream carries a 64-bit sequence number. *)
Lemma parse_dcp_message_seqno f m z :
  wf_frame f → parse_dcp_message f = Ok m → msg_seqno m = Some z → is_u64 z.
Proof.
  intros Hx%wf_extras Hp Hz.
  unfold parse_dcp_message, parse_mutation, parse_deletion, parse_expiration,
    parse_system_event in Hp. destruct (negb _); [done|].
  repeat match type of Hp with (if ?b then _ else _) = _ => destruct b end;
    try (by apply parse_snapshot_marker_ordered in Hp as (? & -> & _)); res_cases;
    first [by simplify_eq/= | eapply read_u64_bound; [exact Hx|eassumption]].
Qed.

Lemma parse_dcp_message_ordered f sm :
  parse_dcp_message f = Ok (MSnapshotMarker sm) → snap_start_seqno sm ≤ snap_end_seqno sm.
Proof.
  intros Hp. unfold parse_dcp_message, parse_mutation, parse_deletion, parse_expiration,
    parse_system_event in Hp. destruct (negb _); [done|].
  repeat match type of Hp with (if ?b then _ else _) = _ => destruct b end;
    try (apply parse_snapshot_marker_ordered in Hp as (? & ? & ? & _); by simplify_eq/=);
    res_cases; by simplify_eq/=.
Qed.

Lemma parse_dcp_message_vbucket f m v :
  parse_dcp_message f = Ok m → msg_vbucket m = Some v → v = vbucket f.
Proof.
  intros Hp Hv. unfold parse_dcp_message, parse_mutation, parse_deletion, parse_expiration,
    parse_system_event in Hp. destruct (negb _); [done|].
  repeat match type of Hp with (if ?b then _ else _) = _ => destruct b end;
    try (apply parse_snapshot_marker_ordered in Hp as (? & -> & _ & <-); by simplify_eq/=);
    res_cases; by simplify_eq/=.
Qed.

(** ** Properties *)

(** Parsing a producer frame is safe and keeps its identity: [parse_dcp_message] never
    panics on any frame; a parsed message names the frame's vBucket, carries a 64-bit
    sequence number when it takes a position in the stream, and a snapshot marker has its
    start at or before its end. *)
Lemma dcp_parse_safe f :
  parse_dcp_message f ≠ Panic
  ∧ ∀ m, parse_dcp_message f = Ok m →
      (∀ v, msg_vbucket m = Some v → v = vbucket f)
      ∧ (wf_frame f → ∀ z, msg_seqno m = Some z → is_u64 z)
      ∧ ∀ sm, m = MSnapshotMarker sm → snap_start_seqno sm ≤ snap_end_seqno sm.
Proof.
  split; [apply parse_dcp_message_no_panic|]. intros m Hm. split_and!.
  - intros v. by apply parse_dcp_message_vbucket.
  - intros Hwf z. by apply (parse_dcp_message_seqno f).
  - intros sm ->. by eapply parse_dcp_message_ordered.
Qed.

(** The fields of a mutation are read from their wire offsets: a request frame whose
    extras are the big-endian mutation layout (with any bytes behind it) parses to the
    mutation with exactly those fields. *)
Lemma dcp_mutation_layout f seqno rev flags expiry lock tail :
  magic_is_request (magic f) = true → opcode f = OP_DCP_MUTATION →
  extras f = mutation_layout seqno rev flags expiry lock tail →
  is_u64 seqno → is_u64 rev → is_u32 flags → is_u32 expiry → is_u32 lock →
  parse_dcp_message f = Ok (MMutation (mkDcpMutation (vbucket f) (stream_id f) seqno rev flags
    expiry lock (cas f) (datatype f) (collection_id f) (key f) (value f))).
Proof.
  intros Hm Ho Hx Hs Hr Hf He Hl. unfold parse_dcp_message. rewrite Hm, Ho.
  change (OP_DCP_MUTATION =? OP_DCP_MUTATION) with true. cbn [negb].
  by eapply parse_mutation_layout.
Qed.

(** both snapshot-marker versions are read from their wire offsets, and accepted
    exactly when the range is ordered: a v2 marker has its timestamp from version 2.1 on
    and its purge sequence number from version 2.2 on. *)
Lemma dcp_snapshot_layout f version start stop flags visible completed stamp purge tail :
  magic_is_request (magic f) = true → opcode f = OP_DCP_SNAPSHOT_MARKER →
  extras f = [version] →
  value f = snapshot_v2_layout start stop flags visible completed stamp purge tail →
  is_u64 start → is_u64 stop → is_u32 flags → is_u64 visible → is_u64 completed →
  is_u64 stamp → is_u64 purge →
  let f1 := set_extras (snapshot_v1_layout start stop flags) f in
  parse_dcp_message f = checked_marker
    (mkSnapshotMarker (vbucket f) (stream_id f) start stop flags (Some visible) (Some completed)
      (if 1 <=? version then Some stamp else None)
      (if 2 <=? version then Some purge else None))
  ∧ parse_dcp_message f1 = checked_marker
      (mkSnapshotMarker (vbucket f) (stream_id f) start stop flags None None None None).
Proof.
  intros Hm Ho Hx Hv Hs He Hf Hvi Hc Hst Hp f1. split.
  - unfold parse_dcp_message. rewrite Hm, Ho.
    change (parse_snapshot_marker f (stream_id f) = checked_marker
      (mkSnapshotMarker (vbucket f) (stream_id f) start stop flags (Some visible) (Some completed)
        (if 1 <=? version then Some stamp else None)
        (if 2 <=? version then Some purge else None))).
    by eapply parse_snapshot_v2_layout.
  - unfold parse_dcp_message. change (magic f1) with (magic f). change (opcode f1) with (opcode f).
    rewrite Hm, Ho.
    change (parse_snapshot_marker f1 (stream_id f) = checked_marker
      (mkSnapshotMarker (vbucket f) (stream_id f) start stop flags None None None None)).
    by apply (parse_snapshot_v1_layout f1).
Qed.
