(* ===== verification/Command.v ===== *)
(** * Commands and responses ([rust-dcp-protocol/src/command.rs])

    The builders of every request the client sends and the parsers of every response it
    reads.  [serde_json::to_vec], which serializes a stream filter, is the parameter
    [to_vec] of the builders that use it. *)
From S2P Require Import Prelude Types Frame Dcp.

(** ** [HelloFeature] *)
Inductive HelloFeature : Type :=
| HfDatatype | HfTls | HfTcpNoDelay | HfSeqNo | HfXattr | HfExtendedErrors | HfSelectBucket
| HfSnappy | HfJson | HfDuplex | HfClusterMapNotifications | HfAltRequest | HfCollections
| HfSnappyEverywhere | HfPitr.

#[export] Instance HelloFeature_eq_dec : EqDecision HelloFeature.
Proof. solve_decision. Defined.

Definition feature_as_u16 (h : HelloFeature) : Z :=
  match h with
  | HfDatatype => 0x01
  | HfTls => 0x02
  | HfTcpNoDelay => 0x03
  | HfSeqNo => 0x04
  | HfXattr => 0x06
  | HfExtendedErrors => 0x07
  | HfSelectBucket => 0x08
  | HfSnappy => 0x0a
  | HfJson => 0x0b
  | HfDuplex => 0x0c
  | HfClusterMapNotifications => 0x0d
  | HfAltRequest => 0x10
  | HfCollections => 0x12
  | HfSnappyEverywhere => 0x13
  | HfPitr => 0x16
  end.

Definition feature_from_u16 (value : Z) : option HelloFeature :=
  if value =? 0x01 then Some HfDatatype
  else if value =? 0x02 then Some HfTls
  else if value =? 0x03 then Some HfTcpNoDelay
  else if value =? 0x04 then Some HfSeqNo
  else if value =? 0x06 then Some HfXattr
  else if value =? 0x07 then Some HfExtendedErrors
  else if value =? 0x08 then Some HfSelectBucket
  else if value =? 0x0a then Some HfSnappy
  else if value =? 0x0b then Some HfJson
  else if value =? 0x0c then Some HfDuplex
  else if value =? 0x0d then Some HfClusterMapNotifications
  else if value =? 0x10 then Some HfAltRequest
  else if value =? 0x12 then Some HfCollections
  else if value =? 0x13 then Some HfSnappyEverywhere
  else if value =? 0x16 then Some HfPitr
  else None.

(** ** Flag sets: the raw [u32], combined with [|] *)
Abbreviation DcpOpenFlags := Z (only parsing).
Definition OPEN_PRODUCER : DcpOpenFlags := 0x01.
Definition OPEN_NOTIFIER : DcpOpenFlags := 0x02.
Definition OPEN_INCLUDE_XATTRS : DcpOpenFlags := 0x04.
Definition OPEN_NO_VALUE : DcpOpenFlags := 0x08.
Definition OPEN_INCLUDE_DELETE_TIMES : DcpOpenFlags := 0x20.
Definition OPEN_PITR : DcpOpenFlags := 0x80.

Definition bitor (a b : Z) : Z := Z.lor a b.

Abbreviation DcpStreamFlags := Z (only parsing).
Definition STREAM_TAKEOVER : DcpStreamFlags := 0x01.
Definition STREAM_DISK_ONLY : DcpStreamFlags := 0x02.
Definition STREAM_LATEST : DcpStreamFlags := 0x04.
Definition STREAM_NO_VALUE : DcpStreamFlags := 0x08.
Definition STREAM_ACTIVE_ONLY : DcpStreamFlags := 0x10.
Definition STREAM_STRICT_VBUUID : DcpStreamFlags := 0x20.
Definition STREAM_FROM_LATEST : DcpStreamFlags := 0x40.
Definition STREAM_IGNORE_PURGED_TOMBSTONES : DcpStreamFlags := 0x80.
Definition STREAM_CACHE_TRANSFER : DcpStreamFlags := 0x100.

(** ** [VBucketState] *)
Inductive VBucketState : Type := VbActive | VbReplica | VbPending | VbDead.
Definition vbstate_as_u32 (s : VBucketState) : Z :=
  match s with VbActive => 0x01 | VbReplica => 0x02 | VbPending => 0x03 | VbDead => 0x04 end.

(** ** Stream requests *)
Record StreamFilter : Type := mkStreamFilter {
  sf_scope_id : option Z;
  sf_collection_ids : list Z;
  sf_manifest_uid : option Z;
  sf_stream_id : option Z
}.

#[export] Instance StreamFilter_eq_dec : EqDecision StreamFilter.
Proof. solve_decision. Defined.

(** The JSON object of a filter; absent members are not serialized. *)
Record WireFilter : Type := mkWireFilter {
  wf_uid : option string;
  wf_collections : list string;
  wf_scope : option string;
  wf_sid : option Z
}.

Record StreamRequest : Type := mkStreamRequest {
  sr_vbucket : Z;
  sr_flags : DcpStreamFlags;
  sr_vbucket_uuid : Z;
  sr_start_seqno : Z;
  sr_end_seqno : Z;
  sr_snapshot_start : Z;
  sr_snapshot_end : Z;
  sr_filter : option StreamFilter;
  sr_opaque : Z
}.

Inductive StreamRequestResponse : Type :=
| Opened (failover_log : list FailoverEntry)
| Rollback (seqno : Z).

Record VBucketSeqNo : Type := mkVBucketSeqNo {
  vs_vbucket : Z;
  vs_seqno : Z
}.

Record ObserveSeqNoResponse : Type := mkObserveSeqNoResponse {
  ob_did_failover : bool;
  ob_vbucket : Z;
  ob_vbucket_uuid : Z;
  ob_persisted_seqno : Z;
  ob_current_seqno : Z;
  ob_old_vbucket_uuid : option Z;
  ob_last_seqno : option Z
}.

Record CollectionId : Type := mkCollectionId {
  ci_manifest_uid : Z;
  ci_collection_id : Z
}.

Inductive DocumentStoreMode : Type := StoreSet | StoreAdd | StoreReplace.

Record DocumentStoreRequest : Type := mkDocumentStoreRequest {
  ds_mode : DocumentStoreMode;
  ds_key : bytes;
  ds_value : bytes;
  ds_collection_id : option Z;
  ds_vbucket : Z;
  ds_flags : Z;
  ds_expiry : Z;
  ds_datatype : Z;
  ds_cas : Z;
  ds_opaque : Z
}.

(** ** Request builders *)
Definition hello (client_name : string) (features : list HelloFeature) (opaque : Z) : Frame :=
  let value := foldl (λ v h, v ++ put_u16 (feature_as_u16 h)) [] features in
  set_opaque opaque (set_value value (set_key (as_bytes client_name) (request OP_HELLO))).

Definition sasl_list_mechanisms (opaque : Z) : Frame :=
  set_opaque opaque (request OP_SASL_LIST_MECHS).

Definition sasl_auth (mechanism : string) (payload : bytes) (opaque : Z) : Frame :=
  set_opaque opaque (set_value payload (set_key (as_bytes mechanism) (request OP_SASL_AUTH))).

Definition sasl_step (mechanism : string) (payload : bytes) (opaque : Z) : Frame :=
  set_opaque opaque (set_value payload (set_key (as_bytes mechanism) (request OP_SASL_STEP))).

Definition select_bucket (bucket : string) (opaque : Z) : Frame :=
  set_opaque opaque (set_key (as_bytes bucket) (request OP_SELECT_BUCKET)).

Definition get_cluster_config (opaque : Z) : Frame :=
  set_opaque opaque (request OP_GET_CLUSTER_CONFIG).

Definition get_collection_manifest (opaque : Z) : Frame :=
  set_opaque opaque (request OP_COLLECTIONS_GET_MANIFEST).

Definition is_collection_char (b : Z) : bool :=
  is_ascii_alphanumeric b || (b =? 95) || (b =? 45) || (b =? 37).

Definition validate_collection_name (kind name : string) : presult unit :=
  if (str_len name =? 0) || (251 <? str_len name) then
    Err (InvalidRequest (kind +:+ " name must contain between 1 and 251 ASCII characters"))
  else if negb (forallb is_collection_char (as_bytes name)) then
    Err (InvalidRequest (kind +:+ " name contains a character unsupported by Couchbase collections"))
  else Ok tt.

Definition get_collection_id (scope collection : string) (opaque : Z) : presult Frame :=
  do? validate_collection_name "scope" scope in
  do? validate_collection_name "collection" collection in
  Ok (set_opaque opaque
        (set_value (as_bytes (scope +:+ "." +:+ collection)) (request OP_COLLECTIONS_GET_ID))).

Definition get_document (key : bytes) (collection_id : option Z) (vbucket opaque : Z) : Frame :=
  set_opaque opaque (set_vbucket vbucket (set_collection_id collection_id
    (set_key key (request OP_GET)))).

Definition store_opcode (m : DocumentStoreMode) : Opcode :=
  match m with StoreSet => OP_SET | StoreAdd => OP_ADD | StoreReplace => OP_REPLACE end.

Definition store_document (r : DocumentStoreRequest) : Frame :=
  let extras := put_u32 (ds_flags r) ++ put_u32 (ds_expiry r) in
  set_opaque (ds_opaque r) (set_cas (ds_cas r) (set_datatype (ds_datatype r)
    (set_extras extras (set_vbucket (ds_vbucket r)
      (set_collection_id (ds_collection_id r) (set_value (ds_value r)
        (set_key (ds_key r) (request (store_opcode (ds_mode r)))))))))).

Definition delete_document (key : bytes) (collection_id : option Z) (vbucket cas opaque : Z)
    : Frame :=
  set_opaque opaque (set_cas cas (set_vbucket vbucket (set_collection_id collection_id
    (set_key key (request OP_DELETE))))).

Definition subdoc_path_len (path : string) : presult Z :=
  if str_len path =? 0 then Err (InvalidRequest "sub-document path must be non-empty")
  else ok_or (try_from u16_max (str_len path))
    (InvalidLength ("sub-document path length " +:+ pretty (str_len path) +:+ " exceeds u16")).

Definition subdoc_get_xattr (key : bytes) (path : string) (collection_id : option Z)
    (vbucket opaque : Z) : presult Frame :=
  let? path_len := subdoc_path_len path in
  let value := put_u8 0xc5 ++ put_u8 0x04 ++ put_u16 path_len ++ as_bytes path in
  Ok (set_opaque opaque (set_vbucket vbucket (set_collection_id collection_id
    (set_value value (set_key key (request OP_SUBDOC_MULTI_LOOKUP)))))).

Definition subdoc_upsert_xattr (key : bytes) (path : string) (xattr_value : bytes)
    (collection_id : option Z) (vbucket opaque : Z) : presult Frame :=
  let? path_len := subdoc_path_len path in
  let? value_len := ok_or (try_from u32_max (len xattr_value))
    (InvalidLength ("sub-document value length " +:+ pretty (len xattr_value)
      +:+ " exceeds u32")) in
  let? capacity := ok_or
    (n ← checked_add usize_max 8 (str_len path); checked_add usize_max n (len xattr_value))
    (InvalidLength "sub-document mutation body length overflow") in
  let value := put_u8 0xc8 ++ put_u8 0x04 ++ put_u16 path_len ++ put_u32 value_len
               ++ as_bytes path ++ xattr_value in
  Ok (set_opaque opaque (set_vbucket vbucket (set_collection_id collection_id
    (set_value value (set_key key (set_extras [0x01]
      (request OP_SUBDOC_MULTI_MUTATION))))))).

Definition dcp_open (name : string) (flags : DcpOpenFlags) (opaque : Z) : Frame :=
  let extras := put_u32 0 ++ put_u32 (bitor flags OPEN_PRODUCER) in
  set_opaque opaque (set_extras extras (set_key (as_bytes name) (request OP_DCP_OPEN))).

Definition dcp_control (key value : string) (opaque : Z) : Frame :=
  set_opaque opaque (set_value (as_bytes value) (set_key (as_bytes key)
    (request OP_DCP_CONTROL))).

Definition get_vbucket_seqnos (state : VBucketState) (collection_id : option Z) (opaque : Z)
    : Frame :=
  let extras := put_u32 (vbstate_as_u32 state)
                ++ match collection_id with Some c => put_u32 c | None => [] end in
  set_opaque opaque (set_extras extras (request OP_GET_ALL_VB_SEQNOS)).

Definition get_failover_log (vbucket opaque : Z) : Frame :=
  set_opaque opaque (set_vbucket vbucket (request OP_DCP_GET_FAILOVER_LOG)).

Definition observe_seqno (vbucket vbucket_uuid opaque : Z) : Frame :=
  set_opaque opaque (set_value (put_u64 vbucket_uuid) (set_vbucket vbucket
    (request OP_OBSERVE_SEQNO))).

Definition filter_wire (f : StreamFilter) : WireFilter :=
  mkWireFilter (hex <$> sf_manifest_uid f) (hex <$> sf_collection_ids f)
    (if bool_decide (sf_collection_ids f = []) then hex <$> sf_scope_id f else None)
    (sf_stream_id f).

Section Filter.
(** [serde_json::to_vec] on the wire filter; its error is the error's display text. *)
Variable to_vec : WireFilter → res string bytes.

Definition filter_encode (f : StreamFilter) : presult bytes :=
  if bool_decide (is_Some (sf_scope_id f)) && negb (bool_decide (sf_collection_ids f = [])) then
    Err (InvalidRequest "stream filter cannot select both a scope and collection IDs")
  else if negb (Z.of_nat (size (list_to_set (C:=gset Z) (sf_collection_ids f)))
                =? len (sf_collection_ids f)) then
    Err (InvalidRequest "stream filter collection IDs must be unique")
  else if bool_decide (sf_stream_id f = Some 0) then
    Err (InvalidRequest "DCP stream ID must be non-zero")
  else map_err Json (to_vec (filter_wire f)).

Definition stream_request (r : StreamRequest) : presult Frame :=
  if sr_end_seqno r <? sr_start_seqno r then
    Err (InvalidRequest ("stream start " +:+ pretty (sr_start_seqno r) +:+ " exceeds end "
      +:+ pretty (sr_end_seqno r)))
  else if sr_snapshot_end r <? sr_snapshot_start r then
    Err (InvalidRequest ("snapshot start " +:+ pretty (sr_snapshot_start r) +:+ " exceeds end "
      +:+ pretty (sr_snapshot_end r)))
  else if (sr_snapshot_end r <? sr_start_seqno r) && negb (sr_snapshot_end r =? 0) then
    Err (InvalidRequest "stream start lies beyond checkpoint snapshot")
  else
    let extras := put_u32 (sr_flags r) ++ put_u32 0 ++ put_u64 (sr_start_seqno r)
                  ++ put_u64 (sr_end_seqno r) ++ put_u64 (sr_vbucket_uuid r)
                  ++ put_u64 (sr_snapshot_start r) ++ put_u64 (sr_snapshot_end r) in
    let frame := set_extras extras (set_opaque (sr_opaque r)
                   (set_vbucket (sr_vbucket r) (request OP_DCP_STREAM_REQUEST))) in
    match sr_filter r with
    | Some f => let? value := filter_encode f in Ok (set_value value frame)
    | None => Ok frame
    end.
End Filter.

Definition close_stream (vbucket : Z) (stream_id : option Z) (opaque : Z) : Frame :=
  let frame := set_opaque opaque (set_vbucket vbucket (request OP_DCP_CLOSE_STREAM)) in
  match stream_id with
  | Some s => set_framing_extras (framing_extras frame ++ [framing_extra_stream_id s]) frame
  | None => frame
  end.

Definition buffer_ack (acked : Z) (opaque : Z) : Frame :=
  set_opaque opaque (set_extras (put_u32 acked) (request OP_DCP_BUFFER_ACK)).

Definition noop_response (opaque : Z) : Frame :=
  set_opaque opaque (response OP_DCP_NOOP STATUS_SUCCESS).

Definition snapshot_marker_response (opaque : Z) : Frame :=
  set_opaque opaque (response OP_DCP_SNAPSHOT_MARKER STATUS_SUCCESS).

(** ** Response checks *)
Definition server_status (f : Frame) : ProtocolError :=
  ServerStatus (status f) (opcode f) (from_utf8_lossy (value f)).

Definition ensure_response_opcode (f : Frame) (op : Opcode) : presult unit :=
  if negb (magic_is_response (magic f)) || negb (opcode f =? op) then
    Err (MalformedFrame ("expected response opcode 0x" +:+ hex_pad2 op +:+ ", got "
      +:+ magic_debug (magic f) +:+ " opcode 0x" +:+ hex_pad2 (opcode f)))
  else Ok tt.

Definition ensure_success (f : Frame) : presult unit :=
  if status_is_success (status f) then Ok tt else Err (server_status f).

Definition ensure_response (f : Frame) (op : Opcode) : presult unit :=
  do? ensure_response_opcode f op in ensure_success f.

(** ** Response parsers *)

(** [chunks_exact(n)]: the whole chunks, a remainder is dropped.  The length of the input
    is enough fuel. *)
Fixpoint chunks_exact_go (fuel n : nat) (bs : bytes) : list bytes :=
  match fuel with
  | O => []
  | S fuel =>
      if (length bs <? n)%nat then [] else take n bs :: chunks_exact_go fuel n (drop n bs)
  end.
Definition chunks_exact (n : Z) (bs : bytes) : list bytes :=
  chunks_exact_go (length bs) (Z.to_nat n) bs.

(** [from_be_bytes([v[o], v[o + 1], ...])], [w] bytes wide. *)
Fixpoint index_range (w : nat) (bs : bytes) (o : Z) : presult bytes :=
  match w with
  | O => Ok []
  | S w => let? b := index bs o in let? r := index_range w bs (o + 1) in Ok (b :: r)
  end.
Definition be_at (w : nat) (bs : bytes) (o : Z) : presult Z :=
  let? b := index_range w bs o in Ok (from_be_bytes b).

Definition parse_failover_entries (v : bytes) : presult (list FailoverEntry) :=
  if negb (len v `mod` 16 =? 0) then
    Err (MalformedDcp ("failover log length " +:+ pretty (len v) +:+ " is not divisible by 16"))
  else
    mapM_res (λ chunk,
      let? uuid := be_at 8 chunk 0 in
      let? seqno := be_at 8 chunk 8 in
      Ok (mkFailoverEntry uuid seqno)) (chunks_exact 16 v).

Definition parse_failover_log (f : Frame) : presult (list FailoverEntry) :=
  do? ensure_response f OP_DCP_GET_FAILOVER_LOG in
  parse_failover_entries (value f).

Definition parse_stream_request_response (f : Frame) : presult StreamRequestResponse :=
  do? ensure_response_opcode f OP_DCP_STREAM_REQUEST in
  if status f =? STATUS_ROLLBACK then
    if negb (len (value f) =? 8) then
      Err (MalformedDcp ("rollback response must contain 8 bytes, got "
        +:+ pretty (len (value f))))
    else
      let? seqno := be_at 8 (value f) 0 in
      Ok (Rollback seqno)
  else
    do? ensure_success f in
    let? log := parse_failover_entries (value f) in
    Ok (Opened log).

Definition parse_vbucket_seqnos (f : Frame) : presult (list VBucketSeqNo) :=
  do? ensure_response f OP_GET_ALL_VB_SEQNOS in
  if negb (len (value f) `mod` 10 =? 0) then
    Err (MalformedDcp ("vBucket seqno response length " +:+ pretty (len (value f))
      +:+ " is not divisible by 10"))
  else
    mapM_res (λ chunk,
      let? vb := be_at 2 chunk 0 in
      let? seqno := be_at 8 chunk 2 in
      Ok (mkVBucketSeqNo vb seqno)) (chunks_exact 10 (value f)).

(** [value.get(a..b)] *)
Definition get_range {A} (l : list A) (a b : Z) : option (list A) :=
  if (a <=? b) && (b <=? len l) then Some (take (Z.to_nat (b - a)) (drop (Z.to_nat a) l))
  else None.

(** The closure [read_u64] of [parse_observe_seqno]; the range always has eight bytes, so
    the conversion to [u8; 8] cannot fail. *)
Definition observe_read_u64 (v : bytes) (offset : Z) : presult Z :=
  let? b := ok_or (get_range v offset (offset + 8))
    (MalformedFrame ("OBSERVE_SEQNO response is missing the u64 at offset "
      +:+ pretty offset)) in
  Ok (from_be_bytes b).

Definition parse_observe_seqno (f : Frame) : presult ObserveSeqNoResponse :=
  do? ensure_response f OP_OBSERVE_SEQNO in
  let v := value f in
  let? format := ok_or (head v) (MalformedFrame "OBSERVE_SEQNO response is empty") in
  let? minimum_len :=
    (if format =? 0 then Ok 27
     else if format =? 1 then Ok 43
     else Err (MalformedFrame ("OBSERVE_SEQNO response has unknown format " +:+ pretty format))) in
  if len v <? minimum_len then
    Err (MalformedFrame ("OBSERVE_SEQNO format " +:+ pretty format +:+ " requires "
      +:+ pretty minimum_len +:+ " bytes, got " +:+ pretty (len v)))
  else
    let? vb := be_at 2 v 1 in
    let? uuid := observe_read_u64 v 3 in
    let? persisted := observe_read_u64 v 11 in
    let? current := observe_read_u64 v 19 in
    let? old_uuid := then_read (format =? 1) (observe_read_u64 v 27) in
    let? last_seqno := then_read (format =? 1) (observe_read_u64 v 35) in
    Ok (mkObserveSeqNoResponse (format =? 1) vb uuid persisted current old_uuid last_seqno).

Definition parse_collection_id (f : Frame) : presult CollectionId :=
  do? ensure_response f OP_COLLECTIONS_GET_ID in
  if negb (len (extras f) =? 12) then
    Err (MalformedFrame ("collection-ID response extras must contain 12 bytes, got "
      +:+ pretty (len (extras f))))
  else
    let? manifest_uid := ok_or (from_be_bytes <$> get_range (extras f) 0 8)
      (MalformedFrame "collection-ID manifest UID is malformed") in
    let? collection_id := ok_or (from_be_bytes <$> get_range (extras f) 8 12)
      (MalformedFrame "collection-ID numeric ID is malformed") in
    Ok (mkCollectionId manifest_uid collection_id).

Definition parse_collection_manifest (f : Frame) : presult bytes :=
  do? ensure_response f OP_COLLECTIONS_GET_MANIFEST in
  Ok (value f).

Definition parse_subdoc_get_xattr (f : Frame) : presult (option bytes) :=
  do? ensure_response_opcode f OP_SUBDOC_MULTI_LOOKUP in
  if status f =? STATUS_KEY_NOT_FOUND then Ok None
  else if negb ((status f =? STATUS_SUCCESS) || (status f =? STATUS_SUBDOC_MULTI_PATH_FAILURE))
  then Err (server_status f)
  else if len (value f) <? 6 then
    Err (MalformedFrame ("sub-document lookup result requires 6 header bytes, got "
      +:+ pretty (len (value f))))
  else
    let? st := be_at 2 (value f) 0 in
    let? value_len := be_at 4 (value f) 2 in
    let? expected_len := ok_or (checked_add usize_max 6 value_len)
      (InvalidLength "sub-document lookup result length overflow") in
    if negb (len (value f) =? expected_len) then
      Err (MalformedFrame ("sub-document lookup result declares " +:+ pretty value_len
        +:+ " value bytes but packet contains "
        +:+ pretty (saturating_sub (len (value f)) 6)))
    else if st =? STATUS_SUCCESS then res_map Some (slice_from (value f) 6)
    else if st =? STATUS_SUBDOC_PATH_NOT_FOUND then Ok None
    else Err (ServerStatus st (opcode f) "sub-document XATTR lookup failed").

Definition parse_subdoc_mutation (f : Frame) : presult unit :=
  ensure_response f OP_SUBDOC_MULTI_MUTATION.

(** ** Lemmas *)

Lemma feature_from_as h : feature_from_u16 (feature_as_u16 h) = Some h.
Proof. by destruct h. Qed.
Lemma feature_as_from z h : feature_from_u16 z = Some h → feature_as_u16 h = z.
Proof.
  unfold feature_from_u16.
  repeat match goal with |- context [if z =? ?c then _ else _] =>
    destruct (Z.eqb_spec z c); [by intros; simplify_eq|] end. done.
Qed.

(** Indexed reads, forwards on a known layout and backwards from a panic. *)
Lemma index_app_head {E A} (a : list A) x c o :
  o = len a → index (E:=E) (a ++ x :: c) o = Ok x.
Proof.
  intros ->. unfold index. rewrite lookup_app_r by (unfold len; lia).
  replace (Z.to_nat (len a) - length a)%nat with 0%nat by (unfold len; lia). done.
Qed.
Lemma index_range_app b : ∀ a c o,
  o = len a → index_range (length b) (a ++ b ++ c) o = Ok b.
Proof.
  induction b as [|x b IH]; intros a c o ->; [done|]. cbn [length index_range].
  rewrite <-app_comm_cons, index_app_head by done.
  replace (a ++ x :: b ++ c) with ((a ++ [x]) ++ b ++ c) by by rewrite <-app_assoc.
  rewrite IH; [done|]. rewrite len_app. done.
Qed.
Lemma be_at_app a b c o w :
  o = len a → w = length b → be_at w (a ++ b ++ c) o = Ok (from_be_bytes b).
Proof. intros -> ->. unfold be_at. by rewrite index_range_app. Qed.

Lemma index_range_panic w : ∀ bs o,
  0 ≤ o → index_range w bs o = Panic → len bs < o + Z.of_nat w.
Proof.
  induction w as [|w IH]; intros bs o Ho; [done|]. cbn [index_range]. intros H.
  res_cases; res_facts; [|lia]. match goal with H : _ = Panic |- _ => apply IH in H; lia end.
Qed.
Lemma be_at_panic w bs o : be_at w bs o = Panic → 0 ≤ o → len bs < o + Z.of_nat w.
Proof. unfold be_at. intros H ?. res_cases. by apply index_range_panic. Qed.

Lemma chunks_exact_go_length fuel n bs c :
  c ∈ chunks_exact_go fuel n bs → length c = n.
Proof.
  revert bs. induction fuel as [|fuel IH]; intros bs; cbn [chunks_exact_go]; [set_solver|].
  destruct (Nat.ltb_spec (length bs) n); [set_solver|].
  rewrite elem_of_cons. intros [-> |Hc]; [|by eapply IH]. rewrite length_take. lia.
Qed.

Lemma mapM_res_panic {E A B} (f : A → res E B) l :
  mapM_res f l = Panic → ∃ x, x ∈ l ∧ f x = Panic.
Proof.
  induction l as [|x l IH]; cbn [mapM_res]; [done|]. intros H.
  destruct (f x) as [y| |] eqn:Hx; [|done|exists x; set_solver].
  destruct (mapM_res f l); [done..|]. destruct (IH eq_refl) as (z & ? & ?).
  exists z. set_solver.
Qed.

(** ** Layouts of the tabular responses *)
Definition failover_layout (e : FailoverEntry) : bytes :=
  put_u64 (fe_vbucket_uuid e) ++ put_u64 (fe_seqno e).
Definition seqno_layout (v : VBucketSeqNo) : bytes :=
  put_u16 (vs_vbucket v) ++ put_u64 (vs_seqno v).
Definition wf_failover_entry (e : FailoverEntry) : Prop :=
  is_u64 (fe_vbucket_uuid e) ∧ is_u64 (fe_seqno e).
Definition wf_vbucket_seqno (v : VBucketSeqNo) : Prop :=
  is_u16 (vs_vbucket v) ∧ is_u64 (vs_seqno v).

(** A table of [n]-byte rows splits back into its rows. *)
Section Table.
Context {A : Type} (row : A → bytes) (n : nat).
Hypothesis Hrow : ∀ a, length (row a) = n.
Hypothesis Hn : (0 < n)%nat.

Lemma length_table l : length (mjoin (row <$> l)) = (length l * n)%nat.
Proof using Hrow Hn. induction l as [|a l IH]; [done|]. csimpl. rewrite length_app, Hrow, IH. lia. Qed.

Lemma chunks_exact_go_table l : ∀ fuel, (length l ≤ fuel)%nat →
  chunks_exact_go fuel n (mjoin (row <$> l)) = row <$> l.
Proof using Hrow Hn.
  induction l as [|a l IH]; intros fuel Hf.
  - destruct fuel; [done|]. cbn [chunks_exact_go]. csimpl. by destruct (Nat.ltb_spec 0 n); [|lia].
  - destruct fuel as [|fuel]; [simpl in Hf; lia|]. csimpl. cbn [chunks_exact_go].
    rewrite length_app, Hrow.
    destruct (Nat.ltb_spec (n + length (mjoin (row <$> l))) n); [lia|].
    rewrite take_app_length' by done. rewrite drop_app_length' by done.
    rewrite IH; [done|]. simpl in Hf. lia.
Qed.

Lemma chunks_exact_table z l :
  z = Z.of_nat n → chunks_exact z (mjoin (row <$> l)) = row <$> l.
Proof using Hrow Hn.
  intros ->. unfold chunks_exact. rewrite Nat2Z.id.
  apply chunks_exact_go_table. rewrite length_table. nia.
Qed.

Lemma len_table z l : z = Z.of_nat n → len (mjoin (row <$> l)) `mod` z = 0.
Proof using Hrow Hn.
  intros ->. unfold len. rewrite length_table, Nat2Z.inj_mul. apply Z.mod_mul. lia.
Qed.
End Table.

Lemma mapM_res_fmap {E A B} (f : B → res E A) (g : A → B) l :
  (∀ a, a ∈ l → f (g a) = Ok a) → mapM_res f (g <$> l) = Ok l.
Proof.
  induction l as [|a l IH]; [done|]. intros H. csimpl. rewrite H by set_solver.
  rewrite IH; [done|]. set_solver.
Qed.

Lemma length_put_u64 z : length (put_u64 z) = 8%nat.
Proof. by apply length_to_be_bytes. Qed.
Lemma length_put_u16 z : length (put_u16 z) = 2%nat.
Proof. by apply length_to_be_bytes. Qed.
Lemma from_put_u64 z : is_u64 z → from_be_bytes (put_u64 z) = z.
Proof. intros Hz. apply from_to_be_bytes; [done|]. unfold_ranges. lia. Qed.
Lemma from_put_u32 z : is_u32 z → from_be_bytes (put_u32 z) = z.
Proof. intros Hz. apply from_to_be_bytes; [done|]. unfold_ranges. lia. Qed.
Lemma from_put_u16 z : is_u16 z → from_be_bytes (put_u16 z) = z.
Proof. intros Hz. apply from_to_be_bytes; [done|]. unfold_ranges. lia. Qed.

Lemma parse_failover_entries_layout log :
  Forall wf_failover_entry log →
  parse_failover_entries (mjoin (failover_layout <$> log)) = Ok log.
Proof.
  intros Hwf.
  assert (∀ e, length (failover_layout e) = 16%nat) as Hl
    by (intros; unfold failover_layout; by rewrite length_app, !length_put_u64).
  unfold parse_failover_entries.
  rewrite (len_table _ 16 Hl ltac:(lia)) by done. rewrite Z.eqb_refl. cbn [negb].
  rewrite (chunks_exact_table _ 16 Hl ltac:(lia)) by done.
  apply mapM_res_fmap. intros [u s] He. rewrite Forall_forall in Hwf.
  destruct (Hwf _ He) as [Hu Hs]. unfold failover_layout in *. cbn [fe_vbucket_uuid fe_seqno] in *.
  rewrite (be_at_app [] (put_u64 u) (put_u64 s)) by (rewrite ?length_put_u64; done).
  rewrite <-(app_nil_r (put_u64 s)).
  rewrite (be_at_app (put_u64 u) (put_u64 s) []) by (rewrite ?length_put_u64, ?len_put_u64; done).
  by rewrite !from_put_u64.
Qed.

Lemma parse_failover_entries_no_panic v : parse_failover_entries v ≠ Panic.
Proof.
  unfold parse_failover_entries. case_match; [done|]. intros Hm.
  apply mapM_res_panic in Hm as (c & Hc & Hp). apply chunks_exact_go_length in Hc.
  change (Z.to_nat 16) with 16%nat in Hc. assert (len c = 16) by (unfold len; lia).
  res_cases; match goal with H : be_at _ _ _ = Panic |- _ => apply be_at_panic in H; lia end.
Qed.

Lemma vbucket_seqno_rows l :
  Forall wf_vbucket_seqno l →
  mapM_res (λ chunk,
    let? vb := be_at 2 chunk 0 in
    let? seqno := be_at 8 chunk 2 in
    Ok (mkVBucketSeqNo vb seqno)) (seqno_layout <$> l) = Ok l.
Proof.
  intros Hwf. apply mapM_res_fmap. intros [v s] He. rewrite Forall_forall in Hwf.
  destruct (Hwf _ He) as [Hv Hs]. unfold seqno_layout in *. cbn [vs_vbucket vs_seqno] in *.
  rewrite (be_at_app [] (put_u16 v) (put_u64 s)) by (rewrite ?length_put_u16; done).
  rewrite <-(app_nil_r (put_u64 s)).
  rewrite (be_at_app (put_u16 v) (put_u64 s) [])
    by (rewrite ?length_put_u64, ?len_put_u16; done).
  by rewrite from_put_u16, from_put_u64.
Qed.

Lemma ensure_response_ok f op :
  magic_is_response (magic f) = true → opcode f = op → status f = STATUS_SUCCESS →
  ensure_response f op = Ok tt.
Proof.
  intros Hm Ho Hs. unfold ensure_response, ensure_response_opcode, ensure_success.
  by rewrite Hm, Ho, Hs, Z.eqb_refl.
Qed.
Lemma ensure_response_opcode_no_panic f op : ensure_response_opcode f op ≠ Panic.
Proof. unfold ensure_response_opcode. by case_match. Qed.
Lemma ensure_response_no_panic f op : ensure_response f op ≠ Panic.
Proof. unfold ensure_response, ensure_response_opcode, ensure_success. by repeat case_match. Qed.
Lemma ensure_success_no_panic f : ensure_success f ≠ Panic.
Proof. unfold ensure_success. by case_match. Qed.
Lemma observe_read_no_panic v o : observe_read_u64 v o ≠ Panic.
Proof. unfold observe_read_u64. intros H. res_cases; res_facts. Qed.

Lemma parse_vbucket_seqnos_layout f l :
  magic_is_response (magic f) = true → opcode f = OP_GET_ALL_VB_SEQNOS →
  status f = STATUS_SUCCESS → value f = mjoin (seqno_layout <$> l) →
  Forall wf_vbucket_seqno l → parse_vbucket_seqnos f = Ok l.
Proof.
  intros Hm Ho Hs Hv Hwf. unfold parse_vbucket_seqnos.
  rewrite ensure_response_ok by done. rewrite Hv.
  assert (∀ e, length (seqno_layout e) = 10%nat) as Hl
    by (intros; unfold seqno_layout; by rewrite length_app, length_put_u64, length_put_u16).
  rewrite (len_table _ 10 Hl ltac:(lia)) by done. rewrite Z.eqb_refl. cbn [negb].
  rewrite (chunks_exact_table _ 10 Hl ltac:(lia)) by done. by apply vbucket_seqno_rows.
Qed.

(** What a panic inside a response parser would contradict. *)
Ltac parser_facts := repeat match goal with
  | H : ensure_response _ _ = Panic |- _ => by apply ensure_response_no_panic in H
  | H : ensure_response_opcode _ _ = Panic |- _ => by apply ensure_response_opcode_no_panic in H
  | H : ensure_success _ = Panic |- _ => by apply ensure_success_no_panic in H
  | H : parse_failover_entries _ = Panic |- _ => by apply parse_failover_entries_no_panic in H
  | H : observe_read_u64 _ _ = Panic |- _ => by apply observe_read_no_panic in H
  | H : be_at _ _ _ = Panic |- _ => apply be_at_panic in H; [|lia]
  | _ => progress read_facts
  end.

Lemma parse_vbucket_seqnos_no_panic f : parse_vbucket_seqnos f ≠ Panic.
Proof.
  unfold parse_vbucket_seqnos. intros Hp.
  destruct (ensure_response f _) as [[]| |] eqn:He; [|done|parser_facts].
  destruct (negb _); [done|].
  apply mapM_res_panic in Hp as (c & Hc & Hp). apply chunks_exact_go_length in Hc.
  change (Z.to_nat 10) with 10%nat in Hc. assert (len c = 10) by (unfold len; lia).
  res_cases; parser_facts; lia.
Qed.

Lemma parse_observe_seqno_no_panic f : parse_observe_seqno f ≠ Panic.
Proof.
  unfold parse_observe_seqno. intros Hp.
  destruct (ensure_response f _) as [[]| |] eqn:He; [|done|parser_facts].
  destruct (ok_or (head (value f)) _) as [fmt| |] eqn:Hf; [|done|parser_facts].
  res_cases; parser_facts; try lia.
  all: repeat match goal with H : (if ?b then _ else _) = _ |- _ => destruct b; simplify_eq/= end.
  all: try lia.
Qed.

Lemma parse_subdoc_get_xattr_no_panic f : parse_subdoc_get_xattr f ≠ Panic.
Proof. unfold parse_subdoc_get_xattr. intros Hp. res_cases; parser_facts; lia. Qed.

Lemma parse_stream_request_response_no_panic f : parse_stream_request_response f ≠ Panic.
Proof. unfold parse_stream_request_response. intros Hp. res_cases; parser_facts; lia. Qed.

Lemma parse_collection_id_no_panic f : parse_collection_id f ≠ Panic.
Proof. unfold parse_collection_id. intros Hp. res_cases; parser_facts; lia. Qed.

(** ** The stream request *)

(** The range checks a stream request passes. *)
Definition stream_bounds_ok (r : StreamRequest) : bool :=
  (sr_start_seqno r <=? sr_end_seqno r) && (sr_snapshot_start r <=? sr_snapshot_end r)
  && ((sr_start_seqno r <=? sr_snapshot_end r) || (sr_snapshot_end r =? 0)).

(** The filters a stream request may carry. *)
Definition filter_valid (f : StreamFilter) : Prop :=
  (sf_scope_id f = None ∨ sf_collection_ids f = [])
  ∧ NoDup (sf_collection_ids f) ∧ sf_stream_id f ≠ Some 0.

Definition wf_stream_request (r : StreamRequest) : Prop :=
  is_u16 (sr_vbucket r) ∧ is_u32 (sr_flags r) ∧ is_u64 (sr_vbucket_uuid r)
  ∧ is_u64 (sr_start_seqno r) ∧ is_u64 (sr_end_seqno r) ∧ is_u64 (sr_snapshot_start r)
  ∧ is_u64 (sr_snapshot_end r) ∧ is_u32 (sr_opaque r).

(** What the server reads from the extras of a stream request. *)
Definition read_stream_extras (x : bytes) (r : StreamRequest) : Prop :=
  len x = 48 ∧ read_u32 x 0 = Ok (sr_flags r) ∧ read_u32 x 4 = Ok 0
  ∧ read_u64 x 8 = Ok (sr_start_seqno r) ∧ read_u64 x 16 = Ok (sr_end_seqno r)
  ∧ read_u64 x 24 = Ok (sr_vbucket_uuid r) ∧ read_u64 x 32 = Ok (sr_snapshot_start r)
  ∧ read_u64 x 40 = Ok (sr_snapshot_end r).

Lemma size_list_to_set_NoDup (l : list Z) :
  Z.of_nat (size (list_to_set (C:=gset Z) l)) = len l ↔ NoDup l.
Proof.
  unfold len. split.
  - intros H. apply Nat2Z.inj in H. induction l as [|x l IH]; [constructor|].
    cbn [list_to_set length] in H.
    assert (size (list_to_set (C:=gset Z) l) ≤ length l)%nat as Hle.
    { clear. induction l as [|y l IH]; [done|]. simpl.
      rewrite size_union_alt, size_singleton.
      assert (size (list_to_set l ∖ {[y]} : gset Z) ≤ size (list_to_set l : gset Z))%nat
        by (apply subseteq_size; set_solver). lia. }
    destruct (decide (x ∈ l)) as [Hx|Hx].
    + assert ({[x]} ∪ list_to_set l = (list_to_set l : gset Z)) as Hu by set_solver.
      rewrite Hu in H. lia.
    + constructor; [done|]. apply IH.
      rewrite size_union, size_singleton in H by set_solver. lia.
  - intros H. by rewrite size_list_to_set.
Qed.

Section FilterLemmas.
Variable to_vec : WireFilter → res string bytes.

Lemma filter_encode_valid f :
  filter_valid f → filter_encode to_vec f = map_err Json (to_vec (filter_wire f)).
Proof.
  intros ([Hs|Hs] & Hd & Hz); unfold filter_encode; rewrite Hs in *;
    apply size_list_to_set_NoDup in Hd;
    rewrite Hd, Z.eqb_refl; rewrite (bool_decide_false (sf_stream_id f = Some 0)) by done;
    [done|]. by rewrite andb_false_r.
Qed.

Lemma filter_encode_inv f v :
  filter_encode to_vec f = Ok v → filter_valid f ∧ to_vec (filter_wire f) = Ok v.
Proof.
  unfold filter_encode. intros H. case_match eqn:H1; [done|]. case_match eqn:H2; [done|].
  case_match eqn:H3; [done|]. split.
  - unfold filter_valid. apply bool_decide_eq_false in H3.
    apply negb_false_iff, Z.eqb_eq, size_list_to_set_NoDup in H2.
    apply andb_false_iff in H1 as [H1|H1]; split_and!; try done.
    + apply bool_decide_eq_false in H1. left. by apply eq_None_not_Some.
    + right. apply negb_false_iff in H1. by apply bool_decide_eq_true in H1.
  - destruct (to_vec _); simplify_eq/=. done.
Qed.

Lemma stream_request_inv r f :
  stream_request to_vec r = Ok f →
  stream_bounds_ok r = true
  ∧ match sr_filter r with
    | Some fl => filter_valid fl ∧ to_vec (filter_wire fl) = Ok (value f)
    | None => value f = []
    end
  ∧ ∃ v, f = set_value v (set_extras
      (put_u32 (sr_flags r) ++ put_u32 0 ++ put_u64 (sr_start_seqno r)
        ++ put_u64 (sr_end_seqno r) ++ put_u64 (sr_vbucket_uuid r)
        ++ put_u64 (sr_snapshot_start r) ++ put_u64 (sr_snapshot_end r))
      (set_opaque (sr_opaque r) (set_vbucket (sr_vbucket r) (request OP_DCP_STREAM_REQUEST)))).
Proof.
  unfold stream_request, stream_bounds_ok. intros H.
  destruct (Z.ltb_spec (sr_end_seqno r) (sr_start_seqno r)); [done|].
  destruct (Z.ltb_spec (sr_snapshot_end r) (sr_snapshot_start r)); [done|].
  destruct ((sr_snapshot_end r <? sr_start_seqno r) && _) eqn:Hb; [done|].
  split; [|destruct (sr_filter r) as [fl|]].
  - apply andb_false_iff in Hb. lia.
  - destruct (filter_encode to_vec fl) as [v| |] eqn:Hf; [|done..].
    apply filter_encode_inv in Hf as [? ?]. simplify_eq. eauto.
  - simplify_eq. split; [done|]. by exists [].
Qed.

Lemma stream_request_ok r :
  stream_bounds_ok r = true → sr_filter r = None → ∃ f, stream_request to_vec r = Ok f.
Proof.
  unfold stream_request, stream_bounds_ok. intros Hb Hf.
  destruct (Z.ltb_spec (sr_end_seqno r) (sr_start_seqno r)); [lia|].
  destruct (Z.ltb_spec (sr_snapshot_end r) (sr_snapshot_start r)); [lia|].
  destruct ((sr_snapshot_end r <? sr_start_seqno r) && _) eqn:Hb2;
    [apply andb_true_iff in Hb2; lia|]. rewrite Hf. eauto.
Qed.
End FilterLemmas.

Lemma stream_extras_read r :
  wf_stream_request r →
  read_stream_extras (put_u32 (sr_flags r) ++ put_u32 0 ++ put_u64 (sr_start_seqno r)
    ++ put_u64 (sr_end_seqno r) ++ put_u64 (sr_vbucket_uuid r)
    ++ put_u64 (sr_snapshot_start r) ++ put_u64 (sr_snapshot_end r)) r.
Proof.
  intros (_ & Hf & Hu & Hs & He & Hss & Hse & _).
  assert (is_u32 0) by by unfold_ranges.
  unfold read_stream_extras. split.
  { rewrite !len_app, !len_put_u32, !len_put_u64. done. }
  rewrite <-(app_nil_r (put_u64 (sr_snapshot_end r))). split_and!; read_layout.
Qed.

(** A [OBSERVE_SEQNO] reply without and with a hard failover. *)
Definition observe_layout (r : ObserveSeqNoResponse) : bytes :=
  put_u8 (if ob_did_failover r then 1 else 0) ++ put_u16 (ob_vbucket r)
  ++ put_u64 (ob_vbucket_uuid r) ++ put_u64 (ob_persisted_seqno r)
  ++ put_u64 (ob_current_seqno r)
  ++ match ob_old_vbucket_uuid r, ob_last_seqno r with
     | Some o, Some l => put_u64 o ++ put_u64 l
     | _, _ => []
     end.
Definition wf_observe (r : ObserveSeqNoResponse) : Prop :=
  is_u16 (ob_vbucket r) ∧ is_u64 (ob_vbucket_uuid r) ∧ is_u64 (ob_persisted_seqno r)
  ∧ is_u64 (ob_current_seqno r)
  ∧ match ob_old_vbucket_uuid r, ob_last_seqno r with
    | Some o, Some l => ob_did_failover r = true ∧ is_u64 o ∧ is_u64 l
    | None, None => ob_did_failover r = false
    | _, _ => False
    end.

(** The checked reader agrees with the indexed one where the latter does not panic. *)
Lemma observe_read_of_read v o z : read_u64 v o = Ok z → observe_read_u64 v o = Ok z.
Proof.
  unfold read_u64, observe_read_u64, slice, get_range. intros H.
  destruct (0 <=? o); [|done]. cbn [andb] in *.
  by destruct ((o <=? o + 8) && (o + 8 <=? len v)).
Qed.

(** The fields both formats share. *)
Lemma observe_header fmt vb uuid per cur tail v :
  v = put_u8 fmt ++ put_u16 vb ++ put_u64 uuid ++ put_u64 per ++ put_u64 cur ++ tail →
  is_u16 vb → is_u64 uuid → is_u64 per → is_u64 cur →
  head v = Some fmt ∧ len v = 27 + len tail ∧ be_at 2 v 1 = Ok vb
  ∧ observe_read_u64 v 3 = Ok uuid ∧ observe_read_u64 v 11 = Ok per
  ∧ observe_read_u64 v 19 = Ok cur.
Proof.
  intros -> Hvb Hu Hp Hc. split_and!; try (apply observe_read_of_read; read_layout).
  - done.
  - autorewrite with len_db. lia.
  - rewrite (be_at_app (put_u8 fmt) (put_u16 vb)) by (rewrite ?length_put_u16; done).
    by rewrite from_put_u16.
Qed.

Lemma parse_observe_seqno_layout f r :
  magic_is_response (magic f) = true → opcode f = OP_OBSERVE_SEQNO →
  status f = STATUS_SUCCESS → value f = observe_layout r → wf_observe r →
  parse_observe_seqno f = Ok r.
Proof.
  intros Hm Ho Hs Hv Hwf. unfold parse_observe_seqno. rewrite ensure_response_ok by done.
  destruct r as [fo vb uuid per cur old lst]. unfold observe_layout, wf_observe in *.
  cbn [ob_did_failover ob_vbucket ob_vbucket_uuid ob_persisted_seqno ob_current_seqno
       ob_old_vbucket_uuid ob_last_seqno] in *.
  destruct Hwf as (Hvb & Hu & Hp & Hc & Hx).
  destruct (observe_header _ _ _ _ _ _ _ Hv Hvb Hu Hp Hc) as (-> & Hl & -> & -> & -> & ->).
  destruct old as [o|], lst as [l|]; try done; [destruct Hx as (-> & Ho1 & Hl1)|subst fo];
    cbn [ok_or Z.eqb Pos.eqb].
  - rewrite !len_app, !len_put_u64 in Hl.
    destruct (Z.ltb_spec (len (value f)) 43); [lia|]. unfold then_read.
    rewrite <-(app_nil_r (put_u64 l)) in Hv.
    rewrite (observe_read_of_read _ 27 o) by (rewrite Hv; read_layout).
    rewrite (observe_read_of_read _ 35 l) by (rewrite Hv; read_layout). done.
  - change (len []) with 0 in Hl. by destruct (Z.ltb_spec (len (value f)) 27); [lia|].
Qed.

(** ** Properties *)

(** A stream request is built exactly for ordered bounds and a valid filter, and the
    frame carries the request: the 48 bytes of extras give back every field at its wire
    offset, and the value is the serialized filter. *)
Lemma stream_request_correct to_vec r f :
  wf_stream_request r → stream_request to_vec r = Ok f →
  sr_start_seqno r ≤ sr_end_seqno r ∧ sr_snapshot_start r ≤ sr_snapshot_end r
  ∧ (sr_start_seqno r ≤ sr_snapshot_end r ∨ sr_snapshot_end r = 0)
  ∧ opcode f = OP_DCP_STREAM_REQUEST ∧ magic f = Request ∧ vbucket f = sr_vbucket r
  ∧ opaque f = sr_opaque r ∧ read_stream_extras (extras f) r
  ∧ match sr_filter r with
    | Some fl => filter_valid fl ∧ to_vec (filter_wire fl) = Ok (value f)
    | None => value f = []
    end.
Proof.
  intros Hwf Hr. apply stream_request_inv in Hr as (Hb & Hv & v & ->).
  unfold stream_bounds_ok in Hb. split_and!; try done; try lia. by apply stream_extras_read.
Qed.

Definition sample_stream_request : StreamRequest :=
  mkStreamRequest 12 STREAM_ACTIVE_ONLY 77 40 u64_max 30 45
    (Some (mkStreamFilter None [8; 9] (Some 3) (Some 1))) 5.
(** The answer to a stream request is read back: a successful response whose value is
    the failover log, sixteen bytes an entry, opens the stream with exactly that log, and
    a rollback response of eight bytes asks for exactly that sequence number. *)
Lemma stream_response_roundtrip f log z :
  magic_is_response (magic f) = true → opcode f = OP_DCP_STREAM_REQUEST →
  Forall wf_failover_entry log → is_u64 z →
  (status f = STATUS_SUCCESS → value f = mjoin (failover_layout <$> log) →
   parse_stream_request_response f = Ok (Opened log))
  ∧ (status f = STATUS_ROLLBACK → value f = put_u64 z →
     parse_stream_request_response f = Ok (Rollback z)).
Proof.
  intros Hm Ho Hlog Hz. unfold parse_stream_request_response, ensure_response_opcode.
  rewrite Hm, Ho, Z.eqb_refl. cbn [negb orb]. split; intros Hs Hv; rewrite Hs, Hv.
  - change (STATUS_SUCCESS =? STATUS_ROLLBACK) with false. unfold ensure_success.
    rewrite Hs. change (status_is_success STATUS_SUCCESS) with true. cbn iota.
    by rewrite parse_failover_entries_layout.
  - rewrite Z.eqb_refl, len_put_u64. cbn [negb Z.eqb Pos.eqb].
    rewrite <-(app_nil_r (put_u64 z)), (be_at_app [] (put_u64 z) []) by done.
    by rewrite from_put_u64.
Qed.

(** The high-sequence-number table and the persistence reply are read back: ten bytes a
    vBucket for [GET_ALL_VB_SEQNOS], and both formats of [OBSERVE_SEQNO], the hard-failover
    one with its old branch. *)
Lemma seqno_responses_roundtrip f l r :
  magic_is_response (magic f) = true → status f = STATUS_SUCCESS →
  Forall wf_vbucket_seqno l → wf_observe r →
  (opcode f = OP_GET_ALL_VB_SEQNOS → value f = mjoin (seqno_layout <$> l) →
   parse_vbucket_seqnos f = Ok l)
  ∧ (opcode f = OP_OBSERVE_SEQNO → value f = observe_layout r → parse_observe_seqno f = Ok r).
Proof.
  intros Hm Hs Hl Hr. split; intros Ho Hv.
  - by apply parse_vbucket_seqnos_layout.
  - by apply parse_observe_seqno_layout.
Qed.

Definition sample_observe : ObserveSeqNoResponse :=
  mkObserveSeqNoResponse true 3 90 41 42 (Some 80) (Some 39).
(** No server response can crash the client: every response parser returns a value or a
    protocol error on every frame, whatever its magic, opcode, status, lengths and bytes. *)
Lemma response_parsers_safe f :
  parse_failover_log f ≠ Panic ∧ parse_stream_request_response f ≠ Panic
  ∧ parse_vbucket_seqnos f ≠ Panic ∧ parse_observe_seqno f ≠ Panic
  ∧ parse_collection_id f ≠ Panic ∧ parse_collection_manifest f ≠ Panic
  ∧ parse_subdoc_get_xattr f ≠ Panic ∧ parse_subdoc_mutation f ≠ Panic.
Proof.
  split_and!;
    [|apply parse_stream_request_response_no_panic|apply parse_vbucket_seqnos_no_panic
     |apply parse_observe_seqno_no_panic|apply parse_collection_id_no_panic|
     |apply parse_subdoc_get_xattr_no_panic|apply ensure_response_no_panic].
  - unfold parse_failover_log. intros Hp. res_cases; parser_facts.
  - unfold parse_collection_manifest. intros Hp. res_cases; parser_facts.
Qed.
