(* ===== verification/Errors.v ===== *)
(** * Errors of the client ([rust-dcp-core/src/error.rs], [rust-dcp-protocol/src/error.rs])

    [DcpError] and the display text of both error types.  A [Duration] is its number of
    nanoseconds. *)
From S2P Require Import Prelude Types.

Abbreviation Duration := Z (only parsing).
Definition from_millis (ms : Z) : Duration := ms * 1000000.
Definition from_secs (s : Z) : Duration := s * 1000000000.

(** The [Debug] text of a [Duration]: the largest unit that is not zero, with the
    fraction's trailing zeros trimmed. *)
Fixpoint trim_zeros (rev_digits : list Ascii.ascii) : list Ascii.ascii :=
  match rev_digits with
  | c :: r => if decide (c = Ascii.ascii_of_N 48) then trim_zeros r else rev_digits
  | [] => []
  end.
Definition fmt_decimal (integer fraction : Z) (width : nat) : string :=
  let digits := String.list_ascii_of_string (pad_to width (pretty fraction)) in
  match reverse (trim_zeros (reverse digits)) with
  | [] => pretty integer
  | d => pretty integer +:+ "." +:+ String.string_of_list_ascii d
  end.
Definition duration_debug (d : Duration) : string :=
  if 1000000000 <=? d then fmt_decimal (d / 1000000000) (d `mod` 1000000000) 9 +:+ "s"
  else if 1000000 <=? d then fmt_decimal (d / 1000000) (d `mod` 1000000) 6 +:+ "ms"
  else if 1000 <=? d then fmt_decimal (d / 1000) (d `mod` 1000) 3 +:+ "µs"
  else pretty d +:+ "ns".

Definition protocol_error_to_string (e : ProtocolError) : string :=
  match e with
  | Io m => "I/O error: " +:+ m
  | InvalidMagic b => "unsupported Memcached magic 0x" +:+ hex_pad2 b
  | InvalidLength m => "invalid frame length: " +:+ m
  | MalformedFrame m => "malformed frame: " +:+ m
  | MalformedDcp m => "malformed DCP message: " +:+ m
  | InvalidCollectionId m => "invalid collection ID: " +:+ m
  | InvalidRequest m => "invalid request: " +:+ m
  | ServerStatus st op m =>
      "server status 0x" +:+ hex_pad4 st +:+ " for opcode 0x" +:+ hex_pad2 op +:+ ": " +:+ m
  | Json m => "stream filter serialization failed: " +:+ m
  end.

Inductive DcpError : Type :=
| InvalidConfiguration (m : string)
| Protocol (e : ProtocolError)
| DcpIo (m : string)
| Tls (m : string)
| Authentication (m : string)
| DcpServerStatus (status opcode : Z) (message : string)
| Topology (m : string)
| Unsupported (m : string)
| Collection (m : string)
| Checkpoint (m : string)
| CheckpointStoreError (m : string)
| RollbackRequired (vbucket requested_seqno rollback_seqno : Z) (failover_log : list FailoverEntry)
| RollbackMitigation (vbucket : Z) (message : string)
| StaleGeneration (observed current : Z)
| Timeout (d : Duration)
| DeadConnection (peer : string) (idle_for : Duration)
| Cancelled
| StreamError (vbucket : Z) (message : string).

#[export] Instance DcpError_eq_dec : EqDecision DcpError.
Proof. solve_decision. Defined.

Abbreviation result := (res DcpError).

Definition dcp_error_to_string (e : DcpError) : string :=
  match e with
  | InvalidConfiguration m => "invalid configuration: " +:+ m
  | Protocol e => protocol_error_to_string e
  | DcpIo m => "I/O error: " +:+ m
  | Tls m => "TLS error: " +:+ m
  | Authentication m => "authentication failed: " +:+ m
  | DcpServerStatus st op m =>
      "server returned status 0x" +:+ hex_pad4 st +:+ " for opcode 0x" +:+ hex_pad2 op
        +:+ ": " +:+ m
  | Topology m => "topology error: " +:+ m
  | Unsupported m => "unsupported capability: " +:+ m
  | Collection m => "collection state error: " +:+ m
  | Checkpoint m => "checkpoint error: " +:+ m
  | CheckpointStoreError m => "checkpoint store error: " +:+ m
  | RollbackRequired vb q r _ =>
      "vBucket " +:+ pretty vb +:+ " requires rollback from seqno " +:+ pretty q
        +:+ " to " +:+ pretty r
  | RollbackMitigation vb m => "rollback mitigation failed for vBucket " +:+ pretty vb +:+ ": " +:+ m
  | StaleGeneration o c =>
      "stale assignment generation " +:+ pretty o +:+ "; current generation is " +:+ pretty c
  | Timeout d => "operation timed out after " +:+ duration_debug d
  | DeadConnection p d => "KV peer " +:+ p +:+ " was silent for " +:+ duration_debug d
  | Cancelled => "operation cancelled"
  | StreamError vb m => "stream error for vBucket " +:+ pretty vb +:+ ": " +:+ m
  end.

(** [?] on a protocol result inside a [DcpError] function. *)
Definition from_protocol {A} (r : presult A) : result A := map_err Protocol r.

Example timeout_text :
  dcp_error_to_string (Timeout (from_millis 1500)) = "operation timed out after 1.5s".
Proof. vm_compute. reflexivity. Qed.
