(* ===== verification/Event.v ===== *)
(** * Public events ([rust-dcp-core/src/event.rs])

    The event types an application receives, with the vBucket and the sequence number the
    checkpoint coordinator reads from them. *)
From S2P Require Import Prelude Types Frame.

(** ** Flag sets, retained bit for bit *)
Abbreviation DataType := Z (only parsing).
Definition DATATYPE_JSON : DataType := 0x01.
Definition DATATYPE_SNAPPY : DataType := 0x02.
Definition DATATYPE_XATTR : DataType := 0x04.

Abbreviation SnapshotFlags := Z (only parsing).
Definition SNAPSHOT_MEMORY : SnapshotFlags := 0x01.
Definition SNAPSHOT_DISK : SnapshotFlags := 0x02.
Definition SNAPSHOT_CHECKPOINT : SnapshotFlags := 0x04.
Definition SNAPSHOT_ACK : SnapshotFlags := 0x08.
Definition SNAPSHOT_HISTORY : SnapshotFlags := 0x10.
Definition SNAPSHOT_MAY_CONTAIN_DUPLICATES : SnapshotFlags := 0x20.

(** [contains]: every bit of [flag] is set. *)
Definition flags_contain (bits flag : Z) : bool := Z.land bits flag =? flag.

(** ** Events *)
Record DcpMutation : Type := mkDcpMutation {
  mut_vbucket : Z;
  mut_seqno : Z;
  mut_rev_seqno : Z;
  mut_flags : Z;
  mut_expiry : Z;
  mut_lock_time : Z;
  mut_cas : Z;
  mut_datatype : DataType;
  mut_collection_id : option Z;
  mut_collection_name : option string;
  mut_key : bytes;
  mut_value : bytes
}.

Definition is_created (m : DcpMutation) : bool := mut_rev_seqno m =? 1.

Record DcpDeletion : Type := mkDcpDeletion {
  del_vbucket : Z;
  del_seqno : Z;
  del_rev_seqno : Z;
  del_delete_time : option Z;
  del_cas : Z;
  del_collection_id : option Z;
  del_collection_name : option string;
  del_key : bytes;
  del_value : bytes;
  del_datatype : DataType
}.

Record DcpExpiration : Type := mkDcpExpiration {
  exp_vbucket : Z;
  exp_seqno : Z;
  exp_rev_seqno : Z;
  exp_delete_time : option Z;
  exp_cas : Z;
  exp_collection_id : option Z;
  exp_collection_name : option string;
  exp_key : bytes;
  exp_value : bytes;
  exp_datatype : DataType
}.

Record SnapshotMarker : Type := mkSnapshotMarker {
  snap_vbucket : Z;
  snap_start_seqno : Z;
  snap_end_seqno : Z;
  snap_flags : SnapshotFlags;
  snap_high_completed_seqno : option Z;
  snap_max_visible_seqno : option Z;
  snap_purge_seqno : option Z
}.

Inductive StreamEndReason : Type :=
| EndOk
| EndStateChanged
| EndClosed
| EndDisconnected
| EndTooSlow
| EndBackfillFailed
| EndFilterEmpty
| EndUnknown (code : Z).

Record StreamEnd : Type := mkStreamEnd {
  end_vbucket : Z;
  end_reason : StreamEndReason
}.

Record SeqNoAdvanced : Type := mkSeqNoAdvanced {
  adv_vbucket : Z;
  adv_seqno : Z
}.

Inductive SystemEventKind : Type :=
| CollectionCreated (scope_id coll_id : Z) (max_ttl : option Z)
| CollectionDropped (scope_id coll_id : Z)
| CollectionFlushed (coll_id : Z)
| ScopeCreated (scope_id : Z)
| ScopeDropped (scope_id : Z)
| CollectionChanged (coll_id : Z) (max_ttl : option Z)
| UnknownEvent (code : Z) (data : bytes).

Record SystemEvent : Type := mkSystemEvent {
  sys_vbucket : Z;
  sys_seqno : Z;
  sys_manifest_uid : Z;
  sys_version : Z;
  sys_key : bytes;
  sys_kind : SystemEventKind
}.

Inductive OsoSnapshotState : Type :=
| OsoBegin
| OsoEnd
| OsoUnknown (code : Z).

Record OsoSnapshot : Type := mkOsoSnapshot {
  oso_vbucket : Z;
  oso_state : OsoSnapshotState
}.

Inductive DcpEvent : Type :=
| EMutation (e : DcpMutation)
| EDeletion (e : DcpDeletion)
| EExpiration (e : DcpExpiration)
| ESnapshotMarker (e : SnapshotMarker)
| EStreamEnd (e : StreamEnd)
| ESeqNoAdvanced (e : SeqNoAdvanced)
| ESystemEvent (e : SystemEvent)
| EOsoSnapshot (e : OsoSnapshot).

Definition event_vbucket (e : DcpEvent) : Z :=
  match e with
  | EMutation e => mut_vbucket e
  | EDeletion e => del_vbucket e
  | EExpiration e => exp_vbucket e
  | ESnapshotMarker e => snap_vbucket e
  | EStreamEnd e => end_vbucket e
  | ESeqNoAdvanced e => adv_vbucket e
  | ESystemEvent e => sys_vbucket e
  | EOsoSnapshot e => oso_vbucket e
  end.

Definition event_seqno (e : DcpEvent) : option Z :=
  match e with
  | EMutation e => Some (mut_seqno e)
  | EDeletion e => Some (del_seqno e)
  | EExpiration e => Some (exp_seqno e)
  | ESeqNoAdvanced e => Some (adv_seqno e)
  | ESystemEvent e => Some (sys_seqno e)
  | ESnapshotMarker _ | EStreamEnd _ | EOsoSnapshot _ => None
  end.

(** ** Items of the connection runtime ([stream.rs]) *)
Inductive DcpStreamItem : Type :=
| ItemEvent (e : DcpEvent)
| ItemTopologyConfig (source : string) (payload : bytes)
| ItemUnknown (f : Frame).
