(* ===== verification/Checkpoint.v ===== *)
(** * Checkpoints ([rust-dcp-core/src/checkpoint.rs])

    The durable resume position of one vBucket. *)
From S2P Require Import Prelude Types Errors.

Record DcpCheckpoint : Type := mkCheckpoint {
  ck_bucket_uuid : option string;
  ck_vbucket : Z;
  ck_vbucket_uuid : Z;
  ck_seqno : Z;
  ck_snapshot_start : Z;
  ck_snapshot_end : Z;
  ck_manifest_uid : option Z
}.

#[export] Instance DcpCheckpoint_eq_dec : EqDecision DcpCheckpoint.
Proof. solve_decision. Defined.

Definition earliest (vbucket : Z) : DcpCheckpoint := mkCheckpoint None vbucket 0 0 0 0 None.

Definition ck_validate (c : DcpCheckpoint) : result unit :=
  if ck_snapshot_end c <? ck_snapshot_start c then
    Err (Checkpoint ("snapshot start " +:+ pretty (ck_snapshot_start c)
      +:+ " exceeds snapshot end " +:+ pretty (ck_snapshot_end c)
      +:+ " for vBucket " +:+ pretty (ck_vbucket c)))
  else if ck_snapshot_end c <? ck_seqno c then
    Err (Checkpoint ("seqno " +:+ pretty (ck_seqno c) +:+ " exceeds snapshot end "
      +:+ pretty (ck_snapshot_end c) +:+ " for vBucket " +:+ pretty (ck_vbucket c)))
  else if negb (ck_seqno c =? 0) && (ck_seqno c <? ck_snapshot_start c) then
    Err (Checkpoint ("seqno " +:+ pretty (ck_seqno c) +:+ " precedes snapshot start "
      +:+ pretty (ck_snapshot_start c) +:+ " for vBucket " +:+ pretty (ck_vbucket c)))
  else Ok tt.

(** Field assignments. *)
Definition ck_at (seqno snapshot_start snapshot_end : Z) (c : DcpCheckpoint) : DcpCheckpoint :=
  mkCheckpoint (ck_bucket_uuid c) (ck_vbucket c) (ck_vbucket_uuid c) seqno
    snapshot_start snapshot_end (ck_manifest_uid c).
Definition ck_set_manifest_uid (u : option Z) (c : DcpCheckpoint) : DcpCheckpoint :=
  mkCheckpoint (ck_bucket_uuid c) (ck_vbucket c) (ck_vbucket_uuid c) (ck_seqno c)
    (ck_snapshot_start c) (ck_snapshot_end c) u.
Definition ck_set_vbucket_uuid (u : Z) (c : DcpCheckpoint) : DcpCheckpoint :=
  mkCheckpoint (ck_bucket_uuid c) (ck_vbucket c) u (ck_seqno c)
    (ck_snapshot_start c) (ck_snapshot_end c) (ck_manifest_uid c).
Definition ck_set_bucket_uuid (u : option string) (c : DcpCheckpoint) : DcpCheckpoint :=
  mkCheckpoint u (ck_vbucket c) (ck_vbucket_uuid c) (ck_seqno c)
    (ck_snapshot_start c) (ck_snapshot_end c) (ck_manifest_uid c).

Definition advanced_to (c : DcpCheckpoint) (seqno snapshot_start snapshot_end : Z)
    : result DcpCheckpoint :=
  if seqno <? ck_seqno c then
    Err (Checkpoint ("cannot move vBucket " +:+ pretty (ck_vbucket c)
      +:+ " checkpoint backwards from " +:+ pretty (ck_seqno c) +:+ " to " +:+ pretty seqno))
  else
    let next := ck_at seqno snapshot_start snapshot_end c in
    do? ck_validate next in
    Ok next.

(** ** Lemmas *)

(** What a validated checkpoint guarantees: an ordered snapshot that contains the
    sequence number, or a position at zero before it. *)
Definition ck_valid (c : DcpCheckpoint) : Prop :=
  ck_snapshot_start c ≤ ck_snapshot_end c ∧ ck_seqno c ≤ ck_snapshot_end c
  ∧ (ck_seqno c = 0 ∨ ck_snapshot_start c ≤ ck_seqno c).

Lemma ck_validate_spec c :
  match ck_validate c with
  | Ok _ => ck_valid c
  | Err _ => ¬ ck_valid c
  | Panic => False
  end.
Proof.
  unfold ck_validate, ck_valid.
  destruct (Z.ltb_spec (ck_snapshot_end c) (ck_snapshot_start c)); [lia|].
  destruct (Z.ltb_spec (ck_snapshot_end c) (ck_seqno c)); [lia|].
  destruct (Z.eqb_spec (ck_seqno c) 0); cbn [negb andb]; [lia|].
  destruct (Z.ltb_spec (ck_seqno c) (ck_snapshot_start c)); lia.
Qed.
Lemma ck_validate_ok c : ck_valid c → ck_validate c = Ok tt.
Proof. intros H. pose proof (ck_validate_spec c). by destruct (ck_validate c) as [[]| |]. Qed.
Lemma ck_validate_inv c u : ck_validate c = Ok u → ck_valid c.
Proof. intros H. pose proof (ck_validate_spec c) as Hs. by rewrite H in Hs. Qed.
Lemma ck_validate_no_panic c : ck_validate c ≠ Panic.
Proof. intros H. pose proof (ck_validate_spec c) as Hs. by rewrite H in Hs. Qed.

(** ** Properties *)

(** a checkpoint advances only forwards and only inside the supplied snapshot: exactly
    then [advanced_to] returns a checkpoint, at the requested position with the identity,
    history branch and manifest unchanged; otherwise it returns an error, never a panic. *)
Lemma advanced_to_spec c seqno s e :
  match advanced_to c seqno s e with
  | Ok c' => ck_seqno c ≤ seqno ∧ c' = ck_at seqno s e c ∧ ck_valid c'
  | Err _ => seqno < ck_seqno c ∨ ¬ ck_valid (ck_at seqno s e c)
  | Panic => False
  end.
Proof.
  unfold advanced_to. destruct (Z.ltb_spec seqno (ck_seqno c)); [by left|].
  pose proof (ck_validate_spec (ck_at seqno s e c)) as Hv.
  destruct (ck_validate _); [|by right|done]. done.
Qed.
