(* ===== verification/Assignment.v ===== *)
(** * vBucket assignment ([rust-dcp-core/src/assignment.rs])

    The fenced set of vBuckets one consumer owns, and the deterministic split of a bucket
    between the members of a group. *)
From S2P Require Import Prelude Types Errors.

(** ** [VBucketAssignment] and [AssignmentMode] *)
Record VBucketAssignment : Type := mkAssignment {
  as_generation : Z;
  as_vbuckets : gset Z
}.

#[export] Instance VBucketAssignment_eq_dec : EqDecision VBucketAssignment.
Proof. solve_decision. Defined.

Inductive AssignmentMode : Type :=
| Standalone
| External (a : VBucketAssignment).

Definition assignment_new (generation : Z) (vbuckets : list Z) : VBucketAssignment :=
  mkAssignment generation (list_to_set vbuckets).

Definition max_vbucket_count : Z := u16_max + 1.

Definition vbucket_try_from (vb : Z) : result Z :=
  ok_or (try_from u16_max vb)
    (InvalidConfiguration ("vBucket identifier " +:+ pretty vb
      +:+ " cannot be represented: " +:+ try_from_int_error)).

Definition balanced (generation vbucket_count member_number total_members : Z)
    : result VBucketAssignment :=
  if (vbucket_count =? 0) || (max_vbucket_count <? vbucket_count) then
    Err (InvalidConfiguration ("vBucket count must be in 1..=" +:+ pretty max_vbucket_count))
  else if (total_members =? 0) || (vbucket_count <? total_members) then
    Err (InvalidConfiguration ("total members must be in 1..=" +:+ pretty vbucket_count))
  else if (member_number =? 0) || (total_members <? member_number) then
    Err (InvalidConfiguration ("member number must be in 1..=" +:+ pretty total_members))
  else
    let member_index := member_number - 1 in
    let base_size := vbucket_count / total_members in
    let remainder := vbucket_count `mod` total_members in
    let? offset := mul_or_panic usize_max member_index base_size in
    let? start := add_or_panic usize_max offset (Z.min member_index remainder) in
    let? length := add_or_panic usize_max base_size
      (if member_index <? remainder then 1 else 0) in
    let? stop := add_or_panic usize_max start length in
    let? vbuckets := mapM_res vbucket_try_from (seqZ start (stop - start)) in
    Ok (assignment_new generation vbuckets).

(** Ordered iteration and membership. *)
Definition as_vbucket_list (a : VBucketAssignment) : list Z :=
  merge_sort Z.le (elements (as_vbuckets a)).
Definition owns (a : VBucketAssignment) (vb : Z) : bool := bool_decide (vb ∈ as_vbuckets a).

(** ** Lemmas *)

(** The first vBucket of the member with index [i]. *)
Definition chunk_start (count total i : Z) : Z :=
  i * (count / total) + Z.min i (count `mod` total).

Section Chunks.
Context (count total : Z).
Hypothesis Hcount : 1 ≤ count ≤ max_vbucket_count.
Hypothesis Htotal : 1 ≤ total ≤ count.

Lemma div_facts :
  count = total * (count / total) + count `mod` total
  ∧ 0 ≤ count `mod` total < total ∧ 1 ≤ count / total.
Proof using Hcount Htotal.
  pose proof (Z.div_mod count total ltac:(lia)).
  pose proof (Z.mod_pos_bound count total ltac:(lia)).
  pose proof (Z.div_le_lower_bound count total 1 ltac:(lia) ltac:(lia)). lia.
Qed.

Lemma chunk_start_bounds i : 0 ≤ i ≤ total → 0 ≤ chunk_start count total i ≤ count.
Proof using Hcount Htotal.
  intros Hi. destruct div_facts as (? & ? & ?). unfold chunk_start. nia.
Qed.
Lemma chunk_start_0 : chunk_start count total 0 = 0.
Proof using Hcount Htotal. destruct div_facts as (? & ? & ?). unfold chunk_start. lia. Qed.
Lemma chunk_start_total : chunk_start count total total = count.
Proof using Hcount Htotal. destruct div_facts as (? & ? & ?). unfold chunk_start. lia. Qed.
Lemma chunk_size i :
  0 ≤ i < total →
  chunk_start count total (i + 1) - chunk_start count total i
  = count / total + (if i <? count `mod` total then 1 else 0).
Proof using Hcount Htotal.
  intros Hi. unfold chunk_start. destruct (Z.ltb_spec i (count `mod` total)); lia.
Qed.
Lemma chunk_start_mono i j :
  0 ≤ i ≤ j → j ≤ total → chunk_start count total i ≤ chunk_start count total j.
Proof using Hcount Htotal. destruct div_facts as (? & ? & ?). unfold chunk_start. nia. Qed.

Lemma balanced_ok generation member :
  1 ≤ member ≤ total →
  ∃ a, balanced generation count member total = Ok a ∧ as_generation a = generation
    ∧ ∀ vb, vb ∈ as_vbuckets a ↔
        chunk_start count total (member - 1) ≤ vb < chunk_start count total member.
Proof using Hcount Htotal.
  intros Hm. pose proof (chunk_start_bounds (member - 1) ltac:(lia)) as Hb1.
  pose proof (chunk_start_bounds member ltac:(lia)) as Hb2.
  pose proof (chunk_size (member - 1) ltac:(lia)) as Hsz.
  replace (member - 1 + 1) with member in Hsz by lia.
  destruct div_facts as (Hdm & Hr & Hq). unfold max_vbucket_count in *. unfold_ranges.
  assert (0 ≤ (member - 1) * (count / total) ≤ count) by nia.
  unfold balanced, max_vbucket_count. unfold_ranges.
  replace ((count =? 0) || (65535 + 1 <? count)) with false by lia.
  replace ((total =? 0) || (count <? total)) with false by lia.
  replace ((member =? 0) || (total <? member)) with false by lia. cbv zeta.
  fold u64_max. rewrite mul_or_panic_ok by (unfold u64_max; lia).
  rewrite add_or_panic_ok by (unfold u64_max, chunk_start in *; lia).
  fold (chunk_start count total (member - 1)).
  rewrite add_or_panic_ok by (unfold u64_max; destruct (_ <? _); lia).
  rewrite <-Hsz, add_or_panic_ok by (unfold u64_max; lia).
  rewrite mapM_res_id.
  2:{ intros x Hx. apply elem_of_seqZ in Hx. unfold vbucket_try_from.
      apply try_from_ok. unfold u16_max. lia. }
  eexists. split_and!; [done..|]. intros vb. unfold assignment_new. cbn [as_vbuckets].
  rewrite elem_of_list_to_set, elem_of_seqZ. lia.
Qed.

(** Every vBucket lies in some chunk. *)
Lemma chunk_cover vb (n : nat) :
  Z.of_nat n ≤ total → 0 ≤ vb < chunk_start count total (Z.of_nat n) →
  ∃ i, 0 ≤ i < Z.of_nat n ∧ chunk_start count total i ≤ vb < chunk_start count total (i + 1).
Proof using Hcount Htotal.
  induction n as [|n IH]; intros Hn Hvb; [change (Z.of_nat 0) with 0 in Hvb; rewrite chunk_start_0 in Hvb; lia|].
  destruct (Z.lt_ge_cases vb (chunk_start count total (Z.of_nat n))) as [Hlt|Hge].
  - destruct IH as (i & Hi & Hc); [lia..|]. exists i. lia.
  - exists (Z.of_nat n). replace (Z.of_nat n + 1) with (Z.of_nat (S n)) by lia. lia.
Qed.
End Chunks.

Lemma size_interval (X : gset Z) a b :
  a ≤ b → (∀ v, v ∈ X ↔ a ≤ v < b) → Z.of_nat (size X) = b - a.
Proof.
  intros Hab HX. assert (X = list_to_set (seqZ a (b - a))) as ->.
  { apply set_eq. intros v. rewrite HX, elem_of_list_to_set, elem_of_seqZ. lia. }
  rewrite size_list_to_set by apply NoDup_seqZ. rewrite length_seqZ. lia.
Qed.

(** ** Properties *)

(** The members of a group share the bucket exactly.  For every bucket of at most 65536
    vBuckets and every group that is not larger than it, each member's [balanced] call
    succeeds with the requested generation; every vBucket of the bucket is owned by one and
    only one member, no member owns anything else, every member's share is a contiguous
    non-empty range, and two shares differ by at most one vBucket. *)
Lemma balanced_partition generation count total :
  1 ≤ count ≤ max_vbucket_count → 1 ≤ total ≤ count →
  ∃ share : Z → VBucketAssignment,
    (∀ m, 1 ≤ m ≤ total → balanced generation count m total = Ok (share m)
       ∧ as_generation (share m) = generation
       ∧ count / total ≤ Z.of_nat (size (as_vbuckets (share m))) ≤ count / total + 1
       ∧ 0 < Z.of_nat (size (as_vbuckets (share m)))
       ∧ ∃ lo hi, ∀ vb, owns (share m) vb = true ↔ lo ≤ vb < hi)
    ∧ (∀ vb, 0 ≤ vb < count →
       ∃ m, (1 ≤ m ≤ total ∧ owns (share m) vb = true)
         ∧ ∀ m', 1 ≤ m' ≤ total → owns (share m') vb = true → m' = m)
    ∧ (∀ m vb, 1 ≤ m ≤ total → owns (share m) vb = true → 0 ≤ vb < count).
Proof.
  intros Hc Ht.
  exists (λ m, match balanced generation count m total with
               | Ok a => a | _ => mkAssignment 0 ∅ end).
  assert (∀ m, 1 ≤ m ≤ total → ∃ a, balanced generation count m total = Ok a
    ∧ as_generation a = generation ∧ ∀ vb, owns a vb = true ↔
        chunk_start count total (m - 1) ≤ vb < chunk_start count total m) as Hok.
  { intros m Hm. destruct (balanced_ok count total Hc Ht generation m Hm) as (a & ? & ? & Ha).
    exists a. split_and!; [done..|]. intros vb. unfold owns. by rewrite bool_decide_eq_true, Ha. }
  destruct (div_facts count total Hc Ht) as (_ & Hr & Hq). split_and!.
  - intros m Hm. destruct (Hok m Hm) as (a & -> & Hg & Ha).
    pose proof (chunk_size count total Hc Ht (m - 1) ltac:(lia)) as Hs.
    replace (m - 1 + 1) with m in Hs by lia.
    pose proof (size_interval (as_vbuckets a) _ _
      (chunk_start_mono count total Hc Ht (m - 1) m ltac:(lia) ltac:(lia))) as Hsz.
    rewrite Hsz by (intros v; rewrite <-Ha; unfold owns; by rewrite bool_decide_eq_true).
    destruct (m - 1 <? count `mod` total); split_and!; try done; try lia; eauto.
  - intros vb Hvb. destruct (chunk_cover count total Hc Ht vb (Z.to_nat total)) as (i & Hi & Hb).
    { lia. } { rewrite Z2Nat.id, chunk_start_total by (done || lia). lia. }
    exists (i + 1). split.
    + split; [lia|]. destruct (Hok (i + 1) ltac:(lia)) as (a & -> & _ & Ha). apply Ha.
      replace (i + 1 - 1) with i by lia. done.
    + intros m' Hm'. destruct (Hok m' Hm') as (a & -> & _ & Ha). rewrite Ha. intros Hb'.
      destruct (Z.lt_trichotomy m' (i + 1)) as [?|[?|?]]; [|done|].
      * pose proof (chunk_start_mono count total Hc Ht m' i ltac:(lia) ltac:(lia)). lia.
      * pose proof (chunk_start_mono count total Hc Ht (i + 1) (m' - 1) ltac:(lia) ltac:(lia)). lia.
  - intros m vb Hm. destruct (Hok m Hm) as (a & -> & _ & Ha). rewrite Ha.
    pose proof (chunk_start_bounds count total Hc Ht (m - 1) ltac:(lia)).
    pose proof (chunk_start_bounds count total Hc Ht m ltac:(lia)). lia.
Qed.

(** invalid member bounds are rejected before any arithmetic: [balanced] never panics
    on machine-sized arguments, and an empty or oversized bucket, an empty or oversized
    group and a member number outside the group are configuration errors. *)
Lemma balanced_safe generation count member total :
  is_u64 count → is_u64 member → is_u64 total →
  if decide (1 ≤ count ≤ max_vbucket_count ∧ 1 ≤ total ≤ count ∧ 1 ≤ member ≤ total)
  then ∃ a, balanced generation count member total = Ok a
  else ∃ m, balanced generation count member total = Err (InvalidConfiguration m).
Proof.
  intros Hc Hm Ht. unfold_ranges. destruct (decide _) as [(H1 & H2 & H3)|Hn].
  - destruct (balanced_ok count total H1 H2 generation member H3) as (a & ? & _). eauto.
  - unfold balanced, max_vbucket_count in *. unfold_ranges.
    destruct ((count =? 0) || (65535 + 1 <? count)) eqn:E1; [eauto|].
    destruct ((total =? 0) || (count <? total)) eqn:E2; [eauto|].
    destruct ((member =? 0) || (total <? member)) eqn:E3; [eauto|].
    apply orb_false_iff in E1, E2, E3. exfalso. apply Hn. lia.
Qed.
