(* ===== verification/Config.v ===== *)
(** * Configuration ([rust-dcp-core/src/config.rs], the parts the stream reads)

    The acknowledgement ratio is an IEEE binary32 number and the credit threshold is
    computed in binary64; both are the executable floats of [SpecFloat]. *)
From Stdlib Require Import SpecFloat.
From S2P Require Import Prelude Types Errors Checkpoint.

Inductive DcpMode : Type := Finite | Infinite.

Inductive StartPosition : Type :=
| StartEarliest
| StartLatest
| StartCheckpoint (c : DcpCheckpoint).

Inductive RollbackPolicy : Type :=
| PolicyStopAndReport
| PolicyRewindAndReplay
| PolicyDelegateToHandler.

#[export] Instance RollbackPolicy_eq_dec : EqDecision RollbackPolicy.
Proof. solve_decision. Defined.

(** ** Floating point *)
Abbreviation f32 := spec_float (only parsing).
Abbreviation f64 := spec_float (only parsing).
Definition f32_zero : f32 := S754_zero false.
Definition f32_one : f32 := S754_finite false 8388608 (-23).
(** [f64::from] on a [u32] and on an [f32], both exact. *)
Definition f64_from_u32 (z : Z) : f64 := binary_normalize 53 1024 z 0 false.
Definition f64_from_f32 (x : f32) : f64 :=
  match x with
  | S754_finite s m e => binary_normalize 53 1024 (cond_Zopp s (Zpos m)) e s
  | x => x
  end.
Definition f64_mul (x y : f64) : f64 := SFmul 53 1024 x y.

(** ** [FlowControlConfig] *)
Definition DEFAULT_CONNECTION_BUFFER_SIZE : Z := 20 * 1024 * 1024.

Record FlowControlConfig : Type := mkFlowControlConfig {
  fc_connection_buffer_size : Z;
  fc_ack_ratio : f32;
  fc_event_queue_capacity : Z;
  fc_noop_interval : Duration;
  fc_dead_connection_timeout : Duration
}.

(** The binary32 number nearest to 0.2 is 13421773 * 2^-26. *)
Definition flow_control_default : FlowControlConfig :=
  mkFlowControlConfig DEFAULT_CONNECTION_BUFFER_SIZE (S754_finite false 13421773 (-26)) 2048
    (from_secs 20) (from_secs 60).

Definition flow_control_validate (c : FlowControlConfig) : result unit :=
  if fc_connection_buffer_size c =? 0 then
    Err (InvalidConfiguration "connection buffer size must be greater than zero")
  else if u32_max <? fc_connection_buffer_size c then
    Err (InvalidConfiguration
      "connection buffer size must fit in the server's 32-bit control value")
  else if negb (SFleb f32_zero (fc_ack_ratio c) && SFleb (fc_ack_ratio c) f32_one)
          || SFeqb (fc_ack_ratio c) f32_zero then
    Err (InvalidConfiguration "flow-control ack ratio must be in (0, 1]")
  else if fc_noop_interval c <? from_secs 1 then
    Err (InvalidConfiguration "NOOP interval must be at least one second")
  else if fc_dead_connection_timeout c <=? fc_noop_interval c then
    Err (InvalidConfiguration "dead connection timeout must be greater than the NOOP interval")
  else Ok tt.

Example flow_control_default_valid : flow_control_validate flow_control_default = Ok tt.
Proof. vm_compute. reflexivity. Qed.

Lemma flow_control_validate_buffer c u :
  flow_control_validate c = Ok u → 0 ≤ fc_connection_buffer_size c →
  1 ≤ fc_connection_buffer_size c ≤ u32_max.
Proof. unfold flow_control_validate. intros. repeat case_match; try done. lia. Qed.
Lemma flow_control_validate_no_panic c : flow_control_validate c ≠ Panic.
Proof. unfold flow_control_validate. by repeat case_match. Qed.

(** ** [RollbackMitigationConfig] *)
Record RollbackMitigationConfig : Type := mkRollbackMitigationConfig {
  rm_enabled : bool;
  rm_poll_interval : Duration;
  rm_request_timeout : Duration;
  rm_maximum_stall : Duration
}.

Definition rollback_mitigation_default : RollbackMitigationConfig :=
  mkRollbackMitigationConfig true (from_secs 1) (from_secs 5) (from_secs 60).

Definition rollback_mitigation_validate (c : RollbackMitigationConfig) : result unit :=
  if negb (rm_enabled c) then Ok tt
  else if (rm_poll_interval c =? 0) || (rm_request_timeout c =? 0) || (rm_maximum_stall c =? 0)
  then Err (InvalidConfiguration
    "enabled rollback mitigation intervals must be greater than zero")
  else if (rm_maximum_stall c <=? rm_request_timeout c)
          || (rm_maximum_stall c <=? rm_poll_interval c) then
    Err (InvalidConfiguration
      "rollback mitigation maximum stall must exceed its request timeout and poll interval")
  else Ok tt.

(** ** [CheckpointConfig] *)
Inductive CheckpointMode : Type :=
| Manual
| Automatic (flush_interval : Duration).
Record CheckpointConfig : Type := mkCheckpointConfig {
  cc_mode : CheckpointMode;
  cc_timeout : Duration
}.

Definition checkpoint_config_validate (c : CheckpointConfig) : result unit :=
  if cc_timeout c =? 0 then
    Err (InvalidConfiguration "checkpoint timeout must be greater than zero")
  else
    match cc_mode c with
    | Automatic flush_interval =>
        if flush_interval =? 0 then
          Err (InvalidConfiguration "automatic checkpoint interval must be greater than zero")
        else Ok tt
    | Manual => Ok tt
    end.
