(* ===== verification/Async.v ===== *)
(** * Asynchronous code over a state

    An [async fn] that borrows a state mutably is a state transformer.  Awaiting ends in a
    [result], or in [Hang] when nothing more will happen at that await point: a deadline
    around the call ([tokio::time::timeout]) turns [Hang] into its timeout error, and code
    without a deadline stays there. *)
From S2P Require Import Prelude Types Errors.

Inductive outcome (A : Type) : Type :=
| Done (r : result A)
| Hang.
Arguments Done {A} r.
Arguments Hang {A}.

Definition io (S A : Type) : Type := S → outcome A * S.

Section Io.
Context {S : Type}.

Definition io_lift {A} (r : result A) : io S A := λ s, (Done r, s).
Definition io_ret {A} (a : A) : io S A := io_lift (Ok a).
Definition io_get {A} (f : S → A) : io S A := λ s, (Done (Ok (f s)), s).
Definition io_modify (f : S → S) : io S unit := λ s, (Done (Ok tt), f s).

(** [.await?] *)
Definition io_bind {A B} (m : io S A) (k : A → io S B) : io S B := λ s,
  let '(o, s') := m s in
  match o with
  | Done (Ok a) => k a s'
  | Done (Err e) => (Done (Err e), s')
  | Done Panic => (Done Panic, s')
  | Hang => (Hang, s')
  end.

(** [.await] whose error the caller inspects. *)
Definition io_try {A} (m : io S A) : io S (result A) := λ s,
  let '(o, s') := m s in
  match o with
  | Done Panic => (Done Panic, s')
  | Done r => (Done (Ok r), s')
  | Hang => (Hang, s')
  end.

(** [time::timeout(d, m)], its elapsed error mapped to [e]. *)
Definition io_timeout {A} (e : DcpError) (m : io S A) : io S A := λ s,
  let '(o, s') := m s in
  match o with
  | Hang => (Done (Err e), s')
  | o => (o, s')
  end.

(** A [for] loop whose body awaits. *)
Fixpoint io_for {A} (l : list A) (body : A → io S unit) : io S unit :=
  match l with
  | [] => io_ret tt
  | x :: l => io_bind (body x) (λ _, io_for l body)
  end.
End Io.

(** Running a computation on a component of a larger state. *)
Definition io_zoom {S T A} (get : T → S) (set : S → T → T) (m : io S A) : io T A := λ t,
  let '(o, s') := m (get t) in (o, set s' t).

Notation "'let!' x ':=' m 'in' k" := (io_bind m (λ x, k))
  (at level 10, x name, m at level 200, k at level 200) : res_scope.
Notation "'do!' m 'in' k" := (io_bind m (λ _, k))
  (at level 10, m at level 200, k at level 200) : res_scope.

(** Inversion of a successful sequence. *)
Lemma io_bind_ok {S A B} (m : io S A) (k : A → io S B) s b s' :
  io_bind m k s = (Done (Ok b), s') →
  ∃ a s1, m s = (Done (Ok a), s1) ∧ k a s1 = (Done (Ok b), s').
Proof. unfold io_bind. destruct (m s) as [[[a|e|]|] s1]; [eauto|done..]. Qed.

Lemma io_timeout_ok {S A} e (m : io S A) s a s' :
  io_timeout e m s = (Done (Ok a), s') → m s = (Done (Ok a), s').
Proof. unfold io_timeout. by destruct (m s) as [[[?|?|]|] ?]. Qed.

(** An invariant every step keeps is kept by the sequence, whatever its outcome. *)
Lemma io_bind_inv {S A B} (P : S → Prop) (m : io S A) (k : A → io S B) s :
  P (m s).2 → (∀ a s1, m s = (Done (Ok a), s1) → P s1 → P (k a s1).2) →
  P (io_bind m k s).2.
Proof.
  intros Hm Hk. unfold io_bind. destruct (m s) as [[[a|e|]|] s1] eqn:H; try done.
  by apply Hk.
Qed.

Lemma io_for_inv {S A} (P : S → Prop) (l : list A) (body : A → io S unit) s :
  (∀ x s1, x ∈ l → P s1 → P (body x s1).2) → P s → P (io_for l body s).2.
Proof.
  revert s. induction l as [|x l IH]; intros s Hb Hs; cbn [io_for]; [done|].
  apply io_bind_inv; [apply Hb; [left|done]|].
  intros [] s1 H1 Hs1. apply IH; [|done]. intros y s2 Hy. apply Hb. by right.
Qed.

(** A computation that always ends, and never in a panic. *)
Definition io_total {S A} (m : io S A) : Prop :=
  ∀ s, (m s).1 ≠ Hang ∧ (m s).1 ≠ Done Panic.

Lemma io_total_lift {S A} (r : result A) : r ≠ Panic → io_total (S:=S) (io_lift r).
Proof. intros Hr s. split; [done|]. by intros [= ?]. Qed.
Lemma io_total_ret {S A} (a : A) : io_total (S:=S) (io_ret a).
Proof. by apply io_total_lift. Qed.
Lemma io_total_modify {S} (f : S → S) : io_total (io_modify f).
Proof. by intros s. Qed.
Lemma io_total_bind {S A B} (m : io S A) (k : A → io S B) :
  io_total m → (∀ a, io_total (k a)) → io_total (io_bind m k).
Proof.
  intros Hm Hk s. unfold io_bind. destruct (Hm s) as [H1 H2].
  destruct (m s) as [[[a|e|]|] s1]; cbn in *; [apply Hk|done..].
Qed.
Lemma io_total_try {S A} (m : io S A) : io_total m → io_total (io_try m).
Proof.
  intros Hm s. destruct (Hm s) as [H1 H2]. unfold io_try.
  by destruct (m s) as [[[a|e|]|] s1].
Qed.

(** ** Weakest preconditions: reasoning forwards through an [async fn] *)
Definition wp {S A} (m : io S A) (Q : outcome A → S → Prop) (s : S) : Prop := Q (m s).1 (m s).2.

Lemma wp_mono {S A} (m : io S A) (Q R : outcome A → S → Prop) s :
  wp m Q s → (∀ o s', Q o s' → R o s') → wp m R s.
Proof. unfold wp. auto. Qed.
Lemma wp_lift {S A} (r : result A) (Q : outcome A → S → Prop) s : Q (Done r) s → wp (io_lift r) Q s.
Proof. done. Qed.
Lemma wp_ret {S A} (a : A) (Q : outcome A → S → Prop) s : Q (Done (Ok a)) s → wp (io_ret a) Q s.
Proof. done. Qed.
Lemma wp_get {S A} (f : S → A) (Q : outcome A → S → Prop) s :
  Q (Done (Ok (f s))) s → wp (io_get f) Q s.
Proof. done. Qed.
(** Every outcome but success leaves the sequence. *)
Definition leaves {A B} (o : outcome A) (o' : outcome B) : Prop :=
  match o with
  | Done (Ok _) => False
  | Done (Err e) => o' = Done (Err e)
  | Done Panic => o' = Done Panic
  | Hang => o' = Hang
  end.
Lemma wp_bind {S A B} (m : io S A) (k : A → io S B) (Q : outcome B → S → Prop) s :
  wp m (λ o s', (∀ a, o = Done (Ok a) → wp (k a) Q s')
                ∧ ∀ o', leaves o o' → Q o' s') s → wp (io_bind m k) Q s.
Proof.
  unfold wp, io_bind. destruct (m s) as [[[a|e|]|] s1]; cbn; intros [H1 H2];
    [by apply (H1 a)|by apply H2..].
Qed.
Lemma wp_try {S A} (m : io S A) (Q : outcome (result A) → S → Prop) s :
  wp m (λ o s', (∀ r, o = Done r → r ≠ Panic → Q (Done (Ok r)) s')
                ∧ (o = Done Panic → Q (Done Panic) s') ∧ (o = Hang → Q Hang s')) s →
  wp (io_try m) Q s.
Proof.
  unfold wp, io_try. destruct (m s) as [[[a|e|]|] s1]; cbn; intros (H1 & H2 & H3);
    [by apply H1|by apply H1|by apply H2|by apply H3].
Qed.
Lemma wp_run {S A} (m : io S A) (Q : outcome A → S → Prop) s o s' :
  wp m Q s → m s = (o, s') → Q o s'.
Proof. unfold wp. intros HQ Hm. by rewrite Hm in HQ. Qed.
Lemma leaves_inv {A B} (o : outcome A) (o' : outcome B) :
  leaves o o' → (∀ b, o' ≠ Done (Ok b)) ∧ (o ≠ Done Panic → o' ≠ Done Panic).
Proof.
  destruct o as [[a|e|]|]; cbn; [done|..]; intros ->; (split; [intros b; discriminate|congruence]).
Qed.

(** After [wp_bind]: the call returned a value, or its outcome leaves the sequence. *)
Ltac wp_ok := split; [intros ? [= <-]|by intros ? []].
Ltac wp_leave := split; [done|intros ? ->].
