(* ===== verification/Transport.v ===== *)
(** * The framed connection ([rust-dcp-core/src/transport.rs])

    [KvConnection]: request/response correlation over one framed byte stream.  The socket is
    the environment: [kc_reads] is what the framed stream yields to successive reads and
    [kc_writes] what becomes of successive writes; [kc_sent] records the frames written.
    The Snappy codec is the class [Snappy]. *)
From S2P Require Import Prelude Types Frame Codec Errors Async.

Definition SNAPPY_DATATYPE_FLAG : Z := 0x02.
Definition MAX_DECOMPRESSED_VALUE_SIZE : Z := 32 * 1024 * 1024.

(** [snap::raw]: errors are their display text. *)
Class Snappy : Type := {
  decompress_len : bytes → string + Z;
  decompress_vec : bytes → string + bytes
}.

(** What the framed stream yields: a decoded frame with the time it arrived, a codec or
    I/O error, the end of the stream, or nothing before the reader's deadline. *)
Inductive ReadEvent : Type :=
| RFrame (f : Frame) (now : Z)
| RError (e : ProtocolError)
| RClosed
| RSilence.

Inductive WriteEvent : Type :=
| WAccepted
| WError (e : ProtocolError)
| WBlocked.

Record KvConnection : Type := mkKvConnection {
  kc_codec : FrameCodec;
  kc_peer : string;
  kc_request_timeout : Duration;
  kc_next_opaque : Z;
  kc_pending : list Frame;
  kc_last_inbound_activity : Z;
  kc_snappy_enabled : bool;
  kc_reads : list ReadEvent;
  kc_writes : list WriteEvent;
  kc_sent : list Frame
}.

Definition from_io (peer : string) (request_timeout : Duration) (now : Z)
    (reads : list ReadEvent) (writes : list WriteEvent) : KvConnection :=
  mkKvConnection codec_default peer request_timeout 1 [] now false reads writes [].

Definition set_codec (x : FrameCodec) (c : KvConnection) : KvConnection :=
  mkKvConnection x (kc_peer c) (kc_request_timeout c) (kc_next_opaque c) (kc_pending c)
    (kc_last_inbound_activity c) (kc_snappy_enabled c) (kc_reads c) (kc_writes c) (kc_sent c).
Definition set_next_opaque (x : Z) (c : KvConnection) : KvConnection :=
  mkKvConnection (kc_codec c) (kc_peer c) (kc_request_timeout c) x (kc_pending c)
    (kc_last_inbound_activity c) (kc_snappy_enabled c) (kc_reads c) (kc_writes c) (kc_sent c).
Definition set_pending (x : list Frame) (c : KvConnection) : KvConnection :=
  mkKvConnection (kc_codec c) (kc_peer c) (kc_request_timeout c) (kc_next_opaque c) x
    (kc_last_inbound_activity c) (kc_snappy_enabled c) (kc_reads c) (kc_writes c) (kc_sent c).
Definition set_activity (x : Z) (c : KvConnection) : KvConnection :=
  mkKvConnection (kc_codec c) (kc_peer c) (kc_request_timeout c) (kc_next_opaque c)
    (kc_pending c) x (kc_snappy_enabled c) (kc_reads c) (kc_writes c) (kc_sent c).
Definition set_reads (x : list ReadEvent) (c : KvConnection) : KvConnection :=
  mkKvConnection (kc_codec c) (kc_peer c) (kc_request_timeout c) (kc_next_opaque c)
    (kc_pending c) (kc_last_inbound_activity c) (kc_snappy_enabled c) x (kc_writes c)
    (kc_sent c).
Definition set_written (w : list WriteEvent) (x : list Frame) (c : KvConnection)
    : KvConnection :=
  mkKvConnection (kc_codec c) (kc_peer c) (kc_request_timeout c) (kc_next_opaque c)
    (kc_pending c) (kc_last_inbound_activity c) (kc_snappy_enabled c) (kc_reads c) w x.

Definition set_snappy_enabled (x : bool) (c : KvConnection) : KvConnection :=
  mkKvConnection (kc_codec c) (kc_peer c) (kc_request_timeout c) (kc_next_opaque c)
    (kc_pending c) (kc_last_inbound_activity c) x (kc_reads c) (kc_writes c) (kc_sent c).
Definition set_collections_enabled (x : bool) (c : KvConnection) : KvConnection :=
  set_codec (with_collections x (kc_codec c)) c.

(** [framed.send]: the codec encodes the frame, then the socket takes it. *)
Definition send_frame (f : Frame) : io KvConnection unit := λ c,
  match (encode (kc_codec c) f []).1 with
  | Err e => (Done (Err (Protocol e)), c)
  | Panic => (Done Panic, c)
  | Ok _ =>
      match kc_writes c with
      | [] => (Done (Ok tt), set_written [] (kc_sent c ++ [f]) c)
      | WAccepted :: w => (Done (Ok tt), set_written w (kc_sent c ++ [f]) c)
      | WError e :: w => (Done (Err (Protocol e)), set_written w (kc_sent c) c)
      | WBlocked :: w => (Hang, set_written w (kc_sent c) c)
      end
  end.

(** [wrapping_add(1).max(1)] *)
Definition allocate_opaque : io KvConnection Z := λ c,
  let opaque := kc_next_opaque c in
  (Done (Ok opaque), set_next_opaque (Z.max ((opaque + 1) `mod` 2 ^ 32) 1) c).

Section Transport.
Context `{Snappy}.

Definition decode_inbound_frame (snappy_enabled : bool) (f : Frame) : result Frame :=
  if Z.land (datatype f) SNAPPY_DATATYPE_FLAG =? 0 then Ok f
  else if negb snappy_enabled then
    Err (Protocol (MalformedFrame
      "received a Snappy-compressed value without HELLO negotiation"))
  else
    match decompress_len (value f) with
    | inl e => Err (Protocol (MalformedFrame ("invalid Snappy value header: " +:+ e)))
    | inr n =>
        if MAX_DECOMPRESSED_VALUE_SIZE <? n then
          Err (Protocol (InvalidLength ("Snappy value expands to " +:+ pretty n
            +:+ " bytes, exceeding maximum " +:+ pretty MAX_DECOMPRESSED_VALUE_SIZE)))
        else
          match decompress_vec (value f) with
          | inl e => Err (Protocol (MalformedFrame ("invalid Snappy value: " +:+ e)))
          | inr v =>
              Ok (set_datatype (Z.land (datatype f) (255 - SNAPPY_DATATYPE_FLAG))
                    (set_value v f))
          end
    end.

(** One event of the framed stream, as [read_raw] takes it. *)
Definition take_read (ev : ReadEvent) : io KvConnection Frame := λ c,
  match ev with
  | RFrame f now =>
      let c := set_activity now c in (Done (decode_inbound_frame (kc_snappy_enabled c) f), c)
  | RError e => (Done (Err (Protocol e)), c)
  | RClosed =>
      (Done (Err (DcpIo ("KV peer " +:+ kc_peer c +:+ " closed the connection"))), c)
  | RSilence => (Hang, c)
  end.

Definition read_raw : io KvConnection Frame := λ c,
  match kc_reads c with
  | [] => (Hang, c)
  | ev :: rest => take_read ev (set_reads rest c)
  end.

Definition receive_frame : io KvConnection Frame := λ c,
  match kc_pending c with
  | f :: rest => (Done (Ok f), set_pending rest c)
  | [] => read_raw c
  end.

(** The [loop] of [request]: frames that do not answer it are kept for later. *)
Fixpoint await_response (opaque_id : Z) (reads : list ReadEvent) : io KvConnection Frame := λ c,
  match reads with
  | [] => (Hang, c)
  | ev :: rest =>
      let '(o, c) := take_read ev (set_reads rest c) in
      match o with
      | Done (Ok f) =>
          if magic_is_response (magic f) && (opaque f =? opaque_id) then (Done (Ok f), c)
          else await_response opaque_id rest (set_pending (kc_pending c ++ [f]) c)
      | o => (o, c)
      end
  end.

Definition conn_request (req : Frame) : io KvConnection Frame :=
  let! req := (if opaque req =? 0
               then let! o := allocate_opaque in io_ret (set_opaque o req)
               else io_ret req) in
  let! d := io_get kc_request_timeout in
  io_timeout (Timeout d)
    (do! send_frame req in
     λ c, await_response (opaque req) (kc_reads c) c).

(** ** [request_batch] *)

(** Explicit opaques claim their slots first. *)
Fixpoint claim_explicit (index : Z) (requests : list Frame) (slots : gmap Z Z)
    : result (gmap Z Z) :=
  match requests with
  | [] => Ok slots
  | r :: requests =>
      if opaque r =? 0 then claim_explicit (index + 1) requests slots
      else match slots !! opaque r with
           | Some _ => Err (InvalidConfiguration
               ("request batch contains duplicate opaque " +:+ pretty (opaque r)))
           | None => claim_explicit (index + 1) requests (<[opaque r := index]> slots)
           end
  end.

(** Allocation skips opaques already claimed; one more attempt than there are claims is
    enough ([allocate_free_total]). *)
Fixpoint allocate_free (fuel : nat) (slots : gmap Z Z) : io KvConnection Z :=
  match fuel with
  | O => λ c, (Hang, c)
  | S fuel =>
      let! o := allocate_opaque in
      match slots !! o with
      | None => io_ret o
      | Some _ => allocate_free fuel slots
      end
  end.

Fixpoint assign_opaques (index : Z) (requests : list Frame) (slots : gmap Z Z)
    : io KvConnection (list Frame * gmap Z Z) :=
  match requests with
  | [] => io_ret ([], slots)
  | r :: requests =>
      if opaque r =? 0 then
        let! o := allocate_free (S (size slots)) slots in
        let! assigned := assign_opaques (index + 1) requests (<[o := index]> slots) in
        io_ret (set_opaque o r :: assigned.1, assigned.2)
      else
        let! assigned := assign_opaques (index + 1) requests slots in
        io_ret (r :: assigned.1, assigned.2)
  end.

(** The [while] loop over outstanding responses; [responses[index] = Some(frame)]. *)
Fixpoint await_batch (reads : list ReadEvent) (slots : gmap Z Z)
    (responses : list (option Frame)) : io KvConnection (list (option Frame)) := λ c,
  if decide (slots = ∅) then (Done (Ok responses), c)
  else match reads with
  | [] => (Hang, c)
  | ev :: rest =>
      let '(o, c) := take_read ev (set_reads rest c) in
      match o with
      | Done (Ok f) =>
          match (if magic_is_response (magic f) then slots !! opaque f else None) with
          | Some index =>
              if Z.to_nat index <? length responses then
                await_batch rest (delete (opaque f) slots)
                  (<[Z.to_nat index := Some f]> responses) c
              else (Done Panic, c)
          | None => await_batch rest slots responses (set_pending (kc_pending c ++ [f]) c)
          end
      | Done (Err e) => (Done (Err e), c)
      | Done Panic => (Done Panic, c)
      | Hang => (Hang, c)
      end
  end%nat.

Definition request_batch (requests : list Frame) : io KvConnection (list Frame) :=
  let! slots := io_lift (claim_explicit 0 requests ∅) in
  let! assigned := assign_opaques 0 requests slots in
  let '(requests, slots) := assigned in
  match requests with
  | [] => io_ret []
  | _ =>
      let! d := io_get kc_request_timeout in
      io_timeout (Timeout d)
        (do! io_for requests send_frame in
         let! responses := (λ c, await_batch (kc_reads c) slots
                                   (replicate (length requests) None) c) in
         io_lift (mapM_res (λ r, ok_or r (Protocol (MalformedFrame
           "request batch completed without every response"))) responses))
  end.
End Transport.

(** ** Lemmas *)

(** What reads deliver once compressed values are expanded, unreadable events apart. *)
Definition inbound_frame `{Snappy} (enabled : bool) (ev : ReadEvent) : option Frame :=
  match ev with
  | RFrame f _ => match decode_inbound_frame enabled f with Ok f => Some f | _ => None end
  | _ => None
  end.

(** The response of [opaque_id]. *)
Definition answers (opaque_id : Z) (f : Frame) : bool :=
  magic_is_response (magic f) && (opaque f =? opaque_id).

(** The parts of a connection an exchange leaves alone. *)
Definition same_link (c c' : KvConnection) : Prop :=
  kc_codec c' = kc_codec c ∧ kc_peer c' = kc_peer c
  ∧ kc_request_timeout c' = kc_request_timeout c
  ∧ kc_snappy_enabled c' = kc_snappy_enabled c.

#[export] Instance same_link_preorder : PreOrder same_link.
Proof. split; [by intros c|intros ??? (?&?&?&?) (?&?&?&?)]. repeat split; congruence. Qed.

Section Lemmas.
Context `{Snappy}.

Lemma decode_inbound_no_panic en f : decode_inbound_frame en f ≠ Panic.
Proof. unfold decode_inbound_frame. by repeat case_match. Qed.

Lemma take_read_spec ev c :
  let '(o, c') := take_read ev c in
  same_link c c' ∧ kc_reads c' = kc_reads c ∧ kc_pending c' = kc_pending c
  ∧ kc_sent c' = kc_sent c ∧ kc_writes c' = kc_writes c
  ∧ kc_next_opaque c' = kc_next_opaque c
  ∧ o ≠ Done Panic
  ∧ inbound_frame (kc_snappy_enabled c) ev = match o with Done (Ok f) => Some f | _ => None end.
Proof.
  destruct ev; cbn; repeat split; try done.
  - intros Hp. injection Hp. apply decode_inbound_no_panic.
Qed.

(** Every frame an exchange reads is either its answer or kept, in order, for later. *)
Lemma await_response_spec id : ∀ reads c o c',
  kc_reads c = reads →
  await_response id reads c = (o, c') →
  ∃ consumed skipped,
    reads = consumed ++ kc_reads c' ∧ kc_pending c' = kc_pending c ++ skipped
    ∧ Forall (λ f, answers id f = false) skipped
    ∧ omap (inbound_frame (kc_snappy_enabled c)) consumed
      = skipped ++ match o with Done (Ok f) => [f] | _ => [] end
    ∧ (∀ f, o = Done (Ok f) → answers id f = true)
    ∧ o ≠ Done Panic
    ∧ same_link c c' ∧ kc_sent c' = kc_sent c ∧ kc_next_opaque c' = kc_next_opaque c.
Proof.
  induction reads as [|ev rest IH]; intros c o c' Hr Hrun; cbn [await_response] in Hrun.
  - simplify_eq. exists [], []. rewrite Hr. split_and!; by rewrite ?app_nil_r.
  - pose proof (take_read_spec ev (set_reads rest c)) as Ht.
    destruct (take_read ev (set_reads rest c)) as [o1 c1].
    destruct Ht as (Hl & Hr1 & Hp1 & Hs1 & _ & Hn1 & Hnp & Hin).
    cbn [kc_reads kc_pending kc_sent kc_next_opaque kc_snappy_enabled set_reads] in *.
    assert (same_link c c1) as Hl' by done.
    destruct o1 as [[f|e|]|].
    1: destruct (magic_is_response (magic f) && (opaque f =? id)) eqn:Ha.
    2: { destruct (IH (set_pending (kc_pending c1 ++ [f]) c1) o c') as
           (consumed & skipped & -> & Hp & Hf & Ho & Hans & Hnp' & Hlink & Hs & Hn); [done..|].
         exists (ev :: consumed), (f :: skipped). split_and!; try done.
         - rewrite Hp. cbn [kc_pending set_pending]. by rewrite Hp1, <-app_assoc.
         - by constructor.
         - cbn [omap list_omap]. rewrite Hin. cbn [app]. f_equal. rewrite <-Ho.
           destruct Hl as (_ & _ & _ & Hsn). cbn in Hsn. by cbn; rewrite Hsn.
         - etrans; [exact Hl'|]. exact Hlink.
         - by rewrite Hs.
         - by rewrite Hn. }
    all: simplify_eq; exists [ev], []; rewrite app_nil_r.
    all: split_and!; try done; try (by rewrite Hr1); cbn [omap list_omap]; rewrite ?Hin; try done.
    by intros f' [= <-].
Qed.

Lemma send_frame_spec f c :
  let '(o, c') := send_frame f c in
  kc_reads c' = kc_reads c ∧ kc_pending c' = kc_pending c ∧ same_link c c'
  ∧ kc_next_opaque c' = kc_next_opaque c
  ∧ kc_sent c' = kc_sent c ++ (match o with Done (Ok _) => [f] | _ => [] end).
Proof.
  unfold send_frame.
  destruct (encode _ _ _).1 as [[]|e|]; [destruct (kc_writes c) as [|[|e|] w]|..];
    cbn [kc_reads kc_pending kc_next_opaque kc_sent set_written]; rewrite ?app_nil_r; done.
Qed.

Lemma send_frame_no_panic f c : (send_frame f c).1 ≠ Done Panic.
Proof.
  unfold send_frame. pose proof (encode_no_panic (kc_codec c) f []).
  by destruct (encode _ _ _).1; [repeat case_match|..].
Qed.

(** ** Opaque allocation *)

(** The successor of an opaque: zero is skipped when the counter wraps. *)
Definition next_opaque_of (o : Z) : Z := Z.max ((o + 1) `mod` 2 ^ 32) 1.
Definition valid_opaque (o : Z) : Prop := 1 ≤ o ≤ u32_max.

Lemma next_opaque_cases o : valid_opaque o →
  (o < u32_max ∧ next_opaque_of o = o + 1) ∨ (o = u32_max ∧ next_opaque_of o = 1).
Proof.
  unfold valid_opaque, next_opaque_of. unfold_ranges. intros Ho.
  destruct (decide (o = 4294967295)) as [->|]; [by right|left].
  rewrite Z.mod_small by lia. lia.
Qed.
Lemma next_opaque_valid o : valid_opaque o → valid_opaque (next_opaque_of o).
Proof.
  intros Ho. pose proof (next_opaque_cases o Ho) as [[? ->]|[? ->]];
    unfold valid_opaque in *; unfold_ranges; lia.
Qed.

(** The opaques of [n] successive allocations. *)
Fixpoint opaque_run (n : nat) (o : Z) : list Z :=
  match n with O => [] | S n => o :: opaque_run n (next_opaque_of o) end.

Lemma opaque_run_elem n : ∀ o x, valid_opaque o → (Z.of_nat n ≤ u32_max) →
  x ∈ opaque_run n o → (o ≤ x < o + Z.of_nat n ∨ (1 ≤ x < o + Z.of_nat n - u32_max)).
Proof.
  induction n as [|n IH]; intros o x Ho Hn; cbn [opaque_run].
  { by intros ?%elem_of_nil. }
  intros [-> |Hx]%elem_of_cons; [lia|].
  apply IH in Hx; [|by apply next_opaque_valid|lia].
  pose proof (next_opaque_cases o Ho) as [[? Hnx]|[? Hnx]]; rewrite Hnx in Hx;
    unfold valid_opaque in *; lia.
Qed.
Lemma opaque_run_NoDup n : ∀ o, valid_opaque o → (Z.of_nat n ≤ u32_max) →
  NoDup (opaque_run n o).
Proof.
  induction n as [|n IH]; intros o Ho Hn; cbn [opaque_run]; constructor.
  - intros Hx%opaque_run_elem; [|by apply next_opaque_valid|lia].
    pose proof (next_opaque_cases o Ho) as [[? Hnx]|[? Hnx]]; rewrite Hnx in Hx;
      unfold valid_opaque in *; unfold_ranges; lia.
  - apply IH; [by apply next_opaque_valid|lia].
Qed.

(** Allocation only moves the counter. *)
Definition only_counter (c c' : KvConnection) : Prop :=
  c' = set_next_opaque (kc_next_opaque c') c ∧ valid_opaque (kc_next_opaque c').

Lemma only_counter_trans c1 c2 c3 :
  only_counter c1 c2 → only_counter c2 c3 → only_counter c1 c3.
Proof. intros [-> ?] [-> ?]. by split. Qed.

Lemma allocate_free_spec fuel slots : ∀ c, valid_opaque (kc_next_opaque c) →
  let '(r, c') := allocate_free fuel slots c in
  only_counter c c'
  ∧ (match r with
     | Done (Ok o) => valid_opaque o ∧ slots !! o = None
     | Done _ => False
     | Hang => ∀ x, x ∈ opaque_run fuel (kc_next_opaque c) → is_Some (slots !! x)
     end).
Proof.
  induction fuel as [|fuel IH]; intros c Hc; cbn [allocate_free].
  { destruct c; split; [done|]. by intros x ?%elem_of_nil. }
  unfold io_bind, allocate_opaque. cbn beta iota zeta.
  change (Z.max _ _) with (next_opaque_of (kc_next_opaque c)).
  pose proof (next_opaque_valid _ Hc) as Hn.
  assert (only_counter c (set_next_opaque (next_opaque_of (kc_next_opaque c)) c)) as Hoc
    by done.
  destruct (slots !! kc_next_opaque c) eqn:Hs; [|done].
  specialize (IH (set_next_opaque (next_opaque_of (kc_next_opaque c)) c) Hn).
  destruct (allocate_free fuel slots _) as [r c']. destruct IH as [Hoc' Hr].
  split; [by eapply only_counter_trans|].
  destruct r as [[o|e|]|]; [done..|]. intros x [-> |Hx]%elem_of_cons; [by eexists|].
  by apply Hr.
Qed.

(** Pigeonhole: one more attempt than there are claimed opaques finds a free one. *)
Lemma allocate_free_total slots c :
  valid_opaque (kc_next_opaque c) → Z.of_nat (size slots) < u32_max →
  ∃ o c', allocate_free (S (size slots)) slots c = (Done (Ok o), c')
    ∧ valid_opaque o ∧ slots !! o = None ∧ only_counter c c'.
Proof.
  intros Hc Hsz. pose proof (allocate_free_spec (S (size slots)) slots c Hc) as H1.
  destruct (allocate_free _ _ c) as [[[o|e|]|] c']; destruct H1 as [Hoc Hr];
    [by destruct Hr; eauto 8|done..|].
  exfalso. set (run := opaque_run (S (size slots)) (kc_next_opaque c)) in *.
  assert (NoDup run) as Hnd by (apply opaque_run_NoDup; [done|lia]).
  assert (list_to_set run ⊆ dom slots) as Hsub.
  { intros x. rewrite elem_of_list_to_set, elem_of_dom. apply Hr. }
  apply subseteq_size in Hsub. rewrite size_list_to_set, size_dom in Hsub by done.
  assert (∀ n o, length (opaque_run n o) = n) as Hlen.
  { intros n. induction n as [|n IH]; intros o; cbn; [done|]. by rewrite IH. }
  unfold run in Hsub. rewrite Hlen in Hsub. lia.
Qed.

(** ** Batches *)

(** The slot table of a batch: each claimed opaque with the request that carries it. *)
Definition slots_of (requests : list Frame) (slots : gmap Z Z) : Prop :=
  ∀ o i, slots !! o = Some i ↔
    o ≠ 0 ∧ 0 ≤ i ∧ opaque <$> requests !! Z.to_nat i = Some o.

Lemma slots_of_snoc l r slots :
  slots_of l slots →
  (opaque r = 0 → slots_of (l ++ [r]) slots)
  ∧ (opaque r ≠ 0 → slots !! opaque r = None →
     slots_of (l ++ [r]) (<[opaque r := len l]> slots)).
Proof.
  intros Hs.
  assert (∀ i o, opaque <$> (l ++ [r]) !! Z.to_nat i = Some o ↔
    opaque <$> l !! Z.to_nat i = Some o ∨ (Z.to_nat i = length l ∧ opaque r = o)) as Hsn.
  { intros i o. destruct (decide (Z.to_nat i < length l)%nat).
    - rewrite lookup_app_l by done. split; [by left|]. by intros [?|[? _]]; [|lia].
    - rewrite lookup_app_r, list_lookup_singleton by lia.
      rewrite (lookup_ge_None_2 l) by lia. case_match eqn:Hi; cbn; [|split; [done|]].
      + split; [intros [= <-]; right; split; [lia|done]|]. by intros [?|[_ ->]].
      + intros [?|[? _]]; [done|]. lia. }
  split.
  - intros H0 o i. rewrite (Hs o i), Hsn. split; [intros (? & ? & ?); by eauto|].
    intros (? & ? & [?|[? ?]]); [done|congruence].
  - intros H0 Hfree o i. rewrite lookup_insert_Some, (Hs o i), Hsn. unfold len. split.
    + intros [[<- <-]|(? & ? & ? & ?)]; [|by eauto]. split_and!; [done|lia|].
      right. split; [lia|done].
    + intros (? & ? & [?|[? <-]]); [|left; split; [done|lia]].
      right. split; [|done]. intros <-.
      assert (slots !! opaque r = Some i) by by apply Hs. congruence.
Qed.

Lemma claim_explicit_spec rest : ∀ l slots, slots_of l slots →
  match claim_explicit (len l) rest slots with
  | Ok slots' => slots_of (l ++ rest) slots'
  | Err _ => ¬ NoDup (List.filter (λ o, negb (o =? 0)) (opaque <$> (l ++ rest)))
  | Panic => False
  end.
Proof.
  induction rest as [|r rest IH]; intros l slots Hs; cbn [claim_explicit];
    [by rewrite app_nil_r|].
  destruct (slots_of_snoc l r slots Hs) as [H0 H1].
  assert (len l + 1 = len (l ++ [r])) as Hlen by (rewrite len_app; done).
  replace (l ++ r :: rest) with ((l ++ [r]) ++ rest) by by rewrite <-app_assoc.
  destruct (Z.eqb_spec (opaque r) 0) as [Hz|Hz]; [rewrite Hlen; by apply IH, H0|].
  destruct (slots !! opaque r) as [i|] eqn:Hr; [|rewrite Hlen; by apply IH, H1].
  apply Hs in Hr as (_ & Hi & Hl). destruct (l !! Z.to_nat i) as [q|] eqn:Hq; [|done].
  injection Hl as Hl. rewrite !fmap_app, !List.filter_app. cbn [fmap list_fmap List.filter].
  rewrite (proj2 (Z.eqb_neq _ _) Hz). cbn [negb]. intros Hnd. apply NoDup_app in Hnd as (Hnd & _).
  apply NoDup_app in Hnd as (_ & Hnd & _). apply (Hnd (opaque r)); [|left].
  apply list_elem_of_In, filter_In. rewrite <-Hl. split.
  - apply list_elem_of_In, list_elem_of_fmap_2. by eapply list_elem_of_lookup_2.
  - rewrite Hl. by rewrite (proj2 (Z.eqb_neq _ _) Hz).
Qed.

(** A request keeps everything but a zero opaque. *)
Definition assigned (r r' : Frame) : Prop :=
  r' = set_opaque (opaque r') r ∧ (opaque r ≠ 0 → opaque r' = opaque r) ∧ opaque r' ≠ 0.

Lemma slots_of_replace l r r' rest slots :
  slots_of (l ++ r :: rest) slots → opaque r = 0 → opaque r' ≠ 0 →
  slots !! opaque r' = None →
  slots_of (l ++ r' :: rest) (<[opaque r' := len l]> slots).
Proof.
  intros Hs H0 H1 Hfree o i.
  assert (∀ q, opaque <$> (l ++ q :: rest) !! Z.to_nat i = Some o ↔
    (Z.to_nat i = length l ∧ opaque q = o) ∨
    (Z.to_nat i ≠ length l ∧ opaque <$> (l ++ r :: rest) !! Z.to_nat i = Some o)) as Hq.
  { intros q. destruct (decide (Z.to_nat i = length l)) as [Hi|Hi].
    - rewrite Hi, !list_lookup_middle by done. cbn. split; [intros [= <-]; by left|].
      by intros [[_ <-]|[? _]].
    - destruct (decide (Z.to_nat i < length l)%nat) as [?|?].
      + rewrite !lookup_app_l by done. split; [by right|]. by intros [[? _]|[_ ?]].
      + rewrite !lookup_app_r by lia.
        destruct (Z.to_nat i - length l)%nat eqn:Hd; [lia|]. cbn. split; [by right|].
        by intros [[? _]|[_ ?]]. }
  rewrite lookup_insert_Some, (Hs o i), (Hq r'). pose proof (Hq r) as Hr.
  unfold len. split.
  - intros [[<- <-]|(? & ? & ? & Hp)]; [split_and!; [done|lia|left; split; [lia|done]]|].
    split_and!; [done..|]. right. apply Hr in Hp as [[? ?]|?]; [congruence|done].
  - intros (? & ? & [[? <-]|[? ?]]); [left; split; [done|lia]|].
    right. split; [|done]. intros <-.
    assert (slots !! opaque r' = Some i) by by apply Hs. congruence.
Qed.

Lemma slots_of_size l slots : slots_of l slots → (size slots ≤ length l)%nat.
Proof.
  intros Hs.
  assert (dom slots ⊆ list_to_set (opaque <$> l)) as Hsub.
  { intros o. rewrite elem_of_dom, elem_of_list_to_set. intros [i Hi].
    apply Hs in Hi as (_ & _ & Hi). destruct (l !! Z.to_nat i) eqn:Hl; [|done].
    injection Hi as <-. apply list_elem_of_fmap_2. by eapply list_elem_of_lookup_2. }
  apply subseteq_size in Hsub. rewrite size_dom in Hsub.
  etrans; [exact Hsub|]. clear.
  induction l as [|x l IH]; cbn [fmap list_fmap list_to_set foldr].
  { rewrite size_empty. lia. }
  cbn [length]. rewrite size_union_alt, size_singleton.
  etrans; [apply Nat.add_le_mono_l, subseteq_size, subseteq_difference_l; reflexivity|]. lia.
Qed.

Lemma slots_of_nodup l slots :
  slots_of l slots → Forall (λ r, opaque r ≠ 0) l → NoDup (opaque <$> l).
Proof.
  intros Hs Hnz. apply NoDup_alt. intros i j o.
  rewrite !list_lookup_fmap. intros Hi Hj.
  assert (o ≠ 0) as Ho.
  { destruct (l !! i) as [r|] eqn:Hr; [|done]. injection Hi as <-.
    by apply (Forall_lookup_1 _ _ _ _ Hnz Hr). }
  assert (slots !! o = Some (Z.of_nat i)) as H1
    by (apply Hs; rewrite Nat2Z.id; auto with lia).
  assert (slots !! o = Some (Z.of_nat j)) as H2
    by (apply Hs; rewrite Nat2Z.id; auto with lia).
  rewrite H1 in H2. injection H2. lia.
Qed.

(** Assignment always succeeds and leaves distinct, non-zero opaques. *)
Lemma assign_opaques_spec rest : ∀ l slots c,
  slots_of (l ++ rest) slots → Forall (λ r, opaque r ≠ 0) l →
  valid_opaque (kc_next_opaque c) → len (l ++ rest) < u32_max →
  ∃ rs slots' c', assign_opaques (len l) rest slots c = (Done (Ok (rs, slots')), c')
    ∧ slots_of (l ++ rs) slots' ∧ Forall2 assigned rest rs ∧ only_counter c c'.
Proof.
  induction rest as [|r rest IH]; intros l slots c Hs Hl Hc Hlen; cbn [assign_opaques].
  { exists [], slots, c. split_and!; try done. by destruct c. }
  assert (∀ r', len l + 1 = len (l ++ [r'])) as Hl1 by (intros; rewrite len_app; done).
  assert (∀ r', len ((l ++ [r']) ++ rest) < u32_max) as Hlen'.
  { intros r'. rewrite <-app_assoc. cbn [app]. rewrite !len_app, !len_cons in *. lia. }
  destruct (Z.eqb_spec (opaque r) 0) as [H0|H0].
  - assert (Z.of_nat (size slots) < u32_max) as Hsz.
    { pose proof (slots_of_size _ _ Hs). unfold len in Hlen. lia. }
    destruct (allocate_free_total slots c Hc Hsz) as (o & c1 & Hrun & Ho & Hfree & Hoc).
    unfold io_bind at 1. rewrite Hrun. cbn beta iota.
    assert (opaque (set_opaque o r) = o) as Hop by done.
    destruct (IH (l ++ [set_opaque o r]) (<[o := len l]> slots) c1) as
      (rs & slots' & c' & Hrun' & Hs' & Hall & Hoc').
    + rewrite <-app_assoc. apply (slots_of_replace l r (set_opaque o r) rest slots);
        rewrite ?Hop; [done..| |done]. unfold valid_opaque in Ho. lia.
    + apply Forall_app_2; [done|]. apply Forall_singleton. unfold valid_opaque in Ho. cbn. lia.
    + apply Hoc.
    + apply Hlen'.
    + rewrite <-Hl1 in Hrun'. unfold io_bind. rewrite Hrun'. cbn [fst snd].
      exists (set_opaque o r :: rs), slots', c'. split_and!; [done|..].
      * by rewrite <-app_assoc in Hs'.
      * constructor; [|done]. split; [done|]. unfold valid_opaque in Ho. cbn. split; [done|lia].
      * by eapply only_counter_trans.
  - destruct (IH (l ++ [r]) slots c) as (rs & slots' & c' & Hrun' & Hs' & Hall & Hoc').
    + by rewrite <-app_assoc.
    + by apply Forall_app_2; [|apply Forall_singleton].
    + done.
    + apply Hlen'.
    + rewrite <-Hl1 in Hrun'. unfold io_bind. rewrite Hrun'. cbn [fst snd].
      exists (r :: rs), slots', c'. split_and!; [done|..|done].
      * by rewrite <-app_assoc in Hs'.
      * constructor; [|done]. split; [by destruct r|done].
Qed.

(** The loop of a batch: a slot is open or its response has arrived. *)
Record batch_inv (ids : list Z) (slots : gmap Z Z) (responses : list (option Frame)) : Prop := {
  bi_length : length responses = length ids;
  bi_open : ∀ o i, slots !! o = Some i →
    0 ≤ i ∧ ids !! Z.to_nat i = Some o ∧ responses !! Z.to_nat i = Some None;
  bi_cover : ∀ i o, ids !! i = Some o →
    slots !! o = Some (Z.of_nat i)
    ∨ ∃ f, responses !! i = Some (Some f) ∧ answers o f = true
}.

Lemma batch_inv_step ids slots responses o i f :
  NoDup ids → batch_inv ids slots responses → slots !! o = Some i → answers o f = true →
  batch_inv ids (delete o slots) (<[Z.to_nat i := Some f]> responses)
  ∧ (Z.to_nat i < length responses)%nat
  ∧ omap id (<[Z.to_nat i := Some f]> responses) ≡ₚ f :: omap id responses.
Proof.
  intros Hnd [Hl Ho Hc] Hi Hf. destruct (Ho _ _ Hi) as (H0 & Hid & Hr).
  assert (Z.to_nat i < length responses)%nat as Hlt by by eapply lookup_lt_Some.
  split_and!; [constructor|done|].
  - by rewrite length_insert.
  - intros o' i' [Hne Hi']%lookup_delete_Some. destruct (Ho _ _ Hi') as (? & Hid' & Hr').
    split_and!; [done..|]. rewrite list_lookup_insert_ne; [done|].
    intros Heq. rewrite Heq in Hid. congruence.
  - intros k o' Hk. destruct (decide (o = o')) as [<-|Hne].
    + right. exists f. split; [|done].
      assert (k = Z.to_nat i) as -> by (eapply NoDup_lookup; eauto).
      by rewrite list_lookup_insert_eq.
    + destruct (Hc _ _ Hk) as [?|(f' & Hf' & ?)];
        [left; by rewrite lookup_delete_ne|right; exists f'; split; [|done]].
      rewrite list_lookup_insert_ne; [done|]. intros <-. congruence.
  - rewrite insert_take_drop by done. apply take_drop_middle in Hr. rewrite <-Hr at 3.
    rewrite !omap_app. cbn [omap list_omap id]. by rewrite Permutation_middle.
Qed.

Lemma await_batch_spec ids reads : NoDup ids → ∀ slots responses c r c',
  batch_inv ids slots responses → kc_reads c = reads →
  await_batch reads slots responses c = (r, c') →
  r ≠ Done Panic ∧ same_link c c' ∧ kc_sent c' = kc_sent c
  ∧ kc_next_opaque c' = kc_next_opaque c
  ∧ ∀ rs, r = Done (Ok rs) →
    Forall2 (λ o x, ∃ f, x = Some f ∧ answers o f = true) ids rs
    ∧ ∃ consumed skipped, reads = consumed ++ kc_reads c'
      ∧ kc_pending c' = kc_pending c ++ skipped
      ∧ skipped `sublist_of` omap (inbound_frame (kc_snappy_enabled c)) consumed
      ∧ omap id responses ++ omap (inbound_frame (kc_snappy_enabled c)) consumed
        ≡ₚ skipped ++ omap id rs.
Proof.
  intros Hnd. induction reads as [|ev rest IH]; intros slots responses c r c' Hinv Hr Hrun;
    cbn [await_batch] in Hrun; destruct (decide (slots = ∅)) as [->|Hne].
  1,3: simplify_eq; split_and!; [done..|]; intros rs [= <-]; split;
    [|exists [], []; cbn; rewrite !app_nil_r; split_and!; [done..|by apply sublist_nil|done]].
  1,2: destruct Hinv as [Hl Ho Hc]; apply Forall2_same_length_lookup_2; [done|];
    intros i o x Hi Hx; destruct (Hc _ _ Hi) as [?|(f & Hf & ?)]; [set_solver|];
    exists f; split; [congruence|done].
  - by simplify_eq.
  - pose proof (take_read_spec ev (set_reads rest c)) as Ht.
    destruct (take_read ev (set_reads rest c)) as [o1 c1].
    destruct Ht as (Hl & Hr1 & Hp1 & Hs1 & _ & Hn1 & Hnp & Hin).
    cbn [kc_reads kc_pending kc_sent kc_next_opaque kc_snappy_enabled set_reads] in *.
    assert (same_link c c1) as Hl' by done.
    assert (kc_snappy_enabled c1 = kc_snappy_enabled c) as Hsn by apply Hl'.
    destruct o1 as [[f|e|]|]; [|simplify_eq; by split_and!..].
    destruct (if magic_is_response (magic f) then slots !! opaque f else None) as [i|] eqn:Hi.
    + destruct (magic_is_response (magic f)) eqn:Hm; [|done].
      assert (answers (opaque f) f = true) as Ha by (unfold answers; by rewrite Hm, Z.eqb_refl).
      destruct (batch_inv_step ids slots responses _ _ f Hnd Hinv Hi Ha) as (Hinv' & Hlt & Hperm).
      rewrite (proj2 (Nat.ltb_lt _ _) Hlt) in Hrun.
      apply IH in Hrun as (? & ? & ? & ? & Hok); [|done..].
      split_and!; [done|by etrans|congruence|congruence|]. intros rs Hrs.
      destruct (Hok rs Hrs) as (Hall & consumed & skipped & -> & Hp & Hsub & Hpm).
      split; [done|]. exists (ev :: consumed), skipped. rewrite Hsn in *.
      split_and!; [done|by rewrite Hp, Hp1|..]; cbn [omap list_omap]; rewrite Hin.
      * by apply sublist_cons.
      * rewrite <-Hpm, Hperm. by rewrite <-Permutation_middle.
    + apply IH in Hrun as (? & Hlk & ? & ? & Hok); [|done..].
      split_and!; [done|etrans; [exact Hl'|exact Hlk]|by etrans|by etrans|]. intros rs Hrs.
      destruct (Hok rs Hrs) as (Hall & consumed & skipped & -> & Hp & Hsub & Hpm).
      split; [done|]. exists (ev :: consumed), (f :: skipped).
      cbn [kc_snappy_enabled set_pending kc_pending] in *. rewrite Hsn in *.
      split_and!; [done|by rewrite Hp, Hp1, <-app_assoc|..]; cbn [omap list_omap]; rewrite Hin.
      * by apply sublist_skip.
      * rewrite <-Permutation_middle, Hpm. done.
Qed.

Lemma send_all_spec l : ∀ c r c', io_for l send_frame c = (r, c') →
  r ≠ Done Panic ∧ same_link c c' ∧ kc_reads c' = kc_reads c ∧ kc_pending c' = kc_pending c
  ∧ kc_next_opaque c' = kc_next_opaque c
  ∧ (∀ u, r = Done (Ok u) → kc_sent c' = kc_sent c ++ l).
Proof.
  induction l as [|f l IH]; intros c r c' Hrun; cbn [io_for] in Hrun.
  { injection Hrun as <- <-. split_and!; try done. intros. by rewrite app_nil_r. }
  unfold io_bind in Hrun. pose proof (send_frame_spec f c) as Hs.
  pose proof (send_frame_no_panic f c) as Hnp.
  destruct (send_frame f c) as [[[[]|e|]|] c1]; destruct Hs as (Hr & Hp & Hl & Hn & Hs);
    [|simplify_eq; by split_and!..].
  apply IH in Hrun as (Hnp' & Hl' & Hr' & Hp' & Hn' & Hs').
  split_and!; [done|by etrans|congruence..|]. intros u Hu. rewrite (Hs' u Hu), Hs.
  by rewrite <-app_assoc.
Qed.

Lemma batch_inv_init requests slots :
  slots_of requests slots → Forall (λ r, opaque r ≠ 0) requests →
  batch_inv (opaque <$> requests) slots (replicate (length requests) None).
Proof.
  intros Hs Hnz. constructor.
  - by rewrite length_replicate, length_fmap.
  - intros o i (? & ? & Hl)%Hs. split_and!; [done|by rewrite list_lookup_fmap|].
    apply lookup_replicate. split; [done|].
    destruct (requests !! Z.to_nat i) eqn:Hi; [|done]. by eapply lookup_lt_Some.
  - intros i o Ho. left. apply Hs. rewrite Nat2Z.id. rewrite list_lookup_fmap in Ho.
    split_and!; [|lia|done]. destruct (requests !! i) as [q|] eqn:Hi; [|done].
    injection Ho as <-. by apply (Forall_lookup_1 _ _ _ _ Hnz Hi).
Qed.

Lemma collect_responses (e : DcpError) ids responses :
  Forall2 (λ (o : Z) x, ∃ f, x = Some f ∧ answers o f = true) ids responses →
  ∃ fs, mapM_res (λ r, ok_or r e) responses = Ok fs ∧ omap id responses = fs
    ∧ Forall2 (λ o f, answers o f = true) ids fs.
Proof.
  induction 1 as [|o x ids responses (f & -> & Hf) _ (fs & IH & Hom & Hall)];
    [by exists []|]. exists (f :: fs). cbn [mapM_res ok_or]. rewrite IH. split_and!; [done| |by constructor].
  cbn [omap list_omap id]. by rewrite <-Hom.
Qed.

(** One exchange, whatever its outcome. *)
Lemma conn_request_spec c req o c' :
  conn_request req c = (o, c') →
  let id := if opaque req =? 0 then kc_next_opaque c else opaque req in
  ∃ consumed skipped,
    kc_reads c = consumed ++ kc_reads c'
    ∧ kc_pending c' = kc_pending c ++ skipped
    ∧ omap (inbound_frame (kc_snappy_enabled c)) consumed
      = skipped ++ match o with Done (Ok f) => [f] | _ => [] end
    ∧ Forall (λ f, answers id f = false) skipped
    ∧ (∀ f, o = Done (Ok f) →
        answers id f = true ∧ kc_sent c' = kc_sent c ++ [set_opaque id req])
    ∧ (∃ r, o = Done r ∧ r ≠ Panic)
    ∧ (kc_sent c' = kc_sent c ∨ kc_sent c' = kc_sent c ++ [set_opaque id req])
    ∧ same_link c c'.
Proof.
  intros Hrun id.
  assert (∃ c0, kc_reads c0 = kc_reads c ∧ kc_pending c0 = kc_pending c
    ∧ kc_sent c0 = kc_sent c ∧ same_link c c0
    ∧ io_timeout (Timeout (kc_request_timeout c)) (do! send_frame (set_opaque id req) in
        λ c, await_response id (kc_reads c) c) c0 = (o, c')) as (c0 & Hr & Hp & Hs & Hl0 & Hx).
  { unfold conn_request, id in *. destruct (opaque req =? 0) eqn:H0.
    - exists (allocate_opaque c).2. by split_and!.
    - exists c. split_and!; try done. by destruct req. }
  clear Hrun. assert (kc_snappy_enabled c0 = kc_snappy_enabled c) as Hsn by apply Hl0.
  unfold io_timeout, io_bind in Hx. rewrite <-Hr, <-Hp, <-Hs, <-Hsn.
  pose proof (send_frame_spec (set_opaque id req) c0) as Hsend.
  pose proof (send_frame_no_panic (set_opaque id req) c0) as Hnp.
  destruct (send_frame _ c0) as [[[[]|e|]|] c1];
    destruct Hsend as (Hr1 & Hp1 & Hl1 & _ & Hs1); assert (same_link c c1) as Hl2 by (by etrans);
    assert (kc_snappy_enabled c1 = kc_snappy_enabled c0) as Hsn1 by apply Hl1.
  2-4: simplify_eq; exists [], []; rewrite !app_nil_r in *; split_and!;
    try done; first [by eexists|by left].
  destruct (await_response id (kc_reads c1) c1) as [o1 c2] eqn:Haw.
  apply await_response_spec in Haw as (consumed & skipped & Hc & Hpp & Hf & Hom & Ha & Hnp' & Hl3 & Hs2 & _);
    [|done].
  assert (c' = c2) as -> by by destruct o1 as [[?|?|]|]; simplify_eq.
  exists consumed, skipped. rewrite <-Hr1, <-Hp1, <-Hsn1.
  split_and!; try done.
  - rewrite Hom. by destruct o1 as [[?|?|]|]; simplify_eq.
  - intros f ->. destruct o1 as [[?|?|]|]; simplify_eq.
    split; [by apply Ha|]. by rewrite Hs2, Hs1.
  - destruct o1 as [[?|?|]|]; simplify_eq; by eexists.
  - right. by rewrite Hs2, Hs1.
  - by etrans.
Qed.

(** A whole batch. *)
Lemma request_batch_spec c requests r c' :
  valid_opaque (kc_next_opaque c) → len requests < u32_max →
  request_batch requests c = (r, c') →
  (∃ x, r = Done x ∧ x ≠ Panic) ∧ valid_opaque (kc_next_opaque c')
  ∧ ∀ responses, r = Done (Ok responses) →
    ∃ sent consumed skipped,
      kc_sent c' = kc_sent c ++ sent
      ∧ Forall2 assigned requests sent ∧ NoDup (opaque <$> sent)
      ∧ Forall2 (λ q f, answers (opaque q) f = true) sent responses
      ∧ kc_reads c = consumed ++ kc_reads c'
      ∧ kc_pending c' = kc_pending c ++ skipped
      ∧ skipped `sublist_of` omap (inbound_frame (kc_snappy_enabled c)) consumed
      ∧ omap (inbound_frame (kc_snappy_enabled c)) consumed ≡ₚ skipped ++ responses.
Proof.
  intros Hc Hlen Hrun. unfold request_batch in Hrun. unfold io_bind at 1, io_lift at 1 in Hrun.
  assert (slots_of [] ∅) as H0 by (intros o i; by rewrite lookup_empty, lookup_nil; split; [|intros (? & ? & ?)]).
  pose proof (claim_explicit_spec requests [] ∅ H0) as Hcl. change (len []) with 0 in Hcl.
  destruct (claim_explicit 0 requests ∅) as [slots|e|]; [|simplify_eq; by split_and!; [eexists|..]|done].
  destruct (assign_opaques_spec requests [] slots c Hcl) as
    (rs & slots' & c1 & Hasg & Hs & Hall & [Hc1 Hv1]); [by constructor|done..|].
  change (len []) with 0 in Hasg. unfold io_bind at 1 in Hrun. rewrite Hasg in Hrun.
  assert (Forall (λ q, opaque q ≠ 0) rs) as Hnz.
  { clear -Hall. induction Hall as [|q q' ?? (_ & _ & ?)]; by constructor. }
  pose proof (slots_of_nodup _ _ Hs Hnz) as Hnd.
  assert (kc_reads c1 = kc_reads c ∧ kc_pending c1 = kc_pending c ∧ kc_sent c1 = kc_sent c
    ∧ kc_snappy_enabled c1 = kc_snappy_enabled c) as (Er & Ep & Es & En) by by rewrite Hc1.
  clear Hasg. rewrite <-Er, <-Ep, <-Es, <-En. clear Hc1 Er Ep Es En.
  destruct rs as [|q0 rs0] eqn:Hrs.
  { injection Hrun as <- <-. split_and!; [by eexists|done|]. intros responses [= <-].
    exists [], [], []. rewrite !app_nil_r. by split_and!. }
  rewrite <-Hrs in *. clear Hrs q0 rs0. unfold io_bind at 1, io_get in Hrun. cbn beta iota in Hrun.
  unfold io_timeout in Hrun. unfold io_bind at 1 in Hrun.
  destruct (io_for rs send_frame c1) as [r1 c2] eqn:Hsend.
  apply send_all_spec in Hsend as (Hnp & Hl & Hr2 & Hp2 & Hn2 & Hs2).
  assert (valid_opaque (kc_next_opaque c2)) as Hv2 by by rewrite Hn2.
  assert (kc_snappy_enabled c2 = kc_snappy_enabled c1) as Hsn by apply Hl.
  destruct r1 as [[u|e|]|]; [|simplify_eq; by split_and!; [eexists|..]..].
  unfold io_bind in Hrun.
  destruct (await_batch (kc_reads c2) slots' _ c2) as [r3 c3] eqn:Haw.
  eapply await_batch_spec in Haw as (Hnp3 & _ & Hs3 & Hn3 & Hok);
    [|exact Hnd|by apply batch_inv_init|done].
  assert (valid_opaque (kc_next_opaque c3)) as Hv3 by by rewrite Hn3.
  destruct r3 as [[responses|e|]|]; [|simplify_eq; by split_and!; [eexists|..]..].
  destruct (Hok _ eq_refl) as (Hall2 & consumed & skipped & Hcons & Hpend & Hsub & Hperm).
  destruct (collect_responses (Protocol (MalformedFrame
    "request batch completed without every response")) _ _ Hall2) as (fs & Hm & Hom & Hans).
  rewrite Hm in Hrun. injection Hrun as <- <-. split_and!; [by eexists|done|].
  intros responses' [= <-]. exists rs, consumed, skipped.
  rewrite <-Hr2, <-Hp2, <-Hsn, Hs3, (Hs2 u eq_refl). split_and!; try done.
  - by rewrite Forall2_fmap_l in Hans.
  - rewrite <-Hom, <-Hperm.
    assert (omap id (replicate (length rs) (@None Frame)) = []) as ->; [|done].
    clear. by induction (length rs).
Qed.

(** ** Properties *)

(** A request is answered only by the response that carries its opaque: the request
    goes out once, with the given opaque or the connection's next one; of the frames read
    meanwhile the answer is returned and every other frame is kept, in arrival order, for
    [receive_frame], also when the exchange fails; and the exchange always ends, at the
    latest with the request timeout. *)
Lemma request_correlates c req o c' :
  conn_request req c = (o, c') →
  let id := if opaque req =? 0 then kc_next_opaque c else opaque req in
  ∃ consumed skipped,
    kc_reads c = consumed ++ kc_reads c'
    ∧ kc_pending c' = kc_pending c ++ skipped
    ∧ omap (inbound_frame (kc_snappy_enabled c)) consumed
      = skipped ++ match o with Done (Ok f) => [f] | _ => [] end
    ∧ Forall (λ f, answers id f = false) skipped
    ∧ (∀ f, o = Done (Ok f) →
        answers id f = true ∧ kc_sent c' = kc_sent c ++ [set_opaque id req])
    ∧ (∃ r, o = Done r ∧ r ≠ Panic).
Proof.
  intros Hrun id. destruct (conn_request_spec _ _ _ _ Hrun) as
    (consumed & skipped & ? & ? & ? & ? & ? & ? & _). by exists consumed, skipped.
Qed.

(** A pipelined batch returns its responses in request order: every request goes out
    once with its own non-zero opaque, distinct across the batch, the response at each
    position answers the request at that position, every other frame read is kept in
    order, and the call always ends without a panic. *)
Lemma request_batch_correlates c requests r c' :
  valid_opaque (kc_next_opaque c) → len requests < u32_max →
  request_batch requests c = (r, c') →
  (∃ x, r = Done x ∧ x ≠ Panic)
  ∧ ∀ responses, r = Done (Ok responses) →
    ∃ sent consumed skipped,
      kc_sent c' = kc_sent c ++ sent
      ∧ Forall2 assigned requests sent ∧ NoDup (opaque <$> sent)
      ∧ Forall2 (λ q f, answers (opaque q) f = true) sent responses
      ∧ kc_reads c = consumed ++ kc_reads c'
      ∧ kc_pending c' = kc_pending c ++ skipped
      ∧ skipped `sublist_of` omap (inbound_frame (kc_snappy_enabled c)) consumed
      ∧ omap (inbound_frame (kc_snappy_enabled c)) consumed ≡ₚ skipped ++ responses.
Proof.
  intros Hc Hlen Hrun. destruct (request_batch_spec _ _ _ _ Hc Hlen Hrun) as (? & _ & ?). done.
Qed.
End Lemmas.

(** ** A sample exchange: a NOOP overtakes the response. *)
Definition stored_only : Snappy := {|
  decompress_len v := inr (len v);
  decompress_vec v := inr v
|}.
Definition sample_noop : Frame := set_opaque 99 (request OP_DCP_NOOP).
Definition sample_answer (id : Z) : Frame := set_opaque id (response OP_HELLO STATUS_SUCCESS).
Definition sample_connection : KvConnection :=
  from_io "127.0.0.1:11210" (from_secs 1) 0
    [RFrame sample_noop 1; RFrame (sample_answer 2) 2; RFrame (sample_answer 1) 3] [].
