(* ===== verification/Topology.v ===== *)
(** * Cluster topology ([rust-dcp-core/src/topology.rs])

    Revisions, vBucket routes, the topology state with its generation fence, and the
    queries a KV node answers.  Node identities are their text.  The cluster configuration
    and the address text of endpoints are in [Cccp]. *)
From S2P Require Import Prelude Text Types Frame Codec Dcp Command Errors Async Transport.

Abbreviation NodeId := string (only parsing).

(** ** Revisions *)
Record TopologyRevision : Type := mkRevision {
  tr_epoch : Z;
  tr_revision : Z
}.

Definition is_newer_than (self current : TopologyRevision) : bool :=
  (tr_epoch current <? tr_epoch self)
  || ((tr_epoch self =? tr_epoch current)
      && ((tr_revision self =? 0) || (tr_revision current <? tr_revision self))).

(** ** Topology *)
Record KvEndpoint : Type := mkKvEndpoint {
  ep_id : NodeId;
  ep_address : string;
  ep_canonical_address : string;
  ep_server_group : option string
}.

Record VBucketRoute : Type := mkVBucketRoute {
  rt_active : NodeId;
  rt_replicas : list NodeId
}.

Record ClusterTopology : Type := mkClusterTopology {
  ct_bucket : string;
  ct_bucket_uuid : option string;
  ct_revision : TopologyRevision;
  ct_network : string;
  ct_endpoints : gmap NodeId KvEndpoint;
  ct_vbuckets : gmap Z VBucketRoute
}.

Definition route_of (t : ClusterTopology) (vbucket : Z) : result VBucketRoute :=
  ok_or (ct_vbuckets t !! vbucket)
    (Topology ("vBucket " +:+ pretty vbucket +:+ " is not in the topology")).

Definition active_node (t : ClusterTopology) (vbucket : Z) : result NodeId :=
  res_map rt_active (route_of t vbucket).
Definition replica_nodes (t : ClusterTopology) (vbucket : Z) : result (list NodeId) :=
  res_map rt_replicas (route_of t vbucket).

Definition active_endpoint (t : ClusterTopology) (vbucket : Z) : result KvEndpoint :=
  let? node := active_node t vbucket in
  ok_or (ct_endpoints t !! node)
    (Topology ("active node " +:+ node +:+ " for vBucket " +:+ pretty vbucket
       +:+ " has no endpoint")).

(** [entry(node).or_default().push(vbucket)] *)
Definition push_group (node : NodeId) (vbucket : Z) (g : gmap NodeId (list Z))
    : gmap NodeId (list Z) :=
  <[node := default [] (g !! node) ++ [vbucket]]> g.

(** [dedup]: equal neighbours collapse. *)
Fixpoint dedup (l : list Z) : list Z :=
  match l with
  | x :: ((y :: _) as l') => if x =? y then dedup l' else x :: dedup l'
  | l => l
  end.

Definition active_vbuckets_by_node (t : ClusterTopology) (vbuckets : list Z)
    : result (gmap NodeId (list Z)) :=
  let? grouped := for_res vbuckets ∅ (λ g vb,
    let? node := active_node t vb in Ok (push_group node vb g)) in
  Ok ((λ partitions, dedup (merge_sort Z.le partitions)) <$> grouped).

Definition all_active_vbuckets_by_node (t : ClusterTopology) : gmap NodeId (list Z) :=
  foldl (λ g entry, push_group (rt_active entry.2) entry.1 g) ∅ (btree_to_list (ct_vbuckets t)).

(** ** The key hash: [crc32fast::hash] is the parameter [crc32] *)
Definition couchbase_vbucket_for_key (crc32 : bytes → Z) (key : bytes) (vbucket_count : Z)
    : result Z :=
  let max_vbucket_count := u16_max + 1 in
  if (vbucket_count =? 0) || (max_vbucket_count <? vbucket_count) then
    Err (InvalidConfiguration ("vBucket count must be in 1..=" +:+ pretty max_vbucket_count))
  else
    let hash := Z.land (Z.shiftr (crc32 key) 16) 0x7fff in
    let vbucket := hash `mod` vbucket_count in
    ok_or (try_from u16_max vbucket)
      (InvalidConfiguration ("vBucket identifier " +:+ pretty vbucket
         +:+ " cannot be represented: " +:+ try_from_int_error)).

(** ** [TopologyState] *)
Record TopologyChange : Type := mkTopologyChange {
  tc_generation : Z;
  tc_added_nodes : gset NodeId;
  tc_removed_nodes : gset NodeId;
  tc_reconnect_nodes : gset NodeId;
  tc_rerouted_vbuckets : gset Z
}.

Record TopologyState : Type := mkTopologyState {
  ts_generation : Z;
  ts_topology : ClusterTopology
}.

Definition topology_state_new (t : ClusterTopology) : TopologyState := mkTopologyState 1 t.

Definition validate_bucket_identity (current candidate : ClusterTopology) : result unit :=
  if negb (bool_decide (ct_bucket current = ct_bucket candidate)) then
    Err (Topology ("topology bucket changed from " +:+ debug_str (ct_bucket current) +:+ " to "
      +:+ debug_str (ct_bucket candidate)))
  else
    match ct_bucket_uuid current, ct_bucket_uuid candidate with
    | Some current_uuid, Some candidate_uuid =>
        if bool_decide (current_uuid = candidate_uuid) then Ok tt
        else Err (Topology ("topology bucket UUID changed from " +:+ current_uuid +:+ " to "
               +:+ candidate_uuid))
    | _, _ => Ok tt
    end.

(** A node both topologies know whose dial address changed; indexing a node that is not in
    the map would panic, and the intersection is in both. *)
Definition address_changed (old new : gmap NodeId KvEndpoint) (node : NodeId) : Prop :=
  ep_address <$> old !! node ≠ ep_address <$> new !! node.
#[export] Instance address_changed_dec old new node : Decision (address_changed old new node).
Proof. unfold address_changed. apply _. Defined.

(** The active node of a vBucket differs, or the vBucket appears or disappears. *)
Definition rerouted (old new : gmap Z VBucketRoute) (vb : Z) : Prop :=
  rt_active <$> old !! vb ≠ rt_active <$> new !! vb.
#[export] Instance rerouted_dec old new vb : Decision (rerouted old new vb).
Proof. unfold rerouted. apply _. Defined.

Definition topology_apply (candidate : ClusterTopology) (s : TopologyState)
    : result (option TopologyChange) * TopologyState :=
  let current := ts_topology s in
  match validate_bucket_identity current candidate with
  | Err e => (Err e, s)
  | Panic => (Panic, s)
  | Ok _ =>
      if negb (is_newer_than (ct_revision candidate) (ct_revision current)) then (Ok None, s)
      else
        let current_nodes := dom (ct_endpoints current) in
        let candidate_nodes := dom (ct_endpoints candidate) in
        let added_nodes := candidate_nodes ∖ current_nodes in
        let removed_nodes := current_nodes ∖ candidate_nodes in
        let reconnect_nodes := added_nodes ∪
          filter (address_changed (ct_endpoints current) (ct_endpoints candidate))
            (current_nodes ∩ candidate_nodes) in
        let rerouted_vbuckets :=
          filter (rerouted (ct_vbuckets current) (ct_vbuckets candidate))
            (dom (ct_vbuckets current) ∪ dom (ct_vbuckets candidate)) in
        match checked_add u64_max (ts_generation s) 1 with
        | None => (Err (Topology "topology generation overflow"), s)
        | Some generation =>
            (Ok (Some (mkTopologyChange generation added_nodes removed_nodes reconnect_nodes
                         rerouted_vbuckets)),
             mkTopologyState generation candidate)
        end
  end.

(** ** Route tables *)
Record RawVBucketServerMap : Type := mkRawServerMap {
  rs_hash_algorithm : string;
  rs_num_replicas : Z;
  rs_server_list : list string;
  rs_v_bucket_map : list (list Z)
}.

Definition route_node (index : Z) (endpoints : list KvEndpoint) (vbucket : Z) (role : string)
    : result (option NodeId) :=
  if index =? -1 then Ok None
  else if index <? 0 then
    Err (Topology ("vBucket " +:+ pretty vbucket +:+ " has invalid " +:+ role
      +:+ " node index " +:+ pretty index))
  else
    match endpoints !! Z.to_nat index with
    | Some e => Ok (Some (ep_id e))
    | None => Err (Topology ("vBucket " +:+ pretty vbucket +:+ " " +:+ role +:+ " node index "
        +:+ pretty index +:+ " exceeds " +:+ pretty (len endpoints) +:+ " endpoints"))
    end.

(** One row of the vBucket map. *)
Definition build_route (replica_count : Z) (endpoints : list KvEndpoint) (vbucket : Z)
    (row : list Z) : result (Z * VBucketRoute) :=
  if negb (len row =? replica_count + 1) then
    Err (Topology ("vBucket " +:+ pretty vbucket +:+ " has " +:+ pretty (len row)
      +:+ " route entries; expected " +:+ pretty (replica_count + 1)))
  else
    let? first := index row 0 in
    let? active := route_node first endpoints vbucket "active" in
    let? active := ok_or active
      (Topology ("vBucket " +:+ pretty vbucket +:+ " has no active node")) in
    let? rest := slice_from row 1 in
    let? replicas := mapM_res (λ i, route_node i endpoints vbucket "replica") rest in
    let? vb := ok_or (try_from u16_max vbucket)
      (Topology ("invalid vBucket ID: " +:+ try_from_int_error)) in
    Ok (vb, mkVBucketRoute active (omap id replicas)).

Definition build_vbucket_routes (map : RawVBucketServerMap) (endpoints : list KvEndpoint)
    : result (gmap Z VBucketRoute) :=
  if rs_num_replicas map <? 0 then
    Err (Topology ("negative replica count " +:+ pretty (rs_num_replicas map)))
  else if bool_decide (rs_v_bucket_map map = []) then
    Err (Topology "cluster config has no vBucket map")
  else if u16_max + 1 <? len (rs_v_bucket_map map) then
    Err (Topology ("vBucket map has " +:+ pretty (len (rs_v_bucket_map map))
      +:+ " entries, exceeding the u16 identifier space"))
  else
    let? rows := mapM_res (λ '(vb, row), build_route (rs_num_replicas map) endpoints vb row)
      (zip (seqZ 0 (len (rs_v_bucket_map map))) (rs_v_bucket_map map)) in
    Ok (btree_collect rows).

(** ** Queries *)

(** [ensure_success_response] of [stream.rs] and of [topology.rs], which are the same. *)
Definition ensure_success_response (f : Frame) (op : Opcode) (context : string) : result unit :=
  if negb (magic_is_response (magic f)) || negb (opcode f =? op) then
    Err (Protocol (MalformedFrame ("expected response opcode 0x" +:+ hex_pad2 op
      +:+ ", got magic 0x" +:+ hex_pad2 (magic_as_u8 (magic f))
      +:+ " opcode 0x" +:+ hex_pad2 (opcode f))))
  else if status f =? STATUS_SUCCESS then Ok tt
  else Err (DcpServerStatus (status f) (opcode f)
    (if bool_decide (value f = []) then context
     else context +:+ ": " +:+ from_utf8_lossy (value f))).

Section Queries.
Context `{Snappy}.

Definition fetch_failover_log (vbucket : Z) : io KvConnection (list FailoverEntry) :=
  let! response := conn_request (get_failover_log vbucket 0) in
  do! io_lift (ensure_success_response response OP_DCP_GET_FAILOVER_LOG
        "vBucket failover log") in
  let! entries := io_lift (from_protocol (parse_failover_log response)) in
  match entries with
  | [] => io_lift (Err (Topology ("server returned an empty failover log for vBucket "
            +:+ pretty vbucket)))
  | _ => io_ret entries
  end.

(** [result.insert(..).is_some()] rejects a repeated vBucket. *)
Definition fetch_active_high_seqnos (collection_id : option Z)
    : io KvConnection (gmap Z Z) :=
  let! response := conn_request (get_vbucket_seqnos VbActive collection_id 0) in
  do! io_lift (ensure_success_response response OP_GET_ALL_VB_SEQNOS
        "active high sequence numbers") in
  let! entries := io_lift (from_protocol (parse_vbucket_seqnos response)) in
  io_lift (for_res entries ∅ (λ m e,
    match m !! vs_vbucket e with
    | Some _ => Err (Protocol (MalformedDcp ("duplicate high-seqno entry for vBucket "
                  +:+ pretty (vs_vbucket e))))
    | None => Ok (<[vs_vbucket e := vs_seqno e]> m)
    end)).
End Queries.

(** ** Lemmas *)

Lemma validate_bucket_identity_spec current candidate :
  match validate_bucket_identity current candidate with
  | Ok _ => ct_bucket current = ct_bucket candidate
      ∧ ∀ u u', ct_bucket_uuid current = Some u → ct_bucket_uuid candidate = Some u' → u = u'
  | Err _ => ct_bucket current ≠ ct_bucket candidate
      ∨ ∃ u u', ct_bucket_uuid current = Some u ∧ ct_bucket_uuid candidate = Some u' ∧ u ≠ u'
  | Panic => False
  end.
Proof.
  unfold validate_bucket_identity. case_bool_decide; cbn [negb]; [|by left].
  destruct (ct_bucket_uuid current) as [u|], (ct_bucket_uuid candidate) as [u'|];
    try (by split; [done|intros; simplify_eq]).
  case_bool_decide; [split; [done|]; intros; congruence|]. right. by exists u, u'.
Qed.

(** The lexicographic order of versioned revisions. *)
Definition revision_lt (a b : TopologyRevision) : Prop :=
  tr_epoch a < tr_epoch b ∨ (tr_epoch a = tr_epoch b ∧ tr_revision a < tr_revision b).

Lemma is_newer_than_spec a b :
  is_newer_than a b = true ↔
    revision_lt b a ∨ (tr_epoch a = tr_epoch b ∧ tr_revision a = 0).
Proof. unfold is_newer_than, revision_lt. lia. Qed.

(** The entry [i] of a row names the endpoint at that place of the server list. *)
Definition names (endpoints : list KvEndpoint) (i : Z) (node : NodeId) : Prop :=
  0 ≤ i ∧ ∃ e, endpoints !! Z.to_nat i = Some e ∧ ep_id e = node.
(** The route a row of the vBucket map stands for: its first entry is the active node, and
    the others, but for the places without a server (-1), are the replicas in order. *)
Definition row_route (endpoints : list KvEndpoint) (row : list Z) (r : VBucketRoute) : Prop :=
  ∃ first rest, row = first :: rest ∧ names endpoints first (rt_active r)
    ∧ Forall2 (names endpoints) (filter (λ i, i ≠ -1) rest) (rt_replicas r).

Lemma route_node_spec i endpoints vb role :
  match route_node i endpoints vb role with
  | Ok (Some n) => names endpoints i n
  | Ok None => i = -1
  | Err _ => i < -1 ∨ len endpoints ≤ i
  | Panic => False
  end.
Proof.
  unfold route_node. destruct (Z.eqb_spec i (-1)); [done|].
  destruct (Z.ltb_spec i 0); [lia|].
  destruct (endpoints !! Z.to_nat i) as [e|] eqn:He.
  - split; [lia|by exists e].
  - apply lookup_ge_None in He. unfold len. lia.
Qed.
Lemma names_endpoint endpoints i n : names endpoints i n → n ∈ ep_id <$> endpoints.
Proof. intros (_ & e & He & <-). apply list_elem_of_fmap_2. by eapply list_elem_of_lookup_2. Qed.
Lemma row_route_endpoints endpoints row r n :
  row_route endpoints row r → n = rt_active r ∨ n ∈ rt_replicas r → n ∈ ep_id <$> endpoints.
Proof.
  intros (first & rest & _ & Ha & Hr) [-> |Hn]; [by eapply names_endpoint|].
  apply list_elem_of_lookup in Hn as [k Hk].
  destruct (Forall2_lookup_r _ _ _ _ _ Hr Hk) as (i & _ & Hi). by eapply names_endpoint.
Qed.

Lemma replicas_spec endpoints vb row :
  match mapM_res (λ i, route_node i endpoints vb "replica") row with
  | Ok rs => Forall2 (names endpoints) (filter (λ i, i ≠ -1) row) (omap id rs)
  | Err _ => True
  | Panic => False
  end.
Proof.
  induction row as [|i row IH]; cbn [mapM_res]; [constructor|].
  pose proof (route_node_spec i endpoints vb "replica") as Hi.
  destruct (route_node i endpoints vb "replica") as [o|e|]; [|done..].
  destruct (mapM_res _ row) as [rs|e|]; [|done..]. destruct o as [n|]; cbn [omap list_omap id].
  - rewrite filter_cons_True by (destruct Hi; lia). by constructor.
  - by rewrite filter_cons_False by (by intros ?).
Qed.
Lemma build_route_spec k endpoints vb row :
  0 ≤ k →
  match build_route k endpoints vb row with
  | Ok (vb', r) => vb' = vb ∧ row_route endpoints row r ∧ len row = k + 1
  | Err _ => True
  | Panic => False
  end.
Proof.
  intros Hk. unfold build_route. destruct (Z.eqb_spec (len row) (k + 1)) as [Hl|]; [|done].
  cbn [negb]. destruct row as [|i row]; [unfold len in Hl; cbn in Hl; lia|].
  rewrite index_cons_0.
  pose proof (route_node_spec i endpoints vb "active") as Ha.
  destruct (route_node i endpoints vb "active") as [[n|]|e|]; cbn [ok_or]; [|done..].
  rewrite slice_from_cons. pose proof (replicas_spec endpoints vb row) as Hrs.
  destruct (mapM_res _ row) as [rs|e|]; [|done..].
  destruct (try_from u16_max vb) as [vb'|] eqn:Hvb; cbn [ok_or]; [|done].
  apply try_from_inv in Hvb as [-> _]. split_and!; [done| |done]. by exists i, row.
Qed.

(** ** Properties *)

(** A topology update is applied exactly when it belongs to the same bucket and is
    newer: then the generation moves by one and the reported change is the exact
    difference, so that a vBucket that is not rerouted keeps its active node and a node
    that is not in the reconnect set keeps its dial address; a stale update changes
    nothing, and nothing panics. *)
Lemma topology_apply_exact candidate s :
  let current := ts_topology s in
  match topology_apply candidate s with
  | (Ok (Some ch), s') =>
      is_newer_than (ct_revision candidate) (ct_revision current) = true
      ∧ ts_topology s' = candidate ∧ ts_generation s' = ts_generation s + 1
      ∧ tc_generation ch = ts_generation s'
      ∧ ct_bucket candidate = ct_bucket current
      ∧ (∀ n, n ∈ tc_added_nodes ch ↔
           is_Some (ct_endpoints candidate !! n) ∧ ct_endpoints current !! n = None)
      ∧ (∀ n, n ∈ tc_removed_nodes ch ↔
           is_Some (ct_endpoints current !! n) ∧ ct_endpoints candidate !! n = None)
      ∧ (∀ n e', ct_endpoints candidate !! n = Some e' →
           n ∈ tc_reconnect_nodes ch
           ∨ ∃ e, ct_endpoints current !! n = Some e ∧ ep_address e = ep_address e')
      ∧ (∀ vb, vb ∈ tc_rerouted_vbuckets ch ↔
           rt_active <$> ct_vbuckets current !! vb ≠ rt_active <$> ct_vbuckets candidate !! vb)
  | (Ok None, s') =>
      s' = s ∧ is_newer_than (ct_revision candidate) (ct_revision current) = false
  | (Err _, s') => s' = s
  | (Panic, _) => False
  end.
Proof.
  intros current. unfold topology_apply.
  pose proof (validate_bucket_identity_spec current candidate) as Hv. fold current.
  destruct (validate_bucket_identity current candidate) as [u|e|]; [|done..].
  destruct (is_newer_than _ _) eqn:Hn; cbn [negb]; [|done].
  unfold checked_add. destruct (Z.leb_spec (ts_generation s + 1) u64_max); [|done].
  cbn [tc_added_nodes tc_removed_nodes tc_reconnect_nodes tc_rerouted_vbuckets].
  split_and!; try done.
  - by destruct Hv.
  - intros n. rewrite elem_of_difference, elem_of_dom, not_elem_of_dom. done.
  - intros n. rewrite elem_of_difference, elem_of_dom, not_elem_of_dom. done.
  - intros n e' He'. rewrite elem_of_union, elem_of_difference, elem_of_filter,
      elem_of_intersection, !elem_of_dom.
    destruct (ct_endpoints current !! n) as [e|] eqn:He; [|left; left; split; by eauto].
    destruct (decide (ep_address e = ep_address e')) as [Heq|Hne]; [right; by exists e|].
    left. right. split; [|split; by eauto]. unfold address_changed. rewrite He, He'. cbn. congruence.
  - intros vb. rewrite elem_of_filter, elem_of_union, !elem_of_dom. unfold rerouted.
    split; [by intros [? _]|]. intros Hne. split; [done|].
    destruct (ct_vbuckets current !! vb), (ct_vbuckets candidate !! vb); try done; by eauto.
Qed.

(** Successive versioned updates move strictly forwards: along any sequence of
    accepted candidates whose revisions are not zero, the revision tuple grows strictly in
    the lexicographic order and the local generation by one per accepted update. *)
Lemma topology_revisions_increase candidates s :
  Forall (λ c, tr_revision (ct_revision c) ≠ 0) candidates →
  let s' := foldl (λ s c, (topology_apply c s).2) s candidates in
  ts_generation s ≤ ts_generation s' ≤ ts_generation s + len candidates
  ∧ (ts_generation s' = ts_generation s → s' = s)
  ∧ (ts_generation s < ts_generation s' →
      revision_lt (ct_revision (ts_topology s)) (ct_revision (ts_topology s'))).
Proof.
  intros Hall. revert s. induction Hall as [|c candidates Hc _ IH]; intros s; cbn [foldl].
  { unfold len. cbn. split_and!; [lia..|done|lia]. }
  rewrite len_cons. specialize (IH (topology_apply c s).2). cbn zeta in *.
  set (s' := foldl _ _ candidates) in *.
  assert ((topology_apply c s).2 = s ∨ (ts_generation (topology_apply c s).2 = ts_generation s + 1
    ∧ revision_lt (ct_revision (ts_topology s)) (ct_revision (ts_topology (topology_apply c s).2))))
    as [Heq|[Hg Hlt]].
  { unfold topology_apply. destruct (validate_bucket_identity _ _); [|by left..].
    destruct (is_newer_than _ _) eqn:Hn; cbn [negb]; [|by left].
    unfold checked_add. destruct (Z.leb_spec (ts_generation s + 1) u64_max); [|by left].
    right. split; [done|]. apply is_newer_than_spec in Hn as [?|[_ ?]]; done. }
  - rewrite Heq in IH. split_and!; [lia..|apply IH|apply IH].
  - destruct IH as (IH1 & IH2 & IH3). split_and!; [lia..|lia|]. intros _.
    destruct (decide (ts_generation s' = ts_generation (topology_apply c s).2)) as [E|E].
    + rewrite (IH2 E). done.
    + specialize (IH3 ltac:(lia)). unfold revision_lt in *. lia.
Qed.

(** A route table built without error is exactly the rows of the map; building it never
    panics. *)
Lemma build_routes_spec map endpoints :
  match build_vbucket_routes map endpoints with
  | Ok routes =>
      (∀ vb, is_Some (routes !! vb) ↔ 0 ≤ vb < len (rs_v_bucket_map map))
      ∧ (∀ vb r, routes !! vb = Some r → ∃ row, rs_v_bucket_map map !! Z.to_nat vb = Some row
           ∧ row_route endpoints row r ∧ len row = rs_num_replicas map + 1)
      ∧ 0 < len (rs_v_bucket_map map) ≤ u16_max + 1
  | Err _ => True
  | Panic => False
  end.
Proof.
  unfold build_vbucket_routes. destruct (Z.ltb_spec (rs_num_replicas map) 0); [done|].
  case_bool_decide as Hne; [done|].
  destruct (Z.ltb_spec (u16_max + 1) (len (rs_v_bucket_map map))); [done|].
  set (rows := rs_v_bucket_map map) in *.
  assert (∀ l, match mapM_res (λ '(vb, row), build_route (rs_num_replicas map) endpoints vb row) l with
    | Ok rs => Forall2 (λ x e, e.1 = x.1 ∧ row_route endpoints x.2 e.2
        ∧ len x.2 = rs_num_replicas map + 1) l rs
    | Err _ => True | Panic => False end) as Hrows.
  { induction l as [|[vb row] l IH]; cbn [mapM_res]; [constructor|].
    pose proof (build_route_spec (rs_num_replicas map) endpoints vb row ltac:(lia)) as Hr.
    destruct (build_route _ _ vb row) as [[vb' r]|e|]; [|done..].
    destruct (mapM_res _ l) as [rs|e|]; [|done..]. by constructor. }
  specialize (Hrows (zip (seqZ 0 (len rows)) rows)).
  destruct (mapM_res _ _) as [rs|e|]; [|done..].
  assert (rs.*1 = seqZ 0 (len rows)) as Hkeys.
  { transitivity (zip (seqZ 0 (len rows)) rows).*1.
    - symmetry. apply list_eq_Forall2, Forall2_fmap. eapply Forall2_impl; [exact Hrows|].
      by intros x e (-> & _).
    - apply fst_zip. rewrite length_seqZ. unfold len. lia. }
  assert (NoDup rs.*1) as Hnd by (rewrite Hkeys; apply NoDup_seqZ).
  assert (0 < len rows) as Hpos by (destruct rows; [done|rewrite len_cons; pose proof (len_nonneg rows); lia]).
  split_and!; [|..|done|done].
  - intros vb. transitivity (vb ∈ rs.*1).
    + rewrite list_elem_of_fmap. split.
      * intros [r Hr%btree_collect_lookup]; [|done]. by exists (vb, r).
      * intros ([vb' r] & -> & Hr). exists r. by apply btree_collect_lookup.
    + rewrite Hkeys, elem_of_seqZ. lia.
  - intros vb r Hr%btree_collect_lookup; [|done]. apply list_elem_of_lookup in Hr as [k Hk].
    destruct (Forall2_lookup_r _ _ _ _ _ Hrows Hk) as ([vb' row] & Hx & Heq & Hroute & Hlen).
    cbn [fst snd] in *. subst vb'. exists row. apply lookup_zip_Some in Hx as [Hv Hrow].
    apply lookup_seqZ in Hv as [-> _]. by rewrite Z.add_0_l, Nat2Z.id.
Qed.

(** ** Grouping by node *)

Lemma dedup_cons a b l :
  dedup (a :: b :: l) = if a =? b then dedup (b :: l) else a :: dedup (b :: l).
Proof. done. Qed.
Lemma elem_of_dedup l x : x ∈ dedup l ↔ x ∈ l.
Proof.
  induction l as [|a l IH]; [done|]. destruct l as [|b l]; [done|].
  rewrite dedup_cons. destruct (Z.eqb_spec a b) as [->|].
  - rewrite IH. set_solver.
  - rewrite !elem_of_cons, IH. set_solver.
Qed.
Lemma dedup_sorted l : StronglySorted Z.le l → StronglySorted Z.lt (dedup l).
Proof.
  induction 1 as [|a l Hs IH Ha]; [constructor|]. destruct l as [|b l]; [by repeat constructor|].
  rewrite dedup_cons. destruct (Z.eqb_spec a b) as [->|Hne]; [done|]. constructor; [done|].
  apply Forall_forall. intros x Hx. rewrite elem_of_dedup in Hx.
  apply Forall_cons in Ha as [Hab Ha]. apply StronglySorted_inv in Hs as [_ Hb].
  apply elem_of_cons in Hx as [-> |Hx]; [lia|]. rewrite Forall_forall in Hb.
  specialize (Hb x Hx). lia.
Qed.

Lemma push_group_elem n vb g n' x :
  x ∈ default [] (push_group n vb g !! n') ↔ x ∈ default [] (g !! n') ∨ (n' = n ∧ x = vb).
Proof.
  unfold push_group. destruct (decide (n = n')) as [<-|Hne].
  - rewrite lookup_insert_eq. change (x ∈ default [] (g !! n) ++ [vb]
      ↔ x ∈ default [] (g !! n) ∨ (n = n ∧ x = vb)).
    rewrite elem_of_app, list_elem_of_singleton. tauto.
  - rewrite lookup_insert_ne by done. split; [by left|]. by intros [?|[-> _]].
Qed.

(** Grouping vBuckets by active node lists every requested vBucket under its active
    node and nowhere else, in ascending order without repetition; a vBucket outside the
    topology is an error. *)
Lemma grouping_by_node_spec t vbuckets :
  match active_vbuckets_by_node t vbuckets with
  | Ok g =>
      (∀ n vb, vb ∈ default [] (g !! n) ↔ vb ∈ vbuckets ∧ active_node t vb = Ok n)
      ∧ (∀ n l, g !! n = Some l → StronglySorted Z.lt l)
  | Err _ => ∃ vb, vb ∈ vbuckets ∧ ct_vbuckets t !! vb = None
  | Panic => False
  end.
Proof.
  unfold active_vbuckets_by_node.
  assert (∀ g0, match for_res vbuckets g0 (λ g vb,
      let? node := active_node t vb in Ok (push_group node vb g)) with
    | Ok g => ∀ n vb, vb ∈ default [] (g !! n) ↔
        vb ∈ default [] (g0 !! n) ∨ (vb ∈ vbuckets ∧ active_node t vb = Ok n)
    | Err _ => ∃ vb, vb ∈ vbuckets ∧ ct_vbuckets t !! vb = None
    | Panic => False end) as Hloop.
  { induction vbuckets as [|v l IH]; intros g0; cbn [for_res].
    { intros n vb. split; [by left|]. by intros [?|[?%elem_of_nil _]]. }
    destruct (active_node t v) as [node|e|] eqn:Hn.
    2: { exists v. split; [left|]. unfold active_node, route_of in Hn.
         by destruct (ct_vbuckets t !! v). }
    2: { unfold active_node, route_of in Hn. by destruct (ct_vbuckets t !! v). }
    specialize (IH (push_group node v g0)). destruct (for_res l _ _) as [g|e|]; [|..|done].
    - intros n vb. rewrite IH, push_group_elem, elem_of_cons. split.
      + intros [[?|[-> ->]]|[? ?]]; by auto.
      + intros [?|[[-> |?] Ha]]; [by auto..| |by auto].
        left. right. split; [|done]. rewrite Hn in Ha. by injection Ha.
    - destruct IH as (vb & Hvb & ?). exists vb. split; [by right|done]. }
  specialize (Hloop ∅). destruct (for_res vbuckets ∅ _) as [g|e|]; [|done..]. split.
  - intros n vb. rewrite lookup_fmap. specialize (Hloop n vb). rewrite lookup_empty in Hloop.
    destruct (g !! n) as [l|].
    + change (vb ∈ dedup (merge_sort Z.le l) ↔ vb ∈ vbuckets ∧ active_node t vb = Ok n).
      change (vb ∈ l ↔ vb ∈ [] ∨ (vb ∈ vbuckets ∧ active_node t vb = Ok n)) in Hloop.
      rewrite elem_of_dedup, merge_sort_Permutation, Hloop.
      split; [intros [?%elem_of_nil|?]; done|by right].
    + rewrite Hloop. split; [intros [?%elem_of_nil|?]; done|by right].
  - intros n l. rewrite lookup_fmap. destruct (g !! n) as [l0|]; [|done]. intros [= <-].
    apply dedup_sorted, (StronglySorted_merge_sort Z.le l0).
Qed.

Definition sample_topology (epoch revision : Z) : ClusterTopology :=
  mkClusterTopology "bucket" None (mkRevision epoch revision) "default"
    {[ "a" := mkKvEndpoint "a" "a:11210" "a:11210" None ]} {[ 0 := mkVBucketRoute "a" [] ]}.
