(* ===== verification/Cccp.v ===== *)
(** * Cluster configurations ([rust-dcp-core/src/topology.rs], CCCP payloads)

    Endpoint text, the choice of the address network, and the construction of a
    [ClusterTopology] from the parsed bucket configuration.  The JSON decoder
    [serde_json::from_slice] is the parameter [from_slice]. *)
From S2P Require Import Prelude Text Types Frame Codec Dcp Command Errors Async Transport.
From S2P Require Import Topology.

(** ** Endpoints *)
Definition open_bracket : Ascii.ascii := Ascii.ascii_of_N 91.
Definition close_bracket : Ascii.ascii := Ascii.ascii_of_N 93.

Definition parse_host_port (host port original : string) : result (string * Z) :=
  if bool_decide (host = "") || has_whitespace host then
    Err (Topology ("endpoint " +:+ debug_str original +:+ " has an invalid host"))
  else
    match parse_u16 port with
    | inl error => Err (Topology ("endpoint " +:+ debug_str original
        +:+ " has an invalid port: " +:+ error))
    | inr port =>
        if port =? 0 then Err (Topology ("endpoint " +:+ debug_str original +:+ " has port zero"))
        else Ok (host, port)
    end.

Definition split_endpoint (address : string) : result (string * Z) :=
  let no_port := Topology ("endpoint " +:+ debug_str address +:+ " has no port") in
  match strip_prefix open_bracket address with
  | Some stripped =>
      let? parts := ok_or (split_once close_bracket stripped)
        (Topology ("invalid bracketed endpoint " +:+ debug_str address)) in
      let? port := ok_or (strip_prefix colon parts.2) no_port in
      parse_host_port parts.1 port address
  | None =>
      let? parts := ok_or (rsplit_once colon address) no_port in
      if contains colon parts.1 then
        Err (Topology ("IPv6 endpoint " +:+ debug_str address +:+ " must use brackets"))
      else parse_host_port parts.1 parts.2 address
  end.

(** The host without its brackets. *)
Definition unbracket (host : string) : string :=
  default host (strip_prefix open_bracket host ≫= strip_suffix close_bracket).

Definition format_endpoint (host : string) (port : Z) : result string :=
  let host := unbracket host in
  if bool_decide (host = "") || has_whitespace host then
    Err (Topology ("invalid KV endpoint hostname " +:+ debug_str host))
  else if contains colon host then Ok ("[" +:+ host +:+ "]:" +:+ pretty port)
  else Ok (host +:+ ":" +:+ pretty port).

Definition host_from_address (address : string) : result string :=
  let? parts := split_endpoint address in Ok parts.1.
Definition validated_endpoint (address : string) : result string :=
  let? parts := split_endpoint address in format_endpoint parts.1 parts.2.

Definition addresses_equal (left right : string) : bool :=
  match split_endpoint left, split_endpoint right with
  | Ok l, Ok r => (l.2 =? r.2) && eq_ignore_ascii_case l.1 r.1
  | _, _ => false
  end.

(** ** Raw configurations *)
Record RawNodeServices : Type := mkRawServices {
  ns_kv : Z;
  ns_kv_ssl : Z
}.

Record RawAlternateAddress : Type := mkRawAlternate {
  aa_hostname : option string;
  aa_ports : option RawNodeServices
}.

Record RawNodeExt : Type := mkRawNodeExt {
  ne_hostname : option string;
  ne_services : RawNodeServices;
  ne_alternate_addresses : option (gmap string RawAlternateAddress);
  ne_node_uuid : option string;
  ne_server_group : option string
}.

Record RawBucketConfig : Type := mkRawBucketConfig {
  rb_rev : Z;
  rb_rev_epoch : Z;
  rb_name : string;
  rb_uuid : string;
  rb_node_locator : string;
  rb_nodes_ext : list RawNodeExt;
  rb_v_bucket_server_map : RawVBucketServerMap
}.

Inductive TopologyNetwork : Type :=
| NetAuto
| NetDefault
| NetExternal
| NetNamed (name : string).

#[export] Instance TopologyNetwork_eq_dec : EqDecision TopologyNetwork.
Proof. solve_decision. Defined.

Definition validate_network_name (name : string) : result unit :=
  if bool_decide (trim name = "") || has_whitespace name then
    Err (Topology "alternate network name must be non-empty and contain no whitespace")
  else Ok tt.

(** The host name and the ports a node has on a network. *)
Definition node_address (node : RawNodeExt) (network : string)
    : result (string * RawNodeServices) :=
  if bool_decide (network = "default") then
    Ok (default "" (ne_hostname node), ne_services node)
  else
    let? alternate := ok_or (ne_alternate_addresses node ≫= (λ m, m !! network))
      (Topology ("KV node " +:+ debug_option debug_str (ne_node_uuid node)
        +:+ " has no alternate address for network " +:+ debug_str network)) in
    Ok (default "" (aa_hostname alternate), default (ne_services node) (aa_ports alternate)).

Definition node_endpoint (node : RawNodeExt) (network source_host : string) (tls : bool)
    : result string :=
  let? address := node_address node network in
  let '(hostname, services) := address in
  let hostname := if bool_decide (hostname = "") then source_host else hostname in
  let port := if tls then ns_kv_ssl services else ns_kv services in
  if port =? 0 then
    Err (Topology ("KV node " +:+ debug_option debug_str (ne_node_uuid node) +:+ " has no "
      +:+ (if tls then "kvSSL" else "kv") +:+ " port for network " +:+ debug_str network))
  else format_endpoint hostname port.

Definition is_kv_node (node : RawNodeExt) : bool :=
  negb (ns_kv (ne_services node) =? 0) || negb (ns_kv_ssl (ne_services node) =? 0).
Definition kv_nodes_of (nodes : list RawNodeExt) : list RawNodeExt :=
  filter (λ n, is_kv_node n = true) nodes.

Definition has_external (node : RawNodeExt) : bool :=
  match ne_alternate_addresses node with
  | Some addresses => bool_decide (is_Some (addresses !! "external"))
  | None => false
  end.

Definition resolve_network (requested : TopologyNetwork) (nodes : list RawNodeExt)
    (server_count : nat) (source_address source_host : string) (tls : bool) : result string :=
  match requested with
  | NetDefault => Ok "default"
  | NetExternal => Ok "external"
  | NetNamed name => do? validate_network_name name in Ok name
  | NetAuto =>
      let kv_nodes := take server_count (kv_nodes_of nodes) in
      let source_is_default := existsb (λ node,
        match node_endpoint node "default" source_host tls with
        | Ok address => addresses_equal address source_address
        | _ => false
        end) kv_nodes in
      if bool_decide (nodes = []) || source_is_default then Ok "default"
      else if bool_decide (length kv_nodes = server_count) && forallb has_external kv_nodes
      then Ok "external"
      else Ok "default"
  end.

(** One node of [nodesExt] with its entry of the server list. *)
Definition build_endpoint (source_host : string) (tls : bool) (network : string)
    (node : RawNodeExt) (legacy_identity : string) : result KvEndpoint :=
  let? canonical_address := node_endpoint node "default" source_host tls in
  let? address := node_endpoint node network source_host tls in
  let node_uuid := default "" (ne_node_uuid node) in
  let? id := (if bool_decide (trim node_uuid = "") then validated_endpoint legacy_identity
              else Ok node_uuid) in
  Ok (mkKvEndpoint id address canonical_address
        (match ne_server_group node with
         | Some group => if bool_decide (group = "") then None else Some group
         | None => None
         end)).

Definition build_endpoints (nodes : list RawNodeExt) (server_list : list string)
    (source_host : string) (tls : bool) (network : string) : result (list KvEndpoint) :=
  if bool_decide (server_list = []) then Err (Topology "cluster config has no KV servers")
  else if bool_decide (nodes = []) then
    if tls then Err (Topology "TLS topology requires nodesExt with kvSSL ports")
    else if negb (bool_decide (network = "default")) then
      Err (Topology ("network " +:+ debug_str network
        +:+ " requires nodesExt alternate addresses"))
    else
      mapM_res (λ address,
        let? address := validated_endpoint address in
        Ok (mkKvEndpoint address address address None)) server_list
  else
    let kv_nodes := kv_nodes_of nodes in
    if len kv_nodes <? len server_list then
      Err (Topology ("nodesExt has " +:+ pretty (len kv_nodes)
        +:+ " KV nodes but vBucket serverList has " +:+ pretty (len server_list)))
    else
      mapM_res (λ '(node, legacy_identity),
        build_endpoint source_host tls network node legacy_identity)
        (zip kv_nodes server_list).

(** [collect::<BTreeMap<_, _>>()] of the endpoints by identity. *)
Definition endpoint_map (l : list KvEndpoint) : gmap NodeId KvEndpoint :=
  foldl (λ m e, <[ep_id e := e]> m) ∅ l.

Definition raw_build (raw : RawBucketConfig) (source_address : string) (tls : bool)
    (requested_network : TopologyNetwork) : result ClusterTopology :=
  let map := rb_v_bucket_server_map raw in
  if (rb_rev raw <? 0) || (rb_rev_epoch raw <? 0) then
    Err (Topology ("negative topology revision " +:+ pretty (rb_rev_epoch raw) +:+ "/"
      +:+ pretty (rb_rev raw)))
  else if bool_decide (trim (rb_name raw) = "") then
    Err (Topology "cluster config has no bucket name")
  else if negb (bool_decide (rb_node_locator raw = "vbucket")) then
    Err (Topology ("unsupported node locator " +:+ debug_str (rb_node_locator raw)
      +:+ "; DCP requires vbucket routing"))
  else if negb (bool_decide (rs_hash_algorithm map = "CRC")) then
    Err (Topology ("unsupported vBucket hash algorithm " +:+ debug_str (rs_hash_algorithm map)))
  else
    let? source_host := host_from_address source_address in
    let? network := resolve_network requested_network (rb_nodes_ext raw)
      (length (rs_server_list map)) source_address source_host tls in
    let? endpoint_list := build_endpoints (rb_nodes_ext raw) (rs_server_list map)
      source_host tls network in
    let endpoints := endpoint_map endpoint_list in
    if negb (bool_decide (size endpoints = length endpoint_list)) then
      Err (Topology "cluster config contains duplicate KV node identities")
    else
      let? routes := build_vbucket_routes map endpoint_list in
      Ok (mkClusterTopology (rb_name raw)
            (if bool_decide (rb_uuid raw = "") then None else Some (rb_uuid raw))
            (mkRevision (rb_rev_epoch raw) (rb_rev raw)) network endpoints routes).

Section Json.
Context (from_slice : bytes → string + RawBucketConfig).

Definition from_json (payload : bytes) (source_address : string) (tls : bool)
    (network : TopologyNetwork) : result ClusterTopology :=
  match from_slice payload with
  | inl error => Err (Topology ("invalid CCCP bucket config: " +:+ error))
  | inr raw => raw_build raw source_address tls network
  end.

Definition discover_topology `{Snappy} (expected_bucket : string) (tls : bool)
    (network : TopologyNetwork) : io KvConnection ClusterTopology :=
  let! source_address := io_get kc_peer in
  let! response := conn_request (get_cluster_config 0) in
  do! io_lift (ensure_success_response response OP_GET_CLUSTER_CONFIG
        "cluster configuration") in
  let! topology := io_lift (from_json (value response) source_address tls network) in
  if negb (bool_decide (ct_bucket topology = expected_bucket)) then
    io_lift (Err (Topology ("cluster config bucket " +:+ debug_str (ct_bucket topology)
      +:+ " does not match selected bucket " +:+ debug_str expected_bucket)))
  else io_ret topology.
End Json.

Example endpoint_samples :
  split_endpoint "[2001:db8::1]:11210" = Ok ("2001:db8::1", 11210)
  ∧ validated_endpoint "node-a:11210" = Ok "node-a:11210"
  ∧ addresses_equal "Node-A:11210" "node-a:11210" = true.
Proof. vm_compute. done. Qed.

(** ** Lemmas: endpoints *)

Lemma append_nil_l s : "" +:+ s = s.
Proof. done. Qed.

(** A host name as an endpoint may carry it: not empty, no white space, no brackets. *)
Definition host_ok (host : string) : Prop :=
  host ≠ "" ∧ has_whitespace host = false
  ∧ contains open_bracket host = false ∧ contains close_bracket host = false.

Lemma host_ok_prefix host : host_ok host → strip_prefix open_bracket host = None.
Proof.
  intros (Hne & _ & Ho & _). destruct host as [|a r]; [done|]. cbn [contains strip_prefix] in *.
  apply orb_false_iff in Ho as [Ho _]. apply bool_decide_eq_false in Ho.
  by rewrite decide_False.
Qed.

Lemma strip_prefix_app a s t :
  s ≠ "" → strip_prefix a s = None → strip_prefix a (s +:+ t) = None.
Proof.
  destruct s as [|b s]; [done|]. intros _. change (String b s +:+ t) with (String b (s +:+ t)).
  cbn [strip_prefix]. by destruct (decide (a = b)).
Qed.

Lemma host_ok_formats host port :
  host_ok host → format_endpoint host port =
    Ok (if contains colon host then "[" +:+ host +:+ "]:" +:+ pretty port
        else host +:+ ":" +:+ pretty port).
Proof.
  intros Hh. pose proof (host_ok_prefix host Hh) as Hp. destruct Hh as (Hne & Hws & _).
  unfold format_endpoint, unbracket. rewrite Hp. cbn [mbind option_bind default].
  rewrite bool_decide_false, Hws by done. cbn [orb]. by destruct (contains colon host).
Qed.

(** ** Theorems *)

(** Endpoint text round-trips: a host name (an IPv6 address included) and a port print to
    an address that parses back to the same host and port, and validating that address
    leaves it as it is. *)
Lemma endpoint_roundtrip host port :
  host_ok host → 1 ≤ port ≤ u16_max →
  ∃ address, format_endpoint host port = Ok address
    ∧ split_endpoint address = Ok (host, port)
    ∧ validated_endpoint address = Ok address.
Proof.
  intros Hh Hport. pose proof (host_ok_formats host port Hh) as Hf.
  eexists. split; [exact Hf|].
  assert (parse_host_port host (pretty port) (if contains colon host
    then "[" +:+ host +:+ "]:" +:+ pretty port else host +:+ ":" +:+ pretty port)
    = Ok (host, port)) as Hp.
  { unfold parse_host_port. destruct Hh as (Hne & Hws & _).
    rewrite bool_decide_false, Hws by done. cbn [orb].
    unfold parse_u16. rewrite parse_pretty by lia.
    by destruct (Z.eqb_spec port 0); [lia|]. }
  assert (contains colon (pretty port) = false) as Hd.
  { apply all_digits_contains; [reflexivity|]. apply pretty_digits. lia. }
  assert (∀ address, address = (if contains colon host
    then "[" +:+ host +:+ "]:" +:+ pretty port else host +:+ ":" +:+ pretty port) →
    split_endpoint address = Ok (host, port)) as Hs.
  { intros address Ha. rewrite <-Ha in Hp. unfold split_endpoint.
    destruct (contains colon host) eqn:Hc; subst address.
    - change (strip_prefix open_bracket ("[" +:+ host +:+ "]:" +:+ pretty port))
        with (Some (host +:+ String close_bracket (":" +:+ pretty port))).
      cbv beta iota. rewrite split_once_app by apply Hh. exact Hp.
    - rewrite strip_prefix_app; [|by destruct Hh|by apply host_ok_prefix].
      change (host +:+ ":" +:+ pretty port) with (host +:+ String colon (pretty port)) at 1.
      rewrite rsplit_once_app by done. cbn [ok_or fst snd]. rewrite Hc. exact Hp. }
  specialize (Hs _ eq_refl).
  split; [done|]. unfold validated_endpoint. rewrite Hs. exact Hf.
Qed.

(** ** Lemmas: configurations *)

Lemma endpoint_map_spec l :
  size (endpoint_map l) = length l →
  NoDup (ep_id <$> l)
  ∧ ∀ n e, endpoint_map l !! n = Some e ↔ e ∈ l ∧ ep_id e = n.
Proof.
  assert (∀ l (m : gmap NodeId KvEndpoint), (size (foldl (λ m e, <[ep_id e := e]> m) m l) ≤ size m + length l)%nat) as Hle.
  { clear. induction l as [|e l IH]; intros m; cbn [foldl length]; [lia|].
    etrans; [apply IH|].
    assert (size (<[ep_id e:=e]> m) ≤ S (size m))%nat; [|lia].
    destruct (m !! ep_id e) eqn:He; [rewrite map_size_insert_Some by (by eexists); lia|].
    by rewrite map_size_insert_None. }
  assert (∀ l (m : gmap NodeId KvEndpoint), size (foldl (λ m e, <[ep_id e := e]> m) m l) = (size m + length l)%nat →
    NoDup (ep_id <$> l) ∧ (∀ e, e ∈ l → m !! ep_id e = None)
    ∧ ∀ n e, foldl (λ m e, <[ep_id e := e]> m) m l !! n = Some e
        ↔ m !! n = Some e ∨ (e ∈ l ∧ ep_id e = n)) as Hgen.
  { clear l. induction l as [|x l IH]; intros m; cbn [foldl length].
    { intros _. split_and!; [constructor|by intros ? ?%elem_of_nil|].
      intros n e. split; [by left|]. by intros [?|[?%elem_of_nil _]]. }
    intros Hsz. destruct (m !! ep_id x) as [y|] eqn:Hx.
    { exfalso. pose proof (Hle l (<[ep_id x:=x]> m)) as Hb.
      rewrite map_size_insert_Some in Hb by (by eexists). lia. }
    destruct (IH (<[ep_id x:=x]> m)) as (Hnd & Hnone & Hlk).
    { rewrite map_size_insert_None by done. lia. }
    assert (∀ e, e ∈ l → ep_id e ≠ ep_id x) as Hne.
    { intros e He Heq. specialize (Hnone e He). by rewrite Heq, lookup_insert_eq in Hnone. }
    split_and!.
    - apply NoDup_cons. split; [|done]. intros (e & Heq & He)%list_elem_of_fmap. by apply (Hne e He).
    - intros e [-> |He]%elem_of_cons; [done|].
      specialize (Hnone e He). rewrite lookup_insert_ne in Hnone; [done|]. by apply not_eq_sym, Hne.
    - intros n e. rewrite Hlk, lookup_insert_Some, elem_of_cons. split.
      + intros [[[<- <-]|[? ?]]|[? ?]]; [by right; split; [left|]|by left|by right; split; [right|]].
      + intros [Hm|[[He|He] Hn]]; [|subst; by left; left|by right].
        left. right. split; [|done]. intros Heq. rewrite <-Heq, Hx in Hm. done. }
  intros Hsz. destruct (Hgen l ∅) as (? & _ & Hlk); [by rewrite map_size_empty|].
  split; [done|]. intros n e. unfold endpoint_map. rewrite Hlk, lookup_empty.
  split; [by intros [?|?]|by right].
Qed.

Lemma parse_host_port_no_panic host port original : parse_host_port host port original ≠ Panic.
Proof. unfold parse_host_port. repeat case_match; done. Qed.
Lemma split_endpoint_no_panic address : split_endpoint address ≠ Panic.
Proof.
  unfold split_endpoint.
  destruct (strip_prefix open_bracket address) as [s|].
  - destruct (split_once close_bracket s) as [[h r]|]; cbn [ok_or fst snd]; [|done].
    destruct (strip_prefix colon r); cbn [ok_or]; [|done]. apply parse_host_port_no_panic.
  - destruct (rsplit_once colon address) as [[h r]|]; cbn [ok_or fst snd]; [|done].
    destruct (contains colon h); [done|]. apply parse_host_port_no_panic.
Qed.
Lemma format_endpoint_no_panic host port : format_endpoint host port ≠ Panic.
Proof. unfold format_endpoint. repeat case_match; done. Qed.
Lemma host_from_address_no_panic address : host_from_address address ≠ Panic.
Proof.
  unfold host_from_address. pose proof (split_endpoint_no_panic address).
  by destruct (split_endpoint address).
Qed.
Lemma validated_endpoint_no_panic address : validated_endpoint address ≠ Panic.
Proof.
  unfold validated_endpoint. pose proof (split_endpoint_no_panic address).
  destruct (split_endpoint address) as [[h p]|e|]; [|done..]. apply format_endpoint_no_panic.
Qed.
Lemma resolve_network_no_panic requested nodes n address host tls :
  resolve_network requested nodes n address host tls ≠ Panic.
Proof.
  unfold resolve_network. destruct requested as [| | |name]; try done.
  - destruct (_ || _); [done|]. by destruct (_ && _).
  - unfold validate_network_name. by destruct (_ || _).
Qed.
Lemma node_endpoint_no_panic node network host tls : node_endpoint node network host tls ≠ Panic.
Proof.
  unfold node_endpoint.
  destruct (node_address node network) as [[h s]|e|] eqn:Ha; [|done|].
  - destruct (_ =? 0); [done|]. apply format_endpoint_no_panic.
  - unfold node_address in Ha. case_bool_decide; [done|]. by destruct (ne_alternate_addresses node ≫= _).
Qed.
Lemma build_endpoint_no_panic host tls network node legacy :
  build_endpoint host tls network node legacy ≠ Panic.
Proof.
  unfold build_endpoint. pose proof (node_endpoint_no_panic node "default" host tls).
  pose proof (node_endpoint_no_panic node network host tls).
  pose proof (validated_endpoint_no_panic legacy).
  destruct (node_endpoint node "default" host tls); [|done..].
  destruct (node_endpoint node network host tls); [|done..].
  case_bool_decide; [|done]. by destruct (validated_endpoint legacy).
Qed.
Lemma build_endpoints_no_panic nodes server_list host tls network :
  build_endpoints nodes server_list host tls network ≠ Panic.
Proof.
  unfold build_endpoints. case_bool_decide; [done|]. case_bool_decide.
  - destruct tls; [done|]. case_bool_decide; cbn [negb]; [|done].
    apply mapM_res_no_panic. intros x _. pose proof (validated_endpoint_no_panic x).
    by destruct (validated_endpoint x).
  - destruct (_ <? _); [done|]. apply mapM_res_no_panic. intros [n i] _.
    apply build_endpoint_no_panic.
Qed.

Lemma raw_build_no_panic raw source_address tls network :
  raw_build raw source_address tls network ≠ Panic.
Proof.
  unfold raw_build. destruct (_ || _); [done|].
  case_bool_decide; [done|]. do 2 (case_bool_decide; cbn [negb]; [|done]).
  apply let_no_panic; [apply host_from_address_no_panic|intros host].
  apply let_no_panic; [apply resolve_network_no_panic|intros net].
  apply let_no_panic; [apply build_endpoints_no_panic|intros l].
  case_bool_decide; cbn [negb]; [|done].
  pose proof (build_routes_spec (rb_v_bucket_server_map raw) l) as Hr.
  by destruct (build_vbucket_routes _ l).
Qed.
Lemma from_json_no_panic from_slice payload source tls network :
  from_json from_slice payload source tls network ≠ Panic.
Proof. unfold from_json. destruct (from_slice payload); [done|apply raw_build_no_panic]. Qed.

(** ** The endpoints of a configuration *)

(** The address a node publishes on a network: its host there, or the host the configuration
    came from, and the port of the chosen transport. *)
Definition published (node : RawNodeExt) (network source_host : string) (tls : bool)
    (address : string) : Prop :=
  ∃ hostname services,
    (network = "default" ∧ hostname = default "" (ne_hostname node) ∧ services = ne_services node
     ∨ network ≠ "default" ∧ ∃ known alternate,
         ne_alternate_addresses node = Some known ∧ known !! network = Some alternate
         ∧ hostname = default "" (aa_hostname alternate)
         ∧ services = default (ne_services node) (aa_ports alternate))
    ∧ (if tls then ns_kv_ssl services else ns_kv services) ≠ 0
    ∧ format_endpoint (if decide (hostname = "") then source_host else hostname)
        (if tls then ns_kv_ssl services else ns_kv services) = Ok address.

(** The endpoint at one place of the server list [server].  Without [nodesExt] it is that
    entry; with it, the KV node at that place, under its UUID or, without one, the entry. *)
Definition listed_endpoint (raw : RawBucketConfig) (network source_host : string) (tls : bool)
    (i : nat) (server : string) (e : KvEndpoint) : Prop :=
  match rb_nodes_ext raw with
  | [] => tls = false ∧ network = "default" ∧ validated_endpoint server = Ok (ep_address e)
      ∧ ep_id e = ep_address e ∧ ep_canonical_address e = ep_address e
      ∧ ep_server_group e = None
  | nodes => ∃ node,
      filter (λ n, ns_kv (ne_services n) ≠ 0 ∨ ns_kv_ssl (ne_services n) ≠ 0) nodes !! i
        = Some node
      ∧ published node network source_host tls (ep_address e)
      ∧ published node "default" source_host tls (ep_canonical_address e)
      ∧ (∀ uuid, ne_node_uuid node = Some uuid → trim uuid ≠ "" → ep_id e = uuid)
      ∧ (trim (default "" (ne_node_uuid node)) = "" → validated_endpoint server = Ok (ep_id e))
  end.

Lemma node_endpoint_published node network source_host tls address :
  node_endpoint node network source_host tls = Ok address →
  published node network source_host tls address.
Proof.
  unfold node_endpoint. destruct (node_address node network) as [[hostname services]|e|] eqn:Ha;
    [|done..].
  destruct (Z.eqb_spec (if tls then ns_kv_ssl services else ns_kv services) 0) as [|Hp]; [done|].
  intros Hf. exists hostname, services. split_and!; [|done|].
  - clear Hf. unfold node_address in Ha. case_bool_decide as Hnet; [left; injection Ha as <- <-; by split_and!|right].
    split; [done|]. destruct (ne_alternate_addresses node) as [known|]; [|done].
    cbn [mbind option_bind] in Ha. destruct (known !! network) as [alternate|] eqn:Hk; [|done].
    cbn [ok_or] in Ha. injection Ha as <- <-. by exists known, alternate.
  - by case_decide; [rewrite bool_decide_true in Hf by done|rewrite bool_decide_false in Hf by done].
Qed.
Lemma kv_nodes_of_spec nodes :
  kv_nodes_of nodes = filter (λ n, ns_kv (ne_services n) ≠ 0 ∨ ns_kv_ssl (ne_services n) ≠ 0) nodes.
Proof. apply list_filter_iff. intros n. unfold is_kv_node. lia. Qed.
Lemma build_endpoints_listed raw servers source_host tls network l :
  build_endpoints (rb_nodes_ext raw) servers source_host tls network = Ok l →
  length l = length servers
  ∧ ∀ i e, l !! i = Some e → ∃ server, servers !! i = Some server
      ∧ listed_endpoint raw network source_host tls i server e.
Proof.
  unfold build_endpoints, listed_endpoint. case_bool_decide; [done|].
  destruct (rb_nodes_ext raw) as [|n nodes]; [rewrite bool_decide_true by done|
    rewrite bool_decide_false by done].
  - destruct tls; [done|]. case_bool_decide as Hnet; [|done]. cbn [negb].
    intros Hm%mapM_res_ok. split; [by apply Forall2_length in Hm|]. intros i e He.
    destruct (Forall2_lookup_r _ _ _ _ _ Hm He) as (server & Hs & Hr). exists server.
    split; [done|]. destruct (validated_endpoint server); simplify_eq/=. done.
  - rewrite kv_nodes_of_spec. set (kv := filter _ (n :: nodes)).
    destruct (Z.ltb_spec (len kv) (len servers)) as [|Hlen]; [done|].
    intros Hm%mapM_res_ok. split.
    { apply Forall2_length in Hm. rewrite length_zip in Hm. unfold len in Hlen. lia. }
    intros i e He. destruct (Forall2_lookup_r _ _ _ _ _ Hm He) as ([node server] & Hs & Hr).
    apply lookup_zip_Some in Hs as [Hn Hs]. exists server. split; [done|]. exists node.
    split; [done|]. unfold build_endpoint in Hr.
    destruct (node_endpoint node "default" source_host tls) as [ca| |] eqn:Hc; [|done..].
    destruct (node_endpoint node network source_host tls) as [a| |] eqn:Ha; [|done..].
    apply node_endpoint_published in Hc, Ha.
    case_bool_decide as Hu; [destruct (validated_endpoint server); [|done..]|];
      injection Hr as <-; (split_and!; [done..| |]); cbn [ep_id].
    + intros uuid Hid Hne. by rewrite Hid in Hu.
    + done.
    + intros uuid Hid _. by rewrite Hid.
    + done.
Qed.

(** The network the endpoints are on is the requested one. *)
Definition network_chosen (requested : TopologyNetwork) (network : string) : Prop :=
  match requested with
  | NetAuto => network = "default" ∨ network = "external"
  | NetDefault => network = "default"
  | NetExternal => network = "external"
  | NetNamed name => network = name
  end.
Lemma resolve_network_chosen requested nodes n source host tls network :
  resolve_network requested nodes n source host tls = Ok network →
  network_chosen requested network.
Proof.
  unfold resolve_network, network_chosen. destruct requested; cbn; intros Hr; try by simplify_eq.
  - repeat case_match; simplify_eq; auto.
  - by destruct (validate_network_name name); simplify_eq/=.
Qed.

(** C32: a cluster configuration that is accepted gives exactly its topology.  The endpoints
    are those of the server list, in order: each entry's KV node at the address it publishes
    on the requested network, filed under its own identity, no two alike.  The routes are
    exactly the rows of the vBucket map: the active node is the one the row's first entry
    names, the replicas those of the other entries in order, a missing server (-1) left out;
    so every vBucket has an active endpoint.  The bucket and the revision are those of the
    configuration, named and not negative; and malformed configurations are errors, never
    panics. *)
Theorem cluster_config_correct raw source_address tls network :
  let map := rb_v_bucket_server_map raw in
  match raw_build raw source_address tls network with
  | Ok t => ∃ source_host endpoints,
      host_from_address source_address = Ok source_host
      ∧ network_chosen network (ct_network t)
      ∧ length endpoints = length (rs_server_list map)
      ∧ (∀ i e, endpoints !! i = Some e → ∃ server, rs_server_list map !! i = Some server
           ∧ listed_endpoint raw (ct_network t) source_host tls i server e)
      ∧ NoDup (ep_id <$> endpoints)
      ∧ (∀ n e, ct_endpoints t !! n = Some e ↔ e ∈ endpoints ∧ ep_id e = n)
      ∧ (∀ vb, is_Some (ct_vbuckets t !! vb) ↔ 0 ≤ vb < len (rs_v_bucket_map map))
      ∧ (∀ vb r, ct_vbuckets t !! vb = Some r → ∃ row,
           rs_v_bucket_map map !! Z.to_nat vb = Some row ∧ row_route endpoints row r
           ∧ len row = rs_num_replicas map + 1
           ∧ ∃ e, active_endpoint t vb = Ok e ∧ e ∈ endpoints ∧ ep_id e = rt_active r)
      ∧ ct_bucket t = rb_name raw ∧ trim (ct_bucket t) ≠ ""
      ∧ tr_epoch (ct_revision t) = rb_rev_epoch raw ∧ tr_revision (ct_revision t) = rb_rev raw
      ∧ 0 ≤ rb_rev_epoch raw ∧ 0 ≤ rb_rev raw
  | Err _ => True
  | Panic => False
  end.
Proof.
  intros map. unfold raw_build. fold map. destruct (Z.ltb_spec (rb_rev raw) 0); [done|].
  destruct (Z.ltb_spec (rb_rev_epoch raw) 0); [done|]. cbn [orb].
  case_bool_decide as Hname; [done|]. case_bool_decide; cbn [negb]; [|done].
  case_bool_decide; cbn [negb]; [|done].
  destruct (host_from_address source_address) as [host|e|] eqn:Hh; [|done|exact (host_from_address_no_panic _ Hh)].
  destruct (resolve_network _ _ _ _ _ _) as [net|e|] eqn:Hn; [|done|exact (resolve_network_no_panic _ _ _ _ _ _ Hn)].
  destruct (build_endpoints _ _ _ _ _) as [l|e|] eqn:Hl; [|done|exact (build_endpoints_no_panic _ _ _ _ _ Hl)].
  case_bool_decide as Hsz; cbn [negb]; [|done].
  pose proof (build_routes_spec map l) as Hr.
  destruct (build_vbucket_routes _ l) as [routes|e|]; [|done..].
  destruct Hr as (Hdom & Hok & _). destruct (endpoint_map_spec l Hsz) as [Hnd Hmap].
  apply build_endpoints_listed in Hl as [Hlen Hlist].
  exists host, l. cbn [ct_network ct_vbuckets ct_endpoints ct_revision ct_bucket tr_epoch tr_revision].
  split_and!; try done; [by eapply resolve_network_chosen|].
  intros vb r Hvb. destruct (Hok vb r Hvb) as (row & Hrow & Hroute & Hrl). exists row.
  split_and!; [done..|].
  assert (rt_active r ∈ ep_id <$> l) as (e & Hid & He)%list_elem_of_fmap
    by (eapply row_route_endpoints; [done|by left]).
  exists e. split; [|by auto]. unfold active_endpoint, active_node, route_of.
  cbn [ct_vbuckets ct_endpoints]. rewrite Hvb. cbn [ok_or res_map].
  by rewrite (proj2 (Hmap (rt_active r) e)).
Qed.

Definition sample_raw : RawBucketConfig :=
  mkRawBucketConfig 3 1 "travel" "uuid" "vbucket"
    [mkRawNodeExt (Some "node-a") (mkRawServices 11210 11207) None (Some "a") None;
     mkRawNodeExt None (mkRawServices 11210 0) None None (Some "g")]
    (mkRawServerMap "CRC" 1 ["node-a:11210"; "node-b:11210"] [[0; 1]; [1; -1]]).

(** The second node has neither a host name nor an identity: it gets the source's host and
    its entry of the server list. *)
Example sample_raw_builds :
  (λ t, (btree_to_list (rt_active <$> ct_vbuckets t), ep_address <$> ct_endpoints t !! "node-b:11210"))
    <$> (match raw_build sample_raw "10.0.0.1:11210" false NetAuto with Ok t => Some t | _ => None end)
  = Some ([(0, "a"); (1, "node-b:11210")], Some "10.0.0.1:11210").
Proof. vm_compute. reflexivity. Qed.
