(* ===== verification/Settings.v ===== *)
(** * Client configuration ([rust-dcp-core/src/config.rs])

    Seed addresses, credentials, collection filters and the complete [DcpConfig] with its
    builder and validation.  The settings of flow control and rollback mitigation are in
    [Config].  [Ipv6Addr::from_str] is the standard library's parser. *)
From S2P Require Import Prelude Text Types Frame Codec Dcp Command Errors Checkpoint.
From S2P Require Import Config Async Transport Topology Cccp.

(** ** [Ipv6Addr::from_str] *)

(** A parser takes a prefix of the text or fails without taking any. *)
Definition parser (A : Type) : Type := string → option (A * string).

Definition read_given_char (a : Ascii.ascii) : parser unit := λ s,
  match strip_prefix a s with Some r => Some (tt, r) | None => None end.

(** Digits while they last: the value, the number of digits and the rest.  [None] when the
    value leaves the range or there are more than [max_digits]. *)
Fixpoint read_digits (radix max : Z) (max_digits : nat) (acc : Z) (count : nat) (s : string)
    {struct s} : option (Z * nat * string) :=
  match s with
  | EmptyString => Some (acc, count, s)
  | String a r =>
      match to_digit radix a with
      | None => Some (acc, count, s)
      | Some d =>
          if max <? acc * radix + d then None
          else match max_digits with
          | O => None
          | S n => read_digits radix max n (acc * radix + d) (S count) r
          end
      end
  end.
Definition zero_digit : Ascii.ascii := Ascii.ascii_of_N 48.
Definition read_number (radix max : Z) (max_digits : nat) (allow_zero_prefix : bool)
    : parser Z := λ s,
  match read_digits radix max max_digits 0 0 s with
  | Some (z, count, r) =>
      if bool_decide (count = 0%nat)
         || (negb allow_zero_prefix && starts_with zero_digit s && bool_decide (1 < count)%nat)
      then None else Some (z, r)
  | None => None
  end.

(** [read_separator]: from the second element on the separator comes first. *)
Definition read_separator {A} (sep : Ascii.ascii) (i : nat) (p : parser A) : parser A := λ s,
  match i with
  | O => p s
  | S _ => match read_given_char sep s with Some (_, r) => p r | None => None end
  end.

Definition read_ipv4_addr : parser unit := λ s,
  let octet i := read_separator dot i (read_number 10 255 3 false) in
  match octet 0%nat s with
  | None => None
  | Some (_, s) => match octet 1%nat s with
  | None => None
  | Some (_, s) => match octet 2%nat s with
  | None => None
  | Some (_, s) => match octet 3%nat s with
  | None => None
  | Some (_, s) => Some (tt, s)
  end end end end.

(** Up to [remaining] more groups after [i]: how many groups were read, whether an embedded
    IPv4 address ended them, and the rest. *)
Fixpoint read_groups (remaining i : nat) (s : string) : nat * bool * string :=
  match remaining with
  | O => (i, false, s)
  | S remaining =>
      let ipv4 := match remaining with
                  | O => None
                  | S _ => read_separator colon i read_ipv4_addr s
                  end in
      match ipv4 with
      | Some (_, r) => ((i + 2)%nat, true, r)
      | None =>
          match read_separator colon i (read_number 16 u16_max 4 true) s with
          | Some (_, r) => read_groups remaining (S i) r
          | None => (i, false, s)
          end
      end
  end.

Definition read_ipv6_addr : parser unit := λ s,
  let '(head_size, head_ipv4, s) := read_groups 8 0 s in
  if bool_decide (head_size = 8%nat) then Some (tt, s)
  else if head_ipv4 then None
  else
    match read_given_char colon s with
    | None => None
    | Some (_, s) =>
        match read_given_char colon s with
        | None => None
        | Some (_, s) =>
            let '(_, _, s) := read_groups (8 - (head_size + 1)) 0 s in Some (tt, s)
        end
    end.

(** The whole text must be consumed. *)
Definition parse_ipv6 (s : string) : string + unit :=
  match read_ipv6_addr s with
  | Some (_, EmptyString) => inr tt
  | _ => inl "invalid IPv6 address syntax"
  end.

Example ipv6_samples :
  parse_ipv6 "2001:db8::1" = inr tt ∧ parse_ipv6 "::" = inr tt
  ∧ parse_ipv6 "::ffff:10.0.0.1" = inr tt ∧ parse_ipv6 "1:2:3:4:5:6:7:8" = inr tt
  ∧ parse_ipv6 "a:b:c" = inl "invalid IPv6 address syntax"
  ∧ parse_ipv6 "::12345" = inl "invalid IPv6 address syntax"
  ∧ parse_ipv6 "1.2.3.4::" = inl "invalid IPv6 address syntax"
  ∧ parse_ipv6 "" = inl "invalid IPv6 address syntax".
Proof. vm_compute. done. Qed.

(** ** Seeds *)
Definition DEFAULT_KV_PORT : Z := 11210.
Definition DEFAULT_KV_TLS_PORT : Z := 11207.

Abbreviation SeedAddress := string (only parsing).

Definition validate_port (port : string) : result unit :=
  match parse_u16 port with
  | inr p => if negb (p =? 0) then Ok tt
             else Err (InvalidConfiguration ("invalid seed port " +:+ debug_str port))
  | inl _ => Err (InvalidConfiguration ("invalid seed port " +:+ debug_str port))
  end.

Definition validate_optional_port (suffix : string) : result unit :=
  if bool_decide (suffix = "") then Ok tt
  else match strip_prefix colon suffix with
  | None => Err (InvalidConfiguration "unexpected characters after bracketed IPv6 seed")
  | Some port => validate_port port
  end.

Definition validate_ipv6 (s : string) : result unit :=
  match parse_ipv6 s with
  | inr _ => Ok tt
  | inl error => Err (InvalidConfiguration ("invalid IPv6 seed: " +:+ error))
  end.

(** [value.contains("://")] *)
Fixpoint contains_scheme (s : string) : bool :=
  match s with
  | String a ((String b (String c _)) as r) =>
      bool_decide (a = colon ∧ b = slash ∧ c = slash) || contains_scheme r
  | _ => false
  end.

(** [SeedAddress::from_str] *)
Definition seed_from_str (value : string) : result SeedAddress :=
  let value := trim value in
  if bool_decide (value = "") || has_whitespace value then
    Err (InvalidConfiguration "seed address must be non-empty and contain no whitespace")
  else if contains_scheme value then
    Err (InvalidConfiguration "seed address must not include a URI scheme")
  else
    match strip_prefix open_bracket value with
    | Some stripped =>
        match split_once close_bracket stripped with
        | None => Err (InvalidConfiguration "bracketed IPv6 seed is missing a closing bracket")
        | Some (host, suffix) =>
            do? validate_ipv6 host in
            do? validate_optional_port suffix in
            Ok value
        end
    | None =>
        match count_char colon value with
        | 0%nat => Ok value
        | 1%nat =>
            match rsplit_once colon value with
            | None => Panic
            | Some (host, port) =>
                if bool_decide (host = "") then
                  Err (InvalidConfiguration "seed host must not be empty")
                else do? validate_port port in Ok value
            end
        | _ => do? validate_ipv6 value in Ok value
        end
    end.

(** The text after the last [_]_[:] of a bracketed seed ([rfind]). *)
Fixpoint after_last_bracket_colon (s : string) : option string :=
  match s with
  | String a r =>
      match after_last_bracket_colon r with
      | Some t => Some t
      | None =>
          match r with
          | String b t => if bool_decide (a = close_bracket ∧ b = colon) then Some t else None
          | _ => None
          end
      end
  | _ => None
  end.

Definition has_explicit_port (seed : SeedAddress) : bool :=
  if starts_with open_bracket seed then
    match after_last_bracket_colon seed with
    | Some rest => negb (bool_decide (rest = ""))
    | None => false
    end
  else bool_decide (count_char colon seed = 1%nat)
       && match rsplit_once colon seed with
          | Some (_, port) => match parse_u16 port with inr _ => true | inl _ => false end
          | None => false
          end.

Definition with_default_kv_port (seed : SeedAddress) (tls : bool) : string :=
  if has_explicit_port seed then seed
  else
    let port := if tls then DEFAULT_KV_TLS_PORT else DEFAULT_KV_PORT in
    if contains colon seed && negb (starts_with open_bracket seed)
    then "[" +:+ seed +:+ "]:" +:+ pretty port
    else seed +:+ ":" +:+ pretty port.

(** ** Remaining settings *)
Record Credentials : Type := mkCredentials {
  cr_username : string;
  cr_password : string
}.

(** [endpoint_host] of [transport.rs]: the host of a seed, without brackets and port. *)
Definition endpoint_host (seed : SeedAddress) : string :=
  let without_port :=
    if bool_decide (count_char colon seed = 1%nat)
    then match rsplit_once colon seed with Some (host, _) => host | None => seed end
    else seed in
  match strip_prefix open_bracket seed with
  | Some stripped =>
      match split_once close_bracket stripped with
      | Some (host, _) => host
      | None => without_port
      end
  | None => without_port
  end.

Record TlsConfig : Type := mkTlsConfig {
  tls_enabled : bool;
  tls_root_ca_path : option string;
  tls_server_name : option string
}.
Definition tls_default : TlsConfig := mkTlsConfig false None None.

Inductive DcpPriority : Type := PriorityLow | PriorityMedium | PriorityHigh.

Record CollectionFilter : Type := mkCollectionFilter {
  cf_scope : string;
  cf_collections : list string
}.
Definition collection_filter_default : CollectionFilter :=
  mkCollectionFilter "_default" ["_default"].

Definition config_validate_collection_name (kind name : string) : result unit :=
  if bool_decide (name = "") || (251 <? str_len name) then
    Err (InvalidConfiguration (kind +:+ " name must contain between 1 and 251 ASCII characters"))
  else if negb (forallb is_collection_char (as_bytes name)) then
    Err (InvalidConfiguration
      (kind +:+ " name contains a character unsupported by Couchbase collections"))
  else Ok tt.

Definition collection_filter_validate (f : CollectionFilter) : result unit :=
  do? config_validate_collection_name "scope" (cf_scope f) in
  do? for_res (cf_collections f) tt (λ _, config_validate_collection_name "collection") in
  if negb (bool_decide (NoDup (cf_collections f))) then
    Err (InvalidConfiguration "collection names must be unique")
  else Ok tt.

Record HealthCheckConfig : Type := mkHealthCheckConfig {
  hc_enabled : bool;
  hc_interval : Duration;
  hc_timeout : Duration
}.
Definition health_check_default : HealthCheckConfig :=
  mkHealthCheckConfig true (from_secs 60) (from_secs 10).
Definition health_check_validate (c : HealthCheckConfig) : result unit :=
  if hc_enabled c && (hc_interval c =? 0) then
    Err (InvalidConfiguration "health-check interval must be greater than zero")
  else if hc_enabled c && (hc_timeout c =? 0) then
    Err (InvalidConfiguration "health-check timeout must be greater than zero")
  else Ok tt.

Definition checkpoint_config_default : CheckpointConfig :=
  mkCheckpointConfig (Automatic (from_secs 60)) (from_secs 60).

(** A [SystemTime] is its number of nanoseconds after the epoch. *)
Record ListenerConfig : Type := mkListenerConfig {
  lc_skip_until : option Z
}.

(** ** [DcpConfig] *)
Record DcpConfig : Type := mkDcpConfig {
  dc_seeds : list SeedAddress;
  dc_credentials : Credentials;
  dc_bucket : string;
  dc_collections : CollectionFilter;
  dc_mode : DcpMode;
  dc_start_from : StartPosition;
  dc_listener : ListenerConfig;
  dc_flow_control : FlowControlConfig;
  dc_checkpoint : CheckpointConfig;
  dc_rollback_policy : RollbackPolicy;
  dc_rollback_mitigation : RollbackMitigationConfig;
  dc_priority : DcpPriority;
  dc_disable_change_streams : bool;
  dc_connect_timeout : Duration;
  dc_tls : TlsConfig;
  dc_network : TopologyNetwork;
  dc_health_check : HealthCheckConfig
}.

(** [DcpConfig::builder]: the defaults around the credentials and the bucket. *)
Definition builder (credentials : Credentials) (bucket : string) : DcpConfig :=
  mkDcpConfig [] credentials bucket collection_filter_default Infinite StartEarliest
    (mkListenerConfig None) flow_control_default checkpoint_config_default PolicyStopAndReport
    rollback_mitigation_default PriorityMedium false (from_secs 60) tls_default NetAuto
    health_check_default.

Definition builder_seed (seed : string) (c : DcpConfig) : result DcpConfig :=
  let? parsed := seed_from_str seed in
  Ok (mkDcpConfig (dc_seeds c ++ [parsed]) (dc_credentials c) (dc_bucket c) (dc_collections c)
        (dc_mode c) (dc_start_from c) (dc_listener c) (dc_flow_control c) (dc_checkpoint c)
        (dc_rollback_policy c) (dc_rollback_mitigation c) (dc_priority c)
        (dc_disable_change_streams c) (dc_connect_timeout c) (dc_tls c) (dc_network c)
        (dc_health_check c)).

Definition config_validate (c : DcpConfig) : result unit :=
  if bool_decide (dc_seeds c = []) then
    Err (InvalidConfiguration "at least one seed is required")
  else if bool_decide (trim (cr_username (dc_credentials c)) = "") then
    Err (InvalidConfiguration "username must not be empty")
  else if bool_decide (cr_password (dc_credentials c) = "") then
    Err (InvalidConfiguration "password must not be empty")
  else if bool_decide (trim (dc_bucket c) = "") then
    Err (InvalidConfiguration "bucket must not be empty")
  else if dc_connect_timeout c =? 0 then
    Err (InvalidConfiguration "connection timeout must be greater than zero")
  else if bool_decide (tls_server_name (dc_tls c) = Some "") then
    Err (InvalidConfiguration "TLS server name must not be empty")
  else
    do? collection_filter_validate (dc_collections c) in
    do? flow_control_validate (dc_flow_control c) in
    do? checkpoint_config_validate (dc_checkpoint c) in
    do? rollback_mitigation_validate (dc_rollback_mitigation c) in
    do? health_check_validate (dc_health_check c) in
    Ok tt.

Definition config_build (c : DcpConfig) : result DcpConfig :=
  do? config_validate c in Ok c.

Example builder_defaults_valid :
  match builder_seed "cb.example.test" (builder (mkCredentials "alice" "secret") "bucket") with
  | Ok c => config_validate c = Ok tt
      ∧ (λ s, with_default_kv_port s false) <$> dc_seeds c = ["cb.example.test:11210"]
  | _ => False
  end.
Proof. vm_compute. done. Qed.
Example builder_requires_seed :
  config_build (builder (mkCredentials "alice" "secret") "bucket")
  = Err (InvalidConfiguration "at least one seed is required").
Proof. vm_compute. reflexivity. Qed.
Example seed_samples :
  with_default_kv_port "2001:db8::1" true = "[2001:db8::1]:11207"
  ∧ seed_from_str "cb.example.test:70000"
    = Err (InvalidConfiguration ("invalid seed port " +:+ debug_str "70000"))
  ∧ seed_from_str "[2001:db8::1]:0"
    = Err (InvalidConfiguration ("invalid seed port " +:+ debug_str "0")).
Proof. vm_compute. done. Qed.

(** ** Lemmas *)

Lemma has_whitespace_app s t :
  has_whitespace (s +:+ t) = false → has_whitespace s = false ∧ has_whitespace t = false.
Proof.
  induction s as [|a s IH]; [done|].
  change (String a s +:+ t) with (String a (s +:+ t)). cbn [has_whitespace].
  intros H. apply orb_false_iff in H as [Hs Hr]. destruct (IH Hr) as [Hs' Ht]. split; [|done].
  apply orb_false_iff. split; [|done]. revert Hs.
  unfold starts_whitespace. destruct s as [|b s]; [by destruct (ws1 a)|].
  change (String b s +:+ t) with (String b (s +:+ t)).
  destruct (ws1 a), (ws2 a b); cbn [orb]; try done. by destruct s.
Qed.

Lemma split_once_spec a s x y :
  split_once a s = Some (x, y) → s = x +:+ String a y ∧ contains a x = false.
Proof.
  revert x y. induction s as [|b s IH]; intros x y; cbn [split_once]; [done|].
  destruct (decide (a = b)) as [<-|Hne]; [by intros [= <- <-]|].
  destruct (split_once a s) as [[x' y']|]; [|done]. intros [= <- <-].
  destruct (IH _ _ eq_refl) as [-> Hc]. split; [done|]. cbn [contains].
  by rewrite bool_decide_false, Hc.
Qed.

Lemma rsplit_once_spec a s x y :
  rsplit_once a s = Some (x, y) → s = x +:+ String a y ∧ contains a y = false.
Proof.
  revert x y. induction s as [|b s IH]; intros x y; cbn [rsplit_once]; [done|].
  destruct (rsplit_once a s) as [[x' y']|] eqn:Hr.
  - intros [= <- <-]. by destruct (IH _ _ eq_refl) as [-> Hc].
  - destruct (decide (a = b)) as [<-|Hne]; [|done]. intros [= <- <-]. split; [done|].
    clear -Hr. induction s as [|c s IH]; [done|]. cbn [rsplit_once contains] in *.
    destruct (rsplit_once a s) as [[? ?]|]; [done|]. destruct (decide (a = c)); [done|].
    rewrite bool_decide_false by done. by apply IH.
Qed.

Lemma count_char_app a s t : count_char a (s +:+ t) = (count_char a s + count_char a t)%nat.
Proof.
  induction s as [|b s IH]; [done|]. change (String b s +:+ t) with (String b (s +:+ t)).
  cbn [count_char]. rewrite IH. lia.
Qed.
Lemma count_char_zero a s : count_char a s = 0%nat ↔ contains a s = false.
Proof.
  induction s as [|b s IH]; [done|]. cbn [count_char contains].
  destruct (decide (a = b)) as [->|]; [by rewrite bool_decide_true|].
  rewrite bool_decide_false by done. exact IH.
Qed.

Lemma parse_host_port_ok host port p original :
  host ≠ "" → has_whitespace host = false → parse_u16 port = inr p → p ≠ 0 →
  parse_host_port host port original = Ok (host, p).
Proof.
  intros Hne Hws Hp Hz. unfold parse_host_port. rewrite bool_decide_false, Hws by done.
  cbn [orb]. rewrite Hp. by destruct (Z.eqb_spec p 0).
Qed.

Lemma validate_port_ok port : validate_port port = Ok tt → ∃ p, parse_u16 port = inr p ∧ p ≠ 0.
Proof.
  unfold validate_port. destruct (parse_u16 port) as [e|p]; [done|].
  destruct (Z.eqb_spec p 0); [done|]. eauto.
Qed.

(** *** What the IPv6 parser consumes *)

Definition ipv6_char (a : Ascii.ascii) : bool :=
  bool_decide (is_Some (to_digit 16 a)) || bool_decide (a = colon) || bool_decide (a = dot).
Fixpoint ipv6_chars (s : string) : bool :=
  match s with EmptyString => true | String a r => ipv6_char a && ipv6_chars r end.

(** A parser that only takes characters of IPv6 addresses. *)
Definition ipv6_parser {A} (p : parser A) : Prop :=
  ∀ s x r, p s = Some (x, r) → ∃ t, s = t +:+ r ∧ ipv6_chars t = true.

Lemma ipv6_chars_app s t : ipv6_chars (s +:+ t) = ipv6_chars s && ipv6_chars t.
Proof.
  induction s as [|a s IH]; [done|]. change (String a s +:+ t) with (String a (s +:+ t)).
  cbn [ipv6_chars]. by rewrite IH, andb_assoc.
Qed.

Lemma read_given_char_ipv6 a : ipv6_char a = true → ipv6_parser (read_given_char a).
Proof.
  intros Ha s [] r. unfold read_given_char. destruct s as [|b s]; [done|]. cbn [strip_prefix].
  destruct (decide (a = b)) as [<-|]; [|done]. intros [= <-]. exists (String a "").
  split; [done|]. cbn. by rewrite Ha.
Qed.

Lemma to_digit_mono radix a d : radix ≤ 16 → to_digit radix a = Some d → is_Some (to_digit 16 a).
Proof.
  unfold to_digit. intros Hr.
  set (o := if _ && _ then Some (char_code a - 48) else _). destruct o as [e|]; [|done].
  destruct (Z.ltb_spec e radix), (Z.ltb_spec e 16); [by eexists|lia|done..].
Qed.

Lemma read_digits_ipv6 radix max n acc count s z c r :
  radix ≤ 16 → read_digits radix max n acc count s = Some (z, c, r) →
  ∃ t, s = t +:+ r ∧ ipv6_chars t = true.
Proof.
  intros Hr. revert n acc count. induction s as [|a s IH]; intros n acc count; cbn [read_digits].
  { intros ?; simplify_eq. by exists "". }
  destruct (to_digit radix a) as [d|] eqn:Hd.
  2:{ intros ?; simplify_eq. by exists "". }
  destruct (_ <? _); [done|]. destruct n as [|n]; [done|].
  intros (t & -> & Ht)%IH. exists (String a t). split; [done|]. cbn [ipv6_chars].
  rewrite Ht, andb_true_r. unfold ipv6_char. apply orb_true_iff. left. apply orb_true_iff. left.
  apply bool_decide_true. by eapply to_digit_mono.
Qed.

Lemma read_number_ipv6 radix max n zero :
  radix ≤ 16 → ipv6_parser (read_number radix max n zero).
Proof.
  intros Hr s z r. unfold read_number.
  destruct (read_digits radix max n 0 0 s) as [[[z' c] r']|] eqn:Hd; [|done].
  destruct (_ || _); [done|]. intros [= <- <-]. by eapply read_digits_ipv6.
Qed.

Lemma read_separator_ipv6 {A} sep i (p : parser A) :
  ipv6_char sep = true → ipv6_parser p → ipv6_parser (read_separator sep i p).
Proof.
  intros Hs Hp s x r. unfold read_separator. destruct i; [apply Hp|].
  destruct (read_given_char sep s) as [[[] r1]|] eqn:Hg; [|done]. intros Hr.
  apply read_given_char_ipv6 in Hg as (t1 & -> & Ht1); [|done].
  apply Hp in Hr as (t2 & -> & Ht2). exists (t1 +:+ t2). split; [by rewrite append_assoc|].
  by rewrite ipv6_chars_app, Ht1, Ht2.
Qed.

Lemma read_ipv4_ipv6 : ipv6_parser read_ipv4_addr.
Proof.
  assert (∀ i, ipv6_parser (read_separator dot i (read_number 10 255 3 false))) as Ho.
  { intros i. apply read_separator_ipv6; [done|]. by apply read_number_ipv6. }
  intros s [] r. unfold read_ipv4_addr.
  destruct (read_separator dot 0 _ s) as [[z0 s0]|] eqn:H0; [|done].
  destruct (read_separator dot 1 _ s0) as [[z1 s1]|] eqn:H1; [|done].
  destruct (read_separator dot 2 _ s1) as [[z2 s2]|] eqn:H2; [|done].
  destruct (read_separator dot 3 _ s2) as [[z3 s3]|] eqn:H3; [|done]. intros [= <-].
  apply Ho in H0 as (t0 & -> & E0), H1 as (t1 & -> & E1), H2 as (t2 & -> & E2), H3 as (t3 & -> & E3).
  exists (t0 +:+ (t1 +:+ (t2 +:+ t3))). split; [by rewrite !append_assoc|].
  by rewrite !ipv6_chars_app, E0, E1, E2, E3.
Qed.

Lemma read_groups_ipv6 n i s m b r :
  read_groups n i s = (m, b, r) → ∃ t, s = t +:+ r ∧ ipv6_chars t = true.
Proof.
  revert i s. induction n as [|n IH]; intros i s; cbn [read_groups].
  { intros ?; simplify_eq. by exists "". }
  assert (ipv6_parser (read_separator colon i read_ipv4_addr)) as H4
    by (apply read_separator_ipv6; [done|apply read_ipv4_ipv6]).
  assert (ipv6_parser (read_separator colon i (read_number 16 u16_max 4 true))) as Hg
    by (apply read_separator_ipv6; [done|by apply read_number_ipv6]).
  destruct (match n with O => None | S _ => _ end) as [[u r1]|] eqn:Hv4.
  { intros ?; simplify_eq. destruct n; [done|]. by eapply H4. }
  destruct (read_separator colon i (read_number _ _ _ _) s) as [[z r1]|] eqn:Hr1.
  - intros Hn. apply Hg in Hr1 as (t1 & -> & E1). apply IH in Hn as (t2 & -> & E2).
    exists (t1 +:+ t2). split; [by rewrite append_assoc|]. by rewrite ipv6_chars_app, E1, E2.
  - intros ?; simplify_eq. by exists "".
Qed.

Lemma read_ipv6_ipv6 : ipv6_parser read_ipv6_addr.
Proof.
  intros s [] r. unfold read_ipv6_addr.
  destruct (read_groups 8 0 s) as [[n b] s0] eqn:H0. apply read_groups_ipv6 in H0 as (t0 & -> & E0).
  case_bool_decide; [intros [= <-]; by exists t0|]. destruct b; [done|].
  destruct (read_given_char colon s0) as [[[] s1]|] eqn:H1; [|done].
  destruct (read_given_char colon s1) as [[[] s2]|] eqn:H2; [|done].
  destruct (read_groups _ 0 s2) as [[n' b'] s3] eqn:H3. intros [= <-].
  apply read_groups_ipv6 in H3 as (t3 & -> & E3).
  apply read_given_char_ipv6 in H1 as (t1 & -> & E1); [|done].
  apply read_given_char_ipv6 in H2 as (t2 & -> & E2); [|done].
  exists (t0 +:+ (t1 +:+ (t2 +:+ t3))). split; [by rewrite !append_assoc|].
  by rewrite !ipv6_chars_app, E0, E1, E2, E3.
Qed.

Lemma validate_ipv6_ok s :
  validate_ipv6 s = Ok tt → s ≠ "" ∧ contains close_bracket s = false.
Proof.
  unfold validate_ipv6, parse_ipv6. intros H. split; [by intros ->|].
  destruct (read_ipv6_addr s) as [[[] [|a r]]|] eqn:Hr; try done.
  apply read_ipv6_ipv6 in Hr as (t & -> & Ht). clear H.
  assert (∀ t, ipv6_chars t = true → contains close_bracket (t +:+ "") = false) as Hc; [|by apply Hc].
  clear. induction t as [|a t IH]; [done|]. change (String a t +:+ "") with (String a (t +:+ "")).
  cbn [ipv6_chars contains]. intros H. apply andb_true_iff in H as [Ha Ht]. rewrite IH by done.
  case_bool_decide as Hb; [|done]. subst a. by vm_compute in Ha.
Qed.

Lemma validate_ipv6_no_panic s : validate_ipv6 s ≠ Panic.
Proof. unfold validate_ipv6. by destruct (parse_ipv6 s). Qed.
Lemma validate_port_no_panic s : validate_port s ≠ Panic.
Proof. unfold validate_port. destruct (parse_u16 s); [done|]. by destruct (negb _). Qed.
Lemma validate_optional_port_no_panic s : validate_optional_port s ≠ Panic.
Proof.
  unfold validate_optional_port. case_bool_decide; [done|].
  destruct (strip_prefix colon s); [apply validate_port_no_panic|done].
Qed.
Lemma rsplit_once_none_inv a s : rsplit_once a s = None → contains a s = false.
Proof.
  induction s as [|b s IH]; [done|]. cbn [rsplit_once contains].
  destruct (rsplit_once a s) as [[? ?]|]; [done|]. destruct (decide (a = b)); [done|].
  intros _. rewrite bool_decide_false by done. by apply IH.
Qed.

Lemma strip_prefix_starts a s : starts_with a s = bool_decide (is_Some (strip_prefix a s)).
Proof.
  destruct s as [|b s]; [done|]. cbn. destruct (decide (a = b)); [by rewrite bool_decide_true|].
  by rewrite bool_decide_false.
Qed.

Definition seed_connects (seed : string) (tls : bool) : Prop :=
  ∃ host port, split_endpoint (with_default_kv_port seed tls) = Ok (host, port)
    ∧ host ≠ "" ∧ 1 ≤ port ≤ u16_max ∧ endpoint_host seed = host.

Lemma parse_u16_range s p : parse_u16 s = inr p → 0 ≤ p ≤ u16_max.
Proof.
  assert (∀ s acc p, 0 ≤ acc ≤ u16_max → parse_digits 10 u16_max acc s = inr p →
    0 ≤ p ≤ u16_max) as Hgo.
  { clear. induction s as [|a s IH]; intros acc p Hacc; cbn [parse_digits]; [by intros [= <-]|].
    destruct (to_digit 10 a) as [d|] eqn:Hd; [|done].
    destruct (Z.ltb_spec u16_max (acc * 10 + d)); [done|]. apply IH.
    assert (0 ≤ d); [|lia]. revert Hd. unfold to_digit.
    destruct ((48 <=? char_code a) && (char_code a <=? 57)) eqn:E1.
    { destruct (_ <? 10); [|done]. intros [= <-]. lia. }
    destruct ((97 <=? char_code a) && (char_code a <=? 122)) eqn:E2.
    { destruct (_ <? 10); [|done]. intros [= <-]. lia. }
    destruct ((65 <=? char_code a) && (char_code a <=? 90)) eqn:E3; [|done].
    destruct (_ <? 10); [|done]. intros [= <-]. lia. }
  assert (0 ≤ 0 ≤ u16_max) as H0 by (unfold u16_max; lia).
  unfold parse_u16, from_str_radix. destruct s as [|a s]; [done|].
  destruct (decide (a = plus_sign)); [destruct s; [done|]|]; by apply Hgo.
Qed.

Section Seeds.
Context (v : string) (tls : bool).
Hypothesis Hne : v ≠ "".
Hypothesis Hws : has_whitespace v = false.
Let port : Z := if tls then DEFAULT_KV_TLS_PORT else DEFAULT_KV_PORT.

Lemma default_port_parses : parse_u16 (pretty port) = inr port ∧ port ≠ 0 ∧ 1 ≤ port ≤ u16_max.
Proof.
  assert (1 ≤ port ≤ u16_max) by (unfold port; destruct tls; vm_compute; split; discriminate).
  split_and!; [apply parse_pretty| |..]; lia.
Qed.

Lemma bracket_colon_split host s :
  contains close_bracket host = false →
  split_endpoint ("[" +:+ host +:+ String close_bracket (String colon s))
  = parse_host_port host s ("[" +:+ host +:+ String close_bracket (String colon s)).
Proof.
  intros Hh. unfold split_endpoint.
  change (strip_prefix open_bracket ("[" +:+ host +:+ String close_bracket (String colon s)))
    with (Some (host +:+ String close_bracket (String colon s))).
  cbv beta iota. by rewrite split_once_app.
Qed.

Lemma ipv6_seed :
  (1 < count_char colon v)%nat → strip_prefix open_bracket v = None →
  validate_ipv6 v = Ok tt → seed_connects v tls.
Proof using Hne Hws.
  intros Hc Hp Hv. destruct (validate_ipv6_ok v Hv) as [_ Hb].
  destruct default_port_parses as (Hpp & Hp0 & Hpr).
  assert (starts_with open_bracket v = false) as Hsw
    by (rewrite strip_prefix_starts, Hp; by apply bool_decide_false; intros []).
  assert (contains colon v = true) as Hcc.
  { destruct (contains colon v) eqn:E; [done|]. apply count_char_zero in E. lia. }
  unfold seed_connects, with_default_kv_port, has_explicit_port. rewrite Hsw.
  rewrite bool_decide_false by lia. cbn [andb]. rewrite Hcc. cbn [andb negb].
  exists v, port. split; [|split; [done|split; [done|]]]; fold port.
  2:{ unfold endpoint_host. rewrite Hp, bool_decide_false by lia. done. }
  change ("[" +:+ v +:+ "]:" +:+ pretty port)
    with ("[" +:+ v +:+ String close_bracket (String colon (pretty port))).
  rewrite bracket_colon_split by done. by apply parse_host_port_ok.
Qed.

Lemma plain_seed :
  strip_prefix open_bracket v = None → contains colon v = false → seed_connects v tls.
Proof using Hne Hws.
  intros Hp Hc. destruct default_port_parses as (Hpp & Hp0 & Hpr).
  assert (starts_with open_bracket v = false) as Hsw
    by (rewrite strip_prefix_starts, Hp; by apply bool_decide_false; intros []).
  unfold seed_connects, with_default_kv_port, has_explicit_port. rewrite Hsw.
  apply count_char_zero in Hc as Hc0. rewrite Hc0. cbn [andb]. rewrite bool_decide_false by done.
  cbn [andb]. rewrite Hc. cbn [andb]. fold port. exists v, port.
  split; [|split; [done|split; [done|]]].
  2:{ unfold endpoint_host. rewrite Hp, bool_decide_false by (rewrite Hc0; done). done. }
  unfold split_endpoint. rewrite strip_prefix_app by done.
  change (v +:+ ":" +:+ pretty port) with (v +:+ String colon (pretty port)) at 1.
  rewrite rsplit_once_app.
  2:{ apply all_digits_contains; [reflexivity|]. apply pretty_digits. lia. }
  cbn [ok_or fst snd]. rewrite Hc. by apply parse_host_port_ok.
Qed.

Lemma host_port_seed host p :
  strip_prefix open_bracket v = None → count_char colon v = 1%nat →
  rsplit_once colon v = Some (host, p) → host ≠ "" → validate_port p = Ok tt →
  seed_connects v tls.
Proof using Hne Hws.
  intros Hp Hc Hr Hh Hv. destruct (validate_port_ok p Hv) as (n & Hn & Hn0).
  assert (starts_with open_bracket v = false) as Hsw
    by (rewrite strip_prefix_starts, Hp; by apply bool_decide_false; intros []).
  unfold seed_connects, with_default_kv_port, has_explicit_port. rewrite Hsw.
  rewrite bool_decide_true by done. cbn [andb]. rewrite Hr, Hn.
  pose proof (rsplit_once_spec _ _ _ _ Hr) as [Hvs _].
  assert (contains colon host = false) as Hch.
  { apply count_char_zero. rewrite Hvs, count_char_app in Hc. cbn [count_char] in Hc.
    rewrite decide_True in Hc by done. lia. }
  assert (has_whitespace host = false) as Hwh
    by (rewrite Hvs in Hws; by apply has_whitespace_app in Hws as [? _]).
  apply parse_u16_range in Hn as Hrange.
  exists host, n. split; [|split; [done|split; [lia|]]].
  2:{ unfold endpoint_host. by rewrite Hp, bool_decide_true, Hr by done. }
  unfold split_endpoint. rewrite Hp, Hr. cbn [ok_or fst snd]. rewrite Hch.
  by apply parse_host_port_ok.
Qed.
End Seeds.

(** After the closing bracket of the host nothing but a port can follow. *)
Lemma after_last_none s : contains close_bracket s = false → after_last_bracket_colon s = None.
Proof.
  induction s as [|a s IH]; [done|]. cbn [contains after_last_bracket_colon].
  intros H. apply orb_false_iff in H as [Ha Hs]. apply bool_decide_eq_false in Ha.
  rewrite IH by done. destruct s as [|b s]; [done|]. by rewrite bool_decide_false by (by intros [-> _]).
Qed.
Lemma after_last_app s t u :
  after_last_bracket_colon t = Some u → after_last_bracket_colon (s +:+ t) = Some u.
Proof.
  intros Ht. induction s as [|a s IH]; [done|].
  change (String a s +:+ t) with (String a (s +:+ t)). cbn [after_last_bracket_colon]. by rewrite IH.
Qed.

Lemma digits_no_bracket p n : parse_u16 p = inr n → contains close_bracket p = false.
Proof.
  assert (∀ s acc, parse_digits 10 u16_max acc s = inr n → contains close_bracket s = false) as Hgo.
  { clear. induction s as [|a s IH]; intros acc; cbn [parse_digits contains]; [done|].
    destruct (to_digit 10 a) as [d|] eqn:Hd; [|done]. destruct (_ <? _); [done|].
    intros Hs. rewrite (IH _ Hs). case_bool_decide as Hb; [|done]. subst a. by vm_compute in Hd. }
  unfold parse_u16, from_str_radix. destruct p as [|a s]; [done|].
  destruct (decide (a = plus_sign)) as [->|].
  - destruct s as [|b s]; [done|]. intros Hs%Hgo. cbn [contains] in *. by rewrite Hs.
  - apply Hgo.
Qed.

Lemma bracketed_seed v tls stripped host suffix :
  has_whitespace v = false → strip_prefix open_bracket v = Some stripped →
  split_once close_bracket stripped = Some (host, suffix) → validate_ipv6 host = Ok tt →
  validate_optional_port suffix = Ok tt → seed_connects v tls.
Proof.
  intros Hws Hp Hs Hv Ho. destruct (validate_ipv6_ok host Hv) as [Hhne Hhb].
  destruct (default_port_parses tls) as (Hpp & Hp0 & Hpr).
  assert (v = String open_bracket (host +:+ String close_bracket suffix)) as Hveq.
  { destruct v as [|a r]; [done|]. cbn [strip_prefix] in Hp.
    destruct (decide (open_bracket = a)) as [<-|]; [|done]. injection Hp as ->.
    f_equal. by apply split_once_spec in Hs as [-> _]. }
  assert (has_whitespace host = false) as Hwh.
  { rewrite Hveq in Hws. cbn [has_whitespace] in Hws. apply orb_false_iff in Hws as [_ Hws].
    by apply has_whitespace_app in Hws as [? _]. }
  assert (starts_with open_bracket v = true) as Hsw by (by rewrite Hveq).
  assert (endpoint_host v = host) as Heh by (unfold endpoint_host; by rewrite Hp, Hs).
  unfold seed_connects, with_default_kv_port, has_explicit_port. rewrite Hsw.
  unfold validate_optional_port in Ho. case_bool_decide as Hsuf.
  - assert (after_last_bracket_colon v = None) as Hnone.
    { subst. clear -Hhb. cbn [after_last_bracket_colon].
      assert (∀ h, contains close_bracket h = false →
        after_last_bracket_colon (h +:+ String close_bracket "") = None) as Hg.
      { clear. induction h as [|a h IH]; [done|].
        change (String a h +:+ String close_bracket "") with (String a (h +:+ String close_bracket "")).
        cbn [contains after_last_bracket_colon]. intros H. apply orb_false_iff in H as [Ha Hh].
        apply bool_decide_eq_false in Ha. rewrite IH by done.
        destruct (h +:+ String close_bracket ""); [done|].
        by rewrite bool_decide_false by (by intros [-> _]). }
      rewrite Hg by done. destruct (host +:+ String close_bracket ""); [done|].
      by rewrite bool_decide_false by (by intros [? _]). }
    rewrite Hnone. rewrite andb_false_r. exists host, (if tls then DEFAULT_KV_TLS_PORT else DEFAULT_KV_PORT).
    split; [|done]. subst suffix.
    set (p := pretty _) in *.
    assert (v +:+ ":" +:+ p = "[" +:+ host +:+ String close_bracket (String colon p)) as ->.
    { rewrite Hveq. change (String open_bracket (host +:+ String close_bracket "") +:+ ":" +:+ p)
        with (String open_bracket ((host +:+ String close_bracket "") +:+ String colon p)).
      by rewrite append_assoc. }
    rewrite bracket_colon_split by done. by apply parse_host_port_ok.
  - destruct (strip_prefix colon suffix) as [p|] eqn:Hsp; [|done].
    destruct (validate_port_ok p Ho) as (n & Hn & Hn0).
    assert (suffix = String colon p) as ->.
    { destruct suffix as [|a r]; [done|]. cbn [strip_prefix] in Hsp.
      destruct (decide (colon = a)) as [<-|]; [|done]. by injection Hsp as ->. }
    assert (after_last_bracket_colon v = Some p) as Hsome.
    { rewrite Hveq. change (String open_bracket (host +:+ String close_bracket (String colon p)))
        with ("[" +:+ (host +:+ String close_bracket (String colon p))).
      do 2 apply after_last_app. cbn [after_last_bracket_colon].
      pose proof (digits_no_bracket p n Hn) as Hd.
      rewrite (after_last_none p) by done. destruct p as [|a p']; [done|]. reflexivity. }
    rewrite Hsome, bool_decide_false by (by intros ->). cbn [negb].
    apply parse_u16_range in Hn as Hrange.
    exists host, n. split; [|split; [done|split; [lia|done]]]. rewrite Hveq.
    change (String open_bracket (host +:+ String close_bracket (String colon p)))
      with ("[" +:+ host +:+ String close_bracket (String colon p)).
    rewrite bracket_colon_split by done. by apply parse_host_port_ok.
Qed.

Lemma seed_from_str_no_panic value : seed_from_str value ≠ Panic.
Proof.
  unfold seed_from_str. set (v := trim value). destruct (_ || _); [done|].
  destruct (contains_scheme v); [done|]. destruct (strip_prefix open_bracket v) as [stripped|].
  - destruct (split_once close_bracket stripped) as [[host suffix]|]; [|done].
    apply let_no_panic; [apply validate_ipv6_no_panic|intros _].
    apply let_no_panic; [apply validate_optional_port_no_panic|done].
  - destruct (count_char colon v) as [|[|n]] eqn:Hc; [done|..].
    + destruct (rsplit_once colon v) as [[host port]|] eqn:Hr.
      * case_bool_decide; [done|]. apply let_no_panic; [apply validate_port_no_panic|done].
      * apply rsplit_once_none_inv, count_char_zero in Hr. lia.
    + apply let_no_panic; [apply validate_ipv6_no_panic|done].
Qed.

(** Every seed address that is accepted becomes a connectable endpoint: completed with the
    default port it parses as a host and a non-zero port (so the peer address a
    configuration is fetched from always has a host), the host is the one [endpoint_host]
    yields, and parsing a seed never panics. *)
Lemma accepted_seed_is_endpoint value tls :
  match seed_from_str value with
  | Ok seed => seed_connects seed tls
  | Err _ => True
  | Panic => False
  end.
Proof.
  unfold seed_from_str. set (v := trim value).
  case_bool_decide as Hne; [done|]. destruct (has_whitespace v) eqn:Hws; [done|]. cbn [orb].
  destruct (contains_scheme v); [done|].
  assert (1 ≤ (if tls then DEFAULT_KV_TLS_PORT else DEFAULT_KV_PORT) ≤ u16_max) as Hd
    by (destruct tls; vm_compute; split; discriminate).
  destruct (strip_prefix open_bracket v) as [stripped|] eqn:Hp.
  - destruct (split_once close_bracket stripped) as [[host suffix]|] eqn:Hs; [|done].
    destruct (validate_ipv6 host) as [[]|e|] eqn:Hv; [|done|by apply validate_ipv6_no_panic in Hv].
    destruct (validate_optional_port suffix) as [[]|e|] eqn:Ho;
      [|done|by apply validate_optional_port_no_panic in Ho].
    by eapply bracketed_seed.
  - destruct (count_char colon v) as [|[|n]] eqn:Hc.
    + apply plain_seed; [done..|]. by apply count_char_zero.
    + destruct (rsplit_once colon v) as [[host port]|] eqn:Hr.
      2:{ apply rsplit_once_none_inv, count_char_zero in Hr. lia. }
      case_bool_decide as Hh; [done|].
      destruct (validate_port port) as [[]|e|] eqn:Hv; [|done|by apply validate_port_no_panic in Hv].
      by eapply host_port_seed.
    + destruct (validate_ipv6 v) as [[]|e|] eqn:Hv; [|done|by apply validate_ipv6_no_panic in Hv].
      apply ipv6_seed; try done. rewrite Hc. lia.
Qed.

Lemma accepted_seed_samples :
  seed_from_str " [2001:db8::1]:18091 " = Ok "[2001:db8::1]:18091"
  ∧ split_endpoint (with_default_kv_port "[2001:db8::1]" false) = Ok ("2001:db8::1", 11210).
Proof. vm_compute. done. Qed.
