(* ===== verification/Connect.v ===== *)
(** * Connecting to a node ([rust-dcp-core/src/transport.rs], first part)

    [KvConnection::connect]: the TCP connection, the root certificates, the server name and
    the TLS handshake, under one deadline.  The socket, the certificate files and the TLS
    library are the environment: what each of them answers is the record [ConnectEnv], and
    the class [TlsLibrary] names what the code uses of rustls and of the PEM reader. *)
From S2P Require Import Prelude Text Types Frame Codec Errors Config Async Transport Cccp.
From S2P Require Import Settings.

(** ** The environment *)

(** The PEM reader yields a certificate or an error per block; a certificate may be refused
    as a root; a name may not be a server name. *)
Class TlsLibrary : Type := {
  Certificate : Type;
  pem_certs : bytes → list (string + Certificate);
  root_refused : Certificate → option string;
  name_refused : string → option string
}.
(** The platform's roots: how many were added, ignored, and failed to load. *)
Record NativeCerts : Type := mkNativeCerts {
  nc_added : Z;
  nc_ignored : Z;
  nc_errors : Z
}.
(** What the calls answer, with the text of an error; [None] is an await that the deadline
    ends. *)
Record ConnectEnv : Type := mkConnectEnv {
  ce_tcp : option (string + unit);
  ce_nodelay : string + unit;
  ce_native : NativeCerts;
  ce_read_file : string → string + bytes;
  ce_join : option (string + unit);
  ce_handshake : option (string + unit);
  ce_now : Z;
  ce_reads : list ReadEvent;
  ce_writes : list WriteEvent
}.

Section Connect.
Context `{TlsLibrary}.

(** The roots of a client configuration: the platform's and those of the file. *)
Record Roots : Type := mkRoots {
  rt_native : Z;
  rt_added : list Certificate
}.

(** One certificate of the file. *)
Definition add_certificate (path : string) (added : list Certificate)
    (certificate : string + Certificate) : result (list Certificate) :=
  match certificate with
  | inl error => Err (Tls ("invalid root CA PEM " +:+ path +:+ ": " +:+ error))
  | inr certificate =>
      match root_refused certificate with
      | Some error => Err (Tls ("invalid root CA " +:+ path +:+ ": " +:+ error))
      | None => Ok (added ++ [certificate])
      end
  end.

Definition build_tls_config_sync (env : ConnectEnv) (tls : TlsConfig) : result Roots :=
  let native := ce_native env in
  if (nc_added native =? 0) && bool_decide (tls_root_ca_path tls = None) then
    Err (Tls ("no platform root certificates loaded (" +:+ pretty (nc_ignored native)
      +:+ " parse failures, " +:+ pretty (nc_errors native) +:+ " loader errors)"))
  else
    match tls_root_ca_path tls with
    | None => Ok (mkRoots (nc_added native) [])
    | Some path =>
        let? contents := match ce_read_file env path with
                         | inl error => Err (Tls ("cannot read root CA " +:+ path +:+ ": " +:+ error))
                         | inr contents => Ok contents
                         end in
        let? added := for_res (pem_certs contents) [] (add_certificate path) in
        if len added =? 0 then
          Err (Tls ("root CA file " +:+ path +:+ " contains no certificates"))
        else Ok (mkRoots (nc_added native) added)
    end.

(** [time::timeout_at(deadline, _).await.map_err(|_| Timeout(timeout))?], and the conversion
    of the awaited error. *)
Definition before_deadline (timeout : Duration) (convert : string → DcpError)
    (o : option (string + unit)) : result unit :=
  match o with
  | None => Err (Timeout timeout)
  | Some (inl error) => Err (convert error)
  | Some (inr _) => Ok tt
  end.
Definition build_tls_config (env : ConnectEnv) (tls : TlsConfig) (timeout : Duration)
    : result Roots :=
  do? before_deadline timeout (λ error, Tls ("TLS root loading task failed: " +:+ error))
        (ce_join env) in
  build_tls_config_sync env tls.

(** What a connection is secured with: the name that is verified, and the roots. *)
Record Secured : Type := mkSecured {
  sc_server_name : string;
  sc_roots : Roots
}.

Definition server_name (seed : SeedAddress) (tls : TlsConfig) : string :=
  default (endpoint_host seed) (tls_server_name tls).

Definition connect (env : ConnectEnv) (seed : SeedAddress) (tls : TlsConfig)
    (timeout : Duration) : result (KvConnection * option Secured) :=
  let address := with_default_kv_port seed (tls_enabled tls) in
  let connection := from_io address timeout (ce_now env) (ce_reads env) (ce_writes env) in
  do? before_deadline timeout DcpIo (ce_tcp env) in
  do? match ce_nodelay env with inl error => Err (DcpIo error) | inr _ => Ok tt end in
  if tls_enabled tls then
    let? roots := build_tls_config env tls timeout in
    let name := server_name seed tls in
    do? match name_refused name with
        | Some error => Err (Tls ("invalid TLS server name " +:+ debug_str name +:+ ": " +:+ error))
        | None => Ok tt
        end in
    do? before_deadline timeout Tls (ce_handshake env) in
    Ok (connection, Some (mkSecured name roots))
  else Ok (connection, None).
End Connect.

(** ** Properties *)
Section Properties.
Context `{TlsLibrary}.

Lemma add_certificates path l : ∀ added added',
  for_res l added (add_certificate path) = Ok added' →
  ∃ new, added' = added ++ new ∧ l = inr <$> new ∧ Forall (λ c, root_refused c = None) new.
Proof.
  induction l as [|x l IH]; intros added added' Hrun; cbn in Hrun.
  { injection Hrun as <-. exists []. by rewrite app_nil_r. }
  destruct x as [e|c]; [done|]. cbn in Hrun. destruct (root_refused c) eqn:Hc; [done|].
  apply IH in Hrun as (new & -> & -> & Hn). exists (c :: new).
  split_and!; [by rewrite <- app_assoc|done|by constructor].
Qed.

(** A client configuration trusts something, and of the configured file everything. *)
Definition trusts (env : ConnectEnv) (tls : TlsConfig) (roots : Roots) : Prop :=
  rt_native roots = nc_added (ce_native env)
  ∧ Forall (λ c, root_refused c = None) (rt_added roots)
  ∧ match tls_root_ca_path tls with
    | None => rt_native roots ≠ 0 ∧ rt_added roots = []
    | Some path => rt_added roots ≠ []
        ∧ ∃ contents, ce_read_file env path = inr contents
          ∧ pem_certs contents = inr <$> rt_added roots
    end.
Lemma build_tls_config_ok env tls timeout roots :
  build_tls_config env tls timeout = Ok roots → trusts env tls roots.
Proof.
  unfold build_tls_config, build_tls_config_sync, before_deadline.
  destruct (ce_join env) as [[e|[]]|]; try done. cbn.
  destruct (Z.eqb_spec (nc_added (ce_native env)) 0) as [Hz|Hz]; cbn.
  - case_bool_decide as Hp; [done|]. destruct (tls_root_ca_path tls) as [path|] eqn:Htp; [|done].
    destruct (ce_read_file env path) as [e|contents] eqn:Hr; [done|]. cbn.
    destruct (for_res _ _ _) as [added|e|] eqn:Ha; try done. cbn.
    destruct (Z.eqb_spec (len added) 0) as [Hl|Hl]; [done|]. intros [= <-].
    apply add_certificates in Ha as (new & -> & Hpc & Hn). unfold trusts. rewrite Htp. cbn.
    split_and!; [done..| |eauto]. by intros ->.
  - destruct (tls_root_ca_path tls) as [path|] eqn:Htp.
    + destruct (ce_read_file env path) as [e|contents] eqn:Hr; [done|]. cbn.
      destruct (for_res _ _ _) as [added|e|] eqn:Ha; try done. cbn.
      destruct (Z.eqb_spec (len added) 0) as [Hl|Hl]; [done|]. intros [= <-].
      apply add_certificates in Ha as (new & -> & Hpc & Hn). unfold trusts. rewrite Htp. cbn.
      split_and!; [done..| |eauto]. by intros ->.
    + intros [= <-]. unfold trusts. rewrite Htp. cbn. split_and!; done.
Qed.

Lemma build_tls_config_no_panic env tls timeout : build_tls_config env tls timeout ≠ Panic.
Proof.
  unfold build_tls_config, build_tls_config_sync, before_deadline.
  destruct (ce_join env) as [[e|[]]|]; try done. cbn. destruct (_ && _); [done|].
  destruct (tls_root_ca_path tls) as [path|]; [|done].
  destruct (ce_read_file env path) as [e|contents]; [done|]. cbn.
  apply let_no_panic; [|intros; by case_match]. apply for_res_no_panic.
  intros added x. unfold add_certificate. by repeat case_match.
Qed.
Lemma connect_no_panic env seed tls timeout : connect env seed tls timeout ≠ Panic.
Proof.
  unfold connect. apply let_no_panic; [by unfold before_deadline; repeat case_match|intros _].
  apply let_no_panic; [by case_match|intros _]. destruct (tls_enabled tls); [|done].
  apply let_no_panic; [apply build_tls_config_no_panic|intros roots].
  apply let_no_panic; [by case_match|intros _].
  by apply let_no_panic; [unfold before_deadline; repeat case_match|].
Qed.
Lemma connect_ok env seed tls timeout c secured :
  connect env seed tls timeout = Ok (c, secured) →
  kc_peer c = with_default_kv_port seed (tls_enabled tls)
  ∧ match secured with
    | None => tls_enabled tls = false
    | Some s => tls_enabled tls = true ∧ ce_handshake env = Some (inr tt)
        ∧ sc_server_name s = server_name seed tls
        ∧ name_refused (sc_server_name s) = None ∧ trusts env tls (sc_roots s)
    end.
Proof.
  unfold connect. destruct (before_deadline timeout DcpIo _); [|done..].
  destruct (ce_nodelay env); [done|]. destruct (tls_enabled tls); [|by intros [= <- <-]].
  destruct (build_tls_config env tls timeout) as [roots|e|] eqn:Hr; [|done..]. cbn.
  destruct (name_refused _) eqn:Hn; [done|]. cbn.
  destruct (ce_handshake env) as [[e|[]]|] eqn:Hh; [done| |done]. cbn. intros [= <- <-].
  apply build_tls_config_ok in Hr. by split_and!.
Qed.

End Properties.

(** ** A sample *)
#[local] Instance sample_library : TlsLibrary := {|
  Certificate := bytes;
  pem_certs contents := match contents with [] => [] | c => [inr c] end;
  root_refused _ := None;
  name_refused name := if bool_decide (name = "") then Some "empty name" else None
|}.
Definition sample_env : ConnectEnv :=
  mkConnectEnv (Some (inr tt)) (inr tt) (mkNativeCerts 0 2 1) (λ _, inr [7]) (Some (inr tt))
    (Some (inr tt)) 0 [] [].
(** Without platform roots and without a file there is nothing to trust. *)
Example connect_without_roots :
  connect sample_env "node:11207" (mkTlsConfig true None None) 1
  = Err (Tls "no platform root certificates loaded (2 parse failures, 1 loader errors)").
Proof. vm_compute. reflexivity. Qed.
