(* ===== verification/Auth.v ===== *)
(** * Authentication ([rust-dcp-core/src/auth.rs])

    SASL mechanism selection, PLAIN, and the SCRAM challenge-response exchange.  The
    cryptographic primitives and base64 are parameters (class [ScramCrypto]); random bytes
    are an argument. *)
From S2P Require Import Prelude Text Types Frame Codec Dcp Command Errors Checkpoint.
From S2P Require Import Config Async Transport Topology Cccp Settings.

Definition MAX_SCRAM_ITERATIONS : Z := 10000000.

Inductive ScramAlgorithm : Type := Sha1 | Sha256 | Sha512.
Inductive SaslMechanism : Type := SaslPlain | SaslScram (a : ScramAlgorithm).

#[export] Instance ScramAlgorithm_eq_dec : EqDecision ScramAlgorithm.
Proof. solve_decision. Defined.
#[export] Instance SaslMechanism_eq_dec : EqDecision SaslMechanism.
Proof. solve_decision. Defined.

Definition mechanism_name (m : SaslMechanism) : string :=
  match m with
  | SaslPlain => "PLAIN"
  | SaslScram Sha1 => "SCRAM-SHA1"
  | SaslScram Sha256 => "SCRAM-SHA256"
  | SaslScram Sha512 => "SCRAM-SHA512"
  end.

(** ** Selection *)

(** The mechanisms in order of preference. *)
Definition preference : list SaslMechanism :=
  [SaslScram Sha512; SaslScram Sha256; SaslScram Sha1; SaslPlain].
Definition offers (offered : string) (m : SaslMechanism) : bool :=
  bool_decide (mechanism_name m ∈ split_ascii_whitespace offered).
Definition select_mechanism (offered : string) : result SaslMechanism :=
  ok_or (List.find (offers offered) preference)
    (Authentication ("server offered no supported SASL mechanism: " +:+ offered)).

(** ** Responses *)
Definition ensure_auth_opcode (response : Frame) (expected : Opcode) : result unit :=
  if magic_is_response (magic response) && (opcode response =? expected) then Ok tt
  else Err (Protocol (MalformedFrame ("expected SASL response opcode 0x" +:+ hex_pad2 expected
         +:+ ", got magic 0x" +:+ hex_pad2 (magic_as_u8 (magic response)) +:+ " opcode 0x"
         +:+ hex_pad2 (opcode response)))).
Definition authentication_status_error (st : Status) (payload : bytes) : DcpError :=
  Authentication ("server returned status 0x" +:+ hex_pad4 st +:+ ": " +:+ from_utf8_lossy payload).
Definition ensure_auth_success (response : Frame) (expected : Opcode) : result unit :=
  do? ensure_auth_opcode response expected in
  if status_is_success (status response) then Ok tt
  else Err (authentication_status_error (status response) (value response)).

(** ** SCRAM messages *)
Definition comma : Ascii.ascii := Ascii.ascii_of_N 44.
Definition equals : Ascii.ascii := Ascii.ascii_of_N 61.
Definition is_ascii_alphabetic (a : Ascii.ascii) : bool :=
  let n := char_code a in ((65 <=? n) && (n <=? 90)) || ((97 <=? n) && (n <=? 122)).

(** One [key=value] attribute; the value is not empty. *)
Definition scram_attribute (attribute : string) : option (Ascii.ascii * string) :=
  match attribute with
  | String key (String e (String x rest)) =>
      if bool_decide (e = equals) && is_ascii_alphabetic key then Some (key, String x rest)
      else None
  | _ => None
  end.
Definition scram_step (attributes : gmap Z string) (attribute : string)
    : result (gmap Z string) :=
  match scram_attribute attribute with
  | None => Err (Authentication ("invalid SCRAM attribute " +:+ debug_str attribute))
  | Some (key, v) =>
      match attributes !! char_code key with
      | Some _ => Err (Authentication ("duplicate SCRAM attribute " +:+ String key ""))
      | None => Ok (<[char_code key := v]> attributes)
      end
  end.
Definition parse_scram_attributes (message : string) : result (gmap Z string) :=
  for_res (split comma message) ∅ scram_step.

(** The attributes SCRAM names, by the code of their letter. *)
Definition ATTR_m : Z := 109.
Definition ATTR_r : Z := 114.
Definition ATTR_s : Z := 115.
Definition ATTR_i : Z := 105.
Definition ATTR_e : Z := 101.
Definition ATTR_v : Z := 118.

(** ** The client *)
Class ScramCrypto : Type := {
  digest : ScramAlgorithm → bytes → bytes;
  (** [Hmac::new_from_slice], then [update] and [finalize] *)
  hmac_new : ScramAlgorithm → bytes → string + (bytes → bytes);
  pbkdf2 : ScramAlgorithm → bytes → bytes → Z → Z → bytes;
  base64_encode : bytes → string;
  base64_encode_no_pad : bytes → string;
  base64_decode : string → string + bytes
}.

Record ScramClient : Type := mkScramClient {
  sc_algorithm : ScramAlgorithm;
  sc_password : string;
  sc_client_nonce : string;
  sc_client_first_bare : string;
  sc_expected_server_signature : option bytes
}.

Definition digest_length (a : ScramAlgorithm) : Z :=
  match a with Sha1 => 20 | Sha256 => 32 | Sha512 => 64 end.

Definition scram_username (username : string) : string :=
  replace_char comma "=2C" (replace_char equals "=3D" username).
Definition scram_with_nonce (algorithm : ScramAlgorithm) (username password nonce : string)
    : ScramClient :=
  mkScramClient algorithm password nonce
    ("n=" +:+ scram_username username +:+ ",r=" +:+ nonce) None.
Definition scram_start (client : ScramClient) : bytes :=
  as_bytes ("n,," +:+ sc_client_first_bare client).

Section Scram.
Context `{ScramCrypto}.

(** [nonce] is what [getrandom::fill] left in the 18 bytes, or its error. *)
Definition scram_new (nonce : string + bytes) (algorithm : ScramAlgorithm)
    (username password : string) : result ScramClient :=
  match nonce with
  | inl error => Err (Authentication ("cannot create SCRAM nonce: " +:+ error))
  | inr nonce => Ok (scram_with_nonce algorithm username password (base64_encode_no_pad nonce))
  end.

Definition hmac (algorithm : ScramAlgorithm) (key message : bytes) : result bytes :=
  match hmac_new algorithm key with
  | inl error => Err (Authentication error)
  | inr mac => Ok (mac message)
  end.
Definition xor_bytes (a b : bytes) : bytes := zip_with Z.lxor a b.

(** The client's proof and the signature the server must show. *)
Definition calculate_scram (algorithm : ScramAlgorithm) (password salt : bytes) (iterations : Z)
    (auth_message : bytes) : result (bytes * bytes) :=
  let salted_password := pbkdf2 algorithm password salt iterations (digest_length algorithm) in
  let? client_key := hmac algorithm salted_password (as_bytes "Client Key") in
  let stored_key := digest algorithm client_key in
  let? client_signature := hmac algorithm stored_key auth_message in
  let proof := xor_bytes client_key client_signature in
  let? server_key := hmac algorithm salted_password (as_bytes "Server Key") in
  let? signature := hmac algorithm server_key auth_message in
  Ok (proof, signature).

Definition attribute (attributes : gmap Z string) (key : Z) (missing : string) : result string :=
  ok_or (attributes !! key) (Authentication missing).
Definition scram_decode (kind encoded : string) : result bytes :=
  match base64_decode encoded with
  | inr b => Ok b
  | inl error => Err (Authentication ("SCRAM " +:+ kind +:+ " is invalid base64: " +:+ error))
  end.

(** What the server-first message says: the combined nonce, the salt and the iterations. *)
Definition parse_server_first (client_nonce message : string) : result (string * bytes * Z) :=
  let? attributes := parse_scram_attributes message in
  if bool_decide (is_Some (attributes !! ATTR_m)) then
    Err (Authentication "SCRAM mandatory extension is not supported")
  else
    let? nonce := attribute attributes ATTR_r "SCRAM server-first is missing nonce" in
    if negb (String.prefix client_nonce nonce) || (str_len nonce =? str_len client_nonce) then
      Err (Authentication "SCRAM server nonce does not extend client nonce")
    else
      let? salt := attribute attributes ATTR_s "SCRAM server-first is missing salt" in
      let? salt := scram_decode "salt" salt in
      let? count := attribute attributes ATTR_i "SCRAM server-first is missing iteration count" in
      match from_str_radix 10 u32_max count with
      | inl error => Err (Authentication ("SCRAM iteration count is invalid: " +:+ error))
      | inr iterations =>
          if (iterations =? 0) || (MAX_SCRAM_ITERATIONS <? iterations) then
            Err (Authentication ("SCRAM iteration count " +:+ pretty iterations
              +:+ " is outside 1..=" +:+ pretty MAX_SCRAM_ITERATIONS))
          else Ok (nonce, salt, iterations)
      end.

Definition final_without_proof (nonce : string) : string := "c=biws,r=" +:+ nonce.
Definition auth_message_of (client : ScramClient) (message nonce : string) : string :=
  sc_client_first_bare client +:+ "," +:+ message +:+ "," +:+ final_without_proof nonce.

(** The password is wiped as soon as the keys are derived. *)
Definition handle_server_first (message : bytes) (client : ScramClient)
    : result bytes * ScramClient :=
  match sc_expected_server_signature client with
  | Some _ => (Err (Authentication "SCRAM server-first message was processed twice"), client)
  | None =>
      match from_utf8 message with
      | None => (Err (Authentication ("SCRAM server-first is not UTF-8: " +:+ utf8_error message)),
                 client)
      | Some message =>
          match (let? (nonce, salt, iterations) :=
                   parse_server_first (sc_client_nonce client) message in
                 let? (proof, signature) :=
                   calculate_scram (sc_algorithm client) (as_bytes (sc_password client)) salt
                     iterations (as_bytes (auth_message_of client message nonce)) in
                 Ok (nonce, proof, signature)) with
          | Err e => (Err e, client)
          | Panic => (Panic, client)
          | Ok (nonce, proof, signature) =>
              (Ok (as_bytes (final_without_proof nonce +:+ ",p=" +:+ base64_encode proof)),
               mkScramClient (sc_algorithm client) "" (sc_client_nonce client)
                 (sc_client_first_bare client) (Some signature))
          end
      end
  end.

(** The expected signature is taken out when it is compared. *)
Definition verify_server_final (message : bytes) (client : ScramClient)
    : result unit * ScramClient :=
  match from_utf8 message with
  | None => (Err (Authentication ("SCRAM server-final is not UTF-8: " +:+ utf8_error message)),
             client)
  | Some message =>
      match (let? attributes := parse_scram_attributes message in
             match attributes !! ATTR_e with
             | Some error =>
                 Err (Authentication ("SCRAM server rejected authentication: " +:+ error))
             | None =>
                 let? signature :=
                   attribute attributes ATTR_v "SCRAM server-final is missing verifier" in
                 scram_decode "verifier" signature
             end) with
      | Err e => (Err e, client)
      | Panic => (Panic, client)
      | Ok signature =>
          let client' := mkScramClient (sc_algorithm client) (sc_password client)
            (sc_client_nonce client) (sc_client_first_bare client) None in
          match sc_expected_server_signature client with
          | None =>
              (Err (Authentication "SCRAM server-final arrived before client-final"), client')
          | Some expected =>
              if bool_decide (signature = expected) then (Ok tt, client')
              else (Err (Authentication "SCRAM server signature mismatch"), client')
          end
      end
  end.

(** ** [authenticate] *)
Context `{Snappy}.

Definition plain_payload (c : Credentials) : bytes :=
  [0] ++ as_bytes (cr_username c) ++ [0] ++ as_bytes (cr_password c).

Definition authenticate_plain (credentials : Credentials) : io KvConnection unit :=
  let! response := conn_request (sasl_auth (mechanism_name SaslPlain)
                                   (plain_payload credentials) 0) in
  io_lift (ensure_auth_success response OP_SASL_AUTH).

Definition authenticate_scram (nonce : string + bytes) (algorithm : ScramAlgorithm)
    (credentials : Credentials) : io KvConnection unit :=
  let name := mechanism_name (SaslScram algorithm) in
  let! client := io_lift (scram_new nonce algorithm (cr_username credentials)
                            (cr_password credentials)) in
  let! response := conn_request (sasl_auth name (scram_start client) 0) in
  do! io_lift (ensure_auth_opcode response OP_SASL_AUTH) in
  if negb (status response =? STATUS_AUTH_CONTINUE) then
    io_lift (Err (authentication_status_error (status response) (value response)))
  else
    let '(final_message, client) := handle_server_first (value response) client in
    let! final_message := io_lift final_message in
    let! response := conn_request (sasl_step name final_message 0) in
    do! io_lift (ensure_auth_success response OP_SASL_STEP) in
    io_lift (verify_server_final (value response) client).1.

Definition authenticate (nonce : string + bytes) (credentials : Credentials)
    : io KvConnection SaslMechanism :=
  let! mechanisms := conn_request (sasl_list_mechanisms 0) in
  do! io_lift (ensure_auth_success mechanisms OP_SASL_LIST_MECHS) in
  let! mechanism := io_lift (select_mechanism (from_utf8_lossy (value mechanisms))) in
  do! (match mechanism with
       | SaslPlain => authenticate_plain credentials
       | SaslScram algorithm => authenticate_scram nonce algorithm credentials
       end) in
  io_ret mechanism.
End Scram.

(** ** Lemmas *)

(** ASCII text is UTF-8. *)
Fixpoint is_ascii (s : string) : bool :=
  match s with EmptyString => true | String a s => (char_code a <? 128) && is_ascii s end.
Lemma is_ascii_app s t : is_ascii (s +:+ t) = is_ascii s && is_ascii t.
Proof.
  induction s as [|a s IH]; [done|]. rewrite append_cons. cbn [is_ascii]. rewrite IH.
  apply andb_assoc.
Qed.
Lemma from_utf8_ascii s : is_ascii s = true → from_utf8 (as_bytes s) = Some s.
Proof.
  intros Hs. unfold from_utf8. rewrite of_as_bytes.
  assert (utf8_valid_go (length (as_bytes s)) (as_bytes s) = true) as ->; [|done].
  induction s as [|a s IH]; [done|]. cbn [is_ascii] in Hs. apply andb_true_iff in Hs as [Ha Hs].
  change (as_bytes (String a s)) with (char_code a :: as_bytes s). cbn [length utf8_valid_go].
  unfold utf8_step. rewrite Ha. cbn [andb]. by apply IH.
Qed.
Lemma all_digits_ascii s : all_digits s → is_ascii s = true.
Proof.
  induction s as [|a s IH]; [done|]. intros [[d Hd] Hs]. cbn [is_ascii]. rewrite IH by done.
  rewrite andb_true_r. unfold to_digit in Hd. repeat case_match; try done; lia.
Qed.
Lemma str_len_app s t : str_len (s +:+ t) = str_len s + str_len t.
Proof. unfold str_len. rewrite string_length_app. lia. Qed.
Lemma prefix_app s t : String.prefix s (s +:+ t) = true.
Proof.
  induction s as [|a s IH]; [by destruct t|]. rewrite append_cons. cbn. 
  by destruct (Ascii.ascii_dec a a).
Qed.

(** A message is its attributes, joined by commas. *)
Lemma parse_attributes_cons k v m rest :
  is_ascii_alphabetic k = true → v ≠ "" → contains comma v = false → k ≠ comma →
  m !! char_code k = None →
  for_res (split comma (String k (String equals (v +:+ String comma rest)))) m scram_step
  = for_res (split comma rest) (<[char_code k := v]> m) scram_step.
Proof.
  intros Hk Hv Hc Hkc Hm. rewrite <-!append_cons, split_app.
  - cbn [for_res]. unfold scram_step at 1, scram_attribute.
    destruct v as [|x v]; [done|]. rewrite bool_decide_true by done. cbn [andb].
    by rewrite Hk, Hm.
  - cbn [contains]. rewrite Hc, !bool_decide_false; [done|done|congruence].
Qed.
Lemma parse_attributes_last k v m :
  is_ascii_alphabetic k = true → v ≠ "" → contains comma v = false → k ≠ comma →
  m !! char_code k = None →
  for_res (split comma (String k (String equals v))) m scram_step = Ok (<[char_code k := v]> m).
Proof.
  intros Hk Hv Hc Hkc Hm. rewrite split_none.
  - cbn [for_res]. unfold scram_step, scram_attribute.
    destruct v as [|x v]; [done|]. rewrite bool_decide_true by done. cbn [andb].
    by rewrite Hk, Hm.
  - cbn [contains]. rewrite Hc, !bool_decide_false; [done|done|congruence].
Qed.
Lemma pretty_Z_text z : 0 ≤ z →
  pretty z ≠ "" ∧ contains comma (pretty z) = false ∧ is_ascii (pretty z) = true.
Proof.
  intros Hz. destruct (pretty_digits z Hz) as [Hd Hne]. split_and!; [done| |].
  - by apply all_digits_contains.
  - by apply all_digits_ascii.
Qed.

(** ** The other side of the exchange (RFC 5802)

    What a server stores for a user, its two messages, and its check of the client's
    proof. *)
Record ScramVerifier : Type := mkVerifier {
  sv_salt : bytes;
  sv_iterations : Z;
  sv_stored_key : bytes;
  sv_server_key : bytes
}.

(** Documented behaviour of the primitives: base64 is invertible text over its alphabet,
    and a MAC takes any key and has the length of the digest. *)
Class ScramLaws `{ScramCrypto} : Prop := {
  base64_roundtrip b : wf_bytes b → base64_decode (base64_encode b) = inr b;
  base64_text b :
    wf_bytes b → is_ascii (base64_encode b) = true ∧ contains comma (base64_encode b) = false;
  base64_nonempty b : b ≠ [] → base64_encode b ≠ "";
  hmac_any_key a k : ∃ mac, hmac_new a k = inr mac
    ∧ ∀ m, length (mac m) = Z.to_nat (digest_length a) ∧ wf_bytes (mac m)
}.

Section Exchange.
Context `{ScramCrypto} `{!ScramLaws}.
Implicit Types (a : ScramAlgorithm).

Definition mac a (k m : bytes) : bytes :=
  match hmac_new a k with inr f => f m | inl _ => [] end.
Lemma hmac_mac a k m : hmac a k m = Ok (mac a k m).
Proof. unfold hmac, mac. by destruct (hmac_any_key a k) as (f & -> & _). Qed.
Lemma length_mac a k m : length (mac a k m) = Z.to_nat (digest_length a).
Proof. unfold mac. destruct (hmac_any_key a k) as (f & -> & Hl). apply Hl. Qed.
Lemma wf_mac a k m : wf_bytes (mac a k m).
Proof. unfold mac. destruct (hmac_any_key a k) as (f & -> & Hl). apply Hl. Qed.

(** Enrolling a user. *)
Definition enrol a (password : string) (salt : bytes) (iterations : Z) : ScramVerifier :=
  let salted := pbkdf2 a (as_bytes password) salt iterations (digest_length a) in
  mkVerifier salt iterations (digest a (mac a salted (as_bytes "Client Key")))
    (mac a salted (as_bytes "Server Key")).

Definition server_first (v : ScramVerifier) (nonce : string) : string :=
  "r=" +:+ nonce +:+ ",s=" +:+ base64_encode (sv_salt v) +:+ ",i=" +:+ pretty (sv_iterations v).

(** The server accepts a proof that hides a key with the stored digest, and signs. *)
Definition server_final a (v : ScramVerifier) (client_first_bare first nonce final : string)
    : option string :=
  match rsplit_once comma final with
  | Some (without_proof, String p (String e encoded)) =>
      if bool_decide (without_proof = "c=biws,r=" +:+ nonce)
         && bool_decide (String p (String e "") = "p=") then
        match base64_decode encoded with
        | inr proof =>
            let auth := as_bytes (client_first_bare +:+ "," +:+ first +:+ "," +:+ without_proof) in
            let client_key := xor_bytes proof (mac a (sv_stored_key v) auth) in
            if bool_decide (digest a client_key = sv_stored_key v) then
              Some ("v=" +:+ base64_encode (mac a (sv_server_key v) auth))
            else None
        | inl _ => None
        end
      else None
  | _ => None
  end.

Lemma xor_xor (k m : bytes) : length k = length m → xor_bytes (xor_bytes k m) m = k.
Proof.
  revert m. induction k as [|x k IH]; intros [|y m] Hl; try done. cbn in *. f_equal.
  - by rewrite Z.lxor_assoc, Z.lxor_nilpotent, Z.lxor_0_r.
  - apply IH. lia.
Qed.

Definition clean_text (s : string) : Prop := is_ascii s = true ∧ contains comma s = false.

Lemma server_first_parsed v nonce suffix :
  clean_text nonce → clean_text suffix → suffix ≠ "" → sv_salt v ≠ [] →
  wf_bytes (sv_salt v) → 1 ≤ sv_iterations v ≤ MAX_SCRAM_ITERATIONS →
  parse_server_first nonce (server_first v (nonce +:+ suffix))
  = Ok (nonce +:+ suffix, sv_salt v, sv_iterations v).
Proof.
  intros [_ Hn] [_ Hs] Hne Hsalt Hwf Hi. unfold parse_server_first, server_first, parse_scram_attributes.
  destruct (base64_text (sv_salt v) Hwf) as [_ Hb]. pose proof (base64_nonempty _ Hsalt) as Hbne.
  destruct (pretty_Z_text (sv_iterations v)) as (Hp1 & Hp2 & _); [lia|].
  assert (nonce +:+ suffix ≠ "") as Hns.
  { intros Heq%(f_equal String.length). rewrite string_length_app in Heq. destruct suffix; cbn in *; [done|lia]. }
  change ("r=" +:+ (nonce +:+ suffix) +:+ ",s=" +:+ base64_encode (sv_salt v) +:+ ",i="
      +:+ pretty (sv_iterations v))
    with (String (Ascii.ascii_of_N 114) (String equals ((nonce +:+ suffix) +:+ String comma
      (String (Ascii.ascii_of_N 115) (String equals (base64_encode (sv_salt v) +:+ String comma
      (String (Ascii.ascii_of_N 105) (String equals (pretty (sv_iterations v)))))))))).
  rewrite parse_attributes_cons; [|done|done|by rewrite contains_app, Hn, Hs|done|done].
  rewrite parse_attributes_cons; [|done|done|done|done|done].
  rewrite parse_attributes_last; [|done|done|done|done|done].
  cbv beta iota. change (char_code (Ascii.ascii_of_N 114)) with ATTR_r.
  change (char_code (Ascii.ascii_of_N 115)) with ATTR_s.
  change (char_code (Ascii.ascii_of_N 105)) with ATTR_i.
  set (m := <[ATTR_i := _]> _).
  assert (m !! ATTR_m = None) as -> by done.
  unfold attribute. assert (m !! ATTR_r = Some (nonce +:+ suffix)) as -> by done.
  assert (m !! ATTR_s = Some (base64_encode (sv_salt v))) as -> by done.
  assert (m !! ATTR_i = Some (pretty (sv_iterations v))) as -> by done.
  cbn [ok_or]. rewrite bool_decide_false by (by intros [? ?]).
  rewrite prefix_app, str_len_app.
  destruct (Z.eqb_spec (str_len nonce + str_len suffix) (str_len nonce)) as [He|_].
  { destruct suffix; [done|]. unfold str_len in He. cbn in He. lia. }
  cbn [negb orb]. unfold scram_decode. rewrite base64_roundtrip by done.
  rewrite parse_pretty by (unfold MAX_SCRAM_ITERATIONS, u32_max in *; lia).
  destruct (Z.eqb_spec (sv_iterations v) 0); [lia|].
  by destruct (Z.ltb_spec MAX_SCRAM_ITERATIONS (sv_iterations v)); [lia|].
Qed.

Lemma lxor_byte x y : is_u8 x → is_u8 y → is_u8 (Z.lxor x y).
Proof.
  intros Hx Hy. unfold_ranges. assert (0 ≤ Z.lxor x y) as Hx0 by (apply Z.lxor_nonneg; lia).
  split; [done|]. destruct (decide (Z.lxor x y = 0)) as [->|Hne]; [lia|].
  apply Z.lt_succ_r. change (Z.succ 255) with (2 ^ 8). apply Z.log2_lt_pow2; [lia|].
  eapply Z.le_lt_trans; [apply Z.log2_lxor; lia|].
  assert (∀ z, 0 ≤ z ≤ 255 → Z.log2 z < 8) as Hlog.
  { intros z Hz. destruct (decide (z = 0)) as [->|]; [done|]. apply Z.log2_lt_pow2; lia. }
  apply Z.max_lub_lt; by apply Hlog.
Qed.
Lemma wf_xor (k m : bytes) : wf_bytes k → wf_bytes m → wf_bytes (xor_bytes k m).
Proof.
  revert m. induction k as [|x k IH]; intros [|y m]; try done. rewrite !wf_cons. cbn.
  intros [??] [??]. apply wf_cons. split; [by apply lxor_byte|by apply IH].
Qed.

Lemma calculate_scram_ok a password salt iterations auth :
  let v := enrol a password salt iterations in
  ∃ client_key, digest a client_key = sv_stored_key v
    ∧ length client_key = Z.to_nat (digest_length a) ∧ wf_bytes client_key
    ∧ calculate_scram a (as_bytes password) salt iterations auth
      = Ok (xor_bytes client_key (mac a (sv_stored_key v) auth), mac a (sv_server_key v) auth).
Proof.
  intros v. eexists. split; [reflexivity|]. split; [apply length_mac|]. split; [apply wf_mac|].
  unfold calculate_scram. by rewrite !hmac_mac.
Qed.

Lemma server_first_ascii v nonce :
  is_ascii nonce = true → wf_bytes (sv_salt v) → 0 ≤ sv_iterations v →
  is_ascii (server_first v nonce) = true.
Proof.
  intros Hn Hs Hi. unfold server_first. rewrite !is_ascii_app, Hn.
  destruct (base64_text _ Hs) as [-> _]. by destruct (pretty_Z_text _ Hi) as (_ & _ & ->).
Qed.
Lemma server_final_parsed signature :
  wf_bytes signature → signature ≠ [] →
  from_utf8 (as_bytes ("v=" +:+ base64_encode signature)) = Some ("v=" +:+ base64_encode signature)
  ∧ parse_scram_attributes ("v=" +:+ base64_encode signature)
    = Ok {[ ATTR_v := base64_encode signature ]}.
Proof.
  intros Hwf Hne. destruct (base64_text _ Hwf) as [Ht Hc]. split.
  - apply from_utf8_ascii. by rewrite is_ascii_app, Ht.
  - unfold parse_scram_attributes.
    change ("v=" +:+ base64_encode signature)
      with (String (Ascii.ascii_of_N 118) (String equals (base64_encode signature))).
    rewrite parse_attributes_last; [done|done|by apply base64_nonempty|done..].
Qed.

(** A proof that hides a key with the stored digest is accepted and answered. *)
Lemma server_accepts a v bare first nonce key :
  digest a key = sv_stored_key v → length key = Z.to_nat (digest_length a) → wf_bytes key →
  let auth := as_bytes (bare +:+ "," +:+ first +:+ "," +:+ final_without_proof nonce) in
  server_final a v bare first nonce
    (final_without_proof nonce +:+ ",p="
       +:+ base64_encode (xor_bytes key (mac a (sv_stored_key v) auth)))
  = Some ("v=" +:+ base64_encode (mac a (sv_server_key v) auth)).
Proof.
  intros Hkey Hlen Hwf auth. set (proof := xor_bytes _ _).
  assert (wf_bytes proof) as Hpwf by (apply wf_xor; [done|apply wf_mac]).
  unfold server_final.
  change (",p=" +:+ base64_encode proof) with (String comma ("p=" +:+ base64_encode proof)).
  rewrite rsplit_once_app.
  2: { rewrite contains_app. by destruct (base64_text proof Hpwf) as [_ ->]. }
  change ("p=" +:+ base64_encode proof) with
    (String (Ascii.ascii_of_N 112) (String equals (base64_encode proof))). cbv iota beta.
  rewrite bool_decide_true by done. rewrite bool_decide_true by done. cbn [andb].
  rewrite base64_roundtrip by done. fold auth. unfold proof.
  rewrite xor_xor by (by rewrite length_mac). by rewrite bool_decide_true.
Qed.

(** The whole exchange against the server that enrolled the user. *)
Lemma scram_exchange_spec a username password nonce suffix salt iterations :
  clean_text nonce → clean_text suffix → suffix ≠ "" →
  wf_bytes salt → salt ≠ [] → 1 ≤ iterations ≤ MAX_SCRAM_ITERATIONS →
  let client := scram_with_nonce a username password nonce in
  let v := enrol a password salt iterations in
  let first := server_first v (nonce +:+ suffix) in
  ∃ final signed client',
    handle_server_first (as_bytes first) client = (Ok (as_bytes final), client')
    ∧ server_final a v (sc_client_first_bare client) first (nonce +:+ suffix) final = Some signed
    ∧ (verify_server_final (as_bytes signed) client').1 = Ok tt
    ∧ sc_password client' = "".
Proof.
  intros Hn Hs Hne Hwf Hsalt Hi client v first.
  set (full := nonce +:+ suffix).
  set (auth := as_bytes (auth_message_of client first full)).
  destruct (calculate_scram_ok a password salt iterations auth) as (key & Hkey & Hlen & Hkwf & Hcalc).
  fold v in Hkey, Hcalc. set (sig := mac a (sv_server_key v) auth) in *.
  set (proof := xor_bytes key (mac a (sv_stored_key v) auth)) in *.
  assert (sig ≠ []) as Hsig.
  { intros Heq%(f_equal length). unfold sig in Heq. rewrite length_mac in Heq. by destruct a. }
  assert (from_utf8 (as_bytes first) = Some first) as Hutf.
  { apply from_utf8_ascii, server_first_ascii; [|done|cbn; lia]. by rewrite is_ascii_app, (proj1 Hn), (proj1 Hs). }
  assert (handle_server_first (as_bytes first) client
    = (Ok (as_bytes (final_without_proof full +:+ ",p=" +:+ base64_encode proof)),
       mkScramClient a "" nonce (sc_client_first_bare client) (Some sig))) as Hh.
  { unfold handle_server_first. cbn [sc_expected_server_signature client scram_with_nonce].
    rewrite Hutf. cbn [sc_client_nonce sc_algorithm sc_password client scram_with_nonce].
    unfold first. rewrite server_first_parsed by done. cbn [sv_salt sv_iterations v enrol].
    change (calculate_scram _ _ _ _ _)
      with (calculate_scram a (as_bytes password) salt iterations auth).
    by rewrite Hcalc. }
  eexists _, ("v=" +:+ base64_encode sig), _. split; [exact Hh|]. split_and!; [|..|done].
  - by apply server_accepts.
  - unfold verify_server_final. destruct (server_final_parsed sig) as [-> ->]; [apply wf_mac|done|].
    cbv beta iota. rewrite lookup_singleton_ne by done. unfold attribute.
    rewrite lookup_singleton_eq. cbn [ok_or]. unfold scram_decode.
    rewrite base64_roundtrip by apply wf_mac. cbv beta iota.
    cbn [sc_expected_server_signature]. by rewrite bool_decide_true.
Qed.
End Exchange.

(** ** What an authenticated connection has seen *)
Section Authenticate.
Context `{ScramCrypto}.

(** A user name as RFC 5802 writes it. *)
Fixpoint saslname (s : string) : string :=
  match s with
  | EmptyString => ""
  | String a s =>
      (if char_code a =? 44 then "=2C" else if char_code a =? 61 then "=3D" else String a "")
      +:+ saslname s
  end.
(** The client's first message without its GS2 header, and its last without the proof. *)
Definition first_bare (username nonce : string) : string :=
  "n=" +:+ saslname username +:+ ",r=" +:+ nonce.
Definition final_bare (nonce : string) : string := "c=biws,r=" +:+ nonce.

(** The proof and the signature of an exchange: each is keyed by the password only through
    its PBKDF2 digest. *)
Definition scram_proof (a : ScramAlgorithm) (password salt : bytes) (iterations : Z)
    (auth proof signature : bytes) : Prop :=
  ∃ client_key client_signature server_key,
    let salted := pbkdf2 a password salt iterations (digest_length a) in
    hmac a salted (as_bytes "Client Key") = Ok client_key
    ∧ hmac a (digest a client_key) auth = Ok client_signature
    ∧ proof = zip_with Z.lxor client_key client_signature
    ∧ hmac a salted (as_bytes "Server Key") = Ok server_key
    ∧ hmac a server_key auth = Ok signature.

(** What the server's first message told a client that answered it: a nonce that extends the
    client's, a salt and a bounded work factor; and the proof and signature that follow. *)
Definition scram_challenge (a : ScramAlgorithm) (credentials : Credentials) (nonce : string)
    (first : bytes) (combined : string) (proof signature : bytes) : Prop :=
  ∃ message attributes encoded salt count iterations,
    from_utf8 first = Some message ∧ parse_scram_attributes message = Ok attributes
    ∧ attributes !! ATTR_m = None
    ∧ attributes !! ATTR_r = Some combined
    ∧ String.prefix nonce combined = true ∧ combined ≠ nonce
    ∧ attributes !! ATTR_s = Some encoded ∧ base64_decode encoded = inr salt
    ∧ attributes !! ATTR_i = Some count ∧ from_str_radix 10 u32_max count = inr iterations
    ∧ 1 ≤ iterations ≤ MAX_SCRAM_ITERATIONS
    ∧ scram_proof a (as_bytes (cr_password credentials)) salt iterations
        (as_bytes (first_bare (cr_username credentials) nonce +:+ "," +:+ message +:+ ","
                   +:+ final_bare combined)) proof signature.
(** The server's last message: no error, and a verifier that is [signature]. *)
Definition scram_confirmed (final signature : bytes) : Prop :=
  ∃ text attributes encoded,
    from_utf8 final = Some text ∧ parse_scram_attributes text = Ok attributes
    ∧ attributes !! ATTR_e = None ∧ attributes !! ATTR_v = Some encoded
    ∧ base64_decode encoded = inr signature.

Lemma replace_char_app a t s s' :
  replace_char a t (s +:+ s') = replace_char a t s +:+ replace_char a t s'.
Proof.
  induction s as [|b s IH]; [done|]. rewrite append_cons. cbn [replace_char].
  by rewrite IH, append_assoc.
Qed.
Lemma char_code_inj (a b : Ascii.ascii) : char_code a = char_code b → a = b.
Proof.
  unfold char_code. intros Heq. rewrite <-(Ascii.ascii_N_embedding a), <-(Ascii.ascii_N_embedding b).
  f_equal. lia.
Qed.
Lemma scram_username_spec username : scram_username username = saslname username.
Proof.
  unfold scram_username. induction username as [|b s IH]; [done|]. cbn [replace_char saslname].
  rewrite replace_char_app, IH. f_equal.
  destruct (decide (b = equals)) as [-> |Hne]; [reflexivity|]. cbn [replace_char].
  destruct (decide (b = comma)) as [-> |Hnc]; [reflexivity|].
  destruct (Z.eqb_spec (char_code b) 44) as [H44|]; [by destruct Hnc; apply (char_code_inj b comma)|].
  destruct (Z.eqb_spec (char_code b) 61) as [H61|]; [by destruct Hne; apply (char_code_inj b equals)|].
  reflexivity.
Qed.

Lemma parse_server_first_inv client_nonce message nonce salt iterations :
  parse_server_first client_nonce message = Ok (nonce, salt, iterations) →
  ∃ attributes encoded count,
    parse_scram_attributes message = Ok attributes ∧ attributes !! ATTR_m = None
    ∧ attributes !! ATTR_r = Some nonce
    ∧ String.prefix client_nonce nonce = true ∧ nonce ≠ client_nonce
    ∧ attributes !! ATTR_s = Some encoded ∧ base64_decode encoded = inr salt
    ∧ attributes !! ATTR_i = Some count ∧ from_str_radix 10 u32_max count = inr iterations
    ∧ 1 ≤ iterations ≤ MAX_SCRAM_ITERATIONS.
Proof.
  unfold parse_server_first, attribute, scram_decode.
  destruct (parse_scram_attributes message) as [m|e|]; [|done..].
  case_bool_decide as Hm; [done|]. rewrite <-eq_None_not_Some in Hm.
  destruct (m !! ATTR_r) as [n|] eqn:Hr; [|done]. cbn [ok_or].
  destruct (String.prefix client_nonce n) eqn:Hp; [|done].
  destruct (Z.eqb_spec (str_len n) (str_len client_nonce)) as [|Hl]; [done|]. cbn [negb orb].
  destruct (m !! ATTR_s) as [b|] eqn:Hs; [|done]. cbn [ok_or].
  destruct (base64_decode b) eqn:Hd; [done|]. destruct (m !! ATTR_i) as [i|] eqn:Hi; [|done].
  cbn [ok_or]. destruct (from_str_radix 10 u32_max i) as [|k] eqn:Hk; [done|].
  destruct (Z.eqb_spec k 0); [done|]. destruct (Z.ltb_spec MAX_SCRAM_ITERATIONS k); [done|].
  cbn [orb]. intros [= <- <- <-]. assert (0 ≤ k) by (by eapply from_str_radix_nonneg).
  exists m, b, i. split_and!; try done; [congruence|lia].
Qed.
Lemma calculate_scram_inv a password salt iterations auth proof signature :
  calculate_scram a password salt iterations auth = Ok (proof, signature) →
  scram_proof a password salt iterations auth proof signature.
Proof.
  unfold calculate_scram. intros Hc. res_cases. do 3 eexists. by split_and!.
Qed.

Lemma handle_server_first_inv a credentials nonce first final client' :
  handle_server_first first
    (scram_with_nonce a (cr_username credentials) (cr_password credentials) nonce)
    = (Ok final, client') →
  ∃ combined proof signature,
    scram_challenge a credentials nonce first combined proof signature
    ∧ final = as_bytes (final_bare combined +:+ ",p=" +:+ base64_encode proof)
    ∧ sc_expected_server_signature client' = Some signature.
Proof.
  unfold handle_server_first. cbn [scram_with_nonce sc_expected_server_signature sc_client_nonce].
  destruct (from_utf8 first) as [message|] eqn:Hu; [|done].
  destruct (parse_server_first _ message) as [[[combined salt] iterations]|e|] eqn:Hp; [|done..].
  destruct (calculate_scram _ _ _ _ _) as [[proof signature]|e|] eqn:Hc; [|done..].
  intros [= <- <-]. exists combined, proof, signature.
  apply parse_server_first_inv in Hp
    as (attributes & encoded & count & Ha & Hm & Hr & Hpre & Hne & Hs & Hd & Hi & Hk & Hb).
  apply calculate_scram_inv in Hc.
  unfold auth_message_of in Hc. cbn [sc_client_first_bare scram_with_nonce sc_algorithm sc_password] in Hc.
  rewrite scram_username_spec in Hc.
  split_and!; try done. exists message, attributes, encoded, salt, count, iterations.
  split_and!; try done; apply Hb.
Qed.
Lemma verify_server_final_inv final client u client' :
  verify_server_final final client = (Ok u, client') →
  ∃ signature, scram_confirmed final signature
    ∧ sc_expected_server_signature client = Some signature.
Proof.
  unfold verify_server_final. destruct (from_utf8 final) as [text|] eqn:Hu; [|done].
  destruct (parse_scram_attributes text) as [m|e|] eqn:Hm; [|done..].
  destruct (m !! ATTR_e) eqn:He; [done|]. unfold attribute, scram_decode.
  destruct (m !! ATTR_v) as [encoded|] eqn:Hv; [|done]. cbn [ok_or].
  destruct (base64_decode encoded) as [|signature] eqn:Hd; [done|].
  destruct (sc_expected_server_signature client) as [expected|]; [|done].
  case_bool_decide; [|done]. intros _. subst. exists expected.
  split; [|done]. by exists text, m, encoded.
Qed.

Lemma parse_scram_no_panic m : parse_scram_attributes m ≠ Panic.
Proof. apply for_res_no_panic. intros s x. unfold scram_step. by repeat case_match. Qed.
Lemma parse_server_first_no_panic n m : parse_server_first n m ≠ Panic.
Proof.
  unfold parse_server_first, attribute, scram_decode.
  apply let_no_panic; [apply parse_scram_no_panic|intros attributes]. case_bool_decide; [done|].
  apply let_no_panic; [apply ok_or_no_panic|intros nonce]. case_match; [done|].
  apply let_no_panic; [apply ok_or_no_panic|intros salt].
  apply let_no_panic; [by case_match|intros bytes].
  apply let_no_panic; [apply ok_or_no_panic|intros count]. by repeat case_match.
Qed.
Lemma calculate_scram_no_panic a p s i m : calculate_scram a p s i m ≠ Panic.
Proof.
  unfold calculate_scram. assert (∀ k x, hmac a k x ≠ Panic) as Hh
    by (intros; unfold hmac; by case_match).
  apply let_no_panic; [apply Hh|intros k1]. apply let_no_panic; [apply Hh|intros k2].
  apply let_no_panic; [apply Hh|intros k3]. apply let_no_panic; [apply Hh|intros k4]. done.
Qed.
Lemma handle_server_first_no_panic m client : (handle_server_first m client).1 ≠ Panic.
Proof.
  unfold handle_server_first. destruct (sc_expected_server_signature client); [done|].
  destruct (from_utf8 m) as [message|]; [|done].
  pose proof (parse_server_first_no_panic (sc_client_nonce client) message) as Hp.
  destruct (parse_server_first _ message) as [[[nonce salt] i]|e|]; [|done..].
  pose proof (calculate_scram_no_panic (sc_algorithm client) (as_bytes (sc_password client)) salt i
    (as_bytes (auth_message_of client message nonce))) as Hc.
  by destruct (calculate_scram _ _ _ _ _) as [[? ?]|e|].
Qed.
Lemma verify_server_final_no_panic m client : (verify_server_final m client).1 ≠ Panic.
Proof.
  unfold verify_server_final, attribute, scram_decode.
  destruct (from_utf8 m) as [message|]; [|done].
  pose proof (parse_scram_no_panic message) as Hp.
  destruct (parse_scram_attributes message) as [m'|e|]; [|done..].
  destruct (m' !! ATTR_e); [done|]. destruct (m' !! ATTR_v) as [x|]; [|done]. cbn [ok_or].
  by repeat case_match.
Qed.

(** Selection never settles for a weaker mechanism than the server offers. *)
Definition strength (m : SaslMechanism) : Z :=
  match m with SaslPlain => 0 | SaslScram Sha1 => 1 | SaslScram Sha256 => 2 | SaslScram Sha512 => 3 end.
Lemma select_mechanism_spec offered m :
  select_mechanism offered = Ok m →
  offers offered m = true ∧ ∀ m', offers offered m' = true → strength m' ≤ strength m.
Proof.
  unfold select_mechanism. intros Hf%ok_or_inv. split; [by apply List.find_some in Hf as [_ ?]|].
  unfold preference in *. cbn [List.find] in Hf. intros m' Hm'.
  repeat (case_match; [simplify_eq; destruct m' as [|[]]; first [congruence|cbn; lia]|]). done.
Qed.

Context `{Snappy}.

(** What happened on a connection: the requests that were sent, each with the frame that
    answered it, which was read under the opaque of the request. *)
Definition exchanged (c c' : KvConnection) (l : list (Frame * Frame)) : Prop :=
  kc_sent c' = kc_sent c ++ l.*1
  ∧ Forall (λ e, answers (opaque e.1) e.2 = true) l
  ∧ ∃ consumed events, kc_reads c = consumed ++ kc_reads c'
      ∧ events `sublist_of` consumed
      ∧ Forall2 (λ ev e, ∃ enabled, inbound_frame enabled ev = Some e.2) events l.
Definition unnumbered (e : Frame * Frame) : Frame * Frame := (set_opaque 0 e.1, e.2).

Lemma exchanged_app c c1 c2 l1 l2 :
  exchanged c c1 l1 → exchanged c1 c2 l2 → exchanged c c2 (l1 ++ l2).
Proof.
  intros (S1 & A1 & k1 & e1 & R1 & U1 & F1) (S2 & A2 & k2 & e2 & R2 & U2 & F2). split_and!.
  - by rewrite S2, S1, fmap_app, <-app_assoc.
  - by apply Forall_app.
  - exists (k1 ++ k2), (e1 ++ e2). rewrite R1, R2, <-app_assoc.
    split_and!; [done|by apply sublist_app|by apply Forall2_app].
Qed.

(** Every successful run of [m] exchanges what [P] says, opaques aside, and keeps the
    negotiated settings of the connection. *)
Definition sends {A} (m : io KvConnection A) (P : A → list (Frame * Frame) → Prop) : Prop :=
  ∀ c a c', m c = (Done (Ok a), c') →
    same_link c c' ∧ ∃ l, exchanged c c' l ∧ P a (unnumbered <$> l).

Lemma sends_bind {A B} (m : io KvConnection A) (k : A → io KvConnection B) P Q :
  sends m P → (∀ a, sends (k a) (Q a)) →
  sends (io_bind m k) (λ b l, ∃ a l1 l2, P a l1 ∧ Q a b l2 ∧ l = l1 ++ l2).
Proof.
  intros Hm Hk c b c' (a & c1 & H1 & H2)%io_bind_ok.
  apply Hm in H1 as (L1 & l1 & E1 & P1). apply Hk in H2 as (L2 & l2 & E2 & P2).
  split; [by etrans|]. exists (l1 ++ l2). split; [by eapply exchanged_app|].
  rewrite fmap_app. eauto 7.
Qed.
Lemma sends_mono {A} (m : io KvConnection A) (P Q : A → list (Frame * Frame) → Prop) :
  sends m P → (∀ a l, P a l → Q a l) → sends m Q.
Proof. intros Hm HPQ c a c' Hr. apply Hm in Hr as (? & s & ? & ?). eauto. Qed.
Lemma sends_lift {A} (r : result A) : sends (io_lift r) (λ a l, r = Ok a ∧ l = []).
Proof.
  intros c a c' [= -> <-]. split; [done|]. exists []. split; [|done].
  split_and!; [by rewrite app_nil_r|done|]. exists [], []. by split_and!.
Qed.
Lemma sends_ret {A} (x : A) : sends (io_ret x) (λ a l, a = x ∧ l = []).
Proof. eapply sends_mono; [apply (sends_lift (Ok x))|]. by intros a l [[= ->] ->]. Qed.
Lemma sends_request q : opaque q = 0 → sends (conn_request q) (λ f l, l = [(q, f)]).
Proof.
  intros Hq c f c' Hr.
  apply conn_request_spec in Hr as (k & skipped & Hk & _ & Ho & _ & Hs & _ & _ & Hl).
  split; [done|]. rewrite Hq in Hs. destruct (Hs f eq_refl) as [Ha Hsent].
  exists [(set_opaque (kc_next_opaque c) q, f)]. split; [|by destruct q; cbn in *; subst].
  split_and!; [done|by repeat constructor|].
  assert (f ∈ omap (inbound_frame (kc_snappy_enabled c)) k) as (ev & Hev & Hf)%list_elem_of_omap.
  { rewrite Ho. apply elem_of_app. right. by apply list_elem_of_singleton. }
  exists k, [ev]. split_and!; [done| |repeat constructor; by eexists].
  by apply singleton_sublist_l.
Qed.
(** A step that ends the exchange of [m]. *)
Lemma sends_then {A B} (m : io KvConnection A) (k : A → result B) P :
  sends m P → sends (let! a := m in io_lift (k a)) (λ b l, ∃ a, P a l ∧ k a = Ok b).
Proof.
  intros Hm. eapply sends_mono; [apply sends_bind; [exact Hm|intros a; apply sends_lift]|].
  intros b l (a & l1 & l2 & HP & [Hk ->] & ->). rewrite app_nil_r. eauto.
Qed.
Lemma conn_request_ends q : io_total (conn_request q).
Proof.
  intros c. destruct (conn_request q c) as [o c'] eqn:Hr.
  apply conn_request_spec in Hr as (? & ? & _ & _ & _ & _ & _ & (r & -> & Hr) & _). cbn.
  split; [done|]. by intros [= ->].
Qed.

Lemma ensure_auth_no_panic f o : ensure_auth_opcode f o ≠ Panic ∧ ensure_auth_success f o ≠ Panic.
Proof.
  unfold ensure_auth_success, ensure_auth_opcode. by destruct (_ && _); cbn; [case_match|].
Qed.
Lemma authenticate_total nonce credentials : io_total (authenticate nonce credentials).
Proof.
  unfold authenticate. apply io_total_bind; [apply conn_request_ends|intros f].
  apply io_total_bind; [apply io_total_lift, ensure_auth_no_panic|intros _].
  apply io_total_bind; [apply io_total_lift, ok_or_no_panic|intros m].
  apply io_total_bind; [|intros _; apply io_total_ret]. destruct m as [|a].
  - unfold authenticate_plain. apply io_total_bind; [apply conn_request_ends|intros g].
    apply io_total_lift, ensure_auth_no_panic.
  - unfold authenticate_scram.
    apply io_total_bind; [apply io_total_lift; by destruct nonce|intros client].
    apply io_total_bind; [apply conn_request_ends|intros g].
    apply io_total_bind; [apply io_total_lift, ensure_auth_no_panic|intros _].
    case_match; [by apply io_total_lift|].
    pose proof (handle_server_first_no_panic (value g) client) as Hh.
    destruct (handle_server_first (value g) client) as [final client1].
    apply io_total_bind; [by apply io_total_lift|intros final'].
    apply io_total_bind; [apply conn_request_ends|intros h].
    apply io_total_bind; [apply io_total_lift, ensure_auth_no_panic|intros _].
    apply io_total_lift, verify_server_final_no_panic.
Qed.

Definition granted (f : Frame) (o : Opcode) : Prop :=
  magic_is_response (magic f) = true ∧ opcode f = o ∧ status_is_success (status f) = true.
Lemma ensure_auth_opcode_ok f o u :
  ensure_auth_opcode f o = Ok u → magic_is_response (magic f) = true ∧ opcode f = o.
Proof.
  unfold ensure_auth_opcode. destruct (magic_is_response (magic f)); [|done].
  by destruct (Z.eqb_spec (opcode f) o).
Qed.
Lemma ensure_auth_success_ok f o u : ensure_auth_success f o = Ok u → granted f o.
Proof.
  unfold ensure_auth_success, granted. destruct (ensure_auth_opcode f o) as [x| |] eqn:Ho; [|done..].
  apply ensure_auth_opcode_ok in Ho as [-> ->]. by destruct (status_is_success (status f)).
Qed.

(** A SASL request, field by field. *)
Definition sasl_request (o : Opcode) (mechanism : string) (payload : bytes) : Frame :=
  mkFrame Request o 0 0 STATUS_SUCCESS 0 0 [] [] (as_bytes mechanism) payload None None.
Definition list_request : Frame := sasl_request OP_SASL_LIST_MECHS "" [].
Definition plain_request (credentials : Credentials) : Frame :=
  sasl_request OP_SASL_AUTH "PLAIN"
    (0 :: as_bytes (cr_username credentials) ++ 0 :: as_bytes (cr_password credentials)).
Definition scram_name (a : ScramAlgorithm) : string :=
  match a with
  | Sha1 => "SCRAM-SHA1" | Sha256 => "SCRAM-SHA256" | Sha512 => "SCRAM-SHA512"
  end.
Definition scram_first_request (a : ScramAlgorithm) (username nonce : string) : Frame :=
  sasl_request OP_SASL_AUTH (scram_name a) (as_bytes ("n,," +:+ first_bare username nonce)).
Definition scram_final_request (a : ScramAlgorithm) (combined : string) (proof : bytes) : Frame :=
  sasl_request OP_SASL_STEP (scram_name a)
    (as_bytes (final_bare combined +:+ ",p=" +:+ base64_encode proof)).

(** The exchange of one mechanism, after the list of mechanisms was asked for. *)
Definition plain_exchange (credentials : Credentials) (l : list (Frame * Frame)) : Prop :=
  ∃ f, l = [(plain_request credentials, f)] ∧ granted f OP_SASL_AUTH.
Definition scram_exchange (nonce : string + bytes) (a : ScramAlgorithm) (credentials : Credentials)
    (l : list (Frame * Frame)) : Prop :=
  ∃ random first combined proof signature final,
    nonce = inr random
    ∧ l = [(scram_first_request a (cr_username credentials) (base64_encode_no_pad random), first);
           (scram_final_request a combined proof, final)]
    ∧ opcode first = OP_SASL_AUTH ∧ status first = STATUS_AUTH_CONTINUE
    ∧ granted final OP_SASL_STEP
    ∧ scram_challenge a credentials (base64_encode_no_pad random) (value first) combined proof
        signature
    ∧ scram_confirmed (value final) signature.
(** A request that does not carry the password: the list, or a message of SCRAM, in which
    the password is at most the key of the proof. *)
Definition keeps_password (nonce : string + bytes) (credentials : Credentials) (q : Frame) : Prop :=
  q = list_request
  ∨ ∃ a random, nonce = inr random
    ∧ (q = scram_first_request a (cr_username credentials) (base64_encode_no_pad random)
       ∨ ∃ first combined proof signature,
           q = scram_final_request a combined proof
           ∧ scram_challenge a credentials (base64_encode_no_pad random) first combined proof
               signature).
Definition auth_exchange (nonce : string + bytes) (credentials : Credentials) (m : SaslMechanism)
    (l : list (Frame * Frame)) : Prop :=
  ∃ mechanisms rest, l = (list_request, mechanisms) :: rest
    ∧ granted mechanisms OP_SASL_LIST_MECHS
    ∧ select_mechanism (from_utf8_lossy (value mechanisms)) = Ok m
    ∧ match m with
      | SaslPlain => plain_exchange credentials rest
      | SaslScram a => scram_exchange nonce a credentials rest
      end.

Lemma sends_plain credentials :
  sends (authenticate_plain credentials) (λ _, plain_exchange credentials).
Proof.
  eapply sends_mono; [apply sends_then, sends_request; done|].
  intros u l (f & -> & Hok%ensure_auth_success_ok). by exists f.
Qed.
(** The client's first message, field by field. *)
Lemma scram_start_spec a username password nonce :
  sasl_auth (mechanism_name (SaslScram a))
    (scram_start (scram_with_nonce a username password nonce)) 0
  = scram_first_request a username nonce.
Proof.
  unfold scram_start, scram_first_request, first_bare. cbn [sc_client_first_bare scram_with_nonce].
  rewrite scram_username_spec. by destruct a.
Qed.
Lemma scram_step_spec a message :
  sasl_step (mechanism_name (SaslScram a)) message 0
  = sasl_request OP_SASL_STEP (scram_name a) message.
Proof. by destruct a. Qed.

Lemma sends_scram nonce a credentials :
  sends (authenticate_scram nonce a credentials) (λ _, scram_exchange nonce a credentials).
Proof.
  intros c u c' (client & c1 & [= Hnew <-] & He)%io_bind_ok.
  destruct nonce as [|random]; [done|]. injection Hnew as <-.
  set (client := scram_with_nonce _ _ _ _) in He.
  apply io_bind_ok in He as (f & c2 & Hf & He).
  apply io_bind_ok in He as ([] & c3 & Ho & He). injection Ho as Ho <-.
  apply ensure_auth_opcode_ok in Ho as [_ Ho].
  destruct (Z.eqb_spec (status f) STATUS_AUTH_CONTINUE) as [Hst|]; [|done]. cbn [negb] in He.
  destruct (handle_server_first (value f) client) as [fm client1] eqn:Hh.
  apply io_bind_ok in He as (final & c4 & Hx & He). injection Hx as -> <-.
  apply io_bind_ok in He as (g & c5 & Hg & He).
  apply io_bind_ok in He as ([] & c6 & Hok & He). injection Hok as Hok%ensure_auth_success_ok <-.
  injection He as Hv <-. destruct (verify_server_final (value g) client1) as [v client2] eqn:Hver.
  cbn in Hv. subst v.
  apply sends_request in Hf as (L1 & l1 & E1 & P1); [|done].
  apply sends_request in Hg as (L2 & l2 & E2 & P2); [|done].
  split; [by etrans|]. exists (l1 ++ l2). split; [by eapply exchanged_app|].
  apply handle_server_first_inv in Hh as (combined & proof & signature & Hch & -> & Hsig).
  apply verify_server_final_inv in Hver as (signature' & Hcon & Hsig').
  assert (signature' = signature) as -> by congruence.
  exists random, f, combined, proof, signature, g.
  rewrite fmap_app, P1, P2, scram_step_spec. unfold client. by rewrite scram_start_spec.
Qed.
Lemma sends_authenticate nonce credentials :
  sends (authenticate nonce credentials) (auth_exchange nonce credentials).
Proof.
  eapply sends_mono.
  { apply sends_bind; [by apply sends_request|intros f].
    apply sends_bind; [apply sends_lift|intros u]. apply sends_bind; [apply sends_lift|intros m].
    apply (sends_bind _ _ (λ _ l, match m with
      | SaslPlain => plain_exchange credentials l
      | SaslScram a => scram_exchange nonce a credentials l
      end)); [|intros v; apply sends_ret].
    destruct m; [apply sends_plain|apply sends_scram]. }
  intros m l (f & l1 & l2 & -> & (u & ? & ? & [Hok%ensure_auth_success_ok ->] & Hm & ->) & ->).
  destruct Hm as (m' & ? & ? & [Hs ->] & (v & lm & ? & Hl & [-> ->] & ->) & ->).
  exists f, lm. cbn. rewrite app_nil_r. by split_and!.
Qed.

(** Whatever its outcome, [m] puts only requests of [P] on the wire, opaques aside. *)
Definition emits {A} (m : io KvConnection A) (P : Frame → Prop) : Prop :=
  ∀ c, ∃ sent, kc_sent (m c).2 = kc_sent c ++ sent ∧ Forall P (set_opaque 0 <$> sent).
Lemma emits_bind {A B} (m : io KvConnection A) (k : A → io KvConnection B) P :
  emits m P → (∀ a, emits (k a) P) → emits (io_bind m k) P.
Proof.
  intros Hm Hk c. unfold io_bind. destruct (Hm c) as (s1 & E1 & F1).
  destruct (m c) as [[[a|e|]|] c1]; cbn [snd] in *; [|by exists s1..].
  destruct (Hk a c1) as (s2 & E2 & F2). exists (s1 ++ s2).
  rewrite E2, E1, <-app_assoc, fmap_app. split; [done|by apply Forall_app].
Qed.
Lemma emits_lift {A} (r : result A) P : emits (io_lift r) P.
Proof. intros c. exists []. cbn. by rewrite app_nil_r. Qed.
Lemma emits_lift_bind {A B} (r : result A) (k : A → io KvConnection B) P :
  (∀ a, r = Ok a → emits (k a) P) → emits (io_bind (io_lift r) k) P.
Proof.
  intros Hk. destruct r as [a|e|]; [by apply (Hk a)|apply (emits_lift (Err e))
    |apply (emits_lift Panic)].
Qed.
Lemma emits_request q (P : Frame → Prop) : opaque q = 0 → P q → emits (conn_request q) P.
Proof.
  intros Hq HP c. destruct (conn_request q c) as [o c'] eqn:Hr. cbn [snd].
  apply conn_request_spec in Hr as (? & ? & _ & _ & _ & _ & _ & _ & [Hs|Hs] & _); rewrite Hs.
  - exists []. by rewrite app_nil_r.
  - eexists. split; [done|]. repeat constructor. by destruct q; cbn in *; subst.
Qed.
Lemma emits_plain credentials :
  emits (authenticate_plain credentials) (λ q, q = plain_request credentials).
Proof. apply emits_bind; [by apply emits_request|intros f; apply emits_lift]. Qed.
Lemma emits_scram nonce a credentials :
  emits (authenticate_scram nonce a credentials) (keeps_password nonce credentials).
Proof.
  apply emits_lift_bind. intros client Hnew. destruct nonce as [|random]; [done|].
  injection Hnew as <-. set (client := scram_with_nonce _ _ _ _).
  apply emits_bind.
  { unfold client. rewrite scram_start_spec. apply emits_request; [done|].
    right. exists a, random. auto. }
  intros f. apply emits_lift_bind. intros _ _. case_match; [apply emits_lift|].
  destruct (handle_server_first (value f) client) as [fm client1] eqn:Hh.
  apply emits_lift_bind. intros final ->.
  apply emits_bind; [|intros g; apply emits_lift_bind; intros _ _; apply emits_lift].
  apply handle_server_first_inv in Hh as (combined & proof & signature & Hch & -> & _).
  rewrite scram_step_spec. apply emits_request; [done|].
  right. exists a, random. split; [done|]. right. by exists (value f), combined, proof, signature.
Qed.

(** The password goes on the wire only under PLAIN, and PLAIN only when the server's answer
    names no SCRAM mechanism. *)
Definition plain_forced (l : list (Frame * Frame)) : Prop :=
  ∃ mechanisms, l = [(list_request, mechanisms)] ∧ granted mechanisms OP_SASL_LIST_MECHS
    ∧ ∀ a, offers (from_utf8_lossy (value mechanisms)) (SaslScram a) = false.
Definition disclosure (nonce : string + bytes) (credentials : Credentials) (c c' : KvConnection)
    : Prop :=
  ∃ sent, kc_sent c' = kc_sent c ++ sent
    ∧ (Forall (keeps_password nonce credentials) (set_opaque 0 <$> sent)
       ∨ ∃ c1 l, exchanged c c1 l ∧ plain_forced (unnumbered <$> l)
           ∧ Forall (λ q, q = list_request ∨ q = plain_request credentials)
               (set_opaque 0 <$> sent)).
Lemma authenticate_discloses nonce credentials c :
  disclosure nonce credentials c (authenticate nonce credentials c).2.
Proof.
  unfold authenticate, io_bind, io_lift.
  destruct (emits_request (sasl_list_mechanisms 0) (λ q, q = list_request) eq_refl eq_refl c)
    as (s1 & E1 & F1).
  destruct (conn_request (sasl_list_mechanisms 0) c) as [o c1] eqn:Hr. cbn [snd] in E1.
  assert (disclosure nonce credentials c c1) as Hlist.
  { exists s1. split; [done|]. left. eapply Forall_impl; [exact F1|]. by left. }
  destruct o as [[f|e|]|]; [|exact Hlist..].
  apply sends_request in Hr as (_ & l & Hl & Pl); [|done].
  destruct (ensure_auth_success f OP_SASL_LIST_MECHS) as [u|e|] eqn:Hok; [|exact Hlist..].
  apply ensure_auth_success_ok in Hok.
  destruct (select_mechanism _) as [m|e|] eqn:Hm; [|exact Hlist..].
  apply select_mechanism_spec in Hm as [_ Hbest].
  destruct m as [|a].
  - destruct (emits_plain credentials c1) as (s2 & E2 & F2).
    destruct (authenticate_plain credentials c1) as [o c2]. cbn [snd] in E2.
    assert (disclosure nonce credentials c c2); [|by destruct o as [[?|?|]|]].
    exists (s1 ++ s2). rewrite E2, E1, <-app_assoc. split; [done|]. right. exists c1, l.
    split_and!; [done| |].
    + exists f. split_and!; [done..|]. intros a. apply not_true_iff_false. intros Ha%Hbest. by destruct a.
    + rewrite fmap_app. apply Forall_app. split; eapply Forall_impl; eauto; cbn; auto.
  - destruct (emits_scram nonce a credentials c1) as (s2 & E2 & F2).
    destruct (authenticate_scram nonce a credentials c1) as [o c2]. cbn [snd] in E2.
    assert (disclosure nonce credentials c c2); [|by destruct o as [[?|?|]|]].
    exists (s1 ++ s2). rewrite E2, E1, <-app_assoc. split; [done|]. left.
    rewrite fmap_app. apply Forall_app. split; [|done]. eapply Forall_impl; [exact F1|]. by left.
Qed.
End Authenticate.

(** ** Properties *)

(** C28: a client that knows the password and a server that enrolled it authenticate each
    other: over any username, nonce, salt and permitted work factor the client starts with the
    escaped username and its nonce and answers the server's challenge, the server of RFC 5802
    accepts the proof and signs the exchange, the client accepts the signature, and the
    password has been wiped from the client. *)
Theorem scram_exchange_completes `{ScramCrypto} `{!ScramLaws} a username password nonce suffix
    salt iterations :
  clean_text nonce → clean_text suffix → suffix ≠ "" →
  wf_bytes salt → salt ≠ [] → 1 ≤ iterations ≤ MAX_SCRAM_ITERATIONS →
  let client := scram_with_nonce a username password nonce in
  let v := enrol a password salt iterations in
  let bare := first_bare username nonce in
  let first := server_first v (nonce +:+ suffix) in
  ∃ final signed client',
    scram_start client = as_bytes ("n,," +:+ bare)
    ∧ handle_server_first (as_bytes first) client = (Ok (as_bytes final), client')
    ∧ server_final a v bare first (nonce +:+ suffix) final = Some signed
    ∧ (verify_server_final (as_bytes signed) client').1 = Ok tt
    ∧ sc_password client' = "".
Proof.
  intros Hn Hs Hne Hw Hsalt Hi client v bare first.
  assert (sc_client_first_bare client = bare) as Hb.
  { unfold bare, first_bare. by rewrite <-scram_username_spec. }
  destruct (scram_exchange_spec a username password nonce suffix salt iterations Hn Hs Hne Hw Hsalt Hi)
    as (final & signed & client' & Hh & Hf & Hv & Hp).
  exists final, signed, client'. split_and!; try done.
  - unfold scram_start. by rewrite Hb.
  - by rewrite <-Hb.
Qed.

(** C27: a connection is authenticated only by the strongest mechanism the server offered,
    in exactly the exchange of that mechanism, each request answered under its own opaque, and
    the last one with success.  Under PLAIN that is one request, with the user name and the
    password.  Under SCRAM it is the two messages of RFC 5802: the escaped user name and the
    client's nonce; then, once the server asked to continue with a nonce that extends the
    client's and a bounded work factor, that nonce and the proof of the password over both
    messages; and the server's last message holds the signature that only the password's
    server key gives.  Whatever the outcome, the password itself is sent only when the server
    offered no SCRAM mechanism: every other request is one of these messages, in which it is
    at most the key of the proof.  Authentication always ends, and never panics. *)
Theorem authenticate_sound `{ScramCrypto} `{Snappy} nonce credentials c o c' :
  authenticate nonce credentials c = (o, c') →
  (∃ r, o = Done r ∧ r ≠ Panic)
  ∧ disclosure nonce credentials c c'
  ∧ ∀ m, o = Done (Ok m) → ∃ l mechanisms rest,
      exchanged c c' l
      ∧ unnumbered <$> l = (list_request, mechanisms) :: rest
      ∧ granted mechanisms OP_SASL_LIST_MECHS
      ∧ offers (from_utf8_lossy (value mechanisms)) m = true
      ∧ (∀ m', offers (from_utf8_lossy (value mechanisms)) m' = true → strength m' ≤ strength m)
      ∧ match m with
        | SaslPlain => plain_exchange credentials rest
        | SaslScram a => scram_exchange nonce a credentials rest
        end.
Proof.
  intros Hrun. split_and!.
  - destruct (authenticate_total nonce credentials c) as [H1 H2]. rewrite Hrun in H1, H2.
    destruct o as [r|]; [|done]. exists r. split; [done|]. by intros ->.
  - pose proof (authenticate_discloses nonce credentials c) as Hd. by rewrite Hrun in Hd.
  - intros m ->.
    apply sends_authenticate in Hrun as (_ & l & Hl & f & rest & Hf & Hg & Hs%select_mechanism_spec & Hm).
    exists l, f, rest. split_and!; [done..|apply Hs|apply Hs|done].
Qed.

(** ** A sample exchange, with hexadecimal text and keyed concatenation as primitives *)
Definition hex_text (bs : bytes) : string :=
  foldr (λ b s, String (hex_digit (b / 16)) (String (hex_digit (b `mod` 16)) s)) "" bs.
Fixpoint unhex (s : string) : option bytes :=
  match s with
  | EmptyString => Some []
  | String a (String b s) =>
      x ← to_digit 16 a; y ← to_digit 16 b; bs ← unhex s; Some (16 * x + y :: bs)
  | _ => None
  end.
Definition toy_mac (n : Z) (k m : bytes) : bytes :=
  (λ z, z `mod` 256) <$> resize (Z.to_nat n) 7 (k ++ m).
#[local] Instance toy_crypto : ScramCrypto := {|
  digest a b := toy_mac (digest_length a) b [];
  hmac_new a k := inr (toy_mac (digest_length a) k);
  pbkdf2 a p s i n := toy_mac n p (s ++ put_u32 i);
  base64_encode := hex_text;
  base64_encode_no_pad := hex_text;
  base64_decode s := match unhex s with Some b => inr b | None => inl "invalid digit" end
|}.

Lemma hex_digit_spec n : 0 ≤ n < 16 →
  to_digit 16 (hex_digit n) = Some n ∧ (char_code (hex_digit n) <? 128) = true
  ∧ hex_digit n ≠ comma.
Proof.
  intros Hn. assert (n ∈ seqZ 0 16) as Hin by (apply elem_of_seqZ; lia).
  apply (proj1 (Forall_forall (λ n, to_digit 16 (hex_digit n) = Some n
    ∧ (char_code (hex_digit n) <? 128) = true ∧ hex_digit n ≠ comma) (seqZ 0 16))); [|done].
  vm_compute. repeat constructor; discriminate.
Qed.
Lemma byte_nibbles b : is_u8 b → 0 ≤ b / 16 < 16 ∧ 0 ≤ b `mod` 16 < 16.
Proof.
  intros Hb. unfold_ranges. split; [|apply Z.mod_pos_bound; lia].
  split; [apply Z.div_pos; lia|apply Z.div_lt_upper_bound; lia].
Qed.
Lemma hex_text_spec b : wf_bytes b →
  unhex (hex_text b) = Some b ∧ is_ascii (hex_text b) = true ∧ contains comma (hex_text b) = false.
Proof.
  induction b as [|x b IH]; [done|]. intros [Hx Hb]%wf_cons.
  destruct (IH Hb) as (I1 & I2 & I3). destruct (byte_nibbles x Hx) as [Hh Hl].
  destruct (hex_digit_spec _ Hh) as (A1 & A2 & A3). destruct (hex_digit_spec _ Hl) as (B1 & B2 & B3).
  cbn [hex_text foldr]. fold (hex_text b). cbn [unhex is_ascii contains].
  rewrite A1, A2, B1, B2, I1, I2, I3. split_and!; [|done|].
  - cbn. do 2 f_equal. pose proof (Z.div_mod x 16). lia.
  - by rewrite !bool_decide_false by congruence.
Qed.
#[local] Instance toy_laws : ScramLaws (H := toy_crypto).
Proof.
  split.
  - intros b Hb. cbn. by destruct (hex_text_spec b Hb) as (-> & _).
  - intros b Hb. by destruct (hex_text_spec b Hb) as (_ & ? & ?).
  - by intros [|x b].
  - intros a k. eexists. split; [done|]. intros m. unfold toy_mac. split.
    + by rewrite length_fmap, length_resize.
    + apply Forall_fmap, Forall_forall. intros z _. cbn. unfold_ranges.
      pose proof (Z.mod_pos_bound z 256). lia.
Qed.

Lemma scram_exchange_completes_witness :
  let client := scram_with_nonce Sha256 "al,ice" "secret" "abc" in
  let v := enrol Sha256 "secret" [1; 2; 255] 4096 in
  let bare := first_bare "al,ice" "abc" in
  let first := server_first v ("abc" +:+ "def") in
  (bare = "n=al=2Cice,r=abc" ∧ first = "r=abcdef,s=0102ff,i=4096")
  ∧ ∃ final signed client',
    scram_start client = as_bytes ("n,," +:+ bare)
    ∧ handle_server_first (as_bytes first) client = (Ok (as_bytes final), client')
    ∧ server_final Sha256 v bare first ("abc" +:+ "def") final = Some signed
    ∧ (verify_server_final (as_bytes signed) client').1 = Ok tt
    ∧ sc_password client' = "".
Proof.
  split; [vm_compute; split; reflexivity|].
  apply (scram_exchange_completes Sha256 "al,ice" "secret" "abc" "def" [1; 2; 255] 4096);
    try done; vm_compute; repeat constructor; discriminate.
Defined.

Definition sasl_answer (o : Opcode) (id : Z) (v : bytes) : Frame :=
  set_opaque id (set_value v (response o STATUS_SUCCESS)).
Definition sample_sasl : KvConnection :=
  from_io "127.0.0.1:11210" (from_secs 1) 0
    [RFrame (sasl_answer OP_SASL_LIST_MECHS 1 (as_bytes "EXTERNAL PLAIN")) 1;
     RFrame (sasl_answer OP_SASL_AUTH 2 []) 2] [].
Lemma authenticate_sound_witness :
  let run := authenticate (H0 := stored_only) (inr []) (mkCredentials "alice" "secret")
    sample_sasl in
  run.1 = Done (Ok SaslPlain)
  ∧ ∃ l mechanisms rest, exchanged (H0 := stored_only) sample_sasl run.2 l
      ∧ unnumbered <$> l = (list_request, mechanisms) :: rest
      ∧ plain_exchange (mkCredentials "alice" "secret") rest.
Proof.
  intros run. assert (run.1 = Done (Ok SaslPlain)) as Hr by (vm_compute; reflexivity).
  split; [exact Hr|].
  destruct (authenticate_sound (H0 := stored_only) (inr []) (mkCredentials "alice" "secret")
    sample_sasl run.1 run.2 (surjective_pairing _)) as (_ & _ & Hok).
  destruct (Hok _ Hr) as (l & f & rest & He & Hl & _ & _ & _ & Hp). exists l, f, rest.
  split; [exact He|split; [exact Hl|exact Hp]].
Defined.

(** SCRAM is preferred to PLAIN, and runs to the end against the server that enrolled the
    user; the last two frames are its challenge and its signature. *)
Definition sample_scram (first final : string) : KvConnection :=
  from_io "127.0.0.1:11210" (from_secs 1) 0
    [RFrame (sasl_answer OP_SASL_LIST_MECHS 1 (as_bytes "PLAIN SCRAM-SHA256 SCRAM-SHA1")) 1;
     RFrame (set_opaque 2 (set_value (as_bytes first)
       (response OP_SASL_AUTH STATUS_AUTH_CONTINUE))) 2;
     RFrame (sasl_answer OP_SASL_STEP 3 (as_bytes final)) 3] [].
Example authenticate_scram_sample :
  let v := enrol Sha256 "secret" [1; 2; 255] 4096 in
  let first := server_first v "0708def" in
  let auth := as_bytes (first_bare "al=ice" "0708" +:+ "," +:+ first +:+ ",c=biws,r=0708def") in
  let final := "v=" +:+ base64_encode (mac Sha256 (sv_server_key v) auth) in
  (authenticate (H0 := stored_only) (inr [7; 8]) (mkCredentials "al=ice" "secret")
     (sample_scram first final)).1 = Done (Ok (SaslScram Sha256))
  ∧ (authenticate (H0 := stored_only) (inr [7; 8]) (mkCredentials "al=ice" "guess")
       (sample_scram first final)).1
    = Done (Err (Authentication "SCRAM server signature mismatch")).
Proof. vm_compute. by split. Qed.
