(* ===== verification/Mitigation.v ===== *)
(** * Rollback mitigation ([rust-dcp-core/src/rollback_mitigation.rs])

    Before an event reaches the application its position must be persisted on every copy
    of the vBucket.  An observer polls the active node and the replicas, aggregates their
    answers per vBucket and publishes snapshots; deliveries wait on them.  Bootstrapping a
    KV session is not modelled: what it yields for each node is the environment of a cycle. *)
From S2P Require Import Prelude Types Frame Codec Dcp Command Errors Event Checkpoint.
From S2P Require Import Config Async Transport Topology.

(** ** Observations *)
Record ObservationTarget : Type := mkTarget {
  ot_vbucket : Z;
  ot_expected_vbucket_uuid : Z
}.
#[export] Instance ObservationTarget_eq_dec : EqDecision ObservationTarget.
Proof. solve_decision. Defined.

(** The answer of one copy: an error text or the parsed response. *)
Abbreviation RawObservation := (ObservationTarget * (string + ObserveSeqNoResponse))%type.

Inductive ObservationOutcome : Type :=
| Persisted (vbucket_uuid persisted_seqno : Z)
| Transient (message : string)
| BranchChanged (observed_vbucket_uuid : Z).

Abbreviation ObservationBatch := (gmap Z ObservationOutcome).

Record NodeObservationPlan : Type := mkNodePlan {
  np_address : string;
  np_targets : list ObservationTarget
}.

(** The plan of a source: how many copies each vBucket has, and whom to ask. *)
Record MitigationPlan : Type := mkMitigationPlan {
  mp_expected_copies : gmap Z Z;
  mp_nodes : gmap NodeId NodeObservationPlan
}.

(** ** [TokioMitigationSource::new] *)

(** A [BTreeSet<NodeId>] in ascending order. *)
Definition node_le (a b : NodeId) : Prop := String.leb a b = true.
#[export] Instance node_le_dec : RelDecision node_le.
Proof. intros a b. unfold node_le. apply _. Defined.
Definition node_list (s : gset NodeId) : list NodeId := merge_sort node_le (elements s).

(** The distinct nodes that hold a copy of the vBucket. *)
Definition vbucket_copies (t : ClusterTopology) (vbucket : Z) : result (gset NodeId) :=
  let? active := active_node t vbucket in
  let? replicas := replica_nodes t vbucket in
  Ok ({[active]} ∪ list_to_set replicas).

(** [entry(node).or_insert_with(..).targets.push(target)] *)
Definition push_target (node : NodeId) (address : string) (target : ObservationTarget)
    (nodes : gmap NodeId NodeObservationPlan) : gmap NodeId NodeObservationPlan :=
  let plan := default (mkNodePlan address []) (nodes !! node) in
  <[node := mkNodePlan (np_address plan) (np_targets plan ++ [target])]> nodes.

Definition plan_node (t : ClusterTopology) (vbucket uuid : Z)
    (nodes : gmap NodeId NodeObservationPlan) (node : NodeId)
    : result (gmap NodeId NodeObservationPlan) :=
  let? endpoint := ok_or (ct_endpoints t !! node)
    (Topology ("rollback mitigation node " +:+ node +:+ " for vBucket " +:+ pretty vbucket
       +:+ " has no endpoint")) in
  Ok (push_target node (ep_address endpoint) (mkTarget vbucket uuid) nodes).

Definition plan_vbucket (t : ClusterTopology) (plan : MitigationPlan) (branch : Z * Z)
    : result MitigationPlan :=
  let '(vbucket, uuid) := branch in
  if uuid =? 0 then
    Err (RollbackMitigation vbucket "effective checkpoint has no history branch UUID")
  else
    let? copies := vbucket_copies t vbucket in
    let? nodes := for_res (node_list copies) (mp_nodes plan) (plan_node t vbucket uuid) in
    Ok (mkMitigationPlan
          (<[vbucket := Z.of_nat (size copies)]> (mp_expected_copies plan)) nodes).

Definition target_le (a b : ObservationTarget) : Prop := ot_vbucket a ≤ ot_vbucket b.
#[export] Instance target_le_dec : RelDecision target_le.
Proof. intros a b. unfold target_le. apply _. Defined.

Definition mitigation_source_new (t : ClusterTopology) (branches : gmap Z Z)
    : result MitigationPlan :=
  let? plan := for_res (btree_to_list branches) (mkMitigationPlan ∅ ∅) (plan_vbucket t) in
  Ok (mkMitigationPlan (mp_expected_copies plan)
        ((λ p, mkNodePlan (np_address p) (merge_sort target_le (np_targets p)))
           <$> mp_nodes plan)).

(** ** One cycle *)
Definition push_node_failure (targets : list ObservationTarget) (message : string)
    : list RawObservation := (λ t, (t, inl message)) <$> targets.

Definition observe_target (t : ObservationTarget) : Frame :=
  observe_seqno (ot_vbucket t) (ot_expected_vbucket_uuid t) 0.

(** [parse_observe_seqno(response).map_err(|error| error.to_string())] *)
Definition parse_observation (f : Frame) : string + ObserveSeqNoResponse :=
  match parse_observe_seqno f with
  | Ok r => inr r
  | Err e => inl (protocol_error_to_string e)
  | Panic => inl ""
  end.

Section Cycle.
Context `{Snappy}.

(** A session for the node: not before the deadline, an error, or a connection. *)
Inductive Session : Type :=
| SessionLate
| SessionFailed (e : DcpError)
| SessionReady (c : KvConnection).

Definition observe_node (request_timeout : Duration) (plan : NodeObservationPlan)
    (session : Session) : option KvConnection * list RawObservation :=
  let targets := np_targets plan in
  let late := push_node_failure targets
    ("node observation exceeded " +:+ duration_debug request_timeout) in
  match session with
  | SessionLate => (None, late)
  | SessionFailed e => (None, push_node_failure targets (dcp_error_to_string e))
  | SessionReady c =>
      let '(o, c') := request_batch (observe_target <$> targets) c in
      match o with
      | Done (Ok responses) => (Some c', zip targets (parse_observation <$> responses))
      | Done (Err e) => (None, push_node_failure targets (dcp_error_to_string e))
      | _ => (None, late)
      end
  end.

(** The environment of a cycle: the order in which nodes complete and the sessions that
    bootstrapping yields for nodes without a reusable one. *)
Record CycleEnv : Type := mkCycleEnv {
  ce_order : list NodeId;
  ce_bootstrap : NodeId → Session
}.

Definition node_session (sessions : gmap NodeId KvConnection) (env : CycleEnv) (node : NodeId)
    : Session :=
  match sessions !! node with Some c => SessionReady c | None => ce_bootstrap env node end.

(** Completed nodes, in order. *)
Definition collect_node (request_timeout : Duration) (plan : MitigationPlan)
    (sessions : gmap NodeId KvConnection) (env : CycleEnv)
    (acc : gmap NodeId KvConnection * list RawObservation) (node : NodeId)
    : gmap NodeId KvConnection * list RawObservation :=
  match mp_nodes plan !! node with
  | None => acc
  | Some p =>
      let '(session, observations) :=
        observe_node request_timeout p (node_session sessions env node) in
      (match session with Some c => <[node := c]> acc.1 | None => acc.1 end,
       acc.2 ++ observations)
  end.

(** ** [aggregate_observations] *)
Record Aggregate : Type := mkAggregate {
  ag_minimum : option Z;
  ag_expected_uuid : option Z;
  ag_transient : option string;
  ag_changed_branch : option Z
}.

Definition aggregate_step (vbucket : Z) (a : Aggregate) (o : RawObservation) : Aggregate :=
  let '(target, r) := o in
  let uuid := Some (default (ot_expected_vbucket_uuid target) (ag_expected_uuid a)) in
  match r with
  | inr ob =>
      if ob_did_failover ob
         || negb (ob_vbucket_uuid ob =? ot_expected_vbucket_uuid target) then
        mkAggregate (ag_minimum a) uuid (ag_transient a) (Some (ob_vbucket_uuid ob))
      else if negb (ob_vbucket ob =? vbucket) then
        mkAggregate (ag_minimum a) uuid
          (Some ("node returned vBucket " +:+ pretty (ob_vbucket ob)
             +:+ " for requested vBucket " +:+ pretty vbucket)) (ag_changed_branch a)
      else if ob_current_seqno ob <? ob_persisted_seqno ob then
        mkAggregate (ag_minimum a) uuid
          (Some ("persisted seqno " +:+ pretty (ob_persisted_seqno ob)
             +:+ " exceeds current seqno " +:+ pretty (ob_current_seqno ob)))
          (ag_changed_branch a)
      else
        mkAggregate (Some (match ag_minimum a with
                           | None => ob_persisted_seqno ob
                           | Some current => Z.min current (ob_persisted_seqno ob)
                           end)) uuid (ag_transient a) (ag_changed_branch a)
  | inl message => mkAggregate (ag_minimum a) uuid (Some message) (ag_changed_branch a)
  end.

Definition aggregate_vbucket (vbucket expected_count : Z) (results : list RawObservation)
    : ObservationOutcome :=
  let a := foldl (aggregate_step vbucket) (mkAggregate None None None None) results in
  match ag_changed_branch a with
  | Some uuid => BranchChanged uuid
  | None =>
      if negb (len results =? expected_count) then
        Transient ("received " +:+ pretty (len results) +:+ " of " +:+ pretty expected_count
          +:+ " required copy observations")
      else
        match ag_transient a with
        | Some message => Transient message
        | None =>
            match ag_expected_uuid a, ag_minimum a with
            | Some uuid, Some seqno => Persisted uuid seqno
            | _, _ => Transient "observation cycle contained no successful copy result"
            end
        end
  end.

Definition aggregate_observations (expected_copies : gmap Z Z)
    (observations : list RawObservation) : ObservationBatch :=
  map_imap (λ vb n, Some (aggregate_vbucket vb n
    (filter (λ o, ot_vbucket o.1 = vb) observations))) expected_copies.

Definition observe_cycle (request_timeout : Duration) (plan : MitigationPlan)
    (sessions : gmap NodeId KvConnection) (env : CycleEnv)
    : ObservationBatch * gmap NodeId KvConnection :=
  let '(reusable, observations) :=
    foldl (collect_node request_timeout plan sessions env) (∅, []) (ce_order env) in
  (aggregate_observations (mp_expected_copies plan) observations, reusable).
End Cycle.

(** ** Snapshots *)
Record MitigationPartition : Type := mkMitigationPartition {
  ms_expected_vbucket_uuid : Z;
  ms_persisted_seqno : option Z;
  ms_last_error : option string
}.

Abbreviation MitigationSnapshot := (gmap Z MitigationPartition).

Definition snapshot_new (branches : gmap Z Z) : result MitigationSnapshot :=
  if bool_decide (branches = ∅) then
    Err (InvalidConfiguration "rollback mitigation requires at least one vBucket")
  else Ok ((λ uuid, mkMitigationPartition uuid None None) <$> branches).

Definition branch_error (expected observed : Z) : option string :=
  Some ("expected history branch " +:+ pretty expected +:+ ", observed " +:+ pretty observed).

Definition apply_outcome (outcome : option ObservationOutcome) (s : MitigationPartition)
    : MitigationPartition :=
  let expected := ms_expected_vbucket_uuid s in
  match outcome with
  | None => mkMitigationPartition expected (ms_persisted_seqno s)
              (Some "observation cycle omitted the vBucket")
  | Some (Persisted uuid seqno) =>
      if negb (uuid =? expected) then
        mkMitigationPartition expected None (branch_error expected uuid)
      else
        match ms_persisted_seqno s with
        | Some previous =>
            if seqno <? previous then
              mkMitigationPartition expected None
                (Some ("persisted sequence number regressed from " +:+ pretty previous
                   +:+ " to " +:+ pretty seqno))
            else mkMitigationPartition expected (Some seqno) None
        | None => mkMitigationPartition expected (Some seqno) None
        end
  | Some (Transient message) =>
      mkMitigationPartition expected (ms_persisted_seqno s) (Some message)
  | Some (BranchChanged observed) =>
      mkMitigationPartition expected None (branch_error expected observed)
  end.

Definition snapshot_apply (batch : ObservationBatch) (s : MitigationSnapshot)
    : MitigationSnapshot := map_imap (λ vb p, Some (apply_outcome (batch !! vb) p)) s.

(** ** [RollbackMitigator::wait_until_safe] *)

(** What ends one wait: a new snapshot (with whether the deadline has passed by then), the
    end of the observer, or the deadline (with the snapshot current at that time). *)
Inductive Wake : Type :=
| WakeChanged (s : MitigationSnapshot) (expired : bool)
| WakeClosed
| WakeDeadline (s : MitigationSnapshot).

Definition partition_safe (seqno : Z) (p : MitigationPartition) : bool :=
  match ms_persisted_seqno p with Some persisted => seqno <=? persisted | None => false end.

Fixpoint wait_loop (maximum_stall : Duration) (vbucket seqno : Z) (s : MitigationSnapshot)
    (expired delayed : bool) (wakes : list Wake) : outcome bool :=
  match s !! vbucket with
  | None => Done (Err (RollbackMitigation vbucket
              "vBucket is absent from the mitigation generation"))
  | Some p =>
      if partition_safe seqno p then Done (Ok delayed)
      else if expired then
        let context := default ("persisted sequence number did not reach " +:+ pretty seqno)
          (ms_last_error p) in
        Done (Err (RollbackMitigation vbucket ("delivery did not become persistence-safe within "
          +:+ duration_debug maximum_stall +:+ ": " +:+ context)))
      else
        match wakes with
        | [] => Hang
        | WakeChanged s' expired' :: wakes =>
            wait_loop maximum_stall vbucket seqno s' expired' true wakes
        | WakeClosed :: _ => Done (Err Cancelled)
        | WakeDeadline s' :: wakes =>
            wait_loop maximum_stall vbucket seqno s' true true wakes
        end
  end.

Definition wait_until_safe (maximum_stall : Duration) (vbucket seqno : Z)
    (s : MitigationSnapshot) (expired : bool) (wakes : list Wake) : outcome bool :=
  if seqno =? 0 then Done (Ok false)
  else wait_loop maximum_stall vbucket seqno s expired false wakes.

Definition mitigation_position (e : DcpEvent) : option (Z * Z) :=
  match e with
  | ESnapshotMarker marker =>
      Some (Event.snap_vbucket marker, Event.snap_start_seqno marker)
  | e => (λ seqno, (event_vbucket e, seqno)) <$> event_seqno e
  end.

(** ** The observer *)

(** [trait MitigationSource]: what an observation yields, given the environment it runs in,
    and the source left behind by an observation that is dropped after it started. *)
Class MitigationSource (Src E : Type) : Type := {
  source_observe : Src → E → ObservationBatch * Src;
  source_abandon : Src → Src
}.

(** The cancel signal, a change of it that does not cancel (with whether the observation
    had started), or an observation that completed. *)
Inductive ObserverEvent (E : Type) : Type :=
| ObserverCancelled
| ObserverSpurious (started : bool)
| ObserverBatch (env : E).
Arguments ObserverCancelled {E}.
Arguments ObserverSpurious {E} _.
Arguments ObserverBatch {E} _.

(** The snapshots published after [s]. *)
Fixpoint run_observer `{MitigationSource Src E} (events : list (ObserverEvent E)) (source : Src)
    (s : MitigationSnapshot) : list MitigationSnapshot :=
  match events with
  | [] | ObserverCancelled :: _ => []
  | ObserverSpurious started :: events =>
      run_observer events (if started then source_abandon source else source) s
  | ObserverBatch env :: events =>
      let '(batch, source') := source_observe source env in
      let next := snapshot_apply batch s in
      next :: run_observer events source' next
  end.

(** The completed observations: the source each started from and its environment. *)
Fixpoint observer_cycles `{MitigationSource Src E} (events : list (ObserverEvent E)) (source : Src)
    : list (Src * E) :=
  match events with
  | [] | ObserverCancelled :: _ => []
  | ObserverSpurious started :: events =>
      observer_cycles events (if started then source_abandon source else source)
  | ObserverBatch env :: events =>
      (source, env) :: observer_cycles events (source_observe source env).2
  end.

(** [TokioMitigationSource]: its configuration and plan with the reusable sessions, which a
    cycle takes out at its start. *)
Record TokioMitigationSource : Type := mkTokioSource {
  tms_request_timeout : Duration;
  tms_plan : MitigationPlan;
  tms_sessions : gmap NodeId KvConnection
}.

#[export] Instance tokio_source `{Snappy} : MitigationSource TokioMitigationSource CycleEnv := {
  source_observe m env :=
    let '(batch, sessions) :=
      observe_cycle (tms_request_timeout m) (tms_plan m) (tms_sessions m) env in
    (batch, mkTokioSource (tms_request_timeout m) (tms_plan m) sessions);
  source_abandon m := mkTokioSource (tms_request_timeout m) (tms_plan m) ∅
}.

(** [spawn_tokio_mitigator]: nothing when disabled, else the source and the first snapshot. *)
Definition spawn_tokio_mitigator `{Snappy} (config : RollbackMitigationConfig)
    (topology : ClusterTopology) (checkpoints : gmap Z DcpCheckpoint)
    : result (option (TokioMitigationSource * MitigationSnapshot)) :=
  if negb (rm_enabled config) then Ok None
  else
    let branches := ck_vbucket_uuid <$> checkpoints in
    let? plan := mitigation_source_new topology branches in
    let? initial := snapshot_new branches in
    Ok (Some (mkTokioSource (rm_request_timeout config) plan ∅, initial)).

(** ** Lemmas: the plan *)

Definition targets_of (nodes : gmap NodeId NodeObservationPlan) (node : NodeId)
    : list ObservationTarget := from_option np_targets [] (nodes !! node).

Lemma push_target_elem node address x nodes node' y :
  y ∈ targets_of (push_target node address x nodes) node' ↔
    y ∈ targets_of nodes node' ∨ (node' = node ∧ y = x).
Proof.
  unfold targets_of, push_target. destruct (decide (node = node')) as [<-|Hne].
  - rewrite lookup_insert_eq. cbn [from_option np_targets].
    rewrite elem_of_app, list_elem_of_singleton. destruct (nodes !! node); cbn; tauto.
  - rewrite lookup_insert_ne by done. split; [by left|]. by intros [?|[-> _]].
Qed.

Lemma plan_nodes_elem t vb uuid l : ∀ nodes nodes',
  for_res l nodes (plan_node t vb uuid) = Ok nodes' →
  ∀ node y, y ∈ targets_of nodes' node ↔
    y ∈ targets_of nodes node ∨ (node ∈ l ∧ y = mkTarget vb uuid).
Proof.
  induction l as [|n l IH]; intros nodes nodes'; cbn [for_res].
  { intros [= <-] node y. split; [by left|]. by intros [?|[?%elem_of_nil _]]. }
  unfold plan_node at 1. destruct (ct_endpoints t !! n) as [e|]; cbn [ok_or]; [|done].
  intros Hl node y. rewrite (IH _ _ Hl), push_target_elem, elem_of_cons. tauto.
Qed.

Lemma elem_of_node_list s n : n ∈ node_list s ↔ n ∈ s.
Proof. unfold node_list. by rewrite merge_sort_Permutation, elem_of_elements. Qed.

(** The plan asks exactly the copies of every vBucket, on its branch. *)
Definition plan_for (t : ClusterTopology) (branches : list (Z * Z)) (plan : MitigationPlan)
    : Prop :=
  (∀ vb uuid, (vb, uuid) ∈ branches → uuid ≠ 0 ∧ ∃ copies,
     vbucket_copies t vb = Ok copies
     ∧ mp_expected_copies plan !! vb = Some (Z.of_nat (size copies)))
  ∧ (∀ vb, is_Some (mp_expected_copies plan !! vb) → vb ∈ branches.*1)
  ∧ ∀ node y, y ∈ targets_of (mp_nodes plan) node ↔
      ∃ vb uuid copies, (vb, uuid) ∈ branches ∧ vbucket_copies t vb = Ok copies
        ∧ node ∈ copies ∧ y = mkTarget vb uuid.

Lemma plan_vbucket_for t branches plan vb uuid plan' :
  NoDup (branches ++ [(vb, uuid)]).*1 →
  plan_for t branches plan → plan_vbucket t plan (vb, uuid) = Ok plan' →
  plan_for t (branches ++ [(vb, uuid)]) plan'.
Proof.
  intros Hnd (H1 & H2 & H3). unfold plan_vbucket. destruct (Z.eqb_spec uuid 0); [done|].
  destruct (vbucket_copies t vb) as [copies| |] eqn:Hc; [|done..].
  destruct (for_res _ _ _) as [nodes| |] eqn:Hn; [|done..]. intros [= <-].
  rewrite fmap_app, NoDup_app in Hnd. destruct Hnd as (_ & Hnd & _).
  split_and!.
  - intros vb' uuid' [Hin|[= -> ->]%list_elem_of_singleton]%elem_of_app.
    + destruct (H1 _ _ Hin) as (Hz & cs & Hcs & Hex). split; [done|]. exists cs. split; [done|].
      cbn [mp_expected_copies]. rewrite lookup_insert_ne; [done|]. intros ->.
      apply (Hnd vb'); [|left]. by apply (list_elem_of_fmap_2 fst _ (vb', uuid')).
    + split; [done|]. exists copies. split; [done|]. cbn. by rewrite lookup_insert_eq.
  - intros vb'. cbn [mp_expected_copies]. rewrite fmap_app, elem_of_app.
    destruct (decide (vb = vb')) as [->|Hne]; [right; left|].
    rewrite lookup_insert_ne by done. intros ?%H2. by left.
  - intros node y. cbn [mp_nodes]. rewrite (plan_nodes_elem _ _ _ _ _ _ Hn), elem_of_node_list, H3.
    split.
    + intros [(vb' & uuid' & cs & ? & ? & ? & ?)|[? ->]].
      * exists vb', uuid', cs. split_and!; try done. apply elem_of_app. by left.
      * exists vb, uuid, copies. split_and!; try done. apply elem_of_app. right. left.
    + intros (vb' & uuid' & cs & [Hin|[= -> ->]%list_elem_of_singleton]%elem_of_app & Hcs & ? & ->).
      * left. by exists vb', uuid', cs.
      * right. rewrite Hc in Hcs. by injection Hcs as ->.
Qed.

Lemma plan_for_nil t : plan_for t [] (mkMitigationPlan ∅ ∅).
Proof.
  split_and!.
  - by intros ?? ?%elem_of_nil.
  - intros vb [? Hx]. cbn [mp_expected_copies] in Hx. by rewrite lookup_empty in Hx.
  - intros node y. unfold targets_of. cbn [mp_nodes]. rewrite lookup_empty. cbn.
    split; [by intros ?%elem_of_nil|]. by intros (?&?&?&?%elem_of_nil&_).
Qed.

Lemma mitigation_source_new_spec t branches plan :
  mitigation_source_new t branches = Ok plan → plan_for t (btree_to_list branches) plan.
Proof.
  unfold mitigation_source_new. destruct (for_res _ _ _) as [plan0| |] eqn:Hl; [|done..].
  intros [= <-].
  assert (plan_for t (btree_to_list branches) plan0) as (H1 & H2 & H3).
  { assert (∀ l done plan, NoDup (done ++ l).*1 → plan_for t done plan →
      for_res l plan (plan_vbucket t) = Ok plan0 → plan_for t (done ++ l) plan0) as Hloop.
    { induction l as [|[vb uuid] l IH]; intros d plan Hnd Hd; cbn [for_res].
      { intros [= <-]. by rewrite app_nil_r. }
      destruct (plan_vbucket t plan (vb, uuid)) as [plan1| |] eqn:Hp; [|done..]. intros Hl'.
      replace (d ++ (vb, uuid) :: l) with ((d ++ [(vb, uuid)]) ++ l) in * by by rewrite <-app_assoc.
      apply (IH _ plan1); [done| |done]. eapply plan_vbucket_for; [|exact Hd|exact Hp].
      rewrite fmap_app, NoDup_app in Hnd. by destruct Hnd. }
    apply (Hloop (btree_to_list branches) [] (mkMitigationPlan ∅ ∅)); [apply NoDup_btree_to_list_keys| |done].
    apply plan_for_nil. }
  split_and!; [done..|]. intros node y. rewrite <-H3. unfold targets_of. cbn [mp_nodes].
  rewrite lookup_fmap. destruct (mp_nodes plan0 !! node) as [p|]; [|done].
  cbn. by rewrite merge_sort_Permutation.
Qed.

(** ** Lemmas: a cycle *)

(** The answer of a copy that counts towards persistence. *)
Definition copy_ok (vb uuid seqno : Z) (r : string + ObserveSeqNoResponse) : Prop :=
  ∃ ob, r = inr ob ∧ ob_did_failover ob = false ∧ ob_vbucket_uuid ob = uuid
    ∧ ob_vbucket ob = vb ∧ seqno ≤ ob_persisted_seqno ob ≤ ob_current_seqno ob.

Lemma aggregate_step_clean vb a t r :
  let a' := aggregate_step vb a (t, r) in
  ag_changed_branch a' = None → ag_transient a' = None →
  ag_changed_branch a = None ∧ ag_transient a = None
  ∧ ag_expected_uuid a' = Some (default (ot_expected_vbucket_uuid t) (ag_expected_uuid a))
  ∧ ∃ m, ag_minimum a' = Some m ∧ (∀ m0, ag_minimum a = Some m0 → m ≤ m0)
      ∧ ∀ m', m' ≤ m → copy_ok vb (ot_expected_vbucket_uuid t) m' r.
Proof.
  unfold aggregate_step. destruct r as [message|ob]; [done|].
  destruct (ob_did_failover ob) eqn:Hf; cbn [orb]; [done|].
  destruct (Z.eqb_spec (ob_vbucket_uuid ob) (ot_expected_vbucket_uuid t)) as [Hu|];
    cbn [negb]; [|done].
  destruct (Z.eqb_spec (ob_vbucket ob) vb) as [Hv|]; cbn [negb]; [|done].
  destruct (Z.ltb_spec (ob_current_seqno ob) (ob_persisted_seqno ob)); [done|].
  intros Hc Ht. split_and!; [done..|]. eexists. split; [done|]. split.
  - intros m0 ->. lia.
  - intros m' Hm'. exists ob. split_and!; try done. destruct (ag_minimum a); lia.
Qed.

Lemma aggregate_fold vb results : ∀ a,
  let a' := foldl (aggregate_step vb) a results in
  ag_changed_branch a' = None → ag_transient a' = None →
  ag_changed_branch a = None ∧ ag_transient a = None
  ∧ (∀ u, ag_expected_uuid a = Some u → ag_expected_uuid a' = Some u)
  ∧ (∀ m, ag_minimum a' = Some m →
      (∀ m0, ag_minimum a = Some m0 → m ≤ m0)
      ∧ Forall (λ o, copy_ok vb (ot_expected_vbucket_uuid o.1) m o.2) results).
Proof.
  induction results as [|[t r] results IH]; intros a a' Hc Ht.
  { split_and!; try done. intros m Hm. unfold a' in Hm. split; [|done]. intros m0 Hm0.
    cbn [foldl] in Hm. rewrite Hm0 in Hm. injection Hm. lia. }
  destruct (IH (aggregate_step vb a (t, r)) Hc Ht) as (Hc1 & Ht1 & Hu1 & Hm1).
  destruct (aggregate_step_clean vb a t r Hc1 Ht1) as (Hc0 & Ht0 & Hu0 & m1 & Hm & Hle & Hok).
  split_and!; [done..| |].
  - intros u Hu. apply Hu1. by rewrite Hu0, Hu.
  - intros m Hm'. destruct (Hm1 m Hm') as [Hle1 Hall]. specialize (Hle1 _ Hm). split.
    + intros m0 Hm0. specialize (Hle _ Hm0). lia.
    + constructor; [by apply Hok|done].
Qed.

Lemma aggregate_persisted vb n results uuid seqno :
  aggregate_vbucket vb n results = Persisted uuid seqno →
  len results = n
  ∧ Forall (λ o, copy_ok vb (ot_expected_vbucket_uuid o.1) seqno o.2) results
  ∧ ∃ o rest, results = o :: rest ∧ uuid = ot_expected_vbucket_uuid o.1.
Proof.
  unfold aggregate_vbucket. set (a := foldl _ _ results).
  destruct (ag_changed_branch a) eqn:Hc; [done|].
  destruct (Z.eqb_spec (len results) n) as [Hl|]; cbn [negb]; [|done].
  destruct (ag_transient a) eqn:Ht; [done|].
  destruct (ag_expected_uuid a) as [u|] eqn:Hu; [|done].
  destruct (ag_minimum a) as [m|] eqn:Hm; [|done]. intros [= <- <-].
  destruct (aggregate_fold vb results _ Hc Ht) as (_ & _ & _ & Hall).
  destruct (Hall m Hm) as [_ Hf]. split_and!; [done..|].
  destruct results as [|[t r] rest]; [done|]. exists (t, r), rest. split; [done|].
  cbn [foldl] in a. destruct (aggregate_fold vb rest _ Hc Ht) as (_ & _ & Hexp & _).
  assert (ag_expected_uuid (aggregate_step vb (mkAggregate None None None None) (t, r))
    = Some (ot_expected_vbucket_uuid t)) as H1.
  { unfold aggregate_step. by repeat case_match. }
  apply Hexp in H1. unfold a in Hu. rewrite H1 in Hu. by injection Hu.
Qed.

Section CycleLemmas.
Context `{Snappy}.

Definition session_ok (s : Session) : Prop :=
  match s with SessionReady c => valid_opaque (kc_next_opaque c) | _ => True end.

(** Every target of a node is answered for, by a response or by a failure. *)
Lemma observe_node_covers timeout plan session :
  session_ok session → len (np_targets plan) < u32_max →
  (∀ t, t ∈ np_targets plan → ∃ r, (t, r) ∈ (observe_node timeout plan session).2)
  ∧ (∀ c, (observe_node timeout plan session).1 = Some c → valid_opaque (kc_next_opaque c)).
Proof.
  intros Hs Hl. unfold observe_node.
  assert (∀ m t, t ∈ np_targets plan → ∃ r, (t, r) ∈ push_node_failure (np_targets plan) m) as Hfail.
  { intros m t Ht. exists (inl m). unfold push_node_failure. by apply (list_elem_of_fmap_2 (λ t, (t, inl m))). }
  destruct session as [|e|c]; [split; [apply Hfail|done]..|].
  destruct (request_batch _ c) as [o c'] eqn:Hrun.
  destruct (request_batch_spec c (observe_target <$> np_targets plan) o c') as (_ & Hv & Hok);
    [done|by unfold len in *; rewrite length_fmap|done|].
  destruct o as [[responses|e|]|]; [|split; [apply Hfail|done]..].
  split; [|by intros ? [= <-]].
  destruct (Hok _ eq_refl) as (sent & _ & _ & _ & Has & _ & Hans & _).
  apply Forall2_length in Has, Hans. rewrite length_fmap in Has.
  intros t [i Hi]%list_elem_of_lookup.
  destruct (lookup_lt_is_Some_2 responses i) as [f Hf].
  { apply lookup_lt_Some in Hi. lia. }
  exists (parse_observation f). apply (list_elem_of_lookup_2 _ i).
  apply lookup_zip_with_Some. exists t, (parse_observation f).
  split_and!; [done..|]. by rewrite list_lookup_fmap, Hf.
Qed.

Definition sessions_ok (sessions : gmap NodeId KvConnection) : Prop :=
  ∀ n c, sessions !! n = Some c → valid_opaque (kc_next_opaque c).

Lemma sessions_ok_empty : sessions_ok ∅.
Proof. intros n c Hx. by rewrite lookup_empty in Hx. Qed.

Lemma collect_spec timeout plan sessions env order : ∀ acc,
  sessions_ok sessions → (∀ n, session_ok (ce_bootstrap env n)) →
  (∀ n p, mp_nodes plan !! n = Some p → len (np_targets p) < u32_max) →
  sessions_ok acc.1 →
  let acc' := foldl (collect_node timeout plan sessions env) acc order in
  sessions_ok acc'.1 ∧ (∀ o, o ∈ acc.2 → o ∈ acc'.2)
  ∧ ∀ n p o, n ∈ order → mp_nodes plan !! n = Some p →
      o ∈ (observe_node timeout p (node_session sessions env n)).2 → o ∈ acc'.2.
Proof.
  induction order as [|n order IH]; intros acc Hs He Hl Ha; cbn [foldl].
  { split_and!; try done. by intros ??? ?%elem_of_nil. }
  assert (session_ok (node_session sessions env n)) as Hns.
  { unfold node_session. destruct (sessions !! n) eqn:Hn; [by apply (Hs n)|apply He]. }
  set (acc1 := collect_node timeout plan sessions env acc n).
  assert (sessions_ok acc1.1 ∧ (∀ o, o ∈ acc.2 → o ∈ acc1.2) ∧
    ∀ p o, mp_nodes plan !! n = Some p →
      o ∈ (observe_node timeout p (node_session sessions env n)).2 → o ∈ acc1.2) as (H1 & H2 & H3).
  { unfold acc1, collect_node. destruct (mp_nodes plan !! n) as [p|] eqn:Hp; [|done].
    destruct (observe_node_covers timeout p _ Hns (Hl _ _ Hp)) as [_ Hv].
    destruct (observe_node timeout p _) as [session obs] eqn:Hob. cbn [fst snd] in *. split_and!.
    - destruct session as [c|]; [|done]. intros n' c' [[<- <-]|[_ ?]]%lookup_insert_Some; eauto.
    - intros o Ho. apply elem_of_app. by left.
    - intros p' o [= <-]. rewrite Hob. intros Ho. apply elem_of_app. by right. }
  destruct (IH acc1 Hs He Hl H1) as (H4 & H5 & H6). split_and!; [done|by auto|].
  intros n' p o [-> |Hn']%elem_of_cons Hp Ho; [by eauto|by eauto].
Qed.

(** What a cycle proves about a vBucket it reports persisted. *)
Definition copies_persisted (timeout : Duration) (plan : MitigationPlan)
    (sessions : gmap NodeId KvConnection) (env : CycleEnv) (copies : gset NodeId)
    (vb uuid seqno : Z) : Prop :=
  ∀ node, node ∈ copies → ∃ p r, mp_nodes plan !! node = Some p
    ∧ (mkTarget vb uuid, r) ∈ (observe_node timeout p (node_session sessions env node)).2
    ∧ copy_ok vb uuid seqno r.

Lemma observe_cycle_sound timeout t branches plan sessions env vb uuid u seqno copies :
  plan_for t branches plan → (vb, uuid) ∈ branches → vbucket_copies t vb = Ok copies →
  sessions_ok sessions → (∀ n, session_ok (ce_bootstrap env n)) →
  (∀ n p, mp_nodes plan !! n = Some p → len (np_targets p) < u32_max) →
  (∀ n, is_Some (mp_nodes plan !! n) → n ∈ ce_order env) →
  (observe_cycle timeout plan sessions env).1 !! vb = Some (Persisted u seqno) →
  copies_persisted timeout plan sessions env copies vb uuid seqno.
Proof.
  intros (_ & _ & Hplan) Hb Hc Hs He Hl Hord Hrun node Hnode. unfold observe_cycle in Hrun.
  pose proof (collect_spec timeout plan sessions env (ce_order env) (∅, []) Hs He Hl
    sessions_ok_empty) as Hcol.
  destruct (foldl _ _ _) as [reusable obs]. destruct Hcol as (_ & _ & Hobs). cbn [fst snd] in *.
  unfold aggregate_observations in Hrun. rewrite map_lookup_imap in Hrun.
  destruct (mp_expected_copies plan !! vb) as [n|]; [|done]. cbn [mbind option_bind] in Hrun.
  injection Hrun as Hrun. apply aggregate_persisted in Hrun as (_ & Hall & _).
  assert (mkTarget vb uuid ∈ targets_of (mp_nodes plan) node) as Ht
    by (apply Hplan; by exists vb, uuid, copies).
  unfold targets_of in Ht. destruct (mp_nodes plan !! node) as [p|] eqn:Hp; [|by apply elem_of_nil in Ht].
  cbn [from_option] in Ht.
  assert (session_ok (node_session sessions env node)) as Hns.
  { unfold node_session. destruct (sessions !! node) eqn:Hn; [by apply (Hs node)|apply He]. }
  destruct (observe_node_covers timeout p _ Hns (Hl _ _ Hp)) as [Hcov _].
  destruct (Hcov _ Ht) as [r Hr]. exists p, r. split_and!; [done..|].
  rewrite Forall_forall in Hall.
  apply (Hall (mkTarget vb uuid, r)). apply list_elem_of_filter. split; [done|].
  apply (Hobs node p); [apply Hord; by eexists|done..].
Qed.
End CycleLemmas.

(** ** Lemmas: plan sizes *)

Lemma push_target_length node address x nodes node' :
  length (targets_of (push_target node address x nodes) node')
  = (length (targets_of nodes node') + if decide (node' = node) then 1 else 0)%nat.
Proof.
  unfold targets_of, push_target. destruct (decide (node' = node)) as [->|Hne].
  - rewrite lookup_insert_eq. cbn [from_option np_targets]. rewrite length_app.
    destruct (nodes !! node); cbn; lia.
  - rewrite lookup_insert_ne by done. lia.
Qed.

Lemma plan_nodes_length t vb uuid l : ∀ nodes nodes' node,
  NoDup l → for_res l nodes (plan_node t vb uuid) = Ok nodes' →
  (length (targets_of nodes' node)
   ≤ length (targets_of nodes node) + if decide (node ∈ l) then 1 else 0)%nat.
Proof.
  induction l as [|n l IH]; intros nodes nodes' node Hnd; cbn [for_res].
  { intros [= <-]. lia. }
  unfold plan_node at 1. destruct (ct_endpoints t !! n) as [e|]; cbn [ok_or]; [|done].
  apply NoDup_cons in Hnd as [Hn Hnd]. intros Hl. pose proof (IH _ _ node Hnd Hl) as Hlen.
  rewrite push_target_length in Hlen.
  destruct (decide (node = n)) as [->|Hne].
  - rewrite (decide_False (P := n ∈ l)) in Hlen by done.
    rewrite decide_True by (left). lia.
  - destruct (decide (node ∈ l)).
    + rewrite decide_True by (by right). lia.
    + destruct (decide _); lia.
Qed.

Lemma NoDup_node_list s : NoDup (node_list s).
Proof. unfold node_list. rewrite merge_sort_Permutation. apply NoDup_elements. Qed.

Lemma plan_vbuckets_length t node l : ∀ plan plan',
  for_res l plan (plan_vbucket t) = Ok plan' →
  (length (targets_of (mp_nodes plan') node)
   ≤ length (targets_of (mp_nodes plan) node) + length l)%nat.
Proof.
  induction l as [|[vb uuid] l IH]; intros plan plan'; cbn [for_res].
  { intros [= <-]. cbn. lia. }
  unfold plan_vbucket at 1. destruct (uuid =? 0); [done|].
  destruct (vbucket_copies t vb) as [copies| |]; [|done..].
  destruct (for_res (node_list copies) _ _) as [nodes| |] eqn:Hn; [|done..].
  intros Hl%IH. apply plan_nodes_length with (node := node) in Hn; [|apply NoDup_node_list].
  cbn [mp_nodes length] in *. destruct (decide _); lia.
Qed.

Lemma mitigation_targets_bounded t branches plan n p :
  mitigation_source_new t branches = Ok plan → mp_nodes plan !! n = Some p →
  (length (np_targets p) ≤ size branches)%nat.
Proof.
  unfold mitigation_source_new. destruct (for_res _ _ _) as [plan0| |] eqn:Hl; [|done..].
  intros [= <-]. cbn [mp_nodes]. rewrite lookup_fmap, fmap_Some.
  intros (p0 & Hp & ->). cbn [np_targets]. rewrite merge_sort_Permutation.
  apply plan_vbuckets_length with (node := n) in Hl. cbn [mp_nodes] in Hl.
  unfold targets_of in Hl. rewrite Hp, lookup_empty in Hl. cbn [from_option length] in Hl.
  by rewrite length_btree_to_list in Hl.
Qed.

(** ** Lemmas: the observer and the wait *)

Lemma apply_outcome_persisted outcome p n :
  ms_persisted_seqno (apply_outcome outcome p) = Some n →
  ms_persisted_seqno p = Some n ∨ outcome = Some (Persisted (ms_expected_vbucket_uuid p) n).
Proof.
  unfold apply_outcome. destruct outcome as [[uuid seqno|message|observed]|]; [|by left|done|by left].
  destruct (Z.eqb_spec uuid (ms_expected_vbucket_uuid p)) as [->|]; cbn [negb]; [|done].
  destruct (ms_persisted_seqno p) as [previous|].
  - destruct (seqno <? previous); [done|]. intros [= ->]. by right.
  - intros [= ->]. by right.
Qed.

(** A watermark shown by any published snapshot was reported by a completed observation. *)
Lemma run_observer_sound `{MitigationSource Src E} (Q : Z → Z → Prop) events : ∀ source s,
  (∀ source' env vb u n, (source', env) ∈ observer_cycles events source →
     (source_observe source' env).1 !! vb = Some (Persisted u n) → Q vb n) →
  (∀ vb p n, s !! vb = Some p → ms_persisted_seqno p = Some n → Q vb n) →
  ∀ s' vb p n, s' ∈ s :: run_observer events source s →
    s' !! vb = Some p → ms_persisted_seqno p = Some n → Q vb n.
Proof.
  induction events as [|ev events IH]; intros source s Hobs Hs s' vb p n;
    rewrite elem_of_cons; intros [->|Hin]; [by eauto|by apply elem_of_nil in Hin|by eauto|].
  cbn [run_observer observer_cycles] in *. destruct ev as [|started|env].
  - by apply elem_of_nil in Hin.
  - eapply (IH _ s Hobs Hs). right. exact Hin.
  - destruct (source_observe source env) as [batch source'] eqn:Hob.
    apply (IH source' (snapshot_apply batch s)); [| |done].
    + intros m env' vb' u n' Hm. apply Hobs. by right.
    + intros vb' p' n'. unfold snapshot_apply. rewrite map_lookup_imap.
      destruct (s !! vb') as [p0|] eqn:Hp0; [|done]. cbn [mbind option_bind]. intros [= <-] Hn.
      apply apply_outcome_persisted in Hn as [Hn|Hn]; [by eauto|].
      eapply (Hobs source env); [left|]. rewrite Hob. exact Hn.
Qed.

Definition wake_snapshot (w : Wake) : option MitigationSnapshot :=
  match w with WakeChanged s _ | WakeDeadline s => Some s | WakeClosed => None end.

(** A wait that succeeds saw a snapshot whose watermark covers the position. *)
Lemma wait_loop_ok stall vb seqno wakes : ∀ s expired delayed d,
  wait_loop stall vb seqno s expired delayed wakes = Done (Ok d) →
  ∃ s' p n, s' ∈ s :: omap wake_snapshot wakes ∧ s' !! vb = Some p
    ∧ ms_persisted_seqno p = Some n ∧ seqno ≤ n.
Proof.
  assert (∀ (s : MitigationSnapshot) p, s !! vb = Some p → partition_safe seqno p = true → ∀ l,
    ∃ s' p n, s' ∈ s :: l ∧ s' !! vb = Some p ∧ ms_persisted_seqno p = Some n ∧ seqno ≤ n) as Hsafe.
  { intros s p Hp. unfold partition_safe. destruct (ms_persisted_seqno p) as [n|] eqn:Hn; [|done].
    intros Hle%Z.leb_le l. exists s, p, n. split_and!; [left|done..]. }
  induction wakes as [|w wakes IH]; intros s expired delayed d; cbn [wait_loop];
    (destruct (s !! vb) as [p|] eqn:Hp; [|done]);
    (destruct (partition_safe seqno p) eqn:Hsf; [intros _; by eapply Hsafe|]);
    (destruct expired; [done|]); [done|].
  destruct w as [s1 expired1| |s1]; [|done|]; intros (s2 & p2 & n & Hin & Hrest)%IH;
    exists s2, p2, n; (split; [by right|done]).
Qed.

(** ** Theorems *)

Lemma snapshot_new_fresh branches s vb :
  snapshot_new branches = Ok s →
  s !! vb = (λ uuid, mkMitigationPartition uuid None None) <$> branches !! vb.
Proof.
  unfold snapshot_new. destruct (bool_decide _); [done|]. intros [= <-]. apply lookup_fmap.
Qed.

Section Gate.
Context `{Snappy}.

Lemma copies_persisted_mono timeout plan sessions env copies vb uuid n n' :
  n' ≤ n → copies_persisted timeout plan sessions env copies vb uuid n →
  copies_persisted timeout plan sessions env copies vb uuid n'.
Proof.
  intros Hle Hc node Hn. destruct (Hc node Hn) as (p & r & ? & ? & ob & ? & ? & ? & ? & ?).
  exists p, r. split_and!; try done. exists ob. split_and!; try done; lia.
Qed.

(** A cycle runs every planned node to its end, on sessions whose opaque counter is in
    range. *)
Definition env_ok (plan : MitigationPlan) (env : CycleEnv) : Prop :=
  (∀ n, session_ok (ce_bootstrap env n))
  ∧ ∀ n, is_Some (mp_nodes plan !! n) → n ∈ ce_order env.

Lemma observe_cycle_sessions timeout t branches plan sessions env :
  mitigation_source_new t branches = Ok plan → Z.of_nat (size branches) < u32_max →
  sessions_ok sessions → env_ok plan env →
  sessions_ok (observe_cycle timeout plan sessions env).2.
Proof.
  intros Hplan Hb Hs [He _]. unfold observe_cycle.
  pose proof (collect_spec timeout plan sessions env (ce_order env) (∅, []) Hs He) as Hcol.
  destruct (foldl _ _ _) as [reusable obs]. cbn [fst snd] in *.
  apply Hcol; [|apply sessions_ok_empty].
  intros n p Hp. apply (mitigation_targets_bounded t branches) in Hp; [|done]. unfold len. lia.
Qed.

(** Sessions stay usable along the observer's cycles, which all follow the same plan. *)
Lemma observer_cycles_ok t branches events : ∀ m,
  mitigation_source_new t branches = Ok (tms_plan m) → Z.of_nat (size branches) < u32_max →
  sessions_ok (tms_sessions m) →
  (∀ env, ObserverBatch env ∈ events → env_ok (tms_plan m) env) →
  ∀ m' env, (m', env) ∈ observer_cycles events m →
    tms_plan m' = tms_plan m ∧ tms_request_timeout m' = tms_request_timeout m
    ∧ sessions_ok (tms_sessions m') ∧ env_ok (tms_plan m) env.
Proof.
  induction events as [|ev events IH]; intros m Hp Hb Hs He m' env'; [by intros ?%elem_of_nil|].
  cbn [observer_cycles]. destruct ev as [|started|env]; [by intros ?%elem_of_nil| |].
  - assert (∀ env, ObserverBatch env ∈ events → env_ok (tms_plan m) env) as He'
      by (intros env Hin; apply He; by right).
    destruct started; [|by apply IH].
    by apply (IH (mkTokioSource (tms_request_timeout m) (tms_plan m) ∅)).
  - rewrite elem_of_cons. intros [[= -> ->]|Hin].
    + split_and!; try done. apply He. left.
    + revert Hin. unfold source_observe, tokio_source.
      pose proof (observe_cycle_sessions (tms_request_timeout m) t branches (tms_plan m)
        (tms_sessions m) env Hp Hb Hs (He env ltac:(left))) as Hs'.
      destruct (observe_cycle _ _ _ _) as [batch sessions]. cbn [snd] in *.
      apply (IH (mkTokioSource (tms_request_timeout m) (tms_plan m) sessions)); try done.
      intros env0 Hin. apply He. by right.
Qed.

Lemma tokio_observe_batch (m : TokioMitigationSource) env :
  (source_observe m env).1
  = (observe_cycle (tms_request_timeout m) (tms_plan m) (tms_sessions m) env).1.
Proof. unfold source_observe, tokio_source. by destruct (observe_cycle _ _ _ _). Qed.

Lemma cycle_reports t (checkpoints : gmap Z DcpCheckpoint) plan timeout sessions env vb u n :
  mitigation_source_new t (ck_vbucket_uuid <$> checkpoints) = Ok plan →
  Z.of_nat (size checkpoints) < u32_max → sessions_ok sessions → env_ok plan env →
  (observe_cycle timeout plan sessions env).1 !! vb = Some (Persisted u n) →
  ∃ checkpoint copies, checkpoints !! vb = Some checkpoint ∧ vbucket_copies t vb = Ok copies
    ∧ copies_persisted timeout plan sessions env copies vb (ck_vbucket_uuid checkpoint) n.
Proof.
  intros Hplan Hsize Hs [He Hord] Hrun.
  pose proof (mitigation_source_new_spec _ _ _ Hplan) as Hfor.
  assert (vb ∈ (btree_to_list (ck_vbucket_uuid <$> checkpoints)).*1) as Hin.
  { destruct Hfor as (_ & Hdom & _). apply Hdom. revert Hrun. unfold observe_cycle.
    destruct (foldl _ _ _). unfold aggregate_observations. cbn [fst]. rewrite map_lookup_imap.
    by destruct (mp_expected_copies plan !! vb). }
  apply list_elem_of_fmap in Hin as ([vb' uuid] & -> & Hin). cbn [fst] in *.
  pose proof (proj1 Hfor _ _ Hin) as (_ & copies & Hc & _).
  pose proof Hin as Hck. rewrite elem_of_btree_to_list, lookup_fmap, fmap_Some in Hck.
  destruct Hck as (ck & Hck & ->). exists ck, copies. split_and!; [done..|].
  eapply observe_cycle_sound; try done.
  intros n' p Hp. apply (mitigation_targets_bounded t (ck_vbucket_uuid <$> checkpoints)) in Hp;
    [|done]. rewrite map_size_fmap in Hp. unfold len. lia.
Qed.

End Gate.

(** ** Lemmas: a healthy cycle *)

Lemma for_res_plan_nodup t vb uuid l : ∀ nodes nodes',
  NoDup l → (∀ node, mkTarget vb uuid ∉ targets_of nodes node) →
  (∀ node, NoDup (targets_of nodes node)) →
  for_res l nodes (plan_node t vb uuid) = Ok nodes' →
  ∀ node, NoDup (targets_of nodes' node).
Proof.
  assert (∀ l nodes nodes', NoDup l →
    (∀ node, node ∈ l → mkTarget vb uuid ∉ targets_of nodes node) →
    (∀ node, NoDup (targets_of nodes node)) →
    for_res l nodes (plan_node t vb uuid) = Ok nodes' →
    ∀ node, NoDup (targets_of nodes' node)) as Hgen; [|by eauto].
  clear l. induction l as [|n l IH]; intros nodes nodes' Hl Hx Hnd; cbn [for_res].
  { by intros [= <-]. }
  unfold plan_node at 1. destruct (ct_endpoints t !! n) as [e|]; cbn [ok_or]; [|done].
  apply NoDup_cons in Hl as [Hn Hl]. apply IH; [done| |].
  - intros node Hin [?|[-> _]]%push_target_elem; [|done].
    by apply (Hx node); [right|].
  - intros node. unfold targets_of, push_target. destruct (decide (n = node)) as [<-|Hne].
    + rewrite lookup_insert_eq. cbn [from_option np_targets].
      specialize (Hx n ltac:(left)). specialize (Hnd n). unfold targets_of in *.
      destruct (nodes !! n); cbn in *; [|apply NoDup_singleton].
      apply NoDup_app. split_and!; [done| |apply NoDup_singleton].
      by intros y Hy ->%list_elem_of_singleton.
    + rewrite lookup_insert_ne by done. apply Hnd.
Qed.

Lemma plan_targets_nodup t branches plan node :
  mitigation_source_new t branches = Ok plan → NoDup (targets_of (mp_nodes plan) node).
Proof.
  unfold mitigation_source_new. destruct (for_res _ _ _) as [plan0| |] eqn:Hl; [|done..].
  intros [= <-].
  assert (∀ l d plan, NoDup (d ++ l).*1 → plan_for t d plan →
    (∀ node, NoDup (targets_of (mp_nodes plan) node)) →
    for_res l plan (plan_vbucket t) = Ok plan0 →
    ∀ node, NoDup (targets_of (mp_nodes plan0) node)) as Hloop.
  { induction l as [|[vb uuid] l IH]; intros d plan Hnd Hd Ht; cbn [for_res].
    { by intros [= <-]. }
    destruct (plan_vbucket t plan (vb, uuid)) as [plan1| |] eqn:Hp; [|done..].
    replace (d ++ (vb, uuid) :: l) with ((d ++ [(vb, uuid)]) ++ l) in * by by rewrite <-app_assoc.
    pose proof Hnd as Hnd'. rewrite fmap_app, NoDup_app in Hnd'. destruct Hnd' as [Hnd' _].
    apply (IH (d ++ [(vb, uuid)])); [done|by eapply plan_vbucket_for|].
    unfold plan_vbucket in Hp. destruct (uuid =? 0); [done|].
    destruct (vbucket_copies t vb) as [copies| |]; [|done..].
    destruct (for_res (node_list copies) _ _) as [nodes| |] eqn:Hn; [|done..].
    injection Hp as <-. cbn [mp_nodes].
    eapply for_res_plan_nodup; [apply NoDup_node_list| |exact Ht|exact Hn].
    intros n Hin. destruct Hd as (_ & _ & Hd). apply Hd in Hin as (vb' & u' & cs & Hin & _ & _ & [= <- <-]).
    rewrite fmap_app, NoDup_app in Hnd'. destruct Hnd' as (_ & Hdis & _).
    apply (Hdis vb); [|left]. by apply (list_elem_of_fmap_2 fst _ (vb, uuid)). }
  assert (NoDup (targets_of (mp_nodes plan0) node)) as Hnd.
  { apply (Hloop (btree_to_list branches) [] (mkMitigationPlan ∅ ∅));
      [apply NoDup_btree_to_list_keys|apply plan_for_nil| |done].
    intros n. apply NoDup_nil_2. }
  unfold targets_of in *. cbn [mp_nodes]. rewrite lookup_fmap.
  destruct (mp_nodes plan0 !! node); [|done]. cbn. by rewrite merge_sort_Permutation.
Qed.

Lemma filter_unique {A} `{EqDecision A} (P : A → Prop) `{∀ x, Decision (P x)} x l :
  NoDup l → (∀ y, y ∈ l → P y → y = x) → P x →
  length (filter P l) = if decide (x ∈ l) then 1%nat else 0%nat.
Proof.
  intros Hnd Huniq Hx. induction Hnd as [|y l Hy Hnd IH]; [by rewrite decide_False by (by intros ?%elem_of_nil)|].
  assert (length (filter P l) = if decide (x ∈ l) then 1%nat else 0%nat) as IHl.
  { apply IH. intros z Hz. apply Huniq. by right. }
  destruct (decide (P y)) as [HP|HP].
  - rewrite filter_cons_True by done. cbn [length]. rewrite IHl.
    assert (y = x) as -> by (apply Huniq; [left|done]).
    rewrite decide_False by done. by rewrite decide_True by left.
  - rewrite filter_cons_False by done. rewrite IHl. apply decide_ext. rewrite elem_of_cons.
    split; [by right|]. by intros [<-|?].
Qed.

Section Healthy.
Context `{Snappy}.

(** What a node contributes to a cycle. *)
Definition node_observations (timeout : Duration) (plan : MitigationPlan)
    (sessions : gmap NodeId KvConnection) (env : CycleEnv) (node : NodeId)
    : list RawObservation :=
  match mp_nodes plan !! node with
  | Some p => (observe_node timeout p (node_session sessions env node)).2
  | None => []
  end.

Lemma collect_observations timeout plan sessions env order : ∀ acc,
  (foldl (collect_node timeout plan sessions env) acc order).2
  = acc.2 ++ (order ≫= node_observations timeout plan sessions env).
Proof.
  induction order as [|n order IH]; intros acc; [by rewrite app_nil_r|].
  cbn [foldl]. rewrite IH, bind_cons. unfold collect_node, node_observations at 2.
  destruct (mp_nodes plan !! n) as [p|]; [|done].
  destruct (observe_node timeout p _) as [session obs]. cbn [snd]. by rewrite app_assoc.
Qed.

(** Each target of a node is answered for exactly once, in order. *)
Lemma observe_node_targets timeout plan session :
  session_ok session → len (np_targets plan) < u32_max →
  (observe_node timeout plan session).2.*1 = np_targets plan.
Proof.
  intros Hs Hl. unfold observe_node.
  assert (∀ m, (push_node_failure (np_targets plan) m).*1 = np_targets plan) as Hfail.
  { intros m. unfold push_node_failure. rewrite <-list_fmap_compose. apply list_fmap_id. }
  destruct session as [|e|c]; [apply Hfail..|].
  destruct (request_batch _ c) as [o c'] eqn:Hrun.
  destruct (request_batch_spec c (observe_target <$> np_targets plan) o c') as (_ & Hv & Hok);
    [done|by unfold len in *; rewrite length_fmap|done|].
  destruct o as [[responses|e|]|]; [|apply Hfail..].
  destruct (Hok _ eq_refl) as (sent & _ & _ & _ & Has & _ & Hans & _).
  apply Forall2_length in Has, Hans. rewrite length_fmap in Has.
  cbn [snd]. apply fst_zip. rewrite length_fmap. lia.
Qed.


Lemma bind_filter_length {A} (f : NodeId → list A) (P : A → Prop) `{∀ x, Decision (P x)}
    (copies : gset NodeId) order :
  NoDup order → (∀ n, n ∈ copies → n ∈ order) →
  (∀ n, n ∈ order → length (filter P (f n)) = if decide (n ∈ copies) then 1%nat else 0%nat) →
  length (filter P (order ≫= f)) = size copies.
Proof.
  intros Hnd Hsub Hone.
  trans (length (filter (λ n, n ∈ copies) order)).
  - clear Hsub. induction order as [|n order IH]; [done|].
    rewrite bind_cons, filter_app, length_app, Hone by left. apply NoDup_cons in Hnd as [_ Hnd].
    rewrite IH; [|done|intros; apply Hone; by right].
    rewrite filter_cons. by destruct (decide (n ∈ copies)).
  - unfold size, set_size. cbn. apply Permutation_length, NoDup_Permutation;
      [by apply NoDup_filter|apply NoDup_elements|].
    intros n. rewrite list_elem_of_filter, elem_of_elements. split; [by intros [? _]|by auto].
Qed.

Lemma aggregate_healthy vb uuid seqno results :
  results ≠ [] →
  Forall (λ o, ot_expected_vbucket_uuid o.1 = uuid ∧ copy_ok vb uuid seqno o.2) results →
  ∃ n, seqno ≤ n ∧ aggregate_vbucket vb (len results) results = Persisted uuid n.
Proof.
  intros Hne Hall.
  assert (∀ results a, Forall (λ o, ot_expected_vbucket_uuid o.1 = uuid ∧ copy_ok vb uuid seqno o.2) results →
    ag_changed_branch a = None → ag_transient a = None → ag_expected_uuid a = Some uuid →
    (∃ n, ag_minimum a = Some n ∧ seqno ≤ n) →
    let a' := foldl (aggregate_step vb) a results in
    ag_changed_branch a' = None ∧ ag_transient a' = None ∧ ag_expected_uuid a' = Some uuid
    ∧ ∃ n, ag_minimum a' = Some n ∧ seqno ≤ n) as Hfold.
  { clear. induction results as [|[t r] results IH]; intros a Hall Hc Ht Hu Hm; [done|].
    apply Forall_cons in Hall as [[Huu (ob & Hr & Hf & Hou & Hv & Hp)] Hall']. cbn [fst snd] in *.
    destruct Hm as (m & Hm & Hle). subst r. cbn [foldl].
    assert (aggregate_step vb a (t, inr ob)
      = mkAggregate (Some (Z.min m (ob_persisted_seqno ob))) (Some uuid) None None) as ->.
    { unfold aggregate_step. rewrite Hf, Hou, Huu, Hv, !Z.eqb_refl. cbn [orb negb].
      rewrite Hu, Hm, Hc, Ht. by destruct (Z.ltb_spec (ob_current_seqno ob) (ob_persisted_seqno ob)); [lia|]. }
    apply IH; try done. eexists. split; [done|]. lia. }
  destruct results as [|[t r] results]; [done|]. clear Hne.
  apply Forall_cons in Hall as [[Huu (ob & Hr & Hf & Hou & Hv & Hp)] Hall']. cbn [fst snd] in *.
  subst r. unfold aggregate_vbucket. cbn [foldl].
  assert (aggregate_step vb (mkAggregate None None None None) (t, inr ob)
    = mkAggregate (Some (ob_persisted_seqno ob)) (Some uuid) None None) as ->.
  { unfold aggregate_step. rewrite Hf, Hou, Huu, Hv, !Z.eqb_refl. cbn.
    by destruct (Z.ltb_spec (ob_current_seqno ob) (ob_persisted_seqno ob)); [lia|]. }
  destruct (Hfold results (mkAggregate (Some (ob_persisted_seqno ob)) (Some uuid) None None) Hall'
    eq_refl eq_refl eq_refl) as (-> & -> & -> & n & -> & Hle).
  { eexists. split; [done|]. lia. }
  rewrite Z.eqb_refl. cbn [negb]. by exists n.
Qed.

Lemma vbucket_copies_nonempty t vb copies : vbucket_copies t vb = Ok copies → copies ≢ ∅.
Proof.
  unfold vbucket_copies. destruct (active_node t vb); [|done..].
  destruct (replica_nodes t vb); [|done..]. intros [= <-]. set_solver.
Qed.

(** The only target a node has for a vBucket. *)
Lemma plan_target t branches plan node vb uuid copies y :
  mitigation_source_new t branches = Ok plan → branches !! vb = Some uuid →
  vbucket_copies t vb = Ok copies → y ∈ targets_of (mp_nodes plan) node →
  ot_vbucket y = vb → y = mkTarget vb uuid ∧ node ∈ copies.
Proof.
  intros Hplan Hb Hc Hy <-. apply (mitigation_source_new_spec _ _ _ Hplan) in Hy.
  destruct Hy as (vb' & u' & cs & Hin & Hcs & Hn & ->). cbn [ot_vbucket] in *.
  rewrite elem_of_btree_to_list, Hb in Hin. injection Hin as <-.
  rewrite Hc in Hcs. by injection Hcs as <-.
Qed.

Section NodeResults.
Context (t : ClusterTopology) (branches : gmap Z Z) (plan : MitigationPlan)
  (timeout : Duration) (sessions : gmap NodeId KvConnection) (env : CycleEnv) (node : NodeId)
  (vb uuid : Z) (copies : gset NodeId).
Hypothesis Hplan : mitigation_source_new t branches = Ok plan.
Hypothesis Hb : branches !! vb = Some uuid.
Hypothesis Hc : vbucket_copies t vb = Ok copies.
Hypothesis Hsize : Z.of_nat (size branches) ≤ 65536.
Hypothesis Hs : sessions_ok sessions.
Hypothesis He : ∀ n, session_ok (ce_bootstrap env n).

Lemma node_observations_targets :
  (node_observations timeout plan sessions env node).*1 = targets_of (mp_nodes plan) node.
Proof using Hplan Hsize Hs He.
  unfold node_observations, targets_of. destruct (mp_nodes plan !! node) as [p|] eqn:Hp; [|done].
  cbn [from_option]. apply observe_node_targets.
  - unfold node_session. destruct (sessions !! node) eqn:Hn; [by apply (Hs node)|apply He].
  - apply (mitigation_targets_bounded t branches) in Hp; [|done]. unfold len, u32_max. lia.
Qed.

Lemma node_results_length :
  length (filter (λ o, ot_vbucket o.1 = vb) (node_observations timeout plan sessions env node))
  = if decide (node ∈ copies) then 1%nat else 0%nat.
Proof using Hplan Hb Hc Hsize Hs He.
  assert (∀ l : list RawObservation, length (filter (λ o, ot_vbucket o.1 = vb) l)
    = length (filter (λ y, ot_vbucket y = vb) l.*1)) as ->.
  { induction l as [|o l IH]; [done|]. rewrite fmap_cons, !filter_cons.
    destruct (decide _); cbn [length]; by rewrite IH. }
  rewrite node_observations_targets, (filter_unique _ (mkTarget vb uuid)); [|by eapply plan_targets_nodup| |done].
  - apply decide_ext. split.
    + intros Hin. by eapply plan_target.
    + intros Hn. apply (mitigation_source_new_spec _ _ _ Hplan). exists vb, uuid, copies.
      by rewrite elem_of_btree_to_list.
  - intros y Hy Hv. by eapply plan_target.
Qed.

Lemma node_results_ok seqno y r :
  copies_persisted timeout plan sessions env copies vb uuid seqno →
  (y, r) ∈ node_observations timeout plan sessions env node → ot_vbucket y = vb →
  ot_expected_vbucket_uuid y = uuid ∧ copy_ok vb uuid seqno r.
Proof using Hplan Hb Hc Hsize Hs He.
  intros Hcp Hin Hv.
  assert (y ∈ targets_of (mp_nodes plan) node) as Hy.
  { rewrite <-node_observations_targets. by apply (list_elem_of_fmap_2 fst _ (y, r)). }
  destruct (plan_target t branches plan node vb uuid copies y Hplan Hb Hc Hy Hv) as [-> Hn].
  split; [done|]. destruct (Hcp node Hn) as (p & r' & Hp & Hr' & Hok).
  assert (r = r') as ->; [|done].
  assert (NoDup (node_observations timeout plan sessions env node).*1) as Hnd.
  { rewrite node_observations_targets. by eapply plan_targets_nodup. }
  unfold node_observations in Hin, Hnd. rewrite Hp in Hin, Hnd.
  apply list_elem_of_lookup in Hin as [i Hi]. apply list_elem_of_lookup in Hr' as [j Hj].
  assert (i = j) as ->; [|congruence].
  apply (NoDup_lookup _ i j (mkTarget vb uuid) Hnd); by rewrite list_lookup_fmap, ?Hi, ?Hj.
Qed.
End NodeResults.

End Healthy.

(** ** A sample history: one vBucket on two nodes, both answering in the first cycle *)

Definition sample_copies : ClusterTopology :=
  mkClusterTopology "bucket" None (mkRevision 1 1) "default"
    {[ "a" := mkKvEndpoint "a" "a:11210" "a:11210" None;
       "b" := mkKvEndpoint "b" "b:11210" "b:11210" None ]}
    {[ 7 := mkVBucketRoute "a" ["b"] ]}.
Definition sample_observed (id persisted : Z) : Frame :=
  set_opaque id (set_value ([0] ++ put_u16 7 ++ put_u64 99 ++ put_u64 persisted ++ put_u64 50)
    (response OP_OBSERVE_SEQNO STATUS_SUCCESS)).
Definition sample_session (persisted : Z) : Session :=
  SessionReady (from_io "peer" (from_secs 1) 0 [RFrame (sample_observed 1 persisted) 1] []).
Definition sample_cycle : CycleEnv :=
  mkCycleEnv ["b"; "a"] (λ n, if decide (n = "a") then sample_session 45 else sample_session 42).
Definition sample_branch : gmap Z DcpCheckpoint :=
  {[ 7 := mkCheckpoint None 7 99 0 0 0 None ]}.
Definition sample_plan : MitigationPlan :=
  match mitigation_source_new sample_copies {[ 7 := 99 ]} with
  | Ok plan => plan
  | _ => mkMitigationPlan ∅ ∅
  end.
Definition sample_source : TokioMitigationSource :=
  mkTokioSource (from_secs 5) sample_plan ∅.
Definition sample_initial : MitigationSnapshot := {[ 7 := mkMitigationPartition 99 None None ]}.

Lemma sample_env_ok : env_ok sample_plan sample_cycle.
Proof.
  split.
  - intros n. cbn. destruct (decide _); vm_compute; split; discriminate.
  - intros n [p Hp].
    assert (n ∈ dom (mp_nodes sample_plan)) as Hn by (apply elem_of_dom; by eexists).
    assert (dom (mp_nodes sample_plan) = {["a"; "b"]}) as Hd by (vm_compute; reflexivity).
    rewrite Hd in Hn. apply elem_of_union in Hn as [->%elem_of_singleton| ->%elem_of_singleton];
      [right; left|left].
Qed.


