(* ===== verification/Stream.v ===== *)
(** * Opening streams ([rust-dcp-core/src/stream.rs], first half; [bootstrap.rs]
      capabilities)

    Resolution of a start position into a stream request, and the open loop that applies
    the rollback policy.  The rollback handler of the application is the parameter
    [handler] (its answer to the n-th request of a partition), JSON serialization is
    [to_vec]. *)
From S2P Require Import Prelude Types Frame Codec Dcp Command Errors Event Checkpoint.
From S2P Require Import Config Async Transport Topology Auth.

Definition MAX_ROLLBACK_ATTEMPTS : Z := 16.

(** ** [VBucketStreamRequest] *)
Record VBucketStreamRequest : Type := mkVBucketStreamRequest {
  vr_checkpoint : DcpCheckpoint;
  vr_end_seqno : Z;
  vr_flags : DcpStreamFlags;
  vr_filter : option StreamFilter
}.

(** [filter.manifest_uid = uid] *)
Definition filter_set_manifest_uid (uid : option Z) (f : StreamFilter) : StreamFilter :=
  mkStreamFilter (sf_scope_id f) (sf_collection_ids f) uid (sf_stream_id f).

Definition start_checkpoint (vbucket : Z) (start : StartPosition) (high_seqno : Z)
    : DcpCheckpoint :=
  match start with
  | StartEarliest => earliest vbucket
  | StartLatest => ck_at high_seqno high_seqno high_seqno (earliest vbucket)
  | StartCheckpoint c => c
  end.

Definition is_explicit (start : StartPosition) : bool :=
  match start with StartCheckpoint _ => true | _ => false end.

Definition resolve (vbucket : Z) (bucket_uuid : option string) (start : StartPosition)
    (mode : DcpMode) (high_seqno : Z) (failover_log : list FailoverEntry)
    (filter : option StreamFilter) : result VBucketStreamRequest :=
  let? newest := ok_or (head failover_log)
    (Topology ("vBucket " +:+ pretty vbucket +:+ " has an empty failover log")) in
  let checkpoint := start_checkpoint vbucket start high_seqno in
  if negb (ck_vbucket checkpoint =? vbucket) then
    Err (Checkpoint ("checkpoint vBucket " +:+ pretty (ck_vbucket checkpoint)
      +:+ " does not match requested vBucket " +:+ pretty vbucket))
  else
    do? ck_validate checkpoint in
    do? match bucket_uuid, ck_bucket_uuid checkpoint with
        | Some expected, Some observed =>
            if bool_decide (expected = observed) then Ok tt
            else Err (Checkpoint ("checkpoint bucket UUID " +:+ observed
                   +:+ " does not match current bucket " +:+ expected))
        | _, _ => Ok tt
        end in
    let checkpoint := match ck_bucket_uuid checkpoint with
                      | None => ck_set_bucket_uuid bucket_uuid checkpoint
                      | Some _ => checkpoint
                      end in
    let checkpoint := if ck_vbucket_uuid checkpoint =? 0
                      then ck_set_vbucket_uuid (fe_vbucket_uuid newest) checkpoint
                      else checkpoint in
    if high_seqno <? ck_seqno checkpoint then
      Err (RollbackRequired vbucket (ck_seqno checkpoint) high_seqno failover_log)
    else
      let flags := if is_explicit start && (ck_seqno checkpoint =? 0)
                   then bitor STREAM_ACTIVE_ONLY STREAM_STRICT_VBUUID
                   else STREAM_ACTIVE_ONLY in
      let filter := filter_set_manifest_uid (ck_manifest_uid checkpoint) <$> filter in
      if bool_decide (filter ≫= sf_stream_id = Some 0) then
        Err (InvalidConfiguration ("vBucket " +:+ pretty vbucket
          +:+ " stream ID must be non-zero"))
      else
        Ok (mkVBucketStreamRequest checkpoint
              (match mode with Finite => high_seqno | Infinite => u64_max end) flags filter).

Definition with_flags (flags : DcpStreamFlags) (r : VBucketStreamRequest)
    : VBucketStreamRequest :=
  mkVBucketStreamRequest (vr_checkpoint r) (vr_end_seqno r) (bitor (vr_flags r) flags)
    (vr_filter r).

Definition with_frozen_end_seqno (end_seqno : Z) (r : VBucketStreamRequest)
    : result VBucketStreamRequest :=
  if end_seqno <? ck_seqno (vr_checkpoint r) then
    Err (StreamError (ck_vbucket (vr_checkpoint r))
      ("frozen stream end " +:+ pretty end_seqno +:+ " is behind effective start "
       +:+ pretty (ck_seqno (vr_checkpoint r))))
  else Ok (mkVBucketStreamRequest (vr_checkpoint r) end_seqno (vr_flags r) (vr_filter r)).

Definition vr_stream_id (r : VBucketStreamRequest) : option Z := vr_filter r ≫= sf_stream_id.

Definition wire_request (r : VBucketStreamRequest) : StreamRequest :=
  let c := vr_checkpoint r in
  mkStreamRequest (ck_vbucket c) (vr_flags r) (ck_vbucket_uuid c) (ck_seqno c)
    (vr_end_seqno r) (ck_snapshot_start c) (ck_snapshot_end c) (vr_filter r) 0.

(** The request after the rewind, with the branch it continues on. *)
Definition rewind (rollback_seqno : Z) (failover_log : list FailoverEntry)
    (r : VBucketStreamRequest) : result (Z * VBucketStreamRequest) :=
  let? branch := ok_or (List.find (λ e, fe_seqno e <=? rollback_seqno) failover_log)
    (Topology ("failover log has no branch covering rollback seqno "
       +:+ pretty rollback_seqno +:+ " for vBucket "
       +:+ pretty (ck_vbucket (vr_checkpoint r)))) in
  let checkpoint := ck_set_manifest_uid None
    (ck_at rollback_seqno rollback_seqno rollback_seqno
      (ck_set_vbucket_uuid (fe_vbucket_uuid branch) (vr_checkpoint r))) in
  do? ck_validate checkpoint in
  Ok (fe_vbucket_uuid branch,
      mkVBucketStreamRequest checkpoint (vr_end_seqno r) (vr_flags r)
        (filter_set_manifest_uid None <$> vr_filter r)).

(** ** Rollback decisions and the open report *)
Inductive RollbackAction : Type := ActionStopAndReport | ActionRewindAndReplay.

Record RollbackRequest : Type := mkRollbackRequest {
  rr_vbucket : Z;
  rr_checkpoint : DcpCheckpoint;
  rr_rollback_seqno : Z;
  rr_failover_log : list FailoverEntry
}.

Record RollbackApplied : Type := mkRollbackApplied {
  ra_vbucket : Z;
  ra_requested_seqno : Z;
  ra_rollback_seqno : Z;
  ra_vbucket_uuid : Z
}.

Record PartitionOpenState : Type := mkPartitionOpenState {
  po_effective_checkpoint : DcpCheckpoint;
  po_vbucket : Z;
  po_start_seqno : Z;
  po_end_seqno : Z;
  po_vbucket_uuid : Z;
  po_stream_id : option Z;
  po_opaque : Z
}.

Record StreamOpenReport : Type := mkStreamOpenReport {
  or_partitions : gmap Z PartitionOpenState;
  or_rollbacks : list RollbackApplied
}.

(** ** Capabilities ([bootstrap.rs]) *)
Inductive DcpControlFeature : Type :=
| StreamEndOnClose
| ChangeStreams
| ExpiryOpcode
| ControlStreamId.

#[export] Instance DcpControlFeature_eq_dec : EqDecision DcpControlFeature.
Proof. solve_decision. Defined.

Record BootstrapCapabilities : Type := mkBootstrapCapabilities {
  bc_hello_features : list HelloFeature;
  bc_sasl_mechanism : SaslMechanism;
  bc_dcp_controls : list DcpControlFeature
}.

Definition supports (c : BootstrapCapabilities) (f : HelloFeature) : bool :=
  bool_decide (f ∈ bc_hello_features c).
Definition supports_control (c : BootstrapCapabilities) (f : DcpControlFeature) : bool :=
  bool_decide (f ∈ bc_dcp_controls c).

(** ** Validation *)
Definition validate_capability (capabilities : BootstrapCapabilities)
    (request : VBucketStreamRequest) : result unit :=
  if bool_decide (is_Some (vr_filter request)) && negb (supports capabilities HfCollections) then
    Err (Unsupported ("vBucket " +:+ pretty (ck_vbucket (vr_checkpoint request))
      +:+ " uses a stream filter but the server did not negotiate collections"))
  else if bool_decide (is_Some (vr_stream_id request))
          && negb (supports_control capabilities ControlStreamId) then
    Err (Unsupported ("vBucket " +:+ pretty (ck_vbucket (vr_checkpoint request))
      +:+ " uses a stream ID but enable_stream_id was not accepted"))
  else Ok tt.

Definition validate_capabilities (capabilities : BootstrapCapabilities)
    (requests : list VBucketStreamRequest) : result unit :=
  for_res requests tt (λ _, validate_capability capabilities).

(** One round of the loop: the set of vBuckets seen so far. *)
Definition validate_request_step (vbuckets : gset Z) (request : VBucketStreamRequest)
    : result (gset Z) :=
  let c := vr_checkpoint request in
  do? ck_validate c in
  if vr_end_seqno request <? ck_seqno c then
    Err (InvalidConfiguration ("vBucket " +:+ pretty (ck_vbucket c) +:+ " start "
      +:+ pretty (ck_seqno c) +:+ " exceeds stream end " +:+ pretty (vr_end_seqno request)))
  else if bool_decide (ck_vbucket c ∈ vbuckets) then
    Err (InvalidConfiguration ("duplicate stream request for vBucket "
      +:+ pretty (ck_vbucket c)))
  else Ok ({[ck_vbucket c]} ∪ vbuckets).

Definition validate_requests (requests : list VBucketStreamRequest) : result unit :=
  match requests with
  | [] => Err (InvalidConfiguration "at least one vBucket stream request is required")
  | _ => do? for_res requests ∅ validate_request_step in Ok tt
  end.

Section Open.
Context `{Snappy} (to_vec : WireFilter → res string bytes).

(** The producer accepted the request. *)
Definition opened_state (request : VBucketStreamRequest) (response : Frame)
    (entries : list FailoverEntry) : result PartitionOpenState :=
  let c := vr_checkpoint request in
  let? current := ok_or (head entries)
    (Topology ("stream-open response has no failover entries for vBucket "
       +:+ pretty (ck_vbucket c))) in
  Ok (mkPartitionOpenState (ck_set_vbucket_uuid (fe_vbucket_uuid current) c) (ck_vbucket c)
        (ck_seqno c) (vr_end_seqno request) (fe_vbucket_uuid current)
        (vr_stream_id request) (opaque response)).

Section Policy.
Variable policy : RollbackPolicy.
Variable handler : option (nat → RollbackRequest → outcome RollbackAction).

(** The decision on a rollback; the [expect] on a missing handler is the panic. *)
Definition decide_rollback (attempt : nat) (q : RollbackRequest)
    : io KvConnection RollbackAction :=
  match policy with
  | PolicyStopAndReport => io_ret ActionStopAndReport
  | PolicyRewindAndReplay => io_ret ActionRewindAndReplay
  | PolicyDelegateToHandler =>
      match handler with
      | None => io_lift Panic
      | Some h => λ c, (h attempt q, c)
      end
  end.

(** The producer asked for a rollback: the request to repeat and the rewind applied. *)
Definition apply_rollback (attempts : nat) (rollback_seqno : Z)
    (request : VBucketStreamRequest)
    : io KvConnection (VBucketStreamRequest * RollbackApplied) :=
  let c := vr_checkpoint request in
  if MAX_ROLLBACK_ATTEMPTS <? Z.of_nat attempts then
    io_lift (Err (StreamError (ck_vbucket c) ("producer exceeded "
      +:+ pretty MAX_ROLLBACK_ATTEMPTS +:+ " consecutive rollback responses")))
  else if ck_seqno c <=? rollback_seqno then
    io_lift (Err (Protocol (MalformedDcp ("vBucket " +:+ pretty (ck_vbucket c)
      +:+ " rollback " +:+ pretty rollback_seqno +:+ " does not precede requested seqno "
      +:+ pretty (ck_seqno c)))))
  else
    let! failover_log := fetch_failover_log (ck_vbucket c) in
    let q := mkRollbackRequest (ck_vbucket c) c rollback_seqno failover_log in
    let! action := decide_rollback attempts q in
    match action with
    | ActionStopAndReport =>
        io_lift (Err (RollbackRequired (rr_vbucket q) (ck_seqno (rr_checkpoint q))
          rollback_seqno failover_log))
    | ActionRewindAndReplay =>
        let! rewound := io_lift (rewind rollback_seqno failover_log request) in
        io_ret (rewound.2, mkRollbackApplied (ck_vbucket c) (ck_seqno c) rollback_seqno rewound.1)
    end.

(** The [loop]: every round but the last is a rollback, and the seventeenth rollback
    fails, so that seventeen rounds are enough. *)
Fixpoint open_loop (fuel attempts : nat) (request : VBucketStreamRequest)
    (rollbacks : list RollbackApplied)
    : io KvConnection (PartitionOpenState * list RollbackApplied) :=
  match fuel with
  | O => λ c, (Hang, c)
  | S fuel =>
      let! frame := io_lift (from_protocol (stream_request to_vec (wire_request request))) in
      let! response := conn_request frame in
      let! parsed := io_lift (from_protocol (parse_stream_request_response response)) in
      match parsed with
      | Opened entries =>
          let! state := io_lift (opened_state request response entries) in
          io_ret (state, rollbacks)
      | Rollback rollback_seqno =>
          let! next := apply_rollback (S attempts) rollback_seqno request in
          open_loop fuel (S attempts) next.1 (rollbacks ++ [next.2])
      end
  end.

Definition open_partition (request : VBucketStreamRequest)
    : io KvConnection (PartitionOpenState * list RollbackApplied) :=
  open_loop (S (Z.to_nat MAX_ROLLBACK_ATTEMPTS)) 0 request [].
End Policy.
End Open.

(** ** Lemmas *)

Lemma rewind_spec seqno log r :
  match rewind seqno log r with
  | Ok (uuid, r') =>
      ck_valid (vr_checkpoint r') ∧ ck_seqno (vr_checkpoint r') = seqno
      ∧ ck_vbucket (vr_checkpoint r') = ck_vbucket (vr_checkpoint r)
      ∧ ck_bucket_uuid (vr_checkpoint r') = ck_bucket_uuid (vr_checkpoint r)
      ∧ ck_vbucket_uuid (vr_checkpoint r') = uuid
      ∧ vr_end_seqno r' = vr_end_seqno r ∧ vr_flags r' = vr_flags r
      ∧ vr_stream_id r' = vr_stream_id r
      ∧ ∃ newer branch older, log = newer ++ branch :: older
          ∧ fe_vbucket_uuid branch = uuid ∧ fe_seqno branch ≤ seqno
          ∧ Forall (λ e, seqno < fe_seqno e) newer
  | Err _ => Forall (λ e, seqno < fe_seqno e) log
  | Panic => False
  end.
Proof.
  assert (match List.find (λ e, fe_seqno e <=? seqno) log with
    | Some b => ∃ newer older, log = newer ++ b :: older ∧ fe_seqno b ≤ seqno
        ∧ Forall (λ e, seqno < fe_seqno e) newer
    | None => Forall (λ e, seqno < fe_seqno e) log end) as Hf.
  { induction log as [|e log IH]; cbn [List.find]; [by constructor|].
    destruct (Z.leb_spec (fe_seqno e) seqno); [by exists [], log|].
    destruct (List.find _ log) as [b|]; [|by constructor].
    destruct IH as (newer & older & -> & ? & ?). exists (e :: newer), older.
    split_and!; [done..|]. by constructor. }
  unfold rewind. destruct (List.find _ log) as [b|]; cbn [ok_or]; [|done].
  destruct Hf as (newer & older & Hlog & Hb & Hn).
  set (c := ck_set_manifest_uid _ _).
  assert (ck_valid c) as Hv by (unfold ck_valid; cbn; lia).
  rewrite (ck_validate_ok _ Hv). cbn [vr_checkpoint vr_end_seqno vr_flags].
  split_and!; try done; [|by exists newer, b, older].
  unfold vr_stream_id. cbn [vr_filter]. by destruct (vr_filter r).
Qed.

(** A request fit to be sent: a valid checkpoint that does not exceed the end. *)
Definition vr_ok (r : VBucketStreamRequest) : Prop :=
  ck_valid (vr_checkpoint r) ∧ ck_seqno (vr_checkpoint r) ≤ vr_end_seqno r.

Lemma vr_ok_bounds r : vr_ok r → stream_bounds_ok (wire_request r) = true.
Proof. unfold vr_ok, ck_valid, stream_bounds_ok. cbn. lia. Qed.

Lemma ensure_success_response_no_panic f op s : ensure_success_response f op s ≠ Panic.
Proof. unfold ensure_success_response. by repeat case_match. Qed.
Lemma from_protocol_no_panic {A} (r : presult A) : r ≠ Panic → from_protocol r ≠ Panic.
Proof. by destruct r. Qed.
Lemma from_protocol_ok {A} (r : presult A) a : from_protocol r = Ok a → r = Ok a.
Proof. destruct r; cbn; congruence. Qed.

(** ** Which frames an exchange sends, and that it ends *)

(** [m] ends, without a panic when [np], and sends at most [n] frames, all in [P]. *)
Definition exchange {A} (np : bool) (P : Frame → Prop) (n : nat) (m : io KvConnection A)
    : Prop :=
  ∀ c, (m c).1 ≠ Hang ∧ (np = true → (m c).1 ≠ Done Panic) ∧ same_link c (m c).2
    ∧ ∃ sent, kc_sent (m c).2 = kc_sent c ++ sent ∧ Forall P sent ∧ (length sent ≤ n)%nat.

Lemma exchange_lift {A} np P (r : result A) :
  (np = true → r ≠ Panic) → exchange np P 0 (io_lift r).
Proof.
  intros Hr c. split; [done|]. split; [intros Hnp [= Hp]; by apply Hr|].
  split; [done|]. exists []. by rewrite app_nil_r.
Qed.
Lemma exchange_bind {A B} np P n n' (m : io KvConnection A) (k : A → io KvConnection B) :
  exchange np P n m → (∀ a, exchange np P n' (k a)) → exchange np P (n + n') (io_bind m k).
Proof.
  intros Hm Hk c. destruct (Hm c) as (H1 & H2 & H3 & sent & H4 & H5 & H6). unfold io_bind.
  destruct (m c) as [[[a|e|]|] c1]; cbn [fst snd] in *; [| | |by destruct H1].
  2,3: split_and!; [done|first [done|intros Hn; by destruct (H2 Hn)]|done|exists sent; split_and!; [done..|lia]].
  destruct (Hk a c1) as (K1 & K2 & K3 & sent' & K4 & K5 & K6).
  split_and!; [done..|by etrans|]. exists (sent ++ sent'). rewrite K4, H4, app_assoc.
  rewrite length_app. split_and!; [done|by apply Forall_app_2|lia].
Qed.
Lemma exchange_weaken {A} n np P n' (m : io KvConnection A) :
  (n ≤ n')%nat → exchange np P n m → exchange np P n' m.
Proof.
  intros Hn Hm c. destruct (Hm c) as (? & ? & ? & sent & ? & ? & ?).
  split_and!; [done..|]. exists sent. split_and!; [done..|lia].
Qed.
(** The continuation may know what a pure computation returned. *)
Lemma exchange_bind_lift {A B} np P n (r : result A) (k : A → io KvConnection B) :
  (np = true → r ≠ Panic) → (∀ a, r = Ok a → exchange np P n (k a)) →
  exchange np P n (io_bind (io_lift r) k).
Proof.
  intros Hr Hk. destruct r as [a|e|]; [exact (Hk a eq_refl)|..];
    apply (exchange_weaken 0); try lia.
  - by apply (exchange_lift np P (Err e)).
  - apply (exchange_lift np P Panic). intros Hn. by destruct (Hr Hn).
Qed.
Lemma exchange_request `{Snappy} np P q :
  (∀ o, P (set_opaque o q)) → exchange np P 1 (conn_request q).
Proof.
  intros HP c. destruct (conn_request q c) as [o c'] eqn:Hq.
  destruct (conn_request_spec _ _ _ _ Hq) as (_ & _ & _ & _ & _ & _ & _ & (r & -> & Hr) & Hs & Hl).
  split_and!; [done|intros _ [= ->]; done|done|]. cbn [snd].
  destruct Hs as [-> | ->]; [exists []; rewrite app_nil_r; split_and!; [done..|cbn; lia]|].
  eexists. split_and!; [done|by apply Forall_singleton|done].
Qed.

Lemma fetch_failover_log_exchange `{Snappy} np P vb :
  (∀ o, P (set_opaque o (get_failover_log vb 0))) → exchange np P 1 (fetch_failover_log vb).
Proof.
  intros HP. apply (exchange_bind _ _ 1 0); [by apply exchange_request|]. intros f.
  apply (exchange_bind _ _ 0 0); [apply exchange_lift; intros _; apply ensure_success_response_no_panic|].
  intros _. apply (exchange_bind _ _ 0 0).
  - apply exchange_lift. intros _. apply from_protocol_no_panic. unfold parse_failover_log.
    apply let_no_panic; [apply ensure_response_no_panic|].
    intros _. apply parse_failover_entries_no_panic.
  - intros [|e l]; by apply exchange_lift.
Qed.

Section OpenLemmas.
Context `{Snappy} (to_vec : WireFilter → res string bytes).
Context (policy : RollbackPolicy).
Context (handler : option (nat → RollbackRequest → outcome RollbackAction)).
Context (np : bool).
Hypothesis handler_returns : ∀ h n q, handler = Some h → h n q ≠ Hang.
Hypothesis handler_safe : ∀ h n q, np = true → handler = Some h → h n q ≠ Done Panic.
Hypothesis handler_present : np = true → policy = PolicyDelegateToHandler → handler ≠ None.
Hypothesis to_vec_safe : ∀ w, np = true → to_vec w ≠ Panic.

(** The frames of an open: stream requests and failover-log queries. *)
Definition open_frame (f : Frame) : Prop :=
  opcode f = OP_DCP_STREAM_REQUEST ∨ opcode f = OP_DCP_GET_FAILOVER_LOG.

Lemma decide_rollback_exchange n q :
  exchange np open_frame 0 (decide_rollback policy handler n q).
Proof using handler_returns handler_safe handler_present.
  unfold decide_rollback. destruct policy; [by apply exchange_lift..|].
  destruct handler as [h|]; [|apply exchange_lift; intros Hn _; by apply handler_present].
  intros c. cbn [fst snd]. split_and!; [by apply handler_returns|intros; by apply handler_safe|done|].
  exists []. rewrite app_nil_r. split_and!; [done..|cbn; lia].
Qed.

Lemma apply_rollback_exchange n seqno r :
  exchange np open_frame 1 (apply_rollback policy handler n seqno r).
Proof using handler_returns handler_safe handler_present.
  assert (∀ {A} (x : result A), x ≠ Panic → exchange np open_frame 1 (io_lift x)) as Hlift.
  { intros A x Hx. apply (exchange_weaken 0); [lia|]. by apply exchange_lift. }
  unfold apply_rollback. case_match; [by apply Hlift|].
  case_match; [by apply Hlift|].
  apply (exchange_bind _ _ 1 0).
  { apply fetch_failover_log_exchange. intros o. by right. }
  intros log. apply (exchange_bind _ _ 0 0); [apply decide_rollback_exchange|].
  intros [|]; [by apply exchange_lift|].
  apply (exchange_bind _ _ 0 0); [|intros [u r']; by apply exchange_lift].
  apply exchange_lift. intros _ Hp. pose proof (rewind_spec seqno log r) as Hr.
  by rewrite Hp in Hr.
Qed.

Lemma stream_request_no_panic r :
  (∀ w, to_vec w ≠ Panic) → stream_request to_vec r ≠ Panic.
Proof.
  intros Hv. unfold stream_request. repeat case_match; try done; unfold filter_encode in *;
  repeat case_match; try done.
  match goal with H : map_err _ ?x = Panic |- _ => destruct x eqn:Hx; [done..|] end.
  by apply Hv in Hx.
Qed.

(** Seventeen rounds are enough. *)
Lemma open_loop_exchange fuel : ∀ attempts r rbs,
  (fuel + attempts = 17)%nat → (1 ≤ fuel)%nat →
  exchange np open_frame (2 * fuel) (open_loop to_vec policy handler fuel attempts r rbs).
Proof using handler_returns handler_safe handler_present to_vec_safe.
  induction fuel as [|fuel IH]; intros attempts r rbs Hf Hp; [lia|]. cbn [open_loop].
  replace (2 * S fuel)%nat with (1 + (0 + (1 + 2 * fuel)))%nat by lia.
  apply exchange_bind_lift.
  { intros Hn. apply from_protocol_no_panic, stream_request_no_panic.
    intros w. by apply to_vec_safe. }
  intros f Hfr. apply exchange_bind.
  { apply exchange_request. intros o. left.
    apply from_protocol_ok in Hfr.
    apply stream_request_inv in Hfr as (_ & _ & v & ->). done. }
  intros resp. apply exchange_bind.
  { apply exchange_lift. intros _. apply from_protocol_no_panic,
      parse_stream_request_response_no_panic. }
  intros [entries|seqno].
  - apply (exchange_weaken 0); [lia|]. apply (exchange_bind _ _ 0 0).
    + apply exchange_lift. intros _. unfold opened_state. by destruct (head entries).
    + intros st. by apply exchange_lift.
  - destruct fuel as [|fuel].
    + assert (apply_rollback policy handler (S attempts) seqno r = io_lift (Err (StreamError
        (ck_vbucket (vr_checkpoint r)) ("producer exceeded " +:+ pretty MAX_ROLLBACK_ATTEMPTS
        +:+ " consecutive rollback responses")))) as ->.
      { unfold apply_rollback. destruct (Z.ltb_spec MAX_ROLLBACK_ATTEMPTS (Z.of_nat (S attempts)));
          [done|]. unfold MAX_ROLLBACK_ATTEMPTS in *. lia. }
      apply (exchange_weaken 0); [lia|].
      exact (exchange_lift np open_frame (Err _) (λ _, ltac:(done))).
    + apply exchange_bind; [apply apply_rollback_exchange|]. intros next. apply IH; lia.
Qed.

Lemma open_partition_exchange r :
  exchange np open_frame 34 (open_partition to_vec policy handler r).
Proof using handler_returns handler_safe handler_present to_vec_safe.
  exact (open_loop_exchange 17 0 r [] eq_refl ltac:(lia)).
Qed.
End OpenLemmas.

(** ** What an opened partition went through *)

(** A strictly descending chain of rewinds from the requested to the effective start. *)
Fixpoint rollback_chain (requested effective : Z) (rbs : list RollbackApplied) : Prop :=
  match rbs with
  | [] => effective = requested
  | x :: rbs =>
      ra_requested_seqno x = requested ∧ ra_rollback_seqno x < requested
      ∧ rollback_chain (ra_rollback_seqno x) effective rbs
  end.

Lemma rollback_chain_le rbs : ∀ from to, rollback_chain from to rbs → to ≤ from.
Proof.
  induction rbs as [|x rbs IH]; intros from to; cbn; [lia|].
  intros (? & ? & ?%IH). lia.
Qed.

(** The application allowed this rewind: by policy, or through its handler. *)
Definition authorized (policy : RollbackPolicy)
    (handler : option (nat → RollbackRequest → outcome RollbackAction))
    (attempt : nat) (x : RollbackApplied) : Prop :=
  match policy with
  | PolicyStopAndReport => False
  | PolicyRewindAndReplay => True
  | PolicyDelegateToHandler => ∃ h q,
      handler = Some h ∧ h attempt q = Done (Ok ActionRewindAndReplay)
      ∧ rr_vbucket q = ra_vbucket x ∧ rr_rollback_seqno q = ra_rollback_seqno x
      ∧ ck_seqno (rr_checkpoint q) = ra_requested_seqno x
  end.

(** Requests for the same stream of the same partition. *)
Definition same_target (r r' : VBucketStreamRequest) : Prop :=
  ck_vbucket (vr_checkpoint r') = ck_vbucket (vr_checkpoint r)
  ∧ ck_bucket_uuid (vr_checkpoint r') = ck_bucket_uuid (vr_checkpoint r)
  ∧ vr_end_seqno r' = vr_end_seqno r ∧ vr_flags r' = vr_flags r
  ∧ vr_stream_id r' = vr_stream_id r.

(** The open state reports the stream the request asked for, at a valid checkpoint. *)
Definition opened_for (r : VBucketStreamRequest) (st : PartitionOpenState) : Prop :=
  let c := po_effective_checkpoint st in
  po_vbucket st = ck_vbucket (vr_checkpoint r) ∧ po_end_seqno st = vr_end_seqno r
  ∧ po_stream_id st = vr_stream_id r ∧ po_start_seqno st ≤ po_end_seqno st
  ∧ ck_valid c ∧ ck_vbucket c = po_vbucket st ∧ ck_seqno c = po_start_seqno st
  ∧ ck_vbucket_uuid c = po_vbucket_uuid st
  ∧ ck_bucket_uuid c = ck_bucket_uuid (vr_checkpoint r).

Section OpenSpec.
Context `{Snappy} (to_vec : WireFilter → res string bytes).
Context (policy : RollbackPolicy).
Context (handler : option (nat → RollbackRequest → outcome RollbackAction)).

Lemma apply_rollback_ok n seqno r c r' x c' :
  apply_rollback policy handler n seqno r c = (Done (Ok (r', x)), c') → vr_ok r →
  (n ≤ 16)%nat ∧ seqno < ck_seqno (vr_checkpoint r) ∧ vr_ok r' ∧ same_target r r'
  ∧ ck_seqno (vr_checkpoint r') = seqno
  ∧ x = mkRollbackApplied (ck_vbucket (vr_checkpoint r)) (ck_seqno (vr_checkpoint r)) seqno
          (ck_vbucket_uuid (vr_checkpoint r'))
  ∧ authorized policy handler n x.
Proof.
  unfold apply_rollback. intros Hrun [Hv Hend].
  destruct (Z.ltb_spec MAX_ROLLBACK_ATTEMPTS (Z.of_nat n)); [done|].
  destruct (Z.leb_spec (ck_seqno (vr_checkpoint r)) seqno); [done|].
  apply io_bind_ok in Hrun as (log & c1 & _ & Hrun).
  apply io_bind_ok in Hrun as (action & c2 & Hd & Hrun).
  destruct action; [done|]. apply io_bind_ok in Hrun as ([uuid r1] & c3 & Hw & Hrun).
  injection Hw as Hw _. injection Hrun as <- <- _. cbn [fst snd] in *.
  pose proof (rewind_spec seqno log r) as Hr. rewrite Hw in Hr.
  destruct Hr as (Hv' & Hs & Hvb & Hbu & Huuid & He & Hf & Hsid & _).
  unfold MAX_ROLLBACK_ATTEMPTS in *. split_and!; try done; [lia|split; [done|lia]|by rewrite Huuid|].
  unfold authorized, decide_rollback in *. destruct policy; [done..|].
  destruct handler as [h|]; [|done]. injection Hd as Hd _. by eexists h, _.
Qed.

Lemma opened_state_ok r resp entries st :
  opened_state r resp entries = Ok st → vr_ok r →
  opened_for r st ∧ po_start_seqno st = ck_seqno (vr_checkpoint r).
Proof.
  unfold opened_state. intros Hst [Hv Hend]. destruct (head entries) as [e|]; [|done].
  injection Hst as <-. done.
Qed.

Lemma opened_for_target r r' st : same_target r r' → opened_for r' st → opened_for r st.
Proof.
  intros (E1 & E2 & E3 & _ & E5) (? & ? & ? & ? & ? & ? & ? & ? & ?).
  unfold opened_for. by rewrite <-E1, <-E2, <-E3, <-E5.
Qed.

Lemma open_loop_ok fuel : ∀ attempts r rbs c st rbs' c',
  vr_ok r → (attempts ≤ 16)%nat →
  open_loop to_vec policy handler fuel attempts r rbs c = (Done (Ok (st, rbs')), c') →
  ∃ new, rbs' = rbs ++ new
    ∧ rollback_chain (ck_seqno (vr_checkpoint r)) (po_start_seqno st) new
    ∧ opened_for r st ∧ (attempts + length new ≤ 16)%nat
    ∧ Forall (λ x, ra_vbucket x = ck_vbucket (vr_checkpoint r)) new
    ∧ ∀ i x, new !! i = Some x → authorized policy handler (attempts + S i) x.
Proof.
  induction fuel as [|fuel IH]; intros attempts r rbs c st rbs' c' Hr Ha Hrun; [done|].
  cbn [open_loop] in Hrun. apply io_bind_ok in Hrun as (f & c1 & _ & Hrun).
  apply io_bind_ok in Hrun as (resp & c2 & _ & Hrun).
  apply io_bind_ok in Hrun as ([entries|seqno] & c3 & _ & Hrun).
  - apply io_bind_ok in Hrun as (st' & c4 & Hst & Hrun). injection Hst as Hst _.
    injection Hrun as -> -> _. apply opened_state_ok in Hst as [Hof Hst]; [|done].
    exists []. rewrite app_nil_r. split_and!; [done..|cbn; lia|done|].
    intros i x. by rewrite lookup_nil.
  - apply io_bind_ok in Hrun as ([r' x] & c4 & Hrb & Hrun).
    apply apply_rollback_ok in Hrb as (Hn & Hlt & Hr' & Ht & Hs & -> & Hauth); [|done].
    cbn [fst snd] in Hrun. apply IH in Hrun as (new & -> & Hch & Hof & Hlen & Hvb & Hau); [|done..].
    eexists (_ :: new). rewrite <-app_assoc. split_and!; [done|..].
    + cbn [rollback_chain ra_requested_seqno ra_rollback_seqno]. by rewrite Hs in Hch.
    + by eapply opened_for_target.
    + cbn [length]. lia.
    + constructor; [done|]. destruct Ht as (Ht & _). by rewrite <-Ht.
    + intros [|i] y Hy; cbn in Hy; [injection Hy as <-|].
      * by replace (attempts + 1)%nat with (S attempts) by lia.
      * apply Hau in Hy. by replace (attempts + S (S i))%nat with (S attempts + S i)%nat by lia.
Qed.
End OpenSpec.

(** Resolution, without assuming the width of the captured sequence number. *)
Lemma resolve_spec vbucket bucket_uuid start mode high log filter :
  match resolve vbucket bucket_uuid start mode high log filter with
  | Ok r =>
      let c := vr_checkpoint r in
      let c0 := start_checkpoint vbucket start high in
      ck_valid c ∧ ck_vbucket c = vbucket ∧ ck_seqno c = ck_seqno c0
      ∧ ck_seqno c ≤ high
      ∧ vr_end_seqno r = match mode with Finite => high | Infinite => u64_max end
      ∧ (∀ u, bucket_uuid = Some u → ck_bucket_uuid c = Some u)
      ∧ (ck_vbucket_uuid c0 ≠ 0 → ck_vbucket_uuid c = ck_vbucket_uuid c0)
      ∧ (ck_vbucket_uuid c0 = 0 → Some (ck_vbucket_uuid c) = fe_vbucket_uuid <$> head log)
      ∧ Z.land (vr_flags r) STREAM_IGNORE_PURGED_TOMBSTONES = 0
      ∧ (∀ f, vr_filter r = Some f →
           sf_manifest_uid f = ck_manifest_uid c ∧ sf_stream_id f ≠ Some 0)
  | Err (RollbackRequired vb requested rollback l) =>
      vb = vbucket ∧ rollback = high ∧ high < requested ∧ l = log
      ∧ requested = ck_seqno (start_checkpoint vbucket start high)
  | Err _ =>
      let c0 := start_checkpoint vbucket start high in
      log = [] ∨ ck_vbucket c0 ≠ vbucket ∨ ¬ ck_valid c0
      ∨ (∃ u u', bucket_uuid = Some u ∧ ck_bucket_uuid c0 = Some u' ∧ u ≠ u')
      ∨ filter ≫= sf_stream_id = Some 0
  | Panic => False
  end.
Proof.
  unfold resolve. set (c0 := start_checkpoint vbucket start high).
  destruct log as [|newest log]; cbn [head ok_or]; [by left|].
  destruct (Z.eqb_spec (ck_vbucket c0) vbucket) as [Hvb|Hvb]; cbn [negb]; [|auto].
  pose proof (ck_validate_spec c0) as Hval.
  destruct (ck_validate c0) as [u|e|] eqn:Hck; [|destruct e; auto;
    exfalso; unfold ck_validate in Hck; by repeat case_match|done].
  set (bu := match bucket_uuid, ck_bucket_uuid c0 with Some _, Some _ => _ | _, _ => _ end).
  assert (match bu with
    | Ok _ => ∀ u, bucket_uuid = Some u → ∀ u', ck_bucket_uuid c0 = Some u' → u' = u
    | Err e => (∃ m, e = Checkpoint m)
        ∧ ∃ u u', bucket_uuid = Some u ∧ ck_bucket_uuid c0 = Some u' ∧ u ≠ u'
    | Panic => False end) as Hbu.
  { unfold bu. destruct bucket_uuid as [u1|], (ck_bucket_uuid c0) as [u2|]; try done; [|naive_solver..].
    case_bool_decide; [naive_solver|]. split; [by eexists|naive_solver]. }
  destruct bu as [u'|e|]; [|destruct Hbu as [[m ->] ?]; auto|done].
  set (c1 := match ck_bucket_uuid c0 with None => _ | Some _ => c0 end).
  set (c2 := if ck_vbucket_uuid c1 =? 0 then _ else c1).
  assert (ck_seqno c2 = ck_seqno c0 ∧ ck_snapshot_start c2 = ck_snapshot_start c0
    ∧ ck_snapshot_end c2 = ck_snapshot_end c0 ∧ ck_vbucket c2 = ck_vbucket c0
    ∧ ck_manifest_uid c2 = ck_manifest_uid c0
    ∧ (∀ u, bucket_uuid = Some u → ck_bucket_uuid c2 = Some u)
    ∧ (ck_vbucket_uuid c0 ≠ 0 → ck_vbucket_uuid c2 = ck_vbucket_uuid c0)
    ∧ (ck_vbucket_uuid c0 = 0 → ck_vbucket_uuid c2 = fe_vbucket_uuid newest))
    as (E1 & E2 & E3 & E4 & E5 & E6 & E7 & E8).
  { unfold c2, c1. destruct (ck_bucket_uuid c0) as [u0|] eqn:Hu0; cbn [ck_vbucket_uuid ck_set_bucket_uuid];
      destruct (Z.eqb_spec (ck_vbucket_uuid c0) 0); cbn; split_and!; try done; rewrite ?Hu0; naive_solver. }
  clearbody c2. clear c1.
  destruct (Z.ltb_spec high (ck_seqno c2)); [by rewrite E1 in *; auto|].
  case_bool_decide as Hsid; [by destruct filter; auto 6|].
  cbn [vr_checkpoint vr_end_seqno vr_flags vr_filter].
  assert (ck_valid c2) as Hv2 by (unfold ck_valid in *; by rewrite E1, E2, E3).
  split_and!; try done; [by rewrite E4|by intros ?; cbn; rewrite E8| |].
  - by destruct (is_explicit start && _).
  - intros f Hf. destruct filter as [f0|]; [|done]. injection Hf as <-. split; [done|].
    intros Hz. by apply Hsid.
Qed.

(** ** Properties *)

(** Resolving a start position against the captured high sequence number and the
    failover log yields a request for that vBucket whose checkpoint is valid, belongs to
    the expected bucket, starts where the position says and never beyond the high
    sequence number or the stream end, whose flags never ignore purged tombstones, whose
    filter carries the checkpoint's own manifest, and which passes the range checks of the
    wire encoder; every refusal is an error for its stated reason, never a panic. *)
Lemma resolve_correct vbucket bucket_uuid start mode high log filter :
  is_u64 high →
  match resolve vbucket bucket_uuid start mode high log filter with
  | Ok r =>
      let c := vr_checkpoint r in
      let c0 := start_checkpoint vbucket start high in
      ck_valid c ∧ ck_vbucket c = vbucket ∧ ck_seqno c = ck_seqno c0
      ∧ ck_seqno c ≤ high ∧ high ≤ vr_end_seqno r
      ∧ (mode = Finite → vr_end_seqno r = high)
      ∧ (∀ u, bucket_uuid = Some u → ck_bucket_uuid c = Some u)
      ∧ (ck_vbucket_uuid c0 ≠ 0 → ck_vbucket_uuid c = ck_vbucket_uuid c0)
      ∧ (ck_vbucket_uuid c0 = 0 → Some (ck_vbucket_uuid c) = fe_vbucket_uuid <$> head log)
      ∧ Z.land (vr_flags r) STREAM_IGNORE_PURGED_TOMBSTONES = 0
      ∧ (∀ f, vr_filter r = Some f →
           sf_manifest_uid f = ck_manifest_uid c ∧ sf_stream_id f ≠ Some 0)
      ∧ stream_bounds_ok (wire_request r) = true
  | Err (RollbackRequired vb requested rollback l) =>
      vb = vbucket ∧ rollback = high ∧ high < requested ∧ l = log
      ∧ requested = ck_seqno (start_checkpoint vbucket start high)
  | Err _ =>
      let c0 := start_checkpoint vbucket start high in
      log = [] ∨ ck_vbucket c0 ≠ vbucket ∨ ¬ ck_valid c0
      ∨ (∃ u u', bucket_uuid = Some u ∧ ck_bucket_uuid c0 = Some u' ∧ u ≠ u')
      ∨ filter ≫= sf_stream_id = Some 0
  | Panic => False
  end.
Proof.
  intros Hh. pose proof (resolve_spec vbucket bucket_uuid start mode high log filter) as Hs.
  destruct (resolve _ _ _ _ _ _ _) as [r|e|]; [|done..].
  destruct Hs as (Hv & Hvb & Hc & Hle & He & Hu & Hbr & Hbr0 & Hf & Hfi).
  assert (high ≤ vr_end_seqno r) as Hend by (rewrite He; destruct mode; unfold_ranges; lia).
  split_and!; try done; [by rewrite He; intros ->|].
  apply vr_ok_bounds. split; [done|lia].
Qed.
Definition sample_log : list FailoverEntry := [mkFailoverEntry 7 90; mkFailoverEntry 5 0].
(** C18: opening a partition always ends when the application's handler does, within
    seventeen rounds of one stream request and one failover-log query each, and, with a
    handler configured for delegation and total foreign code, without a panic.  When it
    succeeds, the effective start is the requested one or was reached through at most
    sixteen strictly descending rewinds of this vBucket, each authorized by the policy or
    by the handler; stopping policy means no rewind; and the reported state is the stream
    asked for, at a valid checkpoint within the stream end. *)
Theorem open_partition_correct `{Snappy} to_vec policy handler r c o c' :
  (∀ h n q, handler = Some h → h n q ≠ Hang ∧ h n q ≠ Done Panic) →
  (policy = PolicyDelegateToHandler → handler ≠ None) →
  (∀ w, to_vec w ≠ Panic) → vr_ok r →
  open_partition to_vec policy handler r c = (o, c') →
  o ≠ Hang ∧ o ≠ Done Panic
  ∧ (∃ sent, kc_sent c' = kc_sent c ++ sent ∧ Forall open_frame sent ∧ (length sent ≤ 34)%nat)
  ∧ ∀ st rbs, o = Done (Ok (st, rbs)) →
      opened_for r st ∧ (length rbs ≤ 16)%nat
      ∧ rollback_chain (ck_seqno (vr_checkpoint r)) (po_start_seqno st) rbs
      ∧ po_start_seqno st ≤ ck_seqno (vr_checkpoint r)
      ∧ Forall (λ x, ra_vbucket x = ck_vbucket (vr_checkpoint r)) rbs
      ∧ (∀ i x, rbs !! i = Some x → authorized policy handler (S i) x)
      ∧ (policy = PolicyStopAndReport → rbs = []).
Proof.
  intros Hh Hd Hv Hr Hrun.
  destruct (open_partition_exchange to_vec policy handler true
    (λ h n q E, proj1 (Hh h n q E)) (λ h n q _ E, proj2 (Hh h n q E)) (λ _, Hd) (λ w _, Hv w)
    r c) as (H1 & H2 & _ & sent & H3).
  rewrite Hrun in *. cbn [fst snd] in *. split_and!; [done|by apply H2|by exists sent|].
  intros st rbs ->. apply open_loop_ok in Hrun as (new & -> & Hch & Hof & Hlen & Hvb & Hau);
    [|done|lia]. cbn [app] in *. split_and!; try done.
  - by eapply rollback_chain_le.
  - intros ->. destruct new as [|x new]; [done|]. by destruct (Hau 0%nat x eq_refl).
Qed.

(** ** A sample open: one rollback, then success on an older branch. *)
Definition sample_vr : VBucketStreamRequest :=
  mkVBucketStreamRequest (mkCheckpoint None 3 7 40 40 40 None) u64_max STREAM_ACTIVE_ONLY None.
Definition reply (op : Opcode) (st : Status) (id : Z) (v : bytes) : ReadEvent :=
  RFrame (set_opaque id (set_value v (response op st))) 0.
Definition sample_link : KvConnection :=
  from_io "127.0.0.1:11210" (from_secs 1) 0
    [reply OP_DCP_STREAM_REQUEST STATUS_ROLLBACK 1 (put_u64 20);
     reply OP_DCP_GET_FAILOVER_LOG STATUS_SUCCESS 2 (mjoin (failover_layout <$> sample_log));
     reply OP_DCP_STREAM_REQUEST STATUS_SUCCESS 3 (mjoin (failover_layout <$> sample_log))] [].
Definition no_json : WireFilter → res string bytes := λ _, Err "no serializer".

Lemma open_partition_correct_witness :
  let run := open_partition (H:=stored_only) no_json PolicyRewindAndReplay None sample_vr
    sample_link in
  ∃ st rbs, run.1 = Done (Ok (st, rbs)) ∧ po_start_seqno st = 20
    ∧ rbs = [mkRollbackApplied 3 40 20 5] ∧ rollback_chain 40 20 rbs.
Proof.
  intros run.
  destruct (open_partition_correct (H:=stored_only) no_json PolicyRewindAndReplay None sample_vr
    sample_link run.1 run.2) as (_ & _ & _ & Hok);
    [by intros|by intros|by intros|vm_compute; intuition discriminate|apply surjective_pairing|].
  assert (run.1 = Done (Ok (mkPartitionOpenState (mkCheckpoint None 3 7 20 20 20 None) 3 20
    u64_max 7 None 3, [mkRollbackApplied 3 40 20 5]))) as Hr by (vm_compute; reflexivity).
  eexists _, _. split; [exact Hr|]. split_and!; [reflexivity..|].
  destruct (Hok _ _ Hr) as (_ & _ & Hch & _). exact Hch.
Defined.
