(* ===== verification/Bootstrap.v ===== *)
(** * Session bootstrap ([rust-dcp-core/src/bootstrap.rs])

    HELLO negotiation, authentication and bucket selection on a KV connection, then the DCP
    open and its controls.  Dialing a seed ([KvConnection::connect]) is the parameter
    [dial], random bytes the parameter [nonce]. *)
From S2P Require Import Prelude Text Types Frame Codec Dcp Command Errors Event Checkpoint.
From S2P Require Import Config Async Transport Topology Cccp Settings Auth Stream.

Definition REQUESTED_HELLO_FEATURES : list HelloFeature :=
  [HfDatatype; HfTls; HfSeqNo; HfXattr; HfExtendedErrors; HfSelectBucket; HfSnappy; HfJson;
   HfDuplex; HfClusterMapNotifications; HfAltRequest; HfCollections; HfSnappyEverywhere].

(** A connection with what was negotiated on it: a normal KV session, and one opened for
    DCP. *)
Record KvSession : Type := mkKvSession {
  ks_capabilities : BootstrapCapabilities;
  ks_connection : KvConnection
}.
Record DcpConnection : Type := mkDcpConnection {
  bs_capabilities : BootstrapCapabilities;
  bs_connection : KvConnection
}.

Definition validate_name (kind name : string) : result unit :=
  if bool_decide (trim name = "") then
    Err (InvalidConfiguration (kind +:+ " name must not be empty"))
  else Ok tt.

(** ** Responses *)
Definition ensure_opcode (response : Frame) (expected : Opcode) : result unit :=
  if negb (magic_is_response (magic response)) || negb (opcode response =? expected) then
    Err (Protocol (MalformedFrame ("expected response opcode 0x" +:+ hex_pad2 expected
      +:+ ", got magic 0x" +:+ hex_pad2 (magic_as_u8 (magic response)) +:+ " opcode 0x"
      +:+ hex_pad2 (opcode response))))
  else Ok tt.
Definition server_status_error (response : Frame) (context : string) : DcpError :=
  let detail := from_utf8_lossy (value response) in
  DcpServerStatus (status response) (opcode response)
    (if bool_decide (detail = "") then context else context +:+ ": " +:+ detail).
Definition ensure_success (response : Frame) (expected : Opcode) (context : string)
    : result unit :=
  do? ensure_opcode response expected in
  if status_is_success (status response) then Ok tt
  else Err (server_status_error response context).

(** [chunks_exact(2)]: features this client does not know are left out. *)
Fixpoint known_features (bs : bytes) : list HelloFeature :=
  match bs with
  | a :: b :: bs =>
      match feature_from_u16 (from_be_bytes [a; b]) with
      | Some f => f :: known_features bs
      | None => known_features bs
      end
  | _ => []
  end.
Definition parse_hello_features (response : Frame) : result (list HelloFeature) :=
  if negb (len (value response) `mod` 2 =? 0) then
    Err (Protocol (MalformedFrame ("HELLO response feature payload has odd length "
      +:+ pretty (len (value response)))))
  else Ok (known_features (value response)).

Definition priority_name (p : DcpPriority) : string :=
  match p with PriorityLow => "low" | PriorityMedium => "medium" | PriorityHigh => "high" end.
(** [as_secs().max(1)] *)
Definition duration_seconds (d : Duration) : string := pretty (Z.max (d / 1000000000) 1).

Section Bootstrap.
Context `{ScramCrypto} `{Snappy}.

Definition control_required (key v : string) : io KvConnection unit :=
  let! response := conn_request (dcp_control key v 0) in
  io_lift (ensure_success response OP_DCP_CONTROL ("DCP control " +:+ key)).

Definition control_optional (key v : string) : io KvConnection bool :=
  let! response := conn_request (dcp_control key v 0) in
  do! io_lift (ensure_opcode response OP_DCP_CONTROL) in
  if status_is_success (status response) then io_ret true
  else if (status response =? STATUS_INVALID_ARGUMENTS)
          || (status response =? STATUS_UNKNOWN_COMMAND)
          || (status response =? STATUS_NOT_SUPPORTED) then io_ret false
  else io_lift (Err (server_status_error response ("DCP control " +:+ key))).

(** ** On an established connection *)

(** The steps of [bootstrap_kv_on_connection] up to the session. *)
Definition negotiate_kv (nonce : string + bytes) (config : DcpConfig) (client_name : string)
    : io KvConnection BootstrapCapabilities :=
  do! io_lift (config_validate config) in
  do! io_lift (validate_name "HELLO client" client_name) in
  let! hello_response := conn_request (hello client_name REQUESTED_HELLO_FEATURES 0) in
  do! io_lift (ensure_success hello_response OP_HELLO "HELLO feature negotiation") in
  let! hello_features := io_lift (parse_hello_features hello_response) in
  do! io_modify (set_collections_enabled (bool_decide (HfCollections ∈ hello_features))) in
  do! io_modify (set_snappy_enabled
        (bool_decide (HfSnappy ∈ hello_features) || bool_decide (HfSnappyEverywhere ∈ hello_features))) in
  let! sasl_mechanism := authenticate nonce (dc_credentials config) in
  let! response := conn_request (select_bucket (dc_bucket config) 0) in
  do! io_lift (ensure_success response OP_SELECT_BUCKET "bucket selection") in
  io_ret (mkBootstrapCapabilities hello_features sasl_mechanism []).

(** Running the steps on a connection that is owned, and given back in a session. *)
Definition on_connection {A B} (m : io KvConnection A) (session : A → KvConnection → B)
    (connection : KvConnection) : outcome B :=
  match m connection with
  | (Done (Ok a), c) => Done (Ok (session a c))
  | (Done (Err e), _) => Done (Err e)
  | (Done Panic, _) => Done Panic
  | (Hang, _) => Hang
  end.

Definition bootstrap_kv_on_connection (nonce : string + bytes) (config : DcpConfig)
    (client_name : string) : KvConnection → outcome KvSession :=
  on_connection (negotiate_kv nonce config client_name) mkKvSession.

Definition when {A} (b : bool) (m : io KvConnection A) (otherwise : A) : io KvConnection A :=
  if b then m else io_ret otherwise.

Definition negotiate_dcp (nonce : string + bytes) (config : DcpConfig)
    (client_name connection_name : string) : io KvConnection BootstrapCapabilities :=
  do! io_lift (validate_name "DCP connection" connection_name) in
  let! capabilities := negotiate_kv nonce config client_name in
  let open_flags :=
    if supports capabilities HfXattr then bitor 0 OPEN_INCLUDE_XATTRS else 0 in
  let! response := conn_request (dcp_open connection_name open_flags 0) in
  do! io_lift (ensure_success response OP_DCP_OPEN "DCP connection open") in
  do! control_required "enable_noop" "true" in
  do! control_required "set_noop_interval"
        (duration_seconds (fc_noop_interval (dc_flow_control config))) in
  do! control_required "set_priority" (priority_name (dc_priority config)) in
  let! change_streams := when (negb (dc_disable_change_streams config))
                           (control_optional "change_streams" "true") false in
  let! expiry_opcode := control_optional "enable_expiry_opcode" "true" in
  let! stream_id := when (supports capabilities HfCollections)
                      (control_optional "enable_stream_id" "true") false in
  do! control_required "connection_buffer_size"
        (pretty (fc_connection_buffer_size (dc_flow_control config))) in
  let! stream_end_on_close :=
    control_optional "send_stream_end_on_client_close_stream" "true" in
  let dcp_controls := omap (λ '(enabled, feature), if enabled : bool then Some feature else None)
    [(stream_end_on_close, StreamEndOnClose); (change_streams, ChangeStreams);
     (expiry_opcode, ExpiryOpcode); (stream_id, ControlStreamId)] in
  io_ret (mkBootstrapCapabilities (bc_hello_features capabilities)
            (bc_sasl_mechanism capabilities) dcp_controls).

Definition bootstrap_on_connection (nonce : string + bytes) (config : DcpConfig)
    (client_name connection_name : string) : KvConnection → outcome DcpConnection :=
  on_connection (negotiate_dcp nonce config client_name connection_name) mkDcpConnection.

(** ** Over the seeds *)

(** The first seed that bootstraps, or the failures of all of them. *)
Fixpoint try_seeds {A} (tls : bool) (dial : SeedAddress → outcome KvConnection)
    (bootstrap : KvConnection → outcome A) (seeds : list SeedAddress) (failures : list string)
    : outcome A :=
  match seeds with
  | [] => Done (Err (Topology ("all KV seeds failed bootstrap: " +:+ join "; " failures)))
  | seed :: seeds =>
      let peer := with_default_kv_port seed tls in
      let failed e :=
        try_seeds tls dial bootstrap seeds (failures ++ [peer +:+ ": " +:+ dcp_error_to_string e]) in
      match dial seed with
      | Done (Ok connection) =>
          match bootstrap connection with
          | Done (Err e) => failed e
          | o => o
          end
      | Done (Err e) => failed e
      | Done Panic => Done Panic
      | Hang => Hang
      end
  end.

Definition checked {A} (r : result unit) (k : outcome A) : outcome A :=
  match r with Ok _ => k | Err e => Done (Err e) | Panic => Done Panic end.

Definition bootstrap_connection (dial : SeedAddress → outcome KvConnection)
    (nonce : string + bytes) (config : DcpConfig) (client_name connection_name : string)
    : outcome DcpConnection :=
  checked (config_validate config)
    (checked (validate_name "HELLO client" client_name)
      (checked (validate_name "DCP connection" connection_name)
        (try_seeds (tls_enabled (dc_tls config)) dial
           (bootstrap_on_connection nonce config client_name connection_name)
           (dc_seeds config) []))).

Definition bootstrap_kv_connection (dial : SeedAddress → outcome KvConnection)
    (nonce : string + bytes) (config : DcpConfig) (client_name : string) : outcome KvSession :=
  checked (config_validate config)
    (checked (validate_name "HELLO client" client_name)
      (try_seeds (tls_enabled (dc_tls config)) dial
         (bootstrap_kv_on_connection nonce config client_name) (dc_seeds config) [])).
End Bootstrap.

(** ** Lemmas *)
Lemma config_validate_no_panic c : config_validate c ≠ Panic.
Proof.
  assert (collection_filter_validate (dc_collections c) ≠ Panic) as Hf.
  { assert (∀ k n, config_validate_collection_name k n ≠ Panic) as Hn
      by (intros; unfold config_validate_collection_name; by repeat case_match).
    unfold collection_filter_validate. apply let_no_panic; [apply Hn|intros _].
    apply let_no_panic; [apply for_res_no_panic; intros; apply Hn|intros _]. by case_match. }
  unfold config_validate. repeat (case_match; [done|]).
  apply let_no_panic; [done|intros _].
  apply let_no_panic; [unfold flow_control_validate; by repeat case_match|intros _].
  apply let_no_panic; [unfold checkpoint_config_validate; by repeat case_match|intros _].
  apply let_no_panic; [unfold rollback_mitigation_validate; by repeat case_match|intros _].
  apply let_no_panic; [unfold health_check_validate; by repeat case_match|done].
Qed.

Section Lemmas.
Context `{ScramCrypto} `{Snappy}.

Lemma bootstrap_success_no_panic f o x : ensure_opcode f o ≠ Panic ∧ ensure_success f o x ≠ Panic.
Proof. unfold ensure_success, ensure_opcode. by destruct (_ || _); cbn; [|case_match]. Qed.

Lemma control_required_total k v : io_total (control_required k v).
Proof.
  apply io_total_bind; [apply conn_request_ends|intros f].
  apply io_total_lift, bootstrap_success_no_panic.
Qed.
Lemma control_optional_total k v : io_total (control_optional k v).
Proof.
  apply io_total_bind; [apply conn_request_ends|intros f].
  apply io_total_bind; [apply io_total_lift, (bootstrap_success_no_panic f _ "")|intros _].
  repeat case_match; by apply io_total_lift.
Qed.
Lemma negotiate_kv_total nonce config name : io_total (negotiate_kv nonce config name).
Proof.
  unfold negotiate_kv.
  apply io_total_bind; [apply io_total_lift, config_validate_no_panic|intros _].
  apply io_total_bind; [apply io_total_lift; unfold validate_name; by case_match|intros _].
  apply io_total_bind; [apply conn_request_ends|intros f].
  apply io_total_bind; [apply io_total_lift, bootstrap_success_no_panic|intros _].
  apply io_total_bind; [apply io_total_lift; unfold parse_hello_features; by case_match|intros fs].
  apply io_total_bind; [apply io_total_modify|intros _].
  apply io_total_bind; [apply io_total_modify|intros _].
  apply io_total_bind; [apply authenticate_total|intros m].
  apply io_total_bind; [apply conn_request_ends|intros g].
  apply io_total_bind; [apply io_total_lift, bootstrap_success_no_panic|intros _].
  apply io_total_ret.
Qed.
Lemma negotiate_dcp_total nonce config client_name connection_name :
  io_total (negotiate_dcp nonce config client_name connection_name).
Proof.
  unfold negotiate_dcp, when.
  apply io_total_bind; [apply io_total_lift; unfold validate_name; by case_match|intros _].
  apply io_total_bind; [apply negotiate_kv_total|intros caps].
  apply io_total_bind; [apply conn_request_ends|intros f].
  apply io_total_bind; [apply io_total_lift, bootstrap_success_no_panic|intros _].
  do 3 (apply io_total_bind; [apply control_required_total|intros _]).
  apply io_total_bind; [case_match; [apply control_optional_total|apply io_total_ret]|intros cs].
  apply io_total_bind; [apply control_optional_total|intros eo].
  apply io_total_bind; [case_match; [apply control_optional_total|apply io_total_ret]|intros si].
  apply io_total_bind; [apply control_required_total|intros _].
  apply io_total_bind; [apply control_optional_total|intros se]. apply io_total_ret.
Qed.

(** *** What a successful exchange sends and leaves alone *)

Lemma ensure_opcode_ok f o u :
  ensure_opcode f o = Ok u → magic_is_response (magic f) = true ∧ opcode f = o.
Proof.
  unfold ensure_opcode. destruct (magic_is_response (magic f)); [|done].
  by destruct (Z.eqb_spec (opcode f) o).
Qed.
Lemma ensure_success_ok f o text u : ensure_success f o text = Ok u → granted f o.
Proof.
  unfold ensure_success, granted. destruct (ensure_opcode f o) as [x| |] eqn:Ho; [|done..].
  apply ensure_opcode_ok in Ho as [-> ->]. by destruct (status_is_success (status f)).
Qed.

Lemma sends_control_required k v :
  sends (control_required k v)
    (λ _ l, ∃ f, l = [(dcp_control k v 0, f)] ∧ granted f OP_DCP_CONTROL).
Proof.
  eapply sends_mono; [apply sends_then, sends_request; done|].
  intros u l (f & -> & Hok%ensure_success_ok). by exists f.
Qed.
(** An optional control is on exactly when the server granted it. *)
Definition control_reply (f : Frame) (on : bool) : Prop :=
  magic_is_response (magic f) = true ∧ opcode f = OP_DCP_CONTROL
  ∧ on = status_is_success (status f).
Lemma sends_control_optional k v :
  sends (control_optional k v) (λ r l, ∃ f, l = [(dcp_control k v 0, f)] ∧ control_reply f r).
Proof.
  intros c r c' (f & c1 & Hf & He)%io_bind_ok.
  apply io_bind_ok in He as (u & c2 & Ho & He). injection Ho as Ho <-.
  apply ensure_opcode_ok in Ho as [Hm Ho].
  apply sends_request in Hf as (L & l & E & P); [|done].
  assert (c' = c1 ∧ r = status_is_success (status f)) as [-> ->].
  { destruct (status_is_success (status f)); [by injection He as <- <-|].
    destruct (_ || _); [by injection He as <- <-|done]. }
  split; [done|]. exists l. split; [done|]. by exists f.
Qed.

(** The connection after HELLO: only the negotiated settings have changed. *)
Record negotiated (c c' : KvConnection) (features : list HelloFeature) : Prop := {
  ng_collections : collections_enabled (kc_codec c') = bool_decide (HfCollections ∈ features);
  ng_max_frame : max_frame_size (kc_codec c') = max_frame_size (kc_codec c);
  ng_snappy : kc_snappy_enabled c'
    = bool_decide (HfSnappy ∈ features) || bool_decide (HfSnappyEverywhere ∈ features);
  ng_peer : kc_peer c' = kc_peer c;
  ng_timeout : kc_request_timeout c' = kc_request_timeout c
}.
Lemma negotiated_link c c1 c2 fs : negotiated c c1 fs → same_link c1 c2 → negotiated c c2 fs.
Proof. intros [] (E1 & E2 & E3 & E4). split; congruence. Qed.

Definition hello_answer (response : Frame) (features : list HelloFeature) : Prop :=
  granted response OP_HELLO ∧ parse_hello_features response = Ok features.

(** The exchange of a KV bootstrap. *)
Definition kv_exchange (nonce : string + bytes) (config : DcpConfig) (name : string)
    (caps : BootstrapCapabilities) (l : list (Frame * Frame)) : Prop :=
  ∃ answer auth selected,
    l = (hello name REQUESTED_HELLO_FEATURES 0, answer)
        :: auth ++ [(select_bucket (dc_bucket config) 0, selected)]
    ∧ hello_answer answer (bc_hello_features caps)
    ∧ auth_exchange nonce (dc_credentials config) (bc_sasl_mechanism caps) auth
    ∧ granted selected OP_SELECT_BUCKET.

Lemma negotiate_kv_spec nonce config name c caps c' :
  negotiate_kv nonce config name c = (Done (Ok caps), c') →
  negotiated c c' (bc_hello_features caps)
  ∧ ∃ l, exchanged c c' l ∧ kv_exchange nonce config name caps (unnumbered <$> l).
Proof.
  unfold negotiate_kv. intros (? & ? & [= _ <-] & He)%io_bind_ok.
  apply io_bind_ok in He as (? & ? & [= _ <-] & He).
  apply io_bind_ok in He as (answer & c1 & Hh & He).
  apply io_bind_ok in He as ([] & ? & [= Hok%ensure_success_ok <-] & He).
  apply io_bind_ok in He as (fs & ? & [= Hfs <-] & He).
  apply io_bind_ok in He as (? & c2 & Hc & He). injection Hc as _ <-.
  apply io_bind_ok in He as (? & c3 & Hsn & He). injection Hsn as _ <-.
  apply io_bind_ok in He as (m & c4 & Ha & He).
  apply io_bind_ok in He as (g & c5 & Hb & He).
  apply io_bind_ok in He as ([] & ? & [= Hg%ensure_success_ok <-] & He). injection He as <- <-.
  apply (sends_request (hello name REQUESTED_HELLO_FEATURES 0)) in Hh as (L1 & l1 & E1 & P1); [|done].
  apply sends_authenticate in Ha as (L2 & l2 & E2 & P2).
  apply (sends_request (select_bucket (dc_bucket config) 0)) in Hb as (L3 & l3 & E3 & P3); [|done].
  split.
  - eapply negotiated_link; [|exact L3]. eapply negotiated_link; [|exact L2].
    destruct L1 as (L11 & L12 & L13 & L14). split; cbn; congruence.
  - exists (l1 ++ l2 ++ l3). split.
    + eapply exchanged_app; [exact E1|]. by eapply exchanged_app.
    + exists answer, (unnumbered <$> l2), g. rewrite !fmap_app, P1, P3. by split_and!.
Qed.

(** *** The DCP controls *)
Definition optionally {A} (b : bool) (x : A) : list A := if b then [x] else [].
(** The controls in their order; those with a feature may be refused. *)
Definition control_requests (config : DcpConfig) (collections : bool)
    : list (Frame * option DcpControlFeature) :=
  [(dcp_control "enable_noop" "true" 0, None);
   (dcp_control "set_noop_interval" (duration_seconds (fc_noop_interval (dc_flow_control config))) 0,
    None);
   (dcp_control "set_priority" (priority_name (dc_priority config)) 0, None)]
  ++ optionally (negb (dc_disable_change_streams config))
       (dcp_control "change_streams" "true" 0, Some ChangeStreams)
  ++ [(dcp_control "enable_expiry_opcode" "true" 0, Some ExpiryOpcode)]
  ++ optionally collections (dcp_control "enable_stream_id" "true" 0, Some ControlStreamId)
  ++ [(dcp_control "connection_buffer_size"
         (pretty (fc_connection_buffer_size (dc_flow_control config))) 0, None);
      (dcp_control "send_stream_end_on_client_close_stream" "true" 0, Some StreamEndOnClose)].
Definition control_answered (caps : BootstrapCapabilities)
    (q : Frame * option DcpControlFeature) (e : Frame * Frame) : Prop :=
  e.1 = q.1
  ∧ match q.2 with
    | None => granted e.2 OP_DCP_CONTROL
    | Some feature => control_reply e.2 (supports_control caps feature)
    end.

Lemma sends_when b k v : sends (when b (control_optional k v) false)
  (λ r l, Forall2 (λ q e, e.1 = q ∧ control_reply e.2 r) (optionally b (dcp_control k v 0)) l
          ∧ (r = true → b = true)).
Proof.
  destruct b; cbn.
  - eapply sends_mono; [apply sends_control_optional|].
    intros r l (f & -> & Hf). split; [|done]. by apply Forall2_cons.
  - eapply sends_mono; [apply sends_ret|]. by intros r l [-> ->].
Qed.
Lemma when_answered caps b q r x l :
  supports_control caps x = r →
  Forall2 (λ q e, e.1 = q ∧ control_reply e.2 r) (optionally b q) l →
  Forall2 (control_answered caps) (optionally b (q, Some x)) l.
Proof.
  intros Hr Hf. destruct b; [|by inversion Hf]. inversion Hf as [|? e ? ? [H1 H2] Hn]; subst.
  inversion Hn. apply Forall2_cons. by split; [|apply Forall2_nil].
Qed.

(** The controls as they are collected. *)
Definition controls_of (close streams expiry ids : bool) : list DcpControlFeature :=
  omap (λ '(enabled, feature), if enabled : bool then Some feature else None)
    [(close, StreamEndOnClose); (streams, ChangeStreams);
     (expiry, ExpiryOpcode); (ids, ControlStreamId)].
Lemma controls_of_supports fs m close streams expiry ids :
  let caps := mkBootstrapCapabilities fs m (controls_of close streams expiry ids) in
  supports_control caps StreamEndOnClose = close ∧ supports_control caps ChangeStreams = streams
  ∧ supports_control caps ExpiryOpcode = expiry ∧ supports_control caps ControlStreamId = ids.
Proof. by destruct close, streams, expiry, ids; vm_compute. Qed.

(** The exchange of a DCP bootstrap. *)
Definition dcp_exchange (nonce : string + bytes) (config : DcpConfig)
    (client_name connection_name : string) (caps : BootstrapCapabilities)
    (l : list (Frame * Frame)) : Prop :=
  let xattrs := if supports caps HfXattr then OPEN_INCLUDE_XATTRS else 0 in
  ∃ kv opened controls,
    l = kv ++ (dcp_open connection_name xattrs 0, opened) :: controls
    ∧ kv_exchange nonce config client_name caps kv
    ∧ granted opened OP_DCP_OPEN
    ∧ Forall2 (control_answered caps) (control_requests config (supports caps HfCollections)) controls
    ∧ (supports_control caps ControlStreamId = true → supports caps HfCollections = true)
    ∧ (supports_control caps ChangeStreams = true → dc_disable_change_streams config = false).

Lemma negotiate_dcp_spec nonce config client_name connection_name c caps c' :
  negotiate_dcp nonce config client_name connection_name c = (Done (Ok caps), c') →
  negotiated c c' (bc_hello_features caps)
  ∧ ∃ l, exchanged c c' l
    ∧ dcp_exchange nonce config client_name connection_name caps (unnumbered <$> l).
Proof.
  unfold negotiate_dcp. intros (? & ? & [= _ <-] & He)%io_bind_ok.
  apply io_bind_ok in He as (kv & c1 & Hkv & He).
  apply negotiate_kv_spec in Hkv as (Hng & l0 & S0 & P0).
  apply io_bind_ok in He as (f & c2 & Ho & He).
  apply (sends_request (dcp_open connection_name _ 0)) in Ho as (L1 & l1 & S1 & P1); [|done].
  apply io_bind_ok in He as ([] & ? & [= Hf%ensure_success_ok <-] & He).
  apply io_bind_ok in He as ([] & c3 & Hx & He).
  apply sends_control_required in Hx as (L2 & l2 & S2 & f2 & P2 & G2).
  apply io_bind_ok in He as ([] & c4 & Hx & He).
  apply sends_control_required in Hx as (L3 & l3 & S3 & f3 & P3 & G3).
  apply io_bind_ok in He as ([] & c5 & Hx & He).
  apply sends_control_required in Hx as (L4 & l4 & S4 & f4 & P4 & G4).
  apply io_bind_ok in He as (cs & c6 & Hx & He).
  apply sends_when in Hx as (L5 & l5 & S5 & F5 & Hcs).
  apply io_bind_ok in He as (eo & c7 & Hx & He).
  apply sends_control_optional in Hx as (L6 & l6 & S6 & f6 & P6 & G6).
  apply io_bind_ok in He as (si & c8 & Hx & He).
  apply sends_when in Hx as (L7 & l7 & S7 & F7 & Hsi).
  apply io_bind_ok in He as ([] & c9 & Hx & He).
  apply sends_control_required in Hx as (L8 & l8 & S8 & f8 & P8 & G8).
  apply io_bind_ok in He as (se & c10 & Hx & He).
  apply sends_control_optional in Hx as (L9 & l9 & S9 & f9 & P9 & G9). injection He as <- <-.
  destruct (controls_of_supports (bc_hello_features kv) (bc_sasl_mechanism kv) se cs eo si)
    as (Qse & Qcs & Qeo & Qsi).
  fold (controls_of se cs eo si). set (caps := mkBootstrapCapabilities _ _ _) in *.
  split; [do 9 (eapply negotiated_link; [|eassumption]); done|].
  exists (l0 ++ l1 ++ l2 ++ l3 ++ l4 ++ l5 ++ l6 ++ l7 ++ l8 ++ l9).
  split; [repeat (eapply exchanged_app; [eassumption|]); eassumption|].
  rewrite !fmap_app, P1, P2, P3, P4, P6, P8, P9.
  exists (unnumbered <$> l0), f, ([(dcp_control "enable_noop" "true" 0, f2)]
    ++ [(dcp_control "set_noop_interval" (duration_seconds (fc_noop_interval (dc_flow_control config))) 0, f3)]
    ++ [(dcp_control "set_priority" (priority_name (dc_priority config)) 0, f4)]
    ++ (unnumbered <$> l5) ++ [(dcp_control "enable_expiry_opcode" "true" 0, f6)]
    ++ (unnumbered <$> l7) ++ [(dcp_control "connection_buffer_size"
         (pretty (fc_connection_buffer_size (dc_flow_control config))) 0, f8);
         (dcp_control "send_stream_end_on_client_close_stream" "true" 0, f9)]).
  split_and!; [done|exact P0|done| |by rewrite Qsi|].
  - unfold control_requests. do 3 (apply Forall2_cons; split; [by split|]).
    apply Forall2_app; [by eapply when_answered|].
    apply Forall2_cons; split; [split; [done|]; cbn [fst snd]; by rewrite Qeo|].
    apply Forall2_app; [by eapply when_answered|].
    apply Forall2_cons; split; [by split|]. apply Forall2_cons; split; [|apply Forall2_nil; done].
    split; [done|]. cbn [fst snd]. by rewrite Qse.
  - rewrite Qcs. intros ->. by apply negb_true_iff, Hcs.
Qed.
End Lemmas.

(** ** The seeds *)
Section Seeds.
Context {A : Type} (dial : SeedAddress → outcome KvConnection)
        (bootstrap : KvConnection → outcome A).

Definition ends {B} (o : outcome B) : Prop := o ≠ Hang ∧ o ≠ Done Panic.
(** A seed that was tried in vain. *)
Definition seed_failed (seed : SeedAddress) : Prop :=
  (∃ e, dial seed = Done (Err e)) ∨ ∃ c e, dial seed = Done (Ok c) ∧ bootstrap c = Done (Err e).

Lemma try_seeds_spec tls seeds failures :
  (∀ s, ends (dial s)) → (∀ c, ends (bootstrap c)) →
  match try_seeds tls dial bootstrap seeds failures with
  | Done (Ok a) => ∃ before seed after c, seeds = before ++ seed :: after
      ∧ Forall seed_failed before ∧ dial seed = Done (Ok c) ∧ bootstrap c = Done (Ok a)
  | Done (Err e) => Forall seed_failed seeds
  | _ => False
  end.
Proof.
  intros Hd Hb. revert failures. induction seeds as [|seed seeds IH]; intros failures;
    cbn [try_seeds]; [done|].
  assert (∀ failures', seed_failed seed →
    match try_seeds tls dial bootstrap seeds failures' with
    | Done (Ok a) => ∃ before seed' after c, seed :: seeds = before ++ seed' :: after
        ∧ Forall seed_failed before ∧ dial seed' = Done (Ok c) ∧ bootstrap c = Done (Ok a)
    | Done (Err e) => Forall seed_failed (seed :: seeds)
    | _ => False
    end) as Hnext.
  { intros failures' Hf. specialize (IH failures').
    destruct (try_seeds _ _ _ seeds failures') as [[a|e|]|]; [|by constructor|done|done].
    destruct IH as (before & seed' & after & c & -> & Hbf & ? & ?).
    exists (seed :: before), seed', after, c. split_and!; [done|by constructor|done|done]. }
  destruct (Hd seed) as [Hd1 Hd2]. destruct (dial seed) as [[c|e|]|] eqn:Hds; [..|done|done].
  - destruct (Hb c) as [Hb1 Hb2]. destruct (bootstrap c) as [[a|e|]|] eqn:Hbc; [..|done|done].
    + exists [], seed, seeds, c. by split_and!.
    + apply Hnext. right. eauto.
  - apply Hnext. left. eauto.
Qed.
End Seeds.

Lemma on_connection_ends {A B} (m : io KvConnection A) (session : A → KvConnection → B) c :
  io_total m → ends (on_connection m session c).
Proof.
  intros Hm. destruct (Hm c) as [H1 H2]. unfold on_connection, ends.
  by destruct (m c) as [[[a|e|]|] c'].
Qed.
Lemma on_connection_ok {A B} (m : io KvConnection A) (session : A → KvConnection → B) c b :
  on_connection m session c = Done (Ok b) → ∃ a c', m c = (Done (Ok a), c') ∧ b = session a c'.
Proof.
  unfold on_connection. destruct (m c) as [[[a|e|]|] c'] eqn:Hm; [|done..]. intros [= <-]. eauto.
Qed.

Section Properties.
Context `{ScramCrypto} `{Snappy}.

(** What a DCP connection is after bootstrap. *)
Definition dcp_opened (nonce : string + bytes) (config : DcpConfig)
    (client_name connection_name : string) (c : KvConnection) (s : DcpConnection) : Prop :=
  let caps := bs_capabilities s in
  negotiated c (bs_connection s) (bc_hello_features caps)
  ∧ ∃ l, exchanged c (bs_connection s) l
    ∧ dcp_exchange nonce config client_name connection_name caps (unnumbered <$> l).

(** C26: bootstrapping always ends, with the first seed that completes every step or with an
    error after all of them failed.  A connection it returns was negotiated on that seed by
    exactly the documented sequence - HELLO, authentication, bucket selection, DCP open and
    the controls, in this order, stream IDs only with collections and change streams only
    when enabled; each request was answered under its own opaque, each required one with
    success; the features and the optional controls the client then relies on are exactly
    those the server granted; and its decoder and decompression settings are the ones the
    server accepted. *)
Theorem bootstrap_connection_correct dial nonce config client_name connection_name :
  (∀ seed, ends (dial seed)) →
  match bootstrap_connection dial nonce config client_name connection_name with
  | Done (Ok s) => ∃ before seed after c,
      dc_seeds config = before ++ seed :: after
      ∧ Forall (seed_failed dial (bootstrap_on_connection nonce config client_name connection_name))
          before
      ∧ dial seed = Done (Ok c) ∧ dcp_opened nonce config client_name connection_name c s
  | Done (Err e) =>
      config_validate config ≠ Ok tt ∨ trim client_name = "" ∨ trim connection_name = ""
      ∨ Forall (seed_failed dial (bootstrap_on_connection nonce config client_name connection_name))
          (dc_seeds config)
  | _ => False
  end.
Proof.
  intros Hd. unfold bootstrap_connection, checked.
  pose proof (config_validate_no_panic config) as Hc.
  destruct (config_validate config) as [[]|e|]; [|by left|done].
  unfold validate_name. case_bool_decide as Hn; [by right; left|]. case_bool_decide as Hk; [by right; right; left|].
  pose proof (try_seeds_spec dial (bootstrap_on_connection nonce config client_name connection_name)
    (tls_enabled (dc_tls config)) (dc_seeds config) [] Hd) as Ht.
  specialize (Ht ltac:(intros c; apply on_connection_ends, negotiate_dcp_total)).
  destruct (try_seeds _ _ _ _ _) as [[s|e|]|]; [|by do 3 right|done|done].
  destruct Ht as (before & seed & after & c & Hs & Hf & Hdial & Hb).
  exists before, seed, after, c. split_and!; [done..|].
  apply on_connection_ok in Hb as (caps & c' & Hb & ->). by apply negotiate_dcp_spec in Hb.
Qed.
End Properties.

(** ** A sample bootstrap: the first seed refuses the connection. *)
Definition sample_boot_config : DcpConfig :=
  let base := builder (mkCredentials "alice" "secret") "travel" in
  match (let? c := builder_seed "10.0.0.1" base in builder_seed "10.0.0.2" c) with
  | Ok c => c
  | _ => base
  end.
Definition sample_answers : list ReadEvent :=
  imap (λ i '(o, v), RFrame (sasl_answer o (Z.of_nat i + 1) v) (Z.of_nat i))
    [(OP_HELLO, [0; 18; 0; 6; 255; 255]); (OP_SASL_LIST_MECHS, as_bytes "PLAIN");
     (OP_SASL_AUTH, []); (OP_SELECT_BUCKET, []); (OP_DCP_OPEN, []); (OP_DCP_CONTROL, []);
     (OP_DCP_CONTROL, []); (OP_DCP_CONTROL, []); (OP_DCP_CONTROL, []); (OP_DCP_CONTROL, []);
     (OP_DCP_CONTROL, []); (OP_DCP_CONTROL, []); (OP_DCP_CONTROL, [])].
Definition sample_dial (seed : SeedAddress) : outcome KvConnection :=
  if bool_decide (seed = "10.0.0.2")
  then Done (Ok (from_io "10.0.0.2:11210" (from_secs 1) 0 sample_answers []))
  else Done (Err (DcpIo "connection refused")).

Lemma bootstrap_connection_correct_witness :
  match bootstrap_connection (H := toy_crypto) (H0 := stored_only) sample_dial (inr [])
          sample_boot_config "rust-dcp" "consumer-1" with
  | Done (Ok s) =>
      bc_hello_features (bs_capabilities s) = [HfCollections; HfXattr]
      ∧ length (kc_sent (bs_connection s)) = 13%nat
      ∧ ∃ before seed after c, dc_seeds sample_boot_config = before ++ seed :: after
          ∧ sample_dial seed = Done (Ok c)
          ∧ dcp_opened (H := toy_crypto) (H0 := stored_only) (inr []) sample_boot_config "rust-dcp" "consumer-1" c s
  | _ => False
  end.
Proof.
  assert (∀ seed, ends (sample_dial seed)) as Hd
    by (intros seed; unfold sample_dial; by destruct (bool_decide _)).
  assert (match bootstrap_connection (H := toy_crypto) (H0 := stored_only) sample_dial (inr [])
          sample_boot_config "rust-dcp" "consumer-1" with
    | Done (Ok s) => bc_hello_features (bs_capabilities s) = [HfCollections; HfXattr]
        ∧ length (kc_sent (bs_connection s)) = 13%nat
    | _ => False end) as Hv by (vm_compute; split; reflexivity).
  pose proof (bootstrap_connection_correct (H := toy_crypto) (H0 := stored_only) sample_dial (inr [])
    sample_boot_config "rust-dcp" "consumer-1" Hd) as Hb.
  destruct (bootstrap_connection _ _ _ _ _) as [[s|e|]|]; [|destruct Hv..].
  destruct Hv as [V1 V2]. destruct Hb as (before & seed & after & c & Hs & _ & Hdial & Ho).
  split; [exact V1|]. split; [exact V2|]. exists before, seed, after, c.
  split; [exact Hs|]. split; [exact Hdial|exact Ho].
Defined.
