(* ===== verification/Collections.v ===== *)
(** * The collection registry ([rust-dcp-core/src/collections.rs])

    Manifests, the resolution of configured names, and the registry that names the
    collection of every document event and follows collection system events.  The JSON
    decoder of manifests is the parameter [from_slice]. *)
From S2P Require Import Prelude Text Types Frame Codec Dcp Command Errors Event Checkpoint.
From S2P Require Import Config Async Transport Topology Cccp Settings Stream.

(** ** Manifests *)
Record ManifestCollection : Type := mkManifestCollection {
  mc_uid : Z;
  mc_name : string;
  mc_max_ttl : Z;
  mc_history : option bool
}.

Record ManifestScope : Type := mkManifestScope {
  ms_uid : Z;
  ms_name : string;
  ms_collections : list ManifestCollection
}.

Record CollectionManifest : Type := mkManifest {
  mf_uid : Z;
  mf_scopes : list ManifestScope
}.

(** The JSON shape of a manifest: identifiers are hexadecimal text. *)
Record WireCollection : Type := mkWireCollection {
  wc_uid : string;
  wc_name : string;
  wc_max_ttl : Z;
  wc_history : option bool
}.
Record WireScope : Type := mkWireScope {
  ws_uid : string;
  ws_name : string;
  ws_collections : list WireCollection
}.
Record WireManifest : Type := mkWireManifest {
  wm_uid : string;
  wm_scopes : list WireScope
}.

(** [parse_hex_u64] and [parse_hex_u32]. *)
Definition parse_hex (max : Z) (kind value : string) : result Z :=
  match from_str_radix 16 max value with
  | inr z => Ok z
  | inl error => Err (Protocol (MalformedFrame ("invalid " +:+ kind +:+ " UID "
      +:+ debug_str value +:+ ": " +:+ error)))
  end.

Definition manifest_error (message : string) : DcpError :=
  Protocol (MalformedFrame ("invalid collection manifest: " +:+ message)).

Definition collection_try_from (c : WireCollection) : result ManifestCollection :=
  let? uid := parse_hex u32_max "collection" (wc_uid c) in
  Ok (mkManifestCollection uid (wc_name c) (wc_max_ttl c) (wc_history c)).

Definition scope_try_from (s : WireScope) : result ManifestScope :=
  let? uid := parse_hex u32_max "scope" (ws_uid s) in
  let? collections := mapM_res collection_try_from (ws_collections s) in
  Ok (mkManifestScope uid (ws_name s) collections).

(** The sets [validate_identity] has seen: collection identifiers of all scopes and
    collection names of the current scope. *)
Definition validate_collection (scope : ManifestScope) (seen : gset Z * gset string)
    (c : ManifestCollection) : result (gset Z * gset string) :=
  if bool_decide (mc_uid c ∈ seen.1) then
    Err (manifest_error ("duplicate collection UID 0x" +:+ hex (mc_uid c)))
  else if bool_decide (mc_name c ∈ seen.2) then
    Err (manifest_error ("duplicate collection name " +:+ debug_str (mc_name c)
      +:+ " in scope " +:+ debug_str (ms_name scope)))
  else Ok ({[mc_uid c]} ∪ seen.1, {[mc_name c]} ∪ seen.2).

Definition validate_scope (seen : gset Z * gset string * gset Z) (scope : ManifestScope)
    : result (gset Z * gset string * gset Z) :=
  let '(scope_ids, scope_names, collection_ids) := seen in
  if bool_decide (ms_uid scope ∈ scope_ids) then
    Err (manifest_error ("duplicate scope UID 0x" +:+ hex (ms_uid scope)))
  else if bool_decide (ms_name scope ∈ scope_names) then
    Err (manifest_error ("duplicate scope name " +:+ debug_str (ms_name scope)))
  else
    let? inner := for_res (ms_collections scope) (collection_ids, ∅)
      (validate_collection scope) in
    Ok ({[ms_uid scope]} ∪ scope_ids, {[ms_name scope]} ∪ scope_names, inner.1).

Definition validate_identity (m : CollectionManifest) : result unit :=
  do? for_res (mf_scopes m) (∅, ∅, ∅) validate_scope in Ok tt.

Definition manifest_from_wire (w : WireManifest) : result CollectionManifest :=
  let? uid := parse_hex u64_max "manifest" (wm_uid w) in
  let? scopes := mapM_res scope_try_from (wm_scopes w) in
  let m := mkManifest uid scopes in
  do? validate_identity m in
  Ok m.

(** ** Resolution *)
Record ResolvedCollectionFilter : Type := mkResolved {
  rc_manifest_uid : Z;
  rc_scope_id : Z;
  rc_collection_ids : list Z;
  rc_collection_names : gmap Z string;
  rc_stream_filter : StreamFilter
}.

Record CollectionSelection : Type := mkSelection {
  cs_resolved : option ResolvedCollectionFilter;
  cs_legacy_collection_name : option string
}.

Definition find_scope (m : CollectionManifest) (name : string) : option ManifestScope :=
  List.find (λ s, bool_decide (ms_name s = name)) (mf_scopes m).
Definition find_collection (s : ManifestScope) (name : string) : option ManifestCollection :=
  List.find (λ c, bool_decide (mc_name c = name)) (ms_collections s).

Definition resolve_name (m : CollectionManifest) (scope : ManifestScope)
    (acc : list Z * gmap Z string) (name : string) : result (list Z * gmap Z string) :=
  let? c := ok_or (find_collection scope name)
    (InvalidConfiguration ("collection " +:+ debug_str (ms_name scope) +:+ "." +:+ debug_str name
      +:+ " is not present in manifest 0x" +:+ hex (mf_uid m))) in
  Ok (acc.1 ++ [mc_uid c], <[mc_uid c := mc_name c]> acc.2).

Definition manifest_resolve (m : CollectionManifest) (configured : CollectionFilter)
    (stream_id : option Z) : result ResolvedCollectionFilter :=
  do? collection_filter_validate configured in
  let? scope := ok_or (find_scope m (cf_scope configured))
    (InvalidConfiguration ("scope " +:+ debug_str (cf_scope configured)
      +:+ " is not present in collection manifest 0x" +:+ hex (mf_uid m))) in
  let? resolved :=
    (match cf_collections configured with
     | [] => Ok ([], btree_collect ((λ c, (mc_uid c, mc_name c)) <$> ms_collections scope))
     | names => for_res names ([], ∅) (resolve_name m scope)
     end) in
  let '(collection_ids, collection_names) := resolved in
  Ok (mkResolved (mf_uid m) (ms_uid scope) collection_ids collection_names
        (mkStreamFilter
           (if bool_decide (cf_collections configured = []) then Some (ms_uid scope) else None)
           collection_ids None stream_id)).

Definition resolved_collection_name (r : ResolvedCollectionFilter) (id : Z) : option string :=
  rc_collection_names r !! id.

Definition selection_collection_name (s : CollectionSelection) (id : option Z)
    : option string :=
  match id, cs_resolved s with
  | Some id, Some r => resolved_collection_name r id
  | None, None => cs_legacy_collection_name s
  | _, _ => None
  end.

Definition selection_stream_filter (s : CollectionSelection) : option StreamFilter :=
  rc_stream_filter <$> cs_resolved s.

Definition high_seqno_collection_ids (s : CollectionSelection) : option (list Z) :=
  match cs_resolved s with
  | Some r => if bool_decide (rc_collection_ids r = []) then None else Some (rc_collection_ids r)
  | None => None
  end.

(** ** The registry *)
Record RegistryState : Type := mkRegistryState {
  rg_selection : CollectionSelection;
  rg_observed_manifest_uid : option Z;
  rg_stale : bool
}.

(** The state behind its [RwLock], which a panic of the writer poisons. *)
Record CollectionRegistry : Type := mkRegistry {
  rg_state : RegistryState;
  rg_poisoned : bool
}.

Definition registry_new (selection : CollectionSelection) : CollectionRegistry :=
  mkRegistry (mkRegistryState selection (rc_manifest_uid <$> cs_resolved selection) false) false.

Definition parse_system_event_name (key : bytes) : result string :=
  match from_utf8 key with
  | None => Err (Collection ("system-event name is not UTF-8: " +:+ utf8_error key))
  | Some name =>
      if bool_decide (name = "") || (251 <? str_len name)
         || negb (forallb is_collection_char (as_bytes name)) then
        Err (Collection ("system-event collection name " +:+ debug_str name
          +:+ " violates Couchbase naming rules"))
      else Ok name
  end.

Definition set_names (names : gmap Z string) (r : ResolvedCollectionFilter)
    : ResolvedCollectionFilter :=
  mkResolved (rc_manifest_uid r) (rc_scope_id r) (rc_collection_ids r) names
    (rc_stream_filter r).

(** The arm of [CollectionCreated] for a scope subscription. *)
Definition register_name (id : Z) (name : string) (names : gmap Z string)
    : result (gmap Z string) :=
  do? (match names !! id with
       | Some existing =>
           if bool_decide (existing = name) then Ok tt
           else Err (Collection ("collection ID 0x" +:+ hex id +:+ " changed name from "
                  +:+ debug_str existing +:+ " to " +:+ debug_str name))
       | None => Ok tt
       end) in
  match List.find (λ e, negb (e.1 =? id) && bool_decide (e.2 = name)) (btree_to_list names) with
  | Some (existing_id, _) =>
      Err (Collection ("collection name " +:+ debug_str name +:+ " is already mapped to ID 0x"
        +:+ hex existing_id))
  | None => Ok (<[id := name]> names)
  end.

(** The arm of [CollectionDropped] for the selected scope. *)
Definition unregister_name (id : Z) (r : ResolvedCollectionFilter) : result (gmap Z string) :=
  let was_selected := bool_decide (rc_collection_ids r = []) || bool_decide (id ∈ rc_collection_ids r) in
  if bool_decide (rc_collection_names r !! id = None) && was_selected then
    Err (Collection ("dropped collection ID 0x" +:+ hex id +:+ " was absent from the registry"))
  else Ok (delete id (rc_collection_names r)).

(** What a system event makes of the names, and whether it leaves them incomplete.  The
    arms that fail do so before they change anything. *)
Definition apply_kind (e : SystemEvent) (r : ResolvedCollectionFilter)
    : result (gmap Z string * bool) :=
  let names := rc_collection_names r in
  match sys_kind e with
  | CollectionCreated scope_id collection_id _ =>
      if (scope_id =? rc_scope_id r) && bool_decide (rc_collection_ids r = []) then
        let? name := parse_system_event_name (sys_key e) in
        let? names := register_name collection_id name names in
        Ok (names, false)
      else Ok (names, false)
  | CollectionDropped scope_id collection_id =>
      if scope_id =? rc_scope_id r then
        let? names := unregister_name collection_id r in
        Ok (names, false)
      else Ok (names, false)
  | ScopeDropped scope_id =>
      if scope_id =? rc_scope_id r then Ok (∅, false) else Ok (names, false)
  | UnknownEvent _ _ => Ok (names, true)
  | _ => Ok (names, false)
  end.

Definition apply_system_event (e : SystemEvent) (s : RegistryState) : result RegistryState :=
  let? observed := ok_or (rg_observed_manifest_uid s)
    (Collection "received a collection system event on a legacy stream") in
  if sys_manifest_uid e <=? observed then Ok s
  else
    match cs_resolved (rg_selection s) with
    | None => Panic
    | Some r =>
        let? applied := apply_kind e r in
        Ok (mkRegistryState
              (mkSelection (Some (set_names applied.1 r))
                 (cs_legacy_collection_name (rg_selection s)))
              (Some (sys_manifest_uid e)) (rg_stale s || applied.2))
    end.

Definition required_collection_name (selection : CollectionSelection) (id : option Z)
    : result string :=
  ok_or (selection_collection_name selection id)
    (Collection ("event collection ID " +:+ debug_option pretty id
      +:+ " is outside the resolved stream selection")).

Definition poisoned_registry : DcpError := Collection "collection registry state was poisoned".

Definition set_mutation_name (n : string) (e : DcpMutation) : DcpMutation :=
  mkDcpMutation (mut_vbucket e) (mut_seqno e) (mut_rev_seqno e) (mut_flags e) (mut_expiry e)
    (mut_lock_time e) (mut_cas e) (mut_datatype e) (mut_collection_id e) (Some n) (mut_key e)
    (mut_value e).
Definition set_deletion_name (n : string) (e : DcpDeletion) : DcpDeletion :=
  mkDcpDeletion (del_vbucket e) (del_seqno e) (del_rev_seqno e) (del_delete_time e) (del_cas e)
    (del_collection_id e) (Some n) (del_key e) (del_value e) (del_datatype e).
Definition set_expiration_name (n : string) (e : DcpExpiration) : DcpExpiration :=
  mkDcpExpiration (exp_vbucket e) (exp_seqno e) (exp_rev_seqno e) (exp_delete_time e) (exp_cas e)
    (exp_collection_id e) (Some n) (exp_key e) (exp_value e) (exp_datatype e).

Definition decorate_document (selection : CollectionSelection) (e : DcpEvent)
    : result DcpEvent :=
  match e with
  | EMutation m =>
      let? n := required_collection_name selection (mut_collection_id m) in
      Ok (EMutation (set_mutation_name n m))
  | EDeletion m =>
      let? n := required_collection_name selection (del_collection_id m) in
      Ok (EDeletion (set_deletion_name n m))
  | EExpiration m =>
      let? n := required_collection_name selection (exp_collection_id m) in
      Ok (EExpiration (set_expiration_name n m))
  | e => Ok e
  end.

Definition decorate (e : DcpEvent) (g : CollectionRegistry)
    : result DcpEvent * CollectionRegistry :=
  if rg_poisoned g then (Err poisoned_registry, g)
  else
    match e with
    | ESystemEvent se =>
        match apply_system_event se (rg_state g) with
        | Ok s => (Ok e, mkRegistry s false)
        | Err error => (Err error, g)
        | Panic => (Panic, mkRegistry (rg_state g) true)
        end
    | e => (decorate_document (rg_selection (rg_state g)) e, g)
    end.

Record CollectionRegistryStatus : Type := mkRegistryStatus {
  rst_manifest_uid : option Z;
  rst_stale : bool
}.
Definition registry_status (g : CollectionRegistry) : result CollectionRegistryStatus :=
  if rg_poisoned g then Err poisoned_registry
  else Ok (mkRegistryStatus (rg_observed_manifest_uid (rg_state g)) (rg_stale (rg_state g))).

(** [CollectionStream::poll_next] on an item the inner stream yields. *)
Definition collection_item (item : result DcpStreamItem) (g : CollectionRegistry)
    : result DcpStreamItem * CollectionRegistry :=
  match item with
  | Ok (ItemEvent e) => let '(r, g') := decorate e g in (res_map ItemEvent r, g')
  | other => (other, g)
  end.

(** ** Queries over a connection *)
Section Queries.
Context `{Snappy} (from_slice : bytes → string + WireManifest).

(** A JSON error is the [Json] protocol error. *)
Definition manifest_parse (payload : bytes) : result CollectionManifest :=
  match from_slice payload with
  | inl error => Err (Protocol (Json error))
  | inr w => manifest_from_wire w
  end.

Definition fetch_collection_manifest : io KvConnection CollectionManifest :=
  let! response := conn_request (get_collection_manifest 0) in
  let! payload := io_lift (from_protocol (parse_collection_manifest response)) in
  io_lift (manifest_parse payload).

Definition resolve_collection_id (scope collection : string) : io KvConnection CollectionId :=
  let! request := io_lift (from_protocol (get_collection_id scope collection 0)) in
  let! response := conn_request request in
  io_lift (from_protocol (parse_collection_id response)).

Definition default_collection (configured : CollectionFilter) : bool :=
  bool_decide (cf_scope configured = "_default")
  && (bool_decide (cf_collections configured = [])
      || bool_decide (cf_collections configured = ["_default"])).

Definition resolve_collection_selection (capabilities : BootstrapCapabilities)
    (configured : CollectionFilter) (stream_id : option Z)
    : io KvConnection CollectionSelection :=
  do! io_lift (collection_filter_validate configured) in
  if bool_decide (is_Some stream_id) && negb (supports_control capabilities ControlStreamId) then
    io_lift (Err (Unsupported "stream ID requested but enable_stream_id was not accepted"))
  else if supports capabilities HfCollections then
    let! manifest := fetch_collection_manifest in
    let! resolved := io_lift (manifest_resolve manifest configured stream_id) in
    io_ret (mkSelection (Some resolved) None)
  else if negb (default_collection configured) then
    io_lift (Err (Unsupported ("server did not negotiate collections required by scope "
      +:+ debug_str (cf_scope configured) +:+ " and collections "
      +:+ debug_list debug_str (cf_collections configured))))
  else io_ret (mkSelection None (Some "_default")).

(** One collection's answer, merged by maximum. *)
Definition merge_high (merged answer : gmap Z Z) : gmap Z Z :=
  union_with (λ a b, Some (Z.max a b)) merged answer.

Fixpoint fetch_merged (ids : list Z) (merged : gmap Z Z) : io KvConnection (gmap Z Z) :=
  match ids with
  | [] => io_ret merged
  | id :: ids =>
      let! answer := fetch_active_high_seqnos (Some id) in
      fetch_merged ids (merge_high merged answer)
  end.

Definition fetch_selection_high_seqnos (selection : CollectionSelection)
    : io KvConnection (gmap Z Z) :=
  match high_seqno_collection_ids selection with
  | None => fetch_active_high_seqnos None
  | Some ids => fetch_merged ids ∅
  end.
End Queries.

(** ** Lemmas: manifests *)

Definition manifest_ids (m : CollectionManifest) : list Z :=
  mf_scopes m ≫= (λ s, mc_uid <$> ms_collections s).

(** Identities are unique: scopes by identifier and by name, collections by identifier in
    the whole manifest and by name in their scope. *)
Definition manifest_wf (m : CollectionManifest) : Prop :=
  NoDup (ms_uid <$> mf_scopes m) ∧ NoDup (ms_name <$> mf_scopes m)
  ∧ NoDup (manifest_ids m)
  ∧ Forall (λ s, NoDup (mc_name <$> ms_collections s)) (mf_scopes m).

Lemma validate_collections_ok scope l seen seen' :
  for_res l seen (validate_collection scope) = Ok seen' →
  NoDup (mc_uid <$> l) ∧ NoDup (mc_name <$> l)
  ∧ (∀ x, x ∈ mc_uid <$> l → x ∉ seen.1) ∧ (∀ x, x ∈ mc_name <$> l → x ∉ seen.2)
  ∧ seen'.1 = list_to_set (mc_uid <$> l) ∪ seen.1.
Proof.
  revert seen. induction l as [|c l IH]; intros seen; cbn [for_res].
  { intros [= <-]. split_and!; [constructor..| | |set_solver]; by intros ? ?%elem_of_nil. }
  unfold validate_collection at 1. case_bool_decide as H1; [done|]. case_bool_decide as H2; [done|].
  intros (Hu & Hn & Hus & Hns & ->)%IH. cbn [fst snd] in *. rewrite !fmap_cons. split_and!.
  - apply NoDup_cons. split; [|done]. intros Hc%Hus. set_solver.
  - apply NoDup_cons. split; [|done]. intros Hc%Hns. set_solver.
  - intros x [-> |Hx]%elem_of_cons; [done|]. apply Hus in Hx. set_solver.
  - intros x [-> |Hx]%elem_of_cons; [done|]. apply Hns in Hx. set_solver.
  - cbn [list_to_set foldr]. set_solver.
Qed.

Lemma validate_scopes_ok l : ∀ ids names cids seen',
  for_res l (ids, names, cids) validate_scope = Ok seen' →
  NoDup (ms_uid <$> l) ∧ NoDup (ms_name <$> l)
  ∧ NoDup (l ≫= (λ s, mc_uid <$> ms_collections s))
  ∧ Forall (λ s, NoDup (mc_name <$> ms_collections s)) l
  ∧ (∀ x, x ∈ ms_uid <$> l → x ∉ ids) ∧ (∀ x, x ∈ ms_name <$> l → x ∉ names)
  ∧ (∀ x, x ∈ l ≫= (λ s, mc_uid <$> ms_collections s) → x ∉ cids).
Proof.
  induction l as [|s l IH]; intros ids names cids seen'; cbn [for_res].
  { intros _. split_and!; try constructor; by intros ? ?%elem_of_nil. }
  unfold validate_scope at 1. case_bool_decide as H1; [done|]. case_bool_decide as H2; [done|].
  destruct (for_res (ms_collections s) _ _) as [[cids' ns]|e|] eqn:Hc; [|done..].
  apply validate_collections_ok in Hc as (Hu & Hn & Hus & _ & Heq). cbn [fst snd] in *. subst cids'.
  intros (A & B & C & D & E & F & G)%IH. rewrite !fmap_cons, bind_cons. split_and!.
  - apply NoDup_cons. split; [|done]. intros Hx%E. set_solver.
  - apply NoDup_cons. split; [|done]. intros Hx%F. set_solver.
  - apply NoDup_app. split_and!; [done| |done]. intros x Hx Hx'%G. apply Hx'.
    apply elem_of_union. left. by apply elem_of_list_to_set.
  - by constructor.
  - intros x [-> |Hx]%elem_of_cons; [done|]. apply E in Hx. set_solver.
  - intros x [-> |Hx]%elem_of_cons; [done|]. apply F in Hx. set_solver.
  - intros x [Hx|Hx]%elem_of_app; [by apply Hus|]. apply G in Hx. set_solver.
Qed.

Lemma validate_identity_ok m : validate_identity m = Ok tt → manifest_wf m.
Proof.
  unfold validate_identity. destruct (for_res _ _ _) as [seen|e|] eqn:Hs; [|done..]. intros _.
  apply validate_scopes_ok in Hs as (? & ? & ? & ? & _). by split_and!.
Qed.

Lemma parse_hex_no_panic max kind v : parse_hex max kind v ≠ Panic.
Proof. unfold parse_hex. by destruct (from_str_radix 16 max v). Qed.

Lemma manifest_from_wire_wf w :
  match manifest_from_wire w with
  | Ok m => manifest_wf m
  | Err _ => True
  | Panic => False
  end.
Proof.
  unfold manifest_from_wire. pose proof (parse_hex_no_panic u64_max "manifest" (wm_uid w)).
  destruct (parse_hex u64_max "manifest" (wm_uid w)) as [uid|e|]; [|done..].
  assert (mapM_res scope_try_from (wm_scopes w) ≠ Panic) as Hp.
  { apply mapM_res_no_panic. intros s _. unfold scope_try_from.
    pose proof (parse_hex_no_panic u32_max "scope" (ws_uid s)).
    destruct (parse_hex u32_max "scope" (ws_uid s)); [|done..].
    assert (mapM_res collection_try_from (ws_collections s) ≠ Panic).
    { apply mapM_res_no_panic. intros c _. unfold collection_try_from.
      pose proof (parse_hex_no_panic u32_max "collection" (wc_uid c)).
      by destruct (parse_hex u32_max "collection" (wc_uid c)). }
    by destruct (mapM_res collection_try_from (ws_collections s)). }
  destruct (mapM_res scope_try_from (wm_scopes w)) as [scopes|e|]; [|done..].
  destruct (validate_identity (mkManifest uid scopes)) as [[]|e|] eqn:Hv; [|done|].
  - by apply validate_identity_ok.
  - unfold validate_identity in Hv. destruct (for_res _ _ _) as [seen|e|] eqn:Hs; [done..|].
    clear -Hs. revert Hs. cbn [mf_scopes]. generalize (∅ : gset Z, ∅ : gset string, ∅ : gset Z).
    induction scopes as [|s l IH]; intros seen; cbn [for_res]; [done|].
    unfold validate_scope at 1. destruct seen as [[a b] c]. repeat case_bool_decide; try done.
    destruct (for_res (ms_collections s) _ _) as [inner|e|] eqn:Hc; [by apply IH|done|].
    intros _. revert Hc. generalize (c, ∅ : gset string). clear.
    induction (ms_collections s) as [|x l IH]; intros seen; cbn [for_res]; [done|].
    unfold validate_collection at 1. repeat case_bool_decide; try done. apply IH.
Qed.

(** ** Lemmas: resolution *)

Lemma find_scope_spec m name s :
  find_scope m name = Some s → s ∈ mf_scopes m ∧ ms_name s = name.
Proof.
  intros [Hin Hn]%List.find_some. apply bool_decide_eq_true in Hn. split; [|done].
  by apply list_elem_of_In.
Qed.
Lemma find_collection_spec s name c :
  find_collection s name = Some c → c ∈ ms_collections s ∧ mc_name c = name.
Proof.
  intros [Hin Hn]%List.find_some. apply bool_decide_eq_true in Hn. split; [|done].
  by apply list_elem_of_In.
Qed.

Lemma scope_ids_nodup m s :
  manifest_wf m → s ∈ mf_scopes m →
  NoDup (mc_uid <$> ms_collections s) ∧ NoDup (mc_name <$> ms_collections s).
Proof.
  intros (_ & _ & Hids & Hn) Hs. rewrite Forall_forall in Hn. split; [|by apply Hn].
  apply list_elem_of_split in Hs as (l1 & l2 & Hl). unfold manifest_ids in Hids.
  rewrite Hl, bind_app, bind_cons in Hids.
  apply NoDup_app in Hids as (_ & _ & Hids). by apply NoDup_app in Hids as [? _].
Qed.

(** In a valid scope an identifier determines the collection, and so does a name. *)
Lemma scope_unique m s c d :
  manifest_wf m → s ∈ mf_scopes m → c ∈ ms_collections s → d ∈ ms_collections s →
  mc_uid c = mc_uid d ∨ mc_name c = mc_name d → c = d.
Proof.
  intros Hwf Hs Hc Hd Heq. destruct (scope_ids_nodup m s Hwf Hs) as [Hu Hn].
  apply list_elem_of_lookup in Hc as [i Hi]. apply list_elem_of_lookup in Hd as [j Hj].
  destruct Heq as [Heq|Heq].
  - assert (i = j) as ->; [|congruence].
    apply (NoDup_lookup _ i j (mc_uid c) Hu); rewrite list_lookup_fmap; [by rewrite Hi|].
    rewrite Hj. cbn. by rewrite Heq.
  - assert (i = j) as ->; [|congruence].
    apply (NoDup_lookup _ i j (mc_name c) Hn); rewrite list_lookup_fmap; [by rewrite Hi|].
    rewrite Hj. cbn. by rewrite Heq.
Qed.

(** The names of a resolution: the collections of the scope that are configured. *)
Definition resolves_to (s : ManifestScope) (names : list string) (r : gmap Z string) : Prop :=
  ∀ id n, r !! id = Some n ↔
    ∃ c, c ∈ ms_collections s ∧ mc_uid c = id ∧ mc_name c = n ∧ n ∈ names.

Lemma resolve_names_ok m s l : ∀ done ids names acc',
  manifest_wf m → s ∈ mf_scopes m → resolves_to s done names →
  Forall2 (λ n id, names !! id = Some n) done ids →
  for_res l (ids, names) (resolve_name m s) = Ok acc' →
  resolves_to s (done ++ l) acc'.2 ∧ Forall2 (λ n id, acc'.2 !! id = Some n) (done ++ l) acc'.1.
Proof.
  induction l as [|name l IH]; intros d ids names acc' Hwf Hs Hr Hf; cbn [for_res].
  { intros [= <-]. by rewrite app_nil_r. }
  unfold resolve_name at 1. destruct (find_collection s name) as [c|] eqn:Hc; cbn [ok_or]; [|done].
  apply find_collection_spec in Hc as [Hc <-]. cbn [fst snd].
  intros Hl. apply (IH (d ++ [mc_name c])) in Hl; [by rewrite <-app_assoc in Hl|done|done| |].
  - intros id n. rewrite lookup_insert_Some. split.
    + intros [[<- <-]|[Hne Hn]].
      * exists c. split_and!; try done. apply elem_of_app. right. left.
      * apply Hr in Hn as (c' & ? & ? & ? & ?). exists c'. split_and!; try done.
        apply elem_of_app. by left.
    + intros (c' & Hc' & <- & <- & [Hn|Hn%list_elem_of_singleton]%elem_of_app).
      * destruct (decide (mc_uid c = mc_uid c')) as [Heq|Hne].
        { left. split; [done|]. by rewrite (scope_unique m s c c' Hwf Hs Hc Hc' (or_introl Heq)). }
        right. split; [done|]. apply Hr. by exists c'.
      * left. by rewrite (scope_unique m s c c' Hwf Hs Hc Hc' (or_intror (eq_sym Hn))).
  - apply Forall2_app.
    + eapply Forall2_impl; [exact Hf|]. intros n id Hn. cbn beta in Hn |- *.
      destruct (decide (mc_uid c = id)) as [<-|Hne]; [|by rewrite lookup_insert_ne].
      rewrite lookup_insert_eq. apply Hr in Hn as (c' & Hc' & Hid & <- & _).
      by rewrite (scope_unique m s c c' Hwf Hs Hc Hc' (or_introl (eq_sym Hid))).
    + constructor; [by rewrite lookup_insert_eq|constructor].
Qed.

(** The resolution of a configured filter in a valid manifest. *)
Definition resolution_of (m : CollectionManifest) (configured : CollectionFilter)
    (stream_id : option Z) (r : ResolvedCollectionFilter) : Prop :=
  ∃ s, s ∈ mf_scopes m ∧ ms_name s = cf_scope configured
  ∧ rc_manifest_uid r = mf_uid m ∧ rc_scope_id r = ms_uid s
  ∧ (∀ id n, resolved_collection_name r id = Some n ↔
       ∃ c, c ∈ ms_collections s ∧ mc_uid c = id ∧ mc_name c = n
         ∧ (cf_collections configured = [] ∨ n ∈ cf_collections configured))
  ∧ Forall2 (λ n id, resolved_collection_name r id = Some n)
      (cf_collections configured) (rc_collection_ids r)
  ∧ rc_stream_filter r = mkStreamFilter
      (if bool_decide (cf_collections configured = []) then Some (ms_uid s) else None)
      (rc_collection_ids r) None stream_id.

Lemma manifest_resolve_ok m configured stream_id r :
  manifest_wf m → manifest_resolve m configured stream_id = Ok r →
  resolution_of m configured stream_id r.
Proof.
  intros Hwf. unfold manifest_resolve.
  destruct (collection_filter_validate configured) as [[]|e|]; [|done..].
  destruct (find_scope m (cf_scope configured)) as [s|] eqn:Hs; cbn [ok_or]; [|done].
  apply find_scope_spec in Hs as [Hs Hname].
  destruct (cf_collections configured) as [|name names] eqn:Hcf.
  - intros [= <-]. exists s. rewrite Hcf.
    cbn [rc_manifest_uid rc_scope_id rc_collection_ids rc_stream_filter].
    split_and!; try done.
    intros id n. unfold resolved_collection_name. cbn [rc_collection_names].
    destruct (scope_ids_nodup m s Hwf Hs) as [Hu _].
    rewrite btree_collect_lookup.
    2:{ rewrite <-list_fmap_compose. exact Hu. }
    rewrite list_elem_of_fmap. split.
    + intros (c & [= -> ->] & Hc). exists c. split_and!; try done. by left.
    + intros (c & Hc & <- & <- & _). by exists c.
  - destruct (for_res (name :: names) ([], ∅) (resolve_name m s)) as [[ids ns]|e|] eqn:Hf; [|done..].
    intros [= <-]. apply (resolve_names_ok m s (name :: names) []) in Hf as [Hr Hids]; [|done..| |constructor].
    2:{ intros id n. rewrite lookup_empty. split; [done|]. by intros (? & _ & _ & _ & ?%elem_of_nil). }
    cbn [fst snd app] in *. exists s. rewrite Hcf.
    cbn [rc_manifest_uid rc_scope_id rc_collection_ids rc_stream_filter]. split_and!; try done.
    intros id n. unfold resolved_collection_name. cbn [rc_collection_names]. rewrite (Hr id n).
    split; intros (c & ? & ? & ? & Hn); exists c; (split_and!; try done); [by right|].
    by destruct Hn.
Qed.

(** ** Lemmas: the registry *)

(** Names identify collections, and an explicit selection only names what it selected. *)
Definition names_ok (r : ResolvedCollectionFilter) : Prop :=
  (∀ i j n, rc_collection_names r !! i = Some n → rc_collection_names r !! j = Some n → i = j)
  ∧ (rc_collection_ids r ≠ [] → ∀ i, is_Some (rc_collection_names r !! i) → i ∈ rc_collection_ids r).

Definition registry_wf (g : CollectionRegistry) : Prop :=
  rg_poisoned g = false
  ∧ (is_Some (rg_observed_manifest_uid (rg_state g))
      ↔ is_Some (cs_resolved (rg_selection (rg_state g))))
  ∧ ∀ r, cs_resolved (rg_selection (rg_state g)) = Some r → names_ok r.

Lemma resolution_names_ok m configured stream_id r :
  manifest_wf m → resolution_of m configured stream_id r → names_ok r.
Proof.
  intros Hwf (s & Hs & _ & _ & _ & Hn & Hids & _). unfold resolved_collection_name in *. split.
  - intros i j n Hi Hj. apply Hn in Hi as (c & Hc & <- & Hcn & _).
    apply Hn in Hj as (d & Hd & <- & Hdn & _).
    by rewrite (scope_unique m s c d Hwf Hs Hc Hd (or_intror (eq_trans Hcn (eq_sym Hdn)))).
  - intros Hne i [n Hi]. apply Hn in Hi as Hi'.
    destruct Hi' as (c & Hc & <- & Hcn & [Hnil|Hin]).
    { rewrite Hnil in Hids. apply Forall2_nil_inv_l in Hids. by rewrite Hids in Hne. }
    apply list_elem_of_lookup in Hin as [k Hk].
    destruct (Forall2_lookup_l _ _ _ _ _ Hids Hk) as (id & Hid & Hlk).
    apply Hn in Hlk as (d & Hd & Hdid & Hdn & _).
    assert (c = d) as -> by (apply (scope_unique m s c d Hwf Hs Hc Hd); right; congruence).
    rewrite Hdid. by apply (list_elem_of_lookup_2 _ k).
Qed.

Lemma registry_new_wf m configured stream_id r legacy :
  manifest_wf m → resolution_of m configured stream_id r →
  registry_wf (registry_new (mkSelection (Some r) legacy)).
Proof.
  intros Hwf Hr. split; [done|]. split; [by cbn|]. intros r' [= <-].
  by eapply resolution_names_ok.
Qed.
Lemma registry_legacy_wf legacy : registry_wf (registry_new (mkSelection None legacy)).
Proof. split; [done|]. split; [|done]. cbn. split; by intros [? ?]. Qed.

Lemma register_name_ok id name names names' :
  register_name id name names = Ok names' →
  names' = <[id := name]> names ∧ ∀ j, names !! j = Some name → j = id.
Proof.
  unfold register_name. intros H.
  assert (List.find (λ e, negb (e.1 =? id) && bool_decide (e.2 = name)) (btree_to_list names) = None
    ∧ names' = <[id := name]> names) as [Hf ->].
  { destruct (names !! id) as [n|]; [case_bool_decide; [|done]|];
      (destruct (List.find _ _) as [[? ?]|]; [done|]); by injection H as <-. }
  split; [done|]. intros j Hj. rewrite <-elem_of_btree_to_list in Hj.
  apply list_elem_of_In in Hj. pose proof (List.find_none _ _ Hf _ Hj) as Hx. cbn [fst snd] in Hx.
  rewrite bool_decide_true, andb_true_r in Hx by done. apply negb_false_iff in Hx. lia.
Qed.

Lemma names_ok_subset r names :
  names_ok r → (∀ i n, names !! i = Some n → rc_collection_names r !! i = Some n) →
  names_ok (set_names names r).
Proof.
  intros [Hinj Hsel] Hsub. split; cbn [rc_collection_names rc_collection_ids set_names].
  - intros i j n Hi%Hsub Hj%Hsub. by eapply Hinj.
  - intros Hne i [n Hi%Hsub]. apply Hsel; [done|]. by eexists.
Qed.

Lemma apply_kind_ok e r names stale :
  names_ok r → apply_kind e r = Ok (names, stale) → names_ok (set_names names r).
Proof.
  intros Hok. unfold apply_kind. destruct (sys_kind e) as [sid cid ttl|sid cid|cid|sid|sid|cid ttl|code data];
    try by (intros [= <- <-]; apply names_ok_subset).
  - destruct (_ && _) eqn:Hg; [|by intros [= <- <-]; apply names_ok_subset].
    apply andb_true_iff in Hg as [_ Hnil]. apply bool_decide_eq_true in Hnil.
    destruct (parse_system_event_name (sys_key e)) as [name|er|]; [|done..].
    destruct (register_name cid name _) as [ns|er|] eqn:Hr; [|done..]. intros [= <- <-].
    apply register_name_ok in Hr as [-> Huniq]. destruct Hok as [Hinj _].
    split; cbn [rc_collection_names rc_collection_ids set_names]; [|by rewrite Hnil].
    intros i j n [[Hi1 Hi2]|[Hi1 Hi2]]%lookup_insert_Some [[Hj1 Hj2]|[Hj1 Hj2]]%lookup_insert_Some.
    + congruence.
    + subst. by apply Huniq in Hj2.
    + subst. by apply Huniq in Hi2.
    + by eapply Hinj.
  - destruct (sid =? _); [|by intros [= <- <-]; apply names_ok_subset].
    unfold unregister_name. destruct (_ && _); [done|]. intros [= <- <-].
    apply names_ok_subset; [done|]. by intros i n [_ ?]%lookup_delete_Some.
  - destruct (sid =? _); intros [= <- <-]; apply names_ok_subset; try done.
Qed.

Lemma apply_kind_no_panic e r : apply_kind e r ≠ Panic.
Proof.
  unfold apply_kind. destruct (sys_kind e); try done.
  - destruct (_ && _); [|done]. unfold parse_system_event_name.
    destruct (from_utf8 (sys_key e)) as [n|]; [|done]. destruct (_ || _); [done|].
    unfold register_name. destruct (rc_collection_names r !! coll_id) as [x|]; [case_bool_decide; [|done]|];
      by destruct (List.find _ _) as [[? ?]|].
  - destruct (_ =? _); [|done]. unfold unregister_name. by destruct (_ && _).
  - by destruct (_ =? _).
Qed.

(** An event without its collection name. *)
Definition erase_name (e : DcpEvent) : DcpEvent :=
  match e with
  | EMutation m => EMutation (set_mutation_name "" m)
  | EDeletion m => EDeletion (set_deletion_name "" m)
  | EExpiration m => EExpiration (set_expiration_name "" m)
  | e => e
  end.

(** The collection name an event carries, and the collection it names. *)
Definition event_collection (e : DcpEvent) : option (option Z * option string) :=
  match e with
  | EMutation m => Some (mut_collection_id m, mut_collection_name m)
  | EDeletion m => Some (del_collection_id m, del_collection_name m)
  | EExpiration m => Some (exp_collection_id m, exp_collection_name m)
  | _ => None
  end.

Lemma decorate_document_spec selection e :
  match decorate_document selection e with
  | Ok e' => erase_name e' = erase_name e
      ∧ (∀ id n, event_collection e' = Some (id, n) →
           n = selection_collection_name selection id ∧ is_Some n)
  | Err _ => ∃ id n, event_collection e = Some (id, n)
      ∧ selection_collection_name selection id = None
  | Panic => False
  end.
Proof.
  destruct e as [m|m|m|m|m|m|m|m]; cbn [decorate_document]; try done;
    unfold required_collection_name;
    (destruct (selection_collection_name selection _) as [n|] eqn:Hn; cbn [ok_or];
     [split; [done|]; intros id n' [= <- <-]; rewrite Hn; split; [done|by eexists]
     |eexists _, _; split; [reflexivity|exact Hn]]).
Qed.

Lemma decorate_wf e g :
  registry_wf g →
  registry_wf (decorate e g).2 ∧ (decorate e g).1 ≠ Panic
  ∧ option_relation Z.le (λ _, False) (λ _, True)
      (rg_observed_manifest_uid (rg_state g)) (rg_observed_manifest_uid (rg_state (decorate e g).2)).
Proof.
  intros Hwf. pose proof Hwf as (Hp & Hiff & Hok). unfold decorate. rewrite Hp.
  assert (option_relation Z.le (λ _, False) (λ _, True)
    (rg_observed_manifest_uid (rg_state g)) (rg_observed_manifest_uid (rg_state g))) as Hrefl
    by by destruct (rg_observed_manifest_uid (rg_state g)); cbn.
  pose proof (decorate_document_spec (rg_selection (rg_state g)) e) as Hdoc.
  destruct e as [m|m|m|m|m|m|se|m];
    try (cbn [fst snd]; split_and!; [done| |exact Hrefl];
         by destruct (decorate_document (rg_selection (rg_state g)) _)).
  clear Hdoc. unfold apply_system_event.
  destruct (rg_observed_manifest_uid (rg_state g)) as [obs|] eqn:Hobs;
    cbn [ok_or].
  2:{ cbn [fst snd]. rewrite Hobs. by split_and!. }
  destruct (Z.leb_spec (sys_manifest_uid se) obs) as [Hle|Hlt].
  { cbn [fst snd rg_state]. rewrite Hobs. split_and!; [|done|cbn; lia].
    by destruct g as [? []]. }
  destruct (proj1 Hiff ltac:(by eexists)) as [r Hr]. rewrite Hr.
  pose proof (apply_kind_no_panic se r) as Hnp.
  destruct (apply_kind se r) as [[names stale]|er|] eqn:Hk; [| |done].
  2:{ cbn [fst snd]. rewrite Hobs. split_and!; [done..|]. cbn. lia. }
  cbn [fst snd]. split_and!; [|done|cbn; lia].
  split; [done|]. cbn. split; [by split; eexists|]. intros r' [= <-].
  apply (apply_kind_ok se r names stale); [by apply Hok|done].
Qed.

(** Decorating a sequence of events. *)
Fixpoint decorate_all (events : list DcpEvent) (g : CollectionRegistry)
    : list (result DcpEvent) * CollectionRegistry :=
  match events with
  | [] => ([], g)
  | e :: events =>
      let '(r, g1) := decorate e g in
      let '(rs, g2) := decorate_all events g1 in
      (r :: rs, g2)
  end.

(** ** Theorems *)

(** Resolving configured names against a manifest is exact.  A manifest that parses has
    unique identities; against it, a filter resolves to the scope of that name and to
    precisely the configured collections of it (all of them for a scope subscription):
    identifier and name determine each other, identifiers come in the configured order, and
    the wire filter names the scope only when no collection is configured. *)
Lemma collection_resolution_exact w m configured stream_id r :
  manifest_from_wire w = Ok m → manifest_resolve m configured stream_id = Ok r →
  resolution_of m configured stream_id r
  ∧ (∀ i j n, resolved_collection_name r i = Some n → resolved_collection_name r j = Some n →
       i = j).
Proof.
  intros Hm Hr. pose proof (manifest_from_wire_wf w) as Hwf. rewrite Hm in Hwf.
  pose proof (manifest_resolve_ok m configured stream_id r Hwf Hr) as Hres.
  split; [done|]. by apply (resolution_names_ok m configured stream_id r Hwf Hres).
Qed.

Lemma decorate_all_wf events : ∀ g,
  registry_wf g →
  registry_wf (decorate_all events g).2
  ∧ Forall2 (λ e o, o ≠ Panic ∧ ∀ e', o = Ok e' → erase_name e' = erase_name e)
      events (decorate_all events g).1.
Proof.
  induction events as [|e events IH]; intros g Hwf; cbn [decorate_all]; [by split; [|constructor]|].
  destruct (decorate_wf e g Hwf) as (Hwf1 & Hnp & _).
  assert (∀ e', (decorate e g).1 = Ok e' → erase_name e' = erase_name e) as Her.
  { unfold decorate. destruct Hwf as (-> & _).
    pose proof (decorate_document_spec (rg_selection (rg_state g)) e) as Hdoc.
    destruct e as [m|m|m|m|m|m|se|m];
      try (cbn [fst]; intros e' He; rewrite He in Hdoc; by destruct Hdoc).
    destruct (apply_system_event se (rg_state g)); cbn [fst]; [|done..]. by intros ? [= <-]. }
  destruct (decorate e g) as [o g1]. cbn [fst snd] in *. destruct (IH g1 Hwf1) as [Hwf2 Hall].
  destruct (decorate_all events g1) as [os g2]. cbn [fst snd] in *. split; [done|]. by constructor.
Qed.


Lemma merge_high_lookup merged answer vb :
  merge_high merged answer !! vb =
    match merged !! vb, answer !! vb with
    | Some a, Some b => Some (Z.max a b)
    | Some a, None | None, Some a => Some a
    | None, None => None
    end.
Proof. unfold merge_high. rewrite lookup_union_with. by destruct (merged !! vb), (answer !! vb). Qed.

(** ** A sample manifest and two histories *)

Definition sample_wire : WireManifest :=
  mkWireManifest "7" [mkWireScope "8" "inventory"
    [mkWireCollection "9" "airline" 0 None; mkWireCollection "a" "hotel" 0 None]].
Definition sample_manifest : CollectionManifest :=
  mkManifest 7 [mkManifestScope 8 "inventory"
    [mkManifestCollection 9 "airline" 0 None; mkManifestCollection 10 "hotel" 0 None]].
Definition sample_scope_filter : CollectionFilter := mkCollectionFilter "inventory" [].
Definition sample_resolved : ResolvedCollectionFilter :=
  mkResolved 7 8 [] {[ 9 := "airline"; 10 := "hotel" ]} (mkStreamFilter (Some 8) [] None None).
Definition sample_document (vb id seqno : Z) : DcpEvent :=
  EMutation (mkDcpMutation vb seqno 1 0 0 0 0 0 (Some id) None [] []).
Definition sample_created (vb seqno uid id : Z) (name : string) : DcpEvent :=
  ESystemEvent (mkSystemEvent vb seqno uid 0 (as_bytes name) (CollectionCreated 8 id None)).
Definition sample_dropped (vb seqno uid id : Z) : DcpEvent :=
  ESystemEvent (mkSystemEvent vb seqno uid 0 [] (CollectionDropped 8 id)).


(** Two collections created by one manifest update share its identifier: only the first
    event is applied, and documents of the second collection are rejected. *)
Lemma same_manifest_creation_is_lost :
  (decorate_all [sample_created 3 1 8 11 "route"; sample_created 3 2 8 12 "landmark";
                 sample_document 3 11 3; sample_document 3 12 4]
     (registry_new (mkSelection (Some sample_resolved) None))).1
  = [Ok (sample_created 3 1 8 11 "route"); Ok (sample_created 3 2 8 12 "landmark");
     Ok (EMutation (mkDcpMutation 3 3 1 0 0 0 0 0 (Some 11) (Some "route") [] []));
     Err (Collection "event collection ID Some(12) is outside the resolved stream selection")].
Proof. vm_compute. reflexivity. Qed.

(** The registry is shared by all vBuckets: once one vBucket delivered the drop of a
    collection, a document another vBucket stored before the drop is rejected. *)
Lemma drop_on_one_vbucket_affects_others :
  (decorate_all [sample_dropped 3 5 8 9; sample_document 4 9 2]
     (registry_new (mkSelection (Some sample_resolved) None))).1
  = [Ok (sample_dropped 3 5 8 9);
     Err (Collection "event collection ID Some(9) is outside the resolved stream selection")].
Proof. vm_compute. reflexivity. Qed.
