(* ===== verification/Worker.v ===== *)
(** * The connection worker ([rust-dcp-core/src/stream.rs], second half)

    The task that owns an opened connection: per-partition progress checks, flow-control
    credit, conversion of wire messages to public events, and the command loop.  The
    receiver of the event channel is the environment: [wk_sends] is what becomes of
    successive sends, [wk_output] records the accepted ones.  Each round of the loop takes
    the branch [tokio::select!] picked. *)
From Stdlib Require Import SpecFloat.
From S2P Require Import Prelude Types Frame Codec Dcp Command Errors Event Checkpoint.
From S2P Require Import Config Async Transport Topology Stream.

(** ** [PartitionProgress] *)
Record PartitionProgress : Type := mkProgress {
  pp_last_seqno : Z;
  pp_end_seqno : Z;
  pp_stream_id : option Z;
  pp_opaque : Z;
  pp_snapshot : option (Z * Z)
}.

Definition progress_new (last_seqno end_seqno : Z) (stream_id : option Z) (opaque : Z)
    : PartitionProgress := mkProgress last_seqno end_seqno stream_id opaque None.

Definition message_vbucket (m : DcpMessage) : option Z :=
  match m with
  | MMutation e => Some (Dcp.mut_vbucket e)
  | MDeletion e => Some (Dcp.del_vbucket e)
  | MExpiration e => Some (Dcp.exp_vbucket e)
  | MSnapshotMarker e => Some (Dcp.snap_vbucket e)
  | MStreamEnd e => Some (Dcp.end_vbucket e)
  | MSeqNoAdvanced e => Some (Dcp.adv_vbucket e)
  | MSystemEvent e => Some (Dcp.sys_vbucket e)
  | MOsoSnapshot e => Some (Dcp.oso_vbucket e)
  | _ => None
  end.

Definition message_stream_id (m : DcpMessage) : option Z :=
  match m with
  | MMutation e => Dcp.mut_stream_id e
  | MDeletion e => Dcp.del_stream_id e
  | MExpiration e => Dcp.exp_stream_id e
  | MSnapshotMarker e => Dcp.snap_stream_id e
  | MStreamEnd e => Dcp.end_stream_id e
  | MSeqNoAdvanced e => Dcp.adv_stream_id e
  | MSystemEvent e => Dcp.sys_stream_id e
  | MOsoSnapshot e => Dcp.oso_stream_id e
  | _ => None
  end.

Definition message_seqno (m : DcpMessage) : option Z :=
  match m with
  | MMutation e => Some (Dcp.mut_seqno e)
  | MDeletion e => Some (Dcp.del_seqno e)
  | MExpiration e => Some (Dcp.exp_seqno e)
  | MSeqNoAdvanced e => Some (Dcp.adv_seqno e)
  | MSystemEvent e => Some (Dcp.sys_seqno e)
  | _ => None
  end.

Definition observe (m : DcpMessage) (p : PartitionProgress) : result PartitionProgress :=
  match m with
  | MSnapshotMarker marker =>
      if (Dcp.snap_end_seqno marker <? pp_last_seqno p)
         || (pp_end_seqno p <? Dcp.snap_end_seqno marker) then
        Err (StreamError (Dcp.snap_vbucket marker)
          ("snapshot " +:+ pretty (Dcp.snap_start_seqno marker) +:+ "..="
           +:+ pretty (Dcp.snap_end_seqno marker) +:+ " is outside delivered "
           +:+ pretty (pp_last_seqno p) +:+ "..=" +:+ pretty (pp_end_seqno p)))
      else Ok (mkProgress (pp_last_seqno p) (pp_end_seqno p) (pp_stream_id p) (pp_opaque p)
                 (Some (Dcp.snap_start_seqno marker, Dcp.snap_end_seqno marker)))
  | _ =>
      match message_seqno m with
      | None => Ok p
      | Some seqno =>
          let vb := default 0 (message_vbucket m) in
          match pp_snapshot p with
          | None => Err (StreamError vb ("received seqno " +:+ pretty seqno
                      +:+ " before a snapshot marker"))
          | Some (first, final) =>
              if (seqno <? first) || (final <? seqno) || (pp_end_seqno p <? seqno) then
                Err (StreamError vb ("seqno " +:+ pretty seqno +:+ " is outside snapshot "
                  +:+ pretty first +:+ "..=" +:+ pretty final +:+ " or stream end "
                  +:+ pretty (pp_end_seqno p)))
              else if seqno <=? pp_last_seqno p then
                Err (StreamError vb ("non-monotonic seqno " +:+ pretty seqno +:+ " after "
                  +:+ pretty (pp_last_seqno p)))
              else Ok (mkProgress seqno (pp_end_seqno p) (pp_stream_id p) (pp_opaque p)
                         (pp_snapshot p))
          end
      end
  end.

(** ** Conversion to public events *)
Definition convert_mutation (e : Dcp.DcpMutation) : Event.DcpMutation :=
  Event.mkDcpMutation (Dcp.mut_vbucket e) (Dcp.mut_seqno e) (Dcp.mut_rev_seqno e)
    (Dcp.mut_flags e) (Dcp.mut_expiry e) (Dcp.mut_lock_time e) (Dcp.mut_cas e)
    (Dcp.mut_datatype e) (Dcp.mut_collection_id e) None (Dcp.mut_key e) (Dcp.mut_value e).

Definition convert_deletion (e : Dcp.DcpDeletion) : Event.DcpDeletion :=
  Event.mkDcpDeletion (Dcp.del_vbucket e) (Dcp.del_seqno e) (Dcp.del_rev_seqno e)
    (Dcp.del_delete_time e) (Dcp.del_cas e) (Dcp.del_collection_id e) None (Dcp.del_key e)
    (Dcp.del_value e) (Dcp.del_datatype e).

Definition convert_expiration (e : Dcp.DcpExpiration) : Event.DcpExpiration :=
  Event.mkDcpExpiration (Dcp.exp_vbucket e) (Dcp.exp_seqno e) (Dcp.exp_rev_seqno e)
    (Dcp.exp_delete_time e) (Dcp.exp_cas e) (Dcp.exp_collection_id e) None (Dcp.exp_key e)
    (Dcp.exp_value e) (Dcp.exp_datatype e).

Definition convert_snapshot_marker (e : Dcp.SnapshotMarker) : Event.SnapshotMarker :=
  Event.mkSnapshotMarker (Dcp.snap_vbucket e) (Dcp.snap_start_seqno e) (Dcp.snap_end_seqno e)
    (Dcp.snap_flags e) (Dcp.snap_high_completed_seqno e) (Dcp.snap_max_visible_seqno e)
    (Dcp.snap_purge_seqno e).

Definition convert_stream_end (e : Dcp.StreamEnd) : Event.StreamEnd :=
  Event.mkStreamEnd (Dcp.end_vbucket e)
    (match Dcp.end_reason e with
     | Dcp.EndOk => Event.EndOk
     | Dcp.EndStateChanged => Event.EndStateChanged
     | Dcp.EndClosed => Event.EndClosed
     | Dcp.EndDisconnected => Event.EndDisconnected
     | Dcp.EndTooSlow => Event.EndTooSlow
     | Dcp.EndBackfillFailed => Event.EndBackfillFailed
     | Dcp.EndFilterEmpty => Event.EndFilterEmpty
     | Dcp.EndUnknown reason => Event.EndUnknown reason
     end).

Definition convert_system_event_kind (k : Dcp.SystemEventKind) : Event.SystemEventKind :=
  match k with
  | Dcp.CollectionCreated scope_id coll_id max_ttl =>
      Event.CollectionCreated scope_id coll_id max_ttl
  | Dcp.CollectionDropped scope_id coll_id => Event.CollectionDropped scope_id coll_id
  | Dcp.CollectionFlushed coll_id => Event.CollectionFlushed coll_id
  | Dcp.ScopeCreated scope_id => Event.ScopeCreated scope_id
  | Dcp.ScopeDropped scope_id => Event.ScopeDropped scope_id
  | Dcp.CollectionChanged coll_id max_ttl => Event.CollectionChanged coll_id (Some max_ttl)
  | Dcp.UnknownEvent code data => Event.UnknownEvent code data
  end.

Definition convert_system_event (e : Dcp.SystemEvent) : Event.SystemEvent :=
  Event.mkSystemEvent (Dcp.sys_vbucket e) (Dcp.sys_seqno e) (Dcp.sys_manifest_uid e)
    (Dcp.sys_version e) (Dcp.sys_key e) (convert_system_event_kind (Dcp.sys_kind e)).

Definition convert_oso_snapshot (e : Dcp.OsoSnapshot) : Event.OsoSnapshot :=
  Event.mkOsoSnapshot (Dcp.oso_vbucket e)
    (match Dcp.oso_state e with
     | Dcp.OsoBegin => Event.OsoBegin
     | Dcp.OsoEnd => Event.OsoEnd
     | Dcp.OsoUnknown state => Event.OsoUnknown state
     end).

Definition convert_event (m : DcpMessage) : result DcpEvent :=
  match m with
  | MMutation e => Ok (EMutation (convert_mutation e))
  | MDeletion e => Ok (EDeletion (convert_deletion e))
  | MExpiration e => Ok (EExpiration (convert_expiration e))
  | MSnapshotMarker e => Ok (ESnapshotMarker (convert_snapshot_marker e))
  | MStreamEnd e => Ok (EStreamEnd (convert_stream_end e))
  | MSeqNoAdvanced e =>
      Ok (ESeqNoAdvanced (Event.mkSeqNoAdvanced (Dcp.adv_vbucket e) (Dcp.adv_seqno e)))
  | MSystemEvent e => Ok (ESystemEvent (convert_system_event e))
  | MOsoSnapshot e => Ok (EOsoSnapshot (convert_oso_snapshot e))
  | MNoop _ | MUnknown _ =>
      Err (Protocol (MalformedDcp
        "control or unknown message cannot be converted to DcpEvent"))
  end.

(** ** [FlowCredit] *)
Record FlowCredit : Type := mkFlowCredit {
  cr_threshold : Z;
  cr_pending : Z
}.

(** The [while low < high] search; the interval halves, so that 33 rounds suffice for
    32-bit bounds ([threshold_search_spec]). *)
Fixpoint threshold_search (below : Z → bool) (fuel : nat) (low high : Z) : Z :=
  match fuel with
  | O => low
  | S fuel =>
      if low <? high then
        let middle := low + (high - low) / 2 in
        if below middle then threshold_search below fuel (middle + 1) high
        else threshold_search below fuel low middle
      else low
  end.

Definition credit_below (buffer_size : Z) (ack_ratio : f32) (middle : Z) : bool :=
  SFltb (f64_from_u32 middle) (f64_mul (f64_from_u32 buffer_size) (f64_from_f32 ack_ratio)).

Definition flow_credit_new (c : FlowControlConfig) : result FlowCredit :=
  let? buffer_size := ok_or (try_from u32_max (fc_connection_buffer_size c))
    (InvalidConfiguration ("invalid connection buffer size: " +:+ try_from_int_error)) in
  Ok (mkFlowCredit
        (threshold_search (credit_below buffer_size (fc_ack_ratio c)) 33 1 buffer_size) 0).

(** ** The worker *)
Inductive SendEvent : Type :=
| SendAccepted
| SendClosed
| SendFull.

Record Worker : Type := mkWorker {
  wk_connection : KvConnection;
  wk_partitions : gmap Z PartitionProgress;
  wk_credit : FlowCredit;
  wk_output : list (result DcpStreamItem);
  wk_sends : list SendEvent;
  wk_replies : list (result unit)
}.

Definition set_connection (x : KvConnection) (w : Worker) : Worker :=
  mkWorker x (wk_partitions w) (wk_credit w) (wk_output w) (wk_sends w) (wk_replies w).
Definition set_wk_partitions (x : gmap Z PartitionProgress) (w : Worker) : Worker :=
  mkWorker (wk_connection w) x (wk_credit w) (wk_output w) (wk_sends w) (wk_replies w).
Definition set_credit_pending (x : Z) (w : Worker) : Worker :=
  mkWorker (wk_connection w) (wk_partitions w) (mkFlowCredit (cr_threshold (wk_credit w)) x)
    (wk_output w) (wk_sends w) (wk_replies w).
Definition set_output (s : list SendEvent) (x : list (result DcpStreamItem)) (w : Worker)
    : Worker :=
  mkWorker (wk_connection w) (wk_partitions w) (wk_credit w) x s (wk_replies w).
Definition add_reply (r : result unit) (w : Worker) : Worker :=
  mkWorker (wk_connection w) (wk_partitions w) (wk_credit w) (wk_output w) (wk_sends w)
    (wk_replies w ++ [r]).

Definition on_connection {A} (m : io KvConnection A) : io Worker A :=
  io_zoom wk_connection set_connection m.

(** [output.send(x).await.is_ok()] *)
Definition output_send (x : result DcpStreamItem) : io Worker bool := λ w,
  match wk_sends w with
  | [] => (Done (Ok true), set_output [] (wk_output w ++ [x]) w)
  | SendAccepted :: s => (Done (Ok true), set_output s (wk_output w ++ [x]) w)
  | SendClosed :: s => (Done (Ok false), set_output s (wk_output w) w)
  | SendFull :: s => (Hang, set_output s (wk_output w) w)
  end.

(** [output.send(Ok(item)).await.map_err(|_| DcpError::Cancelled)?] *)
Definition deliver (item : DcpStreamItem) : io Worker unit :=
  let! sent := output_send (Ok item) in
  if sent then io_ret tt else io_lift (Err Cancelled).

(** [FlowCredit::flush]: one acknowledgement per [u32::MAX] pending bytes. *)
Fixpoint credit_flush_loop (fuel : nat) : io Worker unit :=
  match fuel with
  | O => λ w, (Hang, w)
  | S fuel =>
      let! pending := io_get (λ w, cr_pending (wk_credit w)) in
      if pending =? 0 then io_ret tt
      else
        let amount := Z.min pending u32_max in
        do! on_connection (send_frame (buffer_ack amount 0)) in
        do! io_modify (set_credit_pending (pending - amount)) in
        credit_flush_loop fuel
  end.

Definition credit_flush : io Worker unit := λ w,
  credit_flush_loop (S (Z.to_nat (cr_pending (wk_credit w) / u32_max + 1))) w.

Definition credit_record (n : Z) : io Worker unit :=
  let! pending := io_get (λ w, cr_pending (wk_credit w)) in
  let! total := io_lift (ok_or (checked_add u64_max pending n)
    (Protocol (InvalidLength "flow-control byte count overflow"))) in
  do! io_modify (set_credit_pending total) in
  let! threshold := io_get (λ w, cr_threshold (wk_credit w)) in
  if threshold <=? total then credit_flush else io_ret tt.

(** ** [handle_frame] *)

(** The [Debug] text of an optional stream ID. *)
Definition debug_option (o : option Z) : string :=
  match o with Some z => "Some(" +:+ pretty z +:+ ")" | None => "None" end.

(** The checks that tie an event to its active stream, and its effect on progress. *)
Definition check_progress (f : Frame) (m : DcpMessage) (ps : gmap Z PartitionProgress)
    : result (Z * PartitionProgress) :=
  let? vb := ok_or (message_vbucket m)
    (Protocol (MalformedDcp "known DCP event has no vBucket")) in
  let? progress := ok_or (ps !! vb)
    (StreamError vb "received an event for a stream that is not active") in
  if negb (opaque f =? pp_opaque progress) then
    Err (StreamError vb ("event opaque " +:+ pretty (opaque f)
      +:+ " does not match active stream " +:+ pretty (pp_opaque progress)))
  else if negb (bool_decide (message_stream_id m = pp_stream_id progress)) then
    Err (StreamError vb ("event stream ID " +:+ debug_option (message_stream_id m)
      +:+ " does not match active stream " +:+ debug_option (pp_stream_id progress)))
  else
    let? progress := observe m progress in
    Ok (vb, progress).

Definition needs_snapshot_ack (m : DcpMessage) : bool :=
  match m with
  | MSnapshotMarker marker => negb (Z.land (Dcp.snap_flags marker) SNAPSHOT_ACK =? 0)
  | _ => false
  end.

Definition is_stream_end (m : DcpMessage) : bool :=
  match m with MStreamEnd _ => true | _ => false end.

Definition send_snapshot_ack (f : Frame) (m : DcpMessage) : io Worker unit :=
  if needs_snapshot_ack m
  then on_connection (send_frame (snapshot_marker_response (opaque f)))
  else io_ret tt.

(** A data, snapshot or control event of one stream. *)
Definition handle_event (f : Frame) (wire : Z) (m : DcpMessage) : io Worker unit :=
  let! ps := io_get wk_partitions in
  let! checked := io_lift (check_progress f m ps) in
  do! io_modify (set_wk_partitions (<[checked.1 := checked.2]> ps)) in
  do! send_snapshot_ack f m in
  let! event := io_lift (convert_event m) in
  do! deliver (ItemEvent event) in
  do! credit_record wire in
  if is_stream_end m
  then io_modify (λ w, set_wk_partitions (delete checked.1 (wk_partitions w)) w)
  else io_ret tt.

Definition handle_frame (f : Frame) : io Worker unit :=
  if magic_is_response (magic f) then
    io_lift (Err (Protocol (MalformedDcp ("unexpected response opcode 0x"
      +:+ hex_pad2 (opcode f) +:+ " in DCP event loop"))))
  else if opcode f =? OP_GET_CLUSTER_CONFIG then
    let! peer := io_get (λ w, kc_peer (wk_connection w)) in
    deliver (ItemTopologyConfig peer (value f))
  else
    let wire := wire_size f in
    let! m := io_lift (from_protocol (parse_dcp_message f)) in
    match m with
    | MNoop opaque => on_connection (send_frame (noop_response opaque))
    | MUnknown unknown =>
        do! deliver (ItemUnknown unknown) in
        if between 0x50 0x65 (opcode unknown) then credit_record wire else io_ret tt
    | m => handle_event f wire m
    end.

(** ** [handle_command] *)
Inductive RuntimeCommand : Type :=
| CommandClose (vbucket : Z)
| CommandShutdown.

Section Loop.
Context `{Snappy}.

Definition request_close (vbucket : Z) (stream_id : option Z) : io Worker unit :=
  let! response := on_connection (conn_request (close_stream vbucket stream_id 0)) in
  io_lift (ensure_success_response response OP_DCP_CLOSE_STREAM "close DCP stream").

(** The result is whether the worker goes on. *)
Definition handle_command (stream_end_on_close : bool) (command : RuntimeCommand)
    : io Worker bool :=
  match command with
  | CommandShutdown =>
      let! r := io_try credit_flush in
      do! io_modify (add_reply r) in
      io_ret false
  | CommandClose vbucket =>
      let! ps := io_get wk_partitions in
      match ps !! vbucket with
      | None =>
          do! io_modify (add_reply (Err (StreamError vbucket
                "cannot close a stream that is not active"))) in
          io_ret true
      | Some progress =>
          let! r := io_try (request_close vbucket (pp_stream_id progress)) in
          do! io_modify (add_reply r) in
          if is_ok r && negb stream_end_on_close then
            do! io_modify (λ w, set_wk_partitions (delete vbucket (wk_partitions w)) w) in
            output_send (Ok (ItemEvent (EStreamEnd (Event.mkStreamEnd vbucket Event.EndClosed))))
          else io_ret true
      end
  end.

(** ** [run_worker] *)
Inductive Pick : Type :=
| PickCommand (command : option RuntimeCommand)
| PickReceive.

(** Reporting an error on the channel ends the worker. *)
Definition report (e : DcpError) : io Worker bool :=
  do! output_send (Err e) in io_ret false.

Definition worker_round (config : FlowControlConfig) (stream_end_on_close : bool) (pick : Pick)
    : io Worker bool :=
  let! ps := io_get wk_partitions in
  if decide (ps = ∅) then
    let! r := io_try credit_flush in
    match r with Err e => report e | _ => io_ret false end
  else
    match pick with
    | PickCommand None => do! io_try credit_flush in io_ret false
    | PickCommand (Some command) => handle_command stream_end_on_close command
    | PickReceive =>
        let! peer := io_get (λ w, kc_peer (wk_connection w)) in
        let! received := io_try (io_timeout
          (DeadConnection peer (fc_dead_connection_timeout config))
          (on_connection receive_frame)) in
        match received with
        | Ok f =>
            let! handled := io_try (handle_frame f) in
            match handled with Err e => report e | _ => io_ret true end
        | Err e => report e
        | Panic => io_lift Panic
        end
    end.

Inductive WorkerStatus : Type := Running | Stopped | Blocked | Panicked.

Fixpoint run_rounds (config : FlowControlConfig) (stream_end_on_close : bool)
    (picks : list Pick) (w : Worker) : WorkerStatus * Worker :=
  match picks with
  | [] => (Running, w)
  | pick :: picks =>
      let '(o, w') := worker_round config stream_end_on_close pick w in
      match o with
      | Done (Ok true) => run_rounds config stream_end_on_close picks w'
      | Done (Ok false) => (Stopped, w')
      | Done _ => (Panicked, w')
      | Hang => (Blocked, w')
      end
  end.

Definition run_worker (connection : KvConnection) (partitions : gmap Z PartitionProgress)
    (config : FlowControlConfig) (stream_end_on_close : bool) (sends : list SendEvent)
    (picks : list Pick) : WorkerStatus * Worker :=
  let start credit := mkWorker connection partitions credit [] sends [] in
  match flow_credit_new config with
  | Ok credit => run_rounds config stream_end_on_close picks (start credit)
  | Err e =>
      let '(o, w) := report e (start (mkFlowCredit 1 0)) in
      (match o with Hang => Blocked | _ => Stopped end, w)
  | Panic => (Panicked, start (mkFlowCredit 1 0))
  end.

(** ** [open_dcp_stream] *)

(** The [for] loop over the requests, accumulating the report. *)
Fixpoint open_partitions (to_vec : WireFilter → res string bytes) (policy : RollbackPolicy)
    (handler : option (nat → RollbackRequest → outcome RollbackAction))
    (requests : list VBucketStreamRequest) (report : StreamOpenReport)
    : io KvConnection StreamOpenReport :=
  match requests with
  | [] => io_ret report
  | request :: requests =>
      let! opened := open_partition to_vec policy handler request in
      let state := opened.1 in
      open_partitions to_vec policy handler requests
        (mkStreamOpenReport (<[po_vbucket state := state]> (or_partitions report))
           (or_rollbacks report ++ opened.2))
  end.

(** The report, and the arguments the worker is spawned with. *)
Record DcpStream : Type := mkDcpStream {
  ds_open_report : StreamOpenReport;
  ds_partitions : gmap Z PartitionProgress;
  ds_queue_capacity : Z;
  ds_stream_end_on_close : bool
}.

Definition runtime_partitions (report : StreamOpenReport) : gmap Z PartitionProgress :=
  btree_collect ((λ s, (po_vbucket s,
    progress_new (po_start_seqno s) (po_end_seqno s) (po_stream_id s) (po_opaque s)))
    <$> btree_values (or_partitions report)).

Definition open_dcp_stream (to_vec : WireFilter → res string bytes)
    (capabilities : BootstrapCapabilities) (requests : list VBucketStreamRequest)
    (flow_control : FlowControlConfig) (policy : RollbackPolicy)
    (handler : option (nat → RollbackRequest → outcome RollbackAction))
    : io KvConnection DcpStream :=
  do! io_lift (flow_control_validate flow_control) in
  do! io_lift (validate_requests requests) in
  do! io_lift (validate_capabilities capabilities requests) in
  do! io_lift (if bool_decide (policy = PolicyDelegateToHandler)
                  && bool_decide (¬ is_Some handler)
               then Err (InvalidConfiguration
                 "DelegateToHandler rollback policy requires a rollback handler")
               else Ok tt) in
  let! report := open_partitions to_vec policy handler requests (mkStreamOpenReport ∅ []) in
  io_ret (mkDcpStream report (runtime_partitions report)
            (fc_event_queue_capacity flow_control)
            (supports_control capabilities StreamEndOnClose)).
End Loop.

(** ** Lemmas: flow-control credit *)

(** The bytes a frame acknowledges. *)
Definition ack_amount (f : Frame) : Z :=
  if opcode f =? OP_DCP_BUFFER_ACK then from_be_bytes (extras f) else 0.
Definition acked (c : KvConnection) : Z := foldr Z.add 0 (ack_amount <$> kc_sent c).
(** Acknowledged plus pending: every byte recorded so far. *)
Definition credited (w : Worker) : Z :=
  acked (wk_connection w) + cr_pending (wk_credit w).

(** The frames other than acknowledgements. *)
Definition not_ack (f : Frame) : bool := negb (opcode f =? OP_DCP_BUFFER_ACK).
Definition answered (c : KvConnection) : list Frame := List.filter not_ack (kc_sent c).

Lemma acked_snoc c f sent :
  kc_sent c = sent ++ [f] → acked c = foldr Z.add 0 (ack_amount <$> sent) + ack_amount f.
Proof.
  intros Hs. unfold acked. rewrite Hs, fmap_app. cbn [fmap list_fmap].
  induction (ack_amount <$> sent) as [|z l IH]; cbn; [lia|]. rewrite IH. lia.
Qed.
Lemma ack_amount_buffer_ack n o : is_u32 n → ack_amount (buffer_ack n o) = n.
Proof. intros Hn. unfold ack_amount. cbn. by apply from_put_u32. Qed.

(** What credit operations leave alone: everything but the frames sent and the credit. *)
Record credit_step (w w' : Worker) : Prop := {
  cs_partitions : wk_partitions w' = wk_partitions w;
  cs_output : wk_output w' = wk_output w;
  cs_sends : wk_sends w' = wk_sends w;
  cs_replies : wk_replies w' = wk_replies w;
  cs_threshold : cr_threshold (wk_credit w') = cr_threshold (wk_credit w);
  cs_reads : kc_reads (wk_connection w') = kc_reads (wk_connection w);
  cs_pending_frames : kc_pending (wk_connection w') = kc_pending (wk_connection w);
  cs_link : same_link (wk_connection w) (wk_connection w');
  cs_answered : answered (wk_connection w') = answered (wk_connection w)
}.

#[export] Instance credit_step_preorder : PreOrder credit_step.
Proof.
  split; [by intros w; split|]. intros w1 w2 w3 [] []. split; try congruence. by etrans.
Qed.

Lemma send_ack_step n w :
  is_u32 n →
  let '(o, w') := on_connection (send_frame (buffer_ack n 0)) w in
  credit_step w w' ∧ wk_credit w' = wk_credit w ∧ o ≠ Done Panic
  ∧ acked (wk_connection w')
    = acked (wk_connection w) + match o with Done (Ok _) => n | _ => 0 end.
Proof.
  intros Hn. unfold on_connection, io_zoom.
  pose proof (send_frame_spec (buffer_ack n 0) (wk_connection w)) as Hs.
  pose proof (send_frame_no_panic (buffer_ack n 0) (wk_connection w)) as Hp.
  destruct (send_frame _ _) as [o c']. destruct Hs as (Hr & Hpn & Hl & _ & Hs).
  split_and!; [split; try done|done|done|].
  - unfold answered. cbn [wk_connection set_connection]. rewrite Hs, List.filter_app.
    destruct o as [[u|e|]|]; cbn; by rewrite app_nil_r.
  - cbn [wk_connection set_connection]. destruct o as [[u|e|]|]; rewrite ?app_nil_r in Hs.
    1: { rewrite (acked_snoc _ _ _ Hs), ack_amount_buffer_ack by done. done. }
    all: unfold acked; rewrite Hs; lia.
Qed.

(** Flushing conserves credit and, when it succeeds, leaves nothing pending. *)
Lemma credit_flush_loop_spec fuel : ∀ w,
  0 ≤ cr_pending (wk_credit w) →
  cr_pending (wk_credit w) ≤ (Z.of_nat fuel - 1) * u32_max →
  let '(o, w') := credit_flush_loop fuel w in
  credit_step w w' ∧ credited w' = credited w ∧ 0 ≤ cr_pending (wk_credit w')
  ∧ o ≠ Done Panic
  ∧ (∀ u, o = Done (Ok u) → cr_pending (wk_credit w') = 0).
Proof.
  induction fuel as [|fuel IH]; intros w H0 Hf; cbn [credit_flush_loop].
  { by cbn in Hf; unfold u32_max in Hf; exfalso; lia. }
  unfold io_bind at 1, io_get. cbn beta iota.
  destruct (Z.eqb_spec (cr_pending (wk_credit w)) 0) as [Hz|Hz]; [by split_and!|].
  set (n := Z.min _ _). assert (is_u32 n) as Hn by (unfold n; unfold_ranges; lia).
  pose proof (send_ack_step n w Hn) as Hsend. unfold io_bind at 1.
  destruct (on_connection _ w) as [o w1]. destruct Hsend as (Hst & Hcr & Hnp & Hack).
  destruct o as [[[]|e|]|]; [| |done|].
  2,3: split_and!; try done; [unfold credited; rewrite Hack, Hcr; lia|by rewrite Hcr].
  unfold io_bind at 1, io_modify. cbn beta iota.
  set (w2 := set_credit_pending (cr_pending (wk_credit w) - n) w1).
  assert (cr_pending (wk_credit w2) = cr_pending (wk_credit w) - n) as Hp2 by done.
  assert (credit_step w w2) as Hst2.
  { etrans; [exact Hst|]. by split. }
  specialize (IH w2). destruct (credit_flush_loop fuel w2) as [o w'].
  destruct IH as (Hst' & Hc' & Hp' & Hnp' & Hok);
    [rewrite Hp2; unfold n; unfold_ranges; lia..|].
  split_and!; [by etrans| |done..]. rewrite Hc'. unfold credited. rewrite Hp2.
  cbn [wk_connection set_credit_pending w2]. rewrite Hack. lia.
Qed.

Lemma credit_flush_spec w :
  0 ≤ cr_pending (wk_credit w) →
  let '(o, w') := credit_flush w in
  credit_step w w' ∧ credited w' = credited w ∧ 0 ≤ cr_pending (wk_credit w')
  ∧ o ≠ Done Panic
  ∧ (∀ u, o = Done (Ok u) → cr_pending (wk_credit w') = 0).
Proof.
  intros H0. apply credit_flush_loop_spec; [done|].
  pose proof (Z.div_mod (cr_pending (wk_credit w)) u32_max ltac:(done)) as Hd.
  pose proof (Z.mod_pos_bound (cr_pending (wk_credit w)) u32_max ltac:(done)) as Hm.
  pose proof (Z.div_pos (cr_pending (wk_credit w)) u32_max ltac:(done) ltac:(done)). lia.
Qed.

(** Recording [n] bytes adds exactly [n] to the credit; when it succeeds, what is pending
    is below the threshold. *)
Lemma credit_record_spec n w :
  0 ≤ n → 0 ≤ cr_pending (wk_credit w) → 1 ≤ cr_threshold (wk_credit w) →
  let '(o, w') := credit_record n w in
  credit_step w w' ∧ 0 ≤ cr_pending (wk_credit w') ∧ o ≠ Done Panic
  ∧ (∀ u, o = Done (Ok u) →
      credited w' = credited w + n ∧ cr_pending (wk_credit w') < cr_threshold (wk_credit w)).
Proof.
  intros Hn H0 Ht. unfold credit_record, io_bind at 1, io_get. cbn beta iota.
  unfold io_bind at 1, io_lift. destruct (checked_add _ _ n) as [total|] eqn:Ha; cbn [ok_or];
    [|by split_and!].
  apply checked_add_inv in Ha as [-> _]. unfold io_bind, io_modify. cbn beta iota.
  set (w1 := set_credit_pending _ w).
  change (cr_threshold (wk_credit w1)) with (cr_threshold (wk_credit w)).
  assert (credit_step w w1) as Hst by by split.
  assert (credited w1 = credited w + n) as Hc by (unfold credited; cbn; lia).
  destruct (Z.leb_spec (cr_threshold (wk_credit w)) (cr_pending (wk_credit w) + n)).
  - pose proof (credit_flush_spec w1 ltac:(cbn; lia)) as Hfl.
    destruct (credit_flush w1) as [o w']. destruct Hfl as (Hst' & Hc' & Hp' & Hnp & Hok).
    split_and!; [by etrans|done..|]. intros u Hu. rewrite (Hok u Hu). split; [congruence|lia].
  - split_and!; [done|cbn; lia|done|]. intros u _. split; [done|]. cbn. lia.
Qed.

(** ** Lemmas: the credit threshold *)

Lemma threshold_search_spec below fuel : ∀ low high,
  low ≤ high → high - low < 2 ^ Z.of_nat fuel →
  let t := threshold_search below fuel low high in
  low ≤ t ≤ high ∧ (t = low ∨ below (t - 1) = true) ∧ (t = high ∨ below t = false).
Proof.
  induction fuel as [|fuel IH]; intros low high Hle Hf; cbn [threshold_search].
  { change (2 ^ Z.of_nat 0) with 1 in Hf. cbn zeta. lia. }
  destruct (Z.ltb_spec low high) as [Hlt|]; [|cbn zeta; lia].
  rewrite Nat2Z.inj_succ, Z.pow_succ_r in Hf by lia.
  pose proof (Z.div_mod (high - low) 2 ltac:(done)) as Hd.
  pose proof (Z.mod_pos_bound (high - low) 2 ltac:(done)) as Hm.
  set (mid := low + (high - low) / 2) in *. cbn zeta.
  destruct (below mid) eqn:Hb.
  - destruct (IH (mid + 1) high) as (H1 & H2 & H3); [unfold mid; lia..|].
    split_and!; [unfold mid in *; lia..| |done]. right. destruct H2 as [-> |]; [|done].
    by replace (mid + 1 - 1) with mid by lia.
  - destruct (IH low mid) as (H1 & H2 & H3); [unfold mid; lia..|].
    split_and!; [unfold mid in *; lia..|done|]. right. destruct H3 as [-> |]; done.
Qed.

(** ** Lemmas: progress and conversion *)

Lemma observe_spec m p :
  match observe m p with
  | Ok p' =>
      pp_end_seqno p' = pp_end_seqno p ∧ pp_stream_id p' = pp_stream_id p
      ∧ pp_opaque p' = pp_opaque p
      ∧ match message_seqno m with
        | Some s => pp_last_seqno p < s ≤ pp_end_seqno p ∧ pp_last_seqno p' = s
            ∧ pp_snapshot p' = pp_snapshot p
            ∧ ∃ first final, pp_snapshot p = Some (first, final) ∧ first ≤ s ≤ final
        | None => pp_last_seqno p' = pp_last_seqno p
        end
  | Err _ => True
  | Panic => False
  end.
Proof.
  destruct m; cbn [observe message_seqno message_vbucket]; try done.
  4: by next_guard Hb.
  all: destruct (pp_snapshot p) as [[first final]|] eqn:Hs; [|done].
  all: next_guard Hb; [done|].
  all: next_guard Hl; [done|]; cbn.
  all: split_and!; try done; try lia; exists first, final; split; [done|lia].
Qed.

Lemma convert_event_spec m :
  match convert_event m with
  | Ok e => message_vbucket m = Some (event_vbucket e) ∧ event_seqno e = message_seqno m
      ∧ (is_stream_end m = true ↔ ∃ x, e = EStreamEnd x)
  | Err _ => message_vbucket m = None
  | Panic => False
  end.
Proof.
  destruct m; cbn; try done; split_and!; try done; (split; [by eauto|]); by intros [? ?].
Qed.

(** ** Lemmas: one frame *)

Definition worker_ok (w : Worker) : Prop :=
  0 ≤ cr_pending (wk_credit w) ∧ 1 ≤ cr_threshold (wk_credit w).

Lemma credit_step_ok w w' :
  credit_step w w' → 0 ≤ cr_pending (wk_credit w') → worker_ok w → worker_ok w'.
Proof. intros [] ? [? ?]. split; [done|congruence]. Qed.

(** What a reply that is not an acknowledgement changes. *)
Lemma send_reply_step f w :
  not_ack f = true →
  let '(o, w') := on_connection (send_frame f) w in
  wk_partitions w' = wk_partitions w ∧ wk_output w' = wk_output w
  ∧ wk_credit w' = wk_credit w ∧ credited w' = credited w ∧ wk_replies w' = wk_replies w
  ∧ kc_reads (wk_connection w') = kc_reads (wk_connection w)
  ∧ kc_pending (wk_connection w') = kc_pending (wk_connection w)
  ∧ same_link (wk_connection w) (wk_connection w')
  ∧ o ≠ Done Panic
  ∧ answered (wk_connection w')
    = answered (wk_connection w) ++ match o with Done (Ok _) => [f] | _ => [] end.
Proof.
  intros Hf. unfold on_connection, io_zoom.
  pose proof (send_frame_spec f (wk_connection w)) as Hs.
  pose proof (send_frame_no_panic f (wk_connection w)) as Hp.
  destruct (send_frame _ _) as [o c']. destruct Hs as (Hr & Hpn & Hl & _ & Hs).
  assert (acked c' = acked (wk_connection w)) as Ha.
  { destruct o as [[u|e|]|]; rewrite ?app_nil_r in Hs; [|unfold acked; by rewrite Hs..].
    assert (ack_amount f = 0) as Hz
      by (unfold ack_amount, not_ack in *; by destruct (opcode f =? OP_DCP_BUFFER_ACK)).
    rewrite (acked_snoc _ _ _ Hs), Hz. unfold acked. lia. }
  cbn [wk_partitions wk_output wk_credit wk_replies wk_connection set_connection].
  unfold credited. cbn [wk_credit wk_connection set_connection].
  split_and!; try done; [by rewrite Ha|]. unfold answered. rewrite Hs, List.filter_app.
  by destruct o as [[u|e|]|]; cbn [List.filter]; rewrite ?Hf.
Qed.

(** What happens to an item offered to the channel. *)
Lemma deliver_step item w :
  let '(o, w') := deliver item w in
  wk_connection w' = wk_connection w ∧ wk_partitions w' = wk_partitions w
  ∧ wk_credit w' = wk_credit w ∧ wk_replies w' = wk_replies w ∧ o ≠ Done Panic
  ∧ wk_output w' = wk_output w ++ match o with Done (Ok _) => [Ok item] | _ => [] end.
Proof.
  unfold deliver, io_bind, output_send.
  destruct (wk_sends w) as [|[| |] s]; cbn; rewrite ?app_nil_r; by split_and!.
Qed.

(** The frames the client owes in reply to an event. *)
Definition snapshot_acks (f : Frame) (m : DcpMessage) : list Frame :=
  if needs_snapshot_ack m then [snapshot_marker_response (opaque f)] else [].

(** Progress of an event accepted on its active stream. *)
Definition accepted (f : Frame) (m : DcpMessage) (ps : gmap Z PartitionProgress)
    (vb : Z) (p p' : PartitionProgress) : Prop :=
  message_vbucket m = Some vb ∧ ps !! vb = Some p ∧ opaque f = pp_opaque p
  ∧ message_stream_id m = pp_stream_id p ∧ observe m p = Ok p'.

Lemma check_progress_spec f m ps :
  match check_progress f m ps with
  | Ok (vb, p') => ∃ p, accepted f m ps vb p p'
  | Err _ => True
  | Panic => False
  end.
Proof.
  unfold check_progress. destruct (message_vbucket m) as [vb|] eqn:Hvb; cbn [ok_or]; [|done].
  destruct (ps !! vb) as [p|] eqn:Hp; cbn [ok_or]; [|done].
  destruct (Z.eqb_spec (opaque f) (pp_opaque p)); cbn [negb]; [|done].
  case_bool_decide; cbn [negb]; [|done].
  pose proof (observe_spec m p). destruct (observe m p) as [p'| |] eqn:Ho; [|done..].
  by exists p.
Qed.

(** The effect of one event on the worker, whatever the outcome: nothing, or progress on
    its stream with the event delivered or the worker about to stop. *)
Record event_effect (f : Frame) (wire : Z) (m : DcpMessage) (w : Worker) (o : outcome unit)
    (w' : Worker) (vb : Z) (p p' : PartitionProgress) (ev : DcpEvent) : Prop := {
  ee_accepted : accepted f m (wk_partitions w) vb p p';
  ee_convert : convert_event m = Ok ev;
  ee_partitions : wk_partitions w' = <[vb := p']> (wk_partitions w)
    ∨ (is_stream_end m = true ∧ wk_partitions w' = delete vb (wk_partitions w));
  ee_output : wk_output w' = wk_output w
    ∨ wk_output w' = wk_output w ++ [Ok (ItemEvent ev)];
  ee_done : ∀ u, o = Done (Ok u) →
    wk_partitions w' = (if is_stream_end m then delete vb (wk_partitions w)
                        else <[vb := p']> (wk_partitions w))
    ∧ wk_output w' = wk_output w ++ [Ok (ItemEvent ev)]
    ∧ credited w' = credited w + wire
    ∧ cr_pending (wk_credit w') < cr_threshold (wk_credit w)
    ∧ answered (wk_connection w') = answered (wk_connection w) ++ snapshot_acks f m
}.

(** The parts of a worker no frame touches. *)
Definition frame_stable (w w' : Worker) : Prop :=
  wk_replies w' = wk_replies w
  ∧ kc_reads (wk_connection w') = kc_reads (wk_connection w)
  ∧ kc_pending (wk_connection w') = kc_pending (wk_connection w)
  ∧ same_link (wk_connection w) (wk_connection w')
  ∧ cr_threshold (wk_credit w') = cr_threshold (wk_credit w).

#[export] Instance frame_stable_preorder : PreOrder frame_stable.
Proof.
  split; [by intros w|]. intros w1 w2 w3 (?&?&?&?&?) (?&?&?&?&?).
  split_and!; try congruence. by etrans.
Qed.

Lemma send_snapshot_ack_step f m w :
  let '(o, w') := send_snapshot_ack f m w in
  frame_stable w w' ∧ wk_partitions w' = wk_partitions w ∧ wk_output w' = wk_output w
  ∧ wk_credit w' = wk_credit w ∧ credited w' = credited w ∧ o ≠ Done Panic
  ∧ (∀ u, o = Done (Ok u) →
      answered (wk_connection w') = answered (wk_connection w) ++ snapshot_acks f m).
Proof.
  unfold send_snapshot_ack, snapshot_acks. destruct (needs_snapshot_ack m).
  - pose proof (send_reply_step (snapshot_marker_response (opaque f)) w eq_refl) as Hs.
    destruct (on_connection _ w) as [o w1].
    destruct Hs as (? & ? & Hc & ? & ? & ? & ? & ? & ? & Ha).
    split_and!; try done; [unfold frame_stable; by rewrite Hc|]. intros u ->. done.
  - cbn. split_and!; try done. intros. by rewrite app_nil_r.
Qed.

Lemma handle_event_spec f wire m w :
  0 ≤ wire → worker_ok w →
  let '(o, w') := handle_event f wire m w in
  worker_ok w' ∧ frame_stable w w' ∧ o ≠ Done Panic
  ∧ ((w' = w ∧ ∃ e, o = Done (Err e)) ∨ ∃ vb p p' ev, event_effect f wire m w o w' vb p p' ev).
Proof.
  intros Hwire Hok. unfold handle_event. unfold io_bind at 1, io_get. cbn beta iota.
  unfold io_bind at 1, io_lift at 1. pose proof (check_progress_spec f m (wk_partitions w)) as Hck.
  destruct (check_progress f m (wk_partitions w)) as [[vb p']|e|]; [|by split_and!; eauto|done].
  destruct Hck as (p & Hacc). unfold io_bind at 1, io_modify at 1. cbn beta iota.
  set (w1 := set_wk_partitions (<[vb := p']> (wk_partitions w)) w).
  change (set_wk_partitions _ w) with w1.
  assert (credited w1 = credited w) as Hc1 by done.
  assert (frame_stable w w1) as Hs1 by done.
  pose proof (convert_event_spec m) as Hcv.
  destruct (convert_event m) as [ev|e|] eqn:Hev;
    [|destruct Hacc as (Hvb & _); congruence|done].
  unfold io_bind at 1. pose proof (send_snapshot_ack_step f m w1) as Hack.
  destruct (send_snapshot_ack f m w1) as [o2 w2].
  destruct Hack as (Hs2 & Hp2 & Ho2 & Hcr2 & Hc2 & Hnp2 & Ha2).
  assert (worker_ok w2) as Hok2 by (unfold worker_ok; by rewrite Hcr2).
  assert (frame_stable w w2) as Hs02 by (by etrans).
  destruct o2 as [[[]|e|]|]; [| |done|].
  2,3: split_and!; try done; right; exists vb, p, p', ev; split; by auto.
  unfold io_bind at 1, io_lift. cbn beta iota. unfold io_bind at 1.
  pose proof (deliver_step (ItemEvent ev) w2) as Hd.
  destruct (deliver (ItemEvent ev) w2) as [o3 w3].
  destruct Hd as (Hk3 & Hp3 & Hcr3 & Hr3 & Hnp3 & Ho3).
  assert (worker_ok w3) as Hok3 by (unfold worker_ok; by rewrite Hcr3).
  assert (frame_stable w w3) as Hs03.
  { etrans; [exact Hs02|]. unfold frame_stable. by rewrite Hk3, Hcr3. }
  destruct o3 as [[[]|e|]|]; [| |done|]; rewrite ?app_nil_r in Ho3.
  2,3: split_and!; try done; right; exists vb, p, p', ev; split; try done;
    [left|left]; rewrite ?Hp3, ?Hp2, ?Ho3, ?Ho2; done.
  unfold io_bind. pose proof (credit_record_spec wire w3 Hwire (proj1 Hok3) (proj2 Hok3)) as Hcr.
  destruct (credit_record wire w3) as [o4 w4]. destruct Hcr as (Hst4 & Hp4 & Hnp4 & Hc4).
  assert (worker_ok w4) as Hok4 by (by eapply credit_step_ok).
  destruct Hst4 as [E1 E2 _ E4 E5 E6 E7 E8 E9].
  assert (frame_stable w w4) as Hs04 by (by etrans).
  assert (wk_partitions w4 = <[vb := p']> (wk_partitions w)) as Hpart by by rewrite E1, Hp3, Hp2.
  assert (wk_output w4 = wk_output w ++ [Ok (ItemEvent ev)]) as Hout by by rewrite E2, Ho3, Ho2.
  destruct o4 as [[[]|e|]|]; [| |done|].
  2,3: split_and!; try done; right; exists vb, p, p', ev; split; by auto.
  assert (cr_threshold (wk_credit w3) = cr_threshold (wk_credit w)) as Ht by apply Hs03.
  assert (credited w3 = credited w) as Hc3 by (rewrite <-Hc1, <-Hc2; unfold credited; by rewrite Hk3, Hcr3).
  destruct (Hc4 tt eq_refl) as [Hcw Hpw]. rewrite Hc3 in Hcw. rewrite Ht in Hpw.
  assert (answered (wk_connection w4) = answered (wk_connection w) ++ snapshot_acks f m) as Ha
    by by rewrite E9, Hk3, (Ha2 tt eq_refl).
  destruct (is_stream_end m) eqn:Hend; cbn [io_modify io_ret io_lift].
  - assert (delete vb (wk_partitions w4) = delete vb (wk_partitions w)) as Hdel
      by by rewrite Hpart, delete_insert_eq.
    split_and!; try done. right. exists vb, p, p', ev.
    split; rewrite ?Hend; cbn [wk_partitions wk_output set_wk_partitions]; auto.
  - split_and!; try done. right. exists vb, p, p', ev. split; rewrite ?Hend; auto.
Qed.

(** ** What a handled frame amounts to *)

(** The events of a partition among the items on the channel. *)
Definition item_event (x : result DcpStreamItem) : option DcpEvent :=
  match x with Ok (ItemEvent e) => Some e | _ => None end.

(** The item, the credit and the replies each frame stands for. *)
Definition frame_item (peer : string) (f : Frame) : option DcpStreamItem :=
  if opcode f =? OP_GET_CLUSTER_CONFIG then Some (ItemTopologyConfig peer (value f))
  else match parse_dcp_message f with
  | Ok (MNoop _) => None
  | Ok (MUnknown u) => Some (ItemUnknown u)
  | Ok m => match convert_event m with Ok e => Some (ItemEvent e) | _ => None end
  | _ => None
  end.
Definition frame_credit (f : Frame) : Z :=
  if opcode f =? OP_GET_CLUSTER_CONFIG then 0
  else match parse_dcp_message f with
  | Ok (MNoop _) => 0
  | Ok (MUnknown u) => if between 0x50 0x65 (opcode u) then wire_size f else 0
  | Ok _ => wire_size f
  | _ => 0
  end.
Definition frame_replies (f : Frame) : list Frame :=
  if opcode f =? OP_GET_CLUSTER_CONFIG then []
  else match parse_dcp_message f with
  | Ok (MNoop o) => [noop_response o]
  | Ok m => snapshot_acks f m
  | _ => []
  end.

(** A frame the codec produced has a size. *)
Definition wire_ok (f : Frame) : Prop := ∀ n, received_wire_size f = Some n → 0 ≤ n.

Lemma wire_size_nonneg f : wire_ok f → 0 ≤ wire_size f.
Proof.
  unfold wire_ok, wire_size. destruct (received_wire_size f) as [n|]; intros Hn; [by apply Hn|].
  assert (∀ l : list FramingExtra,
    0 ≤ foldr Z.add 0 ((λ e, encoded_header_len e + len (fx_data e)) <$> l)) as Hf.
  { induction l as [|e l IH]; [done|]. rewrite fmap_cons. cbn [foldr].
    unfold encoded_header_len at 1.
    pose proof (len_nonneg (fx_data e)). repeat case_match; lia. }
  specialize (Hf (framing_extras f)).
  pose proof (len_nonneg (extras f)). pose proof (len_nonneg (key f)).
  pose proof (len_nonneg (value f)). unfold HEADER_LEN. lia.
Qed.

(** The effect of one frame, whatever the outcome. *)
Definition frame_effect (f : Frame) (w : Worker) (o : outcome unit) (w' : Worker) : Prop :=
  (wk_partitions w' = wk_partitions w
   ∧ ∃ extra, wk_output w' = wk_output w ++ extra ∧ Forall (λ x, item_event x = None) extra)
  ∨ ∃ m vb p p' ev, parse_dcp_message f = Ok m
      ∧ event_effect f (wire_size f) m w o w' vb p p' ev.

Lemma quiet_effect f w o w' :
  wk_partitions w' = wk_partitions w → wk_output w' = wk_output w → frame_effect f w o w'.
Proof. intros Hp Ho. left. split; [done|]. exists []. by rewrite app_nil_r. Qed.

(** Its exact contribution when it is handled. *)
Definition frame_done (f : Frame) (w w' : Worker) : Prop :=
  wk_output w' = wk_output w ++ option_list (Ok <$> frame_item (kc_peer (wk_connection w)) f)
  ∧ credited w' = credited w + frame_credit f
  ∧ cr_pending (wk_credit w') ≤ Z.max (cr_pending (wk_credit w)) (cr_threshold (wk_credit w) - 1)
  ∧ answered (wk_connection w') = answered (wk_connection w) ++ frame_replies f.

Lemma handle_unknown_spec f u w :
  wire_ok f → worker_ok w → opcode f ≠ OP_GET_CLUSTER_CONFIG →
  parse_dcp_message f = Ok (MUnknown u) →
  let '(o, w') := (do! deliver (ItemUnknown u) in
    if between 0x50 0x65 (opcode u) then credit_record (wire_size f) else io_ret tt) w in
  worker_ok w' ∧ frame_stable w w' ∧ o ≠ Done Panic ∧ frame_effect f w o w'
  ∧ (∀ x, o = Done (Ok x) → frame_done f w w').
Proof.
  intros Hw Hok Hop Hparse. unfold io_bind. pose proof (deliver_step (ItemUnknown u) w) as Hd.
  destruct (deliver (ItemUnknown u) w) as [o1 w1]. destruct Hd as (Hk & Hp & Hc & Hr & Hnp & Ho).
  assert (worker_ok w1) as Hok1 by (unfold worker_ok; by rewrite Hc).
  assert (frame_stable w w1) as Hs1 by (unfold frame_stable; by rewrite Hk, Hc).
  assert (∀ o, frame_effect f w o w1) as He.
  { intros o. left. split; [done|]. eexists. split; [exact Ho|]. by destruct o1 as [[?|?|]|]; repeat constructor. }
  destruct o1 as [[[]|e|]|]; [| |done|]; [|by split_and!..].
  assert (frame_item (kc_peer (wk_connection w)) f = Some (ItemUnknown u)
    ∧ frame_replies f = [] ∧ frame_credit f = if between 0x50 0x65 (opcode u) then wire_size f else 0)
    as (Hi & Hrep & Hcr).
  { unfold frame_item, frame_replies, frame_credit. by rewrite (proj2 (Z.eqb_neq _ _) Hop), Hparse. }
  unfold frame_done. rewrite Hi, Hrep, Hcr. cbn [option_list fmap option_fmap option_map].
  destruct (between 0x50 0x65 (opcode u)).
  - pose proof (credit_record_spec (wire_size f) w1 (wire_size_nonneg f Hw) (proj1 Hok1) (proj2 Hok1)) as Hcs.
    destruct (credit_record _ w1) as [o2 w2]. destruct Hcs as (Hst & Hp2 & Hnp2 & Hc2).
    assert (worker_ok w2) as Hok2 by (by eapply credit_step_ok).
    destruct Hst as [E1 E2 _ E4 E5 E6 E7 E8 E9].
    assert (frame_stable w w2) as Hs2 by (by etrans).
    split_and!; try done.
    + left. rewrite E1, E2. split; [done|]. eexists. split; [exact Ho|]. by repeat constructor.
    + intros x Hx. destruct (Hc2 x Hx) as [Hc2' Hp2']. rewrite E2, Ho, E9, Hk, app_nil_r, Hc2'.
      rewrite Hc in Hp2'. split_and!; try done; [unfold credited; by rewrite Hk, Hc|lia].
  - cbn [io_ret io_lift]. split_and!; try done. intros x _. rewrite Hk, Hc, app_nil_r.
    split_and!; try done; [unfold credited; rewrite Hk, Hc; lia|lia].
Qed.

(** Messages that belong to a stream. *)
Definition stream_message (m : DcpMessage) : bool :=
  match m with MNoop _ | MUnknown _ => false | _ => true end.

Lemma handle_frame_spec f w :
  wire_ok f → worker_ok w →
  let '(o, w') := handle_frame f w in
  worker_ok w' ∧ frame_stable w w' ∧ o ≠ Done Panic ∧ frame_effect f w o w'
  ∧ (∀ x, o = Done (Ok x) → frame_done f w w').
Proof.
  intros Hw Hok. unfold handle_frame.
  destruct (magic_is_response (magic f)); [by split_and!; try done; apply quiet_effect|].
  destruct (Z.eqb_spec (opcode f) OP_GET_CLUSTER_CONFIG) as [Hop|Hop].
  { unfold io_bind, io_get. cbn beta iota.
    pose proof (deliver_step (ItemTopologyConfig (kc_peer (wk_connection w)) (value f)) w) as Hd.
    destruct (deliver _ w) as [o1 w1]. destruct Hd as (Hk & Hp & Hc & Hr & Hnp & Ho).
    split_and!; [unfold worker_ok; by rewrite Hc|unfold frame_stable; by rewrite Hk, Hc|done|..].
    - left. split; [done|]. eexists. split; [exact Ho|]. by destruct o1 as [[?|?|]|]; repeat constructor.
    - intros x ->. unfold frame_done, frame_item, frame_credit, frame_replies.
      rewrite Hop, Z.eqb_refl, Ho, Hk, Hc, app_nil_r.
      split_and!; try done; [unfold credited; rewrite Hk, Hc; lia|lia]. }
  unfold io_bind at 1, io_lift at 1.
  pose proof (parse_dcp_message_no_panic f) as Hnp.
  destruct (parse_dcp_message f) as [m|e|] eqn:Hm; cbn [from_protocol map_err];
    [|by split_and!; try done; apply quiet_effect|done].
  pose proof (handle_event_spec f (wire_size f) m w (wire_size_nonneg f Hw) Hok) as He.
  assert (∀ o w', stream_message m = true →
    worker_ok w' ∧ frame_stable w w' ∧ o ≠ Done Panic
    ∧ ((w' = w ∧ ∃ e, o = Done (Err e))
       ∨ ∃ vb p p' ev, event_effect f (wire_size f) m w o w' vb p p' ev) →
    worker_ok w' ∧ frame_stable w w' ∧ o ≠ Done Panic ∧ frame_effect f w o w'
    ∧ (∀ x, o = Done (Ok x) → frame_done f w w')) as Hevent.
  { intros o w' Hcase (? & ? & ? & [[-> [e ->]]|(vb & p & p' & ev & Hee)]).
    { split_and!; try done. by apply quiet_effect. }
    split_and!; try done; [right; by exists m, vb, p, p', ev|].
    intros x Hx. destruct Hee as [_ Hcv _ _ Hdone].
    destruct (Hdone x Hx) as (_ & Ho & Hc & Hpend & Ha).
    unfold frame_done, frame_item, frame_credit, frame_replies.
    rewrite (proj2 (Z.eqb_neq _ _) Hop), Hm, Ho, Hc, Ha.
    destruct m; try done; rewrite Hcv; split_and!; try done; lia. }
  destruct m; try (destruct (handle_event _ _ _ w) as [o w']; by apply Hevent).
  - pose proof (send_reply_step (noop_response opaque) w eq_refl) as Hs.
    destruct (on_connection _ w) as [o w1]. destruct Hs as (Hp & Ho & Hc & Hcd & Hr & H1 & H2 & H3 & H4 & Ha).
    split_and!; [unfold worker_ok; by rewrite Hc|unfold frame_stable; by rewrite Hc|done|by apply quiet_effect|].
    intros x ->. unfold frame_done, frame_item, frame_credit, frame_replies.
    rewrite (proj2 (Z.eqb_neq _ _) Hop), Hm, Hcd, Hc, Ho. cbn [fmap option_fmap option_map option_list].
    rewrite app_nil_r. split_and!; try done; lia.
  - by apply handle_unknown_spec.
Qed.

(** ** Delivery order *)

Definition events_of (vb : Z) (out : list (result DcpStreamItem)) : list DcpEvent :=
  filter (λ e, event_vbucket e = vb) (omap item_event out).
Definition seqnos_of (vb : Z) (out : list (result DcpStreamItem)) : list Z :=
  omap event_seqno (events_of vb out).

(** Nothing follows a stream end. *)
Definition end_is_last (l : list DcpEvent) : Prop :=
  ∀ l1 e l2, l = l1 ++ EStreamEnd e :: l2 → l2 = [].

(** The events of each requested stream: strictly increasing sequence numbers after the
    start and up to the end, nothing after the stream end; no events of other streams. *)
Definition delivery_ok (ps0 : gmap Z PartitionProgress) (out : list (result DcpStreamItem))
    : Prop :=
  ∀ vb, match ps0 !! vb with
  | None => events_of vb out = []
  | Some p0 =>
      StronglySorted Z.lt (pp_last_seqno p0 :: seqnos_of vb out)
      ∧ Forall (λ s, s ≤ pp_end_seqno p0) (seqnos_of vb out)
      ∧ end_is_last (events_of vb out)
  end.

(** Between rounds: progress is ahead of everything delivered, and no active stream has
    ended. *)
Definition active_inv (ps0 ps : gmap Z PartitionProgress) (out : list (result DcpStreamItem))
    : Prop :=
  delivery_ok ps0 out
  ∧ ∀ vb p, ps !! vb = Some p → ∃ p0, ps0 !! vb = Some p0
      ∧ pp_end_seqno p = pp_end_seqno p0 ∧ pp_last_seqno p0 ≤ pp_last_seqno p
      ∧ Forall (λ s, s ≤ pp_last_seqno p) (seqnos_of vb out)
      ∧ Forall (λ e, ∀ x, e ≠ EStreamEnd x) (events_of vb out).

Lemma events_of_snoc vb out ev :
  events_of vb (out ++ [Ok (ItemEvent ev)])
  = events_of vb out ++ (if decide (event_vbucket ev = vb) then [ev] else []).
Proof.
  unfold events_of. rewrite omap_app. cbn [omap list_omap item_event]. rewrite filter_app.
  by rewrite filter_cons, filter_nil.
Qed.
Lemma events_of_quiet vb out extra :
  Forall (λ x, item_event x = None) extra → events_of vb (out ++ extra) = events_of vb out.
Proof.
  intros Hx. unfold events_of. rewrite omap_app.
  assert (omap item_event extra = []) as ->; [|by rewrite app_nil_r].
  induction Hx as [|x l Hx _ IH]; [done|]. cbn. by rewrite Hx.
Qed.
Lemma delivery_ok_quiet ps0 out extra :
  Forall (λ x, item_event x = None) extra → delivery_ok ps0 out → delivery_ok ps0 (out ++ extra).
Proof.
  intros Hx Hd vb. specialize (Hd vb). unfold seqnos_of in *. by rewrite events_of_quiet.
Qed.
Lemma active_inv_quiet ps0 ps out extra :
  Forall (λ x, item_event x = None) extra → active_inv ps0 ps out → active_inv ps0 ps (out ++ extra).
Proof.
  intros Hx [Hd Ha]. split; [by apply delivery_ok_quiet|].
  intros vb p Hp. unfold seqnos_of. rewrite events_of_quiet by done. by apply Ha.
Qed.

Lemma end_is_last_snoc l ev :
  Forall (λ e, ∀ x, e ≠ EStreamEnd x) l → end_is_last (l ++ [ev]).
Proof.
  intros Hl l1 e l2 Heq. destruct l2 as [|y l2 _] using rev_ind; [done|].
  rewrite app_comm_cons, app_assoc in Heq. apply app_inj_tail in Heq as [Heq _].
  rewrite Heq, Forall_app, Forall_cons in Hl. destruct Hl as (_ & Hl & _). by destruct (Hl e).
Qed.
Lemma sorted_snoc (l : list Z) s :
  StronglySorted Z.lt l → Forall (λ x, x < s) l → StronglySorted Z.lt (l ++ [s]).
Proof.
  induction 1 as [|x l Hs IH Hx]; intros Hl; [by repeat constructor|].
  apply Forall_cons in Hl as [? ?]. constructor; [by apply IH|].
  apply Forall_app_2; [done|by constructor].
Qed.

(** Sequence numbers an active stream may still deliver. *)
Definition fresh_event (p : PartitionProgress) (ev : DcpEvent) : Prop :=
  ∀ s, event_seqno ev = Some s → pp_last_seqno p < s ≤ pp_end_seqno p.

Lemma delivery_ok_event ps0 ps out p ev :
  active_inv ps0 ps out → ps !! event_vbucket ev = Some p → fresh_event p ev →
  delivery_ok ps0 (out ++ [Ok (ItemEvent ev)]).
Proof.
  intros [Hd Ha] Hp Hf vb. specialize (Hd vb). unfold seqnos_of in *. rewrite events_of_snoc.
  destruct (decide (event_vbucket ev = vb)) as [<-|]; [|by rewrite app_nil_r].
  destruct (Ha _ _ Hp) as (p0 & Hp0 & He & Hle & Hall & Hend). rewrite Hp0 in *.
  destruct Hd as (Hs & Hb & _). split_and!; [..|by apply end_is_last_snoc].
  all: rewrite omap_app; cbn [omap list_omap].
  all: destruct (event_seqno ev) as [s|] eqn:Hsq; [|by rewrite app_nil_r].
  all: destruct (Hf s Hsq) as [Hlt Hse].
  - rewrite app_comm_cons. apply sorted_snoc; [done|]. constructor; [lia|].
    eapply Forall_impl; [exact Hall|]. cbn. lia.
  - apply Forall_app_2; [done|]. constructor; [lia|done].
Qed.

Lemma active_inv_delete ps0 ps out p ev :
  active_inv ps0 ps out → ps !! event_vbucket ev = Some p → fresh_event p ev →
  active_inv ps0 (delete (event_vbucket ev) ps) (out ++ [Ok (ItemEvent ev)]).
Proof.
  intros Hinv Hp Hf. split; [by eapply delivery_ok_event|].
  intros vb q [Hne Hq]%lookup_delete_Some. unfold seqnos_of. rewrite events_of_snoc.
  rewrite decide_False, app_nil_r by done. by apply Hinv.
Qed.

Lemma active_inv_insert ps0 ps out p p' ev :
  active_inv ps0 ps out → ps !! event_vbucket ev = Some p → fresh_event p ev →
  (∀ x, ev ≠ EStreamEnd x) → pp_end_seqno p' = pp_end_seqno p →
  pp_last_seqno p' = default (pp_last_seqno p) (event_seqno ev) →
  active_inv ps0 (<[event_vbucket ev := p']> ps) (out ++ [Ok (ItemEvent ev)]).
Proof.
  intros Hinv Hp Hf Hne He Hl. split; [by eapply delivery_ok_event|].
  intros vb q Hq. unfold seqnos_of. rewrite events_of_snoc.
  apply lookup_insert_Some in Hq as [[<- <-]|[Hvb Hq]];
    [|rewrite decide_False, app_nil_r by done; by apply Hinv].
  rewrite decide_True by done. destruct Hinv as [_ Ha].
  destruct (Ha _ _ Hp) as (p0 & Hp0 & He0 & Hle & Hall & Hend). exists p0.
  assert (pp_last_seqno p ≤ pp_last_seqno p') as Hpp.
  { rewrite Hl. destruct (event_seqno ev) as [s|] eqn:Hs; cbn; [|lia]. destruct (Hf s Hs). lia. }
  split_and!; [done|congruence|lia|..]; rewrite ?omap_app; apply Forall_app_2.
  - eapply Forall_impl; [exact Hall|]. cbn. lia.
  - cbn [omap list_omap]. destruct (event_seqno ev) as [s|]; [|done].
    constructor; [rewrite Hl; done|done].
  - done.
  - by constructor.
Qed.

(** A handled or failed frame keeps the order. *)
Lemma frame_effect_order ps0 f w o w' :
  active_inv ps0 (wk_partitions w) (wk_output w) → frame_effect f w o w' →
  delivery_ok ps0 (wk_output w')
  ∧ (∀ u, o = Done (Ok u) → active_inv ps0 (wk_partitions w') (wk_output w')).
Proof.
  intros Hinv [(Hp & extra & Ho & Hx)|(m & vb & p & p' & ev & _ & Hee)].
  { rewrite Hp, Ho. pose proof (active_inv_quiet _ _ _ _ Hx Hinv) as [? ?]. split; [done|by split]. }
  destruct Hee as [(Hvb & Hps & _ & _ & Hobs) Hcv _ Hout Hdone].
  pose proof (convert_event_spec m) as Hc. rewrite Hcv in Hc. destruct Hc as (Hvb' & Hsq & Hend).
  rewrite Hvb in Hvb'. injection Hvb' as ->.
  pose proof (observe_spec m p) as Hos. rewrite Hobs in Hos. destruct Hos as (He & _ & _ & Hl).
  rewrite <-Hsq in Hl.
  assert (fresh_event p ev) as Hf by (intros s Hs; rewrite Hs in Hl; apply Hl).
  split.
  - destruct Hout as [-> | ->]; [by destruct Hinv|]. by eapply delivery_ok_event.
  - intros u Hu. destruct (Hdone u Hu) as (-> & -> & _).
    destruct (is_stream_end m) eqn:Hse; [by apply (active_inv_delete _ _ _ p)|].
    apply (active_inv_insert _ _ _ p); try done.
    + intros x Hx. assert (false = true) by (apply Hend; eauto). done.
    + destruct (event_seqno ev) as [s|]; cbn; [apply Hl|exact Hl].
Qed.

(** ** Lemmas: the loop *)

Section LoopLemmas.
Context `{Snappy}.

(** The frames a connection still has to hand out, in order. *)
Definition inbox (c : KvConnection) : list Frame :=
  kc_pending c ++ omap (inbound_frame (kc_snappy_enabled c)) (kc_reads c).

Lemma receive_frame_spec c :
  let '(o, c') := receive_frame c in
  same_link c c' ∧ kc_sent c' = kc_sent c ∧ o ≠ Done Panic
  ∧ inbox c = match o with Done (Ok f) => [f] | _ => [] end ++ inbox c'.
Proof.
  unfold receive_frame. destruct (kc_pending c) as [|f rest] eqn:Hp.
  2: { unfold inbox. by rewrite Hp. }
  unfold read_raw. destruct (kc_reads c) as [|ev rest] eqn:Hr.
  { unfold inbox. by rewrite Hp, Hr. }
  pose proof (take_read_spec ev (set_reads rest c)) as Ht.
  destruct (take_read ev _) as [o c']. destruct Ht as (Hl & Hr' & Hp' & Hs & _ & _ & Hnp & Hin).
  assert (same_link c c') as Hl' by done.
  cbn [kc_reads kc_pending kc_sent kc_snappy_enabled set_reads] in *.
  split_and!; try done. unfold inbox. rewrite Hp, Hp', Hr, Hr', Hp.
  assert (kc_snappy_enabled c' = kc_snappy_enabled c) as -> by apply Hl'.
  cbn [omap list_omap app]. rewrite Hin. by destruct o as [[?|?|]|].
Qed.

Lemma conn_request_inbox q c f :
  f ∈ inbox (conn_request q c).2 → f ∈ inbox c.
Proof.
  destruct (conn_request q c) as [o c'] eqn:Hq. cbn [snd].
  destruct (conn_request_spec _ _ _ _ Hq) as
    (consumed & skipped & Hr & Hp & Hom & _ & _ & _ & _ & _ & _ & _ & Hsn).
  unfold inbox. rewrite Hr, Hp, Hsn, omap_app, Hom, !elem_of_app. tauto.
Qed.

(** What no round breaks. *)
Definition round_ok (w : Worker) : Prop :=
  worker_ok w ∧ Forall wire_ok (inbox (wk_connection w)).

Lemma stable_inbox w w' :
  same_link (wk_connection w) (wk_connection w') →
  kc_reads (wk_connection w') = kc_reads (wk_connection w) →
  kc_pending (wk_connection w') = kc_pending (wk_connection w) →
  inbox (wk_connection w') = inbox (wk_connection w).
Proof. intros (_ & _ & _ & Hs) Hr Hp. unfold inbox. by rewrite Hs, Hr, Hp. Qed.

(** Flushing at the end of a round. *)
Lemma try_flush_round w :
  round_ok w →
  let '(o, w') := io_try credit_flush w in
  round_ok w' ∧ o ≠ Done Panic ∧ (∀ e, o ≠ Done (Err e)) ∧ o ≠ Done (Ok Panic)
  ∧ wk_output w' = wk_output w ∧ wk_partitions w' = wk_partitions w.
Proof.
  intros [Hok Hin]. unfold io_try. pose proof (credit_flush_spec w (proj1 Hok)) as Hf.
  destruct (credit_flush w) as [o w']. destruct Hf as (Hst & _ & Hp & Hnp & _).
  pose proof (credit_step_ok _ _ Hst Hp Hok) as Hok'. destruct Hst.
  assert (round_ok w') as Hr by (split; [done|]; by erewrite stable_inbox).
  by destruct o as [[u|e|]|]; split_and!.
Qed.

Lemma report_round ps0 e w :
  round_ok w → delivery_ok ps0 (wk_output w) →
  let '(o, w') := report e w in
  round_ok w' ∧ o ≠ Done Panic ∧ (∀ e, o ≠ Done (Err e)) ∧ o ≠ Done (Ok true)
  ∧ delivery_ok ps0 (wk_output w').
Proof.
  intros Hr Hd. unfold report, io_bind, output_send.
  destruct (wk_sends w) as [|[| |] s]; cbn; split_and!; try done;
    apply delivery_ok_quiet; by repeat constructor.
Qed.

(** One round from a consistent state: never a panic, the deliveries stay in order, and a
    worker that goes on is consistent again. *)
Definition round_result (ps0 : gmap Z PartitionProgress) (o : outcome bool) (w' : Worker) : Prop :=
  round_ok w' ∧ o ≠ Done Panic ∧ (∀ e, o ≠ Done (Err e))
  ∧ delivery_ok ps0 (wk_output w')
  ∧ (o = Done (Ok true) → active_inv ps0 (wk_partitions w') (wk_output w')).

Lemma handle_command_round ps0 b command w :
  round_ok w → active_inv ps0 (wk_partitions w) (wk_output w) →
  let '(o, w') := handle_command b command w in round_result ps0 o w'.
Proof.
  intros Hr Hinv. destruct command as [vb|]; cbn [handle_command].
  2: { unfold io_bind at 1. pose proof (try_flush_round w Hr) as Hf.
       destruct (io_try credit_flush w) as [[[r|e|]|] w1];
         destruct Hf as (? & ? & He & ? & Ho & _); try done; [|by destruct (He e)|].
       - split_and!; try done. cbn [wk_output add_reply]. rewrite Ho. apply Hinv.
       - split_and!; try done. rewrite Ho. apply Hinv. }
  unfold io_bind at 1, io_get. cbn beta iota.
  destruct (wk_partitions w !! vb) as [p|] eqn:Hp; [|split_and!; try done; apply Hinv].
  unfold io_bind at 1, io_try. unfold request_close at 1, io_bind at 1, on_connection, io_zoom.
  pose proof (exchange_request true (λ _, True) (close_stream vb (pp_stream_id p) 0)
    (λ _, I) (wk_connection w)) as (Hnh & Hnp & Hl & _).
  pose proof (conn_request_inbox (close_stream vb (pp_stream_id p) 0) (wk_connection w)) as Hin.
  destruct (conn_request _ (wk_connection w)) as [o1 c1]. cbn [fst snd] in *.
  set (w1 := set_connection c1 w).
  assert (∀ r, round_ok (add_reply r w1)) as Hr1.
  { intros r. split; [apply Hr|]. apply Forall_forall. intros f Hf.
    destruct Hr as [_ Hr]. rewrite Forall_forall in Hr. by apply Hr, Hin. }
  assert (∀ r, round_result ps0 (Done (Ok true)) (add_reply r w1)) as Hgo.
  { intros r. split; [apply Hr1|]. split_and!; try done; apply Hinv. }
  destruct o1 as [[resp|e|]|]; [|exact (Hgo (Err e))|by destruct (Hnp eq_refl)|done].
  unfold io_lift at 1. destruct (ensure_success_response resp _ _) as [[]|e|] eqn:Hens;
    [|exact (Hgo (Err e))|by apply ensure_success_response_no_panic in Hens].
  unfold io_bind at 1, io_modify at 1. cbn beta iota. cbn [is_ok].
  destruct b; cbn [negb andb]; [exact (Hgo (Ok tt))|].
  unfold io_bind, io_modify. cbn beta iota. unfold output_send.
  set (ev := EStreamEnd (Event.mkStreamEnd vb Event.EndClosed)).
  assert (active_inv ps0 (delete vb (wk_partitions w)) (wk_output w ++ [Ok (ItemEvent ev)])) as Ha
    by by apply (active_inv_delete _ _ _ p ev).
  cbn [wk_sends set_wk_partitions add_reply w1 set_connection].
  destruct (wk_sends w) as [|[| |] s]; (split; [apply (Hr1 (Ok tt))|]); split_and!; try done;
    first [apply Ha|apply Hinv].
Qed.

Lemma worker_round_spec ps0 config b pick w :
  round_ok w → active_inv ps0 (wk_partitions w) (wk_output w) →
  let '(o, w') := worker_round config b pick w in round_result ps0 o w'.
Proof.
  intros Hr Hinv. unfold worker_round. unfold io_bind at 1, io_get at 1. cbn beta iota.
  pose proof (try_flush_round w Hr) as Hf.
  destruct (decide (wk_partitions w = ∅)) as [_|_].
  { unfold io_bind. destruct (io_try credit_flush w) as [[[r|e|]|] w1];
      destruct Hf as (Hr1 & ? & He & ? & Ho & _); try done; [|by destruct (He e)|].
    2: { split_and!; try done. rewrite Ho. apply Hinv. }
    destruct r as [[]|e|]; [|..|done].
    - split_and!; try done. rewrite Ho. apply Hinv.
    - assert (delivery_ok ps0 (wk_output w1)) as Hd by (rewrite Ho; apply Hinv).
      pose proof (report_round ps0 e w1 Hr1 Hd) as Hrep.
      destruct (report e w1) as [o w']. destruct Hrep as (? & ? & ? & ? & ?). by split_and!. }
  destruct pick as [[command|]|].
  - by apply handle_command_round.
  - unfold io_bind. destruct (io_try credit_flush w) as [[[r|e|]|] w1];
      destruct Hf as (Hr1 & ? & He & ? & Ho & _); try done; [|by destruct (He e)|];
      split_and!; try done; rewrite Ho; apply Hinv.
  - clear Hf. unfold io_bind at 1, io_get. cbn beta iota. unfold io_bind at 1, io_try at 1, io_timeout.
    unfold on_connection, io_zoom. pose proof (receive_frame_spec (wk_connection w)) as Hrf.
    destruct (receive_frame (wk_connection w)) as [o1 c1]. destruct Hrf as (Hl & _ & Hnp & Hin).
    set (w1 := set_connection c1 w).
    assert (round_ok w1) as Hr1.
    { split; [apply Hr|]. destruct Hr as [_ Hr]. rewrite Hin in Hr. by apply Forall_app in Hr as [_ ?]. }
    assert (∀ e, let '(o, w') := report e w1 in round_result ps0 o w') as Hrep.
    { intros e. pose proof (report_round ps0 e w1 Hr1 (proj1 Hinv)) as Hrep.
      destruct (report e w1) as [o w']. destruct Hrep as (? & ? & ? & ? & ?). by split_and!. }
    destruct o1 as [[f|e|]|]; [|apply Hrep|done|apply Hrep].
    assert (wire_ok f) as Hwf.
    { destruct Hr as [_ Hr]. rewrite Hin in Hr. cbn [app] in Hr. by apply Forall_cons in Hr as [? _]. }
    unfold io_bind, io_try. pose proof (handle_frame_spec f w1 Hwf (proj1 Hr1)) as Hh.
    destruct (handle_frame f w1) as [o2 w2]. destruct Hh as (Hok2 & (_ & Hrd & Hpd & Hlk & _) & Hnp2 & Heff & _).
    assert (round_ok w2) as Hr2.
    { split; [done|]. rewrite (stable_inbox w1 w2) by done. apply Hr1. }
    destruct (frame_effect_order ps0 f w1 o2 w2 Hinv Heff) as [Hd Ha].
    destruct o2 as [[[]|e|]|]; [|..|done|].
    + split_and!; try done. intros _. by apply (Ha tt).
    + pose proof (report_round ps0 e w2 Hr2 Hd) as Hrep2.
      destruct (report e w2) as [o w']. destruct Hrep2 as (? & ? & ? & ? & ?). by split_and!.
    + by split_and!.
Qed.
End LoopLemmas.

Section Runs.
Context `{Snappy}.

Lemma run_rounds_order ps0 config b picks : ∀ w,
  round_ok w → active_inv ps0 (wk_partitions w) (wk_output w) →
  let '(st, w') := run_rounds config b picks w in
  st ≠ Panicked ∧ delivery_ok ps0 (wk_output w').
Proof.
  induction picks as [|pick picks IH]; intros w Hr Hinv; cbn [run_rounds].
  { split; [done|apply Hinv]. }
  pose proof (worker_round_spec ps0 config b pick w Hr Hinv) as Hs.
  destruct (worker_round config b pick w) as [o w1]. destruct Hs as (Hr1 & Hnp & Hne & Hd & Ha).
  destruct o as [[[]|e|]|]; [by apply IH; [|apply Ha]|done|by destruct (Hne e)|done..].
Qed.

Lemma active_inv_start ps0 : active_inv ps0 ps0 [].
Proof.
  split.
  - intros vb. destruct (ps0 !! vb); [|done]. split_and!; [by repeat constructor|done|].
    intros l1 e l2 Heq. by destruct l1.
  - intros vb p Hp. exists p. by split_and!.
Qed.

Lemma search_fuel n : n ≤ u32_max → n - 1 < 2 ^ Z.of_nat 33.
Proof. intros Hn. change (2 ^ Z.of_nat 33) with 8589934592. unfold_ranges. lia. Qed.

Lemma flow_credit_new_threshold config credit :
  0 ≤ fc_connection_buffer_size config → flow_credit_new config = Ok credit →
  cr_pending credit = 0 ∧ 1 ≤ cr_threshold credit.
Proof.
  unfold flow_credit_new. intros H0 Hc.
  destruct (try_from u32_max (fc_connection_buffer_size config)) as [n|] eqn:Hn; [|done].
  apply try_from_inv in Hn as [-> Hn]. cbn [ok_or] in Hc.
  remember (threshold_search _ 33 1 _) as t eqn:Ht in Hc. injection Hc as <-. split; [done|].
  cbn [cr_threshold]. subst t.
  destruct (decide (fc_connection_buffer_size config = 0)) as [->|]; [done|].
  destruct (threshold_search_spec (credit_below (fc_connection_buffer_size config)
    (fc_ack_ratio config)) 33 1 (fc_connection_buffer_size config)) as [? _];
    [lia|by apply search_fuel|lia].
Qed.

(** One received frame on a worker that goes on. *)
Lemma receive_round_ok config b w w' :
  round_ok w → worker_round config b PickReceive w = (Done (Ok true), w') →
  ∃ f, inbox (wk_connection w) = f :: inbox (wk_connection w') ∧ frame_done f w w'
    ∧ cr_threshold (wk_credit w') = cr_threshold (wk_credit w)
    ∧ kc_peer (wk_connection w') = kc_peer (wk_connection w) ∧ round_ok w'.
Proof.
  intros Hr Hrun. unfold worker_round in Hrun. unfold io_bind at 1, io_get at 1 in Hrun.
  cbn beta iota in Hrun. destruct (decide (wk_partitions w = ∅)) as [_|_].
  { apply io_bind_ok in Hrun as (r & w1 & _ & Hrun).
    destruct r as [[]|e|]; try done. unfold report, io_bind in Hrun.
    by destruct (output_send (Err e) w1) as [[[]|] ?]. }
  unfold io_bind at 1, io_get in Hrun. cbn beta iota in Hrun.
  unfold io_bind at 1, io_try at 1, io_timeout, on_connection, io_zoom in Hrun.
  pose proof (receive_frame_spec (wk_connection w)) as Hrf.
  destruct (receive_frame (wk_connection w)) as [o1 c1]. destruct Hrf as (Hl & Hsent & Hnp & Hin).
  set (w1 := set_connection c1 w) in *.
  assert (∀ e, report e w1 ≠ (Done (Ok true), w')) as Hrep.
  { intros e. unfold report, io_bind. by destruct (output_send (Err e) w1) as [[[]|] ?]. }
  destruct o1 as [[f|e|]|]; [|by destruct (Hrep e)|done|by destruct (Hrep _ Hrun)].
  destruct Hr as [Hok Hall]. rewrite Hin in Hall. cbn [app] in Hall.
  apply Forall_cons in Hall as [Hwf Hall].
  unfold io_bind, io_try in Hrun. pose proof (handle_frame_spec f w1 Hwf Hok) as Hh.
  destruct (handle_frame f w1) as [o2 w2].
  destruct Hh as (Hok2 & (_ & Hrd & Hpd & Hlk & Ht) & _ & _ & Hdone).
  destruct o2 as [[[]|e|]|]; [|unfold report, io_bind in Hrun;
    by destruct (output_send (Err e) w2) as [[[]|] ?]|done..].
  injection Hrun as ->. assert (inbox (wk_connection w') = inbox c1) as Hib
    by by rewrite (stable_inbox w1 w').
  assert (kc_peer (wk_connection w') = kc_peer (wk_connection w)) as Hpeer.
  { destruct Hlk as (_ & -> & _). apply Hl. }
  exists f. rewrite Hib. split_and!; try done; [|by split; [|rewrite Hib]].
  destruct (Hdone tt eq_refl) as (Ho & Hc & Hp & Ha).
  assert (kc_peer c1 = kc_peer (wk_connection w)) as Hpe by apply Hl.
  unfold frame_done, credited, answered, acked in *.
  cbn [wk_connection set_connection w1 wk_output wk_credit] in *.
  by rewrite <-Hpe, <-Hsent.
Qed.

Lemma receive_run config b n : ∀ w w',
  round_ok w → cr_pending (wk_credit w) < cr_threshold (wk_credit w) →
  run_rounds config b (replicate n PickReceive) w = (Running, w') →
  ∃ handled, length handled = n
    ∧ inbox (wk_connection w) = handled ++ inbox (wk_connection w')
    ∧ wk_output w' = wk_output w ++ (Ok <$> omap (frame_item (kc_peer (wk_connection w))) handled)
    ∧ credited w' = credited w + foldr Z.add 0 (frame_credit <$> handled)
    ∧ cr_pending (wk_credit w') < cr_threshold (wk_credit w)
    ∧ answered (wk_connection w') = answered (wk_connection w) ++ mjoin (frame_replies <$> handled).
Proof.
  induction n as [|n IH]; intros w w' Hr Hpend Hrun; cbn [replicate run_rounds] in Hrun.
  { injection Hrun as <-. exists []. cbn. rewrite !app_nil_r. split_and!; try done. lia. }
  destruct (worker_round config b PickReceive w) as [o w1] eqn:Hround.
  destruct o as [[[]|e|]|]; try done.
  apply receive_round_ok in Hround as (f & Hin & (Ho & Hc & Hp & Ha) & Ht & Hpe & Hr1); [|done].
  destruct (IH w1 w' Hr1 ltac:(lia) Hrun) as (handled & Hlen & Hin' & Ho' & Hc' & Hp' & Ha').
  exists (f :: handled). rewrite Hin, Hin', Ho', Ho, Hc', Hc, Ha', Ha, Hpe, <-Ht.
  cbn [length fmap list_fmap foldr mjoin list_join omap list_omap].
  split_and!; [lia|done| |lia|lia|by rewrite <-app_assoc].
  rewrite <-app_assoc. f_equal.
  by destruct (frame_item _ f).
Qed.

(** ** Properties *)

(** C14: whatever the producer sends, whenever the application stops reading and whichever
    commands arrive, the events the worker delivers for a vBucket have strictly increasing
    sequence numbers, all after the stream's start and up to its end, nothing follows a
    stream end, no event belongs to a vBucket that was not opened, and the worker never
    panics. *)
Theorem worker_delivery_order connection ps0 config b sends picks st w :
  0 ≤ fc_connection_buffer_size config →
  Forall wire_ok (inbox connection) →
  run_worker connection ps0 config b sends picks = (st, w) →
  st ≠ Panicked ∧ delivery_ok ps0 (wk_output w).
Proof.
  intros H0 Hwf Hrun. unfold run_worker in Hrun.
  pose proof (active_inv_start ps0) as Hinv.
  destruct (flow_credit_new config) as [credit|e|] eqn:Hc.
  - destruct (flow_credit_new_threshold config credit H0 Hc) as [Hp Ht].
    pose proof (run_rounds_order ps0 config b picks
      (mkWorker connection ps0 credit [] sends [])) as Hr.
    rewrite Hrun in Hr. apply Hr; [|done]. split; [|done]. split; cbn; lia.
  - assert (round_ok (mkWorker connection ps0 (mkFlowCredit 1 0) [] sends [])) as Hr
      by (split; [split; cbn; lia|done]).
    pose proof (report_round ps0 e _ Hr (proj1 Hinv)) as Hrep.
    destruct (report e _) as [o w1]. destruct Hrep as (_ & _ & _ & _ & Hd).
    injection Hrun as <- <-. split; [|done]. by destruct o.
  - unfold flow_credit_new in Hc. by destruct (try_from _ _).
Qed.

(** C19: while the worker runs it is an exact transducer of the inbound frames: after n
    receives it has taken the first n frames in order, put on the channel exactly the item
    of each (none for NOOPs), answered exactly the NOOPs and the markers that ask for it,
    and the bytes acknowledged plus those pending have grown by exactly the wire size of
    the flow-controlled frames, with less than one threshold left pending. *)
Theorem worker_transducer config b n w w' :
  round_ok w → cr_pending (wk_credit w) < cr_threshold (wk_credit w) →
  run_rounds config b (replicate n PickReceive) w = (Running, w') →
  ∃ handled, length handled = n
    ∧ inbox (wk_connection w) = handled ++ inbox (wk_connection w')
    ∧ wk_output w' = wk_output w ++ (Ok <$> omap (frame_item (kc_peer (wk_connection w))) handled)
    ∧ credited w' = credited w + foldr Z.add 0 (frame_credit <$> handled)
    ∧ cr_pending (wk_credit w') < cr_threshold (wk_credit w)
    ∧ answered (wk_connection w') = answered (wk_connection w) ++ mjoin (frame_replies <$> handled).
Proof. apply receive_run. Qed.

(** C40: with a validated configuration the acknowledgement threshold lies between one byte
    and the advertised buffer and is the crossing point of the configured ratio: one byte
    less is still below buffer times ratio in binary64, and the threshold itself is not,
    unless it is the whole buffer. *)
Theorem flow_threshold_crossing config :
  0 ≤ fc_connection_buffer_size config → flow_control_validate config = Ok tt →
  ∃ credit, flow_credit_new config = Ok credit ∧ cr_pending credit = 0
    ∧ let t := cr_threshold credit in
      let below := credit_below (fc_connection_buffer_size config) (fc_ack_ratio config) in
      1 ≤ t ≤ fc_connection_buffer_size config ∧ is_u32 t
      ∧ (t = 1 ∨ below (t - 1) = true)
      ∧ (t = fc_connection_buffer_size config ∨ below t = false).
Proof.
  intros H0 Hv. pose proof (flow_control_validate_buffer _ _ Hv H0) as Hb.
  unfold flow_credit_new, try_from. destruct (Z.leb_spec (fc_connection_buffer_size config) u32_max); [|lia].
  eexists. split; [done|]. split; [done|]. cbn [cr_threshold].
  destruct (threshold_search_spec (credit_below (fc_connection_buffer_size config)
    (fc_ack_ratio config)) 33 1 (fc_connection_buffer_size config)) as (Ht & Hlo & Hhi);
    [lia|by apply search_fuel|].
  split_and!; try done; [lia..|]. unfold_ranges. lia.
Qed.
End Runs.

(** ** A sample run: a marker that asks for an acknowledgement, a mutation, a NOOP and the
    end of the stream. *)
Definition stream_frame (op : Opcode) (x : bytes) : Frame :=
  set_extras x (set_opaque 5 (set_vbucket 3 (request op))).
Definition sample_inbound : list Frame :=
  [stream_frame OP_DCP_SNAPSHOT_MARKER (put_u64 1 ++ put_u64 5 ++ put_u32 SNAPSHOT_ACK);
   stream_frame OP_DCP_MUTATION (put_u64 3 ++ put_u64 1 ++ put_u32 0 ++ put_u32 0 ++ put_u32 0);
   set_opaque 9 (request OP_DCP_NOOP);
   stream_frame OP_DCP_STREAM_END (put_u32 0)].
Definition sample_peer : KvConnection :=
  from_io "127.0.0.1:11210" (from_secs 1) 0 ((λ f, RFrame f 0) <$> sample_inbound) [].
Definition sample_partitions : gmap Z PartitionProgress :=
  {[3 := progress_new 0 100 None 5]}.
Definition sample_worker : Worker :=
  mkWorker sample_peer sample_partitions (mkFlowCredit 60 0) [] [] [].

Lemma worker_delivery_order_witness :
  let run := run_worker (H:=stored_only) sample_peer sample_partitions flow_control_default true
    [] (replicate 5 PickReceive) in
  run.1 = Stopped ∧ seqnos_of 3 (wk_output run.2) = [3] ∧ delivery_ok sample_partitions (wk_output run.2).
Proof.
  intros run. split; [vm_compute; reflexivity|]. split; [vm_compute; reflexivity|].
  apply (worker_delivery_order (H:=stored_only) sample_peer sample_partitions
    flow_control_default true [] (replicate 5 PickReceive) run.1 run.2).
  - vm_compute. discriminate.
  - repeat constructor; intros n Hn; discriminate Hn.
  - apply surjective_pairing.
Defined.

Lemma worker_transducer_witness :
  let run := run_rounds (H:=stored_only) flow_control_default true
    (replicate 3 PickReceive) sample_worker in
  run.1 = Running ∧ length (wk_output run.2) = 2%nat ∧ length (kc_sent (wk_connection run.2)) = 3%nat
  ∧ ∃ handled, length handled = 3%nat ∧ wk_output run.2
      = [] ++ (Ok <$> omap (frame_item "127.0.0.1:11210") handled)
      ∧ credited run.2 = 0 + foldr Z.add 0 (frame_credit <$> handled).
Proof.
  intros run. assert (run.1 = Running) as Hr by (vm_compute; reflexivity).
  split; [exact Hr|]. split; [vm_compute; reflexivity|]. split; [vm_compute; reflexivity|].
  destruct (worker_transducer (H:=stored_only) flow_control_default true 3 sample_worker run.2)
    as (handled & Hl & _ & Ho & Hc & _).
  - split; [vm_compute; split; discriminate|]. repeat constructor; intros n Hn; discriminate Hn.
  - vm_compute. reflexivity.
  - rewrite <-Hr. apply surjective_pairing.
  - exists handled. split; [exact Hl|]. split; [exact Ho|exact Hc].
Defined.

Lemma flow_threshold_crossing_witness :
  ∃ credit, flow_credit_new flow_control_default = Ok credit ∧ cr_threshold credit = 4194305
    ∧ credit_below 20971520 (fc_ack_ratio flow_control_default) (4194305 - 1) = true.
Proof.
  destruct (flow_threshold_crossing flow_control_default) as (credit & Hc & _ & Ht);
    [vm_compute; discriminate|vm_compute; reflexivity|].
  exists credit. split; [exact Hc|].
  assert (cr_threshold credit = 4194305) as Hth.
  { vm_compute in Hc. injection Hc as <-. reflexivity. }
  split; [exact Hth|]. destruct Ht as (_ & _ & [H1|H1] & _); rewrite Hth in H1;
    [discriminate H1|exact H1].
Defined.

(** ** Opening every partition *)

(** The state each open partition starts from. *)
Definition start_progress (s : PartitionOpenState) : PartitionProgress :=
  progress_new (po_start_seqno s) (po_end_seqno s) (po_stream_id s) (po_opaque s).

Lemma runtime_partitions_lookup rep vb :
  (∀ k s, or_partitions rep !! k = Some s → po_vbucket s = k) →
  runtime_partitions rep !! vb = start_progress <$> or_partitions rep !! vb.
Proof.
  intros Hk. apply option_eq. intros p. unfold runtime_partitions.
  rewrite btree_collect_lookup, list_elem_of_fmap.
  - split.
    + intros (s & [= -> ->] & (k & Hs)%elem_of_btree_values). by rewrite (Hk _ _ Hs), Hs.
    + destruct (or_partitions rep !! vb) as [s|] eqn:Hs; [|done]. intros [= <-].
      exists s. rewrite (Hk _ _ Hs). split; [done|]. apply elem_of_btree_values. by exists vb.
  - rewrite <-list_fmap_compose.
    change (NoDup (po_vbucket <$> btree_values (or_partitions rep))). unfold btree_values.
    assert (∀ ks : list Z, (∀ k, k ∈ ks → is_Some (or_partitions rep !! k)) →
      po_vbucket <$> omap (λ k, or_partitions rep !! k) ks = ks) as Hmap.
    { induction ks as [|k ks IH]; intros Hks; [done|].
      destruct (Hks k ltac:(left)) as [s Hs]. cbn [omap list_omap]. rewrite Hs.
      cbn [fmap list_fmap]. rewrite (Hk _ _ Hs). f_equal. apply IH.
      intros k' Hk'. apply Hks. by right. }
    rewrite Hmap; [apply NoDup_btree_keys|]. intros k. by rewrite elem_of_btree_keys.
Qed.

Definition vr_vbucket (r : VBucketStreamRequest) : Z := ck_vbucket (vr_checkpoint r).

Lemma validate_requests_ok requests u :
  validate_requests requests = Ok u →
  Forall vr_ok requests ∧ NoDup (vr_vbucket <$> requests).
Proof.
  assert (∀ l seen seen', for_res l seen validate_request_step = Ok seen' →
    Forall vr_ok l ∧ NoDup (vr_vbucket <$> l)
    ∧ ∀ r, r ∈ l → vr_vbucket r ∉ seen) as Hloop.
  { induction l as [|r l IH]; intros seen seen'; cbn [for_res fmap list_fmap].
    { intros _. split_and!; [done|constructor|]. by intros r ?%elem_of_nil. }
    unfold validate_request_step at 1. destruct (ck_validate (vr_checkpoint r)) eqn:Hv; [|done..].
    destruct (Z.ltb_spec (vr_end_seqno r) (ck_seqno (vr_checkpoint r))); [done|].
    case_bool_decide as Hin; [done|]. intros (Hok & Hnd & Hdis)%IH. split_and!.
    - constructor; [|done]. split; [by eapply ck_validate_inv|done].
    - constructor; [|done]. intros (r' & Heq & Hr')%list_elem_of_fmap.
      apply Hdis in Hr'. unfold vr_vbucket in *. set_solver.
    - intros r' [-> |Hr']%elem_of_cons; [done|]. apply Hdis in Hr'. set_solver. }
  unfold validate_requests. destruct requests as [|r0 rs]; [done|].
  destruct (for_res (r0 :: rs) ∅ validate_request_step) as [seen| |] eqn:Hl; [|done..].
  intros _. apply Hloop in Hl as (? & ? & _). done.
Qed.

Lemma validate_requests_no_panic requests : validate_requests requests ≠ Panic.
Proof.
  assert (∀ l seen, for_res l seen validate_request_step ≠ Panic) as Hl.
  { induction l as [|r l IH]; intros seen; cbn [for_res]; [done|].
    apply let_no_panic; [|done]. unfold validate_request_step.
    apply let_no_panic; [apply ck_validate_no_panic|]. intros _. by repeat case_match. }
  unfold validate_requests. destruct requests; [done|]. by apply let_no_panic.
Qed.
Lemma validate_capabilities_no_panic caps requests : validate_capabilities caps requests ≠ Panic.
Proof.
  unfold validate_capabilities. intros Hp.
  pose proof (for_res_checks requests (validate_capability caps)) as Hc.
  rewrite Hp in Hc. destruct Hc as (r & _ & Hr). unfold validate_capability in Hr.
  by repeat case_match.
Qed.

Section OpenAll.
Context `{Snappy} (to_vec : WireFilter → res string bytes).
Context (policy : RollbackPolicy).
Context (handler : option (nat → RollbackRequest → outcome RollbackAction)).

Lemma open_partitions_exchange requests : ∀ rep,
  (∀ h n q, handler = Some h → h n q ≠ Hang ∧ h n q ≠ Done Panic) →
  (policy = PolicyDelegateToHandler → handler ≠ None) →
  (∀ w, to_vec w ≠ Panic) →
  exchange true open_frame (34 * length requests)
    (open_partitions to_vec policy handler requests rep).
Proof.
  induction requests as [|r requests IH]; intros rep Hh Hd Hv; cbn [open_partitions];
    [by apply exchange_lift|].
  cbn [length]. replace (34 * S (length requests))%nat with (34 + 34 * length requests)%nat by lia.
  apply exchange_bind; [|intros opened; by apply IH].
  exact (open_partition_exchange to_vec policy handler true (λ h n q E, proj1 (Hh h n q E))
    (λ h n q _ E, proj2 (Hh h n q E)) (λ _, Hd) (λ w _, Hv w) r).
Qed.

(** What a successful open establishes for one request. *)
Definition opened_in (rep : StreamOpenReport) (r : VBucketStreamRequest) : Prop :=
  ∃ st, or_partitions rep !! vr_vbucket r = Some st ∧ opened_for r st
    ∧ po_start_seqno st ≤ ck_seqno (vr_checkpoint r).

Lemma open_partitions_ok requests : ∀ rep c rep' c',
  Forall vr_ok requests → NoDup (vr_vbucket <$> requests) →
  open_partitions to_vec policy handler requests rep c = (Done (Ok rep'), c') →
  Forall (opened_in rep') requests
  ∧ ∀ vb, vb ∉ vr_vbucket <$> requests → or_partitions rep' !! vb = or_partitions rep !! vb.
Proof.
  induction requests as [|r requests IH]; intros rep c rep' c' Hok Hnd Hrun;
    cbn [open_partitions] in Hrun; [by injection Hrun as <- _|].
  apply Forall_cons in Hok as [Hr Hok]. cbn [fmap list_fmap] in Hnd.
  apply NoDup_cons in Hnd as [Hni Hnd].
  apply io_bind_ok in Hrun as ([st rbs] & c1 & Hop & Hrun). cbn [fst snd] in Hrun.
  apply open_loop_ok in Hop as (new & _ & Hch & Hof & _); [|done|lia].
  apply IH in Hrun as [Hall Hother]; [|done..].
  assert (po_vbucket st = vr_vbucket r) as Hvb by apply Hof. cbn [or_partitions] in Hother.
  rewrite Hvb in Hother. split; [constructor; [|done]|].
  - exists st. rewrite Hother by done. rewrite lookup_insert_eq.
    split_and!; [done..|by eapply rollback_chain_le].
  - intros vb [Hne Hin]%not_elem_of_cons. by rewrite Hother, lookup_insert_ne by done.
Qed.
End OpenAll.

(** Opening a stream validates everything before the first byte is sent, ends, and,
    with total foreign code, never panics: the handler the delegating policy expects is
    checked up front.  When it succeeds every requested vBucket, and no other, is open: its
    report is the requested stream at a start not after the requested one, and the worker
    starts from exactly that report; one failed partition fails the whole open. *)
Lemma open_dcp_stream_spec `{Snappy} to_vec capabilities requests flow policy handler c o c' :
  (∀ h n q, handler = Some h → h n q ≠ Hang ∧ h n q ≠ Done Panic) →
  (∀ w, to_vec w ≠ Panic) →
  open_dcp_stream to_vec capabilities requests flow policy handler c = (o, c') →
  o ≠ Hang ∧ o ≠ Done Panic
  ∧ (c' = c ∨ (flow_control_validate flow = Ok tt ∧ validate_requests requests = Ok tt
               ∧ validate_capabilities capabilities requests = Ok tt))
  ∧ ∀ ds, o = Done (Ok ds) →
      Forall (opened_in (ds_open_report ds)) requests
      ∧ ∀ vb, ds_partitions ds !! vb
          = start_progress <$> or_partitions (ds_open_report ds) !! vb
          ∧ (is_Some (ds_partitions ds !! vb) ↔ vb ∈ vr_vbucket <$> requests).
Proof.
  intros Hh Hv Hrun. unfold open_dcp_stream in Hrun.
  unfold io_bind at 1, io_lift at 1 in Hrun.
  pose proof (flow_control_validate_no_panic flow) as Hnp1.
  destruct (flow_control_validate flow) as [[]|e|]; [|simplify_eq; by split_and!; try done; left|done].
  unfold io_bind at 1, io_lift at 1 in Hrun.
  pose proof (validate_requests_no_panic requests) as Hnp2.
  destruct (validate_requests requests) as [[]|e|] eqn:Hvr;
    [|simplify_eq; by split_and!; try done; left|done].
  unfold io_bind at 1, io_lift at 1 in Hrun.
  pose proof (validate_capabilities_no_panic capabilities requests) as Hnp3.
  destruct (validate_capabilities capabilities requests) as [[]|e|];
    [|simplify_eq; by split_and!; try done; left|done].
  unfold io_bind at 1, io_lift at 1 in Hrun.
  destruct (bool_decide (policy = PolicyDelegateToHandler) && bool_decide (¬ is_Some handler)) eqn:Hb;
    [simplify_eq; by split_and!; try done; left|].
  assert (policy = PolicyDelegateToHandler → handler ≠ None) as Hd.
  { intros -> ->. by vm_compute in Hb. }
  cbn beta iota in Hrun.
  destruct (open_partitions_exchange to_vec policy handler requests (mkStreamOpenReport ∅ [])
    Hh Hd Hv c) as (Hnh & Hnp & _).
  unfold io_bind in Hrun.
  destruct (open_partitions to_vec policy handler requests _ c) as [[[rep|e|]|] c1] eqn:Hop;
    cbn [fst] in *; [|simplify_eq; split_and!; by auto|by destruct (Hnp eq_refl)|done].
  injection Hrun as <- <-. split_and!; [done..|by auto|]. intros ds [= <-].
  cbn [ds_open_report ds_partitions].
  apply validate_requests_ok in Hvr as [Hok Hnd].
  destruct (open_partitions_ok _ _ _ _ _ _ _ _ Hok Hnd Hop) as [Hall Hother].
  assert (∀ k, k ∉ vr_vbucket <$> requests → or_partitions rep !! k = None) as Hnone
    by (intros k Hk; by rewrite (Hother k Hk)).
  split; [done|]. rewrite Forall_forall in Hall. intros vb.
  rewrite runtime_partitions_lookup.
  - split; [done|]. rewrite fmap_is_Some. split.
    + intros [st Hst]. destruct (decide (vb ∈ vr_vbucket <$> requests)) as [|Hni]; [done|].
      rewrite (Hnone vb Hni) in Hst. done.
    + intros (r & -> & Hr)%list_elem_of_fmap. destruct (Hall r Hr) as (st & Hst & _).
      by exists st.
  - intros k s Hs. destruct (decide (k ∈ vr_vbucket <$> requests)) as [Hk|Hk];
      [|rewrite (Hnone k Hk) in Hs; done].
    apply list_elem_of_fmap in Hk as (r & -> & Hr). destruct (Hall r Hr) as (st & Hst & Hof & _).
    rewrite Hst in Hs. injection Hs as <-. apply Hof.
Qed.
