(* ===== verification/StreamHandle.v ===== *)
(** * The handle of a node's stream ([rust-dcp-core/src/stream.rs], [DcpStream])

    What owns a connection worker: [poll_next], [close_vbucket], [shutdown] and [Drop], over
    the bounded channel of items and the channel of commands.  A step is one await of the
    worker or of a call.  The rounds of the worker are those of [Worker]: a round takes place
    at its beginning, its items are then sent one by one, each when the channel has room, and
    the next round waits for the last of them.  No item depends on the acknowledgements that
    the code writes between two items of a round. *)
From S2P Require Import Prelude Types Frame Codec Dcp Command Errors Event Checkpoint.
From S2P Require Import Config Async Transport Topology Stream Worker.

(** ** The state *)

(** After the items of a round: the [select], the end, a panic, or a write that never
    completes. *)
Inductive Next : Type := NextSelect | NextEnd | NextPanic | NextStall.
(** The worker: in its [select], sending the items of a round, stalled, or over. *)
Inductive Activity : Type :=
| Selecting
| Sending (items : list (result DcpStreamItem)) (next : Next)
| Stalled
| Over (panicked : bool).

(** A call of [close_vbucket]. *)
Inductive CloseCall : Type :=
| ClSend (vbucket : Z)
| ClWait (vbucket : Z)
| ClReturned (r : result unit)
| ClDropped.
(** The owner of the stream: reading, in [shutdown], or gone. *)
Inductive Owner : Type :=
| OwnReading
| OwnSend
| OwnWait
| OwnJoin (r : result unit)
| OwnReturned (r : result unit)
| OwnDropped.

(** A queued command and the call it answers to. *)
Inductive Queued : Type :=
| QueuedClose (k : nat) (vbucket : Z)
| QueuedShutdown.
Definition command_of (q : Queued) : RuntimeCommand :=
  match q with QueuedClose _ vbucket => CommandClose vbucket | QueuedShutdown => CommandShutdown end.

Record NodeStream : Type := mkNode {
  nd_worker : Worker;
  nd_activity : Activity;
  nd_queue : list (result DcpStreamItem);
  nd_commands : list Queued;
  nd_closes : list CloseCall;
  nd_owner : Owner
}.
Definition set_activity (a : Activity) (n : NodeStream) : NodeStream :=
  mkNode (nd_worker n) a (nd_queue n) (nd_commands n) (nd_closes n) (nd_owner n).
Definition set_queue (l : list (result DcpStreamItem)) (n : NodeStream) : NodeStream :=
  mkNode (nd_worker n) (nd_activity n) l (nd_commands n) (nd_closes n) (nd_owner n).
Definition set_commands (l : list Queued) (n : NodeStream) : NodeStream :=
  mkNode (nd_worker n) (nd_activity n) (nd_queue n) l (nd_closes n) (nd_owner n).
Definition set_closes (l : list CloseCall) (n : NodeStream) : NodeStream :=
  mkNode (nd_worker n) (nd_activity n) (nd_queue n) (nd_commands n) l (nd_owner n).
Definition set_owner (o : Owner) (n : NodeStream) : NodeStream :=
  mkNode (nd_worker n) (nd_activity n) (nd_queue n) (nd_commands n) (nd_closes n) o.
Definition put_worker (w : Worker) (n : NodeStream) : NodeStream :=
  mkNode w (nd_activity n) (nd_queue n) (nd_commands n) (nd_closes n) (nd_owner n).

(** [mpsc::channel(16)] of the commands. *)
Definition COMMAND_CAPACITY : Z := 16.

Section Node.
Context `{Snappy}.
(** The flow control, whether the server ends closed streams, and the capacity of the
    channel. *)
Context (config : FlowControlConfig) (stream_end_on_close : bool) (capacity : Z).

(** ** The worker *)
Definition next_of (o : outcome bool) : Next :=
  match o with
  | Done (Ok true) => NextSelect
  | Done (Ok false) => NextEnd
  | Done _ => NextPanic
  | Hang => NextStall
  end.
Definition after (next : Next) : Activity :=
  match next with
  | NextSelect => Selecting
  | NextEnd => Over false
  | NextPanic => Over true
  | NextStall => Stalled
  end.

(** A round of the loop, with room for everything it sends: what it sends, what it replies,
    and how it goes on. *)
Definition round (pick : Pick) (w : Worker) : Next * Worker :=
  let '(o, w') := worker_round config stream_end_on_close pick
    (mkWorker (wk_connection w) (wk_partitions w) (wk_credit w) [] [] []) in
  (next_of o, w').
Definition begin_round (pick : Pick) (n : NodeStream) : NodeStream :=
  let '(next, w) := round pick (nd_worker n) in
  put_worker w (set_activity (Sending (wk_output w) next) n).

(** The reply of a command reaches the call that waits for it. *)
Definition answer (q : Queued) (r : result unit) (n : NodeStream) : NodeStream :=
  match q with
  | QueuedShutdown =>
      match nd_owner n with OwnWait => set_owner (OwnJoin r) n | _ => n end
  | QueuedClose k vbucket =>
      match nd_closes n !! k with
      | Some (ClWait _) => set_closes (<[k := ClReturned r]> (nd_closes n)) n
      | _ => n
      end
  end.

Definition node_receive (n : NodeStream) : option NodeStream :=
  match nd_activity n with
  | Selecting => Some (begin_round PickReceive n)
  | _ => None
  end.
Definition node_command (n : NodeStream) : option NodeStream :=
  match nd_activity n, nd_commands n with
  | Selecting, q :: rest =>
      if decide (wk_partitions (nd_worker n) = ∅) then None
      else
        let n := begin_round (PickCommand (Some (command_of q))) (set_commands rest n) in
        Some (match wk_replies (nd_worker n) with r :: _ => answer q r n | [] => n end)
  | _, _ => None
  end.
(** The next item when the channel has room, and the end of a round, which drops the
    receiver of commands if the worker is over. *)
Definition node_send (n : NodeStream) : option NodeStream :=
  match nd_activity n with
  | Sending (item :: items) next =>
      if len (nd_queue n) <? capacity
      then Some (set_activity (Sending items next) (set_queue (nd_queue n ++ [item]) n))
      else None
  | Sending [] next =>
      let n := set_activity (after next) n in
      Some (match next with NextEnd | NextPanic => set_commands [] n | _ => n end)
  | _ => None
  end.

(** ** The owner *)
Definition node_over (n : NodeStream) : bool :=
  match nd_activity n with Over _ => true | _ => false end.
Definition closing_call (c : CloseCall) : bool :=
  match c with ClSend _ | ClWait _ => true | _ => false end.

(** [poll_next], which no call may borrow the stream for. *)
Definition node_poll (n : NodeStream) : option (result DcpStreamItem * NodeStream) :=
  match nd_owner n, nd_queue n with
  | OwnReading, item :: rest =>
      if existsb closing_call (nd_closes n) then None else Some (item, set_queue rest n)
  | _, _ => None
  end.

(** [close_vbucket]: the command is sent when its channel has room, or fails at once when
    the worker is over; then its answer is awaited. *)
Definition close_begin (vbucket : Z) (n : NodeStream) : NodeStream :=
  set_closes (nd_closes n ++ [ClSend vbucket]) n.
Definition close_send (k : nat) (n : NodeStream) : option NodeStream :=
  match nd_closes n !! k with
  | Some (ClSend vbucket) =>
      if node_over n then Some (set_closes (<[k := ClReturned (Err Cancelled)]> (nd_closes n)) n)
      else if len (nd_commands n) <? COMMAND_CAPACITY then
        Some (set_commands (nd_commands n ++ [QueuedClose k vbucket])
                (set_closes (<[k := ClWait vbucket]> (nd_closes n)) n))
      else None
  | _ => None
  end.
Definition close_cancelled (k : nat) (n : NodeStream) : option NodeStream :=
  match nd_closes n !! k with
  | Some (ClWait _) =>
      if node_over n then Some (set_closes (<[k := ClReturned (Err Cancelled)]> (nd_closes n)) n)
      else None
  | _ => None
  end.
Definition close_drop (k : nat) (n : NodeStream) : option NodeStream :=
  match nd_closes n !! k with
  | Some c => if closing_call c then Some (set_closes (<[k := ClDropped]> (nd_closes n)) n) else None
  | None => None
  end.

(** [shutdown], which takes the stream: nobody reads it, and no call borrows it. *)
Definition shutdown_call (n : NodeStream) : option NodeStream :=
  match nd_owner n with
  | OwnReading =>
      if existsb closing_call (nd_closes n) then None else Some (set_owner OwnSend n)
  | _ => None
  end.
Definition shutdown_send (n : NodeStream) : option NodeStream :=
  match nd_owner n with
  | OwnSend =>
      if node_over n then Some (set_owner (OwnJoin (Ok tt)) n)
      else if len (nd_commands n) <? COMMAND_CAPACITY then
        Some (set_commands (nd_commands n ++ [QueuedShutdown]) (set_owner OwnWait n))
      else None
  | _ => None
  end.
(** The worker ended without an answer. *)
Definition shutdown_cancelled (n : NodeStream) : option NodeStream :=
  match nd_owner n with
  | OwnWait => if node_over n then Some (set_owner (OwnReturned (Err Cancelled)) n) else None
  | _ => None
  end.
Definition shutdown_joined (text : string) (n : NodeStream) : option NodeStream :=
  match nd_owner n, nd_activity n with
  | OwnJoin r, Over panicked =>
      Some (set_owner (OwnReturned
        (if panicked then Err (StreamError 0 ("DCP worker task failed: " +:+ text)) else r)) n)
  | _, _ => None
  end.
(** [Drop], also of a [shutdown] that is under way: the worker is aborted. *)
Definition node_drop (n : NodeStream) : option NodeStream :=
  match nd_owner n with
  | OwnReturned _ | OwnDropped => None
  | _ => if existsb closing_call (nd_closes n) then None
         else Some (set_owner OwnDropped (set_commands [] (set_activity (Over false) n)))
  end.

(** ** The steps *)
Inductive NodeAction : Type :=
| NaReceive
| NaCommand
| NaSend
| NaPoll
| NaCloseBegin (vbucket : Z)
| NaCloseSend (k : nat)
| NaCloseCancelled (k : nat)
| NaCloseDrop (k : nat)
| NaShutdown
| NaShutdownSend
| NaShutdownCancelled
| NaShutdownJoined (text : string)
| NaDrop.
Definition node_step (a : NodeAction) (n : NodeStream) : option NodeStream :=
  match a with
  | NaReceive => node_receive n
  | NaCommand => node_command n
  | NaSend => node_send n
  | NaPoll => snd <$> node_poll n
  | NaCloseBegin vbucket =>
      match nd_owner n with OwnReading => Some (close_begin vbucket n) | _ => None end
  | NaCloseSend k => close_send k n
  | NaCloseCancelled k => close_cancelled k n
  | NaCloseDrop k => close_drop k n
  | NaShutdown => shutdown_call n
  | NaShutdownSend => shutdown_send n
  | NaShutdownCancelled => shutdown_cancelled n
  | NaShutdownJoined text => shutdown_joined text n
  | NaDrop => node_drop n
  end.

(** [open_dcp_stream] spawns the worker, which first sets up its flow control. *)
Definition spawn_node (connection : KvConnection) (partitions : gmap Z PartitionProgress)
    : NodeStream :=
  let start credit activity :=
    mkNode (mkWorker connection partitions credit [] [] []) activity [] [] [] OwnReading in
  match flow_credit_new config with
  | Ok credit => start credit Selecting
  | Err e => start (mkFlowCredit 1 0) (Sending [Err e] NextEnd)
  | Panic => start (mkFlowCredit 1 0) (Over true)
  end.
Fixpoint node_run (actions : list NodeAction) (n : NodeStream) : option NodeStream :=
  match actions with
  | [] => Some n
  | a :: actions => n ← node_step a n; node_run actions n
  end.

(** A history: the rounds the worker has begun, and what the owner has read. *)
Definition picked (a : NodeAction) (n : NodeStream) : list Pick :=
  match a, nd_commands n with
  | NaReceive, _ => [PickReceive]
  | NaCommand, q :: _ => [PickCommand (Some (command_of q))]
  | _, _ => []
  end.
Definition read_items (a : NodeAction) (n : NodeStream) : list (result DcpStreamItem) :=
  match a, node_poll n with NaPoll, Some (item, _) => [item] | _, _ => [] end.
Inductive node_trace (start : NodeStream)
    : list Pick → list (result DcpStreamItem) → NodeStream → Prop :=
| nt_start : node_trace start [] [] start
| nt_step picks items n a n' :
    node_trace start picks items n → node_step a n = Some n' →
    node_trace start (picks ++ picked a n) (items ++ read_items a n) n'.
End Node.
