(* ===== verification/StreamHandleSpec.v ===== *)
(** * The handle of a node's stream: its channel and its [shutdown]

    The items the owner reads are those of a run of the connection worker, in order; what a
    [shutdown] can lead to, and when it never returns. *)
From S2P Require Import Prelude Types Frame Codec Dcp Command Errors Event Checkpoint.
From S2P Require Import Config Async Transport Topology Stream Worker StreamHandle.

(** ** Lemmas: a round does not depend on what was sent before *)
Section Appends.
Context `{Snappy}.

(** The worker with earlier items and replies. *)
Definition extend (out : list (result DcpStreamItem)) (rep : list (result unit)) (w : Worker)
    : Worker :=
  mkWorker (wk_connection w) (wk_partitions w) (wk_credit w) (out ++ wk_output w) (wk_sends w)
    (rep ++ wk_replies w).
Definition appends {A} (m : io Worker A) : Prop := ∀ out rep w, wk_sends w = [] →
  wk_sends (m w).2 = [] ∧ m (extend out rep w) = ((m w).1, extend out rep (m w).2).

Lemma appends_bind {A B} (m : io Worker A) (k : A → io Worker B) :
  appends m → (∀ a, appends (k a)) → appends (io_bind m k).
Proof.
  intros Hm Hk out rep w Hw. destruct (Hm out rep w Hw) as [Hs Hx]. unfold io_bind. rewrite Hx.
  destruct (m w) as [[[a|e|]|] w']; cbn in *; [by apply Hk|done..].
Qed.
Lemma appends_try {A} (m : io Worker A) : appends m → appends (io_try m).
Proof.
  intros Hm out rep w Hw. destruct (Hm out rep w Hw) as [Hs Hx]. unfold io_try. rewrite Hx.
  by destruct (m w) as [[[a|e|]|] w'].
Qed.
Lemma appends_timeout {A} e (m : io Worker A) : appends m → appends (io_timeout e m).
Proof.
  intros Hm out rep w Hw. destruct (Hm out rep w Hw) as [Hs Hx]. unfold io_timeout. rewrite Hx.
  by destruct (m w) as [[[a|e'|]|] w'].
Qed.
Lemma appends_lift {A} (r : result A) : appends (io_lift r).
Proof. done. Qed.
Lemma appends_get {A B} (f : Worker → A) (k : A → io Worker B) :
  (∀ out rep w, f (extend out rep w) = f w) → (∀ a, appends (k a)) → appends (io_bind (io_get f) k).
Proof. intros Hf Hk out rep w Hw. cbn. rewrite Hf. by apply Hk. Qed.
Lemma appends_modify (f : Worker → Worker) :
  (∀ w, wk_sends (f w) = wk_sends w) → (∀ out rep w, f (extend out rep w) = extend out rep (f w)) →
  appends (io_modify f).
Proof. intros Hs Hf out rep w Hw. unfold io_modify. rewrite Hf. cbn. by rewrite Hs. Qed.
Lemma appends_connection {A} (m : io KvConnection A) : appends (on_connection m).
Proof.
  intros out rep w Hw. unfold on_connection, io_zoom. cbn. by destruct (m (wk_connection w)).
Qed.
Lemma appends_send x : appends (output_send x).
Proof.
  intros out rep w Hw. unfold output_send. cbn. rewrite Hw. cbn. split; [done|].
  unfold extend, set_output. cbn. by rewrite app_assoc.
Qed.
Lemma appends_reply r : appends (io_modify (add_reply r)).
Proof.
  apply appends_modify; [done|]. intros out rep w. unfold add_reply, extend. cbn.
  by rewrite app_assoc.
Qed.
Create HintDb appends discriminated.
Hint Resolve appends_lift appends_connection appends_send appends_reply : appends.
(** Through a computation: binds, tests and the operations above. *)
Ltac appends :=
  repeat lazymatch goal with
  | |- appends (io_bind (io_get _) _) => apply appends_get; [done|intros ?]
  | |- appends (io_bind _ _) => apply appends_bind; [|intros ?]
  | |- appends (io_try _) => apply appends_try
  | |- appends (io_timeout _ _) => apply appends_timeout
  | |- appends (io_modify (add_reply _)) => apply appends_reply
  | |- appends (io_modify _) => apply appends_modify; done
  | |- appends (match _ with _ => _ end) => case_match
  | |- appends (io_ret _) => apply appends_lift
  | |- appends _ => solve [auto 2 with appends nocore]
  end.

Lemma appends_deliver x : appends (deliver x).
Proof. unfold deliver. appends. Qed.
Lemma appends_flush_loop fuel : appends (credit_flush_loop fuel).
Proof. induction fuel as [|fuel IH]; [done|]. cbn [credit_flush_loop]. appends. Qed.
Lemma appends_flush : appends credit_flush.
Proof. intros out rep w. apply appends_flush_loop. Qed.
Hint Resolve appends_deliver appends_flush : appends.
Lemma appends_record x : appends (credit_record x).
Proof. unfold credit_record. appends. Qed.
Hint Resolve appends_record : appends.
Lemma appends_event f wire m : appends (handle_event f wire m).
Proof. unfold handle_event, send_snapshot_ack. appends. Qed.
Hint Resolve appends_event : appends.
Lemma appends_frame f : appends (handle_frame f).
Proof. unfold handle_frame. appends. Qed.
Lemma appends_command b command : appends (handle_command b command).
Proof. unfold handle_command, request_close. appends. Qed.
Hint Resolve appends_frame appends_command : appends.
Lemma appends_round config b pick : appends (worker_round config b pick).
Proof. unfold worker_round, report. appends. Qed.
End Appends.

(** ** Lemmas: the owner reads a run of the worker *)
Section Refines.
Context `{Snappy}.
Context (config : FlowControlConfig) (stream_end_on_close : bool) (capacity : Z).
Abbreviation run_rounds := (run_rounds config stream_end_on_close).
Abbreviation run connection partitions picks :=
  (run_worker connection partitions config stream_end_on_close [] picks).
Abbreviation worker_round := (worker_round config stream_end_on_close).
Abbreviation node_step := (node_step config stream_end_on_close capacity).
Abbreviation node_trace := (node_trace config stream_end_on_close capacity).
Abbreviation round := (round config stream_end_on_close).
Abbreviation begin_round := (begin_round config stream_end_on_close).

Definition status_of (next : Next) : WorkerStatus :=
  match next with
  | NextSelect => Running
  | NextEnd => Stopped
  | NextPanic => Panicked
  | NextStall => Blocked
  end.

Lemma run_rounds_snoc picks pick : ∀ w w',
  run_rounds picks w = (Running, w') →
  run_rounds (picks ++ [pick]) w
  = (status_of (next_of (worker_round pick w').1), (worker_round pick w').2).
Proof.
  induction picks as [|p picks IH]; intros w w'; cbn [Worker.run_rounds app].
  - intros [= ->]. by destruct (worker_round pick w') as [[[[]|e|]|] w2].
  - destruct (worker_round p w) as [[[[]|e|]|] w1]; [apply IH|done..].
Qed.

Lemma run_snoc connection partitions picks pick w :
  run connection partitions picks = (Running, w) →
  run connection partitions (picks ++ [pick])
  = (status_of (next_of (worker_round pick w).1), (worker_round pick w).2).
Proof.
  unfold run_worker. destruct (flow_credit_new config) as [credit|e|]; [apply run_rounds_snoc| |done].
  by destruct (report _ _) as [[] ?].
Qed.

(** The parts of a worker that its channels do not hold. *)
Definition same_core (w w' : Worker) : Prop :=
  wk_connection w = wk_connection w' ∧ wk_partitions w = wk_partitions w'
  ∧ wk_credit w = wk_credit w'.

(** A round of the handle's worker is that round of the run, which has sent more before. *)
Lemma round_extend pick w n :
  wk_sends w = [] → same_core w n →
  ∃ next n', round pick n = (next, n')
    ∧ next = next_of (worker_round pick w).1 ∧ same_core (worker_round pick w).2 n'
    ∧ wk_sends (worker_round pick w).2 = []
    ∧ wk_output (worker_round pick w).2 = wk_output w ++ wk_output n'.
Proof.
  intros Hs (Hc & Hp & Hcr). unfold StreamHandle.round.
  set (n0 := mkWorker (wk_connection n) (wk_partitions n) (wk_credit n) [] [] []).
  destruct (appends_round config stream_end_on_close pick (wk_output w) (wk_replies w) n0 eq_refl)
    as [Hq Hx].
  assert (Hw : extend (wk_output w) (wk_replies w) n0 = w).
  { unfold extend, n0. cbn. rewrite !app_nil_r. destruct w; cbn in *; congruence. }
  rewrite Hw in Hx. rewrite Hx.
  destruct (worker_round pick _) as [o n']. eexists _, n'. cbn in *. done.
Qed.

(** What is left to send, and how the run stands. *)
Definition stands (st : WorkerStatus) (rest : list (result DcpStreamItem)) (n : NodeStream)
    : Prop :=
  match nd_activity n with
  | Selecting => st = Running ∧ rest = []
  | Sending items next => st = status_of next ∧ rest = items
  | Stalled => st = Blocked ∧ rest = []
  | Over panicked =>
      nd_owner n = OwnDropped ∨ st = (if panicked then Panicked else Stopped) ∧ rest = []
  end.
Definition run_inv (connection : KvConnection) (partitions : gmap Z PartitionProgress) (picks : list Pick) 
    (items : list (result DcpStreamItem)) (n : NodeStream) : Prop :=
  ∃ st w rest, run connection partitions picks = (st, w) ∧ wk_sends w = [] ∧ same_core w (nd_worker n)
    ∧ wk_output w = items ++ nd_queue n ++ rest ∧ stands st rest n.

Lemma run_inv_begin c0 ps0 picks items pick n :
  run_inv c0 ps0 picks items n → nd_activity n = Selecting →
  run_inv c0 ps0 (picks ++ [pick]) items (begin_round pick n).
Proof.
  intros (st & w & rest & Hrun & Hs & Hcore & Hout & Hst) Ha.
  unfold stands in Hst. rewrite Ha in Hst. destruct Hst as [-> ->].
  destruct (round_extend pick w (nd_worker n) Hs Hcore)
    as (next & n' & Hr & Hn & Hcore' & Hs' & Hout').
  unfold StreamHandle.begin_round. rewrite Hr.
  exists (status_of next), (worker_round pick w).2, (wk_output n').
  rewrite (run_snoc _ _ _ _ _ Hrun), <- Hn.
  cbn [nd_worker nd_activity nd_queue put_worker set_activity snd]. split_and!; try done.
  by rewrite Hout', Hout, app_nil_r, app_assoc.
Qed.

(** Steps of the calls, which the run does not see. *)
Lemma run_inv_calls c0 ps0 picks items n n' :
  nd_worker n' = nd_worker n → nd_activity n' = nd_activity n → nd_queue n' = nd_queue n →
  (nd_owner n = OwnDropped → nd_owner n' = OwnDropped) →
  run_inv c0 ps0 picks items n → run_inv c0 ps0 picks items n'.
Proof.
  intros Hw Ha Hq Ho (st & w & rest & Hrun & Hs & Hcore & Hout & Hst).
  exists st, w, rest. rewrite Hw, Hq. split_and!; try done. unfold stands in *. rewrite Ha.
  destruct (nd_activity n); [done..|]. destruct Hst as [Hst|Hst]; [left; by apply Ho|by right].
Qed.
(** The steps of the calls of the handle. *)
Definition call_action (a : NodeAction) : bool :=
  match a with NaReceive | NaCommand | NaSend | NaPoll | NaDrop => false | _ => true end.
Lemma call_step a n n' :
  call_action a = true → node_step a n = Some n' →
  nd_worker n' = nd_worker n ∧ nd_activity n' = nd_activity n ∧ nd_queue n' = nd_queue n
  ∧ (nd_owner n = OwnDropped → nd_owner n' = OwnDropped).
Proof.
  intros Ha Hstep. destruct a; try discriminate Ha; cbn in Hstep;
    unfold close_send, close_cancelled, close_drop, shutdown_call, shutdown_send,
      shutdown_cancelled, shutdown_joined in Hstep;
    repeat case_match; simplify_eq; split_and!; cbn; congruence.
Qed.

Lemma begin_round_other pick n :
  nd_queue (begin_round pick n) = nd_queue n ∧ nd_commands (begin_round pick n) = nd_commands n
  ∧ nd_closes (begin_round pick n) = nd_closes n ∧ nd_owner (begin_round pick n) = nd_owner n.
Proof. unfold StreamHandle.begin_round. by destruct (round pick (nd_worker n)). Qed.
Lemma answer_other q r n :
  nd_worker (answer q r n) = nd_worker n ∧ nd_activity (answer q r n) = nd_activity n
  ∧ nd_queue (answer q r n) = nd_queue n ∧ nd_commands (answer q r n) = nd_commands n
  ∧ (nd_owner n = OwnDropped → nd_owner (answer q r n) = OwnDropped).
Proof. destruct q; cbn; repeat case_match; cbn; split_and!; congruence. Qed.

Lemma run_inv_command c0 ps0 picks items n n' :
  run_inv c0 ps0 picks items n → node_command config stream_end_on_close n = Some n' →
  run_inv c0 ps0 (picks ++ picked NaCommand n) items n'.
Proof.
  intros Hinv Hstep. unfold node_command in Hstep.
  destruct (nd_activity n) eqn:Ha, (nd_commands n) as [|q rest] eqn:Hc; try done.
  case_decide; simplify_eq. unfold picked. rewrite Hc.
  apply (run_inv_calls _ _ _ _ n (set_commands rest n)) in Hinv; [|done..].
  apply (run_inv_begin _ _ _ _ (PickCommand (Some (command_of q)))) in Hinv; [|done].
  destruct (wk_replies _) as [|r l]; [done|].
  destruct (answer_other q r (begin_round (PickCommand (Some (command_of q)))
    (set_commands rest n))) as (Hw & Hact & Hq & _ & Ho).
  by apply (run_inv_calls _ _ _ _ _ _ Hw Hact Hq Ho).
Qed.
Lemma run_inv_send c0 ps0 picks items n n' :
  run_inv c0 ps0 picks items n → node_send capacity n = Some n' → run_inv c0 ps0 picks items n'.
Proof.
  intros (st & w & rest & Hrun & Hs & Hcore & Hout & Hst) Hstep.
  unfold node_send in Hstep. unfold stands in Hst.
  destruct (nd_activity n) as [|[|item l] next| |] eqn:Ha; try done.
  - destruct Hst as [-> ->]. exists (status_of next), w, []. simplify_eq.
    split_and!; try done; destruct next; cbn; auto.
  - destruct Hst as [-> ->]. case_match; [|done]. simplify_eq.
    exists (status_of next), w, l. cbn. split_and!; try done. by rewrite Hout, <- !app_assoc.
Qed.
Lemma run_inv_poll c0 ps0 picks items n item n' :
  run_inv c0 ps0 picks items n → node_poll n = Some (item, n') →
  run_inv c0 ps0 picks (items ++ [item]) n'.
Proof.
  intros (st & w & rest & Hrun & Hs & Hcore & Hout & Hst) Hstep. unfold node_poll in Hstep.
  destruct (nd_owner n) eqn:Ho; try done. destruct (nd_queue n) as [|x l] eqn:Hq; [done|].
  case_match; simplify_eq. exists st, w, rest. cbn. split_and!; try done.
  by rewrite Hout, <- app_assoc.
Qed.
Lemma run_inv_drop c0 ps0 picks items n n' :
  run_inv c0 ps0 picks items n → node_drop n = Some n' → run_inv c0 ps0 picks items n'.
Proof.
  intros (st & w & rest & Hrun & Hs & Hcore & Hout & Hst) Hstep. unfold node_drop in Hstep.
  exists st, w, rest. destruct (nd_owner n); try done; case_match; simplify_eq;
    cbn; split_and!; try done; by left.
Qed.

Lemma run_inv_step c0 ps0 picks items n a n' :
  run_inv c0 ps0 picks items n → node_step a n = Some n' →
  run_inv c0 ps0 (picks ++ picked a n) (items ++ read_items a n) n'.
Proof.
  intros Hinv Hstep. destruct (call_action a) eqn:Hcall.
  - destruct (call_step _ _ _ Hcall Hstep) as (Hw & Ha & Hq & Ho).
    apply (run_inv_calls _ _ _ _ _ _ Hw Ha Hq Ho).
    destruct a; try discriminate Hcall; cbn; by rewrite !app_nil_r.
  - destruct a; try discriminate Hcall; cbn [StreamHandle.node_step] in Hstep;
      cbn [read_items]; rewrite ?app_nil_r.
    + unfold node_receive in Hstep. destruct (nd_activity n) eqn:Ha; simplify_eq.
      by apply run_inv_begin.
    + by apply run_inv_command.
    + cbn; rewrite ?app_nil_r. by apply (run_inv_send _ _ _ _ n).
    + apply fmap_Some in Hstep as ([item m] & Hp & ->). unfold picked, read_items.
      rewrite Hp, ?app_nil_r. by apply (run_inv_poll _ _ _ _ n).
    + cbn; rewrite ?app_nil_r. by apply (run_inv_drop _ _ _ _ n).
Qed.
Lemma run_inv_trace connection partitions picks items n :
  node_trace (spawn_node config connection partitions) picks items n →
  run_inv connection partitions picks items n.
Proof.
  induction 1 as [|picks items n a n' _ IH Hstep]; [|by apply run_inv_step].
  unfold run_inv, run_worker, spawn_node. destruct (flow_credit_new config) as [credit|e|].
  - by exists Running, (mkWorker connection partitions credit [] [] []), [].
  - by eexists Stopped, _, [Err e].
  - by exists Panicked, (mkWorker connection partitions (mkFlowCredit 1 0) [] [] []), [];
      split_and!; try done; right.
Qed.
End Refines.

(** ** Lemmas: a shutdown is answered once, by a worker that is ending *)
Section Owner.
Context `{Snappy}.
Context (config : FlowControlConfig) (stream_end_on_close : bool) (capacity : Z).
Abbreviation node_step := (node_step config stream_end_on_close capacity).
Abbreviation node_run := (node_run config stream_end_on_close capacity).
Abbreviation node_trace := (node_trace config stream_end_on_close capacity).
Abbreviation round := (round config stream_end_on_close).
Abbreviation begin_round := (begin_round config stream_end_on_close).
Abbreviation the_shutdown := (PickCommand (Some CommandShutdown)).

Lemma flush_returns fuel : ∀ w, let '(o, w') := credit_flush_loop fuel w in
  wk_output w' = wk_output w ∧ wk_replies w' = wk_replies w
  ∧ (∀ u, o = Done (Ok u) → cr_pending (wk_credit w') = 0).
Proof.
  induction fuel as [|fuel IH]; intros w; [by split_and!|]. cbn [credit_flush_loop].
  unfold io_bind at 1, io_get. cbn beta iota.
  destruct (Z.eqb_spec (cr_pending (wk_credit w)) 0) as [Hz|Hz]; [by split_and!|].
  unfold io_bind at 1, on_connection, io_zoom.
  destruct (send_frame _ _) as [[[[]|e|]|] c']; [|by split_and!..].
  apply (IH (set_credit_pending _ (set_connection c' w))).
Qed.
Lemma shutdown_round w :
  wk_partitions w ≠ ∅ →
  let '(next, w') := round the_shutdown w in
  match wk_replies w' with
  | [] => next ≠ NextSelect
  | r :: _ => next = NextEnd ∧ (r = Ok tt → cr_pending (wk_credit w') = 0)
  end.
Proof.
  intros Hp. unfold StreamHandle.round, worker_round, handle_command.
  unfold io_bind at 1, io_get. cbn [wk_partitions]. rewrite decide_False by done.
  unfold credit_flush, io_bind at 1, io_try. cbn [wk_credit].
  pose proof (flush_returns (S (Z.to_nat (cr_pending (wk_credit w) / u32_max + 1)))
    (mkWorker (wk_connection w) (wk_partitions w) (wk_credit w) [] [] [])) as Hf.
  destruct (credit_flush_loop _ _) as [o w']. destruct Hf as (_ & Hr & Hok). cbn in Hr.
  destruct o as [[[]|e|]|]; cbn; rewrite Hr; cbn; try done.
  split; [done|]. intros _. by apply (Hok tt).
Qed.
Lemma empty_round pick w :
  wk_partitions w = ∅ → (round pick w).1 ≠ NextSelect.
Proof.
  intros Hp. unfold StreamHandle.round, worker_round, report.
  unfold io_bind at 1, io_get. cbn [wk_partitions]. rewrite decide_True by done.
  unfold io_bind at 1, io_try. destruct (credit_flush _) as [[[[]|e|]|] w']; cbn; try done.
  unfold io_bind. by destruct (output_send _ _) as [[[]|] ?].
Qed.

(** The worker takes no further round. *)
Definition ending (n : NodeStream) : Prop :=
  match nd_activity n with Selecting | Sending _ NextSelect => False | _ => True end.
Definition flushed (r : result unit) (n : NodeStream) : Prop :=
  r = Ok tt → cr_pending (wk_credit (nd_worker n)) = 0.
Record owner_inv (picks : list Pick) (n : NodeStream) : Prop := {
  oi_closes : nd_owner n ≠ OwnReading → existsb closing_call (nd_closes n) = false;
  oi_wait : nd_owner n = OwnWait → QueuedShutdown ∈ nd_commands n ∨ ending n;
  oi_join r : nd_owner n = OwnJoin r → ending n;
  oi_queued : QueuedShutdown ∈ nd_commands n → nd_owner n = OwnWait ∨ ending n;
  oi_returned r : nd_owner n = OwnReturned r → node_over n = true;
  oi_flushed : the_shutdown ∈ picks →
    match nd_owner n with
    | OwnWait => ending n
    | OwnJoin r | OwnReturned r => flushed r n
    | OwnDropped => True
    | _ => False
    end
}.

Lemma no_closing closes k vbucket :
  existsb closing_call closes = false →
  closes !! k ≠ Some (ClSend vbucket) ∧ closes !! k ≠ Some (ClWait vbucket).
Proof.
  intros Hn. split; intros Hk; apply list_elem_of_lookup_2, list_elem_of_In in Hk;
    apply not_true_iff_false in Hn; apply Hn, existsb_exists; eauto.
Qed.
Lemma no_closing_insert closes k c :
  closing_call c = false → existsb closing_call closes = false →
  existsb closing_call (<[k := c]> closes) = false.
Proof.
  intros Hc. revert k. induction closes as [|x l IH]; intros [|k]; cbn; try done.
  - intros [_ ?]%orb_false_elim. by rewrite Hc.
  - intros [-> ?]%orb_false_elim. by apply IH.
Qed.
(** While the worker selects, no shutdown has been taken. *)
Lemma selecting_inv picks n :
  owner_inv picks n → nd_activity n = Selecting →
  (the_shutdown ∈ picks → nd_owner n = OwnDropped)
  ∧ (∀ r, nd_owner n ≠ OwnJoin r) ∧ (∀ r, nd_owner n ≠ OwnReturned r)
  ∧ (QueuedShutdown ∈ nd_commands n ↔ nd_owner n = OwnWait).
Proof.
  intros [Hc Hw Hj Hq Hr Hf] Ha.
  assert (He : ¬ ending n) by (unfold ending; rewrite Ha; intros []).
  assert (Hj' : ∀ r, nd_owner n ≠ OwnJoin r) by (intros r Ho; by apply He, (Hj r)).
  assert (Hr' : ∀ r, nd_owner n ≠ OwnReturned r).
  { intros r Ho. specialize (Hr r Ho). unfold node_over in Hr. by rewrite Ha in Hr. }
  split_and!; [|done|done|naive_solver].
  intros Hin. specialize (Hf Hin). destruct (nd_owner n) eqn:Ho; try done.
  - by destruct (Hj' r).
  - by destruct (Hr' r).
Qed.

Lemma owner_inv_receive picks n :
  owner_inv picks n → nd_activity n = Selecting →
  owner_inv (picks ++ [PickReceive]) (begin_round PickReceive n).
Proof.
  intros Hinv Ha. destruct (selecting_inv _ _ Hinv Ha) as (Hin & Hj & Hr & Hq).
  destruct (begin_round_other config stream_end_on_close PickReceive n) as (_ & Hcs & Hcl & Ho).
  split; rewrite ?Hcs, ?Hcl, ?Ho.
  - apply Hinv.
  - naive_solver.
  - naive_solver.
  - naive_solver.
  - naive_solver.
  - rewrite elem_of_app, list_elem_of_singleton. intros [Hp|]; [|done]. by rewrite (Hin Hp).
Qed.
Lemma answer_closes q r n :
  existsb closing_call (nd_closes n) = false →
  existsb closing_call (nd_closes (answer q r n)) = false.
Proof. intros Hn. destruct q; cbn; repeat case_match; try done. by apply no_closing_insert. Qed.
Lemma begin_round_worker pick n next w :
  round pick (nd_worker n) = (next, w) →
  begin_round pick n = put_worker w (set_activity (Sending (wk_output w) next) n).
Proof. intros Hr. unfold StreamHandle.begin_round. by rewrite Hr. Qed.
Lemma owner_inv_command picks n n' :
  owner_inv picks n → node_command config stream_end_on_close n = Some n' →
  owner_inv (picks ++ picked NaCommand n) n'.
Proof.
  intros Hinv Hstep. unfold node_command in Hstep.
  destruct (nd_activity n) eqn:Ha; try done.
  destruct (selecting_inv _ _ Hinv Ha) as (Hin & Hj & Hr & Hq).
  destruct (nd_commands n) as [|q rest] eqn:Hc; try done.
  case_decide as Hp; [done|]. unfold picked. rewrite Hc.
  destruct (round (PickCommand (Some (command_of q))) (nd_worker n)) as [next w] eqn:Hround.
  rewrite (begin_round_worker _ _ next w) in Hstep by done. cbn [nd_worker put_worker] in Hstep.
  destruct q as [k vbucket|].
  - assert (Ho : nd_owner n' = nd_owner n ∧ nd_commands n' = rest
      ∧ (existsb closing_call (nd_closes n) = false → existsb closing_call (nd_closes n') = false)).
    { destruct (wk_replies w) as [|r l]; simplify_eq; [done|].
      cbn. repeat case_match; split_and!; try done. cbn. by apply no_closing_insert. }
    destruct Ho as (Ho & Hcs & Hcl). split; rewrite ?Ho, ?Hcs.
    + intros Hnr. by apply Hcl, Hinv.
    + intros Hwt. left. apply Hq, elem_of_cons in Hwt as [?|?]; done.
    + naive_solver.
    + intros Hx. left. apply Hq, elem_of_cons. by right.
    + naive_solver.
    + rewrite elem_of_app, list_elem_of_singleton. intros [Hx|?]; [|done]. by rewrite (Hin Hx).
  - assert (Howner : nd_owner n = OwnWait) by (apply Hq; left).
    pose proof (shutdown_round (nd_worker n) Hp) as Hs. change (command_of _) with CommandShutdown in *.
    rewrite Hround in Hs. destruct (wk_replies w) as [|r l]; simplify_eq.
    + assert (Hend : ending (put_worker w (set_activity (Sending (wk_output w) next)
        (set_commands rest n)))) by (unfold ending; cbn; by destruct next).
      split; cbn [nd_owner nd_closes nd_commands put_worker set_activity set_commands];
        rewrite ?Howner; try done; try (by right). intros _. by apply Hinv; rewrite Howner.
    + destruct Hs as [-> Hfl]. cbn. rewrite Howner.
      split; cbn; try done; try (by right); try naive_solver.
      intros _. by apply Hinv; rewrite Howner.
Qed.
End Owner.

Section Shutdown.
Context `{Snappy}.
Context (config : FlowControlConfig) (stream_end_on_close : bool) (capacity : Z).
Abbreviation node_step := (node_step config stream_end_on_close capacity).
Abbreviation node_run := (node_run config stream_end_on_close capacity).
Abbreviation node_trace := (node_trace config stream_end_on_close capacity).
Abbreviation the_shutdown := (PickCommand (Some CommandShutdown)).

Lemma owner_inv_send picks n n' :
  owner_inv picks n → node_send capacity n = Some n' → owner_inv picks n'.
Proof.
  intros [Hc Hw Hj Hq Hr Hf] Hstep. unfold node_send in Hstep.
  destruct (nd_activity n) as [|[|item l] next| |] eqn:Ha; try done.
  - assert (Hr' : ∀ r, nd_owner n ≠ OwnReturned r).
    { intros r Ho. specialize (Hr r Ho). unfold node_over in Hr. by rewrite Ha in Hr. }
    unfold ending in *. rewrite Ha in *.
    destruct next; simplify_eq; split; cbn; try done; try naive_solver;
      intros Hin; specialize (Hf Hin); destruct (nd_owner n); done.
  - case_match; [|done]. simplify_eq. unfold ending, node_over in *. rewrite Ha in *.
    split; unfold ending, node_over; cbn; try done; naive_solver.
Qed.
Lemma owner_inv_poll picks n item n' :
  owner_inv picks n → node_poll n = Some (item, n') → owner_inv picks n'.
Proof.
  intros [Hc Hw Hj Hq Hr Hf] Hstep. unfold node_poll in Hstep.
  destruct (nd_owner n) eqn:Ho; try done. destruct (nd_queue n); [done|]. case_match; [done|].
  simplify_eq. split; cbn; rewrite ?Ho; try done. 
Qed.
Lemma owner_inv_drop picks n n' :
  owner_inv picks n → node_drop n = Some n' → owner_inv picks n'.
Proof.
  intros Hinv Hstep. unfold node_drop in Hstep.
  destruct (existsb _ _) eqn:Hcl; [by destruct (nd_owner n)|].
  destruct (nd_owner n); simplify_eq; split; cbn; try done; by intros ?%elem_of_nil.
Qed.
(** A call that waits has borrowed the stream. *)
Lemma closing_reading picks n k c :
  owner_inv picks n → nd_closes n !! k = Some c → closing_call c = true → nd_owner n = OwnReading.
Proof.
  intros Hinv Hk Hcall. destruct (nd_owner n) eqn:Ho; [done|..].
  all: assert (Hc : existsb closing_call (nd_closes n) = false) by (apply Hinv; by rewrite Ho).
  all: apply list_elem_of_lookup_2, list_elem_of_In in Hk.
  all: apply not_true_iff_false in Hc; destruct Hc; apply existsb_exists; eauto.
Qed.
(** A reading owner's calls only touch the calls and the queue of commands. *)
Lemma owner_inv_reading picks n n' :
  owner_inv picks n → nd_owner n = OwnReading → nd_owner n' = OwnReading →
  (QueuedShutdown ∈ nd_commands n' → QueuedShutdown ∈ nd_commands n) →
  nd_activity n' = nd_activity n → owner_inv picks n'.
Proof.
  intros [Hc Hw Hj Hq Hr Hf] Ho Ho' Hcs Ha. rewrite Ho in *.
  split; rewrite ?Ho'; try done. intros Hx. destruct (Hq (Hcs Hx)) as [?|He]; [done|right].
  unfold ending. by rewrite Ha.
Qed.
Lemma owner_inv_close picks n a n' :
  match a with NaCloseBegin _ | NaCloseSend _ | NaCloseCancelled _ | NaCloseDrop _ => True
  | _ => False end →
  owner_inv picks n → node_step a n = Some n' → owner_inv picks n'.
Proof.
  intros Ha Hinv Hstep. pose proof (closing_reading picks n) as Hcl.
  destruct a; try done; cbn in Hstep.
  - destruct (nd_owner n) eqn:Ho; simplify_eq. by apply (owner_inv_reading _ n).
  - unfold close_send in Hstep. destruct (nd_closes n !! k) as [[]|] eqn:Hk; try done.
    specialize (Hcl _ _ Hinv Hk eq_refl). repeat case_match; simplify_eq;
      apply (owner_inv_reading _ n); try done.
    cbn. rewrite elem_of_app, list_elem_of_singleton. by intros [?|?].
  - unfold close_cancelled in Hstep. destruct (nd_closes n !! k) as [[]|] eqn:Hk; try done.
    specialize (Hcl _ _ Hinv Hk eq_refl). case_match; simplify_eq.
    by apply (owner_inv_reading _ n).
  - unfold close_drop in Hstep. destruct (nd_closes n !! k) as [c|] eqn:Hk; try done.
    destruct (closing_call c) eqn:Hc; simplify_eq. specialize (Hcl _ _ Hinv Hk Hc).
    by apply (owner_inv_reading _ n).
Qed.
Lemma owner_inv_shutdown picks n a n' :
  match a with NaShutdown | NaShutdownSend | NaShutdownCancelled | NaShutdownJoined _ => True
  | _ => False end →
  owner_inv picks n → node_step a n = Some n' → owner_inv picks n'.
Proof.
  intros Ha [Hc Hw Hj Hq Hr Hf] Hstep. destruct a; try done; cbn in Hstep.
  - unfold shutdown_call in Hstep. destruct (nd_owner n) eqn:Ho; try done.
    destruct (existsb _ _) eqn:Hcl; simplify_eq. split; cbn; try done; naive_solver.
  - unfold shutdown_send in Hstep. destruct (nd_owner n) eqn:Ho; try done.
    destruct (node_over n) eqn:Hover; [|case_match; [|done]]; simplify_eq; split; cbn; try done.
    + intros _. by apply Hc.
    + intros r _. unfold ending, node_over in *. cbn. by destruct (nd_activity n).
    + intros Hx. destruct (Hq Hx) as [?|He]; [done|by right].
    + intros _. by apply Hc.
    + intros _. left. apply elem_of_app. right. by left.
    + by left.
  - unfold shutdown_cancelled in Hstep. destruct (nd_owner n) eqn:Ho; try done.
    destruct (node_over n) eqn:Hover; [|done]. simplify_eq.
    split; cbn; try done; [by auto|]. intros Hx. right. unfold ending, node_over in *. cbn.
    by destruct (nd_activity n).
  - unfold shutdown_joined in Hstep. destruct (nd_owner n) eqn:Ho; try done.
    destruct (nd_activity n) as [| | |panicked] eqn:Ha'; try done. simplify_eq.
    split; cbn; try done; [by auto|..].
    + intros _. right. unfold ending. cbn. by rewrite Ha'.
    + intros ? _. unfold node_over. cbn. by rewrite Ha'.
    + intros Hx. specialize (Hf Hx). by destruct panicked.
Qed.

Lemma owner_inv_step picks n a n' :
  owner_inv picks n → node_step a n = Some n' → owner_inv (picks ++ picked a n) n'.
Proof.
  intros Hinv Hstep.
  destruct a; cbn [picked]; rewrite ?app_nil_r;
    try solve [by refine (owner_inv_close _ _ _ _ _ Hinv Hstep)
              |by refine (owner_inv_shutdown _ _ _ _ _ Hinv Hstep)].
  - cbn in Hstep. unfold node_receive in Hstep. destruct (nd_activity n) eqn:Ha; simplify_eq.
    by apply owner_inv_receive.
  - exact (owner_inv_command _ _ _ _ _ Hinv Hstep).
  - exact (owner_inv_send _ _ _ Hinv Hstep).
  - apply fmap_Some in Hstep as ([item m] & Hp & ->). exact (owner_inv_poll _ _ _ _ Hinv Hp).
  - exact (owner_inv_drop _ _ _ Hinv Hstep).
Qed.
Lemma owner_inv_trace connection partitions picks items n :
  node_trace (spawn_node config connection partitions) picks items n → owner_inv picks n.
Proof.
  induction 1 as [|picks items n a n' _ IH Hstep]; [|by apply owner_inv_step].
  unfold spawn_node. destruct (flow_credit_new config);
    split; cbn; try done; by intros ?%elem_of_nil.
Qed.
End Shutdown.

(** ** Lemmas: where a shutdown can lead *)
Section Progress.
Context `{Snappy}.
Context (config : FlowControlConfig) (stream_end_on_close : bool) (capacity : Z).
Abbreviation node_step := (node_step config stream_end_on_close capacity).
Abbreviation node_run := (node_run config stream_end_on_close capacity).
Abbreviation node_trace := (node_trace config stream_end_on_close capacity).
Abbreviation begin_round := (begin_round config stream_end_on_close).

(** A [shutdown] is under way. *)
Definition shutting (n : NodeStream) : bool :=
  match nd_owner n with OwnSend | OwnWait | OwnJoin _ => true | _ => false end.
(** The worker has an item to send and the channel is full. *)
Definition jammed (n : NodeStream) : bool :=
  match nd_activity n with Sending (_ :: _) _ => capacity <=? len (nd_queue n) | _ => false end.
Definition returned (n : NodeStream) : Prop := ∃ r, nd_owner n = OwnReturned r.
(** Some schedule that never drops the stream leads there. *)
Definition reaches (n : NodeStream) (P : NodeStream → Prop) : Prop :=
  ∃ actions n', (NaDrop ∉ actions) ∧ node_run actions n = Some n' ∧ P n'.
Definition settled (n : NodeStream) : Prop :=
  returned n ∨ nd_activity n = Stalled ∨ jammed n = true.
Definition owned (n : NodeStream) : Prop := ∃ picks, owner_inv picks n.

Lemma owned_step a n n' : owned n → node_step a n = Some n' → owned n'.
Proof. intros [picks Hi] Hs. eexists. by eapply owner_inv_step. Qed.
Lemma reaches_here n (P : NodeStream → Prop) : P n → reaches n P.
Proof. intros. exists [], n. split_and!; [by intros ?%elem_of_nil|done|done]. Qed.
Lemma reaches_step a n n' P :
  a ≠ NaDrop → node_step a n = Some n' → reaches n' P → reaches n P.
Proof.
  intros Ha Hs (actions & n2 & Hd & Hr & HP). exists (a :: actions), n2.
  split_and!; [|by cbn [StreamHandle.node_run]; rewrite Hs|done].
  by rewrite elem_of_cons; intros [?|?].
Qed.

(** Once the worker is over, the call returns. *)
Lemma over_reaches n : node_over n = true → shutting n = true → reaches n settled.
Proof.
  intros Hov Hsh. assert (Hover : ∃ p, nd_activity n = Over p).
  { unfold node_over in Hov. destruct (nd_activity n); eauto; done. }
  destruct Hover as [p Hp].
  assert (Hjoin : ∀ m r, nd_activity m = Over p → nd_owner m = OwnJoin r → reaches m settled).
  { intros m r Hm Ho.
    eapply (reaches_step (NaShutdownJoined "")); [done|cbn; unfold shutdown_joined|].
    - by rewrite Ho, Hm.
    - apply reaches_here. left. by eexists. }
  unfold shutting in Hsh. destruct (nd_owner n) eqn:Ho; try done.
  - eapply (reaches_step NaShutdownSend); [done| |].
    + cbn. unfold shutdown_send. by rewrite Ho, Hov.
    + by apply (Hjoin _ (Ok tt)).
  - eapply (reaches_step NaShutdownCancelled); [done|cbn; unfold shutdown_cancelled|].
    + by rewrite Ho, Hov.
    + apply reaches_here. left. by eexists.
  - by apply (Hjoin _ r).
Qed.

(** The items of a round are sent while there is room. *)
Lemma sending_reaches next items : ∀ n,
  owned n → nd_activity n = Sending items next →
  (∀ m, owned m → nd_activity m = after next → nd_owner m = nd_owner n →
    nd_worker m = nd_worker n → (next = NextSelect → nd_commands m = nd_commands n) →
    reaches m settled) →
  reaches n settled.
Proof.
  induction items as [|item items IH]; intros n Hown Ha Hk.
  - assert (Hs : node_step NaSend n = Some (match next with
        | NextEnd | NextPanic => set_commands [] (set_activity (after next) n)
        | _ => set_activity (after next) n end)) by (cbn; unfold node_send; rewrite Ha; by destruct next).
    apply (reaches_step NaSend _ _ _ ltac:(done) Hs). apply Hk; [by eapply owned_step| |..];
      by destruct next.
  - destruct (jammed n) eqn:Hj; [by apply reaches_here; right; right|].
    unfold jammed in Hj. rewrite Ha in Hj. apply Z.leb_gt in Hj.
    assert (Hs : node_step NaSend n
      = Some (set_activity (Sending items next) (set_queue (nd_queue n ++ [item]) n))).
    { cbn. unfold node_send. by rewrite Ha, (proj2 (Z.ltb_lt _ _) Hj). }
    apply (reaches_step NaSend _ _ _ ltac:(done) Hs), IH; [by eapply owned_step|done|].
    intros m. apply Hk.
Qed.
Lemma after_reaches next n :
  next ≠ NextSelect → nd_activity n = after next → shutting n = true → reaches n settled.
Proof.
  intros Hn Ha Hsh. destruct next; cbn in Ha; try done.
  1,2: apply over_reaches; [unfold node_over; by rewrite Ha|done].
  apply reaches_here. by right; left.
Qed.

(** Commands ahead of the shutdown, itself included. *)
Definition ahead (n : NodeStream) : nat :=
  length (nd_commands n) + match nd_owner n with OwnSend => 2 | _ => 0 end.

Lemma selecting_step n :
  owned n → shutting n = true → nd_activity n = Selecting →
  reaches n settled
  ∨ ∃ a n', a ≠ NaDrop ∧ node_step a n = Some n' ∧ shutting n' = true ∧ (ahead n' < ahead n)%nat
      ∧ (nd_activity n' = Selecting ∨ ∃ items next, nd_activity n' = Sending items next).
Proof.
  intros Hown Hsh Ha. pose proof Hown as [picks Hinv].
  destruct (selecting_inv _ _ Hinv Ha) as (_ & Hj & _ & Hq).
  assert (Hcase : nd_owner n = OwnSend ∧ len (nd_commands n) < COMMAND_CAPACITY
    ∨ ¬ (nd_owner n = OwnSend ∧ len (nd_commands n) < COMMAND_CAPACITY)).
  { destruct (Z_lt_dec (len (nd_commands n)) COMMAND_CAPACITY), (nd_owner n); naive_solver. }
  destruct Hcase as [[Ho Hl]|Hroom].
  { right. eexists NaShutdownSend, _. split; [done|]. split.
    - cbn. unfold shutdown_send, node_over. by rewrite Ho, Ha, (proj2 (Z.ltb_lt _ _) Hl).
    - split_and!; [done| |by left]. unfold ahead. cbn. rewrite Ho, length_app. cbn. lia. }
  assert (Hcs : nd_commands n ≠ []).
  { intros Hcs. unfold shutting in Hsh. destruct (nd_owner n) eqn:Ho; try done.
    - apply Hroom. rewrite Hcs. done.
    - assert (Hx : QueuedShutdown ∈ nd_commands n) by by apply Hq.
      rewrite Hcs in Hx. by apply elem_of_nil in Hx.
    - by destruct (Hj r). }
  destruct (decide (wk_partitions (nd_worker n) = ∅)) as [Hp|Hp].
  - left. pose proof (empty_round config stream_end_on_close PickReceive _ Hp) as He.
    destruct (round config stream_end_on_close PickReceive (nd_worker n)) as [next w] eqn:Hr.
    eapply (reaches_step NaReceive); [done|cbn; unfold node_receive; by rewrite Ha|].
    rewrite (begin_round_worker _ _ _ _ next w) by done.
    apply (sending_reaches next (wk_output w)); [|done|].
    + apply (owned_step NaReceive n); [done|]. cbn. unfold node_receive. rewrite Ha.
      by rewrite (begin_round_worker _ _ _ _ next w) by done.
    + intros m _ Hm Ho _ _. apply (after_reaches next); [done..|]. unfold shutting in *.
      by rewrite Ho.
  - right. destruct (nd_commands n) as [|q rest] eqn:Hc; [done|].
    eexists NaCommand, _. split; [done|]. split.
    { cbn. unfold node_command. by rewrite Ha, Hc, decide_False by done. }
    destruct (round config stream_end_on_close (PickCommand (Some (command_of q))) (nd_worker n))
      as [next w] eqn:Hr.
    rewrite (begin_round_worker _ _ _ _ next w) by done. cbn [nd_worker put_worker].
    unfold shutting, ahead in *. rewrite Hc in *.
    destruct (wk_replies w) as [|r l]; [split_and!; cbn; [done|lia|eauto]|].
    destruct q as [k vb|]; cbn; [repeat case_match; split_and!; cbn in *; eauto; try congruence; lia|].
    destruct (nd_owner n) eqn:Ho; cbn; rewrite ?Ho in *; split_and!; eauto; try done; lia.
Qed.

Lemma shutting_reaches k : ∀ n,
  owned n → shutting n = true → (ahead n < k)%nat → reaches n settled.
Proof.
  induction k as [|k IH]; [lia|]. intros n Hown Hsh Hk.
  assert (Hsel : ∀ m, owned m → shutting m = true → (ahead m < S k)%nat →
    nd_activity m = Selecting → reaches m settled).
  { intros m Hm Hms Hmk Hma.
    destruct (selecting_step m Hm Hms Hma) as [?|(a & m' & Hd & Hs & Hsh' & Hlt & _)]; [done|].
    apply (reaches_step _ _ _ _ Hd Hs), IH; [by eapply owned_step|done|lia]. }
  destruct (nd_activity n) as [|items next| |p] eqn:Ha.
  - by apply Hsel.
  - apply (sending_reaches next items); [done..|]. intros m Hm Hma Hmo _ Hcs.
    assert (Hms : shutting m = true) by (unfold shutting in *; by rewrite Hmo).
    destruct next; [|by apply (after_reaches NextEnd)|by apply (after_reaches NextPanic)
      |by apply (after_reaches NextStall)].
    apply Hsel; try done. unfold ahead in *. by rewrite Hcs, Hmo by done.
  - apply reaches_here. by right; left.
  - apply over_reaches; [|done]. unfold node_over. by rewrite Ha.
Qed.

(** A jammed worker stays jammed: nobody reads the channel during a [shutdown]. *)
Lemma jammed_step a n n' :
  owned n → jammed n = true → shutting n = true → a ≠ NaDrop → node_step a n = Some n' →
  jammed n' = true ∧ shutting n' = true.
Proof.
  intros [picks Hinv] Hj Hsh Hd Hs.
  assert (Hno : ∀ k c, nd_closes n !! k = Some c → closing_call c = false).
  { intros k c Hk. destruct (closing_call c) eqn:Hc; [|done].
    unfold shutting in Hsh. by rewrite (closing_reading _ _ _ _ Hinv Hk Hc) in Hsh. }
  unfold jammed, shutting in *.
  destruct (nd_activity n) as [|[|item items] next| |] eqn:Ha; try done.
  destruct a; try done; cbn in Hs.
  - unfold node_receive in Hs. by rewrite Ha in Hs.
  - unfold node_command in Hs. by rewrite Ha in Hs.
  - unfold node_send in Hs. rewrite Ha in Hs.
    by rewrite (proj2 (Z.ltb_ge _ _) (proj1 (Z.leb_le _ _) Hj)) in Hs.
  - unfold node_poll in Hs. by destruct (nd_owner n).
  - by destruct (nd_owner n).
  - unfold close_send in Hs. destruct (nd_closes n !! k) as [c|] eqn:Hk; [|done].
    specialize (Hno _ _ Hk). by destruct c.
  - unfold close_cancelled in Hs. destruct (nd_closes n !! k) as [c|] eqn:Hk; [|done].
    specialize (Hno _ _ Hk). by destruct c.
  - unfold close_drop in Hs. destruct (nd_closes n !! k) as [c|] eqn:Hk; [|done].
    by rewrite (Hno _ _ Hk) in Hs.
  - unfold shutdown_call in Hs. by destruct (nd_owner n).
  - unfold shutdown_send, node_over in Hs. rewrite Ha in Hs. destruct (nd_owner n); try done.
    case_match; simplify_eq. cbn. by rewrite Ha.
  - unfold shutdown_cancelled, node_over in Hs. rewrite Ha in Hs. by destruct (nd_owner n).
  - unfold shutdown_joined in Hs. rewrite Ha in Hs. by destruct (nd_owner n).
Qed.
Lemma jammed_run actions : ∀ n n',
  owned n → jammed n = true → shutting n = true → NaDrop ∉ actions →
  node_run actions n = Some n' → jammed n' = true ∧ shutting n' = true.
Proof.
  induction actions as [|a actions IH]; intros n n' Hown Hj Hsh Hd Hr.
  { cbn in Hr. by simplify_eq. }
  cbn [StreamHandle.node_run] in Hr. destruct (node_step a n) as [m|] eqn:Hs; [|done].
  apply not_elem_of_cons in Hd as [Ha Hd].
  destruct (jammed_step a n m Hown Hj Hsh ltac:(done) Hs) as [Hj' Hsh'].
  by apply (IH m); [eapply owned_step|..].
Qed.

(** The channel holds no more than its capacity. *)
Lemma queue_bounded connection partitions picks items n :
  0 ≤ capacity → node_trace (spawn_node config connection partitions) picks items n →
  len (nd_queue n) ≤ capacity.
Proof.
  intros Hcap. induction 1 as [|picks items n a n' _ IH Hs].
  { unfold spawn_node. by destruct (flow_credit_new config). }
  destruct (call_action a) eqn:Hc.
  { destruct (call_step _ _ _ _ _ _ Hc Hs) as (_ & _ & -> & _). done. }
  destruct a; try discriminate Hc; cbn in Hs.
  - unfold node_receive in Hs. destruct (nd_activity n); simplify_eq.
    by rewrite (proj1 (begin_round_other _ _ _ _)).
  - unfold node_command in Hs. destruct (nd_activity n), (nd_commands n) as [|q rest]; try done.
    case_decide; simplify_eq. case_match; [by rewrite (proj1 (begin_round_other _ _ _ _))|].
    rewrite (proj1 (proj2 (proj2 (answer_other _ _ _)))).
    by rewrite (proj1 (begin_round_other _ _ _ _)).
  - unfold node_send in Hs. destruct (nd_activity n) as [|[|item l] next| |]; try done.
    + simplify_eq. by destruct next.
    + case_match eqn:Hl; simplify_eq. cbn. apply Z.ltb_lt in Hl. unfold len in *.
      rewrite length_app. cbn. lia.
  - apply fmap_Some in Hs as ([item m] & Hp & ->). unfold node_poll in Hp.
    destruct (nd_owner n); try done. destruct (nd_queue n) eqn:Hq; [done|].
    case_match; simplify_eq. cbn. unfold len in *. cbn in IH. lia.
  - unfold node_drop in Hs. by destruct (nd_owner n); try done; case_match; simplify_eq.
Qed.
End Progress.

(** ** Properties *)
Section Properties.
Context `{Snappy}.

(** C21: whatever the interleaving of the worker with the calls of its stream, the channel of
    items never holds more than its capacity, and what the owner has read, what waits in the
    channel and what the worker still has to send are, in this order, the output of the
    connection worker run over the choices made so far, which also gives the connection, the
    partitions and the credit: nothing is lost, repeated or reordered on the way to the owner.
    The worker is over exactly when that run has ended and all of it has been sent, or when
    the owner dropped the stream. *)
Theorem handle_refines_worker config stream_end_on_close capacity connection partitions
    picks items n :
  0 ≤ capacity →
  node_trace config stream_end_on_close capacity (spawn_node config connection partitions)
    picks items n →
  len (nd_queue n) ≤ capacity
  ∧ ∃ st w rest,
      run_worker connection partitions config stream_end_on_close [] picks = (st, w)
      ∧ same_core w (nd_worker n) ∧ wk_output w = items ++ nd_queue n ++ rest
      ∧ stands st rest n.
Proof.
  intros Hcap Ht. split; [by eapply queue_bounded|].
  destruct (run_inv_trace _ _ _ _ _ _ _ _ Ht)
    as (st & w & rest & Hrun & _ & Hcore & Hout & Hst).
  by exists st, w, rest.
Qed.

(** C20: from every state in which [DcpStream::shutdown] is under way a schedule that does not
    drop the stream leads to its return, to a worker whose write never completes, or to a
    worker with an item to send on a full channel.  In the last case the call never returns:
    it does not read the channel it owns, so every further step but dropping it leaves the
    worker and the call where they are.  When it returns the worker is over, and if the worker
    took the command and answered [Ok], no flow-control credit is left unacknowledged. *)
Theorem shutdown_settles config stream_end_on_close capacity connection partitions
    picks items n :
  node_trace config stream_end_on_close capacity (spawn_node config connection partitions)
    picks items n →
  (shutting n = true →
     reaches config stream_end_on_close capacity n (settled capacity)
     ∧ (jammed capacity n = true → ∀ actions n', NaDrop ∉ actions →
          node_run config stream_end_on_close capacity actions n = Some n' →
          jammed capacity n' = true ∧ shutting n' = true))
  ∧ (∀ r, nd_owner n = OwnReturned r →
       node_over n = true ∧ (PickCommand (Some CommandShutdown) ∈ picks → flushed r n)).
Proof.
  intros Ht. pose proof (owner_inv_trace _ _ _ _ _ _ _ _ Ht) as Hinv.
  assert (Hown : owned n) by by exists picks.
  split.
  - intros Hsh. split; [apply (shutting_reaches _ _ _ (S (ahead n))); [done..|lia]|].
    intros Hj actions n' Hd Hr. by apply (jammed_run config stream_end_on_close capacity actions n n').
  - intros r Ho. split; [by apply (oi_returned _ _ Hinv r)|].
    intros Hin. pose proof (oi_flushed _ _ Hinv Hin) as Hf. by rewrite Ho in Hf.
Qed.
End Properties.

(** ** A sample run *)

(** The history of a list of actions, from a history. *)
Fixpoint node_history `{Snappy} (config : FlowControlConfig) (b : bool) (capacity : Z)
    (actions : list NodeAction) (h : list Pick * list (result DcpStreamItem) * NodeStream)
    : option (list Pick * list (result DcpStreamItem) * NodeStream) :=
  match actions with
  | [] => Some h
  | a :: actions =>
      let '(picks, items, n) := h in
      n' ← node_step config b capacity a n;
      node_history config b capacity actions (picks ++ picked a n, items ++ read_items a n, n')
  end.
Lemma history_trace `{Snappy} config b capacity start actions : ∀ picks items n picks' items' n',
  node_trace config b capacity start picks items n →
  node_history config b capacity actions (picks, items, n) = Some (picks', items', n') →
  node_trace config b capacity start picks' items' n'.
Proof.
  induction actions as [|a actions IH]; intros picks items n picks' items' n' Ht Hh;
    cbn [node_history] in Hh; [by simplify_eq|].
  apply bind_Some in Hh as (m & Hs & Hh). eapply IH; [|done]. by econstructor.
Qed.

(** A channel of one item: the owner reads the marker, the mutation fills the channel, the
    end of the stream finds no room, and then the owner calls [shutdown]. *)
Definition sample_actions : list NodeAction :=
  [NaReceive; NaSend; NaSend; NaPoll; NaReceive; NaSend; NaSend; NaReceive; NaSend; NaReceive;
   NaShutdown; NaShutdownSend].
Definition start_node : NodeStream :=
  spawn_node flow_control_default sample_peer sample_partitions.
Definition sample_history := node_history (H:=stored_only) flow_control_default true 1
  sample_actions ([], [], start_node).

Lemma handle_refines_worker_witness :
  ∃ picks items n, sample_history = Some (picks, items, n) ∧ length items = 1%nat
    ∧ len (nd_queue n) ≤ 1
    ∧ ∃ st w rest,
        run_worker (H:=stored_only) sample_peer sample_partitions flow_control_default true []
          picks = (st, w)
        ∧ same_core w (nd_worker n) ∧ wk_output w = items ++ nd_queue n ++ rest
        ∧ stands st rest n.
Proof.
  assert (Hc : (match sample_history with Some (_, items, _) => length items | None => 0%nat end)
    = 1%nat) by (vm_compute; reflexivity).
  destruct sample_history as [[[picks items] n]|] eqn:Hh; [|discriminate Hc].
  exists picks, items, n. split; [done|]. split; [done|].
  apply (handle_refines_worker (H:=stored_only) flow_control_default true 1); [lia|].
  eapply history_trace; [apply nt_start|exact Hh].
Defined.

Lemma shutdown_settles_witness :
  ∃ picks items n, sample_history = Some (picks, items, n)
    ∧ shutting n = true ∧ jammed 1 n = true
    ∧ (∀ actions n', NaDrop ∉ actions →
         node_run (H:=stored_only) flow_control_default true 1 actions n = Some n' →
         jammed 1 n' = true ∧ shutting n' = true).
Proof.
  assert (Hc : (match sample_history with
                | Some (_, _, n) => shutting n && jammed 1 n
                | None => false end) = true) by (vm_compute; reflexivity).
  destruct sample_history as [[[picks items] n]|] eqn:Hh; [|discriminate Hc].
  apply andb_true_iff in Hc as [Hs Hj].
  exists picks, items, n. split; [done|]. split; [done|]. split; [done|].
  assert (Ht : node_trace (H:=stored_only) flow_control_default true 1 start_node picks items n)
    by (eapply history_trace; [apply nt_start|exact Hh]).
  exact (proj2 (proj1 (shutdown_settles (H:=stored_only) flow_control_default true 1 _ _ _ _ _ Ht)
    Hs) Hj).
Defined.
