(* ===== verification/CheckpointRuntime.v ===== *)
(** * Checkpoint coordinator ([rust-dcp-core/src/checkpoint_runtime.rs])

    Per-vBucket processed and durable progress: events are registered when they are
    delivered, acknowledged by the application in any order, and the longest acknowledged
    prefix is flushed to the checkpoint store.

    The state behind the mutex is [CoordinatorState]; an operation maps it to a result and
    the state it leaves, also when it fails.  A panic while the lock is held poisons the
    mutex, which every later operation reports.  [flush] is split at its lock sections and
    await points, so that [CheckpointFlush] can interleave it with every other operation;
    the composition [flush] is the uninterrupted call. *)
From S2P Require Import Prelude Types Frame Errors Event Checkpoint Config.

(** ** State *)
Record PendingAck : Type := mkPendingAck {
  pa_delivery_id : Z;
  pa_checkpoint : DcpCheckpoint;
  pa_acknowledged : bool
}.

Record PartitionState : Type := mkPartition {
  ps_durable : DcpCheckpoint;
  ps_processed : DcpCheckpoint;
  ps_snapshot : option (Z * Z);
  ps_last_registered_seqno : Z;
  ps_pending : list PendingAck;
  ps_next_delivery_id : Z;
  ps_generation : Z;
  ps_durable_generation : Z
}.

Definition is_dirty (p : PartitionState) : bool :=
  negb (ps_generation p =? ps_durable_generation p)
  || negb (bool_decide (ps_durable p = ps_processed p)).

Record CheckpointMetrics : Type := mkMetrics {
  cm_flush_attempts : Z;
  cm_flush_failures : Z;
  cm_last_flush_duration : option Duration;
  cm_last_flush_error : option string
}.
Definition metrics_default : CheckpointMetrics := mkMetrics 0 0 None None.

Record CoordinatorState : Type := mkCoordinator {
  cs_partitions : gmap Z PartitionState;
  cs_metrics : CheckpointMetrics;
  cs_poisoned : bool
}.

Record DirtyCheckpoint : Type := mkDirty {
  dc_vbucket : Z;
  dc_checkpoint : DcpCheckpoint;
  dc_generation : Z
}.

Definition set_partitions (ps : gmap Z PartitionState) (s : CoordinatorState) :=
  mkCoordinator ps (cs_metrics s) (cs_poisoned s).
Definition set_metrics (m : CheckpointMetrics) (s : CoordinatorState) :=
  mkCoordinator (cs_partitions s) m (cs_poisoned s).

(** [lock_state], the section under the lock, and the poisoning of the mutex by a panic
    inside it. *)
Definition with_lock {A} (s : CoordinatorState)
    (body : CoordinatorState → result A * CoordinatorState) : result A * CoordinatorState :=
  if cs_poisoned s then (Err (Checkpoint "checkpoint coordinator state was poisoned"), s)
  else
    match body s with
    | (Panic, s') => (Panic, mkCoordinator (cs_partitions s') (cs_metrics s') true)
    | r => r
    end.

(** ** Tokens and outcomes *)
Record EventAck : Type := mkEventAck {
  ea_vbucket : Z;
  ea_delivery_id : Z;
  ea_seqno : Z
}.

Record AckOutcome : Type := mkAckOutcome {
  ao_vbucket : Z;
  ao_acknowledged_seqno : Z;
  ao_advanced_to : option DcpCheckpoint;
  ao_pending_events : Z
}.

Record TrackedEvent : Type := mkTrackedEvent {
  te_event : DcpEvent;
  te_ack : option EventAck
}.
Definition requires_ack (t : TrackedEvent) : bool := 
  match te_ack t with Some _ => true | None => false end.

(** ** [track_event] *)

(** The manifest a system event reports. *)
Definition event_manifest (event : DcpEvent) : option Z :=
  match event with ESystemEvent e => Some (sys_manifest_uid e) | _ => None end.

(** A sequence-bearing event: it is queued with the checkpoint it stands for. *)
Definition register_delivery (vbucket seqno : Z) (manifest : option Z) (p : PartitionState)
    : result (option EventAck) * PartitionState :=
  match ps_snapshot p with
  | None =>
      (Err (Checkpoint ("received seqno " +:+ pretty seqno
         +:+ " before a snapshot marker for vBucket " +:+ pretty vbucket)), p)
  | Some (snapshot_start, snapshot_end) =>
      if (seqno <=? ps_last_registered_seqno p) || (seqno <? snapshot_start)
         || (snapshot_end <? seqno) then
        (Err (Checkpoint ("seqno " +:+ pretty seqno
           +:+ " is non-monotonic or outside snapshot " +:+ pretty snapshot_start
           +:+ "..=" +:+ pretty snapshot_end +:+ " for vBucket " +:+ pretty vbucket)), p)
      else
        let base := match last (ps_pending p) with
                    | Some pending => pa_checkpoint pending
                    | None => ps_processed p
                    end in
        let checkpoint := ck_at seqno snapshot_start snapshot_end base in
        let checkpoint := match manifest with
                          | Some uid => ck_set_manifest_uid (Some uid) checkpoint
                          | None => checkpoint
                          end in
        match ck_validate checkpoint with
        | Err e => (Err e, p)
        | Panic => (Panic, p)
        | Ok _ =>
            let delivery_id := ps_next_delivery_id p in
            match checked_add u64_max (ps_next_delivery_id p) 1 with
            | None => (Err (Checkpoint ("delivery ID overflow for vBucket "
                         +:+ pretty vbucket)), p)
            | Some next =>
                (Ok (Some (mkEventAck vbucket delivery_id seqno)),
                 mkPartition (ps_durable p) (ps_processed p) (ps_snapshot p) seqno
                   (ps_pending p ++ [mkPendingAck delivery_id checkpoint false])
                   next (ps_generation p) (ps_durable_generation p))
            end
        end
  end.

(** A snapshot marker: it bounds the deliveries that follow. *)
Definition register_snapshot (vbucket : Z) (marker : SnapshotMarker) (p : PartitionState)
    : result (option EventAck) * PartitionState :=
  if (snap_end_seqno marker <? snap_start_seqno marker)
     || (snap_end_seqno marker <? ck_seqno (ps_processed p)) then
    (Err (Checkpoint ("snapshot " +:+ pretty (snap_start_seqno marker) +:+ "..="
       +:+ pretty (snap_end_seqno marker) +:+ " is invalid after processed seqno "
       +:+ pretty (ck_seqno (ps_processed p)) +:+ " for vBucket " +:+ pretty vbucket)), p)
  else
    (Ok None,
     mkPartition (ps_durable p) (ps_processed p)
       (Some (snap_start_seqno marker, snap_end_seqno marker))
       (ps_last_registered_seqno p) (ps_pending p) (ps_next_delivery_id p)
       (ps_generation p) (ps_durable_generation p)).

Definition track_partition (vbucket : Z) (event : DcpEvent) (p : PartitionState)
    : result (option EventAck) * PartitionState :=
  match event with
  | ESnapshotMarker marker => register_snapshot vbucket marker p
  | _ =>
      match event_seqno event with
      | None => (Ok None, p)
      | Some seqno => register_delivery vbucket seqno (event_manifest event) p
      end
  end.

Definition track_event (event : DcpEvent) (s : CoordinatorState)
    : result TrackedEvent * CoordinatorState :=
  let vbucket := event_vbucket event in
  with_lock s (λ s,
    match cs_partitions s !! vbucket with
    | None => (Err (Checkpoint ("received event for untracked vBucket " +:+ pretty vbucket)), s)
    | Some p =>
        let '(r, p') := track_partition vbucket event p in
        (res_map (mkTrackedEvent event) r, set_partitions (<[vbucket := p']> (cs_partitions s)) s)
    end).

(** ** [EventAck::acknowledge] *)

(** [iter_mut().find(..)] and the assignment to the entry found. *)
Fixpoint mark_acknowledged (id : Z) (l : list PendingAck) : option (list PendingAck) :=
  match l with
  | [] => None
  | a :: l =>
      if pa_delivery_id a =? id
      then Some (mkPendingAck (pa_delivery_id a) (pa_checkpoint a) true :: l)
      else (a ::.) <$> mark_acknowledged id l
  end.

(** The [while] loop over the acknowledged head of the queue. *)
Fixpoint pop_acknowledged (l : list PendingAck) (processed : DcpCheckpoint)
    (advanced : option DcpCheckpoint) : list PendingAck * DcpCheckpoint * option DcpCheckpoint :=
  match l with
  | a :: l' =>
      if pa_acknowledged a
      then pop_acknowledged l' (pa_checkpoint a) (Some (pa_checkpoint a))
      else (l, processed, advanced)
  | [] => ([], processed, advanced)
  end.

Definition acknowledge_partition (t : EventAck) (p : PartitionState)
    : result AckOutcome * PartitionState :=
  match mark_acknowledged (ea_delivery_id t) (ps_pending p) with
  | None => (Err (Checkpoint ("checkpoint ACK " +:+ pretty (ea_delivery_id t)
               +:+ " for vBucket " +:+ pretty (ea_vbucket t) +:+ " is obsolete")), p)
  | Some marked =>
      let '(pending, processed, advanced) := pop_acknowledged marked (ps_processed p) None in
      let with_generation g :=
        mkPartition (ps_durable p) processed (ps_snapshot p) (ps_last_registered_seqno p)
          pending (ps_next_delivery_id p) g (ps_durable_generation p) in
      let outcome := mkAckOutcome (ea_vbucket t) (ea_seqno t) advanced (len pending) in
      match advanced with
      | None => (Ok outcome, with_generation (ps_generation p))
      | Some _ =>
          match checked_add u64_max (ps_generation p) 1 with
          | Some g => (Ok outcome, with_generation g)
          | None => (Err (Checkpoint ("checkpoint generation overflow for vBucket "
                       +:+ pretty (ea_vbucket t))), with_generation (ps_generation p))
          end
      end
  end.

Definition acknowledge (t : EventAck) (s : CoordinatorState)
    : result AckOutcome * CoordinatorState :=
  with_lock s (λ s,
    match cs_partitions s !! ea_vbucket t with
    | None => (Err (Checkpoint ("vBucket " +:+ pretty (ea_vbucket t)
                 +:+ " is not tracked by the checkpoint coordinator")), s)
    | Some p =>
        let '(r, p') := acknowledge_partition t p in
        (r, set_partitions (<[ea_vbucket t := p']> (cs_partitions s)) s)
    end).

(** [TrackedEvent::acknowledge]: boundary events carry no token. *)
Definition tracked_acknowledge (t : TrackedEvent) (s : CoordinatorState)
    : result (option AckOutcome) * CoordinatorState :=
  match te_ack t with
  | None => (Ok None, s)
  | Some a => let '(r, s') := acknowledge a s in (res_map Some r, s')
  end.

(** ** [mark_dirty] *)
Definition mark_dirty (vbucket : Z) (s : CoordinatorState) : result unit * CoordinatorState :=
  with_lock s (λ s,
    match cs_partitions s !! vbucket with
    | None => (Err (Checkpoint ("vBucket " +:+ pretty vbucket
                 +:+ " is not tracked by the checkpoint coordinator")), s)
    | Some p =>
        match checked_add u64_max (ps_generation p) 1 with
        | None => (Err (Checkpoint ("checkpoint generation overflow for vBucket "
                     +:+ pretty vbucket)), s)
        | Some g =>
            (Ok tt, set_partitions (<[vbucket :=
               mkPartition (ps_durable p) (ps_processed p) (ps_snapshot p)
                 (ps_last_registered_seqno p) (ps_pending p) (ps_next_delivery_id p) g
                 (ps_durable_generation p)]> (cs_partitions s)) s)
        end
    end).

(** ** Validation of checkpoint maps *)
Definition validate_checkpoint_identity (vbucket : Z) (bucket_uuid : string)
    (c : DcpCheckpoint) : result unit :=
  if negb (ck_vbucket c =? vbucket) then
    Err (Checkpoint ("loaded checkpoint key " +:+ pretty vbucket
      +:+ " does not match vBucket " +:+ pretty (ck_vbucket c)))
  else if negb (bool_decide (ck_bucket_uuid c = Some bucket_uuid)) then
    Err (Checkpoint ("vBucket " +:+ pretty vbucket
      +:+ " checkpoint does not belong to bucket " +:+ bucket_uuid))
  else ck_validate c.

Definition validate_initial_step (bucket_uuid : option string) (entry : Z * DcpCheckpoint)
    : result (option string) :=
  let '(vbucket, c) := entry in
  do? ck_validate c in
  if negb (ck_vbucket c =? vbucket) then
    Err (Checkpoint ("checkpoint map key " +:+ pretty vbucket
      +:+ " does not match checkpoint vBucket " +:+ pretty (ck_vbucket c)))
  else
    let? observed := ok_or (ck_bucket_uuid c)
      (Checkpoint ("vBucket " +:+ pretty vbucket +:+ " checkpoint has no bucket UUID")) in
    if bool_decide (observed = "") then
      Err (Checkpoint ("vBucket " +:+ pretty vbucket +:+ " checkpoint has an empty bucket UUID"))
    else
      match bucket_uuid with
      | Some expected =>
          if bool_decide (expected = observed) then Ok (Some observed)
          else Err (Checkpoint ("checkpoint bucket UUID " +:+ observed +:+ " does not match "
                 +:+ expected))
      | None => Ok (Some observed)
      end.

Definition validate_initial_checkpoints (m : gmap Z DcpCheckpoint) : result string :=
  if bool_decide (m = ∅) then
    Err (InvalidConfiguration "checkpoint coordinator requires at least one vBucket")
  else
    let? bucket_uuid := for_res (btree_to_list m) None validate_initial_step in
    match bucket_uuid with Some u => Ok u | None => Panic end.

(** ** [load_checkpoints]

    [reply] is the outcome of the bounded [store.load] call, [None] when it timed out. *)
Definition load_checkpoints (bucket_uuid : string) (vbuckets : list Z) (timeout : Duration)
    (reply : option (result (gmap Z DcpCheckpoint))) : result (gmap Z DcpCheckpoint) :=
  if bool_decide (bucket_uuid = "") then
    Err (InvalidConfiguration "checkpoint bucket UUID must not be empty")
  else if timeout =? 0 then
    Err (InvalidConfiguration "checkpoint load timeout must be greater than zero")
  else
    let requested : gset Z := list_to_set vbuckets in
    if negb (Z.of_nat (size requested) =? len vbuckets) then
      Err (Checkpoint "checkpoint load vBucket list contains duplicates")
    else
      let? checkpoints := (match reply with Some r => r | None => Err (Timeout timeout) end) in
      do? for_res (btree_to_list checkpoints) tt (λ _ '(vbucket, c),
        if negb (bool_decide (vbucket ∈ requested)) then
          Err (Checkpoint ("checkpoint store returned unrequested vBucket " +:+ pretty vbucket))
        else validate_checkpoint_identity vbucket bucket_uuid c) in
      Ok checkpoints.

(** ** [rebase_partitions] *)
Definition rebase_check (bucket_uuid : string) (ps : gmap Z PartitionState)
    (entry : Z * DcpCheckpoint) : result unit :=
  let '(vbucket, c) := entry in
  let? p := ok_or (ps !! vbucket)
    (Checkpoint ("cannot rebase untracked vBucket " +:+ pretty vbucket)) in
  do? validate_checkpoint_identity vbucket bucket_uuid c in
  if negb (bool_decide (ps_processed p = c)) && (ps_generation p =? u64_max) then
    Err (Checkpoint ("checkpoint generation overflow for vBucket " +:+ pretty vbucket))
  else Ok tt.

Definition rebase_partition (c : DcpCheckpoint) (p : PartitionState) : result PartitionState :=
  let? g := (if negb (bool_decide (ps_processed p = c))
             then add_or_panic u64_max (ps_generation p) 1 else Ok (ps_generation p)) in
  Ok (mkPartition (ps_durable p) c None (ck_seqno c) [] (ps_next_delivery_id p) g
        (ps_durable_generation p)).

Fixpoint rebase_apply (entries : list (Z * DcpCheckpoint)) (ps : gmap Z PartitionState)
    : result unit * gmap Z PartitionState :=
  match entries with
  | [] => (Ok tt, ps)
  | (vbucket, c) :: entries =>
      match ps !! vbucket with
      | None => (Err (Checkpoint ("cannot rebase untracked vBucket " +:+ pretty vbucket)), ps)
      | Some p =>
          match rebase_partition c p with
          | Ok p' => rebase_apply entries (<[vbucket := p']> ps)
          | Err e => (Err e, ps)
          | Panic => (Panic, ps)
          end
      end
  end.

Definition rebase_partitions (bucket_uuid : string) (effective : gmap Z DcpCheckpoint)
    (s : CoordinatorState) : result unit * CoordinatorState :=
  with_lock s (λ s,
    match for_res (btree_to_list effective) tt (λ _, rebase_check bucket_uuid (cs_partitions s))
    with
    | Err e => (Err e, s)
    | Panic => (Panic, s)
    | Ok _ =>
        let '(r, ps) := rebase_apply (btree_to_list effective) (cs_partitions s) in
        (r, set_partitions ps s)
    end).

(** ** [CheckpointCoordinator::new]

    The state of a new coordinator and the bucket it serves; the automatic flush task only
    calls [flush] at its ticks. *)
Definition partition_new (c : DcpCheckpoint) : PartitionState :=
  mkPartition c c None (ck_seqno c) [] 1 0 0.

Definition coordinator_new (config : CheckpointConfig) (checkpoints : gmap Z DcpCheckpoint)
    : result (string * CoordinatorState) :=
  do? checkpoint_config_validate config in
  let? bucket_uuid := validate_initial_checkpoints checkpoints in
  Ok (bucket_uuid, mkCoordinator (partition_new <$> checkpoints) metrics_default false).

(** ** [flush], phase by phase *)

Record CheckpointFlushReport : Type := mkFlushReport {
  fr_attempted : Z;
  fr_persisted : Z;
  fr_remaining_dirty : Z;
  fr_elapsed : Duration
}.

(** A section that only reads under the lock. *)
Definition read_lock {A} (s : CoordinatorState) (f : CoordinatorState → A) : result A :=
  if cs_poisoned s then Err (Checkpoint "checkpoint coordinator state was poisoned")
  else Ok (f s).

(** Before the gate: is there anything to flush? *)
Definition flush_has_dirty (s : CoordinatorState) : result bool :=
  read_lock s (λ s, existsb is_dirty (btree_values (cs_partitions s))).

(** Behind the gate: the processed checkpoint and generation of every dirty vBucket. *)
Definition collect_dirty (ps : gmap Z PartitionState) : list DirtyCheckpoint :=
  (λ '(vb, p), mkDirty vb (ps_processed p) (ps_generation p))
    <$> filter (λ vp, is_dirty vp.2 = true) (btree_to_list ps).
Definition flush_collect (s : CoordinatorState) : result (list DirtyCheckpoint) :=
  read_lock s (λ s, collect_dirty (cs_partitions s)).

Definition set_attempts (n : Z) (m : CheckpointMetrics) : CheckpointMetrics :=
  mkMetrics n (cm_flush_failures m) (cm_last_flush_duration m) (cm_last_flush_error m).

Definition count_attempt (s : CoordinatorState) : result unit * CoordinatorState :=
  match checked_add u64_max (cm_flush_attempts (cs_metrics s)) 1 with
  | None => (Err (Checkpoint "flush attempt counter overflow"), s)
  | Some n => (Ok tt, set_metrics (set_attempts n (cs_metrics s)) s)
  end.
Definition flush_begin_attempt (s : CoordinatorState) : result unit * CoordinatorState :=
  with_lock s count_attempt.

(** The replies of the spawned store call, as [flush] sees them. *)
Inductive SaveReply : Type :=
| SaveOk
| SaveErr (e : DcpError)
| SaveJoinError (m : string)
| SaveTimeout.

Definition reply_error (timeout : Duration) (r : SaveReply) : option DcpError :=
  match r with
  | SaveOk => None
  | SaveErr e => Some e
  | SaveJoinError m => Some (CheckpointStoreError ("checkpoint store task failed: " +:+ m))
  | SaveTimeout => Some (Timeout timeout)
  end.

Definition record_flush_failure (elapsed : Duration) (error : DcpError)
    (increment_attempt : bool) (s : CoordinatorState) : result unit * CoordinatorState :=
  with_lock s (λ s,
    let '(r, s) := (if increment_attempt then count_attempt s else (Ok tt, s)) in
    match r with
    | Err e => (Err e, s)
    | Panic => (Panic, s)
    | Ok _ =>
        match checked_add u64_max (cm_flush_failures (cs_metrics s)) 1 with
        | None => (Err (Checkpoint "flush failure counter overflow"), s)
        | Some n =>
            (Ok tt, set_metrics (mkMetrics (cm_flush_attempts (cs_metrics s)) n (Some elapsed)
                      (Some (dcp_error_to_string error))) s)
        end
    end).

Fixpoint commit_saved (saved : list DirtyCheckpoint) (ps : gmap Z PartitionState)
    : result unit * gmap Z PartitionState :=
  match saved with
  | [] => (Ok tt, ps)
  | d :: saved =>
      match ps !! dc_vbucket d with
      | None => (Panic, ps)
      | Some p =>
          commit_saved saved (<[dc_vbucket d :=
            mkPartition (dc_checkpoint d) (ps_processed p) (ps_snapshot p)
              (ps_last_registered_seqno p) (ps_pending p) (ps_next_delivery_id p)
              (ps_generation p) (dc_generation d)]> ps)
      end
  end.

Definition count_dirty (ps : gmap Z PartitionState) : Z :=
  len (filter (λ p, is_dirty p = true) (btree_values ps)).

Definition flush_commit (dirty : list DirtyCheckpoint) (elapsed : Duration)
    (s : CoordinatorState) : result CheckpointFlushReport * CoordinatorState :=
  with_lock s (λ s,
    let '(r, ps) := commit_saved dirty (cs_partitions s) in
    let s := set_partitions ps s in
    match r with
    | Err e => (Err e, s)
    | Panic => (Panic, s)
    | Ok _ =>
        let m := cs_metrics s in
        let s := set_metrics (mkMetrics (cm_flush_attempts m) (cm_flush_failures m)
                   (Some elapsed) None) s in
        (Ok (mkFlushReport (len dirty) (len dirty) (count_dirty (cs_partitions s)) elapsed), s)
    end).

(** A failed save: the error is recorded, then returned. *)
Definition flush_fail (elapsed : Duration) (error : DcpError) (increment_attempt : bool)
    (s : CoordinatorState) : result CheckpointFlushReport * CoordinatorState :=
  match record_flush_failure elapsed error increment_attempt s with
  | (Ok _, s) => (Err error, s)
  | (Err e, s) => (Err e, s)
  | (Panic, s) => (Panic, s)
  end.

Definition idle_report (elapsed : Duration) : CheckpointFlushReport := mkFlushReport 0 0 0 elapsed.

(** The whole call with nothing interleaved: [gate] says whether the flush gate was
    acquired before the deadline, [save] is the store's answer to the batch. *)
Definition flush (timeout : Duration) (gate : bool) (save : list DcpCheckpoint → SaveReply)
    (elapsed : Duration) (s : CoordinatorState)
    : result CheckpointFlushReport * CoordinatorState :=
  match flush_has_dirty s with
  | Err e => (Err e, s)
  | Panic => (Panic, s)
  | Ok false => (Ok (idle_report elapsed), s)
  | Ok true =>
      if negb gate then flush_fail elapsed (Timeout timeout) true s
      else
        match flush_collect s with
        | Err e => (Err e, s)
        | Panic => (Panic, s)
        | Ok [] => (Ok (idle_report elapsed), s)
        | Ok dirty =>
            match flush_begin_attempt s with
            | (Err e, s) => (Err e, s)
            | (Panic, s) => (Panic, s)
            | (Ok _, s) =>
                match reply_error timeout (save (dc_checkpoint <$> dirty)) with
                | Some error => flush_fail elapsed error false s
                | None => flush_commit dirty elapsed s
                end
            end
        end
  end.

(** ** Status snapshots *)
Record PartitionCheckpointStatus : Type := mkStatus {
  st_durable : DcpCheckpoint;
  st_processed : DcpCheckpoint;
  st_pending_events : Z;
  st_dirty : bool
}.
Definition statuses (s : CoordinatorState) : result (gmap Z PartitionCheckpointStatus) :=
  read_lock s (λ s,
    (λ p, mkStatus (ps_durable p) (ps_processed p) (len (ps_pending p)) (is_dirty p))
      <$> cs_partitions s).
Definition processed_checkpoints (s : CoordinatorState) : result (gmap Z DcpCheckpoint) :=
  read_lock s (λ s, ps_processed <$> cs_partitions s).
Definition metrics (s : CoordinatorState) : result CheckpointMetrics := read_lock s cs_metrics.

(** ** [CheckpointStream]: every event is registered before it is yielded *)
Inductive CheckpointStreamItem : Type :=
| CkEvent (t : TrackedEvent)
| CkTopologyConfig (source : string) (payload : bytes)
| CkUnknown (f : Frame).

Inductive Poll (A : Type) : Type :=
| Ready (a : A)
| Pending.
Arguments Ready {A} a.
Arguments Pending {A}.

Definition poll_next (inner : Poll (option (result DcpStreamItem))) (s : CoordinatorState)
    : Poll (option (result CheckpointStreamItem)) * CoordinatorState :=
  match inner with
  | Ready (Some (Ok (ItemEvent event))) =>
      let '(r, s) := track_event event s in (Ready (Some (res_map CkEvent r)), s)
  | Ready (Some (Ok (ItemTopologyConfig source payload))) =>
      (Ready (Some (Ok (CkTopologyConfig source payload))), s)
  | Ready (Some (Ok (ItemUnknown frame))) => (Ready (Some (Ok (CkUnknown frame))), s)
  | Ready (Some (Err e)) => (Ready (Some (Err e)), s)
  | Ready (Some Panic) => (Ready (Some Panic), s)
  | Ready None => (Ready None, s)
  | Pending => (Pending, s)
  end.
