(* ===== verification/CheckpointSpec.v ===== *)
(** * What the checkpoint coordinator promises for one vBucket

    The abstract state is a [Ledger]: the position the stream was opened at, and every
    delivery since, in order, with its acknowledgement.  The checkpoint that may be
    persisted is the one of the longest acknowledged prefix of the ledger.  The refinement
    shows that the queue manipulation of [checkpoint_runtime.rs] computes exactly that,
    although it forgets every delivery it has advanced over. *)
From S2P Require Import Prelude Types Frame Errors Event Checkpoint CheckpointRuntime.

(** ** The ledger *)
Record Ledger : Type := mkLedger {
  lg_base : DcpCheckpoint;
  lg_log : list PendingAck
}.

Fixpoint acked_prefix (l : list PendingAck) : list PendingAck :=
  match l with
  | a :: l => if pa_acknowledged a then a :: acked_prefix l else []
  | [] => []
  end.
Fixpoint unacked_suffix (l : list PendingAck) : list PendingAck :=
  match l with
  | a :: l' => if pa_acknowledged a then unacked_suffix l' else l
  | [] => []
  end.

Definition last_checkpoint (d : DcpCheckpoint) (l : list PendingAck) : DcpCheckpoint :=
  match last l with Some a => pa_checkpoint a | None => d end.

(** The position that may be made durable, and the position of the latest delivery. *)
Definition ledger_processed (L : Ledger) : DcpCheckpoint :=
  last_checkpoint (lg_base L) (acked_prefix (lg_log L)).
Definition ledger_last (L : Ledger) : DcpCheckpoint := last_checkpoint (lg_base L) (lg_log L).

Definition set_ack (id : Z) (a : PendingAck) : PendingAck :=
  if pa_delivery_id a =? id then mkPendingAck (pa_delivery_id a) (pa_checkpoint a) true else a.
Definition ledger_ack (id : Z) (L : Ledger) : Ledger :=
  mkLedger (lg_base L) (set_ack id <$> lg_log L).
Definition ledger_deliver (id : Z) (c : DcpCheckpoint) (L : Ledger) : Ledger :=
  mkLedger (lg_base L) (lg_log L ++ [mkPendingAck id c false]).

Abbreviation seqno_of := (λ a, ck_seqno (pa_checkpoint a)) (only parsing).

(** A checkpoint that belongs to the vBucket of bucket [uuid] and is consistent. *)
Definition good_checkpoint (uuid : string) (vb : Z) (c : DcpCheckpoint) : Prop :=
  ck_valid c ∧ ck_vbucket c = vb ∧ ck_bucket_uuid c = Some uuid.

(** Deliveries are numbered and positioned in strictly increasing order, from the base. *)
Record wf_ledger (uuid : string) (vb next_id : Z) (L : Ledger) : Prop := mk_wf_ledger {
  wl_seqnos : StronglySorted Z.lt (ck_seqno (lg_base L) :: (seqno_of <$> lg_log L));
  wl_ids : StronglySorted Z.lt ((pa_delivery_id <$> lg_log L) ++ [next_id]);
  wl_good : Forall (good_checkpoint uuid vb) (lg_base L :: (pa_checkpoint <$> lg_log L))
}.

(** The concrete partition keeps only the part of the ledger it has not advanced over. *)
Record refines (uuid : string) (vb : Z) (L : Ledger) (p : PartitionState) : Prop := mk_refines {
  rf_wf : wf_ledger uuid vb (ps_next_delivery_id p) L;
  rf_processed : ps_processed p = ledger_processed L;
  rf_pending : ps_pending p = unacked_suffix (lg_log L);
  rf_last : ps_last_registered_seqno p = ck_seqno (ledger_last L);
  rf_gen : in_range u64_max (ps_generation p)
}.

(** The abstract transitions of one vBucket. *)
Inductive ledger_step : Ledger → Ledger → Prop :=
| step_deliver L id c :
    Forall (λ a, pa_delivery_id a < id) (lg_log L) →
    ck_seqno (ledger_last L) < ck_seqno c →
    ledger_step L (ledger_deliver id c L)
| step_ack L id : ledger_step L (ledger_ack id L)
| step_reset L c : ledger_step L (mkLedger c [])
| step_none L : ledger_step L L.

(** ** Lemmas on ledgers *)

Lemma acked_split l : acked_prefix l ++ unacked_suffix l = l.
Proof. induction l as [|a l IH]; [done|]. simpl. case_match; [|done]. simpl. by rewrite IH. Qed.
Lemma acked_prefix_acked l : Forall (λ a, pa_acknowledged a = true) (acked_prefix l).
Proof. induction l as [|a l IH]; simpl; [constructor|]. case_match; by constructor. Qed.
Lemma unacked_suffix_head l a k : unacked_suffix l = a :: k → pa_acknowledged a = false.
Proof.
  induction l as [|b l IH]; simpl; [done|]. case_match; [by apply IH|]. intros; by simplify_eq.
Qed.
Lemma acked_prefix_app l k :
  Forall (λ a, pa_acknowledged a = true) l → acked_prefix (l ++ k) = l ++ acked_prefix k.
Proof. induction 1 as [|a l Ha _ IH]; simpl; [done|]. by rewrite Ha, IH. Qed.
Lemma unacked_suffix_app l k :
  Forall (λ a, pa_acknowledged a = true) l → unacked_suffix (l ++ k) = unacked_suffix k.
Proof. induction 1 as [|a l Ha _ IH]; simpl; [done|]. by rewrite Ha, IH. Qed.
Lemma unacked_snoc l id c :
  let e := mkPendingAck id c false in
  acked_prefix (l ++ [e]) = acked_prefix l ∧ unacked_suffix (l ++ [e]) = unacked_suffix l ++ [e].
Proof.
  induction l as [|a l IH]; simpl; [done|]. destruct IH as [IH1 IH2]. case_match; [|done].
  by rewrite IH1, IH2.
Qed.
Lemma last_checkpoint_app d l k :
  last_checkpoint d (l ++ k) = last_checkpoint (last_checkpoint d l) k.
Proof. unfold last_checkpoint. rewrite last_app. by destruct (last k). Qed.
Lemma last_checkpoint_elem d l : last_checkpoint d l ∈ d :: (pa_checkpoint <$> l).
Proof.
  unfold last_checkpoint. destruct (last l) as [a|] eqn:Hl; [|set_solver].
  apply last_Some_elem_of in Hl. apply elem_of_cons. right.
  by apply list_elem_of_fmap_2.
Qed.

Lemma pop_acknowledged_spec l d adv :
  pop_acknowledged l d adv
  = (unacked_suffix l, last_checkpoint d (acked_prefix l),
     match acked_prefix l with [] => adv | _ => Some (last_checkpoint d (acked_prefix l)) end).
Proof.
  revert d adv. induction l as [|a l IH]; intros d adv; [done|]. simpl.
  destruct (pa_acknowledged a); [|done]. rewrite IH. unfold last_checkpoint.
  destruct (acked_prefix l) as [|b k]; [done|]. rewrite last_cons_cons.
  destruct (last (b :: k)) eqn:Hl; [done|]. by apply last_None in Hl.
Qed.

Lemma set_ack_ids id (l : list PendingAck) : pa_delivery_id <$> (set_ack id <$> l) = pa_delivery_id <$> l.
Proof. induction l as [|a l IH]; [done|]. csimpl. rewrite IH. unfold set_ack. by case_match. Qed.
Lemma set_ack_checkpoints id (l : list PendingAck) : pa_checkpoint <$> (set_ack id <$> l) = pa_checkpoint <$> l.
Proof. induction l as [|a l IH]; [done|]. csimpl. rewrite IH. unfold set_ack. by case_match. Qed.
Lemma set_ack_seqnos id (l : list PendingAck) : seqno_of <$> (set_ack id <$> l) = seqno_of <$> l.
Proof. induction l as [|a l IH]; [done|]. csimpl. rewrite IH. unfold set_ack. by case_match. Qed.
Lemma set_ack_fresh id (l : list PendingAck) : id ∉ pa_delivery_id <$> l → set_ack id <$> l = l.
Proof.
  induction l as [|a l IH]; [done|]. csimpl. rewrite not_elem_of_cons. intros [Ha Hl].
  rewrite IH by done. unfold set_ack. by destruct (Z.eqb_spec (pa_delivery_id a) id).
Qed.
Lemma set_ack_acked id (l : list PendingAck) :
  Forall (λ a, pa_acknowledged a = true) l → set_ack id <$> l = l.
Proof.
  induction 1 as [|a l Ha _ IH]; [done|]. csimpl. rewrite IH. unfold set_ack.
  case_match; [|done]. destruct a; simpl in *. by subst.
Qed.
Lemma last_checkpoint_set_ack id d l :
  last_checkpoint d (set_ack id <$> l) = last_checkpoint d l.
Proof.
  unfold last_checkpoint. rewrite fmap_last. destruct (last l) as [a|]; [|done]. simpl.
  unfold set_ack. by case_match.
Qed.

Lemma mark_acknowledged_spec id (l : list PendingAck) :
  NoDup (pa_delivery_id <$> l) →
  mark_acknowledged id l =
    if decide (id ∈ pa_delivery_id <$> l) then Some (set_ack id <$> l) else None.
Proof.
  induction l as [|a l IH]; [by intros; rewrite decide_False by set_solver|].
  csimpl. intros [Ha Hnd]%NoDup_cons. unfold set_ack at 1.
  destruct (Z.eqb_spec (pa_delivery_id a) id) as [<-|Hne].
  - rewrite decide_True by set_solver. by rewrite set_ack_fresh.
  - rewrite IH by done. destruct (decide (id ∈ pa_delivery_id <$> l)).
    + by rewrite decide_True by set_solver.
    + by rewrite decide_False by set_solver.
Qed.

(** ** Well-formedness along the abstract transitions *)
Section WfLedger.
Context (uuid : string) (vb : Z).

Lemma ledger_last_good n L : wf_ledger uuid vb n L → good_checkpoint uuid vb (ledger_last L).
Proof.
  intros Hwf. pose proof (wl_good _ _ _ _ Hwf) as Hg. rewrite Forall_forall in Hg.
  apply Hg, last_checkpoint_elem.
Qed.
Lemma ledger_processed_good n L :
  wf_ledger uuid vb n L → good_checkpoint uuid vb (ledger_processed L).
Proof.
  intros Hwf. pose proof (wl_good _ _ _ _ Hwf) as Hg. rewrite Forall_forall in Hg.
  apply Hg. unfold ledger_processed.
  pose proof (last_checkpoint_elem (lg_base L) (acked_prefix (lg_log L))) as He.
  rewrite elem_of_cons in He |- *. destruct He as [He|He]; [by left|right].
  apply list_elem_of_fmap in He as (a & -> & Ha). apply list_elem_of_fmap_2.
  rewrite <-(acked_split (lg_log L)). apply elem_of_app. by left.
Qed.

(** The latest delivery is the highest position. *)
Lemma ledger_last_max n L :
  wf_ledger uuid vb n L →
  Forall (λ z, z ≤ ck_seqno (ledger_last L))
    (ck_seqno (lg_base L) :: (seqno_of <$> lg_log L)).
Proof.
  intros Hwf. pose proof (wl_seqnos _ _ _ _ Hwf) as Hs. unfold ledger_last, last_checkpoint.
  destruct L as [b log]. cbn [lg_base lg_log] in *.
  destruct log as [|a log _] using rev_ind; [csimpl; repeat constructor; lia|].
  rewrite last_snoc. rewrite fmap_app in *. csimpl. csimpl in Hs.
  apply StronglySorted_cons in Hs as [Hb Hs]. apply StronglySorted_app in Hs as (Hs & _ & _).
  apply Forall_app in Hb as [Hb1 Hb2]. apply Forall_cons in Hb2 as [Hb2 _].
  apply Forall_cons. split; [lia|]. apply Forall_app. split; [|repeat constructor; lia].
  apply Forall_forall. intros z Hz. specialize (Hs z (ck_seqno (pa_checkpoint a)) Hz (list_elem_of_here _ _)). lia.
Qed.

Lemma ledger_deliver_wf n L c :
  wf_ledger uuid vb n L → ck_seqno (ledger_last L) < ck_seqno c → good_checkpoint uuid vb c →
  wf_ledger uuid vb (n + 1) (ledger_deliver n c L).
Proof.
  intros Hwf Hlt Hc. pose proof (ledger_last_max _ _ Hwf) as Hmax. destruct Hwf as [Hs Hi Hg].
  split; cbn [lg_base lg_log ledger_deliver]; rewrite !fmap_app; csimpl.
  - rewrite app_comm_cons. apply StronglySorted_app. split_and!; [|done|].
    + intros x y Hx Hy. rewrite Forall_forall in Hmax. apply Hmax in Hx.
      apply list_elem_of_singleton in Hy as ->. lia.
    + repeat constructor.
  - rewrite <-app_assoc. csimpl. apply StronglySorted_app in Hi as (Hi1 & Hi2 & _).
    apply StronglySorted_app. split_and!; [|done|repeat constructor; lia].
    intros x y Hx Hy. specialize (Hi1 x n Hx ltac:(set_solver)).
    apply elem_of_cons in Hy as [-> |Hy]; [done|]. apply list_elem_of_singleton in Hy as ->. lia.
  - rewrite app_comm_cons. apply Forall_app. split; [done|]. by apply Forall_singleton.
Qed.

Lemma ledger_ack_wf n L id : wf_ledger uuid vb n L → wf_ledger uuid vb n (ledger_ack id L).
Proof.
  intros [Hs Hi Hg]. split; cbn [lg_base lg_log ledger_ack];
    by rewrite ?set_ack_seqnos, ?set_ack_ids, ?set_ack_checkpoints.
Qed.

Lemma ledger_reset_wf n c : good_checkpoint uuid vb c → wf_ledger uuid vb n (mkLedger c []).
Proof.
  intros Hc. split; csimpl; [repeat constructor..|]. by apply Forall_singleton.
Qed.

Lemma ledger_NoDup n L : wf_ledger uuid vb n L → NoDup (pa_delivery_id <$> lg_log L).
Proof.
  intros [_ Hi _]. apply StronglySorted_app in Hi as (_ & Hi & _).
  induction Hi as [|x l Hi IH Hx]; constructor; [|done]. rewrite Forall_forall in Hx.
  intros Hin. specialize (Hx _ Hin). lia.
Qed.

(** Nothing the processed position covers is unacknowledged. *)
Lemma ledger_processed_covers n L a :
  wf_ledger uuid vb n L → a ∈ lg_log L →
  ck_seqno (pa_checkpoint a) ≤ ck_seqno (ledger_processed L) → pa_acknowledged a = true.
Proof.
  intros [Hs _ _] Ha Hle. rewrite <-(acked_split (lg_log L)) in Ha, Hs.
  apply elem_of_app in Ha as [Ha|Ha].
  { pose proof (acked_prefix_acked (lg_log L)) as Hp. rewrite Forall_forall in Hp. by apply Hp. }
  rewrite fmap_app, app_comm_cons in Hs. apply StronglySorted_app in Hs as (Hs & _ & _).
  unfold ledger_processed in Hle.
  assert (ck_seqno (last_checkpoint (lg_base L) (acked_prefix (lg_log L)))
          < ck_seqno (pa_checkpoint a)); [|lia].
  apply Hs; [|by apply (list_elem_of_fmap_2 seqno_of)].
  pose proof (last_checkpoint_elem (lg_base L) (acked_prefix (lg_log L))) as He.
  apply elem_of_cons in He as [-> |He]; [set_solver|].
  apply list_elem_of_fmap in He as (b & -> & Hb). apply elem_of_cons. right.
  by apply (list_elem_of_fmap_2 seqno_of).
Qed.

(** Acknowledging never moves the processed position back. *)
Lemma ledger_ack_processed_le n L id :
  wf_ledger uuid vb n L →
  ck_seqno (ledger_processed L) ≤ ck_seqno (ledger_processed (ledger_ack id L)).
Proof.
  intros [Hs _ _]. unfold ledger_processed at 2. cbn [ledger_ack lg_base lg_log].
  rewrite <-(acked_split (lg_log L)) at 1.
  rewrite fmap_app, (set_ack_acked _ (acked_prefix _)) by apply acked_prefix_acked.
  rewrite acked_prefix_app, last_checkpoint_app by apply acked_prefix_acked.
  fold (ledger_processed L). set (k := set_ack id <$> _).
  pose proof (last_checkpoint_elem (ledger_processed L) (acked_prefix k)) as He.
  apply elem_of_cons in He as [-> |He]; [lia|].
  apply list_elem_of_fmap in He as (a & -> & Ha).
  assert (a ∈ k) as Hk by (rewrite <-(acked_split k); apply elem_of_app; by left).
  apply list_elem_of_fmap in Hk as (b & -> & Hb).
  assert (pa_checkpoint (set_ack id b) = pa_checkpoint b) as -> by (unfold set_ack; by case_match).
  rewrite <-(acked_split (lg_log L)), fmap_app, app_comm_cons in Hs.
  apply StronglySorted_app in Hs as (Hs & _ & _). apply Z.lt_le_incl, Hs;
    [|by apply (list_elem_of_fmap_2 seqno_of)].
  pose proof (last_checkpoint_elem (lg_base L) (acked_prefix (lg_log L))) as He.
  apply elem_of_cons in He as [Hb0|He]; apply elem_of_cons; [left|right].
  - unfold ledger_processed. by rewrite Hb0.
  - apply list_elem_of_fmap in He as (c & Hc & Hin). unfold ledger_processed. rewrite Hc.
    by apply (list_elem_of_fmap_2 seqno_of).
Qed.
End WfLedger.

(** ** The operations implement the ledger *)
Section Refinement.
Context (uuid : string) (vb : Z).
Abbreviation refines := (refines uuid vb).

Lemma good_at c d s0 s1 z m :
  good_checkpoint uuid vb c → d = ck_at z s0 s1 c ∨ d = ck_set_manifest_uid m (ck_at z s0 s1 c) →
  ck_valid d → good_checkpoint uuid vb d ∧ ck_seqno d = z.
Proof. intros (_ & Hv & Hu) [-> | ->] Hd; split; done. Qed.

Lemma refines_last L p :
  refines L p →
  match last (ps_pending p) with
  | Some a => pa_checkpoint a
  | None => ps_processed p
  end = ledger_last L.
Proof.
  intros [_ Hp Hq _ _]. rewrite Hp, Hq. unfold ledger_last, ledger_processed.
  transitivity (last_checkpoint (lg_base L)
    (acked_prefix (lg_log L) ++ unacked_suffix (lg_log L))); [|by rewrite acked_split].
  by rewrite last_checkpoint_app.
Qed.

(** A delivery is appended with the next identifier, or nothing is registered. *)
Lemma register_delivery_spec L p z m :
  refines L p →
  match register_delivery vb z m p with
  | (Ok (Some t), p') =>
      ∃ c, ea_seqno t = z ∧ ck_seqno c = z ∧ ea_vbucket t = vb
        ∧ ea_delivery_id t = ps_next_delivery_id p ∧ ck_seqno (ledger_last L) < z
        ∧ refines (ledger_deliver (ea_delivery_id t) c L) p'
        ∧ ps_generation p' = ps_generation p
        ∧ ps_durable p' = ps_durable p ∧ ps_durable_generation p' = ps_durable_generation p
  | (Ok None, _) | (Panic, _) => False
  | (Err _, p') => p' = p
  end.
Proof.
  intros Hr. pose proof (refines_last _ _ Hr) as Hlast. destruct Hr as [Hwf Hp Hq Hl Hg].
  unfold register_delivery. rewrite Hlast.
  destruct (ps_snapshot p) as [[s0 s1]|]; [|done].
  destruct ((z <=? ps_last_registered_seqno p) || (z <? s0) || (s1 <? z)) eqn:Hz; [done|].
  rewrite !orb_false_iff in Hz. destruct Hz as [[Hz _] _]. apply Z.leb_gt in Hz.
  set (c := match m with Some _ => _ | None => _ end).
  pose proof (ck_validate_spec c) as Hv. destruct (ck_validate c); [|done..].
  destruct (checked_add u64_max (ps_next_delivery_id p) 1) as [n|] eqn:Hn; [|done].
  apply checked_add_inv in Hn as [-> Hn].
  destruct (good_at (ledger_last L) c s0 s1 z m (ledger_last_good _ _ _ _ Hwf)) as [Hgood Hc].
  { unfold c. destruct m; eauto. } { done. }
  exists c. cbn. rewrite <-Hc. split_and!; try done; [lia|].
  split; cbn.
  - apply ledger_deliver_wf; [done|lia|done].
  - unfold ledger_processed. cbn. by rewrite (proj1 (unacked_snoc _ _ _)).
  - by rewrite (proj2 (unacked_snoc _ _ _)), Hq.
  - unfold ledger_last, last_checkpoint. cbn. by rewrite last_snoc.
  - done.
Qed.

Lemma register_snapshot_spec L p m :
  refines L p →
  match register_snapshot vb m p with
  | (Ok (Some _), _) | (Panic, _) => False
  | (Ok None, p') => refines L p' ∧ ps_generation p' = ps_generation p
      ∧ ps_durable p' = ps_durable p ∧ ps_durable_generation p' = ps_durable_generation p
  | (Err _, p') => p' = p
  end.
Proof.
  intros [Hwf Hp Hq Hl Hg]. unfold register_snapshot.
  destruct (_ || _); [done|]. split_and!; [by split|done..].
Qed.

Lemma track_spec L p e :
  refines L p →
  match track_partition vb e p with
  | (Ok (Some t), p') =>
      ∃ c, event_seqno e = Some (ea_seqno t) ∧ ck_seqno c = ea_seqno t ∧ ea_vbucket t = vb
        ∧ ea_delivery_id t = ps_next_delivery_id p ∧ ck_seqno (ledger_last L) < ck_seqno c
        ∧ refines (ledger_deliver (ea_delivery_id t) c L) p'
        ∧ ps_generation p' = ps_generation p
        ∧ ps_durable p' = ps_durable p ∧ ps_durable_generation p' = ps_durable_generation p
  | (Ok None, p') =>
      event_seqno e = None ∧ refines L p' ∧ ps_generation p' = ps_generation p
        ∧ ps_durable p' = ps_durable p ∧ ps_durable_generation p' = ps_durable_generation p
  | (Err _, p') => p' = p
  | (Panic, _) => False
  end.
Proof.
  intros Hr.
  assert (∀ z, event_seqno e = Some z →
    track_partition vb e p = register_delivery vb z (event_manifest e) p) as Hd.
  { intros z Hz. by destruct e; simplify_eq/=. }
  destruct (event_seqno e) as [z|] eqn:Hz.
  - rewrite (Hd z eq_refl). pose proof (register_delivery_spec L p z (event_manifest e) Hr) as H.
    destruct (register_delivery vb z (event_manifest e) p) as [[[t|]| |] p']; [|done..].
    destruct H as (c & -> & Hc & H). exists c. rewrite Hc. done.
  - destruct e; simplify_eq/=; try done.
    pose proof (register_snapshot_spec L p e Hr) as H.
    destruct (register_snapshot vb e p) as [[[t|]| |] p']; done.
Qed.

(** Acknowledging in the ledger, seen from the part the coordinator keeps. *)
Lemma ledger_ack_pending L id :
  NoDup (pa_delivery_id <$> lg_log L) → id ∈ pa_delivery_id <$> unacked_suffix (lg_log L) →
  set_ack id <$> lg_log L
  = acked_prefix (lg_log L) ++ (set_ack id <$> unacked_suffix (lg_log L)).
Proof.
  intros Hnd Hid. rewrite <-(acked_split (lg_log L)) at 1. rewrite fmap_app. f_equal.
  apply set_ack_fresh. rewrite <-(acked_split (lg_log L)), fmap_app in Hnd.
  apply NoDup_app in Hnd as (_ & Hd & _). intros Hin. by eapply Hd.
Qed.
Lemma ledger_ack_obsolete L id :
  id ∉ pa_delivery_id <$> unacked_suffix (lg_log L) → ledger_ack id L = L.
Proof.
  intros Hid. destruct L as [b log]. unfold ledger_ack. cbn [lg_base lg_log] in *. f_equal.
  rewrite <-(acked_split log) at 1. rewrite fmap_app, (set_ack_fresh _ (unacked_suffix log)) by done.
  rewrite set_ack_acked by apply acked_prefix_acked. apply acked_split.
Qed.

(** An acknowledgement marks one delivery, whatever it returns. *)
Lemma acknowledge_spec L p t :
  refines L p →
  let '(r, p') := acknowledge_partition t p in
  refines (ledger_ack (ea_delivery_id t) L) p'
  ∧ ps_durable p' = ps_durable p ∧ ps_durable_generation p' = ps_durable_generation p
  ∧ match r with
    | Ok o =>
        ea_delivery_id t ∈ pa_delivery_id <$> ps_pending p
        ∧ ao_pending_events o = len (ps_pending p')
        ∧ match ao_advanced_to o with
          | Some c => c = ps_processed p' ∧ ps_generation p' = ps_generation p + 1
          | None => ps_processed p' = ps_processed p ∧ ps_generation p' = ps_generation p
          end
    | Err _ =>
        (p' = p ∧ ea_delivery_id t ∉ pa_delivery_id <$> ps_pending p)
        ∨ (ps_generation p = u64_max ∧ ps_generation p' = u64_max)
    | Panic => False
    end.
Proof.
  intros Hr. pose proof Hr as [Hwf Hp Hq Hl Hg]. unfold acknowledge_partition.
  pose proof (ledger_NoDup _ _ _ _ Hwf) as Hnd.
  rewrite mark_acknowledged_spec.
  2:{ rewrite Hq. rewrite <-(acked_split (lg_log L)), fmap_app in Hnd.
      by apply NoDup_app in Hnd as (_ & _ & ?). }
  destruct (decide (ea_delivery_id t ∈ pa_delivery_id <$> ps_pending p)) as [Hid|Hid].
  2:{ split_and!; [|done..|by left]. rewrite Hq in Hid. by rewrite ledger_ack_obsolete. }
  rewrite pop_acknowledged_spec. rewrite Hq in Hid |- *.
  pose proof (ledger_ack_pending L _ Hnd Hid) as Hlog.
  set (marked := set_ack (ea_delivery_id t) <$> unacked_suffix (lg_log L)) in *.
  assert (∀ g, in_range u64_max g → refines (ledger_ack (ea_delivery_id t) L)
    (mkPartition (ps_durable p) (last_checkpoint (ps_processed p) (acked_prefix marked))
      (ps_snapshot p) (ps_last_registered_seqno p) (unacked_suffix marked)
      (ps_next_delivery_id p) g (ps_durable_generation p))) as Href.
  { intros g Hgr. split; cbn.
    - by apply ledger_ack_wf.
    - unfold ledger_processed. cbn. rewrite Hlog, acked_prefix_app by apply acked_prefix_acked.
      by rewrite last_checkpoint_app, Hp.
    - by rewrite Hlog, unacked_suffix_app by apply acked_prefix_acked.
    - unfold ledger_last. cbn. by rewrite last_checkpoint_set_ack.
    - done. }
  destruct (acked_prefix marked) as [|a k] eqn:Ha; cbn beta iota.
  - split_and!; [by apply Href|done..].
  - destruct (checked_add u64_max (ps_generation p) 1) as [g|] eqn:Hgen.
    + apply checked_add_inv in Hgen as [-> Hgen].
      split_and!; try done. apply Href. unfold_ranges. lia.
    + split_and!; [by apply Href|done..|right]. cbn.
      unfold checked_add in Hgen. destruct (Z.leb_spec (ps_generation p + 1) u64_max); [done|].
      unfold_ranges. lia.
Qed.

(** A rebase starts a new ledger at the effective position. *)
Lemma rebase_spec L p c :
  refines L p → good_checkpoint uuid vb c →
  ¬ (ps_processed p ≠ c ∧ ps_generation p = u64_max) →
  ∃ p', rebase_partition c p = Ok p' ∧ refines (mkLedger c []) p'
    ∧ ps_processed p' = c ∧ ps_pending p' = []
    ∧ ps_durable p' = ps_durable p ∧ ps_durable_generation p' = ps_durable_generation p
    ∧ ps_next_delivery_id p' = ps_next_delivery_id p
    ∧ ps_generation p' = ps_generation p + (if bool_decide (ps_processed p = c) then 0 else 1).
Proof.
  intros [Hwf Hp Hq Hl Hg] Hc Hov. unfold rebase_partition.
  destruct (bool_decide_reflect (ps_processed p = c)) as [Heq|Hne]; cbn [negb].
  - eexists. split_and!; try done; [|cbn; lia]. split; cbn; try done. by apply ledger_reset_wf.
  - assert (ps_generation p ≠ u64_max) as Hn by tauto. clear Hov.
    rewrite add_or_panic_ok by (unfold_ranges; lia). eexists. split_and!; try done.
    split; cbn; try done; [by apply ledger_reset_wf|unfold_ranges; lia].
Qed.

Lemma partition_new_refines c :
  good_checkpoint uuid vb c → refines (mkLedger c []) (partition_new c).
Proof. intros Hc. split; try done. by apply ledger_reset_wf. Qed.
End Refinement.

(** ** Runs

    One vBucket under any sequence of tracked events, acknowledgements in any order (also
    repeated or obsolete ones) and rebases.  The ledger is the history of that sequence: a
    delivery is appended when [track_event] hands out a token for it, and marked when an
    acknowledgement with its identifier is made. *)
Inductive PartitionOp : Type :=
| PoTrack (e : DcpEvent)
| PoAck (t : EventAck)
| PoRebase (c : DcpCheckpoint).

Definition history_track (r : result (option EventAck)) (p : PartitionState) (L : Ledger) : Ledger :=
  match r, last (ps_pending p) with
  | Ok (Some t), Some e => ledger_deliver (ea_delivery_id t) (pa_checkpoint e) L
  | _, _ => L
  end.

Definition run_op (uuid : string) (vb : Z) (st : PartitionState * Ledger) (op : PartitionOp)
    : PartitionState * Ledger :=
  let '(p, L) := st in
  match op with
  | PoTrack e => let '(r, p') := track_partition vb e p in (p', history_track r p' L)
  | PoAck t => let '(_, p') := acknowledge_partition t p in (p', ledger_ack (ea_delivery_id t) L)
  | PoRebase c =>
      match validate_checkpoint_identity vb uuid c, rebase_partition c p with
      | Ok _, Ok p' => (p', mkLedger c [])
      | _, _ => (p, L)
      end
  end.
Definition run_ops (uuid : string) (vb : Z) (c : DcpCheckpoint) (ops : list PartitionOp) :=
  foldl (run_op uuid vb) (partition_new c, mkLedger c []) ops.

Lemma validate_identity_good uuid vb c u :
  validate_checkpoint_identity vb uuid c = Ok u → good_checkpoint uuid vb c.
Proof.
  unfold validate_checkpoint_identity, good_checkpoint.
  destruct (Z.eqb_spec (ck_vbucket c) vb); [cbn|done].
  destruct (bool_decide_reflect (ck_bucket_uuid c = Some uuid)); [cbn|done].
  intros Hv%ck_validate_inv. done.
Qed.

Lemma run_op_refines uuid vb p L op :
  refines uuid vb L p → let '(p', L') := run_op uuid vb (p, L) op in refines uuid vb L' p'.
Proof.
  intros Hr. destruct op as [e|t|c]; cbn [run_op].
  - pose proof (track_spec uuid vb L p e Hr) as Hs.
    destruct (track_partition vb e p) as [[[t|]| |] p']; cbn [history_track];
      [|naive_solver|by subst|done].
    destruct Hs as (c & _ & _ & _ & _ & _ & Href & _).
    assert (last (ps_pending p') = Some (mkPendingAck (ea_delivery_id t) c false)) as ->; [|done].
    rewrite (rf_pending _ _ _ _ Href). cbn. by rewrite (proj2 (unacked_snoc _ _ _)), last_snoc.
  - pose proof (acknowledge_spec uuid vb L p t Hr) as Hs.
    destruct (acknowledge_partition t p) as [r p']. apply Hs.
  - destruct (validate_checkpoint_identity vb uuid c) eqn:Hv; [|done..].
    apply validate_identity_good in Hv.
    destruct (rebase_partition c p) as [p'| |] eqn:Hrb; [|done..].
    destruct (decide (ps_processed p ≠ c ∧ ps_generation p = u64_max)) as [[Hne Hmax]|Hov].
    + unfold rebase_partition in Hrb. rewrite bool_decide_false in Hrb by done. cbn [negb] in Hrb.
      rewrite Hmax in Hrb. done.
    + destruct (rebase_spec uuid vb L p c Hr Hv Hov) as (p'' & Hp'' & Href & _).
      rewrite Hp'' in Hrb. by injection Hrb as <-.
Qed.

Lemma run_ops_refines uuid vb c ops :
  good_checkpoint uuid vb c →
  refines uuid vb (run_ops uuid vb c ops).2 (run_ops uuid vb c ops).1.
Proof.
  intros Hc. unfold run_ops.
  assert (∀ st, refines uuid vb st.2 st.1 →
    refines uuid vb (foldl (run_op uuid vb) st ops).2 (foldl (run_op uuid vb) st ops).1) as H.
  { induction ops as [|op ops IH]; intros [p L] Hr; [done|]. cbn [foldl]. apply IH.
    pose proof (run_op_refines uuid vb p L op Hr). by destruct (run_op uuid vb (p, L) op). }
  apply H. by apply partition_new_refines.
Qed.

(** ** Properties *)

(** C4: the coordinator's queue implements the longest acknowledged prefix.  After any
    sequence of events, acknowledgements and rebases on a vBucket, the processed checkpoint
    is the one of the longest acknowledged prefix of the delivery history, the queue holds
    exactly the rest of it, and the processed checkpoint and that of every queued delivery
    name the right bucket and vBucket and validate. *)
Theorem processed_is_longest_acked_prefix uuid vb c ops :
  good_checkpoint uuid vb c →
  let p := (run_ops uuid vb c ops).1 in
  let L := (run_ops uuid vb c ops).2 in
  ps_processed p = ledger_processed L ∧ ps_pending p = unacked_suffix (lg_log L)
  ∧ good_checkpoint uuid vb (ps_processed p)
  ∧ Forall (good_checkpoint uuid vb) (pa_checkpoint <$> ps_pending p)
  ∧ ps_last_registered_seqno p = ck_seqno (ledger_last L).
Proof.
  intros Hc. cbv zeta. pose proof (run_ops_refines uuid vb c ops Hc) as [Hwf Hp Hq Hl _].
  split_and!; [done..| | |done].
  - rewrite Hp. by eapply ledger_processed_good.
  - rewrite Hq. pose proof (wl_good _ _ _ _ Hwf) as Hg. apply Forall_cons in Hg as [_ Hg].
    rewrite <-(acked_split (lg_log _)), fmap_app in Hg. by apply Forall_app in Hg as [_ Hg].
Qed.

(** A snapshot, three mutations acknowledged out of order. *)
Definition sample_mutation_event (vb z : Z) : DcpEvent :=
  EMutation (Event.mkDcpMutation vb z 1 0 0 0 0 0 None None [] []).
Definition sample_ops : list PartitionOp :=
  [PoTrack (ESnapshotMarker (Event.mkSnapshotMarker 3 0 20 1 None None None));
   PoTrack (sample_mutation_event 3 11); PoTrack (sample_mutation_event 3 12);
   PoTrack (sample_mutation_event 3 15);
   PoAck (mkEventAck 3 2 12); PoAck (mkEventAck 3 1 11)].
Definition sample_start : DcpCheckpoint := mkCheckpoint (Some "uuid") 3 77 10 0 10 None.

Lemma processed_is_longest_acked_prefix_witness :
  ps_processed (run_ops "uuid" 3 sample_start sample_ops).1
    = ledger_processed (run_ops "uuid" 3 sample_start sample_ops).2
  ∧ ck_seqno (ps_processed (run_ops "uuid" 3 sample_start sample_ops).1) = 12.
Proof.
  split; [|vm_compute; reflexivity].
  apply (processed_is_longest_acked_prefix "uuid" 3 sample_start sample_ops).
  split; [unfold ck_valid; cbn; lia|split; reflexivity].
Defined.

(** No acknowledgement order loses an event.  After any sequence of events,
    acknowledgements and rebases, every delivery of the current stream at or below the
    processed position has been acknowledged. *)
Lemma processed_covers_only_acked uuid vb c ops a :
  good_checkpoint uuid vb c →
  a ∈ lg_log (run_ops uuid vb c ops).2 →
  ck_seqno (pa_checkpoint a) ≤ ck_seqno (ps_processed (run_ops uuid vb c ops).1) →
  pa_acknowledged a = true.
Proof.
  intros Hc Ha Hle. pose proof (run_ops_refines uuid vb c ops Hc) as [Hwf Hp _ _ _].
  rewrite Hp in Hle. by eapply ledger_processed_covers.
Qed.
