(* ===== verification/CheckpointFlush.v ===== *)
(** * Concurrent flushing ([checkpoint_runtime.rs], [CheckpointInner::flush])

    The coordinator under every interleaving: the application's thread tracks, acknowledges,
    marks and rebases while any number of [flush] calls run, each suspended at its await
    points and between its lock sections.  One transition is one lock section, one store
    write, or one resolution of an await.  The saved batch runs in a spawned task that owns
    the flush gate, so it outlives a [flush] that timed out or was dropped.

    The store is the contract of the [CheckpointStore] trait: a batch is written one
    checkpoint at a time, in any order, and may stop anywhere with an error; it reports
    success only when the whole batch is written.

    Two ghost components record history and are never read by a guard: the ledger of each
    vBucket ([CheckpointSpec]) and how often it was rebased, with which the store entries
    and batches are tagged. *)
From S2P Require Import Prelude Types Frame Errors Event Checkpoint Config.
From S2P Require Import CheckpointRuntime CheckpointSpec.

(** ** The system *)

(** A collected checkpoint and the rebase count of its vBucket at that time. *)
Abbreviation Item := (DirtyCheckpoint * Z)%type (only parsing).

(** Where a [flush] call is suspended. *)
Inductive FlushStage : Type :=
| FsGate                                        (** saw dirty state, awaits the gate *)
| FsHeld                                        (** owns the gate *)
| FsCollected (batch : list Item)               (** took the dirty checkpoints *)
| FsSaving (batch : list Item)                  (** awaits the spawned save *)
| FsReplied (batch : list Item) (r : SaveReply) (** has the answer of the save *).

Inductive Gate : Type :=
| GateFree
| GateHeld (task : nat)
| GateSaving (waiter : option nat) (batch : list Item).

(** A stored checkpoint; [se_tag] is the rebase count and generation it was collected at,
    [None] for what the store held before this coordinator. *)
Record StoreEntry : Type := mkEntry {
  se_checkpoint : DcpCheckpoint;
  se_tag : option (Z * Z)
}.

Record System : Type := mkSystem {
  sy_coord : CoordinatorState;
  sy_gate : Gate;
  sy_tasks : gmap nat FlushStage;
  sy_store : gmap Z StoreEntry;
  sy_ledgers : gmap Z Ledger;
  sy_rebases : gmap Z Z
}.

Definition rebases (s : System) (vb : Z) : Z := default 0 (sy_rebases s !! vb).

Definition with_coord (c : CoordinatorState) (s : System) : System :=
  mkSystem c (sy_gate s) (sy_tasks s) (sy_store s) (sy_ledgers s) (sy_rebases s).
Definition with_ledgers (l : gmap Z Ledger) (s : System) : System :=
  mkSystem (sy_coord s) (sy_gate s) (sy_tasks s) (sy_store s) l (sy_rebases s).
Definition with_tasks (g : Gate) (ts : gmap nat FlushStage) (s : System) : System :=
  mkSystem (sy_coord s) g ts (sy_store s) (sy_ledgers s) (sy_rebases s).
Definition with_store (st : gmap Z StoreEntry) (s : System) : System :=
  mkSystem (sy_coord s) (sy_gate s) (sy_tasks s) st (sy_ledgers s) (sy_rebases s).

(** The delivery a successful [track_event] registered. *)
Definition registered (vb : Z) (c : CoordinatorState) : option PendingAck :=
  p ← cs_partitions c !! vb; last (ps_pending p).
Definition ledgers_track (r : result TrackedEvent) (c : CoordinatorState)
    (ls : gmap Z Ledger) : gmap Z Ledger :=
  match r with
  | Ok t =>
      match te_ack t with
      | Some a =>
          match registered (ea_vbucket a) c with
          | Some e => alter (ledger_deliver (pa_delivery_id e) (pa_checkpoint e)) (ea_vbucket a) ls
          | None => ls
          end
      | None => ls
      end
  | _ => ls
  end.

(** A rebase starts a new ledger for every vBucket it names. *)
Definition ledgers_rebase (r : result unit) (eff : gmap Z DcpCheckpoint) (ls : gmap Z Ledger)
    : gmap Z Ledger :=
  match r with Ok _ => ((λ c, mkLedger c []) <$> eff) ∪ ls | _ => ls end.
Definition rebases_rebase (r : result unit) (eff : gmap Z DcpCheckpoint) (rs : gmap Z Z)
    : gmap Z Z :=
  match r with
  | Ok _ => map_imap (λ vb _, Some (default 0 (rs !! vb) + 1)) eff ∪ rs
  | _ => rs
  end.

Definition tag_batch (s : System) (l : list DirtyCheckpoint) : list Item :=
  (λ d, (d, rebases s (dc_vbucket d))) <$> l.
Definition write_item (i : Item) (st : gmap Z StoreEntry) : gmap Z StoreEntry :=
  <[dc_vbucket i.1 := mkEntry (dc_checkpoint i.1) (Some (i.2, dc_generation i.1))]> st.
Definition written (st : gmap Z StoreEntry) (i : Item) : Prop :=
  ∃ e, st !! dc_vbucket i.1 = Some e ∧ se_checkpoint e = dc_checkpoint i.1
       ∧ se_tag e = Some (i.2, dc_generation i.1).

(** Delivering the save's answer to the call that waits for it, if one still does. *)
Definition deliver_reply (w : option nat) (b : list Item) (r : SaveReply)
    (ts : gmap nat FlushStage) : gmap nat FlushStage :=
  match w with Some t => <[t := FsReplied b r]> ts | None => ts end.

Section System.
(** The bucket the coordinator serves and its configured timeout. *)
Context (uuid : string) (timeout : Duration).

Inductive sys_step : System → System → Prop :=
| ss_track s e r c :
    track_event e (sy_coord s) = (r, c) →
    sys_step s (with_ledgers (ledgers_track r c (sy_ledgers s)) (with_coord c s))
| ss_ack s t r c :
    acknowledge t (sy_coord s) = (r, c) →
    sys_step s (with_ledgers (alter (ledger_ack (ea_delivery_id t)) (ea_vbucket t) (sy_ledgers s))
                  (with_coord c s))
| ss_mark_dirty s vb r c :
    mark_dirty vb (sy_coord s) = (r, c) → sys_step s (with_coord c s)
| ss_rebase s eff r c :
    rebase_partitions uuid eff (sy_coord s) = (r, c) →
    sys_step s (mkSystem c (sy_gate s) (sy_tasks s) (sy_store s)
                  (ledgers_rebase r eff (sy_ledgers s)) (rebases_rebase r eff (sy_rebases s)))
| ss_flush_start s t :
    sy_tasks s !! t = None → flush_has_dirty (sy_coord s) = Ok true →
    sys_step s (with_tasks (sy_gate s) (<[t := FsGate]> (sy_tasks s)) s)
| ss_gate_timeout s t elapsed r c :
    sy_tasks s !! t = Some FsGate →
    flush_fail elapsed (Timeout timeout) true (sy_coord s) = (r, c) →
    sys_step s (with_tasks (sy_gate s) (delete t (sy_tasks s)) (with_coord c s))
| ss_gate_acquire s t :
    sy_tasks s !! t = Some FsGate → sy_gate s = GateFree →
    sys_step s (with_tasks (GateHeld t) (<[t := FsHeld]> (sy_tasks s)) s)
| ss_collect s t dirty :
    sy_tasks s !! t = Some FsHeld → flush_collect (sy_coord s) = Ok dirty → dirty ≠ [] →
    sys_step s (with_tasks (GateHeld t) (<[t := FsCollected (tag_batch s dirty)]> (sy_tasks s)) s)
| ss_collect_nothing s t r :
    sy_tasks s !! t = Some FsHeld → flush_collect (sy_coord s) = r →
    (∀ d ds, r ≠ Ok (d :: ds)) →
    sys_step s (with_tasks GateFree (delete t (sy_tasks s)) s)
| ss_begin s t b c :
    sy_tasks s !! t = Some (FsCollected b) → flush_begin_attempt (sy_coord s) = (Ok tt, c) →
    sys_step s (with_tasks (GateSaving (Some t) b) (<[t := FsSaving b]> (sy_tasks s))
                  (with_coord c s))
| ss_begin_error s t b r c :
    sy_tasks s !! t = Some (FsCollected b) → flush_begin_attempt (sy_coord s) = (r, c) →
    r ≠ Ok tt →
    sys_step s (with_tasks GateFree (delete t (sy_tasks s)) (with_coord c s))
| ss_write s w b i :
    sy_gate s = GateSaving w b → i ∈ b →
    sys_step s (with_store (write_item i (sy_store s)) s)
| ss_save_ok s w b :
    sy_gate s = GateSaving w b → Forall (written (sy_store s)) b →
    sys_step s (with_tasks GateFree (deliver_reply w b SaveOk (sy_tasks s)) s)
| ss_save_error s w b r :
    sy_gate s = GateSaving w b → r ≠ SaveOk →
    sys_step s (with_tasks GateFree (deliver_reply w b r (sy_tasks s)) s)
| ss_save_timeout s t b :
    sy_tasks s !! t = Some (FsSaving b) →
    sys_step s (with_tasks (GateSaving None b)
                  (<[t := FsReplied b SaveTimeout]> (sy_tasks s)) s)
| ss_commit s t b elapsed r c :
    sy_tasks s !! t = Some (FsReplied b SaveOk) →
    flush_commit b.*1 elapsed (sy_coord s) = (r, c) →
    sys_step s (with_tasks (sy_gate s) (delete t (sy_tasks s)) (with_coord c s))
| ss_fail s t b reply error elapsed r c :
    sy_tasks s !! t = Some (FsReplied b reply) → reply_error timeout reply = Some error →
    flush_fail elapsed error false (sy_coord s) = (r, c) →
    sys_step s (with_tasks (sy_gate s) (delete t (sy_tasks s)) (with_coord c s))
| ss_drop_waiting s t :
    sy_tasks s !! t = Some FsGate →
    sys_step s (with_tasks (sy_gate s) (delete t (sy_tasks s)) s)
| ss_drop_saving s t b :
    sy_tasks s !! t = Some (FsSaving b) →
    sys_step s (with_tasks (GateSaving None b) (delete t (sy_tasks s)) s).

(** A new coordinator over whatever the store holds. *)
Inductive sys_init : System → Prop :=
| si_new config checkpoints c store :
    coordinator_new config checkpoints = Ok (uuid, c) →
    (∀ vb e, store !! vb = Some e → se_tag e = None) →
    sys_init (mkSystem c GateFree ∅ store ((λ c, mkLedger c []) <$> checkpoints) ∅).

Definition reachable (s : System) : Prop := ∃ s0, sys_init s0 ∧ rtc sys_step s0 s.
End System.

(** ** Invariant *)

(** Restarting from [c] would skip no delivery that is still unacknowledged. *)
Definition covers_only_acked (c : DcpCheckpoint) (L : Ledger) : Prop :=
  ck_seqno c ≤ ck_seqno (ledger_last L)
  ∧ ∀ a, a ∈ lg_log L → ck_seqno (pa_checkpoint a) ≤ ck_seqno c → pa_acknowledged a = true.

(** What the state of a vBucket is: its partition, its ledger and its rebase count. *)
Record View : Type := mkView {
  vw_part : PartitionState;
  vw_ledger : Ledger;
  vw_rebases : Z
}.
Definition view (s : System) (vb : Z) : option View :=
  p ← cs_partitions (sy_coord s) !! vb;
  L ← sy_ledgers s !! vb;
  Some (mkView p L (rebases s vb)).

(** How it may evolve: a changed processed position changes the generation, a ledger that is
    not restarted keeps covering what it covered, and without a rebase the processed position
    only advances. *)
Record evolves (v v' : View) : Prop := mk_evolves {
  ev_gen : ps_generation (vw_part v) ≤ ps_generation (vw_part v');
  ev_same : ps_generation (vw_part v') = ps_generation (vw_part v) →
            ps_generation (vw_part v') < u64_max →
            ps_processed (vw_part v') = ps_processed (vw_part v);
  ev_rebases : vw_rebases v ≤ vw_rebases v';
  ev_covers : vw_rebases v' = vw_rebases v → ∀ c,
              covers_only_acked c (vw_ledger v) → covers_only_acked c (vw_ledger v');
  ev_progress : vw_rebases v' = vw_rebases v →
                ck_seqno (ps_processed (vw_part v)) ≤ ck_seqno (ps_processed (vw_part v'))
}.

(** A collected checkpoint: current if its generation is, safe if its ledger still runs. *)
Definition item_ok (s : System) (i : Item) : Prop :=
  ∃ v, view s (dc_vbucket i.1) = Some v
    ∧ dc_generation i.1 ≤ ps_generation (vw_part v)
    ∧ (dc_generation i.1 = ps_generation (vw_part v) → dc_generation i.1 < u64_max →
       dc_checkpoint i.1 = ps_processed (vw_part v))
    ∧ i.2 ≤ vw_rebases v
    ∧ (i.2 = vw_rebases v → covers_only_acked (dc_checkpoint i.1) (vw_ledger v)).

Definition store_gen (st : gmap Z StoreEntry) (vb : Z) : Z :=
  match e ← st !! vb; se_tag e with Some (_, g) => g | None => 0 end.

(** A batch whose save is still to come or running: one item a vBucket, none older than
    what the store holds. *)
Definition batch_fresh (s : System) (l : list Item) : Prop :=
  (∀ i, i ∈ l → item_ok s i ∧ store_gen (sy_store s) (dc_vbucket i.1) ≤ dc_generation i.1)
  ∧ (∀ i j, i ∈ l → j ∈ l → dc_vbucket i.1 = dc_vbucket j.1 → i = j).

(** The batches of the calls, and the batch behind the gate. *)
Definition stage_batch (f : FlushStage) : list Item :=
  match f with FsCollected b | FsSaving b | FsReplied b _ => b | _ => [] end.
Definition gate_batch (g : Gate) (ts : gmap nat FlushStage) : list Item :=
  match g with
  | GateSaving _ b => b
  | GateHeld t => match ts !! t with Some (FsCollected b) => b | _ => [] end
  | GateFree => []
  end.

(** The gate and the calls agree on who owns it. *)
Record gate_ok (g : Gate) (ts : gmap nat FlushStage) : Prop := mk_gate_ok {
  go_held : ∀ t, g = GateHeld t → ts !! t = Some FsHeld ∨ ∃ b, ts !! t = Some (FsCollected b);
  go_holder : ∀ t f, ts !! t = Some f → f = FsHeld ∨ (∃ b, f = FsCollected b) → g = GateHeld t;
  go_saving : ∀ t b, g = GateSaving (Some t) b → ts !! t = Some (FsSaving b);
  go_saver : ∀ t b, ts !! t = Some (FsSaving b) → g = GateSaving (Some t) b
}.

Section Invariant.
Context (uuid : string) (timeout : Duration).

Record coord_ok (s : System) : Prop := mk_coord_ok {
  co_poison : cs_poisoned (sy_coord s) = false;
  co_dom : ∀ vb, is_Some (cs_partitions (sy_coord s) !! vb) ↔ is_Some (sy_ledgers s !! vb);
  co_refines : ∀ vb v, view s vb = Some v → refines uuid vb (vw_ledger v) (vw_part v)
}.

Record sys_inv (s : System) : Prop := mk_sys_inv {
  si_coord : coord_ok s;
  si_durable : ∀ vb v, view s vb = Some v →
               ps_durable_generation (vw_part v) ≤ store_gen (sy_store s) vb;
  si_store : ∀ vb e n g, sy_store s !! vb = Some e → se_tag e = Some (n, g) →
             item_ok s (mkDirty vb (se_checkpoint e) g, n);
  si_stages : ∀ t f, sy_tasks s !! t = Some f → Forall (item_ok s) (stage_batch f);
  si_fresh : batch_fresh s (gate_batch (sy_gate s) (sy_tasks s));
  si_gate : gate_ok (sy_gate s) (sy_tasks s);
  si_replied : ∀ t b i, sy_tasks s !! t = Some (FsReplied b SaveOk) → i ∈ b →
               dc_generation i.1 ≤ store_gen (sy_store s) (dc_vbucket i.1)
}.

(** *** Evolution of one vBucket *)
Lemma evolves_refl v : evolves v v.
Proof. by split. Qed.

Lemma item_ok_evolves s s' i :
  (∀ vb v, view s vb = Some v → ∃ v', view s' vb = Some v' ∧ evolves v v') →
  item_ok s i → item_ok s' i.
Proof.
  intros Hev (v & Hv & Hg & Hc & Hn & Hs). destruct (Hev _ _ Hv) as (v' & Hv' & [E1 E2 E3 E4 _]).
  exists v'. split; [done|]. split; [lia|]. split; [|split; [lia|]].
  - intros Heq Hlt. rewrite E2 by lia. apply Hc; lia.
  - intros Heq. apply E4; [lia|]. apply Hs. lia.
Qed.

Lemma covers_processed vb n L :
  wf_ledger uuid vb n L → covers_only_acked (ledger_processed L) L.
Proof.
  intros Hwf. split; [|intros a; by apply (ledger_processed_covers uuid vb n)].
  pose proof (ledger_last_max _ _ _ _ Hwf) as Hm. rewrite Forall_forall in Hm. apply Hm.
  pose proof (last_checkpoint_elem (lg_base L) (acked_prefix (lg_log L))) as He.
  fold (ledger_processed L) in He. apply elem_of_cons in He as [-> |He]; [left|right].
  apply list_elem_of_fmap in He as (a & -> & Ha). apply (list_elem_of_fmap_2 seqno_of).
  rewrite <-(acked_split (lg_log L)). apply elem_of_app. by left.
Qed.
Lemma covers_deliver c id d L :
  covers_only_acked c L → ck_seqno (ledger_last L) < ck_seqno d →
  covers_only_acked c (ledger_deliver id d L).
Proof.
  intros [Hl Ha] Hd. split; cbn.
  - unfold ledger_last, last_checkpoint. cbn. rewrite last_snoc. cbn. lia.
  - intros a [Hin|Hin]%elem_of_app Hle; [by apply Ha|].
    apply list_elem_of_singleton in Hin as ->. cbn in Hle. lia.
Qed.
Lemma covers_ack c id L : covers_only_acked c L → covers_only_acked c (ledger_ack id L).
Proof.
  intros [Hl Ha]. split; cbn.
  - unfold ledger_last. cbn. by rewrite last_checkpoint_set_ack.
  - intros a Hin Hle. apply list_elem_of_fmap in Hin as (b & -> & Hb).
    unfold set_ack in *. destruct (pa_delivery_id b =? id); [done|]. by apply Ha.
Qed.

(** *** Steps of the coordinator that leave gate, calls and store alone *)
Record coord_step (s s' : System) : Prop := mk_coord_step {
  cp_ok : coord_ok s';
  cp_gate : sy_gate s' = sy_gate s;
  cp_tasks : sy_tasks s' = sy_tasks s;
  cp_store : sy_store s' = sy_store s;
  cp_views : ∀ vb v, view s vb = Some v → ∃ v', view s' vb = Some v' ∧ evolves v v'
             ∧ ps_durable_generation (vw_part v') = ps_durable_generation (vw_part v);
  cp_views_back : ∀ vb, view s vb = None → view s' vb = None
}.

Lemma coord_step_inv s s' : sys_inv s → coord_step s s' → sys_inv s'.
Proof.
  intros [Hco Hdu Hst Hsg Hf Hg Hr] [Hco' Eg Et Es Hv Hvb].
  assert (∀ i, item_ok s i → item_ok s' i) as Hitem.
  { intros i. apply item_ok_evolves. intros vb v (v' & ? & ? & _)%Hv. eauto. }
  split; rewrite ?Eg, ?Et, ?Es; try done.
  - intros vb v' Hv'. destruct (view s vb) as [v|] eqn:Hvw.
    + destruct (Hv _ _ Hvw) as (v'' & ? & _ & Hd). simplify_eq. rewrite Hd. by apply Hdu.
    + apply Hvb in Hvw. by simplify_eq.
  - intros vb e n g He Ht. by apply Hitem, (Hst vb).
  - intros t f Ht. eapply Forall_impl; [by apply (Hsg t)|done].
  - destruct Hf as [Hf1 Hf2]. split; [|done]. rewrite Es. intros i [? ?]%Hf1. auto.
Qed.

Lemma view_Some s vb v :
  view s vb = Some v ↔
    cs_partitions (sy_coord s) !! vb = Some (vw_part v) ∧ sy_ledgers s !! vb = Some (vw_ledger v)
    ∧ vw_rebases v = rebases s vb.
Proof.
  unfold view. destruct (cs_partitions (sy_coord s) !! vb); [|naive_solver].
  destruct (sy_ledgers s !! vb); simpl; [|naive_solver]. destruct v. naive_solver.
Qed.
Lemma view_of_partition s vb p :
  coord_ok s → cs_partitions (sy_coord s) !! vb = Some p →
  ∃ v, view s vb = Some v ∧ vw_part v = p ∧ refines uuid vb (vw_ledger v) p.
Proof.
  intros [_ Hd Hr] Hp. destruct (proj1 (Hd vb)) as [L HL]; [by eexists|].
  assert (view s vb = Some (mkView p L (rebases s vb))) as Hv by by apply view_Some.
  eexists. split_and!; [done..|]. by apply (Hr vb) in Hv.
Qed.

(** The vBuckets do not change, only metrics may. *)
Lemma coord_step_same s s' :
  coord_ok s → cs_poisoned (sy_coord s') = false →
  cs_partitions (sy_coord s') = cs_partitions (sy_coord s) → sy_ledgers s' = sy_ledgers s →
  sy_rebases s' = sy_rebases s → sy_gate s' = sy_gate s → sy_tasks s' = sy_tasks s →
  sy_store s' = sy_store s → coord_step s s'.
Proof.
  intros [Hp Hd Hr] Hp' Ep El Er Eg Et Es.
  assert (∀ vb, view s' vb = view s vb) as Hv
    by (intros vb; unfold view, rebases; by rewrite Ep, El, Er).
  split; try done.
  - split; [done|..]; [intros vb; by rewrite Ep, El|intros vb v; rewrite Hv; apply Hr].
  - intros vb v Hvw. exists v. rewrite Hv. split_and!; [done|apply evolves_refl|done].
  - intros vb. by rewrite Hv.
Qed.

(** One vBucket changes. *)
Lemma coord_step_at s s' vb v v' :
  coord_ok s → view s vb = Some v → cs_poisoned (sy_coord s') = false →
  cs_partitions (sy_coord s') = <[vb := vw_part v']> (cs_partitions (sy_coord s)) →
  sy_ledgers s' = <[vb := vw_ledger v']> (sy_ledgers s) →
  sy_rebases s' = sy_rebases s → vw_rebases v' = vw_rebases v →
  sy_gate s' = sy_gate s → sy_tasks s' = sy_tasks s → sy_store s' = sy_store s →
  refines uuid vb (vw_ledger v') (vw_part v') → evolves v v' →
  ps_durable_generation (vw_part v') = ps_durable_generation (vw_part v) → coord_step s s'.
Proof.
  intros [Hp Hd Hr] Hvw Hp' Ep El Er En Eg Et Es Href Hev Hdg.
  pose proof (proj1 (view_Some _ _ _) Hvw) as (Hvp & Hvl & Hvn).
  assert (view s' vb = Some v') as Hv1.
  { apply view_Some. rewrite Ep, El, !lookup_insert_eq. unfold rebases in *. rewrite Er.
    split_and!; [done..|]. by rewrite En. }
  assert (∀ k, k ≠ vb → view s' k = view s k) as Hv2.
  { intros k Hk. unfold view, rebases. by rewrite Ep, El, Er, !lookup_insert_ne. }
  split; try done.
  - split; [done|..].
    + intros k. rewrite Ep, El. destruct (decide (k = vb)) as [-> |Hk].
      * rewrite !lookup_insert_eq. split; by eexists.
      * rewrite !lookup_insert_ne by done. apply Hd.
    + intros k w. destruct (decide (k = vb)) as [-> |Hk].
      * rewrite Hv1. intros; by simplify_eq.
      * rewrite Hv2 by done. apply Hr.
  - intros k w Hw. destruct (decide (k = vb)) as [-> |Hk].
    + simplify_eq. eauto.
    + rewrite Hv2 by done. exists w. split_and!; [done|apply evolves_refl|done].
  - intros k Hw. destruct (decide (k = vb)) as [-> |Hk]; [by simplify_eq|by rewrite Hv2].
Qed.

Lemma track_coord_step s e r c :
  coord_ok s → track_event e (sy_coord s) = (r, c) →
  r ≠ Panic ∧
  coord_step s (with_ledgers (ledgers_track r c (sy_ledgers s)) (with_coord c s)).
Proof.
  intros Hco. unfold track_event, with_lock. rewrite (co_poison _ Hco).
  destruct (cs_partitions (sy_coord s) !! event_vbucket e) as [p|] eqn:Hpart.
  2:{ intros [= <- <-]. split; [done|]. by apply coord_step_same; try apply Hco. }
  destruct (view_of_partition _ _ _ Hco Hpart) as (v & Hv & <- & Href).
  pose proof (proj1 (view_Some _ _ _) Hv) as (_ & HL & _).
  pose proof (track_spec uuid (event_vbucket e) _ _ e Href) as Hspec.
  destruct (track_partition (event_vbucket e) e (vw_part v)) as [[[t|]|err|] p'] eqn:Ht;
    cbn [res_map]; intros Heq; simplify_eq; [| |split; [done|]|done].
  - destruct Hspec as (d & Hz & Hd & Hvb & Hid & Hlt & Href' & Hg & Hdur & Hdg).
    split; [done|].
    assert (ledgers_track (Ok (mkTrackedEvent e (Some t)))
      (set_partitions (<[event_vbucket e:=p']> (cs_partitions (sy_coord s))) (sy_coord s))
      (sy_ledgers s) = <[event_vbucket e := ledger_deliver (ea_delivery_id t) d (vw_ledger v)]>
        (sy_ledgers s)) as Hlt'.
    { cbn. rewrite Hvb. unfold registered. cbn. rewrite lookup_insert_eq. cbn.
      rewrite (rf_pending _ _ _ _ Href'). cbn [lg_log ledger_deliver].
      rewrite (proj2 (unacked_snoc _ _ _)), last_snoc. cbn.
      apply map_eq. intros k. destruct (decide (k = event_vbucket e)) as [-> |Hk].
      - by rewrite lookup_alter_eq, lookup_insert_eq, HL.
      - by rewrite lookup_alter_ne, lookup_insert_ne. }
    eapply (coord_step_at _ _ (event_vbucket e) v
      (mkView p' (ledger_deliver (ea_delivery_id t) d (vw_ledger v)) (vw_rebases v)));
      try done; [apply Hco|].
    assert (ps_processed p' = ps_processed (vw_part v)) as Hpr.
    { rewrite (rf_processed _ _ _ _ Href'), (rf_processed _ _ _ _ Href).
      unfold ledger_processed. cbn. by rewrite (proj1 (unacked_snoc _ _ _)). }
    split; cbn; [lia|done|lia| |by rewrite Hpr].
    intros _ c Hc. by apply covers_deliver.
  - destruct Hspec as (_ & Href' & Hg & Hdur & Hdg). split; [done|].
    eapply (coord_step_at _ _ (event_vbucket e) v (mkView p' (vw_ledger v) (vw_rebases v)));
      try done; [apply Hco|cbn; by rewrite insert_id|].
    assert (ps_processed p' = ps_processed (vw_part v)) as Hpr
      by (by rewrite (rf_processed _ _ _ _ Href'), (rf_processed _ _ _ _ Href)).
    split; cbn; [lia|done|lia|done|by rewrite Hpr].
  - apply coord_step_same; cbn; try done; [apply Hco|by rewrite insert_id].
Qed.

Lemma ack_coord_step s t r c :
  coord_ok s → acknowledge t (sy_coord s) = (r, c) →
  r ≠ Panic ∧
  coord_step s (with_ledgers (alter (ledger_ack (ea_delivery_id t)) (ea_vbucket t) (sy_ledgers s))
    (with_coord c s)).
Proof.
  intros Hco. unfold acknowledge, with_lock. rewrite (co_poison _ Hco).
  destruct (cs_partitions (sy_coord s) !! ea_vbucket t) as [p|] eqn:Hpart.
  2:{ intros [= <- <-]. split; [done|].
      apply coord_step_same; cbn; try done; [apply Hco|]. apply map_eq. intros k.
      destruct (decide (k = ea_vbucket t)) as [-> |Hk]; [|by rewrite lookup_alter_ne].
      rewrite lookup_alter_eq. destruct (sy_ledgers s !! ea_vbucket t) eqn:HL; [|done].
      destruct (proj2 (co_dom _ Hco (ea_vbucket t))) as [? ?]; [by eexists|]. by simplify_eq. }
  destruct (view_of_partition _ _ _ Hco Hpart) as (v & Hv & <- & Href).
  pose proof (proj1 (view_Some _ _ _) Hv) as (_ & HL & _).
  pose proof (acknowledge_spec uuid (ea_vbucket t) _ _ t Href) as Hspec.
  destruct (acknowledge_partition t (vw_part v)) as [r' p'].
  destruct Hspec as (Href' & Hdur & Hdg & Hres).
  assert (r' ≠ Panic) as Hr' by by destruct r'.
  assert (ps_generation (vw_part v) ≤ ps_generation p'
    ∧ (ps_generation p' = ps_generation (vw_part v) → ps_generation p' < u64_max →
       ps_processed p' = ps_processed (vw_part v))) as [Hg1 Hg2].
  { destruct r' as [o|err|]; [|destruct Hres as [[-> _]|[Hm1 Hm2]]; [done|lia]|done].
    destruct Hres as (_ & _ & Ha). destruct (ao_advanced_to o); [|by destruct Ha as [-> ->]].
    destruct Ha as [-> ->]. split; intros; lia. }
  intros Heq.
  assert (r = r' ∧ c = set_partitions (<[ea_vbucket t:=p']> (cs_partitions (sy_coord s)))
    (sy_coord s)) as [-> ->] by (destruct r'; by simplify_eq).
  split; [done|].
  apply (coord_step_at _ _ (ea_vbucket t) v
    (mkView p' (ledger_ack (ea_delivery_id t) (vw_ledger v)) (vw_rebases v))); try done.
  - apply Hco.
  - cbn. apply map_eq. intros k. destruct (decide (k = ea_vbucket t)) as [-> |Hk].
    + by rewrite lookup_alter_eq, lookup_insert_eq, HL.
    + by rewrite lookup_alter_ne, lookup_insert_ne.
  - split; cbn; [done|done|lia| |].
    + intros _ d. apply covers_ack.
    + intros _. rewrite (rf_processed _ _ _ _ Href'), (rf_processed _ _ _ _ Href).
      eapply ledger_ack_processed_le, Href.
Qed.

Lemma mark_dirty_coord_step s vb r c :
  coord_ok s → mark_dirty vb (sy_coord s) = (r, c) → r ≠ Panic ∧ coord_step s (with_coord c s).
Proof.
  intros Hco. unfold mark_dirty, with_lock. rewrite (co_poison _ Hco).
  destruct (cs_partitions (sy_coord s) !! vb) as [p|] eqn:Hpart.
  2:{ intros [= <- <-]. split; [done|]. by apply coord_step_same; try apply Hco. }
  destruct (view_of_partition _ _ _ Hco Hpart) as (v & Hv & <- & Href).
  pose proof (proj1 (view_Some _ _ _) Hv) as (_ & HL & _).
  destruct (checked_add u64_max (ps_generation (vw_part v)) 1) as [g|] eqn:Hg;
    intros [= <- <-]; (split; [done|]); [|by apply coord_step_same; try apply Hco].
  apply checked_add_inv in Hg as [-> Hg]. destruct Href as [R1 R2 R3 R4 R5].
  eapply (coord_step_at _ _ vb v (mkView _ (vw_ledger v) (vw_rebases v))); cbn; try done.
  - apply Hco.
  - by rewrite insert_id.
  - split; cbn; try done. unfold_ranges. lia.
  - split; cbn; [lia|lia|lia|done|done].
Qed.

(** *** Rebase *)
Lemma rebase_check_ok ps vb c :
  rebase_check uuid ps (vb, c) = Ok tt →
  good_checkpoint uuid vb c ∧ ∃ p, ps !! vb = Some p
    ∧ ¬ (ps_processed p ≠ c ∧ ps_generation p = u64_max).
Proof.
  unfold rebase_check. destruct (ps !! vb) as [p|]; [cbn|done].
  destruct (validate_checkpoint_identity vb uuid c) eqn:Hv; [|done..].
  apply validate_identity_good in Hv. intros Hc. split; [done|]. exists p. split; [done|].
  intros [Hne Hmax]. rewrite bool_decide_false in Hc by done.
  by rewrite Hmax, Z.eqb_refl in Hc.
Qed.
Lemma rebase_check_no_panic ps e : rebase_check uuid ps e ≠ Panic.
Proof.
  destruct e as [vb c]. unfold rebase_check, validate_checkpoint_identity. intros H.
  res_cases; res_facts; by eapply ck_validate_no_panic.
Qed.

Lemma rebase_apply_ok entries : NoDup entries.*1 → ∀ ps,
  (∀ vb c, (vb, c) ∈ entries → ∃ p p', ps !! vb = Some p ∧ rebase_partition c p = Ok p') →
  ∃ ps', rebase_apply entries ps = (Ok tt, ps')
    ∧ (∀ vb c p, (vb, c) ∈ entries → ps !! vb = Some p →
         ∃ p', rebase_partition c p = Ok p' ∧ ps' !! vb = Some p')
    ∧ (∀ vb, vb ∉ entries.*1 → ps' !! vb = ps !! vb).
Proof.
  induction entries as [|[vb c] entries IH]; intros Hnd ps Hall.
  - exists ps. split_and!; [done| |done]. intros ? ? ? H%elem_of_nil. done.
  - csimpl in Hnd. apply NoDup_cons in Hnd as [Hvb Hnd].
    destruct (Hall vb c) as (p & p' & Hp & Hr); [left|]. cbn [rebase_apply]. rewrite Hp, Hr.
    assert (∀ k d, (k, d) ∈ entries → k ≠ vb) as Hne.
    { intros k d Hin ->. apply Hvb. by apply (list_elem_of_fmap_2 fst) in Hin. }
    destruct (IH Hnd (<[vb:=p']> ps)) as (ps' & Ha & Hin' & Hout).
    { intros k d Hin. rewrite lookup_insert_ne by (by eapply not_eq_sym, Hne).
      apply Hall. by right. }
    exists ps'. split_and!; [done|..].
    + intros k d q [Heq|Hin]%elem_of_cons Hq; simplify_eq.
      * exists p'. split; [done|]. rewrite Hout by done. by rewrite lookup_insert_eq.
      * apply Hin'; [done|]. rewrite lookup_insert_ne; [done|]. by eapply not_eq_sym, Hne.
    + intros k Hk. csimpl in Hk. apply not_elem_of_cons in Hk as [Hk1 Hk2].
      rewrite Hout by done. by rewrite lookup_insert_ne.
Qed.

Lemma rebase_coord_step s eff r c :
  coord_ok s → rebase_partitions uuid eff (sy_coord s) = (r, c) →
  r ≠ Panic ∧
  coord_step s (mkSystem c (sy_gate s) (sy_tasks s) (sy_store s)
    (ledgers_rebase r eff (sy_ledgers s)) (rebases_rebase r eff (sy_rebases s))).
Proof.
  intros Hco. unfold rebase_partitions, with_lock. rewrite (co_poison _ Hco).
  pose proof (for_res_checks (btree_to_list eff)
    (rebase_check uuid (cs_partitions (sy_coord s)))) as Hchk.
  destruct (for_res (btree_to_list eff) tt _) as [[]|e|].
  2:{ intros [= <- <-]. split; [done|]. by apply coord_step_same; try apply Hco. }
  2:{ destruct Hchk as (? & _ & Hp). by apply rebase_check_no_panic in Hp. }
  assert (∀ vb d, eff !! vb = Some d → good_checkpoint uuid vb d ∧
    ∃ v p', view s vb = Some v ∧ refines uuid vb (vw_ledger v) (vw_part v)
      ∧ rebase_partition d (vw_part v) = Ok p' ∧ refines uuid vb (mkLedger d []) p'
      ∧ ps_durable_generation p' = ps_durable_generation (vw_part v)
      ∧ ps_generation (vw_part v) ≤ ps_generation p'
      ∧ (ps_generation p' = ps_generation (vw_part v) →
         ps_processed p' = ps_processed (vw_part v))) as Heff.
  { intros vb d Hd. apply elem_of_btree_to_list, Hchk, rebase_check_ok in Hd.
    destruct Hd as [Hgood (p & Hp & Hov)]. split; [done|].
    destruct (view_of_partition _ _ _ Hco Hp) as (v & Hv & <- & Href).
    destruct (rebase_spec uuid vb _ _ d Href Hgood Hov)
      as (p' & Hr & Href' & Hpr & _ & _ & Hdg & _ & Hgen).
    exists v, p'. split_and!; try done.
    - rewrite Hgen. case_bool_decide; lia.
    - rewrite Hgen, Hpr. case_bool_decide; [done|lia]. }
  destruct (rebase_apply_ok (btree_to_list eff) (NoDup_btree_to_list_keys eff)
    (cs_partitions (sy_coord s))) as (ps' & -> & Hin & Hout).
  { intros vb d Hd%elem_of_btree_to_list. destruct (Heff vb d Hd) as (_ & v & p' & Hv & _ & Hr & _).
    apply view_Some in Hv as (Hv & _). eauto. }
  intros [= <- <-]. split; [done|].
  set (s' := mkSystem _ _ _ _ _ _).
  assert (∀ vb, eff !! vb = None → view s' vb = view s vb) as Hsame.
  { intros vb Hn. unfold view, rebases, s'. cbn [sy_coord sy_ledgers sy_rebases cs_partitions
      set_partitions ledgers_rebase rebases_rebase].
    rewrite Hout by (rewrite btree_to_list_keys, elem_of_btree_keys, Hn; by intros []).
    rewrite !lookup_union_r by (rewrite ?map_lookup_imap, ?lookup_fmap, Hn; done). done. }
  assert (∀ vb d, eff !! vb = Some d → ∃ v v', view s vb = Some v ∧ view s' vb = Some v'
    ∧ refines uuid vb (vw_ledger v') (vw_part v') ∧ evolves v v'
    ∧ ps_durable_generation (vw_part v') = ps_durable_generation (vw_part v)) as Hdiff.
  { intros vb d Hd. destruct (Heff vb d Hd) as (Hgood & v & p' & Hv & Href & Hr & Href' & Hdg & Hg & Hsm).
    exists v, (mkView p' (mkLedger d []) (vw_rebases v + 1)).
    pose proof (proj1 (view_Some _ _ _) Hv) as (Hvp & Hvl & Hvn).
    destruct (Hin vb d (vw_part v)) as (p'' & Hr' & Hp''); [by apply elem_of_btree_to_list|done|].
    rewrite Hr in Hr'. injection Hr' as <-. split_and!; try done.
    - apply view_Some. split_and!; [exact Hp''|..].
      + apply lookup_union_Some_l. by rewrite lookup_fmap, Hd.
      + unfold rebases at 1. cbn [sy_rebases s' rebases_rebase vw_rebases].
        erewrite lookup_union_Some_l by (by rewrite map_lookup_imap, Hd). cbn [default].
        by rewrite Hvn.
    - split; cbn; [done|by intros; apply Hsm|lia|lia|lia]. }
  split; try done.
  - split; [apply Hco|..].
    + intros vb. destruct (eff !! vb) as [d|] eqn:Hd.
      * destruct (Hdiff vb d Hd) as (v & v' & _ & Hv' & _).
        apply view_Some in Hv' as (-> & -> & _). split; by eexists.
      * specialize (Hsame vb Hd). pose proof (co_dom _ Hco vb) as Hdom.
        unfold view in Hsame. cbn in *.
        rewrite Hout by (rewrite btree_to_list_keys, elem_of_btree_keys, Hd; by intros []).
        rewrite lookup_union_r by (by rewrite lookup_fmap, Hd). done.
    + intros vb v' Hv'. destruct (eff !! vb) as [d|] eqn:Hd.
      * destruct (Hdiff vb d Hd) as (v & v'' & _ & ? & ? & _). by simplify_eq.
      * rewrite Hsame in Hv' by done. by apply (co_refines _ Hco).
  - intros vb v Hv. destruct (eff !! vb) as [d|] eqn:Hd.
    + destruct (Hdiff vb d Hd) as (v0 & v' & ? & ? & _ & ? & ?). simplify_eq. eauto.
    + exists v. rewrite Hsame by done. split_and!; [done|apply evolves_refl|done].
  - intros vb Hv. destruct (eff !! vb) as [d|] eqn:Hd; [|by rewrite Hsame].
    destruct (Hdiff vb d Hd) as (v0 & v' & ? & _). by simplify_eq.
Qed.

(** Operations that only touch the metrics. *)
Lemma count_attempt_partitions c r c' :
  count_attempt c = (r, c') →
  r ≠ Panic ∧ cs_partitions c' = cs_partitions c ∧ cs_poisoned c' = cs_poisoned c.
Proof. unfold count_attempt. case_match; by intros [= <- <-]. Qed.
Lemma begin_attempt_partitions c r c' :
  cs_poisoned c = false → flush_begin_attempt c = (r, c') →
  r ≠ Panic ∧ cs_partitions c' = cs_partitions c ∧ cs_poisoned c' = false.
Proof.
  intros Hp. unfold flush_begin_attempt, with_lock. rewrite Hp.
  destruct (count_attempt c) as [r0 c0] eqn:Hc.
  apply count_attempt_partitions in Hc as (Hn & Hps & Hpo). rewrite Hp in Hpo.
  destruct r0; intros [= <- <-]; done.
Qed.
Lemma flush_fail_partitions elapsed err b c r c' :
  cs_poisoned c = false → flush_fail elapsed err b c = (r, c') →
  r ≠ Panic ∧ cs_partitions c' = cs_partitions c ∧ cs_poisoned c' = false.
Proof.
  intros Hp. unfold flush_fail, record_flush_failure, with_lock. rewrite Hp.
  destruct (if b then count_attempt c else (Ok tt, c)) as [r0 c0] eqn:Hc.
  assert (r0 ≠ Panic ∧ cs_partitions c0 = cs_partitions c ∧ cs_poisoned c0 = false)
    as (Hn & Hps & Hpo).
  { destruct b; [|by simplify_eq]. apply count_attempt_partitions in Hc. naive_solver. }
  destruct r0; [|by intros [= <- <-]|done].
  destruct (checked_add _ _ _); by intros [= <- <-].
Qed.

(** *** Steps of the calls and the gate *)
Lemma task_step_inv s g ts :
  sys_inv s → gate_ok g ts →
  (∀ t f, ts !! t = Some f → Forall (item_ok s) (stage_batch f)) →
  batch_fresh s (gate_batch g ts) →
  (∀ t b i, ts !! t = Some (FsReplied b SaveOk) → i ∈ b →
     dc_generation i.1 ≤ store_gen (sy_store s) (dc_vbucket i.1)) →
  sys_inv (with_tasks g ts s).
Proof.
  intros [Hco Hdu Hst Hsg Hf Hg Hr] Hg' Hsg' Hf' Hr'. split; try done.
  by destruct Hco as [H1 H2 H3]; split.
Qed.

(** A call that neither owns the gate nor waits for a save comes, goes or gets an answer. *)
Definition detached (f : FlushStage) : Prop :=
  match f with FsGate | FsReplied _ _ => True | _ => False end.
Lemma gate_ok_insert g ts t f :
  gate_ok g ts → detached f → (∀ f', ts !! t = Some f' → detached f') → gate_ok g (<[t := f]> ts).
Proof.
  intros [G1 G2 G3 G4] Hf Hold. split.
  - intros t' ->. destruct (decide (t' = t)) as [-> |Hne].
    + destruct (G1 t eq_refl) as [H|[b H]]; by apply Hold in H.
    + rewrite lookup_insert_ne by done. by apply G1.
  - intros t' f' [[-> ->]|[Hne H]]%lookup_insert_Some Hx; [|by apply (G2 t' f')].
    destruct Hx as [-> |[b ->]]; done.
  - intros t' b ->. destruct (decide (t' = t)) as [-> |Hne].
    + specialize (G3 t b eq_refl). by apply Hold in G3.
    + rewrite lookup_insert_ne by done. by apply G3.
  - intros t' b [[-> ->]|[Hne H]]%lookup_insert_Some; [done|by apply G4].
Qed.
Lemma gate_ok_delete g ts t :
  gate_ok g ts → (∀ f', ts !! t = Some f' → detached f') → gate_ok g (delete t ts).
Proof.
  intros [G1 G2 G3 G4] Hold. split.
  - intros t' ->. destruct (decide (t' = t)) as [-> |Hne].
    + destruct (G1 t eq_refl) as [H|[b H]]; by apply Hold in H.
    + rewrite lookup_delete_ne by done. by apply G1.
  - intros t' f' [Hne H]%lookup_delete_Some. by apply G2.
  - intros t' b ->. destruct (decide (t' = t)) as [-> |Hne].
    + specialize (G3 t b eq_refl). by apply Hold in G3.
    + rewrite lookup_delete_ne by done. by apply G3.
  - intros t' b [Hne H]%lookup_delete_Some. by apply G4.
Qed.
(** At most one call owns the gate: without it, every call is detached. *)
Definition others_detached (t : nat) (ts : gmap nat FlushStage) : Prop :=
  ∀ t' f, t' ≠ t → ts !! t' = Some f → detached f.

Lemma owner_others g ts t f :
  gate_ok g ts → ts !! t = Some f → ¬ detached f → others_detached t ts.
Proof.
  intros [G1 G2 G3 G4] Ht Hf t' f' Hne Ht'.
  assert (g = GateHeld t ∨ ∃ b, g = GateSaving (Some t) b) as Hg.
  { destruct f; try done; [left; by eapply G2; eauto..|right; eauto]. }
  destruct f' as [| |b|b|b r]; try done; exfalso.
  - rewrite (G2 t' _ Ht') in Hg by eauto. naive_solver.
  - rewrite (G2 t' _ Ht') in Hg by eauto. naive_solver.
  - rewrite (G4 t' b Ht') in Hg. naive_solver.
Qed.
Lemma free_others g ts t :
  gate_ok g ts → g = GateFree ∨ (∃ b, g = GateSaving None b) → others_detached t ts.
Proof.
  intros [G1 G2 G3 G4] Hg t' f _ Ht'. destruct f as [| |b|b|b r]; try done; exfalso.
  - rewrite (G2 t' _ Ht') in Hg by eauto. naive_solver.
  - rewrite (G2 t' _ Ht') in Hg by eauto. naive_solver.
  - rewrite (G4 t' b Ht') in Hg. naive_solver.
Qed.

(** The four shapes of the gate, with everybody else detached. *)
Lemma gate_ok_unowned g ts :
  g = GateFree ∨ (∃ b, g = GateSaving None b) → (∀ t f, ts !! t = Some f → detached f) →
  gate_ok g ts.
Proof.
  intros Hg Hd. split.
  - intros t ->. naive_solver.
  - intros t f Ht. apply Hd in Ht. destruct f; naive_solver.
  - intros t b ->. naive_solver.
  - intros t b Ht. by apply Hd in Ht.
Qed.
Lemma gate_ok_owned ts t f :
  others_detached t ts → f = FsHeld ∨ (∃ b, f = FsCollected b) →
  gate_ok (GateHeld t) (<[t := f]> ts).
Proof.
  intros Hd Hf. split.
  - intros t' [= <-]. rewrite lookup_insert_eq. naive_solver.
  - intros t' f' [[<- <-]|[Hne H]]%lookup_insert_Some Hx; [done|].
    eapply Hd in H; [|by apply not_eq_sym]. destruct f'; naive_solver.
  - done.
  - intros t' b [[<- ->]|[Hne H]]%lookup_insert_Some; [naive_solver|].
    by eapply Hd in H; [|by apply not_eq_sym].
Qed.
Lemma gate_ok_saving ts t b :
  others_detached t ts → gate_ok (GateSaving (Some t) b) (<[t := FsSaving b]> ts).
Proof.
  intros Hd. split.
  - done.
  - intros t' f' [[<- <-]|[Hne H]]%lookup_insert_Some Hx; [naive_solver|].
    eapply Hd in H; [|by apply not_eq_sym]. destruct f'; naive_solver.
  - intros t' b' [= <- <-]. by rewrite lookup_insert_eq.
  - intros t' b' [[<- [= ->]]|[Hne H]]%lookup_insert_Some; [done|].
    by eapply Hd in H; [|by apply not_eq_sym].
Qed.
Lemma detached_insert t f ts :
  others_detached t ts → detached f → ∀ t' f', <[t := f]> ts !! t' = Some f' → detached f'.
Proof.
  intros Hd Hf t' f' [[<- <-]|[Hne H]]%lookup_insert_Some; [done|].
  by eapply Hd; [apply not_eq_sym|].
Qed.
Lemma detached_delete t ts :
  others_detached t ts → ∀ t' f', delete t ts !! t' = Some f' → detached f'.
Proof. intros Hd t' f' [Hne H]%lookup_delete_Some. by eapply Hd; [apply not_eq_sym|]. Qed.

(** The items of the changed calls, for every insertion of a stage whose batch is known. *)
Lemma batch_fresh_nil s : batch_fresh s [].
Proof. split; [by intros i ?%elem_of_nil|by intros i j ?%elem_of_nil]. Qed.
Lemma batch_fresh_subseteq s l k : k ⊆ l → batch_fresh s l → batch_fresh s k.
Proof. intros Hs [H1 H2]. split; [intros i Hi; by apply H1, Hs|]. intros i j Hi Hj. apply H2; auto. Qed.
Lemma gate_batch_delete g t ts : gate_batch g (delete t ts) ⊆ gate_batch g ts.
Proof.
  destruct g as [|t'|]; [done| |done]. simpl. destruct (decide (t' = t)) as [-> |Hne].
  - rewrite lookup_delete_eq. by intros ? ?%elem_of_nil.
  - by rewrite lookup_delete_ne.
Qed.
Lemma gate_batch_insert g t ts : gate_batch g (<[t := FsGate]> ts) ⊆ gate_batch g ts.
Proof.
  destruct g as [|t'|]; [done| |done]. simpl. destruct (decide (t' = t)) as [-> |Hne].
  - rewrite lookup_insert_eq. by intros ? ?%elem_of_nil.
  - by rewrite lookup_insert_ne.
Qed.
Lemma insert_stage_inv s g t f :
  sys_inv s → gate_ok g (<[t := f]> (sy_tasks s)) →
  Forall (item_ok s) (stage_batch f) →
  (∀ b i, f = FsReplied b SaveOk → i ∈ b →
     dc_generation i.1 ≤ store_gen (sy_store s) (dc_vbucket i.1)) →
  batch_fresh s (gate_batch g (<[t := f]> (sy_tasks s))) →
  sys_inv (with_tasks g (<[t := f]> (sy_tasks s)) s).
Proof.
  intros Hinv Hg Hit Hr Hb. apply task_step_inv; try done.
  - intros t' f' [[<- <-]|[_ H]]%lookup_insert_Some; [done|by apply (si_stages _ Hinv t')].
  - intros t' b i [[_ Heq]|[_ H]]%lookup_insert_Some Hi; [by eapply Hr|].
    by apply (si_replied _ Hinv t' b).
Qed.
Lemma delete_stage_inv s g t :
  sys_inv s → gate_ok g (delete t (sy_tasks s)) →
  gate_batch g (delete t (sy_tasks s)) ⊆ gate_batch (sy_gate s) (sy_tasks s) →
  sys_inv (with_tasks g (delete t (sy_tasks s)) s).
Proof.
  intros Hinv Hg Hb. apply task_step_inv; try done.
  - intros t' f' [_ H]%lookup_delete_Some. by apply (si_stages _ Hinv t').
  - by eapply batch_fresh_subseteq, si_fresh.
  - intros t' b i [_ H]%lookup_delete_Some. by apply (si_replied _ Hinv t').
Qed.

Lemma store_gen_le s vb v :
  sys_inv s → view s vb = Some v → store_gen (sy_store s) vb ≤ ps_generation (vw_part v).
Proof.
  intros Hinv Hv. pose proof (rf_gen _ _ _ _ (co_refines _ (si_coord _ Hinv) vb v Hv)) as Hg.
  unfold store_gen. destruct (sy_store s !! vb) as [e|] eqn:He; cbn; [|unfold_ranges; lia].
  destruct (se_tag e) as [[n g]|] eqn:Ht; cbn; [|unfold_ranges; lia].
  destruct (si_store _ Hinv vb e n g He Ht) as (v' & Hv' & Hle & _). cbn in *. by simplify_eq.
Qed.

(** What [flush] collects is the processed position of each dirty vBucket. *)
Lemma collect_items s dirty :
  sys_inv s → flush_collect (sy_coord s) = Ok dirty → batch_fresh s (tag_batch s dirty).
Proof.
  intros Hinv. pose proof (si_coord _ Hinv) as Hco. unfold flush_collect, read_lock.
  rewrite (co_poison _ Hco). intros [= <-].
  assert (∀ i, i ∈ tag_batch s (collect_dirty (cs_partitions (sy_coord s))) →
    ∃ v, view s (dc_vbucket i.1) = Some v ∧ refines uuid (dc_vbucket i.1) (vw_ledger v) (vw_part v)
      ∧ i = (mkDirty (dc_vbucket i.1) (ps_processed (vw_part v)) (ps_generation (vw_part v)),
             vw_rebases v)) as Hi.
  { intros i (d & -> & Hd)%list_elem_of_fmap. unfold collect_dirty in Hd.
    apply list_elem_of_fmap in Hd as ([vb p] & -> & Hd).
    apply list_elem_of_filter in Hd as [_ Hd]. apply elem_of_btree_to_list in Hd. cbn.
    destruct (view_of_partition _ _ _ Hco Hd) as (v & Hv & <- & Href).
    exists v. split_and!; [done..|]. by apply view_Some in Hv as (_ & _ & ->). }
  split.
  - intros i (v & Hv & Href & ->)%Hi. cbn in *. split; [|by apply (store_gen_le _ _ v)].
    exists v. cbn. split_and!; [done|lia|done|lia|]. intros _.
    rewrite (rf_processed _ _ _ _ Href). eapply covers_processed, Href.
  - intros i j (v & Hv & _ & ->)%Hi (w & Hw & _ & ->)%Hi Hij. cbn in *. rewrite Hij in *.
    by simplify_eq.
Qed.

(** One store write of the running save. *)
Lemma write_inv s w b i :
  sys_inv s → sy_gate s = GateSaving w b → i ∈ b →
  sys_inv (with_store (write_item i (sy_store s)) s).
Proof.
  intros [Hco Hdu Hst Hsg Hf Hg Hr] Hgate Hi.
  assert (gate_batch (sy_gate s) (sy_tasks s) = b) as Hb by by rewrite Hgate.
  rewrite Hb in Hf. destruct Hf as [Hf1 Hf2]. destruct (Hf1 i Hi) as [Hiok Hige].
  assert (∀ vb, store_gen (write_item i (sy_store s)) vb
    = if decide (vb = dc_vbucket i.1) then dc_generation i.1 else store_gen (sy_store s) vb) as Hsg'.
  { intros vb. unfold store_gen, write_item. destruct (decide _) as [-> |Hne].
    - by rewrite lookup_insert_eq.
    - by rewrite lookup_insert_ne. }
  assert (∀ vb, store_gen (sy_store s) vb ≤ store_gen (write_item i (sy_store s)) vb) as Hmono.
  { intros vb. rewrite Hsg'. destruct (decide _) as [-> |]; [done|lia]. }
  split; try done.
  - by destruct Hco as [H1 H2 H3]; split.
  - intros vb v Hv. cbn. etrans; [by apply Hdu|apply Hmono].
  - intros vb e n g He Ht. cbn in He. unfold write_item in He.
    apply lookup_insert_Some in He as [[<- <-]|[_ He]]; [|by apply (Hst vb)].
    cbn in Ht. simplify_eq. destruct i as [[vb0 c0 g0] n0]. exact Hiok.
  - cbn. rewrite Hb. split; [|done]. intros j Hj. destruct (Hf1 j Hj) as [Hjok Hjge].
    split; [done|]. rewrite Hsg'. destruct (decide _) as [Heq|]; [|done].
    by rewrite (Hf2 j i Hj Hi Heq).
  - intros t b' j Ht Hj. cbn. etrans; [by apply (Hr t b')|apply Hmono].
Qed.

(** *** Commit *)
Definition same_progress (p p' : PartitionState) : Prop :=
  ∃ d g, p' = mkPartition d (ps_processed p) (ps_snapshot p) (ps_last_registered_seqno p)
                (ps_pending p) (ps_next_delivery_id p) (ps_generation p) g.

Lemma commit_saved_spec saved : ∀ ps,
  (∀ d, d ∈ saved → is_Some (ps !! dc_vbucket d)) →
  ∃ ps', commit_saved saved ps = (Ok tt, ps') ∧ ∀ vb,
    match ps !! vb with
    | None => ps' !! vb = None
    | Some p => ∃ p', ps' !! vb = Some p' ∧ same_progress p p'
        ∧ (p' = p ∧ (∀ d, d ∈ saved → dc_vbucket d ≠ vb)
           ∨ ∃ d, d ∈ saved ∧ dc_vbucket d = vb ∧ ps_durable p' = dc_checkpoint d
               ∧ ps_durable_generation p' = dc_generation d)
    end.
Proof.
  induction saved as [|d saved IH]; intros ps Hall.
  - exists ps. split; [done|]. intros vb. destruct (ps !! vb) as [p|]; [|done].
    exists p. split; [done|]. split; [destruct p; by do 2 eexists|]. left. split; [done|]. by intros d ?%elem_of_nil.
  - destruct (Hall d) as [p Hp]; [left|]. cbn [commit_saved]. rewrite Hp.
    set (q := mkPartition (dc_checkpoint d) _ _ _ _ _ _ _).
    destruct (IH (<[dc_vbucket d:=q]> ps)) as (ps' & Hc & Hps').
    { intros d' Hd'. destruct (decide (dc_vbucket d' = dc_vbucket d)) as [-> |Hne].
      - rewrite lookup_insert_eq. by eexists.
      - rewrite lookup_insert_ne by done. apply Hall. by right. }
    exists ps'. split; [done|]. intros vb. specialize (Hps' vb).
    destruct (decide (vb = dc_vbucket d)) as [-> |Hne].
    + rewrite lookup_insert_eq in Hps'. rewrite Hp. destruct Hps' as (p' & Hp' & Hsame & Hcase).
      exists p'. split; [done|]. split; [by destruct Hsame as (? & ? & ->); do 2 eexists|]. right.
      destruct Hcase as [[-> _]|(d' & Hd' & Hvb' & Hdu & Hdg)]; [exists d|exists d'].
      * split_and!; [left|done..].
      * split_and!; [by right|done..].
    + rewrite lookup_insert_ne in Hps' by done. destruct (ps !! vb) as [p0|]; [|done].
      destruct Hps' as (p' & Hp' & Hsame & Hcase). exists p'. split_and!; [done..|].
      destruct Hcase as [[-> Hno]|(d' & Hd' & Hrest)]; [left|right].
      * split; [done|]. intros d' [-> |Hd']%elem_of_cons; [done|by apply Hno].
      * exists d'. split; [by right|done].
Qed.

Lemma same_progress_refines vb L p p' :
  same_progress p p' → refines uuid vb L p → refines uuid vb L p'.
Proof. intros (d & g & ->) [R1 R2 R3 R4 R5]. by split. Qed.

Lemma commit_inv s t b elapsed r c :
  sys_inv s → sy_tasks s !! t = Some (FsReplied b SaveOk) →
  flush_commit b.*1 elapsed (sy_coord s) = (r, c) →
  r ≠ Panic ∧ sys_inv (with_coord c s).
Proof.
  intros Hinv Ht. pose proof Hinv as [Hco Hdu Hst Hsg Hf Hg Hr].
  unfold flush_commit, with_lock. rewrite (co_poison _ Hco).
  assert (∀ i, i ∈ b → item_ok s i) as Hb.
  { intros i Hi. pose proof (Hsg t _ Ht) as Hall. rewrite Forall_forall in Hall. by apply Hall. }
  destruct (commit_saved_spec b.*1 (cs_partitions (sy_coord s))) as (ps' & -> & Hps').
  { intros d (i & -> & Hi)%list_elem_of_fmap. destruct (Hb i Hi) as (v & Hv & _).
    apply view_Some in Hv as (-> & _). by eexists. }
  cbn [set_partitions cs_partitions cs_metrics]. intros [= <- <-]. split; [done|].
  match goal with |- sys_inv ?x => set (s' := x) end.
  assert (∀ vb v, view s vb = Some v → ∃ v', view s' vb = Some v'
    ∧ same_progress (vw_part v) (vw_part v') ∧ vw_ledger v' = vw_ledger v
    ∧ vw_rebases v' = vw_rebases v
    ∧ ps_durable_generation (vw_part v') ≤ store_gen (sy_store s) vb) as Hv.
  { intros vb v Hv. pose proof (proj1 (view_Some _ _ _) Hv) as (Hp & HL & Hn).
    specialize (Hps' vb). rewrite Hp in Hps'. destruct Hps' as (p' & Hp' & Hsame & Hcase).
    exists (mkView p' (vw_ledger v) (vw_rebases v)). split_and!; try done.
    - by apply view_Some.
    - cbn. destruct Hcase as [[-> _]|(d & Hd & <- & _ & ->)]; [by apply Hdu|].
      apply list_elem_of_fmap in Hd as (i & -> & Hi). by apply (Hr t b). }
  assert (∀ vb v', view s' vb = Some v' → ∃ v, view s vb = Some v) as Hback.
  { intros vb v' (Hp' & HL' & _)%view_Some. specialize (Hps' vb).
    destruct (cs_partitions (sy_coord s) !! vb) as [p|] eqn:Hp; [|cbn in Hp'; congruence].
    exists (mkView p (vw_ledger v') (rebases s vb)). by apply view_Some. }
  assert (∀ i, item_ok s i → item_ok s' i) as Hitem.
  { intros i. apply item_ok_evolves. intros vb v (v' & ? & (d & g & Hsame) & HL & Hn & _)%Hv.
    exists v'. split; [done|]. split; rewrite ?HL, ?Hn, ?Hsame; done. }
  split; try done.
  - split; [apply Hco|..].
    + intros vb. change (sy_ledgers s') with (sy_ledgers s). rewrite <-(co_dom _ Hco vb).
      change (cs_partitions (sy_coord s')) with ps'. specialize (Hps' vb).
      destruct (cs_partitions (sy_coord s) !! vb); [|by rewrite Hps'].
      destruct Hps' as (? & -> & _). split; by eexists.
    + intros vb v' Hv'. destruct (Hback _ _ Hv') as [v Hvw].
      destruct (Hv _ _ Hvw) as (v'' & ? & Hsame & HL & _). simplify_eq. rewrite HL.
      eapply same_progress_refines; [done|]. by apply (co_refines _ Hco).
  - intros vb v' Hv'. destruct (Hback _ _ Hv') as [v Hvw].
    destruct (Hv _ _ Hvw) as (v'' & ? & _ & _ & _ & Hd). by simplify_eq.
  - intros vb e n g He Htag. by apply Hitem, (Hst vb).
  - intros t' f Hf'. eapply Forall_impl; [by apply (Hsg t')|done].
  - destruct Hf as [Hf1 Hf2]. split; [|done]. intros i [? ?]%Hf1. auto.
Qed.

(** *** The initial state *)
Lemma validate_initial_step_ok acc vb c r :
  validate_initial_step acc (vb, c) = Ok r →
  ∃ u, r = Some u ∧ good_checkpoint u vb c ∧ (∀ u', acc = Some u' → u' = u).
Proof.
  unfold validate_initial_step. destruct (ck_validate c) eqn:Hv; [|done..].
  apply ck_validate_inv in Hv. destruct (Z.eqb_spec (ck_vbucket c) vb); [cbn|done].
  destruct (ck_bucket_uuid c) as [u|] eqn:Hu; [cbn|done].
  destruct (bool_decide _); [done|].
  destruct acc as [u'|]; [destruct (bool_decide_reflect (u' = u)); [|done]|];
    intros; simplify_eq; exists u; split_and!; try done; naive_solver.
Qed.
Lemma validate_initial_loop l : ∀ acc r,
  for_res l acc validate_initial_step = Ok r →
  (∀ u, acc = Some u → r = Some u)
  ∧ ∀ vb c, (vb, c) ∈ l → ∃ u, r = Some u ∧ good_checkpoint u vb c.
Proof.
  induction l as [|[vb c] l IH]; intros acc r; cbn [for_res].
  - intros [= <-]. split; [done|]. by intros ? ? ?%elem_of_nil.
  - destruct (validate_initial_step acc (vb, c)) as [r0| |] eqn:Hs; [|done..].
    apply validate_initial_step_ok in Hs as (u & -> & Hgood & Hacc). intros Hl.
    destruct (IH _ _ Hl) as [IH1 IH2]. specialize (IH1 u eq_refl). split.
    + intros u' Hu'. by rewrite (Hacc u' Hu').
    + intros vb' c' [Heq|Hin]%elem_of_cons; [simplify_eq; eauto|by apply IH2].
Qed.
Lemma coordinator_new_ok config checkpoints c :
  coordinator_new config checkpoints = Ok (uuid, c) →
  c = mkCoordinator (partition_new <$> checkpoints) metrics_default false
  ∧ ∀ vb d, checkpoints !! vb = Some d → good_checkpoint uuid vb d.
Proof.
  unfold coordinator_new, validate_initial_checkpoints.
  destruct (checkpoint_config_validate config); [|done..].
  destruct (bool_decide _); [done|].
  destruct (for_res (btree_to_list checkpoints) None validate_initial_step) as [[u|]| |] eqn:Hl;
    [|done..]. intros [= -> <-]. split; [done|]. intros vb d Hd%elem_of_btree_to_list.
  apply validate_initial_loop in Hl as [_ Hl]. destruct (Hl vb d Hd) as (u & [= <-] & Hg). done.
Qed.

Lemma init_inv s : sys_init uuid s → sys_inv s.
Proof.
  intros [config checkpoints c store Hnew Htags].
  apply coordinator_new_ok in Hnew as [-> Hgood].
  assert (∀ vb, store_gen store vb = 0) as Hzero.
  { intros vb. unfold store_gen. destruct (store !! vb) as [e|] eqn:He; [|done]. cbn.
    by rewrite (Htags vb e He). }
  set (s0 := mkSystem _ _ _ _ _ _).
  assert (∀ vb v, view s0 vb = Some v → ∃ d, checkpoints !! vb = Some d
    ∧ v = mkView (partition_new d) (mkLedger d []) 0) as Hview.
  { intros vb v (Hp & HL & Hn)%view_Some. unfold s0 in Hp, HL.
    cbn [sy_coord cs_partitions sy_ledgers] in Hp, HL. rewrite lookup_fmap in Hp. rewrite lookup_fmap in HL.
    destruct (checkpoints !! vb) as [d|]; [|done]. exists d. split; [done|].
    destruct v. cbn in *. simplify_eq. done. }
  split; try done.
  - split; [done|..].
    + intros vb. unfold s0. cbn [sy_coord cs_partitions sy_ledgers].
      by rewrite !lookup_fmap, !fmap_is_Some.
    + intros vb v (d & Hd & ->)%Hview. apply partition_new_refines. by apply Hgood.
  - intros vb v (d & Hd & ->)%Hview. cbn. by rewrite Hzero.
  - intros vb e n g He Ht. cbn in He. apply Htags in He. by simplify_eq.
  - apply batch_fresh_nil.
Qed.

(** *** Preservation *)
Lemma metrics_inv s g ts c :
  sys_inv (with_tasks g ts s) → cs_partitions c = cs_partitions (sy_coord s) →
  cs_poisoned c = false → sys_inv (with_tasks g ts (with_coord c s)).
Proof.
  intros Hinv Hp Hpo. apply (coord_step_inv (with_tasks g ts s)); [done|].
  apply coord_step_same; try done. apply Hinv.
Qed.

Lemma reply_inv s w b r :
  sys_inv s → sy_gate s = GateSaving w b →
  (r = SaveOk → Forall (written (sy_store s)) b) →
  sys_inv (with_tasks GateFree (deliver_reply w b r (sy_tasks s)) s).
Proof.
  intros Hinv Hgate Hw. pose proof (si_gate _ Hinv) as Hg. destruct w as [t|]; cbn [deliver_reply].
  - rewrite Hgate in Hg. pose proof (go_saving _ _ Hg t b eq_refl) as Ht.
    pose proof (owner_others _ _ _ _ Hg Ht (λ x, x)) as Ho.
    apply insert_stage_inv; [done|..].
    + apply gate_ok_unowned; [by left|]. by apply detached_insert.
    + apply (si_stages _ Hinv t _ Ht).
    + intros b' i [= <- ->] Hi. specialize (Hw eq_refl). rewrite Forall_forall in Hw.
      destruct (Hw i Hi) as (e & He & _ & Htag). unfold store_gen. by rewrite He; cbn; rewrite Htag.
    + apply batch_fresh_nil.
  - apply task_step_inv; [done|..].
    + apply gate_ok_unowned; [by left|]. intros t f Ht.
      assert (others_detached (S t) (sy_tasks s)) as Ho by (apply (free_others _ _ _ Hg); eauto).
      by apply (Ho t f); [lia|].
    + intros t f. apply (si_stages _ Hinv).
    + apply batch_fresh_nil.
    + intros t b' i. apply (si_replied _ Hinv).
Qed.

Lemma step_inv s s' : sys_inv s → sys_step uuid timeout s s' → sys_inv s'.
Proof.
  intros Hinv Hstep. pose proof (si_coord _ Hinv) as Hco. pose proof (si_gate _ Hinv) as Hg.
  destruct Hstep as
    [s e r c Hop|s t r c Hop|s vb r c Hop|s eff r c Hop|s t Hn _|s t el r c Ht Hop|s t Ht Hfree
    |s t dirty Ht Hc _|s t r Ht _ _|s t b c Ht Hop|s t b r c Ht Hop _|s w b i Hgate Hi
    |s w b Hgate Hw|s w b r Hgate Hr|s t b Ht|s t b el r c Ht Hop|s t b reply err el r c Ht _ Hop
    |s t Ht|s t b Ht].
  - eapply coord_step_inv; [done|]. by eapply track_coord_step.
  - eapply coord_step_inv; [done|]. by eapply ack_coord_step.
  - eapply coord_step_inv; [done|]. by eapply mark_dirty_coord_step.
  - eapply coord_step_inv; [done|]. by eapply rebase_coord_step.
  - apply insert_stage_inv; try done.
    + apply gate_ok_insert; [done..|]. by rewrite Hn.
    + eapply batch_fresh_subseteq; [apply gate_batch_insert|apply Hinv].
  - apply (flush_fail_partitions _ _ _ _ _ _ (co_poison _ Hco)) in Hop as (_ & Hp & Hpo).
    apply metrics_inv; [|done..].
    apply delete_stage_inv; [done| |apply gate_batch_delete].
    apply gate_ok_delete; [done|]. rewrite Ht. by intros ? [= <-].
  - apply insert_stage_inv; try done.
    + apply gate_ok_owned; [|by left]. apply (free_others _ _ _ Hg). by left.
    + simpl. rewrite lookup_insert_eq. apply batch_fresh_nil.
  - pose proof (collect_items _ _ Hinv Hc) as Hb.
    apply insert_stage_inv; try done.
    + apply gate_ok_owned; [|eauto]. exact (owner_others _ _ _ _ Hg Ht (λ x, x)).
    + apply Forall_forall. intros i Hi. by apply Hb.
    + simpl. by rewrite lookup_insert_eq.
  - apply delete_stage_inv; [done| |by intros ? ?%elem_of_nil].
    apply gate_ok_unowned; [by left|]. apply detached_delete. exact (owner_others _ _ _ _ Hg Ht (λ x, x)).
  - apply (begin_attempt_partitions _ _ _ (co_poison _ Hco)) in Hop as (_ & Hp & Hpo).
    apply metrics_inv; [|done..].
    pose proof (go_holder _ _ Hg t _ Ht ltac:(eauto)) as Hgate.
    apply insert_stage_inv; try done.
    + apply gate_ok_saving. exact (owner_others _ _ _ _ Hg Ht (λ x, x)).
    + apply (si_stages _ Hinv t _ Ht).
    + pose proof (si_fresh _ Hinv) as Hf. by rewrite Hgate in Hf; simpl in Hf; rewrite Ht in Hf.
  - apply (begin_attempt_partitions _ _ _ (co_poison _ Hco)) in Hop as (_ & Hp & Hpo).
    apply metrics_inv; [|done..].
    apply delete_stage_inv; [done| |by intros ? ?%elem_of_nil].
    apply gate_ok_unowned; [by left|]. apply detached_delete. exact (owner_others _ _ _ _ Hg Ht (λ x, x)).
  - by eapply write_inv.
  - by apply reply_inv.
  - by apply reply_inv.
  - pose proof (go_saver _ _ Hg t b Ht) as Hgate.
    apply insert_stage_inv; try done.
    + apply gate_ok_unowned; [by eauto|]. apply detached_insert; [|done].
      exact (owner_others _ _ _ _ Hg Ht (λ x, x)).
    + apply (si_stages _ Hinv t _ Ht).
    + pose proof (si_fresh _ Hinv) as Hf. by rewrite Hgate in Hf.
  - destruct (commit_inv _ _ _ _ _ _ Hinv Ht Hop) as [_ Hinv'].
    apply (delete_stage_inv (with_coord c s)); [done| |apply gate_batch_delete].
    apply gate_ok_delete; [done|]. cbn. rewrite Ht. by intros ? [= <-].
  - apply (flush_fail_partitions _ _ _ _ _ _ (co_poison _ Hco)) in Hop as (_ & Hp & Hpo).
    apply metrics_inv; [|done..].
    apply delete_stage_inv; [done| |apply gate_batch_delete].
    apply gate_ok_delete; [done|]. rewrite Ht. by intros ? [= <-].
  - apply delete_stage_inv; [done| |apply gate_batch_delete].
    apply gate_ok_delete; [done|]. rewrite Ht. by intros ? [= <-].
  - pose proof (go_saver _ _ Hg t b Ht) as Hgate.
    apply delete_stage_inv; [done| |by rewrite Hgate].
    apply gate_ok_unowned; [by eauto|]. apply detached_delete. exact (owner_others _ _ _ _ Hg Ht (λ x, x)).
Qed.

Lemma reachable_inv s : reachable uuid timeout s → sys_inv s.
Proof.
  intros (s0 & Hinit & Hsteps). apply init_inv in Hinit.
  induction Hsteps as [|s s' s'' Hs _ IH]; [done|]. by eapply IH, step_inv.
Qed.
(** An entry of a vBucket that is clean is its processed position. *)
Lemma clean_entry s vb v e n g :
  sys_inv s → view s vb = Some v → sy_store s !! vb = Some e → se_tag e = Some (n, g) →
  is_dirty (vw_part v) = true ∨ ps_generation (vw_part v) = u64_max
  ∨ se_checkpoint e = ps_processed (vw_part v).
Proof.
  intros Hinv Hv He Ht. pose proof (si_durable _ Hinv vb v Hv) as Hd.
  unfold store_gen in Hd. rewrite He in Hd. cbn in Hd. rewrite Ht in Hd.
  destruct (si_store _ Hinv vb e n g He Ht) as (v' & Hv' & Hle & Hsame & _). cbn in *.
  rewrite Hv in Hv'. injection Hv' as <-.
  pose proof (rf_gen _ _ _ _ (co_refines _ (si_coord _ Hinv) vb v Hv)) as Hg. unfold_ranges.
  destruct (is_dirty (vw_part v)) eqn:Hdirty; [by left|right].
  unfold is_dirty in Hdirty. apply orb_false_iff in Hdirty as [Hx _].
  apply negb_false_iff, Z.eqb_eq in Hx.
  destruct (decide (ps_generation (vw_part v) = u64_max)); [by left|right].
  apply Hsame; unfold_ranges; lia.
Qed.
End Invariant.

(** ** The uninterrupted call *)
Definition clean (p : PartitionState) : Prop := is_dirty p = false.

Lemma collect_dirty_elem ps d :
  d ∈ collect_dirty ps ↔ ∃ p, ps !! dc_vbucket d = Some p ∧ is_dirty p = true
    ∧ d = mkDirty (dc_vbucket d) (ps_processed p) (ps_generation p).
Proof.
  unfold collect_dirty. rewrite list_elem_of_fmap. split.
  - intros ([vb p] & -> & [Hd Hin]%list_elem_of_filter). apply elem_of_btree_to_list in Hin.
    by exists p.
  - intros (p & Hp & Hd & Heq). exists (dc_vbucket d, p). split; [done|].
    apply list_elem_of_filter. split; [done|]. by apply elem_of_btree_to_list.
Qed.
Lemma has_dirty_spec s :
  cs_poisoned s = false →
  ∃ b, flush_has_dirty s = Ok b ∧ (b = true ↔ collect_dirty (cs_partitions s) ≠ []).
Proof.
  intros Hp. unfold flush_has_dirty, read_lock. rewrite Hp. eexists. split; [done|].
  rewrite existsb_exists. split.
  - intros (p & Hin & Hd) Hnil.
    apply list_elem_of_In, elem_of_btree_values in Hin as [vb Hvb].
    assert (mkDirty vb (ps_processed p) (ps_generation p) ∈ collect_dirty (cs_partitions s)) as Hx
      by (apply collect_dirty_elem; by exists p).
    rewrite Hnil in Hx. by apply elem_of_nil in Hx.
  - destruct (collect_dirty (cs_partitions s)) as [|d l] eqn:Hc; [done|]. intros _.
    assert (d ∈ collect_dirty (cs_partitions s)) as Hx by (rewrite Hc; left).
    apply collect_dirty_elem in Hx as (p & Hp' & Hd & _). exists p. split; [|done].
    apply list_elem_of_In, elem_of_btree_values. eauto.
Qed.

Lemma commit_collected ps :
  ∃ ps', commit_saved (collect_dirty ps) ps = (Ok tt, ps')
    ∧ (∀ vb, ps !! vb = None → ps' !! vb = None)
    ∧ ∀ vb p, ps !! vb = Some p → ∃ p', ps' !! vb = Some p' ∧ same_progress p p'
        ∧ clean p' ∧ ps_durable p' = ps_processed p.
Proof.
  destruct (commit_saved_spec (collect_dirty ps) ps) as (ps' & Hc & Hps').
  { intros d (p & Hp & _)%collect_dirty_elem. by eexists. }
  exists ps'. split; [done|]. split.
  - intros vb Hn. specialize (Hps' vb). by rewrite Hn in Hps'.
  - intros vb p Hp. specialize (Hps' vb). rewrite Hp in Hps'.
    destruct Hps' as (p' & Hp' & Hsame & Hcase). exists p'. split_and!; try done.
    + destruct Hcase as [[-> Hno]|(d & Hd & <- & Hdu & Hdg)].
      * unfold clean. destruct (is_dirty p) eqn:Hdirty; [|done]. exfalso.
        apply (Hno (mkDirty vb (ps_processed p) (ps_generation p))); [|done].
        apply collect_dirty_elem. by exists p.
      * apply collect_dirty_elem in Hd as (q & Hq & _ & Heq). simplify_eq.
        unfold clean, is_dirty. rewrite Hdu, Hdg, Heq. cbn.
        destruct Hsame as (d0 & g0 & ->). cbn. rewrite Z.eqb_refl.
        by rewrite bool_decide_true.
    + destruct Hcase as [[-> Hno]|(d & Hd & <- & Hdu & Hdg)].
      * destruct (is_dirty p) eqn:Hdirty.
        -- exfalso. apply (Hno (mkDirty vb (ps_processed p) (ps_generation p))); [|done].
           apply collect_dirty_elem. by exists p.
        -- unfold is_dirty in Hdirty. apply orb_false_iff in Hdirty as [_ Hd].
           apply negb_false_iff in Hd. by apply bool_decide_eq_true in Hd.
      * apply collect_dirty_elem in Hd as (q & Hq & _ & Heq). simplify_eq.
        by rewrite Hdu, Heq.
Qed.

(** ** Properties *)


(** C2: a clean vBucket is durable.  Under every such interleaving, a vBucket that the
    coordinator reports as not dirty, and that has made progress or was marked, has exactly
    its processed checkpoint in the store: no lost, reordered or orphaned save can leave an
    older or newer position behind (as long as its 64-bit generation is not exhausted). *)
Theorem clean_partition_is_durable uuid timeout s vb p :
  reachable uuid timeout s → cs_partitions (sy_coord s) !! vb = Some p →
  is_dirty p = false → 0 < ps_generation p < u64_max →
  ∃ e, sy_store s !! vb = Some e ∧ se_checkpoint e = ps_processed p.
Proof.
  intros Hr Hp Hclean Hgen. apply reachable_inv in Hr.
  destruct (view_of_partition _ _ _ _ (si_coord _ _ Hr) Hp) as (v & Hv & <- & _).
  pose proof (si_durable _ _ Hr vb v Hv) as Hd. pose proof Hclean as Hx. unfold is_dirty in Hx.
  apply orb_false_iff in Hx as [Hx _]. apply negb_false_iff, Z.eqb_eq in Hx. unfold store_gen in Hd.
  destruct (sy_store s !! vb) as [e|] eqn:He; cbn in *; [|lia].
  destruct (se_tag e) as [[n g]|] eqn:Ht; cbn in *; [|lia].
  exists e. split; [done|].
  destruct (clean_entry _ s vb v e n g Hr Hv He Ht) as [?|[?|?]]; [congruence|lia|done].
Qed.

(** The coordinator never panics and its mutex is never poisoned.  In every reachable
    state every operation returns a value or an error: the [expect] of the commit loop
    always finds its vBucket and the unchecked generation increment of a rebase never
    overflows. *)
Lemma coordinator_never_panics uuid timeout s :
  reachable uuid timeout s →
  cs_poisoned (sy_coord s) = false
  ∧ (∀ e, (track_event e (sy_coord s)).1 ≠ Panic)
  ∧ (∀ t, (acknowledge t (sy_coord s)).1 ≠ Panic)
  ∧ (∀ vb, (mark_dirty vb (sy_coord s)).1 ≠ Panic)
  ∧ (∀ eff, (rebase_partitions uuid eff (sy_coord s)).1 ≠ Panic)
  ∧ (∀ t b elapsed, sy_tasks s !! t = Some (FsReplied b SaveOk) →
       (flush_commit b.*1 elapsed (sy_coord s)).1 ≠ Panic).
Proof.
  intros Hr. apply reachable_inv in Hr. pose proof (si_coord _ _ Hr) as Hco.
  split; [apply Hco|]. split_and!.
  - intros e. destruct (track_event e (sy_coord s)) as [r c] eqn:H.
    by apply (track_coord_step uuid) in H as [? _].
  - intros t. destruct (acknowledge t (sy_coord s)) as [r c] eqn:H.
    by apply (ack_coord_step uuid) in H as [? _].
  - intros vb. destruct (mark_dirty vb (sy_coord s)) as [r c] eqn:H.
    by apply (mark_dirty_coord_step uuid) in H as [? _].
  - intros eff. destruct (rebase_partitions uuid eff (sy_coord s)) as [r c] eqn:H.
    by apply (rebase_coord_step uuid) in H as [? _].
  - intros t b el Ht. destruct (flush_commit b.*1 el (sy_coord s)) as [r c] eqn:H.
    by apply (commit_inv uuid _ _ _ _ _ _ Hr Ht) in H as [? _].
Qed.

(** An uninterrupted flush either persists everything or changes no progress.  With a
    successful save every vBucket ends clean with its processed checkpoint durable and its
    queue, generation and positions untouched, and the report counts the dirty vBuckets;
    with a failed save every vBucket is exactly as before and the failure is recorded with
    its error text. *)
Lemma flush_outcome timeout save elapsed s :
  cs_poisoned s = false → collect_dirty (cs_partitions s) ≠ [] →
  cm_flush_attempts (cs_metrics s) < u64_max → cm_flush_failures (cs_metrics s) < u64_max →
  let batch := dc_checkpoint <$> collect_dirty (cs_partitions s) in
  let s' := (flush timeout true save elapsed s).2 in
  match reply_error timeout (save batch) with
  | None =>
      (∃ rep, (flush timeout true save elapsed s).1 = Ok rep
         ∧ fr_attempted rep = len batch ∧ fr_persisted rep = len batch
         ∧ fr_remaining_dirty rep = 0)
      ∧ (∀ vb, is_Some (cs_partitions s' !! vb) ↔ is_Some (cs_partitions s !! vb))
      ∧ (∀ vb p, cs_partitions s !! vb = Some p →
           ∃ p', cs_partitions s' !! vb = Some p' ∧ same_progress p p'
             ∧ is_dirty p' = false ∧ ps_durable p' = ps_processed p)
  | Some error =>
      (flush timeout true save elapsed s).1 = Err error
      ∧ cs_partitions s' = cs_partitions s
      ∧ cm_flush_failures (cs_metrics s') = cm_flush_failures (cs_metrics s) + 1
      ∧ cm_last_flush_error (cs_metrics s') = Some (dcp_error_to_string error)
  end.
Proof.
  intros Hp Hd Ha Hf. cbv zeta. unfold flush.
  destruct (has_dirty_spec s Hp) as (b & -> & Hb). rewrite (proj2 Hb Hd). cbn [negb].
  unfold flush_collect, read_lock. rewrite Hp.
  destruct (collect_dirty (cs_partitions s)) as [|d l] eqn:Hc; [done|]. rewrite <-Hc.
  unfold flush_begin_attempt, with_lock, count_attempt, checked_add. rewrite Hp.
  replace (cm_flush_attempts (cs_metrics s) + 1 <=? u64_max) with true by lia. cbn [fst snd].
  destruct (reply_error timeout _) as [error|].
  - unfold flush_fail, record_flush_failure, with_lock. cbn. rewrite Hp. unfold checked_add.
    by replace (cm_flush_failures (cs_metrics s) + 1 <=? u64_max) with true by lia.
  - destruct (commit_collected (cs_partitions s)) as (ps' & Hcs & Hn & Hs).
    unfold flush_commit, with_lock. cbn [set_metrics cs_partitions cs_poisoned]. rewrite Hp, Hcs.
    cbn [fst snd set_partitions set_metrics cs_partitions cs_metrics].
    split; [|split; [|done]].
    + eexists. split; [done|]. cbn. split_and!; [by unfold len; rewrite length_fmap..|].
      unfold count_dirty. rewrite (elem_of_nil_inv (filter _ _)); [done|].
      intros p' [Hdirty Hin]%list_elem_of_filter. apply elem_of_btree_values in Hin as [vb Hvb].
      destruct (cs_partitions s !! vb) as [p|] eqn:Hpart; [|apply Hn in Hpart; congruence].
      destruct (Hs _ _ Hpart) as (q & Hq & _ & Hclean & _). rewrite Hvb in Hq.
      injection Hq as <-. by rewrite Hclean in Hdirty.
    + intros vb. destruct (cs_partitions s !! vb) as [p|] eqn:Hpart.
      * destruct (Hs _ _ Hpart) as (q & -> & _). split; by eexists.
      * by rewrite (Hn _ Hpart).
Qed.

(** ** A sample run

    One vBucket: a snapshot and two mutations are delivered, the first is acknowledged, and
    a flush runs to its commit. *)
Definition do_track (e : DcpEvent) (s : System) : System :=
  let rc := track_event e (sy_coord s) in
  with_ledgers (ledgers_track rc.1 rc.2 (sy_ledgers s)) (with_coord rc.2 s).
Definition do_ack (t : EventAck) (s : System) : System :=
  let rc := acknowledge t (sy_coord s) in
  with_ledgers (alter (ledger_ack (ea_delivery_id t)) (ea_vbucket t) (sy_ledgers s))
    (with_coord rc.2 s).

Definition sample_checkpoints : gmap Z DcpCheckpoint := {[ 3 := sample_start ]}.
Definition sample_config : CheckpointConfig := mkCheckpointConfig Manual 1000.
Definition sample_sys0 : System :=
  mkSystem (mkCoordinator (partition_new <$> sample_checkpoints) metrics_default false)
    GateFree ∅ ∅ ((λ c, mkLedger c []) <$> sample_checkpoints) ∅.
Definition sample_sys1 : System :=
  do_ack (mkEventAck 3 1 11) (do_track (sample_mutation_event 3 12)
    (do_track (sample_mutation_event 3 11)
      (do_track (ESnapshotMarker (Event.mkSnapshotMarker 3 0 20 1 None None None)) sample_sys0))).
Definition sample_item : Item :=
  (mkDirty 3 (mkCheckpoint (Some "uuid") 3 77 11 0 20 None) 1, 0).
Definition sample_sys2 : System := with_tasks GateFree {[ 0%nat := FsGate ]} sample_sys1.
Definition sample_sys3 : System := with_tasks (GateHeld 0) {[ 0%nat := FsHeld ]} sample_sys2.
Definition sample_sys4 : System :=
  with_tasks (GateHeld 0) {[ 0%nat := FsCollected [sample_item] ]} sample_sys3.
Definition sample_sys5 : System :=
  with_tasks (GateSaving (Some 0%nat) [sample_item]) {[ 0%nat := FsSaving [sample_item] ]}
    (with_coord (flush_begin_attempt (sy_coord sample_sys4)).2 sample_sys4).
Definition sample_sys6 : System :=
  with_store (write_item sample_item (sy_store sample_sys5)) sample_sys5.
Definition sample_sys7 : System :=
  with_tasks GateFree {[ 0%nat := FsReplied [sample_item] SaveOk ]} sample_sys6.
Definition sample_sys8 : System :=
  with_tasks GateFree ∅
    (with_coord (flush_commit [sample_item.1] 5 (sy_coord sample_sys7)).2 sample_sys7).

Lemma sample_saving_reachable : reachable "uuid" 1000 sample_sys5.
Proof.
  exists sample_sys0. split.
  { apply (si_new "uuid" sample_config sample_checkpoints); [vm_compute; reflexivity|done]. }
  eapply rtc_l; [eapply ss_track, surjective_pairing|].
  eapply rtc_l; [eapply ss_track, surjective_pairing|].
  eapply rtc_l; [eapply ss_track, surjective_pairing|].
  eapply rtc_l; [eapply ss_ack, surjective_pairing|].
  eapply (rtc_l _ _ sample_sys2); [apply (ss_flush_start _ _ sample_sys1 0); vm_compute; reflexivity|].
  eapply (rtc_l _ _ sample_sys3); [apply (ss_gate_acquire _ _ sample_sys2 0); vm_compute; reflexivity|].
  eapply (rtc_l _ _ sample_sys4).
  { apply (ss_collect _ _ sample_sys3 0 [sample_item.1]); [vm_compute; reflexivity..|discriminate]. }
  eapply (rtc_l _ _ sample_sys5); [|apply rtc_refl].
  apply (ss_begin _ _ sample_sys4 0 [sample_item]); vm_compute; reflexivity.
Qed.
Lemma sample_reachable : reachable "uuid" 1000 sample_sys8.
Proof.
  destruct sample_saving_reachable as (s0 & Hinit & Hsteps). exists s0. split; [done|].
  eapply rtc_trans; [done|].
  eapply (rtc_l _ _ sample_sys6).
  { apply (ss_write _ _ sample_sys5 (Some 0%nat) [sample_item] sample_item);
      [vm_compute; reflexivity|left]. }
  eapply (rtc_l _ _ sample_sys7).
  { apply (ss_save_ok _ _ sample_sys6 (Some 0%nat) [sample_item]); [vm_compute; reflexivity|].
    apply Forall_singleton. eexists. split; [vm_compute; reflexivity|]. split; reflexivity. }
  eapply (rtc_l _ _ sample_sys8); [|apply rtc_refl].
  apply (ss_commit _ _ sample_sys7 0 [sample_item] 5 (flush_commit [sample_item.1] 5 (sy_coord sample_sys7)).1);
    [vm_compute; reflexivity|apply surjective_pairing].
Qed.


Lemma clean_partition_is_durable_witness :
  ∃ p e, cs_partitions (sy_coord sample_sys8) !! 3 = Some p
    ∧ sy_store sample_sys8 !! 3 = Some e ∧ se_checkpoint e = ps_processed p.
Proof.
  destruct (cs_partitions (sy_coord sample_sys8) !! 3) as [p|] eqn:Hp;
    [|vm_compute in Hp; discriminate Hp].
  assert (is_dirty p = false ∧ 0 < ps_generation p < u64_max) as [Hd Hg].
  { vm_compute in Hp. injection Hp as <-. split; [vm_compute; reflexivity|].
    unfold u64_max. cbn. lia. }
  destruct (clean_partition_is_durable "uuid" 1000 sample_sys8 3 p) as (e & He & Hc).
  - apply sample_reachable.
  - exact Hp.
  - exact Hd.
  - exact Hg.
  - exists p, e. split; [reflexivity|]. split; [exact He|exact Hc].
Defined.
