(* ===== verification/Scheduler.v ===== *)
(** * The flush scheduler ([checkpoint_runtime.rs], [run_scheduler] and [shutdown])

    The automatic flush loop of a coordinator, the calls of [shutdown] that stop it, join it
    and flush once more, and the handles on the coordinator, over the transition system of
    [CheckpointFlush], whose steps go on in between.  A transition is one await of the loop
    or of a call.

    The coordinator is freed, and its watch channel closed, when its last handle is dropped
    and the loop does not hold it for a flush. *)
From S2P Require Import Prelude Types Frame Errors Event Checkpoint Config.
From S2P Require Import CheckpointRuntime CheckpointSpec CheckpointFlush.

(** ** The state *)

(** Where the loop is: at its first tick, in its [select], in a flush, or over. *)
Inductive Loop : Type :=
| LoopStart
| LoopSelect
| LoopFlush (t : nat)
| LoopReturned.
#[export] Instance Loop_eq_dec : EqDecision Loop.
Proof. solve_decision. Defined.

(** The mutex around the join handle: there, taken by a call that joins and still holds the
    lock, gone because there is nothing left to join, or dropped with a call that joined. *)
Inductive Handle : Type :=
| HandleHere
| HandleTaken (k : nat)
| HandleNone
| HandleDropped.

(** The awaits of [shutdown]. *)
Inductive ShutdownStage : Type :=
| SdLock
| SdJoin
| SdFlush (t : nat)
| SdReturned (r : result CheckpointFlushReport)
| SdDropped.

(** A call, and the system it was made on, which no step reads. *)
Record ShutdownCall : Type := mkShutdown {
  sd_stage : ShutdownStage;
  sd_at : System
}.

(** [rt_cancel] is the value of the watch channel, [rt_unseen] whether the loop has a change
    to see. *)
Record Runtime : Type := mkRuntime {
  rt_system : System;
  rt_handles : nat;
  rt_cancel : bool;
  rt_unseen : bool;
  rt_loop : Loop;
  rt_handle : Handle;
  rt_calls : list ShutdownCall
}.

Definition with_system (s : System) (r : Runtime) : Runtime :=
  mkRuntime s (rt_handles r) (rt_cancel r) (rt_unseen r) (rt_loop r) (rt_handle r) (rt_calls r).
Definition with_handles (n : nat) (r : Runtime) : Runtime :=
  mkRuntime (rt_system r) n (rt_cancel r) (rt_unseen r) (rt_loop r) (rt_handle r) (rt_calls r).
Definition with_loop (l : Loop) (r : Runtime) : Runtime :=
  mkRuntime (rt_system r) (rt_handles r) (rt_cancel r) (rt_unseen r) l (rt_handle r) (rt_calls r).
Definition with_handle (h : Handle) (r : Runtime) : Runtime :=
  mkRuntime (rt_system r) (rt_handles r) (rt_cancel r) (rt_unseen r) (rt_loop r) h (rt_calls r).
Definition with_calls (l : list ShutdownCall) (r : Runtime) : Runtime :=
  mkRuntime (rt_system r) (rt_handles r) (rt_cancel r) (rt_unseen r) (rt_loop r) (rt_handle r) l.
Definition with_stage (k : nat) (c : ShutdownCall) (f : ShutdownStage) (r : Runtime) : Runtime :=
  with_calls (<[k := mkShutdown f (sd_at c)]> (rt_calls r)) r.

(** [CheckpointCoordinator::new], its last part: the loop is spawned in automatic mode. *)
Definition spawn_scheduler (automatic : bool) (s : System) : Runtime :=
  if automatic then mkRuntime s 1 false false LoopStart HandleHere []
  else mkRuntime s 1 false false LoopReturned HandleNone [].

(** [self.cancel.send(true)]: without a receiver, which the loop owns, nothing is stored. *)
Definition send_stop (r : Runtime) : Runtime :=
  match rt_loop r with
  | LoopReturned => r
  | _ => mkRuntime (rt_system r) (rt_handles r) true true (rt_loop r) (rt_handle r) (rt_calls r)
  end.

(** ** Flushing *)

(** [flush] up to its first await: suspended at the gate as the call [t], or its result. *)
Definition flush_begin (t : nat) (elapsed : Duration) (s : System)
    : System + result CheckpointFlushReport :=
  match flush_has_dirty (sy_coord s) with
  | Ok true => inl (with_tasks (sy_gate s) (<[t := FsGate]> (sy_tasks s)) s)
  | Ok false => inr (Ok (idle_report elapsed))
  | Err e => inr (Err e)
  | Panic => inr Panic
  end.

Section Runtime.
Context (uuid : string) (timeout : Duration).

(** The ends of the call [t], with its result. *)
Inductive flush_ends (t : nat) (s : System) : result CheckpointFlushReport → System → Prop :=
| fe_gate_timeout elapsed r c :
    sy_tasks s !! t = Some FsGate →
    flush_fail elapsed (Timeout timeout) true (sy_coord s) = (r, c) →
    flush_ends t s r (with_tasks (sy_gate s) (delete t (sy_tasks s)) (with_coord c s))
| fe_nothing elapsed :
    sy_tasks s !! t = Some FsHeld → flush_collect (sy_coord s) = Ok [] →
    flush_ends t s (Ok (idle_report elapsed))
      (with_tasks GateFree (delete t (sy_tasks s)) s)
| fe_unreadable r :
    sy_tasks s !! t = Some FsHeld → flush_collect (sy_coord s) = r → (∀ d, r ≠ Ok d) →
    flush_ends t s (let? _ := r in Panic) (with_tasks GateFree (delete t (sy_tasks s)) s)
| fe_begin_error b r c :
    sy_tasks s !! t = Some (FsCollected b) → flush_begin_attempt (sy_coord s) = (r, c) →
    r ≠ Ok tt →
    flush_ends t s (let? _ := r in Panic)
      (with_tasks GateFree (delete t (sy_tasks s)) (with_coord c s))
| fe_commit b elapsed r c :
    sy_tasks s !! t = Some (FsReplied b SaveOk) →
    flush_commit b.*1 elapsed (sy_coord s) = (r, c) →
    flush_ends t s r (with_tasks (sy_gate s) (delete t (sy_tasks s)) (with_coord c s))
| fe_fail b reply error elapsed r c :
    sy_tasks s !! t = Some (FsReplied b reply) → reply_error timeout reply = Some error →
    flush_fail elapsed error false (sy_coord s) = (r, c) →
    flush_ends t s r (with_tasks (sy_gate s) (delete t (sy_tasks s)) (with_coord c s)).

(** ** The loop *)

(** [Drop for CheckpointInner]: unless the loop holds it for a flush. *)
Definition freed (r : Runtime) : bool :=
  match rt_handles r, rt_loop r with
  | O, LoopFlush _ => false
  | O, _ => true
  | S _, _ => false
  end.
Definition drop_handle (r : Runtime) : Runtime :=
  let r := with_handles (pred (rt_handles r)) r in
  if freed r then send_stop r else r.

(** The branch of [cancel.changed()], which is ready with a change or a closed channel. *)
Definition loop_changed (r : Runtime) : option Runtime :=
  match rt_loop r with
  | LoopSelect =>
      if rt_unseen r then
        let r := mkRuntime (rt_system r) (rt_handles r) (rt_cancel r) false (rt_loop r)
                   (rt_handle r) (rt_calls r) in
        Some (if rt_cancel r then with_loop LoopReturned r else r)
      else if freed r then Some (with_loop LoopReturned r)
      else None
  | _ => None
  end.
(** A tick: the first one is not in the [select]; a later one flushes, as the call [t], if
    the coordinator is still there. *)
Definition loop_tick (t : nat) (r : Runtime) : option Runtime :=
  match rt_loop r with
  | LoopStart => Some (with_loop LoopSelect r)
  | LoopSelect =>
      Some (if freed r then with_loop LoopReturned r
            else match flush_begin t 0 (rt_system r) with
                 | inl s => with_loop (LoopFlush t) (with_system s r)
                 | inr _ => r
                 end)
  | _ => None
  end.
(** The end of its flush, whose result is ignored: the upgraded handle is dropped. *)
Definition loop_flushed (s : System) (r : Runtime) : Runtime :=
  let r := with_loop LoopSelect (with_system s r) in
  if freed r then send_stop r else r.

(** ** [shutdown] *)
Definition shutdown_begin (r : Runtime) : Runtime :=
  let r := send_stop r in
  with_calls (rt_calls r ++ [mkShutdown SdLock (rt_system r)]) r.
(** The final flush, as the call [t]. *)
Definition shutdown_flush (k t : nat) (elapsed : Duration) (c : ShutdownCall) (r : Runtime)
    : Runtime :=
  match flush_begin t elapsed (rt_system r) with
  | inl s => with_stage k c (SdFlush t) (with_system s r)
  | inr x => with_stage k c (SdReturned x) r
  end.
Definition shutdown_lock (k t : nat) (elapsed : Duration) (c : ShutdownCall) (r : Runtime)
    : option Runtime :=
  match rt_handle r with
  | HandleHere => Some (with_stage k c SdJoin (with_handle (HandleTaken k) r))
  | HandleTaken _ => None
  | HandleNone | HandleDropped => Some (shutdown_flush k t elapsed c r)
  end.
Definition shutdown_join (k t : nat) (elapsed : Duration) (c : ShutdownCall) (r : Runtime)
    : option Runtime :=
  match rt_loop r with
  | LoopReturned => Some (shutdown_flush k t elapsed c (with_handle HandleNone r))
  | _ => None
  end.

(** ** The steps *)
Definition pending (c : ShutdownCall) : bool :=
  match sd_stage c with SdReturned _ | SdDropped => false | _ => true end.
(** The flush calls of the loop and of [shutdown]. *)
Definition call_flush (c : ShutdownCall) : option nat :=
  match sd_stage c with SdFlush t => Some t | _ => None end.
Definition owned (r : Runtime) (t : nat) : Prop :=
  rt_loop r = LoopFlush t ∨ ∃ k c, rt_calls r !! k = Some c ∧ call_flush c = Some t.
Definition unused (r : Runtime) (t : nat) : Prop := sy_tasks (rt_system r) !! t = None.

Inductive rt_step : Runtime → Runtime → Prop :=
| rs_system r s :
    sys_step uuid timeout (rt_system r) s →
    (∀ t, owned r t → is_Some (sy_tasks s !! t)) → rt_step r (with_system s r)
| rs_changed r r' : loop_changed r = Some r' → rt_step r r'
| rs_tick r r' t : unused r t → loop_tick t r = Some r' → rt_step r r'
| rs_flushed r t x s :
    rt_loop r = LoopFlush t → flush_ends t (rt_system r) x s → rt_step r (loop_flushed s r)
| rs_shutdown r : (0 < rt_handles r)%nat → rt_step r (shutdown_begin r)
| rs_lock r k c t elapsed r' :
    rt_calls r !! k = Some c → sd_stage c = SdLock → unused r t →
    shutdown_lock k t elapsed c r = Some r' → rt_step r r'
| rs_join r k c t elapsed r' :
    rt_calls r !! k = Some c → sd_stage c = SdJoin → unused r t →
    shutdown_join k t elapsed c r = Some r' → rt_step r r'
| rs_final r k c t x s :
    rt_calls r !! k = Some c → sd_stage c = SdFlush t → flush_ends t (rt_system r) x s →
    rt_step r (with_stage k c (SdReturned x) (with_system s r))
| rs_drop_lock r k c :
    rt_calls r !! k = Some c → sd_stage c = SdLock → rt_step r (with_stage k c SdDropped r)
| rs_drop_join r k c :
    rt_calls r !! k = Some c → sd_stage c = SdJoin →
    rt_step r (with_stage k c SdDropped (with_handle HandleDropped r))
| rs_drop_gate r k c t :
    rt_calls r !! k = Some c → sd_stage c = SdFlush t →
    sy_tasks (rt_system r) !! t = Some FsGate →
    rt_step r (with_stage k c SdDropped (with_system (with_tasks (sy_gate (rt_system r))
      (delete t (sy_tasks (rt_system r))) (rt_system r)) r))
| rs_drop_saving r k c t b :
    rt_calls r !! k = Some c → sd_stage c = SdFlush t →
    sy_tasks (rt_system r) !! t = Some (FsSaving b) →
    rt_step r (with_stage k c SdDropped (with_system (with_tasks (GateSaving None b)
      (delete t (sy_tasks (rt_system r))) (rt_system r)) r))
| rs_clone r : (0 < rt_handles r)%nat → rt_step r (with_handles (S (rt_handles r)) r)
| rs_drop_handle r :
    (0 < rt_handles r)%nat →
    (rt_handles r = 1%nat → ∀ k c, rt_calls r !! k = Some c → pending c = false) →
    rt_step r (drop_handle r).

Definition rt_reachable (r : Runtime) : Prop :=
  ∃ automatic s0, sys_init uuid s0 ∧ rtc rt_step (spawn_scheduler automatic s0) r.
End Runtime.
