(* ===== verification/SchedulerSpec.v ===== *)
(** * The flush scheduler: what a flush and a [shutdown] guarantee

    Over one step of the system of [CheckpointFlush] the states of the vBuckets evolve, the
    store never goes back, and only current positions are collected; so a flush that succeeds
    has secured everything that was processed when it began.  The invariant of [Scheduler]
    carries this through the loop and the calls of [shutdown], and a rank shows that every
    call can return. *)
From S2P Require Import Prelude Types Frame Errors Event Checkpoint Config.
From S2P Require Import CheckpointRuntime CheckpointSpec CheckpointFlush Scheduler.

(** ** Lemmas: one step of the system *)
Section Steps.
Context (uuid : string) (timeout : Duration).

Lemma evolves_trans v1 v2 v3 : evolves v1 v2 → evolves v2 v3 → evolves v1 v3.
Proof.
  intros [G1 S1 R1 C1 P1] [G2 S2 R2 C2 P2]. split; [lia| |lia|..].
  - intros Hg Hm. rewrite S2 by lia. apply S1; lia.
  - intros Hr c Hc. apply C2; [lia|]. apply C1; [lia|done].
  - intros Hr. etrans; [apply P1; lia|apply P2; lia].
Qed.

Definition views_evolve (s s' : System) : Prop :=
  ∀ vb v, view s vb = Some v → ∃ v', view s' vb = Some v' ∧ evolves v v'.
Lemma views_same s s' : (∀ vb, view s' vb = view s vb) → views_evolve s s'.
Proof. intros Hs vb v Hv. exists v. rewrite Hs. split; [done|apply evolves_refl]. Qed.
Lemma metrics_views s g ts c :
  cs_partitions c = cs_partitions (sy_coord s) →
  views_evolve s (with_tasks g ts (with_coord c s)).
Proof. intros Hc. apply views_same. intros vb. unfold view, rebases. cbn. by rewrite Hc. Qed.
Lemma fail_views s g ts elapsed error b r c :
  sys_inv uuid s → flush_fail elapsed error b (sy_coord s) = (r, c) →
  views_evolve s (with_tasks g ts (with_coord c s)).
Proof.
  intros Hinv Hf. apply metrics_views.
  by apply (flush_fail_partitions _ _ _ _ _ _ (co_poison _ _ (si_coord _ _ Hinv))) in Hf as (_ & ? & _).
Qed.
Lemma begin_views s g ts r c :
  sys_inv uuid s → flush_begin_attempt (sy_coord s) = (r, c) →
  views_evolve s (with_tasks g ts (with_coord c s)).
Proof.
  intros Hinv Hf. apply metrics_views.
  by apply (begin_attempt_partitions _ _ _ (co_poison _ _ (si_coord _ _ Hinv))) in Hf as (_ & ? & _).
Qed.
Lemma coord_step_views s s' : coord_step uuid s s' → views_evolve s s'.
Proof. intros Hc vb v (v' & ? & ? & _)%(cp_views _ _ _ Hc). eauto. Qed.
Lemma commit_views s t b elapsed r c g ts :
  sys_inv uuid s → sy_tasks s !! t = Some (FsReplied b SaveOk) →
  flush_commit b.*1 elapsed (sy_coord s) = (r, c) →
  views_evolve s (with_tasks g ts (with_coord c s)).
Proof.
  intros Hinv Ht. unfold flush_commit, with_lock.
  rewrite (co_poison _ _ (si_coord _ _ Hinv)).
  destruct (commit_saved_spec b.*1 (cs_partitions (sy_coord s))) as (ps' & -> & Hps').
  { intros d (i & -> & Hi)%list_elem_of_fmap.
    pose proof (si_stages _ _ Hinv t _ Ht) as Hall. rewrite Forall_forall in Hall.
    destruct (Hall i Hi) as (v & Hv & _). apply view_Some in Hv as (-> & _). by eexists. }
  cbn [set_partitions cs_partitions cs_metrics]. intros [= <- <-] vb v Hv.
  apply view_Some in Hv as (Hp & HL & Hn). specialize (Hps' vb). rewrite Hp in Hps'.
  destruct Hps' as (p' & Hp' & (d & g' & Hs) & _).
  exists (mkView p' (vw_ledger v) (vw_rebases v)). split; [by apply view_Some|].
  split; cbn; rewrite ?Hs; done.
Qed.

Lemma step_views s s' : sys_inv uuid s → sys_step uuid timeout s s' → views_evolve s s'.
Proof.
  intros Hinv Hstep. pose proof (si_coord _ _ Hinv) as Hco.
  pose proof (co_poison _ _ Hco) as Hpo.
  destruct Hstep; try by apply views_same.
  - eapply coord_step_views. by eapply track_coord_step.
  - eapply coord_step_views. by eapply ack_coord_step.
  - eapply coord_step_views. by eapply mark_dirty_coord_step.
  - eapply coord_step_views. by eapply rebase_coord_step.
  - by eapply fail_views.
  - by eapply begin_views.
  - by eapply begin_views.
  - by eapply commit_views.
  - by eapply fail_views.
Qed.

(** The store never goes back to an older generation. *)
Lemma step_store_gen s s' vb :
  sys_inv uuid s → sys_step uuid timeout s s' →
  store_gen (sy_store s) vb ≤ store_gen (sy_store s') vb.
Proof.
  intros Hinv Hstep. destruct Hstep as [| | | | | | | | | | |s w b i Hgate Hi| | | | | | |];
    try done. pose proof (si_fresh _ _ Hinv) as [Hf _]. rewrite Hgate in Hf.
  destruct (Hf i Hi) as [_ Hle]. unfold store_gen, write_item in *. cbn.
  destruct (decide (vb = dc_vbucket i.1)) as [-> |Hne].
  - by rewrite lookup_insert_eq.
  - by rewrite lookup_insert_ne.
Qed.

(** The checkpoints under way to the store, and those of the coordinator in it. *)
Inductive holds_item (s : System) (i : Item) : Prop :=
| hi_store e :
    sy_store s !! dc_vbucket i.1 = Some e → se_checkpoint e = dc_checkpoint i.1 →
    se_tag e = Some (i.2, dc_generation i.1) → holds_item s i
| hi_stage t f : sy_tasks s !! t = Some f → i ∈ stage_batch f → holds_item s i
| hi_gate w b : sy_gate s = GateSaving w b → i ∈ b → holds_item s i.

Lemma holds_item_ok s i : sys_inv uuid s → holds_item s i → item_ok s i.
Proof.
  intros Hinv [e He Hc Ht|t f Ht Hi|w b Hg Hi].
  - pose proof (si_store _ _ Hinv _ e _ _ He Ht) as Hok. rewrite Hc in Hok.
    by destruct i as [[] ?].
  - pose proof (si_stages _ _ Hinv t f Ht) as Hall. rewrite Forall_forall in Hall. by apply Hall.
  - pose proof (si_fresh _ _ Hinv) as [Hf _]. rewrite Hg in Hf. by apply Hf.
Qed.

(** A step only adds what it collects: the current positions. *)
Definition current (s : System) (i : Item) : Prop :=
  ∃ v, view s (dc_vbucket i.1) = Some v
    ∧ i = (mkDirty (dc_vbucket i.1) (ps_processed (vw_part v)) (ps_generation (vw_part v)),
           vw_rebases v).
Lemma tag_batch_current s dirty i :
  sys_inv uuid s → flush_collect (sy_coord s) = Ok dirty → i ∈ tag_batch s dirty → current s i.
Proof.
  intros Hinv. pose proof (si_coord _ _ Hinv) as Hco. unfold flush_collect, read_lock.
  rewrite (co_poison _ _ Hco). intros [= <-] (d & -> & Hd)%list_elem_of_fmap.
  apply collect_dirty_elem in Hd as (p & Hp & _ & Heq). cbn.
  destruct (view_of_partition _ _ _ _ Hco Hp) as (v & Hv & <- & _). exists v. cbn.
  split; [done|]. apply view_Some in Hv as (_ & _ & ->). by rewrite Heq.
Qed.

Lemma keep_items s s' i :
  sy_store s' = sy_store s →
  (∀ t f, sy_tasks s' !! t = Some f → i ∈ stage_batch f → holds_item s i) →
  (∀ w b, sy_gate s' = GateSaving w b → i ∈ b → holds_item s i) →
  holds_item s' i → holds_item s i ∨ current s i.
Proof.
  intros Es Ht Hg [e He Hc Htag|t f Hf Hi|w b Hw Hi].
  - rewrite Es in He. left. by eapply hi_store.
  - left. by eapply Ht.
  - left. by eapply Hg.
Qed.
Lemma step_items s s' i :
  sys_inv uuid s → sys_step uuid timeout s s' → holds_item s' i → holds_item s i ∨ current s i.
Proof.
  intros Hinv Hstep. pose proof (si_gate _ _ Hinv) as Hgo.
  assert (∀ t f, sy_tasks s !! t = Some f → i ∈ stage_batch f → holds_item s i) as Hst
    by (intros; by eapply hi_stage).
  assert (∀ w b, sy_gate s = GateSaving w b → i ∈ b → holds_item s i) as Hgt
    by (intros; by eapply hi_gate).
  assert (∀ t t' f, delete t (sy_tasks s) !! t' = Some f → i ∈ stage_batch f → holds_item s i)
    as Hdel by (intros t t' f [_ Hl]%lookup_delete_Some; by apply (Hst t')).
  assert (∀ t f0, (i ∈ stage_batch f0 → holds_item s i) → ∀ t' f,
    <[t := f0]> (sy_tasks s) !! t' = Some f → i ∈ stage_batch f → holds_item s i) as Hins.
  { intros t f0 H0 t' f [[<- <-]|[_ Hl]]%lookup_insert_Some; [done|by apply (Hst t')]. }
  destruct Hstep as
    [s e r c Hop|s t r c Hop|s vb r c Hop|s eff r c Hop|s t Hn _|s t el r c Ht Hop|s t Ht Hfree
    |s t dirty Ht Hc _|s t r Ht _ _|s t b c Ht Hop|s t b r c Ht Hop _|s w b j Hgate Hj
    |s w b Hgate Hw|s w b r Hgate Hr|s t b Ht|s t b el r c Ht Hop|s t b reply err el r c Ht _ Hop
    |s t Ht|s t b Ht];
    try (by apply keep_items; [done|first [exact Hst|apply Hdel]|first [exact Hgt|intros ? ? [=]]]).
  - apply keep_items; [done| |done]. apply Hins. by intros ?%elem_of_nil.
  - apply keep_items; [done| |done]. apply Hins. by intros ?%elem_of_nil.
  - intros [e He Hc' Htag|t' f Hf Hi|w b Hw Hi]; [left; by eapply hi_store| |done].
    cbn in Hf. apply lookup_insert_Some in Hf as [[<- <-]|[_ Hl]]; [|left; by eapply hi_stage].
    right. by eapply tag_batch_current.
  - pose proof (Hst t _ Ht) as Hb. apply keep_items; [done|by apply Hins|].
    by intros w b' [= <- <-].
  - intros [e He Hc' Htag|t' f Hf Hi|w' b' Hw Hi];
      [|left; by eapply hi_stage|left; by eapply hi_gate].
    cbn in He. unfold write_item in He.
    apply lookup_insert_Some in He as [[Hv <-]|[_ He]]; [|left; by eapply hi_store].
    left. cbn in Hc', Htag. injection Htag as E1 E2.
    assert (i = j) as -> by (destruct i as [[] ?], j as [[] ?]; cbn in *; congruence).
    by eapply hi_gate.
  - apply keep_items; [done| |done]. destruct w as [t|]; cbn [deliver_reply]; [|done].
    apply Hins. by apply (Hgt _ _ Hgate).
  - apply keep_items; [done| |done]. destruct w as [t|]; cbn [deliver_reply]; [|done].
    apply Hins. by apply (Hgt _ _ Hgate).
  - pose proof (Hst t _ Ht) as Hb. apply keep_items; [done|by apply Hins|].
    by intros w b' [= <- <-].
  - pose proof (Hst t _ Ht) as Hb. apply keep_items; [done|apply Hdel|].
    by intros w b' [= <- <-].
Qed.

(** ** Lemmas: what a flush guarantees *)

(** Since [v0] was the state of the vBucket: unless it is rebased, whatever goes to the store
    under that or a later generation is not behind the position it had. *)
Definition since (vb : Z) (v0 : View) (s : System) : Prop :=
  ∃ v, view s vb = Some v ∧ evolves v0 v
    ∧ (vw_rebases v = vw_rebases v0 → ∀ i, holds_item s i → dc_vbucket i.1 = vb →
       ps_generation (vw_part v0) ≤ dc_generation i.1 < u64_max →
       ck_seqno (ps_processed (vw_part v0)) ≤ ck_seqno (dc_checkpoint i.1)).
Definition since_all (s0 s : System) : Prop :=
  ∀ vb v0, view s0 vb = Some v0 → since vb v0 s.

Lemma since_refl s : sys_inv uuid s → since_all s s.
Proof.
  intros Hinv vb v Hv. exists v. split_and!; [done|apply evolves_refl|].
  intros _ i Hi <- [H1 H2]. destruct (holds_item_ok _ _ Hinv Hi) as (v' & Hv' & H3 & H4 & _).
  rewrite Hv in Hv'. injection Hv' as <-. rewrite H4 by lia. done.
Qed.
Lemma since_step s0 s s' :
  sys_inv uuid s → sys_step uuid timeout s s' → since_all s0 s → since_all s0 s'.
Proof.
  intros Hinv Hstep Hs vb v0 Hv0. destruct (Hs vb v0 Hv0) as (v & Hv & He & Hi).
  destruct (step_views _ _ Hinv Hstep vb v Hv) as (v' & Hv' & He').
  exists v'. split; [done|]. split; [by eapply evolves_trans|].
  intros Hr i Hitem Hvb Hgen. pose proof (ev_rebases _ _ He). pose proof (ev_rebases _ _ He').
  destruct (step_items _ _ _ Hinv Hstep Hitem) as [Hold|(w & Hw & Heq)].
  - apply Hi; [lia|done..].
  - rewrite Hvb, Hv in Hw. injection Hw as <-. rewrite Heq. cbn. apply (ev_progress _ _ He). lia.
Qed.

(** What a flush has secured: of a stage behind the collection, every generation up to the
    one at [s0] is in the store or in the batch. *)
Definition flush_goal (s0 : System) (f : FlushStage) (s : System) : Prop :=
  match f with
  | FsGate | FsHeld => True
  | FsCollected b | FsSaving b | FsReplied b _ => ∀ vb v0, view s0 vb = Some v0 →
      ps_generation (vw_part v0) ≤ store_gen (sy_store s) vb
      ∨ ∃ i, i ∈ b ∧ dc_vbucket i.1 = vb ∧ ps_generation (vw_part v0) ≤ dc_generation i.1
  end.
Definition secured (s0 s : System) : Prop :=
  ∀ vb v0, view s0 vb = Some v0 → ps_generation (vw_part v0) ≤ store_gen (sy_store s) vb.

(** A clean vBucket is in the store under its generation. *)
Lemma clean_store_gen s vb v :
  sys_inv uuid s → view s vb = Some v → is_dirty (vw_part v) = false →
  ps_generation (vw_part v) ≤ store_gen (sy_store s) vb.
Proof.
  intros Hinv Hv Hd. pose proof (si_durable _ _ Hinv vb v Hv). unfold is_dirty in Hd.
  apply orb_false_iff in Hd as [Hd _]. apply negb_false_iff, Z.eqb_eq in Hd. lia.
Qed.
Lemma collect_goal s0 s dirty :
  sys_inv uuid s → since_all s0 s → flush_collect (sy_coord s) = Ok dirty →
  ∀ vb v0, view s0 vb = Some v0 →
    ps_generation (vw_part v0) ≤ store_gen (sy_store s) vb
    ∨ ∃ i, i ∈ tag_batch s dirty ∧ dc_vbucket i.1 = vb
        ∧ ps_generation (vw_part v0) ≤ dc_generation i.1.
Proof.
  intros Hinv Hs Hc vb v0 Hv0. destruct (Hs vb v0 Hv0) as (v & Hv & He & _).
  pose proof (ev_gen _ _ He) as Hg. destruct (is_dirty (vw_part v)) eqn:Hd.
  - right. exists (mkDirty vb (ps_processed (vw_part v)) (ps_generation (vw_part v)), rebases s vb).
    split_and!; [|done|done]. unfold flush_collect, read_lock in Hc.
    rewrite (co_poison _ _ (si_coord _ _ Hinv)) in Hc. injection Hc as <-.
    apply list_elem_of_fmap.
    exists (mkDirty vb (ps_processed (vw_part v)) (ps_generation (vw_part v))). split; [done|].
    apply collect_dirty_elem. exists (vw_part v). cbn. split_and!; [|done|done].
    by apply view_Some in Hv as (-> & _).
  - left. etrans; [exact Hg|]. by apply clean_store_gen.
Qed.

Lemma goal_step s0 s s' t f f' :
  sys_inv uuid s → since_all s0 s → sys_step uuid timeout s s' →
  sy_tasks s !! t = Some f → flush_goal s0 f s → sy_tasks s' !! t = Some f' →
  flush_goal s0 f' s'.
Proof.
  intros Hinv Hs Hstep Hf Hgoal Hf'.
  assert (∀ vb, store_gen (sy_store s) vb ≤ store_gen (sy_store s') vb) as Hm
    by (intros vb; by apply step_store_gen).
  assert (f' = f → flush_goal s0 f' s') as Hsame.
  { intros ->. destruct f; [done|done|..]; intros vb v0 Hv0;
      (destruct (Hgoal vb v0 Hv0) as [Hl|?]; [left; etrans; [exact Hl|apply Hm]|by right]). }
  pose proof (si_gate _ _ Hinv) as Hgo.
  destruct Hstep as
    [s e r c Hop|s t0 r c Hop|s vb0 r c Hop|s eff r c Hop|s t0 Hn _|s t0 el r c Ht Hop|s t0 Ht Hfree
    |s t0 dirty Ht Hc _|s t0 r Ht _ _|s t0 b c Ht Hop|s t0 b r c Ht Hop _|s w b i Hgate Hi
    |s w b Hgate Hw|s w b r Hgate Hr|s t0 b Ht|s t0 b el r c Ht Hop|s t0 b reply err el r c Ht _ Hop
    |s t0 Ht|s t0 b Ht]; cbn in Hf';
    try (apply lookup_delete_Some in Hf' as [_ Hf']); try (apply Hsame; congruence).
  - apply lookup_insert_Some in Hf' as [[<- <-]|[_ Hl]]; [done|apply Hsame; congruence].
  - apply lookup_insert_Some in Hf' as [[<- <-]|[_ Hl]]; [done|apply Hsame; congruence].
  - apply lookup_insert_Some in Hf' as [[<- <-]|[_ Hl]]; [|apply Hsame; congruence].
    exact (collect_goal s0 s dirty Hinv Hs Hc).
  - apply lookup_insert_Some in Hf' as [[<- <-]|[_ Hl]]; [|apply Hsame; congruence].
    rewrite Hf in Ht. injection Ht as ->. exact Hgoal.
  - destruct w as [t0|]; cbn in Hf'; [|apply Hsame; congruence].
    apply lookup_insert_Some in Hf' as [[<- <-]|[_ Hl]]; [|apply Hsame; congruence].
    rewrite Hgate in Hgo. rewrite (go_saving _ _ Hgo _ _ eq_refl) in Hf.
    injection Hf as <-. exact Hgoal.
  - destruct w as [t0|]; cbn in Hf'; [|apply Hsame; congruence].
    apply lookup_insert_Some in Hf' as [[<- <-]|[_ Hl]]; [|apply Hsame; congruence].
    rewrite Hgate in Hgo. rewrite (go_saving _ _ Hgo _ _ eq_refl) in Hf.
    injection Hf as <-. exact Hgoal.
  - apply lookup_insert_Some in Hf' as [[<- <-]|[_ Hl]]; [|apply Hsame; congruence].
    rewrite Hf in Ht. injection Ht as ->. exact Hgoal.
Qed.

(** The ends of a flush are steps of the system, and a result is only good when everything
    is secured. *)
Lemma flush_ends_step t s x s' :
  flush_ends timeout t s x s' → sys_step uuid timeout s s' ∧ sy_tasks s' = delete t (sy_tasks s).
Proof.
  intros [el r c Ht Hf|el Ht Hc|r Ht Hc Hn|b r c Ht Hb Hn|b el r c Ht Hc|b reply err el r c Ht Hr Hf];
    (split; [|done]).
  - by eapply ss_gate_timeout.
  - by eapply ss_collect_nothing; [done|exact Hc|].
  - eapply ss_collect_nothing; [done|exact Hc|]. intros d ds. apply Hn.
  - by eapply ss_begin_error.
  - by eapply ss_commit.
  - by eapply ss_fail.
Qed.
Lemma flush_fail_err elapsed error b c report c' : flush_fail elapsed error b c ≠ (Ok report, c').
Proof. unfold flush_fail. by destruct (record_flush_failure _ _ _ _) as [[[]|?|] ?]. Qed.
Lemma flush_ends_secured s0 t s f report s' :
  sys_inv uuid s → since_all s0 s → sy_tasks s !! t = Some f → flush_goal s0 f s →
  flush_ends timeout t s (Ok report) s' → secured s0 s'.
Proof.
  intros Hinv Hs Hf Hgoal He.
  inversion He as [el r c Ht Hff|el Ht Hc|r Ht Hc Hn Hr|b r c Ht Hb Hn Hr|b el r c Ht Hc
    |b reply err el r c Ht Hr Hff]; subst; intros vb v0 Hv0.
  - by apply flush_fail_err in Hff.
  - destruct (collect_goal s0 s [] Hinv Hs Hc vb v0 Hv0) as [?|(i & Hi%elem_of_nil & _)]; done.
  - by destruct (flush_collect (sy_coord s)).
  - by destruct r.
  - rewrite Hf in Ht. injection Ht as ->. cbn. destruct (Hgoal vb v0 Hv0) as [Hl|(i & Hi & <- & Hl)]; [done|].
    etrans; [exact Hl|]. by apply (si_replied _ _ Hinv t b).
  - by apply flush_fail_err in Hff.
Qed.
(** Nothing to flush: everything is in the store already. *)
Lemma idle_secured s0 s :
  sys_inv uuid s → since_all s0 s → flush_has_dirty (sy_coord s) = Ok false → secured s0 s.
Proof.
  intros Hinv Hs Hd vb v0 Hv0. pose proof (si_coord _ _ Hinv) as Hco.
  destruct (has_dirty_spec (sy_coord s) (co_poison _ _ Hco)) as (b & Hb & Hiff).
  rewrite Hd in Hb. injection Hb as <-.
  destruct (decide (collect_dirty (cs_partitions (sy_coord s)) = [])) as [Hc|Hc].
  - destruct (collect_goal s0 s [] Hinv Hs) with vb v0 as [?|(i & Hi%elem_of_nil & _)]; try done.
    unfold flush_collect, read_lock. by rewrite (co_poison _ _ Hco), Hc.
  - by apply Hiff in Hc.
Qed.
Lemma secured_step s0 s s' :
  sys_inv uuid s → sys_step uuid timeout s s' → secured s0 s → secured s0 s'.
Proof.
  intros Hinv Hstep Hs vb v0 Hv0. etrans; [by apply Hs|by apply step_store_gen].
Qed.

(** What is secured is in the store. *)
Lemma secured_stored s0 s vb v0 :
  sys_inv uuid s → since_all s0 s → secured s0 s → view s0 vb = Some v0 →
  0 < ps_generation (vw_part v0) →
  ∃ v, view s vb = Some v ∧ evolves v0 v
    ∧ (vw_rebases v = vw_rebases v0 → ps_generation (vw_part v) < u64_max →
       ∃ e, sy_store s !! vb = Some e
         ∧ ck_seqno (ps_processed (vw_part v0)) ≤ ck_seqno (se_checkpoint e)).
Proof.
  intros Hinv Hs Hsec Hv0 Hpos. destruct (Hs vb v0 Hv0) as (v & Hv & He & Hi).
  exists v. split_and!; [done..|]. intros Hr Hmax. specialize (Hsec vb v0 Hv0).
  pose proof (store_gen_le _ _ vb v Hinv Hv) as Hle. unfold store_gen in *.
  destruct (sy_store s !! vb) as [e|] eqn:Hst; cbn in *; [|lia].
  destruct (se_tag e) as [[n g]|] eqn:Ht; cbn in *; [|lia].
  exists e. split; [done|].
  apply (Hi Hr (mkDirty vb (se_checkpoint e) g, n)); [by eapply hi_store|done|cbn; lia].
Qed.
End Steps.

(** ** The invariant *)
Section Invariant.
Context (uuid : string) (timeout : Duration).

(** The loop is over, unless a call that joined it was dropped. *)
Definition quiet (r : Runtime) : Prop := rt_loop r = LoopReturned ∨ rt_handle r = HandleDropped.
(** The loop is told to stop. *)
Definition stopping (r : Runtime) : Prop :=
  rt_loop r = LoopReturned ∨ rt_cancel r = true ∧ rt_unseen r = true.

Definition stage_ok (s0 s : System) (q : Prop) (f : ShutdownStage) : Prop :=
  match f with
  | SdFlush t => q ∧ ∃ g, sy_tasks s !! t = Some g ∧ flush_goal s0 g s
  | SdReturned x => x ≠ Panic ∧ (is_ok x = true → q ∧ secured s0 s)
  | _ => True
  end.
Record rt_inv (r : Runtime) : Prop := mk_rt_inv {
  ri_system : sys_inv uuid (rt_system r);
  ri_loop : ∀ t, rt_loop r = LoopFlush t → is_Some (sy_tasks (rt_system r) !! t);
  ri_loop_own : ∀ t k c, rt_loop r = LoopFlush t → rt_calls r !! k = Some c →
                call_flush c ≠ Some t;
  ri_call_own : ∀ t k k' c c', rt_calls r !! k = Some c → rt_calls r !! k' = Some c' →
                call_flush c = Some t → call_flush c' = Some t → k = k';
  ri_since : ∀ k c, rt_calls r !! k = Some c → since_all (sd_at c) (rt_system r);
  ri_stage : ∀ k c, rt_calls r !! k = Some c →
             stage_ok (sd_at c) (rt_system r) (quiet r) (sd_stage c);
  ri_joining : ∀ k c, rt_calls r !! k = Some c →
               sd_stage c = SdJoin ↔ rt_handle r = HandleTaken k;
  ri_taken : ∀ k, rt_handle r = HandleTaken k → is_Some (rt_calls r !! k);
  ri_none : rt_handle r = HandleNone → rt_loop r = LoopReturned;
  ri_stopping : rt_calls r ≠ [] → stopping r
}.

(** *** Steps of the system below *)
Lemma stage_ok_mono s0 s (q q' : Prop) f : (q → q') → stage_ok s0 s q f → stage_ok s0 s q' f.
Proof.
  intros Hq. destruct f as [| |t|x|]; cbn; [done|done| | |done].
  - intros [? ?]. auto.
  - intros [? Hs]. split; [done|]. intros [? ?]%Hs. auto.
Qed.
Lemma stage_ok_step s0 s s' (q : Prop) f :
  sys_inv uuid s → since_all s0 s → sys_step uuid timeout s s' →
  (∀ t, f = SdFlush t → is_Some (sy_tasks s' !! t)) →
  stage_ok s0 s q f → stage_ok s0 s' q f.
Proof.
  intros Hinv Hs Hstep Hk. destruct f as [| |t|x|]; cbn; [done|done| | |done].
  - intros (Hq & g & Hg & Hgoal). split; [done|]. destruct (Hk t eq_refl) as [g' Hg'].
    exists g'. split; [done|]. by eapply (goal_step uuid timeout s0 s s' t g g').
  - intros [Hp Hsec]. split; [done|]. intros [? ?]%Hsec. split; [done|].
    by eapply secured_step.
Qed.

(** A step of the system that ends no flush of the loop or of a call. *)
Lemma system_inv r s :
  rt_inv r → sys_step uuid timeout (rt_system r) s →
  (∀ t, owned r t → is_Some (sy_tasks s !! t)) → rt_inv (with_system s r).
Proof.
  intros [I1 I2 I3 I4 I5 I6 I7 I8 I9 I10] Hstep Hown. split; try done; cbn.
  - by eapply step_inv.
  - intros t Ht. apply Hown. by left.
  - intros k c Hc. by eapply since_step, I5.
  - intros k c Hc. eapply stage_ok_step; [exact I1|by eapply I5|exact Hstep| |by apply (I6 k)].
    intros t Ht. apply Hown. right. exists k, c. split; [done|]. unfold call_flush. by rewrite Ht.
Qed.

(** A flush of the loop or a call ends: the others go on. *)
Lemma ends_keeps t x s s' f t' :
  flush_ends timeout t s x s' → t' ≠ t → sy_tasks s !! t' = Some f → sy_tasks s' !! t' = Some f.
Proof.
  intros [_ ->]%(flush_ends_step uuid) Hne Hf. by rewrite lookup_delete_ne.
Qed.

(** *** Changes of the loop and of the handles *)
Definition same_calls (r r' : Runtime) : Prop :=
  rt_system r' = rt_system r ∧ rt_calls r' = rt_calls r ∧ rt_handle r' = rt_handle r
  ∧ (rt_loop r = LoopReturned → rt_loop r' = LoopReturned) ∧ (stopping r → stopping r')
  ∧ ∀ t, rt_loop r' = LoopFlush t → rt_loop r = LoopFlush t.
Lemma same_calls_inv r r' : same_calls r r' → rt_inv r → rt_inv r'.
Proof.
  intros (E1 & E2 & E3 & E4 & E5 & E6) [I1 I2 I3 I4 I5 I6 I7 I8 I9 I10].
  split; rewrite ?E1, ?E2, ?E3; try done.
  - intros t Ht%E6. by apply I2.
  - intros t k c Ht%E6. by apply I3.
  - intros k c Hc. eapply stage_ok_mono; [|by apply (I6 k)].
    unfold quiet. rewrite E3. intros [?%E4|?]; [by left|by right].
  - intros Hn%I9. by apply E4.
  - intros Hne%I10. by apply E5.
Qed.
Lemma send_stop_same r : same_calls r (send_stop r).
Proof.
  unfold send_stop, same_calls, stopping. destruct (rt_loop r) eqn:Hl; cbn; rewrite ?Hl;
    split_and!; try done; intros _; by right.
Qed.
Lemma same_calls_trans r1 r2 r3 : same_calls r1 r2 → same_calls r2 r3 → same_calls r1 r3.
Proof.
  intros (E1 & E2 & E3 & E4 & E5 & E6) (F1 & F2 & F3 & F4 & F5 & F6).
  split_and!; [congruence..|by auto|by auto|by auto].
Qed.
Lemma with_handles_same n r : same_calls r (with_handles n r).
Proof. done. Qed.
Lemma stop_if_same (b : bool) r : same_calls r (if b then send_stop r else r).
Proof. destruct b; [apply send_stop_same|done]. Qed.
Lemma loop_left_same l r :
  (∀ t, l ≠ LoopFlush t) → (rt_loop r = LoopReturned → l = LoopReturned) →
  same_calls r (with_loop l r).
Proof.
  intros Hl Hr. split_and!; try done; cbn.
  - unfold stopping. cbn. intros [?|?]; [left; by apply Hr|by right].
  - intros t ->. by destruct (Hl t).
Qed.
Lemma changed_same r r' : loop_changed r = Some r' → same_calls r r'.
Proof.
  unfold loop_changed. destruct (rt_loop r) eqn:Hl; try done.
  destruct (rt_unseen r) eqn:Hu.
  - destruct (rt_cancel r) eqn:Hc; cbn; intros [= <-].
    + split_and!; try done. intros _. by left.
    + split_and!; try done; cbn; [congruence|]. intros [?|[? ?]]; congruence.
  - destruct (freed r); [|done]. intros [= <-]. apply loop_left_same; [done|done].
Qed.

(** *** A flush begins *)
Lemma flush_begin_left t elapsed s s' :
  flush_begin t elapsed s = inl s' → sy_tasks s !! t = None →
  sys_step uuid timeout s s' ∧ sy_tasks s' = <[t := FsGate]> (sy_tasks s).
Proof.
  unfold flush_begin. destruct (flush_has_dirty (sy_coord s)) as [[]| |] eqn:Hd; try done.
  intros [= <-] Hn. split; [by apply ss_flush_start|done].
Qed.
Lemma flush_begin_right t elapsed s s0 x :
  sys_inv uuid s → since_all s0 s → flush_begin t elapsed s = inr x →
  x ≠ Panic ∧ (is_ok x = true → secured s0 s).
Proof.
  intros Hinv Hs. unfold flush_begin.
  destruct (flush_has_dirty (sy_coord s)) as [[]|e|] eqn:Hd; intros [= <-].
  - split; [done|]. intros _. by eapply idle_secured.
  - done.
  - unfold flush_has_dirty, read_lock in Hd.
    by rewrite (co_poison _ _ (si_coord _ _ Hinv)) in Hd.
Qed.
Lemma owned_alive r t : rt_inv r → owned r t → is_Some (sy_tasks (rt_system r) !! t).
Proof.
  intros Hinv [Hl|(k & c & Hc & Hf)]; [by eapply ri_loop|].
  pose proof (ri_stage _ Hinv k c Hc) as Hs. unfold call_flush in Hf.
  destruct (sd_stage c); simplify_eq. destruct Hs as (_ & f & Hf' & _). by eexists.
Qed.
Lemma begin_inv r t elapsed s :
  rt_inv r → unused r t → flush_begin t elapsed (rt_system r) = inl s →
  rt_inv (with_system s r) ∧ sy_tasks s !! t = Some FsGate ∧ ¬ owned (with_system s r) t.
Proof.
  intros Hinv Hu Hb. apply flush_begin_left in Hb as [Hstep Ht]; [|done].
  assert (¬ owned r t) as Hno.
  { intros [f Hf]%owned_alive; [|done]. unfold unused in Hu. congruence. }
  split_and!; [|by rewrite Ht, lookup_insert_eq|done].
  apply system_inv; [done..|]. intros t' Ho%owned_alive; [|done]. rewrite Ht.
  destruct (decide (t' = t)) as [-> |]; [by rewrite lookup_insert_eq|by rewrite lookup_insert_ne].
Qed.

(** *** The stage of a call and the handle *)
Definition with_stage_handle (k : nat) (c : ShutdownCall) (f : ShutdownStage) (h : Handle)
    (r : Runtime) : Runtime := with_stage k c f (with_handle h r).
Lemma put_stage_inv r k c f h :
  rt_inv r → rt_calls r !! k = Some c →
  (∀ k', k' ≠ k → h = HandleTaken k' ↔ rt_handle r = HandleTaken k') →
  (f = SdJoin ↔ h = HandleTaken k) →
  (h = HandleNone → rt_loop r = LoopReturned) →
  (rt_handle r = HandleDropped → h = HandleDropped) →
  stage_ok (sd_at c) (rt_system r) (rt_loop r = LoopReturned ∨ h = HandleDropped) f →
  (∀ t, f = SdFlush t → sd_stage c = SdFlush t ∨ ¬ owned r t) →
  rt_inv (with_stage_handle k c f h r).
Proof.
  intros [I1 I2 I3 I4 I5 I6 I7 I8 I9 I10] Hc Hother Hjoin Hnone Hdrop Hok Hfresh.
  assert (∀ k' c', <[k := mkShutdown f (sd_at c)]> (rt_calls r) !! k' = Some c' →
    k' = k ∧ c' = mkShutdown f (sd_at c) ∨ k' ≠ k ∧ rt_calls r !! k' = Some c') as Hl.
  { intros k' c' [(<- & <- & _)|[? ?]]%list_lookup_insert_Some; [by left|by right]. }
  assert (∀ t, call_flush (mkShutdown f (sd_at c)) = Some t →
    call_flush c = Some t ∨ ¬ owned r t) as Hfl.
  { intros t. unfold call_flush. cbn. destruct f; try done. intros [= ->].
    destruct (Hfresh t eq_refl) as [-> |?]; [by left|by right]. }
  assert (∀ k' c' t, rt_calls r !! k' = Some c' → call_flush c' = Some t → owned r t) as Ho
    by (intros k' c' t ? ?; right; by exists k', c').
  split; try done; cbn.
  - intros t k' c' Ht [[-> ->]|[_ Hc']]%Hl; [|by eapply I3].
    intros [Hf|Hf]%Hfl; [by eapply I3|]. apply Hf. by left.
  - intros t k1 k2 c1 c2 [[-> ->]|[N1 H1]]%Hl [[-> ->]|[N2 H2]]%Hl F1 F2; try done.
    + apply Hfl in F1 as [F1|F1]; [by apply (I4 t k k2 c c2)|]. destruct F1. by eapply Ho.
    + apply Hfl in F2 as [F2|F2]; [by apply (I4 t k1 k c1 c)|]. destruct F2. by eapply Ho.
    + by apply (I4 t k1 k2 c1 c2).
  - intros k' c' [[-> ->]|[_ Hc']]%Hl; [exact (I5 k c Hc)|by apply (I5 k')].
  - intros k' c' [[-> ->]|[_ Hc']]%Hl; [done|]. eapply stage_ok_mono; [|by apply (I6 k')].
    intros [?|?%Hdrop]; [by left|by right].
  - intros k' c' [[-> ->]|[Hne Hc']]%Hl; [done|]. rewrite Hother by done. by apply I7.
  - intros k' Hk'. destruct (decide (k' = k)) as [-> |Hne].
    + rewrite list_lookup_insert_eq; [by eexists|]. by eapply lookup_lt_Some.
    + rewrite list_lookup_insert_ne by done. apply I8. by apply Hother.
  - intros Hne. apply I10. intros Hnil. by rewrite Hnil in Hc.
Qed.
Lemma with_handle_same r : with_handle (rt_handle r) r = r.
Proof. by destruct r. Qed.
(** The handle stays as it is. *)
Lemma with_stage_inv r k c f :
  rt_inv r → rt_calls r !! k = Some c → sd_stage c ≠ SdJoin → f ≠ SdJoin →
  stage_ok (sd_at c) (rt_system r) (quiet r) f →
  (∀ t, f = SdFlush t → sd_stage c = SdFlush t ∨ ¬ owned r t) →
  rt_inv (with_stage k c f r).
Proof.
  intros Hinv Hc Hj Hf Hok Hfresh. rewrite <-(with_handle_same r).
  apply put_stage_inv; try done.
  - split; [done|]. intros Ht. destruct Hj. by apply (ri_joining _ Hinv k).
  - apply Hinv.
Qed.

(** *** The loop *)
Lemma tick_inv r r' t : rt_inv r → unused r t → loop_tick t r = Some r' → rt_inv r'.
Proof.
  intros Hinv Hu. unfold loop_tick. destruct (rt_loop r) eqn:Hl; try done.
  - intros [= <-]. eapply same_calls_inv; [|exact Hinv]. apply loop_left_same; [done|congruence].
  - intros [= <-]. destruct (freed r).
    { eapply same_calls_inv; [|exact Hinv]. by apply loop_left_same. }
    destruct (flush_begin t 0 (rt_system r)) as [s|x] eqn:Hb; [|done].
    destruct (begin_inv r t 0 s Hinv Hu Hb) as (Hinv' & Ht & Hno).
    pose proof Hinv' as [I1 I2 I3 I4 I5 I6 I7 I8 I9 I10].
    assert (rt_handle r = HandleNone → False) as Hnn by (intros Hn%I9; cbn in Hn; congruence).
    split; try done; cbn in *.
    + intros t' [= <-]. by eexists.
    + intros t' k c [= <-] Hc Hf. apply Hno. right. by exists k, c.
    + intros k c Hc. eapply stage_ok_mono; [|by apply (I6 k)]. unfold quiet. cbn.
      intros [?|?]; [congruence|by right].
    + intros Hc%I10. destruct Hc as [?|?]; cbn in *; [congruence|by right].
Qed.
Lemma flushed_inv r t x s :
  rt_inv r → rt_loop r = LoopFlush t → flush_ends timeout t (rt_system r) x s →
  rt_inv (loop_flushed s r).
Proof.
  intros Hinv Hl He. pose proof (flush_ends_step uuid _ _ _ _ _ He) as [Hstep Hts].
  unfold loop_flushed. eapply same_calls_inv; [apply stop_if_same|].
  destruct Hinv as [I1 I2 I3 I4 I5 I6 I7 I8 I9 I10]. split; try done; cbn.
  - by eapply step_inv.
  - intros k c Hc. by eapply since_step, I5.
  - intros k c Hc. eapply stage_ok_mono; [|eapply stage_ok_step;
      [exact I1|by eapply I5|exact Hstep| |by apply (I6 k)]].
    + unfold quiet. cbn. intros [?|?]; [congruence|by right].
    + intros t' Ht'. rewrite Hts. assert (t' ≠ t) as Hne.
      { intros ->. apply (I3 t k c Hl Hc). unfold call_flush. by rewrite Ht'. }
      rewrite lookup_delete_ne by done. pose proof (I6 k c Hc) as Hok. rewrite Ht' in Hok.
      destruct Hok as (_ & f & ? & _). by eexists.
  - intros Hn%I9. congruence.
  - intros Hc%I10. destruct Hc as [?|?]; [congruence|by right].
Qed.

(** *** The calls *)
Lemma shutdown_begin_inv r : rt_inv r → rt_inv (shutdown_begin r).
Proof.
  intros Hinv. pose proof (send_stop_same r) as Hsame.
  apply (same_calls_inv _ _ Hsame) in Hinv. unfold shutdown_begin.
  assert (stopping (send_stop r)) as Hstop.
  { unfold send_stop. destruct (rt_loop r) eqn:Hl; [by right..|by left]. }
  set (r1 := send_stop r) in *.
  destruct Hinv as [I1 I2 I3 I4 I5 I6 I7 I8 I9 I10].
  assert (∀ k c, (rt_calls r1 ++ [mkShutdown SdLock (rt_system r1)]) !! k = Some c →
    rt_calls r1 !! k = Some c ∨ k = length (rt_calls r1) ∧ c = mkShutdown SdLock (rt_system r1)) as Hl.
  { intros k c [?|[Hk Hc]]%lookup_app_Some; [by left|right].
    apply list_lookup_singleton_Some in Hc as [Hk' <-]. split; [lia|done]. }
  split; try done; cbn.
  - intros t k c Ht [Hc|[-> ->]]%Hl; [by eapply I3|done].
  - intros t k k' c c' [H1|[-> ->]]%Hl [H2|[-> ->]]%Hl F1 F2; [by apply (I4 t k k' c c')|done..].
  - intros k c [Hc|[-> ->]]%Hl; [by eapply I5|]. by apply (since_refl uuid).
  - intros k c [Hc|[-> ->]]%Hl; [by apply (I6 k)|done].
  - intros k c [Hc|[-> ->]]%Hl; [by apply I7|]. split; [done|].
    intros [c' Hc']%I8. apply lookup_lt_Some in Hc'. lia.
  - intros k [c Hc]%I8. exists c. by apply lookup_app_l_Some.
Qed.

(** The final flush of a call that has the handle [h]. *)
Lemma shutdown_flush_inv r k t elapsed c :
  rt_inv r → rt_calls r !! k = Some c → sd_stage c ≠ SdJoin → unused r t → quiet r →
  rt_inv (shutdown_flush k t elapsed c r).
Proof.
  intros Hinv Hc Hj Hu Hq. unfold shutdown_flush.
  destruct (flush_begin t elapsed (rt_system r)) as [s|x] eqn:Hb.
  - destruct (begin_inv r t elapsed s Hinv Hu Hb) as (Hinv' & Ht & Hno).
    apply with_stage_inv; [done..| |].
    + split; [done|]. by exists FsGate.
    + intros t' [= <-]. by right.
  - apply with_stage_inv; try done.
    destruct (flush_begin_right t elapsed _ (sd_at c) x (ri_system _ Hinv)) as [H1 H2]; [|done|].
    { by eapply ri_since. }
    split; [done|]. intros Hx. split; [done|]. by apply H2.
Qed.
Lemma lock_inv r k c t elapsed r' :
  rt_inv r → rt_calls r !! k = Some c → sd_stage c = SdLock → unused r t →
  shutdown_lock k t elapsed c r = Some r' → rt_inv r'.
Proof.
  intros Hinv Hc Hs Hu. unfold shutdown_lock. destruct (rt_handle r) eqn:Hh; try done; intros [= <-].
  - apply (put_stage_inv r k c SdJoin (HandleTaken k)); try done.
    + intros k' Hne. rewrite Hh. split; [congruence|done].
    + by rewrite Hh.
  - apply shutdown_flush_inv; try done; [by rewrite Hs|]. left. by apply Hinv.
  - apply shutdown_flush_inv; try done; [by rewrite Hs|]. by right.
Qed.
Lemma shutdown_flush_stage k t elapsed c f h r :
  shutdown_flush k t elapsed c (with_handle h r)
  = shutdown_flush k t elapsed (mkShutdown f (sd_at c))
      (with_stage_handle k c f h r).
Proof.
  unfold shutdown_flush, with_stage_handle, with_stage, with_calls. cbn.
  destruct (flush_begin t elapsed (rt_system r)); cbn; unfold with_system, with_handle; cbn;
    by rewrite list_insert_insert_eq.
Qed.
Lemma join_inv r k c t elapsed r' :
  rt_inv r → rt_calls r !! k = Some c → sd_stage c = SdJoin → unused r t →
  shutdown_join k t elapsed c r = Some r' → rt_inv r'.
Proof.
  intros Hinv Hc Hs Hu. unfold shutdown_join. destruct (rt_loop r) eqn:Hl; try done.
  intros [= <-]. rewrite (shutdown_flush_stage _ _ _ _ SdLock).
  pose proof (proj1 (ri_joining _ Hinv k c Hc) Hs) as Hh.
  apply shutdown_flush_inv; try done; [|apply list_lookup_insert_eq; by eapply lookup_lt_Some|by left].
  apply put_stage_inv; try done.
  - intros k' Hne. rewrite Hh. split; [done|congruence].
  - by rewrite Hh.
Qed.
Lemma ends_stage_inv r k c t s f :
  rt_inv r → rt_calls r !! k = Some c → sd_stage c = SdFlush t →
  sys_step uuid timeout (rt_system r) s → sy_tasks s = delete t (sy_tasks (rt_system r)) →
  stage_ok (sd_at c) s (quiet r) f → f ≠ SdJoin → (∀ t', f ≠ SdFlush t') →
  rt_inv (with_stage k c f (with_system s r)).
Proof.
  intros Hinv Hc Hs Hstep Hts Hok Hj Hf.
  assert (call_flush c = Some t) as Hcf by (unfold call_flush; by rewrite Hs).
  assert (rt_inv (with_stage k c SdDropped r)) as Hinv1.
  { apply with_stage_inv; try done. by rewrite Hs. }
  assert (rt_inv (with_system s (with_stage k c SdDropped r))) as Hinv2.
  { apply system_inv; [done..|]. intros t' Ho. assert (t' ≠ t) as Hne.
    - intros ->. destruct Ho as [Hl|(k' & c' & Hc' & Hf')]; [by eapply (ri_loop_own _ Hinv)|].
      cbn in Hc'. apply list_lookup_insert_Some in Hc' as [(<- & <- & _)|[Hne Hc']]; [done|].
      apply Hne. by apply (ri_call_own _ Hinv t k k' c c').
    - rewrite Hts, lookup_delete_ne by done. by apply (owned_alive _ _ Hinv1). }
  assert (with_stage k c f (with_system s r)
    = with_stage k (mkShutdown SdDropped (sd_at c)) f (with_system s (with_stage k c SdDropped r)))
    as ->.
  { unfold with_stage, with_system, with_calls. cbn. by rewrite list_insert_insert_eq. }
  apply with_stage_inv; try done.
  - cbn. apply list_lookup_insert_eq. by eapply lookup_lt_Some.
  - intros t' ->. by destruct (Hf t').
Qed.

Lemma flush_ends_no_panic t s x s' :
  sys_inv uuid s → flush_ends timeout t s x s' → x ≠ Panic.
Proof.
  intros Hinv He. pose proof (co_poison _ _ (si_coord _ _ Hinv)) as Hp.
  destruct He as [el r c Ht Hf|el Ht Hc|r Ht Hc Hn|b r c Ht Hb Hn|b el r c Ht Hc
    |b reply err el r c Ht Hr Hf].
  - by apply (flush_fail_partitions _ _ _ _ _ _ Hp) in Hf as [? _].
  - done.
  - unfold flush_collect, read_lock in Hc. rewrite Hp in Hc. by destruct (Hn _ (eq_sym Hc)).
  - apply (begin_attempt_partitions _ _ _ Hp) in Hb as [Hb _]. by destruct r as [[]|e|].
  - by apply (commit_inv uuid _ _ _ _ _ _ Hinv Ht) in Hc as [? _].
  - by apply (flush_fail_partitions _ _ _ _ _ _ Hp) in Hf as [? _].
Qed.
Lemma final_inv r k c t x s :
  rt_inv r → rt_calls r !! k = Some c → sd_stage c = SdFlush t →
  flush_ends timeout t (rt_system r) x s →
  rt_inv (with_stage k c (SdReturned x) (with_system s r)).
Proof.
  intros Hinv Hc Hs He. pose proof (flush_ends_step uuid _ _ _ _ _ He) as [Hstep Hts].
  apply (ends_stage_inv r k c t); try done.
  split; [by eapply flush_ends_no_panic, He; apply Hinv|]. intros Hok.
  pose proof (ri_stage _ Hinv k c Hc) as Hst. rewrite Hs in Hst.
  destruct Hst as (Hq & f & Hf & Hgoal). split; [done|]. destruct x as [report| |]; [|done..].
  eapply (flush_ends_secured uuid timeout (sd_at c) t); [apply Hinv|by eapply ri_since|done..].
Qed.
Lemma drop_handle_inv r : rt_inv r → rt_inv (drop_handle r).
Proof.
  intros Hinv. unfold drop_handle. eapply same_calls_inv; [|exact Hinv].
  eapply same_calls_trans; [apply with_handles_same|apply stop_if_same].
Qed.

Lemma rt_step_inv r r' : rt_inv r → rt_step uuid timeout r r' → rt_inv r'.
Proof.
  intros Hinv Hstep. destruct Hstep as
    [r0 s Hs Ho|r0 r1 Hc|r0 r1 t Hu Ht|r0 t x s Hl He|r0 Hh|r0 k c t el r1 Hc Hs Hu Hl
    |r0 k c t el r1 Hc Hs Hu Hj|r0 k c t x s Hc Hs He|r0 k c Hc Hs|r0 k c Hc Hs|r0 k c t Hc Hs Ht
    |r0 k c t b Hc Hs Ht|r0 Hh|r0 Hh Hp].
  - by apply system_inv.
  - apply (same_calls_inv r0); [by apply changed_same|done].
  - by eapply tick_inv.
  - by eapply flushed_inv.
  - by apply shutdown_begin_inv.
  - by eapply lock_inv.
  - by eapply join_inv.
  - by eapply final_inv.
  - apply with_stage_inv; try done. by rewrite Hs.
  - pose proof (proj1 (ri_joining _ Hinv k c Hc) Hs) as Hh.
    apply (put_stage_inv r0 k c SdDropped HandleDropped); try done.
    intros k' Hne. rewrite Hh. split; [done|congruence].
  - apply (ends_stage_inv r0 k c t); try done. by apply ss_drop_waiting.
  - apply (ends_stage_inv r0 k c t); try done. by eapply ss_drop_saving.
  - by apply (same_calls_inv r0).
  - by apply drop_handle_inv.
Qed.
Lemma spawn_inv automatic s0 : sys_init uuid s0 → rt_inv (spawn_scheduler automatic s0).
Proof.
  intros Hinit%init_inv. unfold spawn_scheduler.
  destruct automatic; split; cbn; try done; by intros.
Qed.
Lemma rt_reachable_inv r : rt_reachable uuid timeout r → rt_inv r.
Proof.
  intros (automatic & s0 & Hinit & Hsteps). apply (spawn_inv automatic) in Hinit.
  induction Hsteps as [|r1 r2 r3 Hs _ IH]; [done|]. by eapply IH, rt_step_inv.
Qed.
End Invariant.

(** ** Every call can return *)
Section Completion.
Context (uuid : string) (timeout : Duration).

Definition stage_rank (f : option FlushStage) : nat :=
  match f with
  | Some FsGate => 5
  | Some FsHeld => 4
  | Some (FsCollected _) => 3
  | Some (FsSaving _) => 2
  | Some (FsReplied _ _) => 1
  | None => 0
  end.
Definition loop_rank (s : System) (l : Loop) : nat :=
  match l with
  | LoopStart => 2
  | LoopSelect => 1
  | LoopFlush t => 1 + stage_rank (sy_tasks s !! t)
  | LoopReturned => 0
  end.
Definition call_rank (s : System) (c : ShutdownCall) : nat :=
  match sd_stage c with
  | SdLock => 8
  | SdJoin => 7
  | SdFlush t => 1 + stage_rank (sy_tasks s !! t)
  | _ => 0
  end.
Definition settle (r : Runtime) : nat :=
  loop_rank (rt_system r) (rt_loop r) + sum_list_with (call_rank (rt_system r)) (rt_calls r).

Lemma stage_rank_le f : (stage_rank f ≤ 5)%nat.
Proof. destruct f as [[]|]; cbn; lia. Qed.
Lemma sum_list_with_stage k c c' (g g' : ShutdownCall → nat) l :
  l !! k = Some c → (∀ k' x, l !! k' = Some x → k' ≠ k → (g' x ≤ g x)%nat) → (g' c' < g c)%nat →
  (sum_list_with g' (<[k := c']> l) < sum_list_with g l)%nat.
Proof.
  revert k. induction l as [|x l IH]; intros k Hc Hle Hlt; [done|].
  destruct k as [|k]; cbn in *.
  - injection Hc as ->. assert (sum_list_with g' l ≤ sum_list_with g l)%nat; [|lia].
    assert (∀ k x, l !! k = Some x → (g' x ≤ g x)%nat) as Hl
      by (intros k x Hx; by apply (Hle (S k))).
    clear -Hl. induction l as [|x l IH]; cbn; [lia|]. pose proof (Hl 0%nat x eq_refl).
    assert (sum_list_with g' l ≤ sum_list_with g l)%nat; [|lia]. apply IH.
    intros k y Hy. by apply (Hl (S k)).
  - change (g' x + sum_list_with g' (<[k := c']> l) < g x + sum_list_with g l)%nat.
    pose proof (Hle 0%nat x eq_refl ltac:(done)).
    assert (sum_list_with g' (<[k := c']> l) < sum_list_with g l)%nat; [|lia].
    apply IH; [done| |done]. intros k' y Hy Hne. by apply (Hle (S k')); [|congruence].
Qed.
Lemma sum_list_with_le (g g' : ShutdownCall → nat) l :
  (∀ x, x ∈ l → (g' x ≤ g x)%nat) → (sum_list_with g' l ≤ sum_list_with g l)%nat.
Proof.
  induction l as [|x l IH]; intros Hl; cbn; [lia|]. pose proof (Hl x ltac:(left)).
  assert (sum_list_with g' l ≤ sum_list_with g l)%nat; [|lia].
  apply IH. intros y Hy. apply Hl. by right.
Qed.

(** A flush ends, or comes closer to its end, whatever the store does. *)
Definition flush_moves (t : nat) (s s' : System) : Prop :=
  sys_step uuid timeout s s'
  ∧ (∀ t', t' ≠ t → sy_tasks s' !! t' = sy_tasks s !! t')
  ∧ is_Some (sy_tasks s' !! t)
  ∧ (stage_rank (sy_tasks s' !! t) < stage_rank (sy_tasks s !! t))%nat.
Lemma flush_moves_insert t s s' f f' :
  sys_step uuid timeout s s' → sy_tasks s !! t = Some f →
  sy_tasks s' = <[t := f']> (sy_tasks s) →
  (stage_rank (Some f') < stage_rank (Some f))%nat → flush_moves t s s'.
Proof.
  intros Hs Hf Ht Hlt. split_and!; [done|..]; rewrite Ht, ?lookup_insert_eq, ?Hf; try done.
  intros t' Hne. by rewrite lookup_insert_ne.
Qed.
Lemma flush_enabled s t :
  sys_inv uuid s → is_Some (sy_tasks s !! t) →
  (∃ x s', flush_ends timeout t s x s') ∨ ∃ s', flush_moves t s s'.
Proof.
  intros Hinv [f Hf]. pose proof (co_poison _ _ (si_coord _ _ Hinv)) as Hp.
  destruct f as [| |b|b|b reply].
  - left. do 2 eexists. apply (fe_gate_timeout _ _ _ 0); [done|apply surjective_pairing].
  - assert (flush_collect (sy_coord s) = Ok (collect_dirty (cs_partitions (sy_coord s)))) as Hc
      by (unfold flush_collect, read_lock; by rewrite Hp).
    destruct (collect_dirty _) as [|d ds].
    + left. do 2 eexists. by apply (fe_nothing _ _ _ 0).
    + right. eexists. eapply flush_moves_insert; [by eapply ss_collect|exact Hf|done|cbn; lia].
  - destruct (flush_begin_attempt (sy_coord s)) as [r c] eqn:Hb.
    destruct (decide (is_ok r = true)) as [Hok|Hok].
    + destruct r as [[]| |]; [|done..].
      right. eexists. eapply flush_moves_insert; [by eapply ss_begin|exact Hf|done|cbn; lia].
    + left. do 2 eexists. eapply fe_begin_error; [done..|]. by intros ->.
  - right. eexists. eapply flush_moves_insert; [by eapply ss_save_timeout|exact Hf|done|cbn; lia].
  - left. destruct (reply_error timeout reply) as [error|] eqn:Hr.
    + do 2 eexists. apply (fe_fail _ _ _ b reply error 0); [done..|apply surjective_pairing].
    + destruct reply; try done.
      do 2 eexists. apply (fe_commit _ _ _ b 0); [done|apply surjective_pairing].
Qed.

(** The rank under a system in which the flush [t] went on or ended. *)
Definition others_kept (t : nat) (s s' : System) : Prop :=
  ∀ t', t' ≠ t → sy_tasks s' !! t' = sy_tasks s !! t'.
Lemma call_rank_kept t s s' c :
  others_kept t s s' → (stage_rank (sy_tasks s' !! t) ≤ stage_rank (sy_tasks s !! t))%nat →
  (call_rank s' c ≤ call_rank s c)%nat.
Proof.
  intros Ho Ht. unfold call_rank. destruct (sd_stage c) as [| |t'| |]; try lia.
  destruct (decide (t' = t)) as [-> |Hne]; [lia|]. by rewrite Ho.
Qed.
Lemma loop_rank_kept t s s' l :
  others_kept t s s' → (stage_rank (sy_tasks s' !! t) ≤ stage_rank (sy_tasks s !! t))%nat →
  (loop_rank s' l ≤ loop_rank s l)%nat.
Proof.
  intros Ho Ht. unfold loop_rank. destruct l as [| |t'|]; try lia.
  destruct (decide (t' = t)) as [-> |Hne]; [lia|]. by rewrite Ho.
Qed.
Lemma moves_settle r t s :
  rt_inv uuid r → owned r t → flush_moves t (rt_system r) s →
  rt_step uuid timeout r (with_system s r) ∧ (settle (with_system s r) < settle r)%nat.
Proof.
  intros Hinv Ho (Hstep & Hkeep & Hsome & Hlt). split.
  { apply rs_system; [done|]. intros t' Ho'. destruct (decide (t' = t)) as [-> |Hne]; [done|].
    rewrite Hkeep by done. by apply (owned_alive uuid). }
  unfold settle. cbn [with_system rt_system rt_loop rt_calls].
  assert (∀ c, (call_rank s c ≤ call_rank (rt_system r) c)%nat) as Hc
    by (intros c; apply (call_rank_kept t); [done|lia]).
  destruct Ho as [Hl|(k & c & Hk & Hf)].
  - pose proof (sum_list_with_le (call_rank (rt_system r)) (call_rank s) (rt_calls r)
      (λ x _, Hc x)). rewrite Hl. cbn. lia.
  - pose proof (loop_rank_kept t (rt_system r) s (rt_loop r) Hkeep ltac:(lia)).
    assert (sum_list_with (call_rank s) (<[k := c]> (rt_calls r))
      < sum_list_with (call_rank (rt_system r)) (rt_calls r))%nat as Hs.
    { apply (sum_list_with_stage k c); [done|by intros|]. unfold call_rank, call_flush in *.
      destruct (sd_stage c); simplify_eq. lia. }
    rewrite list_insert_id in Hs by done. lia.
Qed.
Lemma ends_kept t x s s' :
  flush_ends timeout t s x s' →
  others_kept t s s' ∧ (stage_rank (sy_tasks s' !! t) ≤ stage_rank (sy_tasks s !! t))%nat.
Proof.
  intros [_ Ht]%(flush_ends_step uuid). split.
  - intros t' Hne. by rewrite Ht, lookup_delete_ne.
  - rewrite Ht, lookup_delete_eq. cbn. lia.
Qed.

(** A call whose stage goes down. *)
Lemma with_stage_settle k c f r h :
  rt_calls r !! k = Some c →
  (call_rank (rt_system r) (mkShutdown f (sd_at c)) < call_rank (rt_system r) c)%nat →
  (settle (with_stage_handle k c f h r) < settle r)%nat.
Proof.
  intros Hc Hlt. unfold settle. cbn [with_stage_handle with_stage with_calls with_handle rt_system
    rt_loop rt_calls].
  pose proof (sum_list_with_stage k c (mkShutdown f (sd_at c)) (call_rank (rt_system r))
    (call_rank (rt_system r)) (rt_calls r) Hc ltac:(by intros) Hlt). lia.
Qed.
Lemma flush_settle k t elapsed c h r :
  rt_inv uuid r → rt_calls r !! k = Some c → (7 ≤ call_rank (rt_system r) c)%nat →
  unused r t → (settle (shutdown_flush k t elapsed c (with_handle h r)) < settle r)%nat.
Proof.
  intros Hinv Hc Hr Hu. unfold shutdown_flush. cbn [with_handle rt_system].
  destruct (flush_begin t elapsed (rt_system r)) as [s|x] eqn:Hb.
  - apply (flush_begin_left uuid timeout) in Hb as [_ Ht]; [|done].
    assert (∀ t', owned r t' → sy_tasks s !! t' = sy_tasks (rt_system r) !! t') as Hkeep.
    { intros t' [f Hf]%(owned_alive uuid); [|done]. rewrite Ht, lookup_insert_ne; [done|].
      intros ->. unfold unused in Hu. congruence. }
    unfold settle. cbn [with_stage with_calls with_system with_handle rt_system rt_loop rt_calls].
    assert (loop_rank s (rt_loop r) = loop_rank (rt_system r) (rt_loop r)) as ->.
    { unfold loop_rank. destruct (rt_loop r) as [| |t'|] eqn:Hl; try done. rewrite Hkeep; [done|by left]. }
    apply Nat.add_lt_mono_l, sum_list_with_stage with c; [done|..].
    + intros k' c' Hc' _. unfold call_rank. destruct (sd_stage c') as [| |t'| |] eqn:Hst; try lia.
      rewrite Hkeep; [lia|]. right. exists k', c'. split; [done|]. unfold call_flush. by rewrite Hst.
    + unfold call_rank at 1. cbn [sd_stage]. pose proof (stage_rank_le (sy_tasks s !! t)). lia.
  - apply with_stage_settle; [done|]. cbn. lia.
Qed.
Lemma fresh_call r : ∃ t, unused r t.
Proof.
  exists (fresh (dom (sy_tasks (rt_system r)))). unfold unused.
  apply not_elem_of_dom, is_fresh.
Qed.

(** The calls go on: none is dropped. *)
Definition going (r r' : Runtime) : Prop :=
  length (rt_calls r') = length (rt_calls r)
  ∧ ∀ k c', rt_calls r' !! k = Some c' → sd_stage c' = SdDropped →
      ∃ c, rt_calls r !! k = Some c ∧ sd_stage c = SdDropped.
Definition proceeds (r r' : Runtime) : Prop :=
  rt_step uuid timeout r r' ∧ (settle r' < settle r)%nat ∧ going r r'.
Lemma going_same r r' : rt_calls r' = rt_calls r → going r r'.
Proof. intros Hc. split; [by rewrite Hc|]. intros k c'. rewrite Hc. eauto. Qed.
Lemma going_stage r r' k c f :
  rt_calls r' = <[k := mkShutdown f (sd_at c)]> (rt_calls r) → f ≠ SdDropped → going r r'.
Proof.
  intros Hc Hf. split; [by rewrite Hc, length_insert|]. intros k' c'. rewrite Hc.
  intros [(<- & <- & _)|[_ Hl]]%list_lookup_insert_Some Hd; [by destruct Hf|eauto].
Qed.
Lemma going_trans r1 r2 r3 : going r1 r2 → going r2 r3 → going r1 r3.
Proof.
  intros [L1 D1] [L2 D2]. split; [congruence|]. intros k c Hc Hd.
  destruct (D2 k c Hc Hd) as (c2 & ? & ?). by eapply D1.
Qed.
Lemma flush_going k t elapsed c r : going r (shutdown_flush k t elapsed c r).
Proof.
  unfold shutdown_flush. by destruct (flush_begin _ _ _); eapply going_stage.
Qed.

Lemma flush_proceeds r t :
  rt_inv uuid r → owned r t →
  (∀ x s, flush_ends timeout t (rt_system r) x s → ∃ r', proceeds r r') → ∃ r', proceeds r r'.
Proof.
  intros Hinv Ho Hends.
  destruct (flush_enabled (rt_system r) t (ri_system _ _ Hinv) (owned_alive uuid r t Hinv Ho))
    as [(x & s & He)|(s & Hm)]; [by eapply Hends|].
  destruct (moves_settle r t s Hinv Ho Hm). exists (with_system s r).
  split_and!; [done..|by apply going_same].
Qed.
Lemma loop_proceeds r :
  rt_inv uuid r → stopping r → rt_loop r ≠ LoopReturned → ∃ r', proceeds r r'.
Proof.
  intros Hinv Hstop Hl. destruct Hstop as [?|[Hc Hu]]; [done|].
  destruct (rt_loop r) as [| |t|] eqn:Hloop; [..|done].
  - destruct (fresh_call r) as [t Ht]. exists (with_loop LoopSelect r). split_and!.
    + apply (rs_tick _ _ _ _ t Ht). unfold loop_tick. by rewrite Hloop.
    + unfold settle. rewrite Hloop. cbn. lia.
    + by apply going_same.
  - eexists. split_and!.
    + apply rs_changed. unfold loop_changed. by rewrite Hloop, Hu, Hc.
    + unfold settle. rewrite Hloop. cbn. lia.
    + by apply going_same.
  - apply (flush_proceeds r t); [done|by left|]. intros x s He.
    exists (loop_flushed s r). pose proof (ends_kept t x _ _ He) as [Hk Hr].
    assert (rt_calls (loop_flushed s r) = rt_calls r ∧ rt_system (loop_flushed s r) = s
      ∧ rt_loop (loop_flushed s r) = LoopSelect) as (E1 & E2 & E3)
      by (unfold loop_flushed; by destruct (freed _)).
    split_and!; [by eapply rs_flushed| |by apply going_same].
    unfold settle. rewrite E1, E2, E3, Hloop. cbn.
    pose proof (sum_list_with_le (call_rank (rt_system r)) (call_rank s) (rt_calls r)
      (λ c _, call_rank_kept t _ _ c Hk Hr)).
    destruct (ri_loop _ _ Hinv t Hloop) as [f Hf]. rewrite Hf.
    assert (0 < stage_rank (Some f))%nat by (destruct f; cbn; lia). lia.
Qed.
Lemma join_proceeds r k c :
  rt_inv uuid r → rt_calls r !! k = Some c → sd_stage c = SdJoin → ∃ r', proceeds r r'.
Proof.
  intros Hinv Hc Hs. assert (stopping r) as Hstop
    by (apply (ri_stopping _ _ Hinv); intros Hn; by rewrite Hn in Hc).
  destruct (fresh_call r) as [t Ht].
  destruct (decide (rt_loop r = LoopReturned)) as [Hl|Hl]; [|by apply loop_proceeds].
  exists (shutdown_flush k t 0 c (with_handle HandleNone r)). split_and!.
  - apply (rs_join _ _ _ k c t 0); try done. unfold shutdown_join. by rewrite Hl.
  - apply flush_settle; try done. unfold call_rank. rewrite Hs. lia.
  - eapply going_trans; [by apply (going_same r (with_handle HandleNone r))|apply flush_going].
Qed.
Lemma final_proceeds r k c t :
  rt_inv uuid r → rt_calls r !! k = Some c → sd_stage c = SdFlush t → ∃ r', proceeds r r'.
Proof.
  intros Hinv Hc Hs.
  apply (flush_proceeds r t); [done|right; exists k, c; unfold call_flush; by rewrite Hs|].
  intros x s He. pose proof (ends_kept t x _ _ He) as [Hk Hr].
  exists (with_stage k c (SdReturned x) (with_system s r)).
  split_and!; [by eapply rs_final| |by eapply going_stage].
  unfold settle. cbn [with_stage with_calls with_system rt_system rt_loop rt_calls].
  pose proof (loop_rank_kept t _ _ (rt_loop r) Hk Hr).
  assert (sum_list_with (call_rank s) (<[k := mkShutdown (SdReturned x) (sd_at c)]> (rt_calls r))
    < sum_list_with (call_rank (rt_system r)) (rt_calls r))%nat; [|lia].
  apply sum_list_with_stage with c; [done|..].
  - intros k' c' _ _. by apply (call_rank_kept t).
  - unfold call_rank. rewrite Hs. cbn. lia.
Qed.
Lemma lock_proceeds r k c :
  rt_inv uuid r → rt_calls r !! k = Some c → sd_stage c = SdLock → ∃ r', proceeds r r'.
Proof.
  intros Hinv Hc Hs. destruct (fresh_call r) as [t Ht].
  assert (∀ r', shutdown_lock k t 0 c r = Some r' → rt_step uuid timeout r r') as Hstep
    by (intros r' Hr'; by apply (rs_lock _ _ _ k c t 0)).
  unfold shutdown_lock in Hstep.
  assert (proceeds r (shutdown_flush k t 0 c r) ∨ rt_handle r = HandleHere
    ∨ ∃ k', rt_handle r = HandleTaken k') as [Hp|[Hh|[k' Hh]]].
  { destruct (rt_handle r) eqn:Hh; [by right; left|by right; right; eexists|left..].
    all: split_and!; [by apply Hstep| |apply flush_going].
    all: rewrite <-(with_handle_same r) at 1; apply flush_settle; try done.
    all: unfold call_rank; rewrite Hs; lia. }
  - by eexists.
  - eexists. split_and!; [apply Hstep; by rewrite Hh| |by eapply going_stage].
    apply (with_stage_settle k c SdJoin r (HandleTaken k)); [done|]. unfold call_rank. rewrite Hs. cbn. lia.
  - destruct (ri_taken _ _ Hinv k' Hh) as [c' Hc'].
    by apply (join_proceeds r k' c'); [..|by apply (ri_joining _ _ Hinv k' c' Hc')].
Qed.

Lemma call_proceeds r k c :
  rt_inv uuid r → rt_calls r !! k = Some c → pending c = true → ∃ r', proceeds r r'.
Proof.
  intros Hinv Hc. unfold pending. destruct (sd_stage c) as [| |t| |] eqn:Hs; try done; intros _.
  - by eapply lock_proceeds.
  - by eapply join_proceeds.
  - by eapply final_proceeds.
Qed.
Lemma all_return r :
  rt_inv uuid r → ∃ r', rtc (rt_step uuid timeout) r r' ∧ going r r'
    ∧ ∀ k c, rt_calls r' !! k = Some c → pending c = false.
Proof.
  remember (settle r) as n eqn:Hn. revert r Hn.
  induction n as [n IH] using (well_founded_induction Wf_nat.lt_wf). intros r -> Hinv.
  destruct (decide (Exists (λ c, pending c = true) (rt_calls r))) as [He|He].
  - apply Exists_exists in He as (c & [k Hc]%list_elem_of_lookup & Hp).
    destruct (call_proceeds r k c Hinv Hc Hp) as (r1 & Hs & Hlt & Hg).
    destruct (IH _ Hlt r1 eq_refl) as (r2 & Hsteps & Hg2 & Hall); [by eapply rt_step_inv|].
    exists r2. split_and!; [by eapply rtc_l|by eapply going_trans|done].
  - exists r. split_and!; [done|by apply going_same|]. intros k c Hc.
    destruct (pending c) eqn:Hp; [|done]. destruct He. apply Exists_exists. exists c.
    split; [by eapply list_elem_of_lookup_2|done].
Qed.
End Completion.

(** ** Properties *)

(** C3: [shutdown] makes everything durable.  In every interleaving of the automatic loop, any
    number of [shutdown] calls, each of which can be dropped at its awaits, and of deliveries,
    acknowledgements, rebases and other flushes with failing, partial or late saves: a
    [shutdown] that returned does not panic; if it reported success, the automatic loop is over
    (unless another [shutdown] was dropped while it joined the loop), and from then on, for
    every vBucket that had made progress when it was called and was not rebased since, the
    store holds a checkpoint that is not behind the position processed at that time. *)
Theorem shutdown_makes_durable uuid timeout r k c x :
  rt_reachable uuid timeout r → rt_calls r !! k = Some c → sd_stage c = SdReturned x →
  x ≠ Panic
  ∧ (is_ok x = true →
     (rt_loop r = LoopReturned ∨ rt_handle r = HandleDropped)
     ∧ ∀ vb v0, view (sd_at c) vb = Some v0 → 0 < ps_generation (vw_part v0) →
       ∃ v, view (rt_system r) vb = Some v
         ∧ (vw_rebases v = vw_rebases v0 → ps_generation (vw_part v) < u64_max →
            ∃ e, sy_store (rt_system r) !! vb = Some e
              ∧ ck_seqno (ps_processed (vw_part v0)) ≤ ck_seqno (se_checkpoint e))).
Proof.
  intros Hr Hc Hs. apply rt_reachable_inv in Hr as Hinv.
  pose proof (ri_stage _ _ Hinv k c Hc) as Hst. rewrite Hs in Hst. destruct Hst as [Hp Hok].
  split; [done|]. intros Hx. destruct (Hok Hx) as [Hq Hsec]. split; [done|].
  intros vb v0 Hv0 Hpos.
  destruct (secured_stored uuid (sd_at c) (rt_system r) vb v0 (ri_system _ _ Hinv)
    (ri_since _ _ Hinv k c Hc) Hsec Hv0 Hpos) as (v & Hv & _ & Hstored).
  by exists v.
Qed.

(** No [shutdown] is ever stuck: in every reachable state, whatever calls were dropped and
    whatever the store does, the loop, the flushes and the calls can go on by themselves until
    every call that was not dropped has returned. *)
Lemma shutdown_completes uuid timeout r :
  rt_reachable uuid timeout r →
  ∃ r', rtc (rt_step uuid timeout) r r' ∧ length (rt_calls r') = length (rt_calls r)
    ∧ ∀ k c', rt_calls r' !! k = Some c' →
        (∃ x, sd_stage c' = SdReturned x)
        ∨ ∃ c, rt_calls r !! k = Some c ∧ sd_stage c = SdDropped.
Proof.
  intros Hr%rt_reachable_inv. destruct (all_return uuid timeout r Hr) as (r' & Hs & [Hl Hd] & Hall).
  exists r'. split_and!; [done..|]. intros k c' Hc'. specialize (Hall k c' Hc'). unfold pending in Hall.
  destruct (sd_stage c') as [| | |x|] eqn:Hst; [done..|left; by exists x|right; by eapply Hd].
Qed.

(** ** A sample run: the loop is stopped in its first tick, the final flush saves. *)
Definition sample_runtime (s : System) (loop : Loop) (handle : Handle) (stage : ShutdownStage)
    : Runtime := mkRuntime s 1 true false loop handle [mkShutdown stage sample_sys1].
Definition sample_stopped (s : System) (stage : ShutdownStage) : Runtime :=
  sample_runtime s LoopReturned HandleNone stage.
Definition sample_report : result CheckpointFlushReport :=
  (flush_commit [sample_item.1] 5 (sy_coord sample_sys7)).1.
(** The steps of the system before there is a call, and during its flush. *)
Lemma sample_running s s' :
  sys_step "uuid" 1000 s s' →
  rt_step "uuid" 1000 (spawn_scheduler true s) (spawn_scheduler true s').
Proof.
  intros Hs. apply (rs_system _ _ (spawn_scheduler true s) s' Hs).
  by intros t [[=]|(k & c & [=] & _)].
Qed.
Lemma sample_flushing s s' :
  sys_step "uuid" 1000 s s' → is_Some (sy_tasks s' !! 0%nat) →
  rt_step "uuid" 1000 (sample_stopped s (SdFlush 0)) (sample_stopped s' (SdFlush 0)).
Proof.
  intros Hs Ht. apply (rs_system _ _ (sample_stopped s (SdFlush 0)) s' Hs).
  intros t [[=]|(k & c & [-> <-]%list_lookup_singleton_Some & [= <-])]. done.
Qed.
Lemma sample_shutdown_reachable :
  rt_reachable "uuid" 1000 (sample_stopped sample_sys8 (SdReturned sample_report)).
Proof.
  exists true, sample_sys0. split.
  { apply (si_new "uuid" sample_config sample_checkpoints); [vm_compute; reflexivity|done]. }
  eapply rtc_l; [apply sample_running; eapply ss_track, surjective_pairing|].
  eapply rtc_l; [apply sample_running; eapply ss_track, surjective_pairing|].
  eapply rtc_l; [apply sample_running; eapply ss_track, surjective_pairing|].
  eapply rtc_l; [apply sample_running; eapply ss_ack, surjective_pairing|].
  eapply (rtc_l _ _ (shutdown_begin (spawn_scheduler true sample_sys1)));
    [apply rs_shutdown; cbn; lia|].
  eapply rtc_l; [by apply (rs_tick _ _ _ _ 0)|]. eapply rtc_l; [by apply rs_changed|].
  eapply (rtc_l _ _ (sample_runtime sample_sys1 LoopReturned (HandleTaken 0) SdJoin));
    [by eapply (rs_lock _ _ _ 0 (mkShutdown SdLock sample_sys1) 0 0)|].
  eapply (rtc_l _ _ (sample_stopped sample_sys2 (SdFlush 0)));
    [by eapply (rs_join _ _ _ 0 (mkShutdown SdJoin sample_sys1) 0 0)|].
  eapply (rtc_l _ _ (sample_stopped sample_sys3 (SdFlush 0))).
  { apply sample_flushing; [|by eexists]. apply (ss_gate_acquire _ _ sample_sys2 0); vm_compute; reflexivity. }
  eapply (rtc_l _ _ (sample_stopped sample_sys4 (SdFlush 0))).
  { apply sample_flushing; [|by eexists].
    apply (ss_collect _ _ sample_sys3 0 [sample_item.1]); [vm_compute; reflexivity..|discriminate]. }
  eapply (rtc_l _ _ (sample_stopped sample_sys5 (SdFlush 0))).
  { apply sample_flushing; [|by eexists].
    apply (ss_begin _ _ sample_sys4 0 [sample_item]); vm_compute; reflexivity. }
  eapply (rtc_l _ _ (sample_stopped sample_sys6 (SdFlush 0))).
  { apply sample_flushing; [|by eexists].
    apply (ss_write _ _ sample_sys5 (Some 0%nat) [sample_item] sample_item);
      [vm_compute; reflexivity|left]. }
  eapply (rtc_l _ _ (sample_stopped sample_sys7 (SdFlush 0))).
  { apply sample_flushing; [|by eexists].
    apply (ss_save_ok _ _ sample_sys6 (Some 0%nat) [sample_item]); [vm_compute; reflexivity|].
    apply Forall_singleton. eexists. split; [vm_compute; reflexivity|]. split; reflexivity. }
  apply rtc_once.
  apply (rs_final _ _ (sample_stopped sample_sys7 (SdFlush 0)) 0 (mkShutdown (SdFlush 0) sample_sys1) 0
    sample_report sample_sys8); [done..|].
  exact (fe_commit 1000 0 sample_sys7 [sample_item] 5 _ _ ltac:(vm_compute; reflexivity)
    (surjective_pairing _)).
Qed.
Lemma shutdown_makes_durable_witness :
  ∃ e, sy_store sample_sys8 !! 3 = Some e ∧ 11 ≤ ck_seqno (se_checkpoint e).
Proof.
  destruct (shutdown_makes_durable "uuid" 1000
    (sample_stopped sample_sys8 (SdReturned sample_report)) 0
    (mkShutdown (SdReturned sample_report) sample_sys1) sample_report
    sample_shutdown_reachable eq_refl eq_refl) as [_ Hok].
  destruct Hok as [_ Hdurable]; [vm_compute; reflexivity|].
  destruct (view sample_sys1 3) as [v0|] eqn:Hv0; [|vm_compute in Hv0; discriminate Hv0].
  destruct (Hdurable 3 v0 Hv0) as (v & Hv & Hstored).
  - vm_compute in Hv0. injection Hv0 as <-. reflexivity.
  - cbn [rt_system sample_stopped sample_runtime] in Hv, Hstored.
    vm_compute in Hv0. injection Hv0 as <-. vm_compute in Hv. injection Hv as <-.
    destruct Hstored as (e & He & Hle); [reflexivity|vm_compute; reflexivity|].
    exists e. split; [exact He|exact Hle].
Defined.
