(* ===== verification/Store.v ===== *)
(** * Checkpoint stores ([rust-dcp-core/src/checkpoint_store.rs], first part)

    The trait through which the coordinator persists checkpoints, the documents a store
    keeps, and the no-op, read-only and file stores.  The file system is the state of the
    file store: its files, and a script of what happens to each operation, which can fail
    or never return because the process ends there.  The JSON codec of [serde_json] is a
    parameter. *)
From S2P Require Import Prelude Text Types Command Errors Checkpoint Async.

(** ** Documents *)
Record StoredSnapshot : Type := mkStoredSnapshot {
  ssn_start_seqno : Z;
  ssn_end_seqno : Z
}.
Record StoredCheckpointPosition : Type := mkStoredPosition {
  sp_snapshot : StoredSnapshot;
  sp_vbucket_uuid : Z;
  sp_seqno : Z
}.
Record StoredCheckpointDocument : Type := mkDocument {
  sd_checkpoint : StoredCheckpointPosition;
  sd_bucket_uuid : string;
  sd_manifest_uid : option Z
}.

#[export] Instance StoredSnapshot_eq_dec : EqDecision StoredSnapshot.
Proof. solve_decision. Defined.
#[export] Instance StoredCheckpointPosition_eq_dec : EqDecision StoredCheckpointPosition.
Proof. solve_decision. Defined.
#[export] Instance StoredCheckpointDocument_eq_dec : EqDecision StoredCheckpointDocument.
Proof. solve_decision. Defined.

Abbreviation Documents := (gmap Z StoredCheckpointDocument) (only parsing).

Definition store_error (message : string) : DcpError := CheckpointStoreError message.
Definition bucket_mismatch (vbucket : Z) (expected observed : string) : DcpError :=
  Checkpoint ("vBucket " +:+ pretty vbucket +:+ " checkpoint bucket UUID " +:+ observed
    +:+ " does not match current bucket " +:+ expected).
Definition no_bucket_uuid (c : DcpCheckpoint) : DcpError :=
  Checkpoint ("vBucket " +:+ pretty (ck_vbucket c) +:+ " checkpoint has no bucket UUID").

Definition from_checkpoint (c : DcpCheckpoint) : result StoredCheckpointDocument :=
  do? ck_validate c in
  let? bucket_uuid := ok_or (ck_bucket_uuid c) (no_bucket_uuid c) in
  Ok (mkDocument
    (mkStoredPosition (mkStoredSnapshot (ck_snapshot_start c) (ck_snapshot_end c))
       (ck_vbucket_uuid c) (ck_seqno c))
    bucket_uuid (ck_manifest_uid c)).

Definition into_checkpoint (d : StoredCheckpointDocument) (vbucket : Z)
    (expected_bucket_uuid : string) : result DcpCheckpoint :=
  if negb (bool_decide (sd_bucket_uuid d = expected_bucket_uuid)) then
    Err (bucket_mismatch vbucket expected_bucket_uuid (sd_bucket_uuid d))
  else
    let position := sd_checkpoint d in
    let checkpoint := mkCheckpoint (Some (sd_bucket_uuid d)) vbucket (sp_vbucket_uuid position)
      (sp_seqno position) (ssn_start_seqno (sp_snapshot position))
      (ssn_end_seqno (sp_snapshot position)) (sd_manifest_uid d) in
    do? ck_validate checkpoint in
    Ok checkpoint.

(** One round of the loop: the documents so far and the bucket UUID seen. *)
Definition serialize_step (acc : Documents * option string) (c : DcpCheckpoint)
    : result (Documents * option string) :=
  let '(documents, bucket_uuid) := acc in
  let? observed := ok_or (ck_bucket_uuid c) (no_bucket_uuid c) in
  do? (match bucket_uuid with
       | Some expected =>
           if negb (bool_decide (expected = observed)) then
             Err (Checkpoint ("checkpoint batch mixes bucket UUID " +:+ expected +:+ " and "
               +:+ observed))
           else Ok tt
       | None => Ok tt
       end) in
  let? document := from_checkpoint c in
  match documents !! ck_vbucket c with
  | Some _ =>
      Err (Checkpoint ("duplicate vBucket " +:+ pretty (ck_vbucket c) +:+ " in checkpoint batch"))
  | None => Ok (<[ck_vbucket c := document]> documents, Some observed)
  end.
Definition serialize_checkpoint_batch (checkpoints : list DcpCheckpoint) : result Documents :=
  let? (documents, _) := for_res checkpoints (∅, None) serialize_step in
  Ok documents.

Definition validate_vbuckets (vbuckets : list Z) : result unit :=
  let unique : gset Z := list_to_set vbuckets in
  if negb (Z.of_nat (size unique) =? len vbuckets) then
    Err (Checkpoint "checkpoint vBucket list contains duplicates")
  else Ok tt.

(** ** The trait *)
Class CheckpointStore (T S : Type) : Type := {
  store_load : T → string → list Z → io S (gmap Z DcpCheckpoint);
  store_save : T → list DcpCheckpoint → io S unit;
  store_clear : T → string → list Z → io S unit
}.

(** *** [NoopCheckpointStore] *)
Inductive NoopCheckpointStore : Type := Noop.

Definition noop_load {S} (_ : NoopCheckpointStore) (_ : string) (_ : list Z)
    : io S (gmap Z DcpCheckpoint) := io_ret ∅.
Definition noop_save {S} (_ : NoopCheckpointStore) (_ : list DcpCheckpoint) : io S unit :=
  io_ret tt.
Definition noop_clear {S} (_ : NoopCheckpointStore) (_ : string) (_ : list Z) : io S unit :=
  io_ret tt.
#[export] Instance noop_store S : CheckpointStore NoopCheckpointStore S :=
  {| store_load := noop_load; store_save := noop_save; store_clear := noop_clear |}.

(** *** [ReadOnlyCheckpointStore]: loads reach the wrapped store, mutations do not *)
Record ReadOnlyCheckpointStore (T : Type) : Type := ReadOnly { ro_inner : T }.
Arguments ReadOnly {T} ro_inner.
Arguments ro_inner {T} r.

Section ReadOnly.
Context {T S : Type} `{CheckpointStore T S}.
Definition ro_load (self : ReadOnlyCheckpointStore T) (bucket_uuid : string) (vbuckets : list Z)
    : io S (gmap Z DcpCheckpoint) := store_load (ro_inner self) bucket_uuid vbuckets.
Definition ro_save (_ : ReadOnlyCheckpointStore T) (_ : list DcpCheckpoint) : io S unit :=
  io_ret tt.
Definition ro_clear (_ : ReadOnlyCheckpointStore T) (_ : string) (_ : list Z) : io S unit :=
  io_ret tt.
#[export] Instance read_only_store : CheckpointStore (ReadOnlyCheckpointStore T) S :=
  {| store_load := ro_load; store_save := ro_save; store_clear := ro_clear |}.
End ReadOnly.

(** ** Paths

    A path is its components, as [Path::components] yields them: repeated separators and
    inner [.] are gone, a [.] stays only at the front of a relative path. *)
Record PathBuf : Type := mkPath {
  p_absolute : bool;
  p_components : list string
}.
#[export] Instance PathBuf_eq_dec : EqDecision PathBuf.
Proof. solve_decision. Defined.
#[export] Instance PathBuf_countable : Countable PathBuf.
Proof.
  refine (inj_countable' (λ p, (p_absolute p, p_components p)) (λ '(a, c), mkPath a c) _).
  by intros [].
Defined.

Definition path_from_str (s : string) : PathBuf :=
  let absolute := starts_with slash s in
  let parts := filter (λ c, c ≠ "") (split slash s) in
  let keep := filter (λ c, c ≠ ".") in
  mkPath absolute
    (match parts with
     | c :: cs => if bool_decide (c = ".") && negb absolute then c :: keep cs else keep (c :: cs)
     | [] => []
     end).
Definition path_display (p : PathBuf) : string :=
  from_utf8_lossy (as_bytes ((if p_absolute p then "/" else "") +:+ join "/" (p_components p))).

Definition file_name (p : PathBuf) : option string :=
  match last (p_components p) with
  | Some c => if bool_decide (c = ".") || bool_decide (c = "..") then None else Some c
  | None => None
  end.
(** [None] at a root or for the empty path; a bare file name has the empty parent. *)
Definition parent (p : PathBuf) : option PathBuf :=
  match p_components p with
  | [] => None
  | cs => Some (mkPath (p_absolute p) (removelast cs))
  end.
Definition path_join (p : PathBuf) (name : string) : PathBuf :=
  mkPath (p_absolute p) (p_components p ++ [name]).
Definition current_dir : PathBuf := mkPath false ["."].
Definition empty_path : PathBuf := mkPath false [].

(** ** The file system *)

(** What happens to one operation.  The number is how far a write got, and whether an
    operation had its effect when the process ended during it. *)
Inductive Fault : Type :=
| FaultNone
| FaultError (progress : nat) (message : string)
| FaultStop (progress : nat).

Record Fs : Type := mkFs {
  fs_files : gmap PathBuf bytes;
  fs_faults : list Fault;
  fs_pid : Z;
  fs_random : nat → string + Z;
  fs_draws : nat
}.

Inductive IoError : Type :=
| IoNotFound
| IoAlreadyExists
| IoOther (message : string).
Definition io_error_to_string (e : IoError) : string :=
  match e with
  | IoNotFound => "No such file or directory (os error 2)"
  | IoAlreadyExists => "File exists (os error 17)"
  | IoOther m => m
  end.

Definition with_files (f : gmap PathBuf bytes) (s : Fs) : Fs :=
  mkFs f (fs_faults s) (fs_pid s) (fs_random s) (fs_draws s).
Definition next_fault (s : Fs) : Fault * Fs :=
  match fs_faults s with
  | [] => (FaultNone, s)
  | f :: fs => (f, mkFs (fs_files s) fs (fs_pid s) (fs_random s) (fs_draws s))
  end.

(** An operation on the files: its result and effect, what a failure at some progress
    leaves, and what the end of the process at some progress leaves. *)
Definition fs_call {A} (op : gmap PathBuf bytes → res IoError A * gmap PathBuf bytes)
    (failed stopped : nat → gmap PathBuf bytes → gmap PathBuf bytes) : io Fs (res IoError A) := λ s,
  let '(fault, s) := next_fault s in
  match fault with
  | FaultNone => let '(r, f) := op (fs_files s) in (Done (Ok r), with_files f s)
  | FaultError n m => (Done (Ok (Err (IoOther m))), with_files (failed n (fs_files s)) s)
  | FaultStop n => (Hang, with_files (stopped n (fs_files s)) s)
  end.
Definition untouched (_ : nat) (f : gmap PathBuf bytes) : gmap PathBuf bytes := f.
(** An atomic effect that happened, or not, before the process ended. *)
Definition atomically (effect : gmap PathBuf bytes → gmap PathBuf bytes) (n : nat)
    (f : gmap PathBuf bytes) : gmap PathBuf bytes :=
  match n with O => f | S _ => effect f end.

Definition fs_read (p : PathBuf) : io Fs (res IoError bytes) :=
  fs_call (λ f, (ok_or (f !! p) IoNotFound, f)) untouched untouched.
(** [create_dir_all] and [sync_all] do not change what the files hold. *)
Definition fs_create_dir_all (_ : PathBuf) : io Fs (res IoError unit) :=
  fs_call (λ f, (Ok tt, f)) untouched untouched.
Definition fs_sync_all (_ : PathBuf) : io Fs (res IoError unit) :=
  fs_call (λ f, (Ok tt, f)) untouched untouched.
Definition fs_create_new (p : PathBuf) : io Fs (res IoError unit) :=
  fs_call
    (λ f, match f !! p with
          | Some _ => (Err IoAlreadyExists, f)
          | None => (Ok tt, <[p := []]> f)
          end)
    untouched (atomically (λ f, match f !! p with Some _ => f | None => <[p := []]> f end)).
Definition fs_write_all (p : PathBuf) (data : bytes) : io Fs (res IoError unit) :=
  fs_call (λ f, (Ok tt, <[p := data]> f))
    (λ n, <[p := take n data]>) (λ n, <[p := take n data]>).
Definition rename_effect (from to : PathBuf) (f : gmap PathBuf bytes) : gmap PathBuf bytes :=
  match f !! from with Some data => <[to := data]> (delete from f) | None => f end.
Definition fs_rename (from to : PathBuf) : io Fs (res IoError unit) :=
  fs_call (λ f, (match f !! from with Some _ => Ok tt | None => Err IoNotFound end,
                 rename_effect from to f))
    untouched (atomically (rename_effect from to)).
Definition fs_remove_file (p : PathBuf) : io Fs (res IoError unit) :=
  fs_call (λ f, (match f !! p with Some _ => Ok tt | None => Err IoNotFound end, delete p f))
    untouched (atomically (delete p)).
(** Opening the empty path fails. *)
Definition fs_sync_dir (p : PathBuf) : io Fs (res IoError unit) :=
  fs_call (λ f, (if bool_decide (p = empty_path) then Err IoNotFound else Ok tt, f))
    untouched untouched.

Definition checkpoint_task_error (error : string) : DcpError :=
  store_error ("checkpoint filesystem task failed: " +:+ error).
(** [spawn_blocking]: the task runs to its end, or the runtime refuses it. *)
Definition spawn_blocking {A} (m : io Fs A) : io Fs A := λ s,
  let '(fault, s) := next_fault s in
  match fault with
  | FaultNone => m s
  | FaultError _ e => (Done (Err (checkpoint_task_error e)), s)
  | FaultStop _ => (Hang, s)
  end.
(** [getrandom::fill] of eight bytes. *)
Definition draw_random (s : Fs) : outcome Z * Fs :=
  (Done (match fs_random s (fs_draws s) with
         | inr z => Ok z
         | inl e => Err (store_error ("cannot generate temporary file name: " +:+ e))
         end), mkFs (fs_files s) (fs_faults s) (fs_pid s) (fs_random s) (S (fs_draws s))).

(** [.map_err(|error| store_error(format!("{context}: {error}")))?] *)
Definition io_or {A} (context : string) (m : io Fs (res IoError A)) : io Fs A :=
  let! r := m in
  io_lift (map_err (λ e, store_error (context +:+ ": " +:+ io_error_to_string e)) r).

(** ** [FileCheckpointStore]

    The gate of a store is held from before the blocking task is spawned until it has
    ended, also when the caller goes away, so the operations of a store run one after the
    other. *)
Record FileCheckpointStore : Type := mkFileStore { fcs_path : PathBuf }.

Definition file_store_new (path : PathBuf) : result FileCheckpointStore :=
  match file_name path with
  | None => Err (InvalidConfiguration "checkpoint file path must name a file")
  | Some _ => Ok (mkFileStore path)
  end.

(** [serde_json] on one document and on a map of documents. *)
Class CheckpointJson : Type := {
  documents_to_vec : Documents → string + bytes;
  documents_from_slice : bytes → string + Documents;
  document_to_vec : StoredCheckpointDocument → string + bytes;
  document_from_slice : bytes → string + StoredCheckpointDocument
}.
Definition parent_or_current (path : PathBuf) : PathBuf := default current_dir (parent path).

Section FileStore.
Context `{CheckpointJson}.

Definition read_file_documents (path : PathBuf) : io Fs (option Documents) :=
  let! data := fs_read path in
  io_lift (match data with
    | Ok data =>
        match documents_from_slice data with
        | inr d => Ok (Some d)
        | inl error =>
            Err (store_error ("invalid checkpoint JSON in " +:+ path_display path +:+ ": " +:+ error))
        end
    | Err IoNotFound => Ok None
    | Err error =>
        Err (store_error ("cannot read checkpoint file " +:+ path_display path +:+ ": "
          +:+ io_error_to_string error))
    | Panic => Panic
    end).

Definition sync_directory (directory : PathBuf) : io Fs unit :=
  io_or ("cannot sync checkpoint directory " +:+ path_display directory) (fs_sync_dir directory).

Definition temporary_name (file_name : string) (pid random : Z) : string :=
  "." +:+ file_name +:+ ".tmp-" +:+ pretty pid +:+ "-" +:+ pretty random.

(** The closure that writes the temporary file and moves it into place. *)
Definition replace_file (path temporary directory : PathBuf) (data : bytes) : io Fs unit :=
  let temporary_text := path_display temporary in
  do! io_or ("cannot create temporary checkpoint file " +:+ temporary_text)
        (fs_create_new temporary) in
  do! io_or ("cannot write temporary checkpoint file " +:+ temporary_text)
        (fs_write_all temporary data) in
  do! io_or ("cannot sync temporary checkpoint file " +:+ temporary_text)
        (fs_sync_all temporary) in
  do! io_or ("cannot atomically replace checkpoint file " +:+ path_display path)
        (fs_rename temporary path) in
  sync_directory directory.

Definition write_file_documents (path : PathBuf) (documents : Documents) : io Fs unit :=
  let! data := io_lift (match documents_to_vec documents with
    | inr data => Ok data
    | inl error => Err (store_error ("cannot serialize checkpoint JSON: " +:+ error))
    end) in
  let directory := parent_or_current path in
  do! io_or ("cannot create checkpoint directory " +:+ path_display directory)
        (fs_create_dir_all directory) in
  let! random := draw_random in
  let! name := io_lift (ok_or (name ← file_name path; from_utf8 (as_bytes name))
    (store_error ("checkpoint path " +:+ path_display path +:+ " has a non-UTF-8 file name"))) in
  let! pid := io_get fs_pid in
  let temporary := path_join directory (temporary_name name pid random) in
  let! r := io_try (replace_file path temporary directory data) in
  do! (if is_ok r then io_ret tt else do! fs_remove_file temporary in io_ret tt) in
  io_lift r.

Definition file_load (self : FileCheckpointStore) (bucket_uuid : string) (vbuckets : list Z)
    : io Fs (gmap Z DcpCheckpoint) :=
  do! io_lift (validate_vbuckets vbuckets) in
  let! documents := spawn_blocking (read_file_documents (fcs_path self)) in
  let requested : gset Z := list_to_set vbuckets in
  io_lift (res_map btree_collect
    (mapM_res (λ '(vbucket, document),
         let? checkpoint := into_checkpoint document vbucket bucket_uuid in
         Ok (vbucket, checkpoint))
       (filter (λ e, e.1 ∈ requested) (btree_to_list (default ∅ documents))))).

Definition check_update (documents : Documents) (u : Z * StoredCheckpointDocument)
    : result unit :=
  let '(vbucket, update) := u in
  match documents !! vbucket with
  | Some existing =>
      if negb (bool_decide (sd_bucket_uuid existing = sd_bucket_uuid update)) then
        Err (bucket_mismatch vbucket (sd_bucket_uuid update) (sd_bucket_uuid existing))
      else Ok tt
  | None => Ok tt
  end.

Definition file_save (self : FileCheckpointStore) (checkpoints : list DcpCheckpoint)
    : io Fs unit :=
  let! updates := io_lift (serialize_checkpoint_batch checkpoints) in
  if bool_decide (updates = ∅) then io_ret tt
  else spawn_blocking (
    let! documents := read_file_documents (fcs_path self) in
    let documents : Documents := default ∅ documents in
    do! io_lift (for_res (btree_to_list updates) tt (λ _, check_update documents)) in
    write_file_documents (fcs_path self) (updates ∪ documents)).

Definition remove_one (bucket_uuid : string) (documents : Documents) (vbucket : Z)
    : result Documents :=
  match documents !! vbucket with
  | Some document =>
      if negb (bool_decide (sd_bucket_uuid document = bucket_uuid)) then
        Err (bucket_mismatch vbucket bucket_uuid (sd_bucket_uuid document))
      else Ok (delete vbucket documents)
  | None => Ok (delete vbucket documents)
  end.

Definition remove_store_file (path : PathBuf) : io Fs unit :=
  let! r := fs_remove_file path in
  match r with
  | Ok _ => sync_directory (parent_or_current path)
  | Err IoNotFound => io_ret tt
  | Err error =>
      io_lift (Err (store_error ("cannot remove checkpoint file " +:+ path_display path +:+ ": "
        +:+ io_error_to_string error)))
  | Panic => io_lift Panic
  end.

Definition file_clear (self : FileCheckpointStore) (bucket_uuid : string) (vbuckets : list Z)
    : io Fs unit :=
  do! io_lift (validate_vbuckets vbuckets) in
  match vbuckets with
  | [] => io_ret tt
  | _ => spawn_blocking (
      let! documents := read_file_documents (fcs_path self) in
      match documents with
      | None => io_ret tt
      | Some documents =>
          let! documents := io_lift (for_res vbuckets documents (remove_one bucket_uuid)) in
          if bool_decide (documents = ∅) then remove_store_file (fcs_path self)
          else write_file_documents (fcs_path self) documents
      end)
  end.

#[export] Instance file_store : CheckpointStore FileCheckpointStore Fs :=
  {| store_load := file_load; store_save := file_save; store_clear := file_clear |}.
End FileStore.

(** ** Lemmas on documents *)
Lemma from_checkpoint_spec c :
  match from_checkpoint c with
  | Ok d => ck_valid c ∧ ck_bucket_uuid c = Some (sd_bucket_uuid d)
            ∧ into_checkpoint d (ck_vbucket c) (sd_bucket_uuid d) = Ok c
  | Err _ => ¬ ck_valid c ∨ ck_bucket_uuid c = None
  | Panic => False
  end.
Proof.
  unfold from_checkpoint, into_checkpoint. pose proof (ck_validate_spec c) as Hv.
  destruct (ck_validate c) as [[]| |] eqn:Hc; [|by left|done].
  destruct c as [[u|] vb vu sq ss se mu]; cbn in *; [|by right].
  split; [done|]. split; [done|]. rewrite bool_decide_true by done. cbn [negb]. by rewrite Hc.
Qed.
Lemma from_checkpoint_ok c u :
  ck_valid c → ck_bucket_uuid c = Some u → ∃ d, from_checkpoint c = Ok d ∧ sd_bucket_uuid d = u.
Proof.
  intros Hc Hu. pose proof (from_checkpoint_spec c) as Hs.
  destruct (from_checkpoint c) as [d|e|]; [|naive_solver..].
  exists d. split; [done|]. naive_solver.
Qed.

(** What a serialized batch is: one document a checkpoint, all of one bucket. *)
Record batch_documents (batch : list DcpCheckpoint) (ds : Documents) : Prop := {
  bd_nodup : NoDup (ck_vbucket <$> batch);
  bd_all : ∀ c, c ∈ batch → ∃ d, from_checkpoint c = Ok d ∧ ds !! ck_vbucket c = Some d;
  bd_only : ∀ vb d, ds !! vb = Some d →
            ∃ c, c ∈ batch ∧ ck_vbucket c = vb ∧ from_checkpoint c = Ok d
}.
(** The batches a store accepts. *)
Definition batch_ok (uuid : string) (batch : list DcpCheckpoint) : Prop :=
  NoDup (ck_vbucket <$> batch)
  ∧ ∀ c, c ∈ batch → ck_valid c ∧ ck_bucket_uuid c = Some uuid.

Lemma batch_documents_snoc batch ds c d :
  batch_documents batch ds → ds !! ck_vbucket c = None → from_checkpoint c = Ok d →
  batch_documents (batch ++ [c]) (<[ck_vbucket c := d]> ds).
Proof.
  intros [Hnd Hall Honly] Hc Hd.
  assert (∀ c', c' ∈ batch → ck_vbucket c' ≠ ck_vbucket c) as Hne.
  { intros c' Hc' Heq. destruct (Hall c' Hc') as (d' & _ & Hd'). rewrite Heq in Hd'. congruence. }
  split.
  - rewrite fmap_app. apply NoDup_app. split; [done|]. split; [|apply NoDup_singleton].
    intros vb (c' & -> & Hc')%list_elem_of_fmap. cbn. rewrite list_elem_of_singleton.
    by apply Hne.
  - intros c' [Hc'| ->%list_elem_of_singleton]%elem_of_app.
    + destruct (Hall c' Hc') as (d' & ? & ?). exists d'. split; [done|].
      rewrite lookup_insert_ne; [done|]. intros ?. by apply (Hne c').
    + exists d. split; [done|]. by rewrite lookup_insert_eq.
  - intros vb d' [[<- <-]|[_ (c' & Hc' & ? & ?)%Honly]]%lookup_insert_Some.
    + exists c. split; [set_solver|done].
    + exists c'. split; [set_solver|done].
Qed.

Lemma serialize_loop_spec batch seen ds u :
  batch_documents seen ds →
  (∀ c, c ∈ seen → ck_bucket_uuid c = u) → (u ≠ None → seen ≠ []) →
  match for_res batch (ds, u) serialize_step with
  | Ok (ds', u') => batch_documents (seen ++ batch) ds'
                    ∧ ∀ c, c ∈ seen ++ batch → ck_bucket_uuid c = u'
  | Err _ => ∀ uuid, ¬ batch_ok uuid (seen ++ batch)
  | Panic => False
  end.
Proof.
  revert seen ds u. induction batch as [|c batch IH]; intros seen ds u Hds Hu Hn; cbn [for_res].
  { by rewrite app_nil_r. }
  assert (∀ uuid, batch_ok uuid (seen ++ c :: batch) → ck_valid c ∧ ck_bucket_uuid c = Some uuid)
    as Hin by (intros uuid [_ Hall]; apply Hall; set_solver).
  unfold serialize_step at 1.
  destruct (ck_bucket_uuid c) as [o|] eqn:Ho; cbn [ok_or]; [|by intros uuid [_ ?]%Hin].
  destruct (decide (u = None ∨ u = Some o)) as [Huo|Huo]; last first.
  { destruct u as [x|]; [|naive_solver]. rewrite bool_decide_false by naive_solver. cbn.
    intros uuid Hok. destruct (Hin _ Hok) as [_ [= <-]]. destruct Hok as [_ Hall].
    destruct seen as [|c' seen]; [by destruct Hn|].
    assert (ck_bucket_uuid c' = Some x) by (apply Hu; set_solver).
    destruct (Hall c') as [_ ?]; [set_solver|]. naive_solver. }
  assert (∀ c', c' ∈ seen → ck_bucket_uuid c' = Some o) as Hseen.
  { intros c' Hc'. destruct Huo as [-> | ->]; [|by apply Hu].
    destruct (bd_all _ _ Hds c' Hc') as (d & Hd & _).
    pose proof (from_checkpoint_spec c') as Hs. rewrite Hd in Hs.
    rewrite (Hu c' Hc') in Hs. naive_solver. }
  replace (match u with Some expected => _ | None => _ end) with (@Ok DcpError unit tt).
  2: { destruct Huo as [-> | ->]; [done|]. by rewrite bool_decide_true. }
  pose proof (from_checkpoint_spec c) as Hs. destruct (from_checkpoint c) as [d|e|] eqn:Hd; last done.
  2: { intros uuid [Hv Hb]%Hin. destruct Hs as [Hs|Hs]; [done|congruence]. }
  destruct (ds !! ck_vbucket c) as [d'|] eqn:Hl.
  { intros uuid [Hnd _]. destruct (bd_only _ _ Hds _ _ Hl) as (c' & Hc' & Heq & _).
    rewrite fmap_app, fmap_cons in Hnd. apply NoDup_app in Hnd as (_ & Hnd & _).
    apply (Hnd (ck_vbucket c)); [|by left]. rewrite <-Heq. by apply list_elem_of_fmap_2. }
  rewrite (app_assoc _ [c] batch : seen ++ c :: batch = (seen ++ [c]) ++ batch).
  apply IH; [by apply batch_documents_snoc| |by destruct seen].
  intros c' [?| ->%list_elem_of_singleton]%elem_of_app; auto.
Qed.

(** A batch is accepted exactly when it names one bucket, each vBucket at most once, and
    holds valid positions only. *)
Lemma serialize_spec batch :
  match serialize_checkpoint_batch batch with
  | Ok ds => batch_documents batch ds ∧ (batch = [] ∨ ∃ uuid, batch_ok uuid batch)
  | Err _ => ∀ uuid, ¬ batch_ok uuid batch
  | Panic => False
  end.
Proof.
  unfold serialize_checkpoint_batch.
  pose proof (serialize_loop_spec batch [] ∅ None) as Hs. cbn [app] in Hs.
  assert (batch_documents [] ∅) as H0.
  { split; [apply NoDup_nil_2|by intros ? ?%elem_of_nil|intros ?? Hl; by rewrite lookup_empty in Hl]. }
  specialize (Hs H0 ltac:(by intros ? ?%elem_of_nil) ltac:(done)).
  destruct (for_res _ _ _) as [[ds u]|e|]; [|done..]. destruct Hs as [Hds Hu].
  split; [done|]. destruct batch as [|c0 batch]; [by left|right].
  destruct u as [u|]; last first.
  { destruct (bd_all _ _ Hds c0 ltac:(left)) as (d & Hd & _).
    pose proof (from_checkpoint_spec c0) as Hs. rewrite Hd, (Hu c0 ltac:(left)) in Hs. naive_solver. }
  exists u. split; [apply Hds|]. intros c Hc. split; [|by apply Hu].
  destruct (bd_all _ _ Hds c Hc) as (d & Hd & _).
  pose proof (from_checkpoint_spec c) as Hs. rewrite Hd in Hs. naive_solver.
Qed.
Lemma serialize_ok uuid batch :
  batch_ok uuid batch →
  ∃ ds, serialize_checkpoint_batch batch = Ok ds ∧ batch_documents batch ds.
Proof.
  intros Hok. pose proof (serialize_spec batch) as Hs.
  destruct (serialize_checkpoint_batch batch) as [ds|e|]; [|by destruct (Hs uuid)|done].
  exists ds. naive_solver.
Qed.
Lemma validate_vbuckets_spec vbs :
  match validate_vbuckets vbs with Ok _ => NoDup vbs | Err _ => ¬ NoDup vbs | Panic => False end.
Proof.
  unfold validate_vbuckets. pose proof (size_list_to_set_NoDup vbs) as Hs.
  destruct (Z.eqb_spec (Z.of_nat (size (list_to_set vbs : gset Z))) (len vbs)); cbn [negb];
    by rewrite <-Hs.
Qed.
