(* ===== verification/StoreSpec.v ===== *)
(** * What a checkpoint store promises ([rust-dcp-core/src/checkpoint_store.rs])

    The contract behind the [CheckpointStore] trait, which the file store and the Couchbase
    store discharge, and what follows from it for any store: what was saved is loaded
    again, and a save is a path of the flushing system ([CheckpointFlush]). *)
From S2P Require Import Prelude Text Types Errors Checkpoint Config Async Store.
From S2P Require Import CheckpointRuntime CheckpointSpec CheckpointFlush.

(** ** The contract

    A store is seen as the document it holds for each vBucket. *)
Abbreviation Holdings := (Z → option StoredCheckpointDocument) (only parsing).

Definition persisted (st : Holdings) (c : DcpCheckpoint) : Prop :=
  ∃ d, from_checkpoint c = Ok d ∧ st (ck_vbucket c) = Some d.

(** A save writes documents of its batch only, never over a document of another bucket, and
    reports success only for a whole batch. *)
Definition save_ok (batch : list DcpCheckpoint) (st : Holdings) (o : outcome unit)
    (st' : Holdings) : Prop :=
  (∀ vb, st' vb = st vb
         ∨ ∃ c, c ∈ batch ∧ ck_vbucket c = vb ∧ persisted st' c
                ∧ ∀ d, st vb = Some d → ck_bucket_uuid c = Some (sd_bucket_uuid d))
  ∧ (o = Done (Ok tt) → NoDup (ck_vbucket <$> batch) ∧ ∀ c, c ∈ batch → persisted st' c).

(** A load changes nothing and returns exactly the requested positions it holds. *)
Definition load_ok (bucket_uuid : string) (vbs : list Z) (st : Holdings)
    (o : outcome (gmap Z DcpCheckpoint)) (st' : Holdings) : Prop :=
  (∀ vb, st' vb = st vb)
  ∧ ∀ m, o = Done (Ok m) → ∀ vb,
      match (if bool_decide (vb ∈ vbs) then st vb else None) with
      | Some d => ∃ c, into_checkpoint d vb bucket_uuid = Ok c ∧ m !! vb = Some c
      | None => m !! vb = None
      end.

(** Clearing removes requested documents of the named bucket only. *)
Definition clear_ok (bucket_uuid : string) (vbs : list Z) (st : Holdings) (o : outcome unit)
    (st' : Holdings) : Prop :=
  (∀ vb, st' vb = st vb
         ∨ vb ∈ vbs ∧ st' vb = None ∧ ∀ d, st vb = Some d → sd_bucket_uuid d = bucket_uuid)
  ∧ (o = Done (Ok tt) → ∀ vb, vb ∈ vbs → st' vb = None).

Class StoreContract {T S : Type} `{CheckpointStore T S} (self : T) (stored : S → Holdings)
    : Prop := {
  save_contract batch s :
    wp (store_save self batch) (λ o s', save_ok batch (stored s) o (stored s')) s;
  load_contract bucket_uuid vbs s :
    wp (store_load self bucket_uuid vbs)
       (λ o s', load_ok bucket_uuid vbs (stored s) o (stored s')) s;
  clear_contract bucket_uuid vbs s :
    wp (store_clear self bucket_uuid vbs)
       (λ o s', clear_ok bucket_uuid vbs (stored s) o (stored s')) s
}.

(** ** The file store *)
Section FileSystem.
Implicit Types (s : Fs) (p q : PathBuf) (f : gmap PathBuf bytes).

(** An operation passes its result on, fails with its partial effect, or is the last. *)
Lemma wp_fs_call {A} (op : gmap PathBuf bytes → res IoError A * gmap PathBuf bytes)
    (failed stopped : nat → gmap PathBuf bytes → gmap PathBuf bytes)
    (Q : outcome (res IoError A) → Fs → Prop) s :
  (∀ s', fs_files s' = (op (fs_files s)).2 → fs_pid s' = fs_pid s →
     Q (Done (Ok (op (fs_files s)).1)) s') →
  (∀ s' n m, fs_files s' = failed n (fs_files s) → fs_pid s' = fs_pid s →
     Q (Done (Ok (Err (IoOther m)))) s') →
  (∀ s' n, fs_files s' = stopped n (fs_files s) → fs_pid s' = fs_pid s → Q Hang s') →
  wp (fs_call op failed stopped) Q s.
Proof.
  intros H1 H2 H3. unfold wp, fs_call, next_fault. destruct s as [files faults pid rnd n].
  destruct faults as [|[|k m|k] faults]; cbn in *; try (by eapply H2); try (by eapply H3).
  all: destruct (op files) eqn:Hop; by apply H1.
Qed.

(** The same behind [map_err(..)?]. *)
Lemma wp_io_or {A} context (op : gmap PathBuf bytes → res IoError A * gmap PathBuf bytes)
    (failed stopped : nat → gmap PathBuf bytes → gmap PathBuf bytes)
    (Q : outcome A → Fs → Prop) s :
  (∀ s', fs_files s' = (op (fs_files s)).2 → fs_pid s' = fs_pid s →
     match (op (fs_files s)).1 with
     | Ok a => Q (Done (Ok a)) s'
     | Err _ => ∀ e, Q (Done (Err e)) s'
     | Panic => Q (Done Panic) s'
     end) →
  (∀ s' n e, fs_files s' = failed n (fs_files s) → fs_pid s' = fs_pid s → Q (Done (Err e)) s') →
  (∀ s' n, fs_files s' = stopped n (fs_files s) → fs_pid s' = fs_pid s → Q Hang s') →
  wp (io_or context (fs_call op failed stopped)) Q s.
Proof.
  intros H1 H2 H3. unfold io_or. apply wp_bind, wp_fs_call.
  - intros s' Hf Hp. split; [|by intros ? []]. intros a [= <-].
    specialize (H1 s' Hf Hp). destruct ((op (fs_files s)).1); apply wp_lift; cbn; auto.
  - intros s' n m Hf Hp. split; [|by intros ? []]. intros a [= <-]. apply wp_lift. by eapply H2.
  - intros s' n Hf Hp. split; [done|]. intros o' ->. by eapply H3.
Qed.
End FileSystem.

Section FileStoreProofs.
Context `{CheckpointJson}.
Implicit Types (s : Fs) (p q : PathBuf).

(** Only [p] may have changed. *)
Definition touches (p : PathBuf) s s' : Prop :=
  ∀ q, q ≠ p → fs_files s' !! q = fs_files s !! q.

(** What replacing [path] through [temporary] may have done by the end. *)
Record replaced (path temporary : PathBuf) (data : bytes) s (o : outcome unit) s' : Prop := {
  rp_others : ∀ q, q ≠ path → q ≠ temporary → fs_files s' !! q = fs_files s !! q;
  rp_path : fs_files s' !! path = fs_files s !! path ∨ fs_files s' !! path = Some data;
  rp_done : o = Done (Ok tt) → fs_files s' !! path = Some data ∧ fs_files s' !! temporary = None;
  rp_panic : o ≠ Done Panic
}.

Lemma touches_eq p s s' : fs_files s' = fs_files s → touches p s s'.
Proof. by intros Heq q _; rewrite Heq. Qed.
Lemma touches_trans p s s1 s' : touches p s s1 → touches p s1 s' → touches p s s'.
Proof. intros H1 H2 q Hq. by rewrite H2, H1. Qed.
Lemma touches_insert p data s s' : fs_files s' = <[p := data]> (fs_files s) → touches p s s'.
Proof. intros Heq q Hq. by rewrite Heq, lookup_insert_ne. Qed.
Lemma touches_replaced path temporary data s s' (o : outcome unit) :
  temporary ≠ path → touches temporary s s' → o ≠ Done (Ok tt) → o ≠ Done Panic →
  replaced path temporary data s o s'.
Proof. intros Hne Ht Ho Hp. split; [intros q _; apply Ht|left; by apply Ht|done|done]. Qed.
(** One step of the closure: while the temporary file is the only one touched, any way out
    is fine. *)
Lemma wp_stage path temporary data s0 s (m : io Fs unit) (k : unit → io Fs unit)
    (P : Fs → Prop) :
  temporary ≠ path → touches temporary s0 s →
  wp m (λ o s', touches temporary s s' ∧ o ≠ Done Panic ∧ (o = Done (Ok tt) → P s')) s →
  (∀ s', touches temporary s0 s' → P s' → wp (k tt) (replaced path temporary data s0) s') →
  wp (io_bind m k) (replaced path temporary data s0) s.
Proof.
  intros Hne Ht Hm Hk. apply wp_bind. eapply wp_mono; [done|]. cbn.
  intros o s' (Ht' & Hp & HP). split.
  - intros [] ->. apply Hk; [by eapply touches_trans|auto].
  - intros o' [Hl1 Hl2]%leaves_inv. apply touches_replaced; [done|by eapply touches_trans|auto..].
Qed.

Lemma wp_sync_directory dir (Q : outcome unit → Fs → Prop) s :
  (∀ o s', fs_files s' = fs_files s → o ≠ Done Panic → Q o s') →
  wp (sync_directory dir) Q s.
Proof.
  intros HQ. apply wp_io_or; cbn; intros s'; intros; [|by apply HQ..].
  case_bool_decide; intros; by apply HQ.
Qed.

Lemma replace_file_spec path temporary dir data s :
  temporary ≠ path →
  wp (replace_file path temporary dir data) (replaced path temporary data s) s.
Proof.
  intros Hne. unfold replace_file.
  apply (wp_stage path temporary data s s _ _ (λ _, True)); [done|by apply touches_eq|..].
  { apply wp_io_or; cbn.
    - intros s' Hf _. destruct (fs_files s !! temporary); cbn in *;
        [intros e; split; [by apply touches_eq|done]|split; [by eapply touches_insert|done]].
    - intros s' n e Hf _. split; [by apply touches_eq|done].
    - intros s' n Hf _. split; [|done]. destruct n; [by apply touches_eq|]. cbn in Hf.
      destruct (fs_files s !! temporary); [by apply touches_eq|by eapply touches_insert]. }
  intros s1 Ht1 _.
  apply (wp_stage path temporary data s s1 _ _ (λ s', fs_files s' !! temporary = Some data));
    [done|done|..].
  { apply wp_io_or; cbn; intros s'; intros; (split; [by eapply touches_insert|]); [|done..].
    split; [done|]. intros _. rewrite H0. by rewrite lookup_insert_eq. }
  intros s2 Ht2 Hd2.
  apply (wp_stage path temporary data s s2 _ _ (λ s', fs_files s' !! temporary = Some data));
    [done|done|..].
  { apply wp_io_or; cbn; intros s'; intros; (split; [by apply touches_eq|]); [|done..].
    split; [done|]. intros _. congruence. }
  intros s3 Ht3 Hd3.
  assert (∀ s' o, fs_files s' = rename_effect temporary path (fs_files s3) → o ≠ Done Panic →
    replaced path temporary data s o s') as Hrn.
  { intros s' o Hf Ho. unfold rename_effect in Hf. rewrite Hd3 in Hf.
    split; [|right|intros _|done].
    - intros q Hq1 Hq2. rewrite Hf, lookup_insert_ne, lookup_delete_ne by done. by apply Ht3.
    - by rewrite Hf, lookup_insert_eq.
    - rewrite Hf, lookup_insert_eq, lookup_insert_ne, lookup_delete_eq by done. done. }
  apply wp_bind, wp_io_or; cbn.
  - intros s' Hf _. rewrite Hd3. split; [|by intros ? []]. intros _ _.
    apply wp_sync_directory. intros o s4 Hf4 Ho. apply Hrn; [congruence|done].
  - intros s' n e Hf _. split; [done|]. intros o ->. apply touches_replaced; [done| |done..].
    eapply touches_trans; [done|]. by apply touches_eq.
  - intros s' n Hf _. split; [done|]. intros o ->. destruct n; [|by apply Hrn].
    apply touches_replaced; [done| |done..]. eapply touches_trans; [done|]. by apply touches_eq.
Qed.

(** The document file after a write: the old one or all of the new one. *)
Record wrote (path : PathBuf) (ds : Documents) s (o : outcome unit) s' : Prop := {
  wr_others : ∀ q, q ≠ path → fs_files s' !! q ≠ fs_files s !! q →
    ∃ name pid random, file_name path = Some name
      ∧ q = path_join (parent_or_current path) (temporary_name name pid random);
  wr_path : fs_files s' !! path = fs_files s !! path
            ∨ ∃ data, documents_to_vec ds = inr data ∧ fs_files s' !! path = Some data;
  wr_done : o = Done (Ok tt) →
            ∃ data, documents_to_vec ds = inr data ∧ fs_files s' !! path = Some data;
  wr_panic : o ≠ Done Panic
}.
Lemma wrote_nothing path ds s s' (o : outcome unit) :
  fs_files s' = fs_files s → o ≠ Done (Ok tt) → o ≠ Done Panic → wrote path ds s o s'.
Proof. intros Hf Ho Hp. split; [by rewrite Hf|left; by rewrite Hf|done|done]. Qed.

Lemma temporary_name_longer name pid random : temporary_name name pid random ≠ name.
Proof.
  intros Heq%(f_equal String.length). unfold temporary_name in Heq.
  rewrite !string_length_app in Heq. cbn in Heq. lia.
Qed.
Lemma file_name_inv path name :
  file_name path = Some name → path = path_join (parent_or_current path) name.
Proof.
  unfold file_name, parent_or_current, parent, path_join. destruct path as [a cs].
  cbn [p_absolute p_components].
  destruct cs as [|c cs _] using rev_ind; [done|]. rewrite last_snoc.
  case_match; [done|]. intros [= <-].
  destruct (cs ++ [c]) eqn:Hc; [by destruct cs|]. rewrite <-Hc. cbn [from_option id p_absolute p_components].
  by rewrite removelast_last.
Qed.
Lemma wp_draw_random (Q : outcome Z → Fs → Prop) s :
  (∀ o s', fs_files s' = fs_files s → o ≠ Done Panic → Q o s') → wp draw_random Q s.
Proof. intros HQ. unfold wp, draw_random. cbn. apply HQ; [done|]. by case_match. Qed.

Lemma write_file_documents_spec path ds s :
  wp (write_file_documents path ds) (wrote path ds s) s.
Proof.
  unfold write_file_documents. apply wp_bind, wp_lift.
  destruct (documents_to_vec ds) as [err|data] eqn:Hvec.
  { wp_leave. by apply wrote_nothing. }
  wp_ok.
  apply wp_bind, wp_io_or; cbn.
  2: { intros s1 n e Hf _. wp_leave. by apply wrote_nothing. }
  2: { intros s1 n Hf _. wp_leave. by apply wrote_nothing. }
  intros s1 Hf1 _. wp_ok.
  apply wp_bind, wp_draw_random. intros o s2 Hf2 Ho. rewrite Hf1 in Hf2. split.
  2: { intros o' [? ?]%leaves_inv. apply wrote_nothing; auto. }
  intros random ->. apply wp_bind, wp_lift.
  destruct (file_name path) as [name0|] eqn:Hname; cbn [mbind option_bind ok_or].
  2: { wp_leave. by apply wrote_nothing. }
  destruct (from_utf8 (as_bytes name0)) as [name|] eqn:Hutf; cbn [ok_or].
  2: { wp_leave. by apply wrote_nothing. }
  wp_ok.
  apply from_utf8_inv in Hutf as ->.
  apply wp_bind, wp_get. wp_ok.
  set (temporary := path_join _ _).
  assert (temporary ≠ path) as Hne.
  { rewrite (file_name_inv _ _ Hname). intros [= [_ [= Heq]]%app_inj_2]; [|done].
    by eapply temporary_name_longer. }
  apply wp_bind, wp_try. eapply wp_mono; [by apply replace_file_spec|].
  intros o s3 [R1 R2 R3 R4].
  assert (∀ o' s', (∀ q, q ≠ temporary → fs_files s' !! q = fs_files s3 !! q) →
    (o' = Done (Ok tt) → o = Done (Ok tt)) → o' ≠ Done Panic → wrote path ds s o' s') as Hw.
  { intros o' s' Hs' Ho' Hp'. split; rewrite <-?Hf2; [..|done].
    - intros q Hq Hch. exists name0, (fs_pid s2), random. split; [done|].
      destruct (decide (q = temporary)) as [->|Hq']; [done|]. by rewrite Hs', R1 in Hch.
    - rewrite Hs' by done. destruct R2; eauto.
    - intros Hok. rewrite Hs' by done. destruct R3; eauto. }
  split_and!; [|done|intros ->; wp_leave; by apply Hw].
  intros r -> Hr. wp_ok.
  destruct r as [[]|e|]; cbn [is_ok]; [|..|done].
  - apply wp_bind, wp_ret. wp_ok. apply wp_lift. by apply Hw.
  - apply wp_bind, wp_bind. apply wp_fs_call; cbn.
    + intros s4 Hf4 _. wp_ok. apply wp_ret.
      wp_ok. apply wp_lift. apply Hw; [|done..].
      intros q Hq. by rewrite Hf4, lookup_delete_ne.
    + intros s4 n m Hf4 _. wp_ok. apply wp_ret.
      wp_ok. apply wp_lift. apply Hw; [|done..].
      intros q Hq. by rewrite Hf4.
    + intros s4 n Hf4 _. wp_leave. wp_leave.
      apply Hw; [|done..]. intros q Hq. rewrite Hf4. destruct n; [done|]. cbn.
      by rewrite lookup_delete_ne.
Qed.

(** *** The contract *)
Definition documents_of (data : option bytes) : Documents :=
  match data with
  | Some data => match documents_from_slice data with inr ds => ds | inl _ => ∅ end
  | None => ∅
  end.
Definition file_stored (self : FileCheckpointStore) s : Holdings :=
  λ vb, documents_of (fs_files s !! fcs_path self) !! vb.

Lemma file_stored_eq self s s' :
  fs_files s' = fs_files s → ∀ vb, file_stored self s' vb = file_stored self s vb.
Proof. intros Hf vb. unfold file_stored. by rewrite Hf. Qed.

(** What a read found at [path]. *)
Definition read_as (data : option bytes) (r : option Documents) : Prop :=
  match data, r with
  | None, None => True
  | Some data, Some ds => documents_from_slice data = inr ds
  | _, _ => False
  end.
Lemma read_as_documents data r : read_as data r → default ∅ r = documents_of data.
Proof. destruct data, r; cbn; [|done..]. by intros ->. Qed.

Lemma wp_read_file path (Q : outcome (option Documents) → Fs → Prop) s :
  (∀ s' r, fs_files s' = fs_files s → read_as (fs_files s !! path) r → Q (Done (Ok r)) s') →
  (∀ s' o, fs_files s' = fs_files s → (∀ r, o ≠ Done (Ok r)) → o ≠ Done Panic → Q o s') →
  wp (read_file_documents path) Q s.
Proof.
  intros H1 H2. unfold read_file_documents. apply wp_bind, wp_fs_call; cbn.
  - intros s' Hf _. wp_ok. apply wp_lift.
    destruct (fs_files s !! path) as [data|] eqn:Hd; cbn [ok_or].
    + destruct (documents_from_slice data) eqn:Hds; [by apply H2|]. by apply H1.
    + by apply H1.
  - intros s' n m Hf _. wp_ok. by apply wp_lift, H2.
  - intros s' n Hf _. wp_leave. by apply H2.
Qed.
Lemma wp_spawn {A} (m : io Fs A) (Q : outcome A → Fs → Prop) s :
  (∀ s', fs_files s' = fs_files s → wp m Q s') →
  (∀ s' o, fs_files s' = fs_files s → (∀ r, o ≠ Done (Ok r)) → o ≠ Done Panic → Q o s') →
  wp (spawn_blocking m) Q s.
Proof.
  intros H1 H2. unfold spawn_blocking, wp, next_fault. destruct s as [files faults pid rnd n].
  destruct faults as [|[|k e|k] faults]; cbn; [by apply H1|by apply H1|by apply H2|by apply H2].
Qed.

(** Outcomes that change nothing keep any part of the contract. *)
Lemma save_ok_same batch (st st' : Holdings) (o : outcome unit) :
  (∀ vb, st' vb = st vb) → o ≠ Done (Ok tt) → save_ok batch st o st'.
Proof. intros Hst Ho. split; [by left|done]. Qed.
Lemma clear_ok_same u vbs (st st' : Holdings) (o : outcome unit) :
  (∀ vb, st' vb = st vb) → o ≠ Done (Ok tt) → clear_ok u vbs st o st'.
Proof. intros Hst Ho. split; [by left|done]. Qed.
Lemma load_ok_same u vbs (st st' : Holdings) (o : outcome (gmap Z DcpCheckpoint)) :
  (∀ vb, st' vb = st vb) → (∀ m, o ≠ Done (Ok m)) → load_ok u vbs st o st'.
Proof. intros Hst Ho. split; [done|]. intros m Hm. by destruct (Ho m). Qed.

(** The JSON of what was written is read back. *)
Class CheckpointJsonLaws : Prop := {
  documents_roundtrip ds data :
    documents_to_vec ds = inr data → documents_from_slice data = inr ds;
  document_roundtrip d data :
    document_to_vec d = inr data → document_from_slice data = inr d
}.
Context `{CheckpointJsonLaws}.

Lemma wrote_stored self ds s s' o :
  wrote (fcs_path self) ds s o s' →
  ((∀ vb, file_stored self s' vb = file_stored self s vb)
   ∨ ∀ vb, file_stored self s' vb = ds !! vb)
  ∧ (o = Done (Ok tt) → ∀ vb, file_stored self s' vb = ds !! vb).
Proof.
  intros [_ W2 W3 _].
  assert (∀ data, documents_to_vec ds = inr data →
    fs_files s' !! fcs_path self = Some data → ∀ vb, file_stored self s' vb = ds !! vb) as Hd.
  { intros data Hdata Hf vb. unfold file_stored. rewrite Hf. cbn.
    by rewrite (documents_roundtrip _ _ Hdata). }
  split.
  - destruct W2 as [W2|(data & ? & ?)]; [left|right; eauto].
    intros vb. unfold file_stored. by rewrite W2.
  - intros (data & ? & ?)%W3. eauto.
Qed.

(** How a save ends: before the file is touched, or with a write of the merged documents. *)
Inductive saved (self : FileCheckpointStore) (batch : list DcpCheckpoint) s
    : outcome unit → Fs → Prop :=
| saved_stopped o s' :
    fs_files s' = fs_files s → o ≠ Done (Ok tt) → o ≠ Done Panic → saved self batch s o s'
| saved_nothing :
    serialize_checkpoint_batch batch = Ok ∅ → saved self batch s (Done (Ok tt)) s
| saved_merged updates r o s' :
    serialize_checkpoint_batch batch = Ok updates →
    read_as (fs_files s !! fcs_path self) r →
    (∀ vb d d', updates !! vb = Some d → default ∅ r !! vb = Some d' →
       sd_bucket_uuid d' = sd_bucket_uuid d) →
    wrote (fcs_path self) (updates ∪ default ∅ r) s o s' → saved self batch s o s'.

Lemma wrote_files path ds s s1 o s' :
  fs_files s1 = fs_files s → wrote path ds s1 o s' → wrote path ds s o s'.
Proof. intros Hf []. split; rewrite <-?Hf; done. Qed.

Lemma file_save_spec self batch s : wp (file_save self batch) (saved self batch s) s.
Proof.
  unfold file_save. apply wp_bind, wp_lift. pose proof (serialize_spec batch) as Hs.
  destruct (serialize_checkpoint_batch batch) as [updates|e|] eqn:Hser;
    [|wp_leave; by apply saved_stopped|done].
  wp_ok. case_bool_decide as Hempty.
  { subst updates. apply wp_ret. by apply saved_nothing. }
  apply wp_spawn; [|intros; by apply saved_stopped].
  intros s1 Hf1. apply wp_bind, wp_read_file.
  2: { intros s2 o Hf2 Ho ?. split; [intros a Ha; by destruct (Ho a)|].
       intros o' [??]%leaves_inv. apply saved_stopped; [congruence|auto..]. }
  intros s2 r Hf2 Hr. wp_ok. apply wp_bind, wp_lift.
  pose proof (for_res_checks (btree_to_list updates) (check_update (default ∅ r))) as Hck.
  destruct (for_res _ _ _) as [[]|e|].
  2: { wp_leave. apply saved_stopped; [congruence|done..]. }
  2: { destruct Hck as ([vb d] & _ & Hp). unfold check_update in Hp. by repeat case_match. }
  wp_ok. eapply wp_mono; [apply write_file_documents_spec|]. intros o s3 Hw.
  apply (saved_merged _ _ _ updates r); [done|by rewrite <-Hf1| |].
  - intros vb d d' Hd Hd'. specialize (Hck (vb, d)). cbn in Hck.
    rewrite elem_of_btree_to_list, Hd' in Hck. specialize (Hck Hd). by case_bool_decide.
  - eapply wrote_files; [|done]. congruence.
Qed.

Lemma file_save_contract self batch s :
  wp (file_save self batch) (λ o s', save_ok batch (file_stored self s) o (file_stored self s')) s.
Proof.
  eapply wp_mono; [apply file_save_spec|]. pose proof (serialize_spec batch) as Hs.
  intros o s' [o' s'' Hf Ho _|Hser|updates r o' s'' Hser Hr Hck Hw].
  { apply save_ok_same; [by apply file_stored_eq|done]. }
  { rewrite Hser in Hs. destruct Hs as [[Hnd Hall _] _]. split; [by left|]. intros _.
    split; [done|]. intros c (d & _ & Hd)%Hall. by rewrite lookup_empty in Hd. }
  rewrite Hser in Hs. destruct Hs as [[Hnd Hall Honly] _].
  apply wrote_stored in Hw as [Hst Hok].
  assert (∀ vb, default ∅ r !! vb = file_stored self s vb) as Hdocs
    by (intros vb; by rewrite (read_as_documents _ _ Hr)).
  assert (∀ c, c ∈ batch → (∀ vb, file_stored self s'' vb = (updates ∪ default ∅ r) !! vb) →
    persisted (file_stored self s'') c) as Hper.
  { intros c Hc Heq. destruct (Hall c Hc) as (d & Hd & Hl). exists d. split; [done|].
    rewrite Heq. by apply lookup_union_Some_l. }
  split; [|intros Ho; split; [done|]; intros c Hc; apply Hper; [done|by apply Hok]].
  intros vb. destruct Hst as [Hst|Hst]; [left; by rewrite Hst|].
  destruct (updates !! vb) as [d|] eqn:Hu.
  2: { left. rewrite Hst, lookup_union_r by done. apply Hdocs. }
  right. destruct (Honly vb d Hu) as (c & Hc & <- & Hd). exists c.
  split_and!; [done|done|by apply Hper|]. intros d' Hd'.
  pose proof (from_checkpoint_spec c) as Hs. rewrite Hd in Hs. destruct Hs as (_ & -> & _).
  f_equal. rewrite <-Hdocs in Hd'. symmetry. by eapply Hck.
Qed.

(** Selecting and converting entries of a map, key by key. *)
Lemma collect_documents (ds : Documents) (vbs : list Z) u l' m vb :
  mapM_res (λ '(vbucket, document),
      let? checkpoint := into_checkpoint document vbucket u in Ok (vbucket, checkpoint))
    (filter (λ e, e.1 ∈ (list_to_set vbs : gset Z)) (btree_to_list ds)) = Ok l' →
  m = btree_collect l' →
  match (if bool_decide (vb ∈ vbs) then ds !! vb else None) with
  | Some d => ∃ c, into_checkpoint d vb u = Ok c ∧ m !! vb = Some c
  | None => m !! vb = None
  end.
Proof.
  intros Hl%mapM_res_ok ->. set (l := filter _ _) in Hl.
  assert (∀ vb d, (vb, d) ∈ l ↔ vb ∈ vbs ∧ ds !! vb = Some d) as Hin.
  { intros vb' d. unfold l. rewrite list_elem_of_filter, elem_of_btree_to_list. set_solver. }
  assert (l'.*1 = l.*1) as Hkeys.
  { clear Hin. induction Hl as [|[k d] [k' c] l0 l1 Hx Hl IH]; [done|]. cbn.
    destruct (into_checkpoint d k u); simplify_eq. by f_equal. }
  assert (NoDup l'.*1) as Hnd.
  { rewrite Hkeys. unfold l. eapply sublist_NoDup; [apply (NoDup_btree_to_list_keys ds)|].
    apply fmap_sublist, sublist_filter. }
  assert (∀ c, btree_collect l' !! vb = Some c ↔ ∃ d, (vb, d) ∈ l ∧ into_checkpoint d vb u = Ok c)
    as Hlk.
  { intros c. rewrite btree_collect_lookup by done. split.
    - intros Hc. apply list_elem_of_lookup in Hc as [i Hi].
      destruct (Forall2_lookup_r _ _ _ _ _ Hl Hi) as ([k d] & Hk & Hx).
      destruct (into_checkpoint d k u) eqn:Hd; simplify_eq. exists d.
      split; [by eapply list_elem_of_lookup_2|done].
    - intros (d & [i Hi]%list_elem_of_lookup & Hd).
      destruct (Forall2_lookup_l _ _ _ _ _ Hl Hi) as ([k c'] & Hk & Hx).
      rewrite Hd in Hx. simplify_eq. by eapply list_elem_of_lookup_2. }
  assert (∀ d, (vb, d) ∈ l → ∃ c, into_checkpoint d vb u = Ok c) as Hok.
  { intros d [i Hi]%list_elem_of_lookup.
    destruct (Forall2_lookup_l _ _ _ _ _ Hl Hi) as ([k c'] & Hk & Hx).
    destruct (into_checkpoint d vb u); eauto; done. }
  destruct (if bool_decide (vb ∈ vbs) then ds !! vb else None) as [d|] eqn:Hsel.
  - assert ((vb, d) ∈ l) as Hd by (apply Hin; by case_bool_decide).
    destruct (Hok d Hd) as [c Hc]. exists c. split; [done|]. apply Hlk. eauto.
  - destruct (btree_collect l' !! vb) as [c|] eqn:Hc; [|done].
    destruct (proj1 (Hlk c) eq_refl) as (d & [Hvb Hd]%Hin & _). by rewrite bool_decide_true, Hd in Hsel.
Qed.

Lemma file_load_contract self u vbs s :
  wp (file_load self u vbs) (λ o s', load_ok u vbs (file_stored self s) o (file_stored self s')) s.
Proof.
  unfold file_load. apply wp_bind, wp_lift. pose proof (validate_vbuckets_spec vbs) as Hv.
  destruct (validate_vbuckets vbs) as [[]|e|]; [|wp_leave; by apply load_ok_same|done]. wp_ok.
  apply wp_bind, wp_spawn.
  2: { intros s1 o Hf1 Ho ?. split; [intros a Ha; by destruct (Ho a)|].
       intros o' [??]%leaves_inv. apply load_ok_same; [by apply file_stored_eq|done]. }
  intros s1 Hf1. apply wp_read_file.
  2: { intros s2 o Hf2 Ho ?. split; [intros a Ha; by destruct (Ho a)|].
       intros o' [??]%leaves_inv. apply load_ok_same; [apply file_stored_eq; congruence|done]. }
  intros s2 r Hf2 Hr%read_as_documents. wp_ok. apply wp_lift. split; [apply file_stored_eq; congruence|].
  intros m [= Hm] vb. destruct (mapM_res _ _) as [l'|e|] eqn:Hl; simplify_eq/=.
  unfold file_stored. rewrite <-Hf1, <-Hr. by eapply collect_documents.
Qed.

Lemma remove_all_spec u vbs (ds : Documents) :
  match for_res vbs ds (remove_one u) with
  | Ok ds' => (∀ vb, ds' !! vb = if bool_decide (vb ∈ vbs) then None else ds !! vb)
              ∧ ∀ vb d, vb ∈ vbs → ds !! vb = Some d → sd_bucket_uuid d = u
  | Err _ => True
  | Panic => False
  end.
Proof.
  revert ds. induction vbs as [|vb vbs IH]; intros ds; cbn [for_res].
  { split; [done|]. by intros ?? ?%elem_of_nil. }
  assert (∀ ds', remove_one u ds vb = Ok ds' →
    ds' = delete vb ds ∧ ∀ d, ds !! vb = Some d → sd_bucket_uuid d = u) as H1.
  { unfold remove_one. destruct (ds !! vb) as [d|] eqn:Hd; [|by intros ? [= <-]].
    case_bool_decide; [|done]. intros ? [= <-]. split; [done|]. by intros ? [= <-]. }
  destruct (remove_one u ds vb) as [ds1|e|] eqn:Hr; [|done|].
  2: { unfold remove_one in Hr. by repeat case_match. }
  destruct (H1 ds1 eq_refl) as [-> Hu]. specialize (IH (delete vb ds)).
  destruct (for_res vbs (delete vb ds) (remove_one u)) as [ds2|e|]; [|done..].
  destruct IH as [IH1 IH2]. split.
  - intros vb'. rewrite IH1. destruct (decide (vb' = vb)) as [->|Hne].
    + rewrite lookup_delete_eq, (bool_decide_true (vb ∈ vb :: vbs)) by left. by case_bool_decide.
    + rewrite lookup_delete_ne by done. by rewrite (bool_decide_ext (vb' ∈ vb :: vbs) (vb' ∈ vbs))
        by set_solver.
  - intros vb' d Hvb Hd. destruct (decide (vb' = vb)) as [->|Hne]; [by apply Hu|].
    apply (IH2 vb'); [set_solver|]. by rewrite lookup_delete_ne.
Qed.

(** The two ways to store what is left after clearing. *)
Lemma wp_remove_store_file path (Q : outcome unit → Fs → Prop) s :
  (∀ o s', (∀ q, q ≠ path → fs_files s' !! q = fs_files s !! q) →
     fs_files s' !! path = fs_files s !! path ∨ fs_files s' !! path = None →
     (o = Done (Ok tt) → fs_files s' !! path = None) → o ≠ Done Panic → Q o s') →
  wp (remove_store_file path) Q s.
Proof.
  intros HQ. unfold remove_store_file. apply wp_bind, wp_fs_call; cbn.
  - intros s1 Hf1 _. wp_ok.
    assert (∀ q, q ≠ path → fs_files s1 !! q = fs_files s !! q) as Hq
      by (intros q Hq; by rewrite Hf1, lookup_delete_ne).
    assert (fs_files s1 !! path = None) as Hp by (by rewrite Hf1, lookup_delete_eq).
    destruct (fs_files s !! path) eqn:Hpath.
    + apply wp_sync_directory. intros o s2 Hf2 Ho. apply HQ; rewrite ?Hf2; auto.
    + apply wp_ret, HQ; auto.
  - intros s1 n m Hf1 _. wp_ok. apply wp_lift, HQ; rewrite ?Hf1; auto; done.
  - intros s1 n Hf1 _. wp_leave. destruct n; cbn in Hf1; apply HQ; rewrite ?Hf1; auto; try done.
    + intros q Hq. by rewrite lookup_delete_ne.
    + right. apply lookup_delete_eq.
Qed.

Lemma file_clear_contract self u vbs s :
  wp (file_clear self u vbs)
     (λ o s', clear_ok u vbs (file_stored self s) o (file_stored self s')) s.
Proof.
  unfold file_clear. apply wp_bind, wp_lift. pose proof (validate_vbuckets_spec vbs) as Hv.
  destruct (validate_vbuckets vbs) as [[]|e|]; [|wp_leave; by apply clear_ok_same|done]. wp_ok.
  destruct vbs as [|v0 vbs0]; [apply wp_ret; split; [by left|by intros _ ? ?%elem_of_nil]|].
  set (vbs := v0 :: vbs0) in *.
  apply wp_spawn; [|intros; apply clear_ok_same; [by apply file_stored_eq|done]].
  intros s1 Hf1. apply wp_bind, wp_read_file.
  2: { intros s2 o Hf2 Ho ?. split; [intros a Ha; by destruct (Ho a)|].
       intros o' [??]%leaves_inv. apply clear_ok_same; [apply file_stored_eq; congruence|done]. }
  intros s2 r Hf2 Hr%read_as_documents. wp_ok.
  assert (∀ vb, default ∅ r !! vb = file_stored self s vb) as Hdocs.
  { intros vb. rewrite Hr. unfold file_stored. by rewrite Hf1. }
  assert (∀ vb, file_stored self s2 vb = file_stored self s vb) as Hs2
    by (apply file_stored_eq; congruence).
  destruct r as [ds|]; cbn in Hdocs; last first.
  { apply wp_ret. split; [by left|]. intros _ vb _. by rewrite Hs2, <-Hdocs, lookup_empty. }
  apply wp_bind, wp_lift. pose proof (remove_all_spec u vbs ds) as Hrm.
  destruct (for_res vbs ds (remove_one u)) as [ds'|e|]; [|wp_leave; by apply clear_ok_same|done].
  destruct Hrm as [Hrm1 Hrm2]. wp_ok.
  assert (∀ o s', (∀ vb, file_stored self s' vb = file_stored self s2 vb)
      ∨ (∀ vb, file_stored self s' vb = ds' !! vb) →
    (o = Done (Ok tt) → ∀ vb, file_stored self s' vb = ds' !! vb) →
    clear_ok u vbs (file_stored self s) o (file_stored self s')) as Hfin.
  { intros o s' Hst Hok. split.
    - intros vb. destruct Hst as [Hst|Hst]; [left; by rewrite Hst|].
      rewrite Hst, Hrm1, <-Hdocs. case_bool_decide; [right|by left]. eauto.
    - intros Ho vb Hvb. rewrite Hok, Hrm1 by done. by rewrite bool_decide_true. }
  case_bool_decide as Hempty.
  - apply wp_remove_store_file. intros o s' _ Hp Hok _.
    assert (fs_files s' !! fcs_path self = None → ∀ vb, file_stored self s' vb = ds' !! vb) as Hn.
    { intros Hn vb. unfold file_stored. by rewrite Hn, Hempty. }
    apply Hfin; [|auto]. destruct Hp as [Hp|Hp]; [left|right; auto].
    intros vb. unfold file_stored. by rewrite Hp.
  - eapply wp_mono; [apply write_file_documents_spec|]. intros o s' Hw.
    apply wrote_stored in Hw as [Hst Hok]. by apply Hfin.
Qed.

#[export] Instance file_store_contract self : StoreContract self (file_stored self).
Proof.
  split; [apply file_save_contract|apply file_load_contract|apply file_clear_contract].
Qed.
End FileStoreProofs.

(** ** What any store gives its clients *)
Section Client.
Context {T S : Type} `{CheckpointStore T S} (self : T) (stored : S → Holdings).
Context `{!StoreContract self stored}.

Lemma from_into_checkpoint c d u c' :
  from_checkpoint c = Ok d → into_checkpoint d (ck_vbucket c) u = Ok c' → c' = c.
Proof.
  intros Hd Hc. pose proof (from_checkpoint_spec c) as Hs. rewrite Hd in Hs.
  destruct Hs as (_ & _ & Hi). unfold into_checkpoint in *.
  rewrite bool_decide_true in Hi by done. cbn [negb] in Hi.
  case_bool_decide; [|done]. cbn [negb] in Hc. congruence.
Qed.

Lemma load_after_save batch u vbs s s1 s2 m :
  store_save self batch s = (Done (Ok tt), s1) →
  store_load self u vbs s1 = (Done (Ok m), s2) →
  ∀ c, c ∈ batch → ck_vbucket c ∈ vbs → m !! ck_vbucket c = Some c.
Proof.
  intros Hsave Hload c Hc Hvb.
  destruct (wp_run _ _ _ _ _ (save_contract batch s) Hsave) as [_ Hok].
  destruct (Hok eq_refl) as [_ Hper]. destruct (Hper c Hc) as (d & Hd & Hst).
  destruct (wp_run _ _ _ _ _ (load_contract u vbs s1) Hload) as [_ Hm].
  specialize (Hm m eq_refl (ck_vbucket c)). rewrite bool_decide_true, Hst in Hm by done.
  destruct Hm as (c' & Hc' & ->). f_equal. by eapply from_into_checkpoint.
Qed.
End Client.

(** ** Saving as a path of the flushing system *)
Section Flushing.
Context (uuid : string) (timeout : Duration).

(** The batches of a flush are what a store accepts. *)
Definition batch_good (b : list Item) : Prop :=
  batch_ok uuid (dc_checkpoint <$> b.*1)
  ∧ ∀ i, i ∈ b → ck_vbucket (dc_checkpoint i.1) = dc_vbucket i.1.
Definition batches_good (s : System) : Prop :=
  (∀ t f, sy_tasks s !! t = Some f → batch_good (stage_batch f))
  ∧ ∀ w b, sy_gate s = GateSaving w b → batch_good b.

Lemma batch_good_nil : batch_good [].
Proof. split; [split; [apply NoDup_nil_2|by intros ? ?%elem_of_nil]|by intros ? ?%elem_of_nil]. Qed.

Lemma collect_good s dirty :
  sys_inv uuid s → flush_collect (sy_coord s) = Ok dirty → batch_good (tag_batch s dirty).
Proof.
  intros Hinv. pose proof (si_coord _ _ Hinv) as Hco. unfold flush_collect, read_lock.
  rewrite (co_poison _ _ Hco). intros [= <-].
  assert ((tag_batch s (collect_dirty (cs_partitions (sy_coord s)))).*1
    = collect_dirty (cs_partitions (sy_coord s))) as Hfst.
  { unfold tag_batch. rewrite <-list_fmap_compose. apply list_fmap_id. }
  assert (∀ d, d ∈ collect_dirty (cs_partitions (sy_coord s)) →
    good_checkpoint uuid (dc_vbucket d) (dc_checkpoint d)) as Hgood.
  { intros d (p & Hp & _ & Hd)%collect_dirty_elem.
    destruct (view_of_partition _ _ _ _ Hco Hp) as (v & Hv & <- & Href).
    rewrite Hd. cbn. rewrite (rf_processed _ _ _ _ Href).
    eapply ledger_processed_good, Href. }
  split; [split|].
  - rewrite Hfst. rewrite <-list_fmap_compose.
    assert (NoDup (dc_vbucket <$> collect_dirty (cs_partitions (sy_coord s)))) as Hnd.
    { unfold collect_dirty. rewrite <-list_fmap_compose, (list_fmap_ext _ fst) by by intros ? [] ?.
      eapply sublist_NoDup; [apply (NoDup_btree_to_list_keys (cs_partitions (sy_coord s)))|].
      apply fmap_sublist, sublist_filter. }
    rewrite (list_fmap_ext _ dc_vbucket); [done|].
    intros i d Hd%list_elem_of_lookup_2. by apply Hgood in Hd as (_ & ? & _).
  - rewrite Hfst. intros c (d & -> & Hd)%list_elem_of_fmap.
    by apply Hgood in Hd as (? & _ & ?).
  - intros i Hi. assert (i.1 ∈ collect_dirty (cs_partitions (sy_coord s))) as Hd.
    { rewrite <-Hfst. by apply list_elem_of_fmap_2. }
    by apply Hgood in Hd as (_ & ? & _).
Qed.

Lemma batches_good_insert s t f g :
  batches_good s → batch_good (stage_batch f) → (∀ w b, g = GateSaving w b → batch_good b) →
  batches_good (with_tasks g (<[t := f]> (sy_tasks s)) s).
Proof.
  intros [Ht Hg] Hf Hg'. split; [|done]. cbn.
  intros t' f' [[<- <-]|[_ ?]]%lookup_insert_Some; [done|by eapply Ht].
Qed.
Lemma batches_good_delete s t g :
  batches_good s → (∀ w b, g = GateSaving w b → batch_good b) →
  batches_good (with_tasks g (delete t (sy_tasks s)) s).
Proof.
  intros [Ht Hg] Hg'. split; [|done]. cbn. intros t' f' [_ ?]%lookup_delete_Some. by eapply Ht.
Qed.
Lemma batches_good_reply s w b r :
  batches_good s → batch_good b →
  batches_good (with_tasks GateFree (deliver_reply w b r (sy_tasks s)) s).
Proof.
  intros Hs Hb. destruct w as [t|]; [by apply batches_good_insert|]. by split; [apply Hs|].
Qed.

Lemma step_batches_good s s' :
  sys_inv uuid s → batches_good s → sys_step uuid timeout s s' → batches_good s'.
Proof.
  intros Hinv Hs Hstep. pose proof Hs as [Ht Hg].
  assert (∀ s1, sy_tasks s1 = sy_tasks s → sy_gate s1 = sy_gate s → batches_good s1) as Hsame
    by (intros s1 E1 E2; split; rewrite ?E1, ?E2; done).
  destruct Hstep; try (by apply Hsame);
    try (apply batches_good_insert; [by first [done|apply Hsame]|..]);
    try (apply (batches_good_delete (with_coord c s)); [by apply Hsame|]);
    try (apply batches_good_delete; [done|]);
    try (apply batches_good_reply; [done|]); try done; eauto using batch_good_nil.
  - by apply collect_good.
  - apply (batches_good_insert (with_coord c s)); [by apply Hsame|by apply (Ht t _ H)|].
    intros ? ? [= _ <-]. by apply (Ht t _ H).
  - by apply (Ht t _ H).
  - intros ? ? [= _ <-]. by apply (Ht t _ H).
  - intros ? ? [= _ <-]. by apply (Ht t _ H).
Qed.
Lemma reachable_batches_good s : reachable uuid timeout s → batches_good s.
Proof.
  intros (s0 & Hinit & Hsteps).
  assert (batches_good s0) as H0 by (destruct Hinit; split; done).
  apply init_inv in Hinit.
  induction Hsteps as [|s s' s'' Hs _ IH]; [done|].
  apply IH; [by eapply step_inv|by eapply step_batches_good].
Qed.

(** The store of the system and a real one hold the same positions. *)
Definition agrees (s : System) (st : Holdings) : Prop :=
  ∀ vb, match sy_store s !! vb with
        | Some e => ck_vbucket (se_checkpoint e) = vb ∧ persisted st (se_checkpoint e)
        | None => st vb = None
        end.

(** Writing some items of the batch, one after the other. *)
Lemma write_path s w b l :
  sy_gate s = GateSaving w b → (∀ i, i ∈ l → i ∈ b) →
  rtc (sys_step uuid timeout) s (with_store (foldr write_item (sy_store s) l) s).
Proof.
  intros Hgate. induction l as [|i l IH]; intros Hl; cbn [foldr]; [by destruct s|].
  eapply rtc_r; [apply IH; intros; apply Hl; by right|].
  apply (ss_write _ _ (with_store (foldr write_item (sy_store s) l) s) w b i); [done|].
  apply Hl. by left.
Qed.
Lemma write_items_lookup (st : gmap Z StoreEntry) (l : list Item) :
  NoDup (dc_vbucket <$> l.*1) →
  (∀ i, i ∈ l → foldr write_item st l !! dc_vbucket i.1
                = Some (mkEntry (dc_checkpoint i.1) (Some (i.2, dc_generation i.1))))
  ∧ ∀ vb, (∀ i, i ∈ l → dc_vbucket i.1 ≠ vb) → foldr write_item st l !! vb = st !! vb.
Proof.
  induction l as [|i l IH]; cbn [foldr fmap list_fmap]; [by split; [intros ? ?%elem_of_nil|]|].
  intros [Hi Hnd]%NoDup_cons. destruct (IH Hnd) as [IH1 IH2]. split.
  - intros j [-> |Hj]%elem_of_cons; [by unfold write_item; rewrite lookup_insert_eq|].
    unfold write_item at 1. rewrite lookup_insert_ne; [by apply IH1|]. intros Heq. apply Hi.
    rewrite Heq. by apply list_elem_of_fmap_2, list_elem_of_fmap_2.
  - intros vb Hvb. unfold write_item at 1.
    rewrite lookup_insert_ne by (apply Hvb; left). apply IH2. intros j Hj. apply Hvb. by right.
Qed.

(** The answer of the spawned save, [None] while it has not ended. *)
Definition save_reply (panic : string) (o : outcome unit) : option SaveReply :=
  match o with
  | Done (Ok _) => Some SaveOk
  | Done (Err e) => Some (SaveErr e)
  | Done Panic => Some (SaveJoinError panic)
  | Hang => None
  end.
Definition after_save (w : option nat) (b : list Item) (r : option SaveReply) (s : System)
    : System :=
  match r with
  | Some r => with_tasks GateFree (deliver_reply w b r (sy_tasks s)) s
  | None => s
  end.

Context {T S : Type} `{CheckpointStore T S} (self : T) (stored : S → Holdings).
Context `{!StoreContract self stored}.

Lemma persisted_dec (st : Holdings) c : Decision (persisted st c).
Proof.
  unfold persisted. destruct (from_checkpoint c) as [d|e|]; [|right; naive_solver..].
  destruct (decide (st (ck_vbucket c) = Some d)); [left; eauto|right; naive_solver].
Defined.

Lemma save_path s w b st o st' panic :
  batch_good b → sy_gate s = GateSaving w b → agrees s (stored st) →
  store_save self (dc_checkpoint <$> b.*1) st = (o, st') →
  ∃ store', agrees (with_store store' s) (stored st')
    ∧ rtc (sys_step uuid timeout) s
        (after_save w b (save_reply panic o) (with_store store' s)).
Proof.
  intros [[Hnd _] Hvb] Hgate Hag Hsave.
  destruct (wp_run _ _ _ _ _ (save_contract _ st) Hsave) as [Hch Hok].
  set (P := λ i : Item, persisted (stored st') (dc_checkpoint i.1)).
  assert (∀ i, Decision (P i)) as HP by (intros i; apply persisted_dec).
  set (l := filter P b).
  assert (∀ i, i ∈ l ↔ P i ∧ i ∈ b) as Hl by (intros i; apply list_elem_of_filter).
  assert (dc_vbucket <$> b.*1 = ck_vbucket <$> (dc_checkpoint <$> b.*1)) as Hkeys.
  { rewrite <-!list_fmap_compose. apply list_fmap_ext. intros i x Hx%list_elem_of_lookup_2.
    symmetry. by apply Hvb. }
  assert (NoDup (dc_vbucket <$> l.*1)) as Hndl.
  { eapply sublist_NoDup; [rewrite <-Hkeys in Hnd; exact Hnd|].
    apply fmap_sublist, fmap_sublist, sublist_filter. }
  destruct (write_items_lookup (sy_store s) l Hndl) as [Hin Hout].
  exists (foldr write_item (sy_store s) l). split.
  - intros vb. cbn [sy_store with_store].
    destruct (decide (vb ∈ dc_vbucket <$> l.*1)) as [Hv|Hv].
    + apply list_elem_of_fmap in Hv as (d & -> & Hd).
      apply list_elem_of_fmap in Hd as (i & -> & Hi). rewrite (Hin i Hi). cbn.
      apply Hl in Hi as [Hp Hb]. split; [by apply Hvb|done].
    + assert (∀ i, i ∈ l → dc_vbucket i.1 ≠ vb) as Hv'.
      { intros i Hi <-. apply Hv. by apply list_elem_of_fmap_2, list_elem_of_fmap_2. }
      rewrite (Hout vb Hv'). assert (stored st' vb = stored st vb) as Hst.
      { destruct (Hch vb) as [?|(c & Hc & Hcv & Hp & _)]; [done|exfalso].
        apply list_elem_of_fmap in Hc as (d & -> & Hd).
        apply list_elem_of_fmap in Hd as (i & -> & Hi).
        apply (Hv' i); [by apply Hl|]. by rewrite <-Hvb. }
      specialize (Hag vb). destruct (sy_store s !! vb) as [e|]; [|congruence].
      destruct Hag as [<- (d & ? & ?)]. split; [done|]. exists d. split; [done|congruence].
  - eapply rtc_trans; [apply (write_path s w b l Hgate); intros i Hi; by apply Hl|].
    set (s1 := with_store (foldr write_item (sy_store s) l) s).
    destruct o as [[[]|e|]|]; cbn [save_reply after_save];
      [|by apply rtc_once, (ss_save_error _ _ s1)..|done].
    apply rtc_once, (ss_save_ok _ _ s1); [done|]. apply Forall_forall. intros i Hi.
    destruct (Hok eq_refl) as [_ Hper]. assert (i ∈ l) as Hil.
    { apply Hl. split; [|done]. apply Hper. by apply list_elem_of_fmap_2, list_elem_of_fmap_2. }
    by eexists; split; [apply (Hin i Hil)|].
Qed.
End Flushing.

(** ** Saves to a file *)
Section FileClaims.
Context `{CheckpointJson}.
Implicit Types (s : Fs) (self : FileCheckpointStore) (batch : list DcpCheckpoint).

(** What a file that is not the document file may be. *)
Definition is_temporary self (q : PathBuf) : Prop :=
  ∃ name pid random, file_name (fcs_path self) = Some name
    ∧ q = path_join (parent_or_current (fcs_path self)) (temporary_name name pid random).
(** The contents after a whole save: the documents of the batch over those that were there. *)
Definition merged self batch s (data : bytes) : Prop :=
  ∃ updates r, serialize_checkpoint_batch batch = Ok updates
    ∧ read_as (fs_files s !! fcs_path self) r
    ∧ documents_to_vec (updates ∪ default ∅ r) = inr data.

Lemma save_contents self batch s o s' :
  batch ≠ [] → file_save self batch s = (o, s') →
  fs_files s' = fs_files s ∧ o ≠ Done (Ok tt) ∧ o ≠ Done Panic
  ∨ ∃ ds, (∀ data, documents_to_vec ds = inr data → merged self batch s data)
          ∧ wrote (fcs_path self) ds s o s'.
Proof.
  intros Hb Hsave. pose proof (wp_run _ _ _ _ _ (file_save_spec self batch s) Hsave) as Hs.
  destruct Hs as [o s' Hf Ho Hp|Hser|updates r o s' Hser Hr _ Hw]; [by left|..].
  - pose proof (serialize_spec batch) as Hs. rewrite Hser in Hs. destruct Hs as [[_ Hall _] _].
    destruct batch as [|c batch]; [done|]. destruct (Hall c) as (d & _ & Hd); [left|].
    by rewrite lookup_empty in Hd.
  - right. exists (updates ∪ default ∅ r). split; [|done]. intros data Hdata. by exists updates, r.
Qed.

(** C23: The file store's save is atomic: whatever fails during it, a refused task, an I/O
    error at any operation with a partly written file, or the process ending at any
    operation, the checkpoint file afterwards holds its old contents or all of the new
    ones, which merge the batch into a readable old file; no other file changes but
    temporary ones of this store; success means the new contents are in place, and the save
    never panics. *)
Theorem file_save_atomic self batch s o s' :
  batch ≠ [] → file_save self batch s = (o, s') →
  let contents := fs_files s' !! fcs_path self in
  (contents = fs_files s !! fcs_path self ∨ ∃ data, contents = Some data ∧ merged self batch s data)
  ∧ (o = Done (Ok tt) → ∃ data, contents = Some data ∧ merged self batch s data)
  ∧ (∀ q, q ≠ fcs_path self → fs_files s' !! q ≠ fs_files s !! q → is_temporary self q)
  ∧ o ≠ Done Panic.
Proof.
  intros Hb Hsave. destruct (save_contents _ _ _ _ _ Hb Hsave) as [(Hf & ? & ?)|(ds & Hm & [W1 W2 W3 W4])];
    cbv zeta.
  { rewrite Hf. split_and!; [by left|done..]. }
  split_and!; [|intros (data & ? & ?)%W3; eauto|done|done].
  destruct W2 as [->|(data & ? & ?)]; [by left|right; eauto].
Qed.

(** A file system on which nothing fails, and a path a save can use. *)
Record calm self s (name : string) (random : Z) : Prop := {
  cl_faults : fs_faults s = [];
  cl_random : fs_random s (fs_draws s) = inr random;
  cl_name : file_name (fcs_path self) = Some name;
  cl_utf8 : from_utf8 (as_bytes name) = Some name;
  cl_parent : parent_or_current (fcs_path self) ≠ empty_path;
  cl_temporary : fs_files s !! path_join (parent_or_current (fcs_path self))
                   (temporary_name name (fs_pid s) random) = None
}.

Lemma fs_call_calm {A} (op : gmap PathBuf bytes → res IoError A * gmap PathBuf bytes)
    (failed stopped : nat → gmap PathBuf bytes → gmap PathBuf bytes) s :
  fs_faults s = [] →
  fs_call op failed stopped s
  = (Done (Ok (op (fs_files s)).1), with_files (op (fs_files s)).2 s).
Proof. intros Hf. unfold fs_call, next_fault. rewrite Hf. by destruct (op (fs_files s)). Qed.
Lemma io_or_calm {A} context (op : gmap PathBuf bytes → res IoError A * gmap PathBuf bytes)
    (failed stopped : nat → gmap PathBuf bytes → gmap PathBuf bytes) s a f :
  fs_faults s = [] → op (fs_files s) = (Ok a, f) →
  io_or context (fs_call op failed stopped) s = (Done (Ok a), with_files f s).
Proof. intros Hf Hop. unfold io_or, io_bind. rewrite fs_call_calm by done. by rewrite Hop. Qed.

Lemma replace_file_calm path temporary dir data s :
  fs_faults s = [] → fs_files s !! temporary = None → dir ≠ empty_path →
  ∃ f, replace_file path temporary dir data s = (Done (Ok tt), with_files f s).
Proof.
  intros Hf Ht Hd. unfold replace_file, io_bind at 1, fs_create_new.
  erewrite io_or_calm by (try done; by rewrite Ht). unfold io_bind at 1, fs_write_all.
  erewrite io_or_calm by done. unfold io_bind at 1, fs_sync_all.
  erewrite io_or_calm by done. unfold io_bind at 1, fs_rename.
  erewrite io_or_calm by (try done; cbn; by rewrite lookup_insert_eq).
  unfold sync_directory, fs_sync_dir.
  erewrite io_or_calm by (try done; by rewrite bool_decide_false). by eexists.
Qed.
Lemma write_file_documents_calm self ds data s name random :
  calm self s name random → documents_to_vec ds = inr data →
  ∃ s', write_file_documents (fcs_path self) ds s = (Done (Ok tt), s') ∧ fs_faults s' = [].
Proof.
  intros [Hfa Hra Hna Hut Hpa Hte] Hds. unfold write_file_documents. rewrite Hds.
  unfold io_bind at 1. cbn [io_lift]. unfold io_bind at 1, fs_create_dir_all.
  erewrite io_or_calm by done. unfold io_bind at 1, draw_random. cbn. rewrite Hra.
  unfold io_bind at 1. rewrite Hna. cbn [mbind option_bind]. rewrite Hut. cbn [ok_or io_lift].
  unfold io_bind at 1. cbn [io_get fs_pid]. unfold io_bind at 1, io_try.
  edestruct replace_file_calm as [f ->]; [..|done|]; [done|done|].
  cbn. eexists. split; [done|]. done.
Qed.
Lemma read_file_calm path s ds :
  fs_faults s = [] → read_as (fs_files s !! path) ds →
  read_file_documents path s = (Done (Ok ds), with_files (fs_files s) s).
Proof.
  intros Hf Hr. unfold read_file_documents, io_bind, fs_read. rewrite fs_call_calm by done. cbn.
  destruct (fs_files s !! path) as [data|], ds as [ds|]; cbn in *; try done. by rewrite Hr.
Qed.
Lemma with_files_id s : with_files (fs_files s) s = s.
Proof. by destruct s. Qed.
Lemma spawn_calm {A} (m : io Fs A) s : fs_faults s = [] → spawn_blocking m s = m s.
Proof. intros Hf. unfold spawn_blocking, next_fault. by rewrite Hf. Qed.


(** A load of a persisted batch that succeeds returns the batch. *)
Lemma loaded_batch uuid batch (st st' : Holdings) m :
  NoDup (ck_vbucket <$> batch) → (∀ c, c ∈ batch → persisted st c) →
  load_ok uuid (ck_vbucket <$> batch) st (Done (Ok m)) st' →
  m = list_to_map ((λ c, (ck_vbucket c, c)) <$> batch).
Proof.
  intros Hnd Hper [_ Hm]. specialize (Hm m eq_refl). apply map_eq. intros vb. specialize (Hm vb).
  assert (((λ c, (ck_vbucket c, c)) <$> batch).*1 = ck_vbucket <$> batch) as Hfst
    by (by rewrite <-list_fmap_compose).
  case_bool_decide as Hvb.
  - apply list_elem_of_fmap in Hvb as (c & -> & Hc). destruct (Hper c Hc) as (d & Hd & Hst).
    rewrite Hst in Hm. destruct Hm as (c' & Hc' & ->). symmetry.
    apply elem_of_list_to_map_1; [by rewrite Hfst|].
    rewrite (from_into_checkpoint _ _ _ _ Hd Hc'). by apply (list_elem_of_fmap_2 (λ c, (ck_vbucket c, c))).
  - rewrite Hm. symmetry. apply not_elem_of_list_to_map_1. by rewrite Hfst.
Qed.

Lemma file_load_calm self uuid batch s ds :
  batch_ok uuid batch → fs_faults s = [] → read_as (fs_files s !! fcs_path self) ds →
  (∀ c, c ∈ batch → persisted (file_stored self s) c) →
  ∃ m, file_load self uuid (ck_vbucket <$> batch) s = (Done (Ok m), s).
Proof.
  intros [Hnd Hok] Hf Hr Hper. unfold file_load, io_bind at 1.
  pose proof (validate_vbuckets_spec (ck_vbucket <$> batch)) as Hv.
  destruct (validate_vbuckets _) as [[]| |]; [|done..]. cbn [io_lift].
  unfold io_bind at 1. rewrite spawn_calm, (read_file_calm _ _ _ Hf Hr), with_files_id by done.
  match goal with |- context [mapM_res ?f ?l] =>
    assert (∃ l', mapM_res f l = Ok l') as [l' ->]; [apply mapM_res_total|by eexists] end.
  intros [vb d] [Hin Hd]%list_elem_of_filter. rewrite elem_of_btree_to_list in Hd. cbn in Hin.
  apply elem_of_list_to_set, list_elem_of_fmap in Hin as (c & -> & Hc).
  destruct (Hper c Hc) as (d' & Hd' & Hst). unfold file_stored in Hst.
  rewrite <-(read_as_documents _ _ Hr), Hd in Hst. injection Hst as ->.
  pose proof (from_checkpoint_spec c) as Hs. rewrite Hd' in Hs. destruct Hs as (_ & Hu & Hi).
  destruct (Hok c Hc) as [_ Hu']. rewrite Hu' in Hu. injection Hu as ->. rewrite Hi. by eexists.
Qed.

Lemma file_save_calm self uuid batch ds s name random :
  batch_ok uuid batch → calm self s name random →
  read_as (fs_files s !! fcs_path self) ds →
  (∀ c d, c ∈ batch → default ∅ ds !! ck_vbucket c = Some d → sd_bucket_uuid d = uuid) →
  (∀ documents, ∃ data, documents_to_vec documents = inr data) →
  ∃ s1, file_save self batch s = (Done (Ok tt), s1) ∧ fs_faults s1 = [].
Proof.
  intros Hb Hcalm Hr Hu Hjson. pose proof (cl_faults _ _ _ _ Hcalm) as Hf.
  destruct (serialize_ok _ _ Hb) as (updates & Hser & [_ Hall Honly]).
  unfold file_save, io_bind at 1. rewrite Hser. cbn [io_lift]. case_bool_decide; [by eexists|].
  rewrite spawn_calm by done. unfold io_bind at 1.
  rewrite (read_file_calm _ _ _ Hf Hr), with_files_id. unfold io_bind at 1.
  pose proof (for_res_checks (btree_to_list updates) (check_update (default ∅ ds))) as Hck.
  assert (∀ e, e ∈ btree_to_list updates → check_update (default ∅ ds) e = Ok tt) as Hall'.
  { intros [vb d]. rewrite elem_of_btree_to_list. intros (c & Hc & <- & Hd)%Honly. cbn.
    destruct (default ∅ ds !! ck_vbucket c) as [d'|] eqn:Hd'; [|done].
    destruct (proj2 Hb c Hc) as [_ Hcu]. pose proof (from_checkpoint_spec c) as Hs. rewrite Hd in Hs.
    rewrite bool_decide_true; [done|]. rewrite (Hu c d' Hc Hd'). naive_solver. }
  destruct (for_res _ _ _) as [[]|e|];
    [|by destruct Hck as (x & Hx & ?); rewrite Hall' in *..].
  cbn [io_lift]. destruct (Hjson (updates ∪ default ∅ ds)) as [data Hdata].
  by eapply write_file_documents_calm.
Qed.

Context `{!CheckpointJsonLaws}.

(** C25: A file store on which nothing fails saves and loads: saving a batch of valid
    positions of one bucket, each vBucket once, over a readable file that holds no document
    of another bucket for them, completes, and a load of these vBuckets then completes with
    exactly the positions that were saved. *)
Theorem file_save_load self uuid batch ds s name random :
  batch ≠ [] → batch_ok uuid batch → calm self s name random →
  read_as (fs_files s !! fcs_path self) ds →
  (∀ c d, c ∈ batch → default ∅ ds !! ck_vbucket c = Some d → sd_bucket_uuid d = uuid) →
  (∀ documents, ∃ data, documents_to_vec documents = inr data) →
  ∃ s1, file_save self batch s = (Done (Ok tt), s1)
    ∧ file_load self uuid (ck_vbucket <$> batch) s1
      = (Done (Ok (list_to_map ((λ c, (ck_vbucket c, c)) <$> batch))), s1).
Proof.
  intros Hne Hb Hcalm Hr Hu Hjson.
  assert (∃ s1, file_save self batch s = (Done (Ok tt), s1) ∧ fs_faults s1 = []) as (s1 & Hsave & Hf1).
  { by eapply file_save_calm. }
  exists s1. split; [done|].
  destruct (wp_run _ _ _ _ _ (file_save_contract self batch s) Hsave) as [_ Hper].
  destruct (Hper eq_refl) as [Hnd Hper']. clear Hper.
  assert (∃ ds1, read_as (fs_files s1 !! fcs_path self) ds1) as [ds1 Hr1].
  { destruct (save_contents _ _ _ _ _ Hne Hsave) as [(_ & ? & _)|(ds1 & _ & [_ _ W3 _])]; [done|].
    destruct (W3 eq_refl) as (data & Hdata & ->). exists (Some ds1). by apply documents_roundtrip. }
  destruct (file_load_calm self uuid batch s1 ds1) as [m Hm]; [done..|]. rewrite Hm.
  rewrite (loaded_batch uuid batch (file_stored self s1) (file_stored self s1) m); [done..|].
  by apply (wp_run _ _ _ _ _ (file_load_contract self uuid _ s1) Hm).
Qed.
End FileClaims.

(** ** A save implements the flush of the system *)

(** C22: A real store behaves as the store of the flushing system: in every reachable state
    with a save under way, the batch is one that stores accept, and whatever a store that
    keeps its contract does with it, failures and the end of the process included, is a
    path of the system that writes items of the batch one by one and then delivers the
    answer of the save, and the two still hold the same positions.  So what is proved of
    the system's store (it never skips an unacknowledged delivery, a clean partition is
    durable) holds of the documents of the real one. *)
Theorem save_refines_flush {T S : Type} `{CheckpointStore T S} (self : T) (stored : S → Holdings)
    (uuid : string) (timeout : Duration) s w b st o st' panic :
  StoreContract self stored → reachable uuid timeout s → sy_gate s = GateSaving w b →
  agrees s (stored st) → store_save self (dc_checkpoint <$> b.*1) st = (o, st') →
  batch_ok uuid (dc_checkpoint <$> b.*1)
  ∧ ∃ store', let s' := after_save w b (save_reply panic o) (with_store store' s) in
      rtc (sys_step uuid timeout) s s' ∧ reachable uuid timeout s' ∧ agrees s' (stored st').
Proof.
  intros Hc Hs Hg Hag Hsave. destruct (reachable_batches_good _ _ _ Hs) as [_ Hbatch].
  specialize (Hbatch w b Hg). split; [apply Hbatch|].
  destruct (save_path uuid timeout self stored s w b st o st' panic Hbatch Hg Hag Hsave)
    as (store' & Hag' & Hpath).
  exists store'. split; [done|]. split.
  - destruct Hs as (s0 & Hinit & Hsteps). exists s0. split; [done|]. by eapply rtc_trans.
  - by destruct (save_reply panic o).
Qed.

(** ** A sample store

    A codec that spells out a document in binary, and a directory. *)
#[local] Instance document_countable : Countable StoredCheckpointDocument.
Proof.
  refine (inj_countable'
    (λ d, (ssn_start_seqno (sp_snapshot (sd_checkpoint d)), ssn_end_seqno (sp_snapshot (sd_checkpoint d)),
           sp_vbucket_uuid (sd_checkpoint d), sp_seqno (sd_checkpoint d), sd_bucket_uuid d,
           sd_manifest_uid d))
    (λ '(a, b, v, q, u, m), mkDocument (mkStoredPosition (mkStoredSnapshot a b) v q) u m) _).
  by intros [[[]]].
Defined.
Fixpoint sample_bits (p : positive) : bytes :=
  match p with xH => [49] | xO p => 48 :: sample_bits p | xI p => 49 :: sample_bits p end.
Fixpoint sample_bits_read (b : bytes) : option positive :=
  match b with
  | [] => None
  | [d] => if d =? 49 then Some xH else None
  | d :: b => (if d =? 49 then xI else xO) <$> sample_bits_read b
  end.
Lemma sample_bits_roundtrip p : sample_bits_read (sample_bits p) = Some p.
Proof.
  induction p as [p IH|p IH|]; [..|done]; cbn [sample_bits sample_bits_read];
    rewrite IH; by destruct (sample_bits p) eqn:Hp; [destruct p|].
Qed.
Definition sample_read {A} `{Countable A} (b : bytes) : string + A :=
  match sample_bits_read b ≫= decode with Some a => inr a | None => inl "expected value" end.
Lemma sample_read_roundtrip {A} `{Countable A} (a : A) : sample_read (sample_bits (encode a)) = inr a.
Proof. unfold sample_read. rewrite sample_bits_roundtrip. cbn. by rewrite decode_encode. Qed.

Definition sample_json : CheckpointJson := {|
  documents_to_vec ds := inr (sample_bits (encode ds));
  documents_from_slice := sample_read;
  document_to_vec d := inr (sample_bits (encode d));
  document_from_slice := sample_read |}.
Lemma sample_json_laws : @CheckpointJsonLaws sample_json.
Proof. split; intros ?? [= <-]; apply sample_read_roundtrip. Qed.

Definition sample_file : FileCheckpointStore := mkFileStore (path_from_str "./checkpoints.json").
Definition sample_fs (faults : list Fault) : Fs := mkFs ∅ faults 1 (λ _, inr 7) 0.
Definition sample_batch : list DcpCheckpoint := [mkCheckpoint (Some "uuid") 3 77 11 0 20 None].

Lemma file_save_atomic_witness :
  let s := sample_fs [FaultNone; FaultNone; FaultNone; FaultNone; FaultError 5 "disk full"] in
  let s' := (@file_save sample_json sample_file sample_batch s).2 in
  fs_files s' !! fcs_path sample_file = fs_files s !! fcs_path sample_file
  ∨ ∃ data, fs_files s' !! fcs_path sample_file = Some data
      ∧ @merged sample_json sample_file sample_batch s data.
Proof.
  intros s s'. apply (@file_save_atomic sample_json sample_file sample_batch s
    (@file_save sample_json sample_file sample_batch s).1); [discriminate|apply surjective_pairing].
Defined.

Lemma file_save_load_witness :
  ∃ s1, @file_save sample_json sample_file sample_batch (sample_fs []) = (Done (Ok tt), s1)
    ∧ @file_load sample_json sample_file "uuid" [3] s1
      = (Done (Ok (list_to_map [(3, mkCheckpoint (Some "uuid") 3 77 11 0 20 None)])), s1).
Proof.
  apply (@file_save_load sample_json sample_json_laws sample_file "uuid" sample_batch None
    (sample_fs []) "checkpoints.json" 7).
  - discriminate.
  - split; [apply NoDup_singleton|]. intros c ->%list_elem_of_singleton. split; [|reflexivity].
    split; [|split; [|right]]; vm_compute; discriminate.
  - split; [reflexivity..|discriminate|reflexivity].
  - vm_compute. exact I.
  - intros c d _ Hd. vm_compute in Hd. discriminate.
  - intros ds. eexists. reflexivity.
Defined.

Lemma save_refines_flush_witness :
  batch_ok "uuid" [mkCheckpoint (Some "uuid") 3 77 11 0 20 None].
Proof.
  apply (@save_refines_flush _ _ (@file_store sample_json) sample_file
    (@file_stored sample_json sample_file) "uuid" 1000 sample_sys5 (Some 0%nat) [sample_item]
    (sample_fs []) (@file_save sample_json sample_file sample_batch (sample_fs [])).1
    (@file_save sample_json sample_file sample_batch (sample_fs [])).2 "").
  - exact (@file_store_contract sample_json sample_json_laws sample_file).
  - apply sample_saving_reachable.
  - reflexivity.
  - intros vb. vm_compute. reflexivity.
  - apply surjective_pairing.
Defined.

(** A bare file name has the empty parent, which cannot be opened: every save to it fails
    at the last operation, with the new contents already in place. *)
Example bare_file_name_save :
  let self := mkFileStore (path_from_str "checkpoints.json") in
  let r := @file_save sample_json self sample_batch (sample_fs []) in
  file_store_new (path_from_str "checkpoints.json") = Ok self
  ∧ r.1 = Done (Err (store_error
      "cannot sync checkpoint directory : No such file or directory (os error 2)"))
  ∧ bool_decide (is_Some (fs_files r.2 !! fcs_path self)) = true.
Proof. vm_compute. done. Qed.
