(* ===== verification/StoreCouchbase.v ===== *)
(** * The Couchbase checkpoint store ([rust-dcp-core/src/checkpoint_store.rs], second part)

    One metadata document a vBucket, its position in an extended attribute.  A batch is one
    future a vBucket, a read and then a write, and all of them run at once: the schedule in
    the state says whose next call completes.  The collection behind the store is an
    interface with the promises of its documentation; [CheckpointKv] is the built-in one. *)
From S2P Require Import Prelude Text Types Command Errors Checkpoint Config Async.
From S2P Require Import Cccp Store StoreSpec.

Definition GO_DCP_KEY_PREFIX : string := "_connector:cbgo:".
Definition GO_DCP_XATTR : string := "cbgo".

(** ** The collection *)
Class CouchbaseCheckpointCollection (C S : Type) : Type := {
  get_xattr : C → string → string → io S (option bytes);
  upsert_xattr : C → string → string → bytes → io S unit;
  remove_document : C → string → io S unit
}.

(** What it promises: a read changes nothing and is current; a write changes the attribute
    it names or, when it fails, possibly nothing; a removal likewise. *)
Class XattrCollection {C S : Type} `{CouchbaseCheckpointCollection C S} (self : C)
    (xattr : S → string → string → option bytes) : Prop := {
  get_law key x s :
    wp (get_xattr self key x)
       (λ o s', (∀ k y, xattr s' k y = xattr s k y)
                ∧ ∀ v, o = Done (Ok v) → v = xattr s key x) s;
  upsert_law key x v s :
    wp (upsert_xattr self key x v)
       (λ o s', (∀ k y, (k, y) ≠ (key, x) → xattr s' k y = xattr s k y)
                ∧ (xattr s' key x = xattr s key x ∨ xattr s' key x = Some v)
                ∧ (o = Done (Ok tt) → xattr s' key x = Some v)) s;
  remove_law key s :
    wp (remove_document self key)
       (λ o s', (∀ k y, k ≠ key → xattr s' k y = xattr s k y)
                ∧ ((∀ y, xattr s' key y = xattr s key y) ∨ ∀ y, xattr s' key y = None)
                ∧ (o = Done (Ok tt) → ∀ y, xattr s' key y = None)) s
}.

(** ** The store *)
Record CouchbaseCheckpointStore (C : Type) : Type := mkCouchbaseStore {
  cbs_collection : C;
  cbs_group : string
}.
Arguments mkCouchbaseStore {C}.
Arguments cbs_collection {C}.
Arguments cbs_group {C}.

Definition couchbase_store_new {C} (collection : C) (group : string)
    : result (CouchbaseCheckpointStore C) :=
  if bool_decide (trim group = "") || contains dot group then
    Err (InvalidConfiguration "checkpoint group must be non-empty and must not contain '.'")
  else Ok (mkCouchbaseStore collection group).

Definition checkpoint_key {C} (self : CouchbaseCheckpointStore C) (vbucket : Z) : string :=
  GO_DCP_KEY_PREFIX +:+ cbs_group self +:+ ":checkpoint:" +:+ pretty vbucket.

(** A write of a batch, and whether its read is behind it. *)
Inductive WriteCall : Type :=
| CallUpsert (value : bytes)
| CallRemove.
Record WriteFuture : Type := mkFuture {
  wf_vbucket : Z;
  wf_bucket_uuid : string;
  wf_call : WriteCall;
  wf_checked : bool
}.
Definition wf_check (f : WriteFuture) : WriteFuture :=
  mkFuture (wf_vbucket f) (wf_bucket_uuid f) (wf_call f) true.

Definition write_failure (vbucket : Z) (error : DcpError) : string :=
  "vBucket " +:+ pretty vbucket +:+ ": " +:+ dcp_error_to_string error.

Section CouchbaseStore.
Context {C S : Type} `{CouchbaseCheckpointCollection C S} `{CheckpointJson}.
Implicit Types self : CouchbaseCheckpointStore C.

Definition load_document (vbucket : Z) (bucket_uuid : string) (value : bytes)
    : result DcpCheckpoint :=
  match document_from_slice value with
  | inl error =>
      Err (store_error ("invalid Couchbase checkpoint for vBucket " +:+ pretty vbucket +:+ ": "
        +:+ error))
  | inr document => into_checkpoint document vbucket bucket_uuid
  end.

(** The reads that are still pending; [lost] when one of them will never complete. *)
Fixpoint load_rounds self (bucket_uuid : string) (schedule : list nat) (pending : list Z)
    (lost : bool) (checkpoints : gmap Z DcpCheckpoint) (s : S)
    : outcome (gmap Z DcpCheckpoint) * (list nat * S) :=
  match pending, schedule with
  | [], _ => (if lost then Hang else Done (Ok checkpoints), (schedule, s))
  | _, [] => (Hang, ([], s))
  | _, n :: schedule =>
      match pending !! n with
      | None => load_rounds self bucket_uuid schedule pending lost checkpoints s
      | Some vbucket =>
          match get_xattr (cbs_collection self) (checkpoint_key self vbucket) GO_DCP_XATTR s with
          | (Hang, s) => load_rounds self bucket_uuid schedule (delete n pending) true checkpoints s
          | (Done Panic, s) => (Done Panic, (schedule, s))
          | (Done (Err e), s) => (Done (Err e), (schedule, s))
          | (Done (Ok None), s) =>
              load_rounds self bucket_uuid schedule (delete n pending) lost checkpoints s
          | (Done (Ok (Some value)), s) =>
              match load_document vbucket bucket_uuid value with
              | Ok c => load_rounds self bucket_uuid schedule (delete n pending) lost
                          (<[vbucket := c]> checkpoints) s
              | Err e => (Done (Err e), (schedule, s))
              | Panic => (Done Panic, (schedule, s))
              end
          end
      end
  end.

Definition couchbase_load self (bucket_uuid : string) (vbuckets : list Z)
    : io (list nat * S) (gmap Z DcpCheckpoint) :=
  do! io_lift (validate_vbuckets vbuckets) in
  λ '(schedule, s), load_rounds self bucket_uuid schedule vbuckets false ∅ s.

(** The fence before a write: what exists must be readable and of the same bucket. *)
Definition check_existing (f : WriteFuture) (existing : option bytes) : result unit :=
  match existing with
  | None => Ok tt
  | Some value =>
      match document_from_slice value with
      | inl error =>
          Err (store_error ("invalid existing Couchbase checkpoint for vBucket "
            +:+ pretty (wf_vbucket f) +:+ ": " +:+ error))
      | inr document =>
          if negb (bool_decide (sd_bucket_uuid document = wf_bucket_uuid f)) then
            Err (bucket_mismatch (wf_vbucket f) (wf_bucket_uuid f) (sd_bucket_uuid document))
          else Ok tt
      end
  end.
Definition write_call self (f : WriteFuture) : io S unit :=
  let key := checkpoint_key self (wf_vbucket f) in
  match wf_call f with
  | CallUpsert value => upsert_xattr (cbs_collection self) key GO_DCP_XATTR value
  | CallRemove => remove_document (cbs_collection self) key
  end.
(** The next call of a future: [Some] when it is done with the future. *)
Definition advance self (f : WriteFuture) : io S (option (result unit)) :=
  if wf_checked f then
    let! r := io_try (write_call self f) in io_ret (Some r)
  else
    let! r := io_try (get_xattr (cbs_collection self) (checkpoint_key self (wf_vbucket f))
                        GO_DCP_XATTR) in
    io_ret (match (let? existing := r in check_existing f existing) with
            | Ok _ => None
            | Err e => Some (Err e)
            | Panic => Some Panic
            end).

Fixpoint write_rounds self (schedule : list nat) (pending : list WriteFuture) (lost : bool)
    (failures : list string) (s : S) : outcome (list string) * (list nat * S) :=
  match pending, schedule with
  | [], _ => (if lost then Hang else Done (Ok failures), (schedule, s))
  | _, [] => (Hang, ([], s))
  | _, n :: schedule =>
      match pending !! n with
      | None => write_rounds self schedule pending lost failures s
      | Some f =>
          match advance self f s with
          | (Hang, s) => write_rounds self schedule (delete n pending) true failures s
          | (Done (Ok None), s) => write_rounds self schedule (<[n := wf_check f]> pending) lost failures s
          | (Done (Ok (Some (Ok _))), s) =>
              write_rounds self schedule (delete n pending) lost failures s
          | (Done (Ok (Some (Err e))), s) =>
              write_rounds self schedule (delete n pending) lost
                (failures ++ [write_failure (wf_vbucket f) e]) s
          | (Done (Ok (Some Panic)), s) | (Done Panic, s) => (Done Panic, (schedule, s))
          | (Done (Err e), s) => (Done (Err e), (schedule, s))
          end
      end
  end.

Definition collect_couchbase_writes self (operation : string) (pending : list WriteFuture)
    : io (list nat * S) unit :=
  let! failures := (λ '(schedule, s), write_rounds self schedule pending false [] s) in
  io_lift (match failures with
    | [] => Ok tt
    | _ => Err (store_error ("Couchbase checkpoint " +:+ operation +:+ " failed: "
             +:+ join "; " failures))
    end).

Definition save_future (e : Z * StoredCheckpointDocument) : result WriteFuture :=
  let '(vbucket, document) := e in
  match document_to_vec document with
  | inl error =>
      Err (store_error ("cannot serialize Couchbase checkpoint for vBucket " +:+ pretty vbucket
        +:+ ": " +:+ error))
  | inr value => Ok (mkFuture vbucket (sd_bucket_uuid document) (CallUpsert value) false)
  end.
Definition couchbase_save self (checkpoints : list DcpCheckpoint) : io (list nat * S) unit :=
  let! documents := io_lift (serialize_checkpoint_batch checkpoints) in
  let! pending := io_lift (mapM_res save_future (btree_to_list documents)) in
  collect_couchbase_writes self "save" pending.

Definition couchbase_clear self (bucket_uuid : string) (vbuckets : list Z)
    : io (list nat * S) unit :=
  do! io_lift (validate_vbuckets vbuckets) in
  collect_couchbase_writes self "clear"
    ((λ vbucket, mkFuture vbucket bucket_uuid CallRemove false) <$> vbuckets).

#[export] Instance couchbase_store
    : CheckpointStore (CouchbaseCheckpointStore C) (list nat * S) :=
  {| store_load := couchbase_load; store_save := couchbase_save;
     store_clear := couchbase_clear |}.
End CouchbaseStore.

(** ** The contract *)

(** Two groups, or two vBuckets, never share a document. *)
Lemma checkpoint_key_inj {C D} (a : CouchbaseCheckpointStore C) (b : CouchbaseCheckpointStore D) v w :
  0 ≤ v → 0 ≤ w → checkpoint_key a v = checkpoint_key b w → cbs_group a = cbs_group b ∧ v = w.
Proof.
  intros Hv Hw. unfold checkpoint_key. intros Heq%append_inj_l.
  assert (∀ g z, 0 ≤ z → rsplit_once colon (g +:+ ":checkpoint:" +:+ pretty z)
    = Some (g +:+ ":checkpoint", pretty z)) as Hs.
  { intros g z Hz. replace (g +:+ ":checkpoint:" +:+ pretty z)
      with ((g +:+ ":checkpoint") +:+ String colon (pretty z)).
    - apply rsplit_once_app. apply all_digits_contains; [done|]. by apply pretty_digits.
    - by rewrite append_assoc. }
  apply (f_equal (rsplit_once colon)) in Heq. rewrite !Hs in Heq by done.
  injection Heq as Hg Hp. split; [by eapply append_inj_r|]. by apply (inj pretty).
Qed.
Lemma checkpoint_key_vbucket {C} (a : CouchbaseCheckpointStore C) v w :
  checkpoint_key a v = checkpoint_key a w → v = w.
Proof.
  unfold checkpoint_key. intros Heq. repeat apply append_inj_l in Heq. by apply (inj pretty).
Qed.

Section Contract.
Context {C S : Type} `{CouchbaseCheckpointCollection C S} `{CheckpointJson} `{!CheckpointJsonLaws}.
Context (self : CouchbaseCheckpointStore C) (xattr : S → string → string → option bytes).
Context `{!XattrCollection (cbs_collection self) xattr}.
Implicit Types (s : S) (f : WriteFuture).

Definition document_of (value : bytes) : option StoredCheckpointDocument :=
  match document_from_slice value with inr d => Some d | inl _ => None end.
Definition held s : Holdings := λ vb,
  xattr s (checkpoint_key self vb) GO_DCP_XATTR ≫= document_of.
Definition couchbase_stored (st : list nat * S) : Holdings := held st.2.

(** *** Writes *)

(** What the write of a future leaves behind. *)
Definition target f : option StoredCheckpointDocument :=
  match wf_call f with CallUpsert value => document_of value | CallRemove => None end.
(** The document of the vBucket, if any, is of the future's bucket. *)
Definition fenced s f : Prop :=
  ∀ d, held s (wf_vbucket f) = Some d → sd_bucket_uuid d = wf_bucket_uuid f.

Lemma get_held key x s :
  wp (get_xattr (cbs_collection self) key x)
     (λ o s', (∀ vb, held s' vb = held s vb) ∧ ∀ v, o = Done (Ok v) → v = xattr s key x) s.
Proof.
  eapply wp_mono; [apply get_law|]. intros o s' [Hs Hv]. split; [|done].
  intros vb. unfold held. by rewrite Hs.
Qed.

Lemma write_call_spec f s :
  wp (write_call self f)
     (λ o s', (∀ vb, vb ≠ wf_vbucket f → held s' vb = held s vb)
        ∧ (held s' (wf_vbucket f) = held s (wf_vbucket f) ∨ held s' (wf_vbucket f) = target f)
        ∧ (o = Done (Ok tt) → held s' (wf_vbucket f) = target f)) s.
Proof.
  assert (∀ vb, vb ≠ wf_vbucket f → checkpoint_key self vb ≠ checkpoint_key self (wf_vbucket f))
    as Hkey by (intros vb Hvb Heq%checkpoint_key_vbucket; done).
  unfold write_call, target, held. destruct (wf_call f) as [value|].
  - eapply wp_mono; [apply upsert_law|]. intros o s' (L1 & L2 & L3). split_and!.
    + intros vb Hvb. rewrite L1; [done|]. intros Heq%(f_equal fst). by apply (Hkey vb).
    + destruct L2 as [-> | ->]; auto.
    + by intros ->%L3.
  - eapply wp_mono; [apply remove_law|]. intros o s' (L1 & L2 & L3). split_and!.
    + intros vb Hvb. rewrite L1; [done|]. auto.
    + destruct L2 as [Hs | Hs]; rewrite Hs; auto.
    + intros Ho. by rewrite (L3 Ho).
Qed.

Lemma check_existing_spec f existing :
  match check_existing f existing with
  | Ok _ => ∀ d, existing ≫= document_of = Some d → sd_bucket_uuid d = wf_bucket_uuid f
  | Err _ => True
  | Panic => False
  end.
Proof.
  unfold check_existing, document_of. destruct existing as [value|]; [|done]. cbn.
  destruct (document_from_slice value) as [|d]; [done|].
  case_bool_decide; cbn; [|done]. by intros ? [= <-].
Qed.

(** What one call of a future may do, with [advance]'s outcome. *)
Record advanced f s (o : outcome (option (result unit))) s' : Prop := {
  ad_others : ∀ vb, vb ≠ wf_vbucket f → held s' vb = held s vb;
  ad_own : held s' (wf_vbucket f) = held s (wf_vbucket f)
           ∨ held s' (wf_vbucket f) = target f ∧ fenced s f;
  ad_checked : o = Done (Ok None) →
               held s' (wf_vbucket f) = held s (wf_vbucket f) ∧ fenced s' f;
  ad_done : o = Done (Ok (Some (Ok tt))) → held s' (wf_vbucket f) = target f;
  ad_err : ∀ e, o ≠ Done (Err e)
}.
Lemma advance_spec f s :
  (wf_checked f = true → fenced s f) → wp (advance self f) (advanced f s) s.
Proof.
  intros Hck. unfold advance. destruct (wf_checked f); apply wp_bind, wp_try.
  - specialize (Hck eq_refl). eapply wp_mono; [apply write_call_spec|]. intros o s' (L1 & L2 & L3).
    assert (∀ o', (∀ e, o' ≠ Done (Err e)) → o' ≠ Done (Ok None) →
      (o' = Done (Ok (Some (Ok tt))) → o = Done (Ok tt)) → advanced f s o' s') as Hfin.
    { intros o' He Hn Hd. split; [done|naive_solver|done|auto|done]. }
    split_and!; [intros r -> Hr; wp_ok|intros ->; wp_leave; by apply Hfin..].
    apply wp_ret, Hfin; [done..|]. by intros [= ->].
  - eapply wp_mono; [apply get_held|]. intros o s' (L1 & L2).
    assert (∀ o', (∀ e, o' ≠ Done (Err e)) → (o' = Done (Ok None) → fenced s' f) →
      o' ≠ Done (Ok (Some (Ok tt))) → advanced f s o' s') as Hfin.
    { intros o' He Hn Hd. split; [done|left; done|auto|done|done]. }
    split_and!; [intros r -> Hr; wp_ok|intros ->; wp_leave; by apply Hfin..].
    apply wp_ret. destruct r as [existing|e|]; [|by apply Hfin|by apply Hfin].
    pose proof (check_existing_spec f existing) as Hex.
    destruct (check_existing f existing); apply Hfin; try done.
    intros _ d Hd. apply Hex. rewrite (L2 existing eq_refl). by rewrite L1 in Hd.
Qed.

(** *** A batch of writes *)
Record batch_done (pending : list WriteFuture) (lost : bool) (failures : list string) s
    (o : outcome (list string)) s' : Prop := {
  ba_held : ∀ vb, held s' vb = held s vb
    ∨ ∃ f, f ∈ pending ∧ wf_vbucket f = vb ∧ held s' vb = target f ∧ fenced s f;
  ba_err : ∀ e, o ≠ Done (Err e);
  ba_ok : ∀ fs, o = Done (Ok fs) → lost = false ∧ ∃ more, fs = failures ++ more
    ∧ (more = [] → ∀ f, f ∈ pending → held s' (wf_vbucket f) = target f)
}.

(** A future that has ended leaves the batch. *)
Lemma batch_step pending n f lost failures s o1 s1 lost' news o s' :
  pending !! n = Some f → NoDup (wf_vbucket <$> pending) → advanced f s o1 s1 →
  (lost = true → lost' = true) →
  (lost' = false → news = [] → o1 = Done (Ok (Some (Ok tt)))) →
  batch_done (delete n pending) lost' (failures ++ news) s1 o s' →
  batch_done pending lost failures s o s'.
Proof.
  intros Hn Hnd [A1 A2 _ A4 _] Hlost Hnews [B1 B2 B3].
  destruct (NoDup_delete wf_vbucket _ _ _ Hn Hnd) as [_ Hne].
  pose proof (elem_of_delete _ _ _ Hn) as Hin.
  assert (held s' (wf_vbucket f) = held s1 (wf_vbucket f)) as Hf.
  { destruct (B1 (wf_vbucket f)) as [?|(g & Hg & Heq & _)]; [done|]. by apply Hne in Hg. }
  split; [|done|].
  - intros vb. destruct (decide (vb = wf_vbucket f)) as [->|Hvb].
    + rewrite Hf. destruct A2 as [->|[-> ?]]; [by left|right]. exists f.
      split; [by apply Hin; left|done].
    + rewrite <-(A1 vb Hvb). destruct (B1 vb) as [?|(g & Hg & Heq & Ht & Hfe)]; [by left|right].
      exists g. split_and!; [apply Hin; by right|done..|].
      intros d Hd. apply Hfe. by rewrite A1 by by rewrite Heq.
  - intros fs Ho. destruct (B3 fs Ho) as (Hl' & more & -> & Hmore). split.
    { destruct lost; [|done]. by rewrite Hlost in Hl'. }
    exists (news ++ more). rewrite app_assoc. split; [done|].
    intros [-> ->]%app_eq_nil g [->|Hg]%Hin; [|by apply Hmore]. rewrite Hf. auto.
Qed.

(** A future that has passed its check stays. *)
Lemma batch_check pending n f lost failures s s1 o s' :
  pending !! n = Some f → NoDup (wf_vbucket <$> pending) → advanced f s (Done (Ok None)) s1 →
  batch_done (<[n := wf_check f]> pending) lost failures s1 o s' →
  batch_done pending lost failures s o s'.
Proof.
  intros Hn Hnd [A1 _ A3 _ _] [B1 B2 B3]. destruct (A3 eq_refl) as [A3' _].
  assert (∀ vb, held s1 vb = held s vb) as Hs.
  { intros vb. destruct (decide (vb = wf_vbucket f)) as [->|]; auto. }
  assert (∀ g, g ∈ <[n := wf_check f]> pending → ∃ g0, g0 ∈ pending
    ∧ wf_vbucket g0 = wf_vbucket g ∧ target g0 = target g ∧ wf_bucket_uuid g0 = wf_bucket_uuid g)
    as Hg.
  { intros g Hg. apply list_elem_of_lookup in Hg as [k Hk].
    apply list_lookup_insert_Some in Hk as [(_ & <- & _)|[_ Hk]].
    - exists f. split; [by eapply list_elem_of_lookup_2|done].
    - exists g. split; [by eapply list_elem_of_lookup_2|done]. }
  split; [|done|].
  - intros vb. rewrite <-Hs. destruct (B1 vb) as [?|(g & Hin & Heq & Ht & Hfe)]; [by left|right].
    destruct (Hg g Hin) as (g0 & Hin0 & E1 & E2 & E3). exists g0.
    split_and!; [done|congruence|congruence|]. intros d Hd. rewrite E3. apply Hfe.
    by rewrite Hs, <-E1.
  - intros fs Ho. destruct (B3 fs Ho) as (Hl & more & -> & Hmore). split; [done|].
    exists more. split; [done|]. intros Hm g Hin.
    apply list_elem_of_lookup in Hin as [k Hk]. destruct (decide (k = n)) as [->|Hkn].
    + rewrite Hn in Hk. injection Hk as <-. apply (Hmore Hm (wf_check f)).
      apply (list_elem_of_lookup_2 _ n). rewrite list_lookup_insert_eq; [done|].
      by eapply lookup_lt_Some.
    + apply (Hmore Hm). apply (list_elem_of_lookup_2 _ k). by rewrite list_lookup_insert_ne.
Qed.

Lemma check_keeps pending n f s s1 :
  pending !! n = Some f → NoDup (wf_vbucket <$> pending) →
  (∀ g, g ∈ pending → wf_checked g = true → fenced s g) → advanced f s (Done (Ok None)) s1 →
  NoDup (wf_vbucket <$> <[n := wf_check f]> pending)
  ∧ ∀ g, g ∈ <[n := wf_check f]> pending → wf_checked g = true → fenced s1 g.
Proof.
  intros Hn Hnd Hck Ha. destruct (ad_checked _ _ _ _ Ha eq_refl) as [Hsame Hfe]. split.
  { rewrite list_fmap_insert, list_insert_id; [done|]. by rewrite list_lookup_fmap, Hn. }
  intros g Hg Hc. apply list_elem_of_lookup in Hg as [k Hk].
  apply list_lookup_insert_Some in Hk as [(_ & <- & _)|[_ Hk]]; [exact Hfe|]. intros d.
  assert (held s1 (wf_vbucket g) = held s (wf_vbucket g)) as ->.
  { destruct (decide (wf_vbucket g = wf_vbucket f)) as [->|]; [done|by apply Ha]. }
  apply (Hck g); [by eapply list_elem_of_lookup_2|done].
Qed.

Lemma write_rounds_spec schedule : ∀ pending lost failures s,
  NoDup (wf_vbucket <$> pending) →
  (∀ f, f ∈ pending → wf_checked f = true → fenced s f) →
  let '(o, (_, s')) := write_rounds self schedule pending lost failures s in
  batch_done pending lost failures s o s'.
Proof.
  induction schedule as [|n schedule IH]; intros pending lost failures s Hnd Hck.
  { cbn. destruct pending as [|f pending]; [|split; [by left|done|done]].
    destruct lost; (split; [by left|done|]); [done|]. intros fs [= <-]. split; [done|].
    exists []. rewrite app_nil_r. split; [done|]. by intros _ ? ?%elem_of_nil. }
  destruct pending as [|f0 pending0].
  { cbn. destruct lost; (split; [by left|done|]); [done|]. intros fs [= <-]. split; [done|].
    exists []. rewrite app_nil_r. split; [done|]. by intros _ ? ?%elem_of_nil. }
  cbn [write_rounds]. set (pending := f0 :: pending0) in *.
  destruct (pending !! n) as [f|] eqn:Hn; [|by apply IH].
  pose proof (advance_spec f s (Hck f (list_elem_of_lookup_2 _ _ _ Hn))) as Ha.
  unfold wp in Ha. destruct (advance self f s) as [o1 s1]. cbn [fst snd] in Ha.
  destruct (NoDup_delete wf_vbucket _ _ _ Hn Hnd) as [Hnd' Hne].
  assert (∀ g, g ∈ delete n pending → wf_checked g = true → fenced s1 g) as Hck'.
  { intros g Hg Hc d. rewrite (ad_others _ _ _ _ Ha) by auto.
    apply (Hck g); [|done]. apply (elem_of_delete _ _ _ Hn). by right. }
  assert (∀ lost' news, (lost = true → lost' = true) →
    (lost' = false → news = [] → o1 = Done (Ok (Some (Ok tt)))) →
    let '(o, (_, s')) := write_rounds self schedule (delete n pending) lost' (failures ++ news) s1 in
    batch_done pending lost failures s o s') as Hgo.
  { intros lost' news E1 E2. specialize (IH _ lost' (failures ++ news) s1 Hnd' Hck').
    destruct (write_rounds _ _ _ _ _ _) as [o [sch s']]. by eapply batch_step. }
  assert (∀ o, (∀ fs, o ≠ Done (Ok fs)) → (∀ e, o ≠ Done (Err e)) →
    batch_done pending lost failures s o s1) as Hstop.
  { intros o Ho He. split; [|done|intros fs Hfs; by destruct (Ho fs)].
    intros vb. destruct (decide (vb = wf_vbucket f)) as [->|Hvb]; [|left; by apply Ha].
    destruct (ad_own _ _ _ _ Ha) as [?|[? ?]]; [by left|right]. exists f.
    split; [by eapply list_elem_of_lookup_2|done]. }
  destruct o1 as [[[[[]|e|]|]|e|]|].
  - specialize (Hgo lost []). rewrite app_nil_r in Hgo. by apply Hgo.
  - by apply Hgo.
  - by apply Hstop.
  - specialize (IH (<[n := wf_check f]> pending) lost failures s1).
    destruct (check_keeps _ _ _ _ _ Hn Hnd Hck Ha) as [Hnd1 Hck1]. specialize (IH Hnd1 Hck1).
    destruct (write_rounds _ _ _ _ _ _) as [o [sch s']]. by eapply batch_check.
  - by destruct (ad_err _ _ _ _ Ha e).
  - by apply Hstop.
  - specialize (Hgo true []). rewrite app_nil_r in Hgo. by apply Hgo.
Qed.

Lemma collect_writes_spec operation pending sch s :
  NoDup (wf_vbucket <$> pending) → (∀ f, f ∈ pending → wf_checked f = false) →
  wp (collect_couchbase_writes self operation pending)
     (λ o st', (∀ vb, held st'.2 vb = held s vb
          ∨ ∃ f, f ∈ pending ∧ wf_vbucket f = vb ∧ held st'.2 vb = target f ∧ fenced s f)
        ∧ (o = Done (Ok tt) → ∀ f, f ∈ pending → held st'.2 (wf_vbucket f) = target f)) (sch, s).
Proof.
  intros Hnd Hck. unfold collect_couchbase_writes. apply wp_bind. unfold wp.
  pose proof (write_rounds_spec sch pending false [] s Hnd) as Hw.
  destruct (write_rounds self sch pending false [] s) as [o [sch' s']]. cbn [fst snd].
  destruct Hw as [W1 W2 W3]; [intros f Hf; by rewrite (Hck f Hf)|]. split.
  - intros fs ->. apply wp_lift. split; [done|].
    destruct fs as [|x fs]; [|done]. intros _. destruct (W3 [] eq_refl) as (_ & more & Heq & Hm).
    by apply Hm.
  - intros o' [? ?]%leaves_inv. split; [done|]. intros Ho. naive_solver.
Qed.

Lemma save_futures_spec ds fs :
  mapM_res save_future (btree_to_list ds) = Ok fs →
  NoDup (wf_vbucket <$> fs) ∧ (∀ f, f ∈ fs → wf_checked f = false)
  ∧ (∀ f, f ∈ fs → ∃ d, ds !! wf_vbucket f = Some d ∧ target f = Some d
                        ∧ wf_bucket_uuid f = sd_bucket_uuid d)
  ∧ ∀ vb, is_Some (ds !! vb) → ∃ f, f ∈ fs ∧ wf_vbucket f = vb.
Proof.
  intros Hfs%mapM_res_ok.
  assert (∀ vb d f, save_future (vb, d) = Ok f →
    wf_vbucket f = vb ∧ wf_checked f = false ∧ target f = Some d
    ∧ wf_bucket_uuid f = sd_bucket_uuid d) as Hf.
  { intros vb d f. unfold save_future, target, document_of.
    destruct (document_to_vec d) as [|value] eqn:Hv; [done|]. intros [= <-]. cbn.
    by rewrite (document_roundtrip _ _ Hv). }
  assert (wf_vbucket <$> fs = (btree_to_list ds).*1) as Hkeys.
  { induction Hfs as [|[vb d] f l fs Hx _ IH]; [done|]. cbn. f_equal; [|done].
    by apply Hf in Hx as [? _]. }
  split_and!.
  - rewrite Hkeys. apply NoDup_btree_to_list_keys.
  - intros f [i Hi]%list_elem_of_lookup.
    destruct (Forall2_lookup_r _ _ _ _ _ Hfs Hi) as ([vb d] & _ & Hx%Hf). naive_solver.
  - intros f [i Hi]%list_elem_of_lookup.
    destruct (Forall2_lookup_r _ _ _ _ _ Hfs Hi) as ([vb d] & Hvd & (<- & _ & ? & ?)%Hf).
    exists d. split; [|done]. apply elem_of_btree_to_list. by eapply list_elem_of_lookup_2.
  - intros vb [d Hd]. apply elem_of_btree_to_list, list_elem_of_lookup in Hd as [i Hi].
    destruct (Forall2_lookup_l _ _ _ _ _ Hfs Hi) as (f & Hvd & (<- & _)%Hf).
    exists f. split; [by eapply list_elem_of_lookup_2|done].
Qed.

Lemma couchbase_save_contract batch st :
  wp (couchbase_save self batch)
     (λ o st', save_ok batch (couchbase_stored st) o (couchbase_stored st')) st.
Proof.
  destruct st as [sch s]. unfold couchbase_save. apply wp_bind, wp_lift.
  pose proof (serialize_spec batch) as Hs.
  destruct (serialize_checkpoint_batch batch) as [ds|e|]; [|wp_leave; by apply save_ok_same|done].
  destruct Hs as [[Hnd Hall Honly] _]. wp_ok. apply wp_bind, wp_lift.
  destruct (mapM_res save_future (btree_to_list ds)) as [fs|e|] eqn:Hfs;
    [|wp_leave; by apply save_ok_same|wp_leave; by apply save_ok_same].
  wp_ok. destruct (save_futures_spec _ _ Hfs) as (F1 & F2 & F3 & F4).
  eapply wp_mono; [by apply collect_writes_spec|]. intros o st' [W1 W2]. split.
  - intros vb. destruct (W1 vb) as [?|(f & Hf & <- & Ht & Hfe)]; [by left|right].
    destruct (F3 f Hf) as (d & Hd & Htd & Hu).
    destruct (Honly _ _ Hd) as (c & Hc & Hvb & Hfrom). exists c.
    pose proof (from_checkpoint_spec c) as Hs. rewrite Hfrom in Hs. destruct Hs as (_ & Hcu & _).
    split_and!; [done|done|..].
    + exists d. split; [done|]. rewrite Hvb. unfold couchbase_stored. congruence.
    + intros d' Hd'. rewrite Hcu, <-Hu. f_equal. symmetry. by apply Hfe.
  - intros Ho. split; [done|]. intros c Hc. destruct (Hall c Hc) as (d & Hfrom & Hd).
    exists d. split; [done|]. destruct (F4 (ck_vbucket c)) as (f & Hf & Heq); [by eexists|].
    destruct (F3 f Hf) as (d' & Hd' & Ht & _). unfold couchbase_stored.
    rewrite <-Heq, (W2 Ho f Hf). congruence.
Qed.

Lemma couchbase_clear_contract u vbs st :
  wp (couchbase_clear self u vbs)
     (λ o st', clear_ok u vbs (couchbase_stored st) o (couchbase_stored st')) st.
Proof.
  destruct st as [sch s]. unfold couchbase_clear. apply wp_bind, wp_lift.
  pose proof (validate_vbuckets_spec vbs) as Hv.
  destruct (validate_vbuckets vbs) as [[]|e|]; [|wp_leave; by apply clear_ok_same|done]. wp_ok.
  set (fs := _ <$> vbs).
  assert (∀ f, f ∈ fs ↔ ∃ vb, vb ∈ vbs ∧ f = mkFuture vb u CallRemove false) as Hfs.
  { intros f. unfold fs. rewrite list_elem_of_fmap. naive_solver. }
  eapply wp_mono; [apply collect_writes_spec|].
  - unfold fs. rewrite <-list_fmap_compose. by rewrite list_fmap_id.
  - intros f (vb & _ & ->)%Hfs. done.
  - intros o st' [W1 W2]. split.
    + intros vb. destruct (W1 vb) as [?|(f & (vb' & Hvb & ->)%Hfs & <- & Ht & Hfe)]; [by left|right].
      split_and!; [done|done|]. exact Hfe.
    + intros Ho vb Hvb. apply (W2 Ho (mkFuture vb u CallRemove false)). apply Hfs. eauto.
Qed.

(** *** Loads *)

(** What a load answers for one vBucket. *)
Definition answered u s (m : gmap Z DcpCheckpoint) (vb : Z) : Prop :=
  match held s vb with
  | Some d => ∃ c, into_checkpoint d vb u = Ok c ∧ m !! vb = Some c
  | None => m !! vb = None
  end.
Record loaded u (pending : list Z) (lost : bool) (acc : gmap Z DcpCheckpoint) s
    (o : outcome (gmap Z DcpCheckpoint)) s' : Prop := {
  lo_held : ∀ vb, held s' vb = held s vb;
  lo_lost : ∀ m, o = Done (Ok m) → lost = false;
  lo_found : ∀ m, o = Done (Ok m) → ∀ vb, vb ∈ pending → answered u s m vb;
  lo_rest : ∀ m, o = Done (Ok m) → ∀ vb, vb ∉ pending → m !! vb = acc !! vb
}.
Lemma loaded_nil u lost acc s :
  loaded u [] lost acc s (if lost then Hang else Done (Ok acc)) s.
Proof.
  destruct lost; (split; [done|..]); try done.
  - by intros ? _ ? ?%elem_of_nil.
  - by intros ? [= <-].
Qed.
Lemma loaded_stop u pending lost acc s o s' :
  (∀ vb, held s' vb = held s vb) → (∀ m, o ≠ Done (Ok m)) → loaded u pending lost acc s o s'.
Proof. intros Hs Ho. split; [done|..]; intros m Hm; by destruct (Ho m). Qed.

(** A read that is answered leaves the pending ones. *)
Lemma loaded_step u pending n v lost acc s s1 lost' acc' o s' :
  pending !! n = Some v → NoDup pending → (∀ vb, held s1 vb = held s vb) →
  (lost' = false → lost = false) → (∀ vb, vb ≠ v → acc' !! vb = acc !! vb) →
  (lost' = false → answered u s acc' v) →
  loaded u (delete n pending) lost' acc' s1 o s' → loaded u pending lost acc s o s'.
Proof.
  intros Hn Hnd Hs1 Hl Hacc Hown [L1 L2 L3 L4].
  destruct (NoDup_delete id pending n v Hn) as [_ Hne]; [by rewrite list_fmap_id|].
  pose proof (elem_of_delete _ _ _ Hn) as Hin.
  split; [intros vb; by rewrite L1|by eauto|..]; intros m Hm vb.
  - intros [->|Hvb]%Hin.
    + specialize (Hown (L2 m Hm)). unfold answered in *. rewrite (L4 m Hm); [done|].
      intros Hv. by apply (Hne v).
    + specialize (L3 m Hm vb Hvb). unfold answered in *. by rewrite Hs1 in L3.
  - rewrite Hin. intros Hvb. rewrite (L4 m Hm) by tauto. apply Hacc. tauto.
Qed.

Lemma load_rounds_spec u schedule : ∀ pending lost acc s,
  NoDup pending → (∀ vb, vb ∈ pending → acc !! vb = None) →
  let '(o, (_, s')) := load_rounds self u schedule pending lost acc s in
  loaded u pending lost acc s o s'.
Proof.
  induction schedule as [|n schedule IH]; intros pending lost acc s Hnd Hacc.
  { destruct pending; [apply loaded_nil|]. by apply loaded_stop. }
  destruct pending as [|v0 pending0]; [apply loaded_nil|].
  cbn [load_rounds]. set (pending := v0 :: pending0) in *.
  destruct (pending !! n) as [v|] eqn:Hn; [|by apply IH].
  pose proof (get_held (checkpoint_key self v) GO_DCP_XATTR s) as Hg. unfold wp in Hg.
  destruct (get_xattr _ _ _ s) as [o1 s1]. cbn [fst snd] in Hg. destruct Hg as [Hs1 Hv].
  destruct (NoDup_delete id pending n v Hn) as [Hnd' Hne]; [by rewrite list_fmap_id|].
  rewrite list_fmap_id in Hnd'.
  assert (∀ lost' acc', (lost' = false → lost = false) →
    (∀ vb, vb ≠ v → acc' !! vb = acc !! vb) → (lost' = false → answered u s acc' v) →
    let '(o, (_, s')) := load_rounds self u schedule (delete n pending) lost' acc' s1 in
    loaded u pending lost acc s o s') as Hgo.
  { intros lost' acc' Hl Ha Hown. specialize (IH (delete n pending) lost' acc' s1 Hnd').
    destruct (load_rounds _ _ _ _ _ _ _) as [o [sch s']]. eapply loaded_step; [done..|].
    apply IH. intros vb Hvb. rewrite Ha by by apply (Hne vb).
    apply Hacc. apply (elem_of_delete _ _ _ Hn). by right. }
  assert (acc !! v = None) as Hnone by (apply Hacc; by eapply list_elem_of_lookup_2).
  assert (∀ value, o1 = Done (Ok value) → held s v = value ≫= document_of) as Hheld
    by (intros value ->%Hv; done).
  destruct o1 as [[[value|]|e|]|]; [|..|by apply loaded_stop|by apply loaded_stop|by apply Hgo].
  - specialize (Hheld _ eq_refl). cbn in Hheld. unfold load_document, document_of in *.
    destruct (document_from_slice value) as [e|d]; [by apply loaded_stop|].
    destruct (into_checkpoint d v u) as [c|e|] eqn:Hc; [|by apply loaded_stop..].
    apply Hgo; [done|by intros vb Hvb; rewrite lookup_insert_ne|].
    intros _. unfold answered. rewrite Hheld. exists c. by rewrite lookup_insert_eq.
  - apply Hgo; [done|done|]. intros _. unfold answered. by rewrite (Hheld _ eq_refl).
Qed.

Lemma couchbase_load_contract u vbs st :
  wp (couchbase_load self u vbs)
     (λ o st', load_ok u vbs (couchbase_stored st) o (couchbase_stored st')) st.
Proof.
  destruct st as [sch s]. unfold couchbase_load. apply wp_bind, wp_lift.
  pose proof (validate_vbuckets_spec vbs) as Hv.
  destruct (validate_vbuckets vbs) as [[]|e|]; [|wp_leave; by apply load_ok_same|done]. wp_ok.
  unfold wp. pose proof (load_rounds_spec u sch vbs false ∅ s Hv) as Hl.
  destruct (load_rounds _ _ _ _ _ _ _) as [o [sch' s']]. destruct Hl as [L1 _ L3 L4]; [done|].
  split; [exact L1|]. intros m Hm vb. case_bool_decide as Hin; [by apply (L3 m Hm)|].
  rewrite (L4 m Hm vb Hin). apply lookup_empty.
Qed.

#[export] Instance couchbase_store_contract : StoreContract self couchbase_stored.
Proof.
  split; [apply couchbase_save_contract|apply couchbase_load_contract
         |apply couchbase_clear_contract].
Qed.
End Contract.

(** ** Completion *)
Section Completion.
Context {C S : Type} `{CouchbaseCheckpointCollection C S} `{CheckpointJson}.
Context (self : CouchbaseCheckpointStore C).

(** Every call of the collection ends. *)
Record responsive : Prop := {
  rs_get key x : io_total (get_xattr (cbs_collection self) key x);
  rs_upsert key x v : io_total (upsert_xattr (cbs_collection self) key x v);
  rs_remove key : io_total (remove_document (cbs_collection self) key)
}.
Hypothesis Hresp : responsive.

Lemma advance_total f s :
  ∃ r s', advance self f s = (Done (Ok r), s') ∧ r ≠ Some Panic
          ∧ (wf_checked f = true → r ≠ None).
Proof using Hresp.
  unfold advance. destruct (wf_checked f).
  - assert (io_total (write_call self f)) as Ht
      by (unfold write_call; destruct (wf_call f); apply Hresp).
    unfold io_bind, io_try. destruct (Ht s) as [Hh Hp].
    destruct (write_call self f s) as [[[|e|]|] s1]; cbn in *; try done;
      by eexists _, _.
  - unfold io_bind, io_try.
    destruct (rs_get Hresp (checkpoint_key self (wf_vbucket f)) GO_DCP_XATTR s) as [Hh Hp].
    destruct (get_xattr _ _ _ s) as [[[x|e|]|] s1]; cbn in *; try done; [|by eexists _, _].
    pose proof (check_existing_spec f x) as Hx.
    destruct (check_existing f x); [by eexists _, _..|done].
Qed.

(** How many calls a future still makes, and how often a schedule completes the first. *)
Definition calls_left (f : WriteFuture) : nat := if wf_checked f then 1%nat else 2%nat.
Definition firsts (schedule : list nat) : nat := length (filter (eq 0%nat) schedule).

Lemma sum_delete (l : list WriteFuture) n f :
  l !! n = Some f →
  (sum_list (calls_left <$> delete n l) + calls_left f = sum_list (calls_left <$> l))%nat.
Proof using. revert n. induction l as [|g l IH]; intros [|n] Hn; simplify_eq/=; [lia|]. rewrite <-(IH n Hn). lia. Qed.
Lemma sum_insert (l : list WriteFuture) n f :
  l !! n = Some f → wf_checked f = false →
  (sum_list (calls_left <$> <[n := wf_check f]> l) < sum_list (calls_left <$> l))%nat.
Proof using.
  intros Hn Hf. revert n Hn. induction l as [|g l IH]; intros [|n] Hn; simplify_eq/=.
  - unfold calls_left. rewrite Hf. cbn. lia.
  - specialize (IH n Hn). lia.
Qed.
Lemma firsts_cons n schedule : (firsts (n :: schedule) ≤ 1 + firsts schedule)%nat.
Proof using. unfold firsts. rewrite filter_cons. case_decide; cbn; lia. Qed.

Lemma write_rounds_completes schedule : ∀ pending failures s,
  (sum_list (calls_left <$> pending) ≤ firsts schedule)%nat →
  ∃ fs st, write_rounds self schedule pending false failures s = (Done (Ok fs), st).
Proof using Hresp.
  induction schedule as [|n schedule IH]; intros pending failures s Hle.
  { destruct pending as [|f pending]; [by eexists _, _|]. exfalso. cbn in Hle.
    unfold calls_left in Hle. destruct (wf_checked f); lia. }
  destruct pending as [|f0 pending0]; [by eexists _, _|]. cbn [write_rounds].
  set (pending := f0 :: pending0) in *. pose proof (firsts_cons n schedule) as Hfc.
  destruct (pending !! n) as [f|] eqn:Hn; last first.
  { apply IH. unfold firsts in *. rewrite filter_cons_False in Hle; [done|]. by intros <-. }
  destruct (advance_total f s) as (r & s1 & -> & Hp & Hc).
  pose proof (sum_delete _ _ _ Hn) as Hd.
  assert (1 ≤ calls_left f)%nat by (unfold calls_left; destruct (wf_checked f); lia).
  destruct r as [[[]|e|]|]; [apply IH; lia..|done|].
  apply IH. assert (wf_checked f = false) as Hck by (destruct (wf_checked f); [by destruct Hc|done]).
  pose proof (sum_insert _ _ _ Hn Hck). lia.
Qed.

Lemma documents_length batch (ds : Documents) :
  batch_documents batch ds → (length (btree_to_list ds) ≤ length batch)%nat.
Proof using.
  intros [_ _ Honly].
  rewrite <-(length_fmap fst (btree_to_list ds)), <-(length_fmap ck_vbucket batch).
  apply submseteq_length, NoDup_submseteq; [apply NoDup_btree_to_list_keys|].
  intros vb ([v d] & -> & Hd)%list_elem_of_fmap. apply elem_of_btree_to_list in Hd.
  destruct (Honly v d Hd) as (c & Hc & <- & _). by apply (list_elem_of_fmap_2 ck_vbucket).
Qed.
Lemma sum_calls_le (l : list WriteFuture) : (sum_list (calls_left <$> l) ≤ 2 * length l)%nat.
Proof using.
  induction l as [|f l IH]; csimpl; [lia|]. unfold calls_left at 1. destruct (wf_checked f); lia.
Qed.
Lemma couchbase_save_completes batch schedule s :
  (2 * length batch ≤ firsts schedule)%nat →
  ∃ r st, couchbase_save self batch (schedule, s) = (Done r, st) ∧ r ≠ Panic.
Proof using Hresp.
  intros Hlen. unfold couchbase_save, io_bind at 1. pose proof (serialize_spec batch) as Hs.
  destruct (serialize_checkpoint_batch batch) as [ds|e|]; cbn [io_lift]; [|by eexists _, _|done].
  destruct Hs as [Hds _]. pose proof (documents_length batch ds Hds) as Hn.
  unfold io_bind at 1. destruct (mapM_res save_future _) as [pending|e|] eqn:Hm; cbn [io_lift];
    [|by eexists _, _|].
  2: { exfalso. revert Hm. apply mapM_res_no_panic. intros [vb d] _. unfold save_future.
       by destruct (document_to_vec d). }
  apply mapM_res_ok, Forall2_length in Hm. pose proof (sum_calls_le pending).
  unfold collect_couchbase_writes, io_bind.
  destruct (write_rounds_completes schedule pending [] s) as (fs & st & ->); [lia|].
  eexists _, _. split; [done|]. by destruct fs.
Qed.
End Completion.

(** C24: The Couchbase store keeps the contract of a checkpoint store for every order in which
    the concurrent calls of its batches complete and whichever of them fail or never end: a
    save writes only documents of its batch, never over another bucket's, and succeeds only
    as a whole; a load changes nothing and returns exactly what is held; a clear removes
    only what it names.  When the calls end and each is given its turn, a save completes. *)
Theorem couchbase_store_correct {C S : Type} `{CouchbaseCheckpointCollection C S} `{CheckpointJson}
    (self : CouchbaseCheckpointStore C) (xattr : S → string → string → option bytes) :
  CheckpointJsonLaws → XattrCollection (cbs_collection self) xattr →
  StoreContract self (couchbase_stored self xattr)
  ∧ (responsive self → ∀ batch schedule s, (2 * length batch ≤ firsts schedule)%nat →
       ∃ r st, couchbase_save self batch (schedule, s) = (Done r, st) ∧ r ≠ Panic).
Proof.
  intros Hj Hx. split; [by apply couchbase_store_contract|].
  intros Hr batch schedule s. by apply couchbase_save_completes.
Qed.

(** A collection in memory. *)
Definition sample_collection : CouchbaseCheckpointCollection unit (gmap (string * string) bytes) := {|
  get_xattr _ key x := io_get (λ m, m !! (key, x));
  upsert_xattr _ key x v := io_modify <[(key, x) := v]>;
  remove_document _ key := io_modify (filter (λ e, e.1.1 ≠ key)) |}.
Definition sample_xattr (m : gmap (string * string) bytes) (key x : string) : option bytes :=
  m !! (key, x).
Lemma sample_collection_laws : @XattrCollection _ _ sample_collection () sample_xattr.
Proof.
  split; intros; unfold wp, sample_xattr; cbn.
  - split; [done|]. by intros v [= <-].
  - split_and!; [|right|intros _]; try apply lookup_insert_eq.
    intros k y Hne. by apply lookup_insert_ne.
  - split_and!; [|right|intros _]; intros.
    + destruct (s !! (k, y)) as [v|] eqn:Hl; [|by apply map_lookup_filter_None_2; left].
      by apply map_lookup_filter_Some_2.
    + apply map_lookup_filter_None_2. right. by intros v _ [].
    + apply map_lookup_filter_None_2. right. by intros v _ [].
Qed.
Definition sample_store : CouchbaseCheckpointStore unit := mkCouchbaseStore tt "group".

Lemma couchbase_store_correct_witness :
  ∃ r st, @couchbase_save _ _ sample_collection sample_json sample_store sample_batch ([0; 0]%nat, ∅)
          = (Done r, st) ∧ r ≠ Panic.
Proof.
  apply (@couchbase_store_correct _ _ sample_collection sample_json sample_store sample_xattr
    sample_json_laws sample_collection_laws).
  - split; intros; split; discriminate.
  - vm_compute. apply le_n.
Defined.
