(* ===== verification/CheckpointKv.v ===== *)
(** * The built-in checkpoint collection ([rust-dcp-core/src/checkpoint_couchbase.rs])

    Every operation bootstraps a session, finds the active owner of the key, and sends one
    command there; a stale route or collection ID starts over, a bounded number of times.
    Dialing is a parameter of each attempt. *)
From S2P Require Import Prelude Text Types Frame Codec Dcp Command Errors Checkpoint Config.
From S2P Require Import Async Transport Topology Cccp Settings Auth Stream Bootstrap Collections.
From S2P Require Import Store StoreCouchbase.


Definition CLIENT_NAME : string := "rust-dcp-checkpoint-couchbase".
Definition DEFAULT_SCOPE : string := "_default".
Definition DEFAULT_COLLECTION : string := "_default".
Definition MAX_DOCUMENT_KEY_LEN : Z := 250.
Definition DEFAULT_ROUTING_ATTEMPTS : nat := 3.
Definition DEFAULT_MAX_CONCURRENCY : nat := 16.

Record CouchbaseCheckpointCollectionSpec : Type := mkSpec {
  cs_scope : string;
  cs_collection : string
}.
Definition spec_default : CouchbaseCheckpointCollectionSpec :=
  mkSpec DEFAULT_SCOPE DEFAULT_COLLECTION.
Definition is_default (c : CouchbaseCheckpointCollectionSpec) : bool :=
  bool_decide (cs_scope c = DEFAULT_SCOPE) && bool_decide (cs_collection c = DEFAULT_COLLECTION).

Definition validate_collection_name (kind v : string) : result unit :=
  if bool_decide (v = "") || (251 <? str_len v) || negb (forallb is_collection_char (as_bytes v))
  then Err (InvalidConfiguration ("checkpoint " +:+ kind
         +:+ " contains a character unsupported by Couchbase Collections"))
  else Ok tt.
Definition spec_new (scope collection : string) : result CouchbaseCheckpointCollectionSpec :=
  do? validate_collection_name "scope" scope in
  do? validate_collection_name "collection" collection in
  Ok (mkSpec scope collection).
Definition validate_document_key (key : string) : result unit :=
  if bool_decide (key = "") || (MAX_DOCUMENT_KEY_LEN <? str_len key) then
    Err (InvalidConfiguration ("checkpoint document key must contain 1..="
      +:+ pretty MAX_DOCUMENT_KEY_LEN +:+ " bytes"))
  else Ok tt.

Record CouchbaseKvCheckpointCollection : Type := mkKvCollection {
  kv_config : DcpConfig;
  kv_collection : CouchbaseCheckpointCollectionSpec;
  kv_routing_attempts : nat;
  kv_max_concurrency : nat
}.
Definition in_collection (config : DcpConfig) (collection : CouchbaseCheckpointCollectionSpec)
    : result CouchbaseKvCheckpointCollection :=
  do? config_validate config in
  Ok (mkKvCollection config collection DEFAULT_ROUTING_ATTEMPTS DEFAULT_MAX_CONCURRENCY).
Definition kv_new (config : DcpConfig) : result CouchbaseKvCheckpointCollection :=
  in_collection config spec_default.

(** A new gate goes with a new limit. *)
Definition routing_attempts (n : nat) (self : CouchbaseKvCheckpointCollection)
    : CouchbaseKvCheckpointCollection :=
  mkKvCollection (kv_config self) (kv_collection self) n (kv_max_concurrency self).
Definition max_concurrency (limit : nat) (self : CouchbaseKvCheckpointCollection)
    : CouchbaseKvCheckpointCollection :=
  mkKvCollection (kv_config self) (kv_collection self) (kv_routing_attempts self) limit.

(** ** Operations on the wire *)
Inductive CheckpointKvOperation : Type :=
| GetXattr (xattr : string)
| UpsertXattr (xattr : string) (value : bytes)
| RemoveDocument.
Inductive CheckpointKvResult : Type :=
| KvXattr (value : option bytes)
| KvMutation.

Definition op_request (op : CheckpointKvOperation) (key : string) (collection_id : option Z)
    (vbucket : Z) : result Frame :=
  match op with
  | GetXattr xattr =>
      from_protocol (subdoc_get_xattr (as_bytes key) xattr collection_id vbucket 0)
  | UpsertXattr xattr v =>
      from_protocol (subdoc_upsert_xattr (as_bytes key) xattr v collection_id vbucket 0)
  | RemoveDocument => Ok (delete_document (as_bytes key) collection_id vbucket 0 0)
  end.

Definition server_status (response : Frame) (context : string) : DcpError :=
  DcpServerStatus (status response) (opcode response)
    (context +:+ ": " +:+ from_utf8_lossy (value response)).
Definition op_parse_response (op : CheckpointKvOperation) (response : Frame)
    : result CheckpointKvResult :=
  match op with
  | GetXattr _ => res_map KvXattr (from_protocol (parse_subdoc_get_xattr response))
  | UpsertXattr _ _ => do? from_protocol (parse_subdoc_mutation response) in Ok KvMutation
  | RemoveDocument =>
      if (status response =? STATUS_SUCCESS) || (status response =? STATUS_KEY_NOT_FOUND) then
        Ok KvMutation
      else Err (server_status response "checkpoint document removal")
  end.
Definition validate_response_envelope (response : Frame) (expected : Opcode) : result unit :=
  if negb (magic_is_response (magic response)) then
    Err (Protocol (MalformedFrame ("checkpoint KV response used request magic 0x"
      +:+ hex_pad2 (magic_as_u8 (magic response)))))
  else if negb (opcode response =? expected) then
    Err (Protocol (MalformedFrame ("checkpoint KV response opcode 0x"
      +:+ hex_pad2 (opcode response) +:+ " does not match request 0x" +:+ hex_pad2 expected)))
  else Ok tt.
Definition unexpected_result (operation : string) : DcpError :=
  CheckpointStoreError ("checkpoint KV " +:+ operation +:+ " returned an incompatible result").

(** ** Routing *)

(** What one attempt meets: dialing and random bytes, for the seed and for the node. *)
Record RoutingEnv : Type := mkRoutingEnv {
  re_seed_dial : SeedAddress → outcome KvConnection;
  re_seed_nonce : string + bytes;
  re_node_dial : SeedAddress → outcome KvConnection;
  re_node_nonce : string + bytes
}.

Definition out_bind {A B} (o : outcome A) (k : A → outcome B) : outcome B :=
  match o with
  | Done (Ok a) => k a
  | Done (Err e) => Done (Err e)
  | Done Panic => Done Panic
  | Hang => Hang
  end.
Definition run_on {A B} (m : io KvConnection A) (c : KvConnection)
    (k : A → KvConnection → outcome B) : outcome B :=
  let '(o, c') := m c in out_bind o (λ a, k a c').
Definition set_seeds (seeds : list SeedAddress) (c : DcpConfig) : DcpConfig :=
  mkDcpConfig seeds (dc_credentials c) (dc_bucket c) (dc_collections c) (dc_mode c)
    (dc_start_from c) (dc_listener c) (dc_flow_control c) (Settings.dc_checkpoint c)
    (dc_rollback_policy c) (dc_rollback_mitigation c) (dc_priority c)
    (dc_disable_change_streams c) (dc_connect_timeout c) (dc_tls c) (dc_network c)
    (dc_health_check c).

Section Execute.
Context `{ScramCrypto} `{Snappy} (cccp_from_slice : bytes → string + RawBucketConfig)
        (crc32 : bytes → Z).

Definition collection_id (spec : CouchbaseCheckpointCollectionSpec) (supported : bool)
    : io KvConnection (option Z) :=
  if negb supported then
    if is_default spec then io_ret None
    else io_lift (Err (Unsupported ("checkpoint collection " +:+ cs_scope spec +:+ "."
           +:+ cs_collection spec +:+ " requires Couchbase Collections")))
  else if is_default spec then io_ret (Some 0)
  else
    let! id := resolve_collection_id (cs_scope spec) (cs_collection spec) in
    io_ret (Some (ci_collection_id id)).

(** The node that owns the key, and the vBucket it is in. *)
Definition locate (self : CouchbaseKvCheckpointCollection) (key : string) (env : RoutingEnv)
    : outcome (option Z * Z * SeedAddress) :=
  out_bind (bootstrap_kv_connection (re_seed_dial env) (re_seed_nonce env) (kv_config self)
              CLIENT_NAME) (λ seed,
  run_on (collection_id (kv_collection self) (supports (ks_capabilities seed) HfCollections))
    (ks_connection seed) (λ id connection,
  run_on (discover_topology cccp_from_slice (dc_bucket (kv_config self))
            (tls_enabled (dc_tls (kv_config self))) (dc_network (kv_config self)))
    connection (λ topology _,
  out_bind (Done (couchbase_vbucket_for_key crc32 (as_bytes key)
              (Z.of_nat (size (ct_vbuckets topology))))) (λ vbucket,
  out_bind (Done (active_endpoint topology vbucket)) (λ endpoint,
  out_bind (Done (seed_from_str (ep_address endpoint))) (λ address,
  Done (Ok (id, vbucket, address)))))))).

(** One attempt; [Ok None] is a stale route or collection. *)
Definition attempt (self : CouchbaseKvCheckpointCollection) (key : string)
    (op : CheckpointKvOperation) (env : RoutingEnv) : outcome (option CheckpointKvResult) :=
  out_bind (locate self key env) (λ '(id, vbucket, address),
  out_bind (bootstrap_kv_connection (re_node_dial env) (re_node_nonce env)
              (set_seeds [address] (kv_config self)) CLIENT_NAME) (λ node,
  if negb (supports (ks_capabilities node) HfXattr) then
    Done (Err (Unsupported "Couchbase checkpoint persistence requires XATTR support"))
  else if bool_decide (is_Some id) && negb (supports (ks_capabilities node) HfCollections) then
    Done (Err (Unsupported ("checkpoint collection " +:+ cs_scope (kv_collection self) +:+ "."
      +:+ cs_collection (kv_collection self)
      +:+ " requires Couchbase Collections on the active KV node")))
  else
    out_bind (Done (op_request op key id vbucket)) (λ request,
    run_on (conn_request request) (ks_connection node) (λ response _,
    out_bind (Done (validate_response_envelope response (opcode request))) (λ _,
    if (status response =? STATUS_NOT_MY_VBUCKET) || (status response =? STATUS_COLLECTION_UNKNOWN)
    then Done (Ok None)
    else Done (res_map Some (op_parse_response op response))))))).

Fixpoint attempts (n : nat) (self : CouchbaseKvCheckpointCollection) (key : string)
    (op : CheckpointKvOperation) (env : nat → RoutingEnv) : outcome CheckpointKvResult :=
  match n with
  | O => Done (Err (CheckpointStoreError
           ("checkpoint KV owner or collection changed during all "
            +:+ pretty (Z.of_nat (kv_routing_attempts self)) +:+ " routing attempts")))
  | S n =>
      out_bind (attempt self key op (env (kv_routing_attempts self - S n)%nat)) (λ r,
      match r with
      | Some r => Done (Ok r)
      | None => attempts n self key op env
      end)
  end.

Definition execute (self : CouchbaseKvCheckpointCollection) (key : string)
    (op : CheckpointKvOperation) (env : nat → RoutingEnv) : outcome CheckpointKvResult :=
  out_bind (Done (validate_document_key key)) (λ _,
  attempts (kv_routing_attempts self) self key op env).

(** [permit] is the error of a closed semaphore, if it is closed. *)
Definition acquire_operation_permit (permit : option string) : outcome unit :=
  match permit with
  | Some error => Done (Err (CheckpointStoreError
      ("checkpoint KV concurrency gate closed unexpectedly: " +:+ error)))
  | None => Done (Ok tt)
  end.

Definition kv_get_xattr (permit : option string) (self : CouchbaseKvCheckpointCollection)
    (key xattr : string) (env : nat → RoutingEnv) : outcome (option bytes) :=
  out_bind (acquire_operation_permit permit) (λ _,
  out_bind (execute self key (GetXattr xattr) env) (λ r,
  match r with
  | KvXattr v => Done (Ok v)
  | KvMutation => Done (Err (unexpected_result "XATTR lookup"))
  end)).
Definition kv_upsert_xattr (permit : option string) (self : CouchbaseKvCheckpointCollection)
    (key xattr : string) (v : bytes) (env : nat → RoutingEnv) : outcome unit :=
  out_bind (acquire_operation_permit permit) (λ _,
  out_bind (execute self key (UpsertXattr xattr v) env) (λ r,
  match r with
  | KvMutation => Done (Ok tt)
  | KvXattr _ => Done (Err (unexpected_result "XATTR upsert"))
  end)).
Definition kv_remove_document (permit : option string) (self : CouchbaseKvCheckpointCollection)
    (key : string) (env : nat → RoutingEnv) : outcome unit :=
  out_bind (acquire_operation_permit permit) (λ _,
  out_bind (execute self key RemoveDocument env) (λ r,
  match r with
  | KvMutation => Done (Ok tt)
  | KvXattr _ => Done (Err (unexpected_result "document removal"))
  end)).
End Execute.

(** [CouchbaseCheckpointStore::from_config] and [from_config_in_collection] *)
Definition from_config_in_collection (config : DcpConfig)
    (collection : CouchbaseCheckpointCollectionSpec) (group : string)
    : result (CouchbaseCheckpointStore CouchbaseKvCheckpointCollection) :=
  let? c := in_collection config collection in couchbase_store_new c group.
Definition from_config (config : DcpConfig) (group : string)
    : result (CouchbaseCheckpointStore CouchbaseKvCheckpointCollection) :=
  let? c := kv_new config in couchbase_store_new c group.
(** ** Correctness of routing *)
Section Routing.
Context `{ScramCrypto} `{Snappy} (cccp_from_slice : bytes → string + RawBucketConfig)
        (crc32 : bytes → Z).
Abbreviation attempt' := (attempt cccp_from_slice crc32).
Abbreviation execute' := (execute cccp_from_slice crc32).
Implicit Types (self : CouchbaseKvCheckpointCollection) (key : string) (env : nat → RoutingEnv).

(** ** What an operation asks, and of whom *)

(** The vBucket of a key: fifteen bits of its CRC, from bit 16 on, modulo the vBuckets. *)
Definition key_vbucket key (count : Z) : Z :=
  ((crc32 (as_bytes key) / 65536) `mod` 32768) `mod` count.

(** The collection's ID: none, or the default's, when the store is in the default
    collection; otherwise what the server resolved its path to. *)
Definition collection_found (spec : CouchbaseCheckpointCollectionSpec) (seed : KvSession)
    (id : option Z) (c : KvConnection) : Prop :=
  if decide (cs_scope spec = "_default" ∧ cs_collection spec = "_default") then
    c = ks_connection seed
    ∧ id = (if supports (ks_capabilities seed) HfCollections then Some 0 else None)
  else supports (ks_capabilities seed) HfCollections = true
    ∧ ∃ found, resolve_collection_id (cs_scope spec) (cs_collection spec) (ks_connection seed)
                 = (Done (Ok found), c)
             ∧ id = Some (ci_collection_id found).

(** [address] is the active endpoint of the key's vBucket in the topology that a seed
    reported. *)
Definition located self key (e : RoutingEnv) (id : option Z) (vb : Z) (address : SeedAddress)
    : Prop :=
  ∃ seed c topology c' route endpoint,
    bootstrap_kv_connection (re_seed_dial e) (re_seed_nonce e) (kv_config self) CLIENT_NAME
      = Done (Ok seed)
    ∧ collection_found (kv_collection self) seed id c
    ∧ discover_topology cccp_from_slice (dc_bucket (kv_config self))
        (tls_enabled (dc_tls (kv_config self))) (dc_network (kv_config self)) c
      = (Done (Ok topology), c')
    ∧ 1 ≤ Z.of_nat (size (ct_vbuckets topology)) ≤ 65536
    ∧ vb = key_vbucket key (Z.of_nat (size (ct_vbuckets topology)))
    ∧ ct_vbuckets topology !! vb = Some route
    ∧ ct_endpoints topology !! rt_active route = Some endpoint
    ∧ seed_from_str (ep_address endpoint) = Ok address.

(** The command of an operation: opcode, extras and value. *)
Definition op_body (op : CheckpointKvOperation) : Opcode * bytes * bytes :=
  match op with
  | GetXattr xattr => (0xd0, [], [0xc5; 0x04] ++ put_u16 (str_len xattr) ++ as_bytes xattr)
  | UpsertXattr xattr v =>
      (0xd1, [0x01], [0xc8; 0x04] ++ put_u16 (str_len xattr) ++ put_u32 (len v)
                     ++ as_bytes xattr ++ v)
  | RemoveDocument => (0x04, [], [])
  end.
Definition op_frame (op : CheckpointKvOperation) key (id : option Z) (vb : Z) : Frame :=
  let '(o, x, v) := op_body op in
  mkFrame Request o 0 vb STATUS_SUCCESS 0 0 [] x (as_bytes key) v id None.
Definition op_fits (op : CheckpointKvOperation) : Prop :=
  match op with
  | GetXattr xattr => 1 ≤ str_len xattr ≤ u16_max
  | UpsertXattr xattr v => 1 ≤ str_len xattr ≤ u16_max ∧ len v ≤ u32_max
  | RemoveDocument => True
  end.

(** One attempt asked [q] of the owner of the key, on a session of its own that has the
    features the operation needs, and was answered [f]. *)
Definition asked self key op (e : RoutingEnv) (q f : Frame) : Prop :=
  ∃ id vb address config node c,
    located self key e id vb address
    ∧ config = set_seeds [address] (kv_config self)
    ∧ (dc_seeds config = [address] ∧ dc_bucket config = dc_bucket (kv_config self)
       ∧ dc_credentials config = dc_credentials (kv_config self)
       ∧ dc_tls config = dc_tls (kv_config self))
    ∧ bootstrap_kv_connection (re_node_dial e) (re_node_nonce e) config CLIENT_NAME
      = Done (Ok node)
    ∧ supports (ks_capabilities node) HfXattr = true
    ∧ (is_Some id → supports (ks_capabilities node) HfCollections = true)
    ∧ op_fits op ∧ q = op_frame op key id vb
    ∧ conn_request q (ks_connection node) = (Done (Ok f), c)
    ∧ magic_is_response (magic f) = true ∧ opcode f = opcode q.

(** The owner said that the vBucket is not its own, or that it does not know the
    collection. *)
Definition stale self key op (e : RoutingEnv) : Prop :=
  ∃ q f, asked self key op e q f ∧ (status f = 0x07 ∨ status f = 0x88).

(** The value of an XATTR in the answer to a lookup; a missing document or path has none. *)
Definition xattr_answer (f : Frame) (v : option bytes) : Prop :=
  status f = 0x01 ∧ v = None
  ∨ (status f = 0 ∨ status f = 0xcc)
    ∧ ∃ st n, be_at 2 (value f) 0 = Ok st ∧ be_at 4 (value f) 2 = Ok n
        ∧ len (value f) = 6 + n
        ∧ (st = 0 ∧ v = Some (drop 6 (value f)) ∨ st = 0xc0 ∧ v = None).
Definition op_answer (op : CheckpointKvOperation) (f : Frame) (r : CheckpointKvResult) : Prop :=
  match op with
  | GetXattr _ => ∃ v, r = KvXattr v ∧ xattr_answer f v
  | UpsertXattr _ _ => r = KvMutation ∧ status f = 0
  | RemoveDocument => r = KvMutation ∧ (status f = 0 ∨ status f = 0x01)
  end.
Definition answered_by_owner self key op (e : RoutingEnv) (r : CheckpointKvResult) : Prop :=
  ∃ q f, asked self key op e q f ∧ status f ≠ 0x07 ∧ status f ≠ 0x88 ∧ op_answer op f r.

Lemma out_bind_ok {A B} (o : outcome A) (k : A → outcome B) b :
  out_bind o k = Done (Ok b) ↔ ∃ a, o = Done (Ok a) ∧ k a = Done (Ok b).
Proof. split; [destruct o as [[a|e|]|]; [eauto|done..]|by intros (a & -> & Hk)]. Qed.
Lemma run_on_ok {A B} (m : io KvConnection A) c (k : A → KvConnection → outcome B) b :
  run_on m c k = Done (Ok b) ↔ ∃ a c', m c = (Done (Ok a), c') ∧ k a c' = Done (Ok b).
Proof.
  unfold run_on. split; [destruct (m c) as [o c']; intros (a & -> & ?)%out_bind_ok; eauto|].
  by intros (a & c' & -> & Hk).
Qed.

Lemma vbucket_for_key key (n : nat) vb :
  couchbase_vbucket_for_key crc32 (as_bytes key) (Z.of_nat n) = Ok vb
  ↔ 1 ≤ Z.of_nat n ≤ 65536 ∧ vb = key_vbucket key (Z.of_nat n).
Proof.
  unfold couchbase_vbucket_for_key, key_vbucket. change (u16_max + 1) with 65536.
  change 0x7fff with (Z.ones 15). rewrite Z.land_ones, Z.shiftr_div_pow2 by lia.
  change (2 ^ 15) with 32768. change (2 ^ 16) with 65536.
  destruct (Z.eqb_spec (Z.of_nat n) 0) as [|Hn]; cbn [orb]; [split; [done|lia]|].
  destruct (Z.ltb_spec 65536 (Z.of_nat n)); [split; [done|lia]|].
  pose proof (Z.mod_pos_bound (crc32 (as_bytes key) / 65536) 32768).
  set (h := (crc32 (as_bytes key) / 65536) `mod` 32768) in *.
  pose proof (Z.mod_pos_bound h (Z.of_nat n)).
  rewrite try_from_ok by (unfold_ranges; lia). split; [intros [= <-]; split; [lia|done]|by intros [_ ->]].
Qed.
Lemma collection_id_ok spec seed id c :
  collection_id spec (supports (ks_capabilities seed) HfCollections) (ks_connection seed)
    = (Done (Ok id), c) ↔ collection_found spec seed id c.
Proof.
  unfold collection_id, collection_found, is_default, DEFAULT_SCOPE, DEFAULT_COLLECTION.
  rewrite <-bool_decide_and. case_bool_decide as Hd.
  - rewrite decide_True by done.
    destruct (supports _ HfCollections); cbn [negb]; unfold io_ret, io_lift; naive_solver.
  - rewrite decide_False by done. destruct (supports _ HfCollections); cbn [negb].
    2: { unfold io_lift. naive_solver. }
    unfold io_bind. destruct (resolve_collection_id _ _ _) as [[[found|e|]|] c1];
      unfold io_ret, io_lift; naive_solver.
Qed.
Lemma active_endpoint_ok t vb e :
  active_endpoint t vb = Ok e ↔
  ∃ route, ct_vbuckets t !! vb = Some route ∧ ct_endpoints t !! rt_active route = Some e.
Proof.
  unfold active_endpoint, active_node, route_of, res_map.
  destruct (ct_vbuckets t !! vb) as [route|]; cbn [ok_or]; [|naive_solver].
  destruct (ct_endpoints t !! rt_active route) eqn:He; cbn [ok_or]; naive_solver.
Qed.
Lemma locate_ok self key e id vb address :
  locate cccp_from_slice crc32 self key e = Done (Ok (id, vb, address))
  ↔ located self key e id vb address.
Proof.
  unfold locate, located. rewrite out_bind_ok. split.
  - intros (seed & Hseed & Hr). apply run_on_ok in Hr as (id' & c & Hid & Hr).
    apply run_on_ok in Hr as (topology & c' & Ht & Hr).
    apply out_bind_ok in Hr as (vb' & [= Hvb] & Hr).
    apply out_bind_ok in Hr as (endpoint & [= He] & Hr).
    apply out_bind_ok in Hr as (address' & [= Ha] & [= -> -> ->]).
    apply vbucket_for_key in Hvb as [Hn ->]. apply active_endpoint_ok in He as (route & Hr & He).
    exists seed, c, topology, c', route, endpoint. by rewrite <-collection_id_ok.
  - intros (seed & c & topology & c' & route & endpoint & Hseed & Hid & Ht & Hn & -> & Hr & He & Ha).
    exists seed. split; [done|]. apply run_on_ok. exists id, c. rewrite collection_id_ok.
    split; [done|]. apply run_on_ok. exists topology, c'. split; [done|].
    apply out_bind_ok. eexists. split; [f_equal; by apply vbucket_for_key|].
    apply out_bind_ok. exists endpoint. split; [f_equal; apply active_endpoint_ok; eauto|].
    by rewrite Ha.
Qed.
Lemma subdoc_path_len_ok path n :
  subdoc_path_len path = Ok n ↔ 1 ≤ str_len path ≤ u16_max ∧ n = str_len path.
Proof.
  unfold subdoc_path_len. assert (0 ≤ str_len path) by (unfold str_len; lia).
  destruct (Z.eqb_spec (str_len path) 0); [split; [done|lia]|]. unfold try_from.
  destruct (Z.leb_spec (str_len path) u16_max); cbn [ok_or]; [|split; [done|lia]].
  split; [intros [= <-]; split; [lia|done]|by intros [_ ->]].
Qed.
Lemma op_request_ok op key id vb q :
  op_request op key id vb = Ok q ↔ op_fits op ∧ q = op_frame op key id vb.
Proof.
  destruct op as [xattr|xattr v|]; cbn [op_request op_fits]; [..|naive_solver].
  - unfold subdoc_get_xattr. pose proof (subdoc_path_len_ok xattr) as Hp.
    destruct (subdoc_path_len xattr) as [n|e|]; cbn.
    + destruct (proj1 (Hp n) eq_refl) as [Hn ->]. split; [by intros [= <-]|by intros [_ ->]].
    + split; [done|]. intros [Hn _]. by discriminate (proj2 (Hp _) (conj Hn eq_refl)).
    + split; [done|]. intros [Hn _]. by discriminate (proj2 (Hp _) (conj Hn eq_refl)).
  - unfold subdoc_upsert_xattr. pose proof (subdoc_path_len_ok xattr) as Hp.
    destruct (subdoc_path_len xattr) as [n|e|]; cbn.
    2-3: split; [done|]; intros [[Hn _] _]; by discriminate (proj2 (Hp _) (conj Hn eq_refl)).
    destruct (proj1 (Hp n) eq_refl) as [Hn ->]. unfold try_from.
    destruct (Z.leb_spec (len v) u32_max); cbn [ok_or]; [|split; [done|lia]].
    unfold checked_add. unfold_ranges.
    destruct (Z.leb_spec (8 + str_len xattr) 18446744073709551615); [|lia]. cbn.
    destruct (Z.leb_spec (8 + str_len xattr + len v) 18446744073709551615); [|lia]. cbn.
    split; [by intros [= <-]|by intros [_ ->]].
Qed.
Lemma envelope_ok f o :
  validate_response_envelope f o = Ok tt ↔ magic_is_response (magic f) = true ∧ opcode f = o.
Proof.
  unfold validate_response_envelope. destruct (magic_is_response (magic f)); cbn [negb];
    [|naive_solver]. destruct (Z.eqb_spec (opcode f) o); cbn [negb]; naive_solver.
Qed.
Lemma op_parse_answer op f r : op_parse_response op f = Ok r → op_answer op f r.
Proof.
  destruct op as [xattr|xattr v|]; cbn [op_parse_response op_answer].
  - unfold parse_subdoc_get_xattr, res_map, from_protocol.
    destruct (ensure_response_opcode _ _) as [[]| |]; [|done..]. cbn [map_err].
    destruct (Z.eqb_spec (status f) STATUS_KEY_NOT_FOUND) as [Hk|_]; [intros [= <-]; exists None; split; [done|by left]|].
    intros Hr. destruct (_ || _) eqn:Hst; [|done]. cbn [negb] in Hr.
    apply orb_true_iff in Hst as Hst. rewrite !Z.eqb_eq in Hst.
    destruct (Z.ltb_spec (len (value f)) 6); [done|].
    destruct (be_at 2 (value f) 0) as [st| |] eqn:Hb2; [|done..].
    destruct (be_at 4 (value f) 2) as [n| |] eqn:Hb4; [|done..].
    destruct (checked_add _ 6 n) as [m|] eqn:Hc; [|done]. cbn [ok_or] in Hr.
    apply checked_add_inv in Hc as [-> _].
    destruct (Z.eqb_spec (len (value f)) (6 + n)) as [Hl|]; [|done]. cbn [negb] in Hr.
    destruct (Z.eqb_spec st STATUS_SUCCESS) as [Hs|]; [|destruct (Z.eqb_spec st STATUS_SUBDOC_PATH_NOT_FOUND); [|done]].
    + rewrite slice_from_ok in Hr by lia. injection Hr as <-. eexists. split; [done|].
      right. split; [done|]. exists st, n. by auto 10.
    + injection Hr as <-. eexists. split; [done|]. right. split; [done|]. exists st, n. by auto 10.
  - unfold parse_subdoc_mutation, Command.ensure_response, Command.ensure_success, status_is_success, from_protocol.
    destruct (ensure_response_opcode _ _) as [[]| |]; [|done..]. cbn [map_err].
    destruct (Z.eqb_spec (status f) 0) as [Hs|]; [|done]. by intros [= <-].
  - destruct (_ || _) eqn:Hst; [|done]. apply orb_true_iff in Hst. rewrite !Z.eqb_eq in Hst.
    by intros [= <-].
Qed.

(** An attempt that came to an answer, stale or not. *)
Definition stale_status (f : Frame) : bool :=
  (status f =? STATUS_NOT_MY_VBUCKET) || (status f =? STATUS_COLLECTION_UNKNOWN).
Lemma attempt_ok self key op e o :
  attempt' self key op e = Done (Ok o) ↔
  ∃ q f, asked self key op e q f
    ∧ (if stale_status f then Ok None else res_map Some (op_parse_response op f)) = Ok o.
Proof.
  unfold attempt. rewrite out_bind_ok. split.
  - intros ([[id vb] address] & Hloc & Hr). apply out_bind_ok in Hr as (node & Hnode & Hr).
    destruct (supports (ks_capabilities node) HfXattr) eqn:Hx; [|done]. cbn [negb] in Hr.
    destruct (bool_decide (is_Some id) && negb _) eqn:Hcol; [done|].
    apply out_bind_ok in Hr as (q & [= Hq%op_request_ok] & Hr). destruct Hq as [Hfit ->].
    apply run_on_ok in Hr as (f & c & Hconn & Hr).
    apply out_bind_ok in Hr as ([] & [= Henv%envelope_ok] & Hr).
    exists (op_frame op key id vb), f. fold (stale_status f) in Hr. split; [|destruct (stale_status f); congruence].
    exists id, vb, address, (set_seeds [address] (kv_config self)), node, c. rewrite <-locate_ok. destruct Henv as [Hm Ho].
    split_and!; try done. intros Hid. rewrite bool_decide_true in Hcol by done.
    by destruct (supports _ HfCollections).
  - intros (q & f & (id & vb & address & config & node & c & Hloc & -> & _ & Hnode & Hx & Hcol
      & Hfit & -> & Hconn & Hm & Ho) & Hr).
    exists (id, vb, address). rewrite locate_ok. split; [done|]. apply out_bind_ok. exists node.
    split; [done|]. rewrite Hx. cbn [negb].
    assert (bool_decide (is_Some id) && negb (supports (ks_capabilities node) HfCollections) = false) as ->.
    { case_bool_decide; [|done]. by rewrite Hcol. }
    apply out_bind_ok. eexists. split; [f_equal; by apply op_request_ok|].
    apply run_on_ok. exists f, c. split; [done|]. apply out_bind_ok. exists tt.
    split; [f_equal; by apply envelope_ok|]. fold (stale_status f).
    by destruct (stale_status f); rewrite Hr.
Qed.
Lemma attempt_none self key op e : attempt' self key op e = Done (Ok None) ↔ stale self key op e.
Proof.
  rewrite attempt_ok. unfold stale, stale_status. split; intros (q & f & Ha & Hr); exists q, f.
  - split; [done|]. destruct (Z.eqb_spec (status f) STATUS_NOT_MY_VBUCKET); [by left|].
    destruct (Z.eqb_spec (status f) STATUS_COLLECTION_UNKNOWN); [by right|]. cbn [orb] in Hr.
    by destruct (op_parse_response op f).
  - split; [done|]. by destruct Hr as [-> | ->].
Qed.
Lemma attempt_some self key op e r :
  attempt' self key op e = Done (Ok (Some r)) → answered_by_owner self key op e r.
Proof.
  rewrite attempt_ok. unfold stale_status. intros (q & f & Ha & Hr). exists q, f. split; [done|].
  destruct (Z.eqb_spec (status f) STATUS_NOT_MY_VBUCKET); [done|].
  destruct (Z.eqb_spec (status f) STATUS_COLLECTION_UNKNOWN); [done|]. cbn [orb] in Hr.
  split_and!; [done..|]. apply op_parse_answer.
  by destruct (op_parse_response op f); simplify_eq/=.
Qed.

(** The attempts before [i] found a stale route or collection. *)
Definition stale_before self key op env (i : nat) : Prop :=
  ∀ j, (j < i)%nat → stale self key op (env j).

Definition attempts_end self key op env (o : outcome CheckpointKvResult) : Prop :=
  (∃ i, (i < kv_routing_attempts self)%nat ∧ stale_before self key op env i
     ∧ ¬ stale self key op (env i)
     ∧ match o with
       | Done (Ok r) => answered_by_owner self key op (env i) r
       | Done (Err err) => attempt' self key op (env i) = Done (Err err)
       | Done Panic => attempt' self key op (env i) = Done Panic
       | Hang => attempt' self key op (env i) = Hang
       end)
  ∨ stale_before self key op env (kv_routing_attempts self)
    ∧ o = Done (Err (CheckpointStoreError ("checkpoint KV owner or collection changed during all "
            +:+ pretty (Z.of_nat (kv_routing_attempts self)) +:+ " routing attempts"))).

Lemma attempts_spec n self key op env :
  (n ≤ kv_routing_attempts self)%nat →
  stale_before self key op env (kv_routing_attempts self - n) →
  attempts_end self key op env (attempts cccp_from_slice crc32 n self key op env).
Proof.
  induction n as [|n IH]; intros Hle Hst; cbn [attempts].
  { right. by rewrite Nat.sub_0_r in Hst. }
  set (i := (kv_routing_attempts self - S n)%nat) in *.
  destruct (attempt' self key op (env i)) as [[[r|]|e|]|] eqn:Ha; cbn [out_bind].
  2: { apply attempt_none in Ha. apply IH; [lia|]. intros j Hj.
       destruct (decide (j = i)) as [->|]; [done|]. apply Hst. lia. }
  all: left; exists i; (split_and!; [lia|done|by rewrite <-attempt_none, Ha|]); try done.
  by apply attempt_some.
Qed.

(** C30: An operation of the built-in collection is retried exactly when its owner answered
    that the vBucket is not its own or that it does not know the collection, and at most
    [routing_attempts] times.  When it succeeds, the answer came from the active endpoint,
    in the topology just discovered, of the vBucket the key's CRC names, on a session with
    the features the operation needs; it answers exactly the command of this operation, for
    this key, collection and vBucket, and the result is what that answer says.  Otherwise the
    outcome is that of the attempt that ended it, or the error that every route was stale.
    A key that does not fit is refused before anything is sent. *)
Theorem kv_operation_routed self key op env :
  match execute' self key op env with
  | Done (Ok r) => 1 ≤ str_len key ≤ 250
      ∧ ∃ i, (i < kv_routing_attempts self)%nat ∧ stale_before self key op env i
             ∧ answered_by_owner self key op (env i) r
  | o => 1 ≤ str_len key ≤ 250 ∧ attempts_end self key op env o
         ∨ (key = "" ∨ 250 < str_len key)
           ∧ o = Done (Err (InvalidConfiguration
               "checkpoint document key must contain 1..=250 bytes"))
  end.
Proof.
  unfold execute. destruct (validate_document_key key) as [[]|e|] eqn:Hk; cbn [out_bind];
    unfold validate_document_key in Hk; destruct (bool_decide_reflect (key = "")) as [Hkey|Hkey];
    cbn [orb] in Hk; try done.
  - destruct (Z.ltb_spec MAX_DOCUMENT_KEY_LEN (str_len key)) as [|Hle]; [done|].
    assert (1 ≤ str_len key ≤ 250) as Hlen.
    { unfold MAX_DOCUMENT_KEY_LEN in Hle. assert (0 ≤ str_len key) by (unfold str_len; lia).
      destruct (decide (str_len key = 0)) as [Hz|]; [|lia]. by destruct key. }
    pose proof (attempts_spec (kv_routing_attempts self) self key op env (le_n _)) as Ha.
    destruct Ha as [Ha|[Hs ->]]; [by intros j ?; lia| |].
    2: { left. split; [done|]. by right. }
    destruct (attempts _ _ _ _ _ _ _) as [[r|e|]|]; [|by left; split; [|left]..].
    split; [done|]. destruct Ha as (i & ? & ? & ? & ?). eauto.
  - right. injection Hk as <-. by auto.
  - destruct (Z.ltb_spec MAX_DOCUMENT_KEY_LEN (str_len key)); [|done].
    right. injection Hk as <-. by auto.
  - by destruct (_ <? _).
Qed.
End Routing.
