(* ===== verification/Progress.v ===== *)
(** * Progress of the coordinator's clients ([checkpoint_runtime.rs])

    The coordinator as its client sees it: every [track_event] may hand out a token, every
    token may be acknowledged at any later time, and a rebase starts new streams.  Next to
    the ledgers of [CheckpointSpec] the invariant keeps which tokens were handed out and
    which were acknowledged: an acknowledged delivery was acknowledged with its own token,
    also when obsolete tokens of earlier streams are still in the application's hands. *)
From S2P Require Import Prelude Types Frame Errors Event Checkpoint Config.
From S2P Require Import CheckpointRuntime CheckpointSpec CheckpointFlush.

Section Progress.
Context (uuid : string).

Record coord_inv (c : CoordinatorState) (ls : gmap Z Ledger) : Prop := mk_coord_inv {
  ki_poison : cs_poisoned c = false;
  ki_dom : dom ls = dom (cs_partitions c);
  ki_refines : ∀ vb p L, cs_partitions c !! vb = Some p → ls !! vb = Some L → refines uuid vb L p
}.

(** Positions only advance, on the same vBuckets; delivery identifiers are not reused. *)
Definition advances (c c' : CoordinatorState) : Prop :=
  dom (cs_partitions c') = dom (cs_partitions c)
  ∧ ∀ vb p, cs_partitions c !! vb = Some p → ∃ p', cs_partitions c' !! vb = Some p'
      ∧ ck_seqno (ps_processed p) ≤ ck_seqno (ps_processed p')
      ∧ ps_next_delivery_id p ≤ ps_next_delivery_id p'.

Lemma coord_inv_ok c g ts st ls rs :
  coord_inv c ls ↔ coord_ok uuid (mkSystem c g ts st ls rs).
Proof.
  split.
  - intros [Hp Hd Hr]. split; cbn; [done| |].
    + intros vb. by rewrite <-!elem_of_dom, Hd.
    + intros vb v (H1 & H2 & _)%view_Some. by apply (Hr vb).
  - intros [Hp Hd Hr]. cbn in *. split; [done| |].
    + apply set_eq. intros vb. by rewrite !elem_of_dom, Hd.
    + intros vb p L H1 H2. specialize (Hr vb (mkView p L (default 0 (rs !! vb)))).
      apply Hr, view_Some. done.
Qed.

Lemma advances_refl c : advances c c.
Proof. split; [done|]. intros vb p Hp. exists p. split_and!; [done|lia..]. Qed.
Lemma advances_trans c1 c2 c3 : advances c1 c2 → advances c2 c3 → advances c1 c3.
Proof.
  intros [D1 H1] [D2 H2]. split; [by rewrite D2|]. intros vb p Hp.
  destruct (H1 vb p Hp) as (p1 & Hp1 & ? & ?). destruct (H2 vb p1 Hp1) as (p2 & Hp2 & ? & ?).
  exists p2. split_and!; [done|lia..].
Qed.
(** One vBucket changes. *)
Lemma advances_insert c vb p p' :
  cs_partitions c !! vb = Some p → ck_seqno (ps_processed p) ≤ ck_seqno (ps_processed p') →
  ps_next_delivery_id p ≤ ps_next_delivery_id p' →
  advances c (set_partitions (<[vb := p']> (cs_partitions c)) c).
Proof.
  intros Hp Hle Hn. split; cbn [cs_partitions set_partitions].
  - apply dom_insert_lookup_L. by exists p.
  - intros k q Hq. destruct (decide (k = vb)) as [-> |Hk].
    + rewrite lookup_insert_eq. exists p'. by simplify_eq.
    + rewrite lookup_insert_ne by done. exists q. split_and!; [done|lia..].
Qed.

(** What is known of a token that was handed out: it names its event, and no other
    delivery of its vBucket carries its identifier. *)
Definition token_ok (c : CoordinatorState) (ls : gmap Z Ledger) (t : TrackedEvent) : Prop :=
  ∀ a, te_ack t = Some a →
    event_seqno (te_event t) = Some (ea_seqno a) ∧ event_vbucket (te_event t) = ea_vbucket a
    ∧ (∃ p, cs_partitions c !! ea_vbucket a = Some p ∧ ea_delivery_id a < ps_next_delivery_id p)
    ∧ ∀ L e, ls !! ea_vbucket a = Some L → e ∈ lg_log L →
        pa_delivery_id e = ea_delivery_id a → ck_seqno (pa_checkpoint e) = ea_seqno a.

(** [t] is the token of the delivery [e] of vBucket [vb]. *)
Definition token_of (vb : Z) (e : PendingAck) (t : TrackedEvent) : Prop :=
  ∃ a, te_ack t = Some a ∧ ea_vbucket a = vb ∧ ea_delivery_id a = pa_delivery_id e
    ∧ ea_seqno a = ck_seqno (pa_checkpoint e).

(** The delivery of a token is in the ledger of its vBucket. *)
Definition logged (ls : gmap Z Ledger) (t : TrackedEvent) : Prop :=
  ∀ a, te_ack t = Some a → ∃ L e, ls !! ea_vbucket a = Some L ∧ e ∈ lg_log L
    ∧ pa_delivery_id e = ea_delivery_id a.

(** Two tokens of the same delivery are the same. *)
Definition tokens_unique (l : list TrackedEvent) : Prop :=
  ∀ t t' a a', t ∈ l → t' ∈ l → te_ack t = Some a → te_ack t' = Some a' →
    ea_vbucket a = ea_vbucket a' → ea_delivery_id a = ea_delivery_id a' → t = t'.

Record progress_inv (c : CoordinatorState) (ls : gmap Z Ledger) (issued acked : list TrackedEvent)
    : Prop := mk_progress_inv {
  pi_coord : coord_inv c ls;
  pi_tokens : ∀ t, t ∈ issued → token_ok c ls t;
  pi_unique : tokens_unique issued;
  pi_acked : ∀ vb L e, ls !! vb = Some L → e ∈ lg_log L → pa_acknowledged e = true →
    ∃ t, t ∈ acked ∧ token_of vb e t
}.

(** Ledgers that only lose entries, or keep them, under advancing positions. *)
Lemma token_ok_mono c ls c' ls' t :
  advances c c' →
  (∀ vb L', ls' !! vb = Some L' → ∀ e', e' ∈ lg_log L' →
     (∃ L e, ls !! vb = Some L ∧ e ∈ lg_log L ∧ pa_delivery_id e = pa_delivery_id e'
        ∧ pa_checkpoint e = pa_checkpoint e')
     ∨ ∃ p, cs_partitions c !! vb = Some p ∧ ps_next_delivery_id p ≤ pa_delivery_id e') →
  token_ok c ls t → token_ok c' ls' t.
Proof.
  intros [_ Hadv] Hls Ht a Ha. destruct (Ht a Ha) as (H1 & H2 & (p & Hp & Hlt) & H4).
  split_and!; [done..| |].
  - destruct (Hadv _ _ Hp) as (p' & ? & ? & ?). exists p'. split; [done|lia].
  - intros L' e' HL' He' Hid.
    destruct (Hls _ _ HL' e' He') as [(L & e & HL & He & Hide & Hck)|(q & Hq & Hge)].
    + rewrite <-Hck. apply (H4 L e); [done..|by rewrite Hide].
    + simplify_eq. lia.
Qed.

(** *** Tracking *)
Definition issue (r : result TrackedEvent) (issued : list TrackedEvent) : list TrackedEvent :=
  match r with Ok t => issued ++ [t] | _ => issued end.

Lemma ledgers_track_same c ls t :
  te_ack t = None → ledgers_track (Ok t) c ls = ls.
Proof. intros Ht. cbn. by rewrite Ht. Qed.

Lemma track_partition_next vb e p r p' :
  track_partition vb e p = (r, p') →
  ps_next_delivery_id p' = ps_next_delivery_id p
    + match r with Ok (Some _) => 1 | _ => 0 end.
Proof.
  assert (∀ m, register_snapshot vb m p = (r, p') → ps_next_delivery_id p' = ps_next_delivery_id p
    + match r with Ok (Some _) => 1 | _ => 0 end) as Hs.
  { intros m. unfold register_snapshot. destruct (_ || _); intros [= <- <-]; cbn; lia. }
  assert (∀ z m, register_delivery vb z m p = (r, p') → ps_next_delivery_id p' = ps_next_delivery_id p
    + match r with Ok (Some _) => 1 | _ => 0 end) as Hd.
  { intros z m. unfold register_delivery. destruct (ps_snapshot p) as [[s0 s1]|];
      [|intros [= <- <-]; lia].
    destruct (_ || _); [intros [= <- <-]; lia|]. destruct (ck_validate _); [|intros [= <- <-]; lia..].
    destruct (checked_add _ _ _) as [n|] eqn:Hn; intros [= <- <-]; [|lia].
    by apply checked_add_inv in Hn as [-> _]. }
  unfold track_partition. destruct e; cbn [event_seqno]; eauto; intros [= <- <-]; lia.
Qed.

(** Tracking registers at most one delivery, under a fresh identifier. *)
Lemma track_cases c ls e r c' :
  coord_inv c ls → track_event e c = (r, c') →
  r ≠ Panic ∧ coord_inv c' (ledgers_track r c' ls) ∧ advances c c'
  ∧ match r with
    | Ok t => te_event t = e ∧
        match te_ack t with
        | None => True
        | Some a => event_seqno e = Some (ea_seqno a) ∧ ea_vbucket a = event_vbucket e
            ∧ (∃ p p', cs_partitions c !! ea_vbucket a = Some p
                 ∧ cs_partitions c' !! ea_vbucket a = Some p'
                 ∧ ea_delivery_id a = ps_next_delivery_id p
                 ∧ ps_next_delivery_id p < ps_next_delivery_id p')
            ∧ ∃ L d, ls !! ea_vbucket a = Some L ∧ ck_seqno d = ea_seqno a
                ∧ ledgers_track r c' ls
                  = <[ea_vbucket a := ledger_deliver (ea_delivery_id a) d L]> ls
        end
    | _ => ledgers_track r c' ls = ls
    end.
Proof.
  intros Hco Htr. pose proof Hco as [Hpo Hdom Href].
  pose proof (proj1 (coord_inv_ok c GateFree ∅ ∅ ls ∅) Hco) as Hok.
  destruct (track_coord_step uuid _ e r c' Hok Htr) as [Hnp [Hok' _ _ _ _ _]].
  split; [done|]. split; [by eapply coord_inv_ok|].
  unfold track_event, with_lock in Htr. rewrite Hpo in Htr.
  destruct (cs_partitions c !! event_vbucket e) as [p|] eqn:Hp.
  2:{ injection Htr as <- <-. split; [apply advances_refl|done]. }
  assert (is_Some (ls !! event_vbucket e)) as [L HL].
  { apply elem_of_dom. rewrite Hdom. apply elem_of_dom. by exists p. }
  pose proof (Href _ _ _ Hp HL) as Hr.
  pose proof (track_spec uuid (event_vbucket e) L p e Hr) as Hs.
  destruct (track_partition (event_vbucket e) e p) as [[[a|]|err|] p'] eqn:Hpt; cbn [res_map] in Htr;
    [| | |done]; injection Htr as <- <-.
  - destruct Hs as (d & Hsq & Hd & Hvb & Hid & Hlt & Hr' & _).
    assert (ps_next_delivery_id p' = ps_next_delivery_id p + 1) as Hnext.
    { by rewrite (track_partition_next _ _ _ _ _ Hpt). }
    split; [apply (advances_insert _ _ p); [done| |lia]|].
    { rewrite (rf_processed _ _ _ _ Hr'), (rf_processed _ _ _ _ Hr). unfold ledger_processed. cbn.
      rewrite (proj1 (unacked_snoc _ _ _)). lia. }
    cbn [te_event te_ack]. split; [done|]. split_and!; [done..| |].
    + rewrite Hvb. exists p, p'. cbn [set_partitions cs_partitions].
      rewrite lookup_insert_eq. split_and!; [done..|lia].
    + exists L, d. rewrite Hvb. split_and!; [done..|]. cbn. rewrite Hvb.
      unfold registered. cbn. rewrite lookup_insert_eq. cbn.
      rewrite (rf_pending _ _ _ _ Hr'). cbn [lg_log ledger_deliver].
      rewrite (proj2 (unacked_snoc _ _ _)), last_snoc. cbn [pa_delivery_id pa_checkpoint].
      apply map_eq. intros k. destruct (decide (k = event_vbucket e)) as [-> |Hk].
      * by rewrite lookup_alter_eq, lookup_insert_eq, HL.
      * by rewrite lookup_alter_ne, lookup_insert_ne.
  - destruct Hs as (_ & Hr' & _). split; [|done]. apply (advances_insert _ _ p); [done| |].
    { rewrite (rf_processed _ _ _ _ Hr'), (rf_processed _ _ _ _ Hr). lia. }
    rewrite (track_partition_next _ _ _ _ _ Hpt). lia.
  - subst p'. split; [|done]. apply (advances_insert _ _ p); [done|lia..].
Qed.

Lemma logged_track c ls e r c' t :
  coord_inv c ls → track_event e c = (r, c') →
  logged ls t ∨ r = Ok t → logged (ledgers_track r c' ls) t.
Proof.
  intros Hco Htr Ht a Ha. destruct (track_cases c ls e r c' Hco Htr) as (Hnp & _ & _ & Hr).
  assert (∀ b d L, ls !! ea_vbucket b = Some L → logged ls t →
    ∃ L' e', <[ea_vbucket b := ledger_deliver (ea_delivery_id b) d L]> ls !! ea_vbucket a = Some L'
      ∧ e' ∈ lg_log L' ∧ pa_delivery_id e' = ea_delivery_id a) as Hkeep.
  { intros b d L HL Hl. destruct (Hl a Ha) as (L1 & e1 & HL1 & He1 & Hid).
    destruct (decide (ea_vbucket b = ea_vbucket a)) as [Heq|Hne].
    - rewrite Heq, lookup_insert_eq. eexists _, e1. split; [done|]. split; [|done].
      cbn. apply elem_of_app. left. congruence.
    - rewrite lookup_insert_ne by done. by exists L1, e1. }
  destruct r as [t'|er|]; [|rewrite Hr; destruct Ht as [Ht|?]; [by apply Ht|done]|done].
  destruct Hr as [_ Hr]. destruct (te_ack t') as [b|] eqn:Hb.
  - destruct Hr as (_ & _ & _ & L & d & HL & _ & ->). destruct Ht as [Ht|[= ->]]; [by eapply Hkeep|].
    rewrite Ha in Hb. injection Hb as <-. rewrite lookup_insert_eq. eexists _, _.
    split; [done|]. cbn. split; [apply elem_of_app; right; left|done].
  - rewrite ledgers_track_same by done. destruct Ht as [Ht|[= ->]]; [by apply Ht|congruence].
Qed.

Lemma progress_track c ls I D e r c' :
  progress_inv c ls I D → track_event e c = (r, c') →
  r ≠ Panic ∧ progress_inv c' (ledgers_track r c' ls) (issue r I) D ∧ advances c c'.
Proof.
  intros [Hco Htok Huniq Hack] Htr.
  destruct (track_cases c ls e r c' Hco Htr) as (Hnp & Hco' & Hadv & Hr).
  split; [done|]. split; [|done].
  assert (∀ t, t ∈ I → ledgers_track r c' ls = ls → token_ok c' ls t) as Hsame.
  { intros t Ht _. eapply token_ok_mono; [done| |by apply Htok].
    intros vb L HL e' He'. left. by exists L, e'. }
  destruct r as [t|err|]; cbn [issue]; [|by rewrite Hr in *; split; [done|auto|done..]|done].
  destruct Hr as [Hte Hr]. destruct (te_ack t) as [a|] eqn:Ha.
  2:{ rewrite ledgers_track_same in * by done. split; [done| | |done].
      - intros t' [Ht|Ht%list_elem_of_singleton]%elem_of_app; [by apply Hsame|].
        subst t'. intros a. by rewrite Ha.
      - intros t1 t2 a1 a2 [H1|H1%list_elem_of_singleton]%elem_of_app
          [H2|H2%list_elem_of_singleton]%elem_of_app; [by apply Huniq|subst; congruence..]. }
  destruct Hr as (Hsq & Hvb & (p & p' & Hp & Hp' & Hid & Hlt) & L & d & HL & Hd & Hls).
  assert (∀ t1 a1, t1 ∈ I → te_ack t1 = Some a1 → ea_vbucket a1 = ea_vbucket a →
    ea_delivery_id a1 ≠ ea_delivery_id a) as Hfresh.
  { intros t1 a1 H1 Ha1 Hv. destruct (Htok t1 H1 a1 Ha1) as (_ & _ & (q & Hq & Hlt1) & _).
    rewrite Hv in Hq. simplify_eq. lia. }
  rewrite Hls in *. split; [done| | |].
  - intros t' [Ht|Ht%list_elem_of_singleton]%elem_of_app.
    + eapply token_ok_mono; [done| |by apply Htok]. intros vb L' HL' e' He'.
      apply lookup_insert_Some in HL' as [[<- <-]|[Hne HL']]; [|left; by exists L', e'].
      cbn [lg_log ledger_deliver] in He'.
      apply elem_of_app in He' as [He'|He'%list_elem_of_singleton]; [left; by exists L, e'|right].
      exists p. subst e'. cbn. split; [done|lia].
    + subst t'. intros a' Ha'. rewrite Ha in Ha'. injection Ha' as <-. rewrite Hte.
      split_and!; [done..|exists p'; split; [done|lia]|].
      intros L' e' HL' He' Hide. rewrite lookup_insert_eq in HL'. injection HL' as <-.
      cbn [lg_log ledger_deliver] in He'.
      apply elem_of_app in He' as [He'|He'%list_elem_of_singleton]; [|by subst e'].
      pose proof (ki_refines _ _ Hco _ _ _ Hp HL) as [[_ Hids _] _ _ _ _].
      apply StronglySorted_app in Hids as (Hids & _ & _).
      specialize (Hids (pa_delivery_id e') (ps_next_delivery_id p)
        (list_elem_of_fmap_2 _ _ _ He') (list_elem_of_here _ _)). lia.
  - intros t1 t2 a1 a2 [H1|H1%list_elem_of_singleton]%elem_of_app
      [H2|H2%list_elem_of_singleton]%elem_of_app Ha1 Ha2 Hv Hi; subst; try done.
    + by eapply Huniq.
    + rewrite Ha in Ha2. injection Ha2 as <-. by destruct (Hfresh t1 a1).
    + rewrite Ha in Ha1. injection Ha1 as <-. by destruct (Hfresh t2 a2).
  - intros vb L' e' HL' He' Hack'. apply lookup_insert_Some in HL' as [[<- <-]|[Hne HL']].
    + cbn [lg_log ledger_deliver] in He'.
      apply elem_of_app in He' as [He'|He'%list_elem_of_singleton]; [by apply (Hack _ L)|by subst e'].
    + by apply (Hack _ L').
Qed.

(** *** Acknowledging *)
Lemma acknowledge_partition_next a p :
  ps_next_delivery_id (acknowledge_partition a p).2 = ps_next_delivery_id p.
Proof.
  unfold acknowledge_partition. destruct (mark_acknowledged _ _); [|done].
  destruct (pop_acknowledged _ _ _) as [[? ?] [?|]]; [|done]. by destruct (checked_add _ _ _).
Qed.
Lemma logged_ack ls id vb t :
  logged ls t → logged (alter (ledger_ack id) vb ls) t.
Proof.
  intros Hl a Ha. destruct (Hl a Ha) as (L & e & HL & He & Hid).
  destruct (decide (vb = ea_vbucket a)) as [-> |Hne].
  - rewrite lookup_alter_eq, HL. eexists _, (set_ack id e). split; [done|]. split.
    + cbn. by apply list_elem_of_fmap_2.
    + unfold set_ack. by case_match.
  - rewrite lookup_alter_ne by done. by exists L, e.
Qed.

Lemma progress_ack c ls I D t a r c' :
  progress_inv c ls I D → t ∈ I → te_ack t = Some a → acknowledge a c = (r, c') →
  r ≠ Panic
  ∧ progress_inv c' (alter (ledger_ack (ea_delivery_id a)) (ea_vbucket a) ls) I (D ++ [t])
  ∧ advances c c'.
Proof.
  intros [Hco Htok Huniq Hack] Ht Ha Hrun. pose proof Hco as [Hpo Hdom Href].
  pose proof (proj1 (coord_inv_ok c GateFree ∅ ∅ ls ∅) Hco) as Hok.
  destruct (ack_coord_step uuid _ a r c' Hok Hrun) as [Hnp [Hok' _ _ _ _ _]].
  split; [done|].
  assert (advances c c') as Hadv.
  { unfold acknowledge, with_lock in Hrun. rewrite Hpo in Hrun.
    destruct (cs_partitions c !! ea_vbucket a) as [p|] eqn:Hp;
      [|injection Hrun as _ <-; apply advances_refl].
    assert (is_Some (ls !! ea_vbucket a)) as [L HL].
    { apply elem_of_dom. rewrite Hdom. apply elem_of_dom. by exists p. }
    pose proof (Href _ _ _ Hp HL) as Hr.
    pose proof (acknowledge_spec uuid (ea_vbucket a) L p a Hr) as Hs.
    pose proof (acknowledge_partition_next a p) as Hnext.
    destruct (acknowledge_partition a p) as [r' p']. destruct Hs as (Hr' & _).
    assert (c' = set_partitions (<[ea_vbucket a := p']> (cs_partitions c)) c) as ->
      by (destruct r'; by simplify_eq).
    apply (advances_insert _ _ p); [done| |cbn in Hnext; lia].
    rewrite (rf_processed _ _ _ _ Hr'), (rf_processed _ _ _ _ Hr).
    by eapply ledger_ack_processed_le, (rf_wf _ _ _ _ Hr). }
  split; [|done].
  assert (∀ vb L' e', alter (ledger_ack (ea_delivery_id a)) (ea_vbucket a) ls !! vb = Some L' →
    e' ∈ lg_log L' → ∃ L e, ls !! vb = Some L ∧ e ∈ lg_log L ∧ pa_delivery_id e = pa_delivery_id e'
      ∧ pa_checkpoint e = pa_checkpoint e'
      ∧ (pa_acknowledged e' = true → pa_acknowledged e = true
           ∨ (vb = ea_vbucket a ∧ pa_delivery_id e = ea_delivery_id a))) as Hls.
  { intros vb L' e' HL' He'. apply lookup_alter_Some in HL' as [(<- & L & HL & ->)|[_ HL]];
      [|by exists L', e'; split_and!; auto].
    cbn [ledger_ack lg_log] in He'. apply list_elem_of_fmap in He' as (e & -> & He).
    exists L, e. unfold set_ack. destruct (Z.eqb_spec (pa_delivery_id e) (ea_delivery_id a));
      split_and!; auto. }
  split; [by eapply coord_inv_ok|..].
  - intros t' Ht'. eapply token_ok_mono; [done| |by apply Htok]. intros vb L' HL' e' He'. left.
    destruct (Hls _ _ _ HL' He') as (L & e & ? & ? & ? & ? & _). by exists L, e.
  - done.
  - intros vb L' e' HL' He' Hacked.
    destruct (Hls _ _ _ HL' He') as (L & e & HL & He & Hid & Hck & Hor).
    destruct (Hor Hacked) as [Hae|[-> Hida]].
    + destruct (Hack _ _ _ HL He Hae) as (t' & Ht' & Htof). exists t'.
      split; [apply elem_of_app; by left|]. unfold token_of in *. by rewrite <-Hid, <-Hck.
    + exists t. split; [apply elem_of_app; right; left|]. exists a.
      destruct (Htok t Ht a Ha) as (_ & _ & _ & Hsq).
      split_and!; [done..|congruence|]. rewrite <-Hck. symmetry. by apply (Hsq L).
Qed.

(** *** Rebasing *)
Lemma rebase_cases c ls eff r c' :
  coord_inv c ls → rebase_partitions uuid eff c = (r, c') →
  match r with
  | Ok _ => coord_inv c' (ledgers_rebase r eff ls)
      ∧ dom (cs_partitions c') = dom (cs_partitions c)
      ∧ (∀ vb d, eff !! vb = Some d → ∃ p p', cs_partitions c !! vb = Some p
           ∧ cs_partitions c' !! vb = Some p' ∧ ps_processed p' = d
           ∧ ps_next_delivery_id p' = ps_next_delivery_id p)
      ∧ (∀ vb, eff !! vb = None → cs_partitions c' !! vb = cs_partitions c !! vb)
  | Err _ => c' = c
  | Panic => False
  end.
Proof.
  intros Hco Hrun. pose proof Hco as [Hpo Hdom Href].
  pose proof (proj1 (coord_inv_ok c GateFree ∅ ∅ ls ∅) Hco) as Hok.
  destruct (rebase_coord_step uuid _ eff r c' Hok Hrun) as [Hnp [Hok' _ _ _ _ _]].
  apply coord_inv_ok in Hok'. unfold rebase_partitions, with_lock in Hrun. rewrite Hpo in Hrun.
  pose proof (for_res_checks (btree_to_list eff) (rebase_check uuid (cs_partitions c))) as Hchk.
  destruct (for_res (btree_to_list eff) tt _) as [[]|e|]; [|by injection Hrun as <- <-|].
  2:{ destruct Hchk as (? & _ & Hp). by apply rebase_check_no_panic in Hp. }
  assert (∀ vb d, eff !! vb = Some d → ∃ p p', cs_partitions c !! vb = Some p
    ∧ rebase_partition d p = Ok p' ∧ ps_processed p' = d
    ∧ ps_next_delivery_id p' = ps_next_delivery_id p) as Heff.
  { intros vb d Hd. apply elem_of_btree_to_list, Hchk, rebase_check_ok in Hd.
    destruct Hd as [Hgood (p & Hp & Hov)].
    assert (is_Some (ls !! vb)) as [L HL].
    { apply elem_of_dom. rewrite Hdom. apply elem_of_dom. by exists p. }
    destruct (rebase_spec uuid vb L p d (Href _ _ _ Hp HL) Hgood Hov)
      as (p' & Hr & _ & Hpr & _ & _ & _ & Hnext & _). by exists p, p'. }
  destruct (rebase_apply_ok (btree_to_list eff) (NoDup_btree_to_list_keys eff) (cs_partitions c))
    as (ps' & Happ & Hin & Hout).
  { intros vb d Hd%elem_of_btree_to_list. destruct (Heff vb d Hd) as (p & p' & ? & ? & _). eauto. }
  rewrite Happ in Hrun. injection Hrun as <- <-.
  assert (∀ vb d, eff !! vb = Some d → ∃ p p', cs_partitions c !! vb = Some p
    ∧ ps' !! vb = Some p' ∧ ps_processed p' = d
    ∧ ps_next_delivery_id p' = ps_next_delivery_id p) as Heff'.
  { intros vb d Hd. destruct (Heff vb d Hd) as (p & p' & Hp & Hr & Hpr & Hn).
    destruct (Hin vb d p) as (p'' & Hr' & Hp''); [by apply elem_of_btree_to_list|done|].
    rewrite Hr in Hr'. injection Hr' as <-. by exists p, p'. }
  assert (∀ vb, eff !! vb = None → ps' !! vb = cs_partitions c !! vb) as Hrest.
  { intros vb Hn. apply Hout. rewrite btree_to_list_keys, elem_of_btree_keys, Hn. by intros []. }
  split; [done|]. split; [|split; done].
  apply set_eq. intros vb. rewrite !elem_of_dom. cbn [cs_partitions set_partitions].
  destruct (eff !! vb) as [d|] eqn:Hd; [|by rewrite Hrest].
  destruct (Heff' vb d Hd) as (p & p' & -> & -> & _). split; by eexists.
Qed.

Lemma progress_rebase c ls I D eff r c' :
  progress_inv c ls I D → rebase_partitions uuid eff c = (r, c') →
  match r with
  | Ok _ => progress_inv c' (ledgers_rebase r eff ls) I D
      ∧ dom (cs_partitions c') = dom (cs_partitions c)
      ∧ ∀ vb d, eff !! vb = Some d →
          ∃ p', cs_partitions c' !! vb = Some p' ∧ ps_processed p' = d
  | Err _ => c' = c
  | Panic => False
  end.
Proof.
  intros [Hco Htok Huniq Hack] Hrun. pose proof (rebase_cases c ls eff r c' Hco Hrun) as Hr.
  destruct r as [u|e|]; [|done..]. destruct Hr as (Hco' & Hdom & Heff & Hrest).
  assert (∀ vb L e, ledgers_rebase (Ok u) eff ls !! vb = Some L → e ∈ lg_log L →
    ls !! vb = Some L) as Hls.
  { intros vb L e HL He. cbn in HL. apply lookup_union_Some_raw in HL as [HL|[_ HL]]; [|done].
    rewrite lookup_fmap in HL. apply fmap_Some in HL as (d & _ & ->). by apply elem_of_nil in He. }
  split; [split|split].
  - done.
  - intros t Ht a Ha. destruct (Htok t Ht a Ha) as (H1 & H2 & (p & Hp & Hlt) & H4).
    split_and!; [done..| |].
    + destruct (eff !! ea_vbucket a) as [d|] eqn:Hd; [|exists p; by rewrite Hrest].
      destruct (Heff _ _ Hd) as (q & p' & Hq & Hp' & _ & Hn). exists p'.
      simplify_eq. split; [done|lia].
    + intros L e HL He. apply (H4 L); [by eapply Hls|done].
  - done.
  - intros vb L e HL He. by apply (Hack vb L); [eapply Hls|].
  - done.
  - intros vb d Hd. destruct (Heff vb d Hd) as (p & p' & _ & Hp' & Hpr & _). by exists p'.
Qed.

(** *** Changes of durability *)

(** Partitions that differ in what is durable, and in their generation, only. *)
Definition same_position (p p' : PartitionState) : Prop :=
  ps_processed p' = ps_processed p ∧ ps_pending p' = ps_pending p
  ∧ ps_last_registered_seqno p' = ps_last_registered_seqno p
  ∧ ps_next_delivery_id p' = ps_next_delivery_id p ∧ in_range u64_max (ps_generation p').

Lemma progress_same c ls I D c' :
  progress_inv c ls I D → cs_poisoned c' = false →
  (∀ vb, match cs_partitions c !! vb with
         | Some p => ∃ p', cs_partitions c' !! vb = Some p' ∧ same_position p p'
         | None => cs_partitions c' !! vb = None
         end) →
  progress_inv c' ls I D ∧ advances c c'.
Proof.
  intros [Hco Htok Huniq Hack] Hpo Hps. pose proof Hco as [_ Hdom Href].
  assert (advances c c') as Hadv.
  { split.
    - apply set_eq. intros vb. rewrite !elem_of_dom. specialize (Hps vb).
      destruct (cs_partitions c !! vb); [|by rewrite Hps].
      destruct Hps as (p' & -> & _). split; by eexists.
    - intros vb p Hp. specialize (Hps vb). rewrite Hp in Hps.
      destruct Hps as (p' & Hp' & H1 & _ & _ & H4 & _). exists p'.
      rewrite H1, H4. split_and!; [done|lia..]. }
  split; [|done]. split.
  - split; [done|by rewrite (proj1 Hadv)|]. intros vb p' L Hp' HL. specialize (Hps vb).
    destruct (cs_partitions c !! vb) as [p|] eqn:Hp; [|congruence].
    destruct Hps as (p'' & Hp'' & H1 & H2 & H3 & H4 & H5). simplify_eq.
    destruct (Href _ _ _ Hp HL) as [R1 R2 R3 R4 R5]. split; congruence || done.
  - intros t Ht. eapply token_ok_mono; [done| |by apply Htok].
    intros vb L HL e He. left. by exists L, e.
  - done.
  - done.
Qed.

Lemma progress_mark_dirty c ls I D vb r c' :
  progress_inv c ls I D → mark_dirty vb c = (r, c') →
  r ≠ Panic ∧ progress_inv c' ls I D ∧ advances c c'.
Proof.
  intros Hpi. pose proof (pi_coord _ _ _ _ Hpi) as [Hpo Hdom Href].
  unfold mark_dirty, with_lock. rewrite Hpo.
  destruct (cs_partitions c !! vb) as [p|] eqn:Hp;
    [|intros [= <- <-]; split_and!; [done..|apply advances_refl]].
  destruct (checked_add _ _ _) as [g|] eqn:Hg;
    [|intros [= <- <-]; split_and!; [done..|apply advances_refl]].
  intros [= <- <-]. split; [done|]. eapply progress_same; [done..|].
  assert (∀ k q, cs_partitions c !! k = Some q → in_range u64_max (ps_generation q)) as Hgen.
  { intros k q Hq. assert (is_Some (ls !! k)) as [L HL].
    { apply elem_of_dom. rewrite Hdom. apply elem_of_dom. by exists q. }
    by destruct (Href _ _ _ Hq HL). }
  intros k. cbn [cs_partitions set_partitions]. destruct (decide (k = vb)) as [-> |Hk].
  - rewrite Hp, lookup_insert_eq. eexists. split; [done|]. split_and!; try done.
    apply checked_add_inv in Hg as [-> Hg]. specialize (Hgen _ _ Hp). cbn. unfold_ranges. lia.
  - rewrite lookup_insert_ne by done. destruct (cs_partitions c !! k) as [q|] eqn:Hq; [|done].
    exists q. split; [done|]. split_and!; try done. by apply (Hgen k).
Qed.

Lemma flush_partitions timeout gate save elapsed c r c' :
  cs_poisoned c = false → flush timeout gate save elapsed c = (r, c') →
  r ≠ Panic ∧ cs_poisoned c' = false
  ∧ ∀ vb, match cs_partitions c !! vb with
          | Some p => ∃ p', cs_partitions c' !! vb = Some p' ∧ same_progress p p'
          | None => cs_partitions c' !! vb = None
          end.
Proof.
  intros Hpo. assert (∀ r0 c0, cs_poisoned c0 = false → cs_partitions c0 = cs_partitions c →
    r0 ≠ Panic → (r0, c0) = (r, c') → r ≠ Panic ∧ cs_poisoned c' = false
    ∧ ∀ vb, match cs_partitions c !! vb with
          | Some p => ∃ p', cs_partitions c' !! vb = Some p' ∧ same_progress p p'
          | None => cs_partitions c' !! vb = None
          end) as Hsame.
  { intros r0 c0 H1 H2 H3 [= <- <-]. split_and!; [done..|]. intros vb. rewrite H2.
    destruct (cs_partitions c !! vb) as [p|]; [|done]. exists p. split; [done|].
    exists (ps_durable p), (ps_durable_generation p). by destruct p. }
  unfold flush. destruct (has_dirty_spec c Hpo) as (b & -> & Hb).
  destruct b; [|by apply Hsame]. destruct gate; cbn [negb].
  2:{ destruct (flush_fail elapsed (Timeout timeout) true c) as [r1 c1] eqn:Hf.
      apply flush_fail_partitions in Hf as (? & ? & ?); [by apply Hsame|done]. }
  unfold flush_collect, read_lock. rewrite Hpo.
  destruct (collect_dirty (cs_partitions c)) as [|d l] eqn:Hc; [by apply Hsame|]. rewrite <-Hc.
  destruct (flush_begin_attempt c) as [r1 c1] eqn:Hbeg.
  apply begin_attempt_partitions in Hbeg as (Hr1 & Hbp & Hpo1); [|done].
  destruct r1 as [u|e|]; [|by apply Hsame|done].
  destruct (reply_error timeout _) as [error|].
  { destruct (flush_fail elapsed error false c1) as [r2 c2] eqn:Hf.
    apply flush_fail_partitions in Hf as (? & ? & ?); [|done]. apply Hsame; congruence. }
  unfold flush_commit, with_lock. rewrite Hpo1, Hbp.
  destruct (commit_saved_spec (collect_dirty (cs_partitions c)) (cs_partitions c)) as (ps' & -> & Hps).
  { intros d' Hd'. apply collect_dirty_elem in Hd' as (p & Hp & _). by exists p. }
  cbn [set_partitions cs_partitions cs_metrics]. intros [= <- <-]. split; [done|].
  split; [done|]. intros vb. cbn [set_metrics cs_partitions]. specialize (Hps vb).
  destruct (cs_partitions c !! vb) as [p|]; [|done].
  destruct Hps as (p' & Hp' & Hsp & _). by exists p'.
Qed.

Lemma progress_flush c ls I D timeout gate save elapsed r c' :
  progress_inv c ls I D → flush timeout gate save elapsed c = (r, c') →
  r ≠ Panic ∧ progress_inv c' ls I D ∧ advances c c'.
Proof.
  intros Hpi Hf. pose proof (pi_coord _ _ _ _ Hpi) as [Hpo Hdom Href].
  apply flush_partitions in Hf as (Hr & Hpo' & Hps); [|done]. split; [done|].
  eapply progress_same; [done..|]. intros vb. specialize (Hps vb).
  destruct (cs_partitions c !! vb) as [p|] eqn:Hp; [|done].
  destruct Hps as (p' & Hp' & d & g & Hsame). exists p'. split; [done|].
  assert (is_Some (ls !! vb)) as [L HL].
  { apply elem_of_dom. rewrite Hdom. apply elem_of_dom. by exists p. }
  destruct (Href _ _ _ Hp HL). subst p'. by split_and!.
Qed.

(** *** A new coordinator *)
Lemma progress_new config checkpoints c :
  coordinator_new config checkpoints = Ok (uuid, c) →
  progress_inv c ((λ d, mkLedger d []) <$> checkpoints) [] []
  ∧ dom (cs_partitions c) = dom checkpoints.
Proof.
  intros Hnew. apply coordinator_new_ok in Hnew as [-> Hgood].
  split; [|cbn; apply dom_fmap_L]. split.
  - split; [done|cbn; by rewrite !dom_fmap_L|]. cbn. intros vb p L Hp HL.
    rewrite lookup_fmap in Hp. rewrite lookup_fmap in HL.
    destruct (checkpoints !! vb) as [d|] eqn:Hd; [|done]. cbn in *. simplify_eq.
    apply partition_new_refines. by apply Hgood.
  - by intros t ?%elem_of_nil.
  - by intros t t' a a' ?%elem_of_nil.
  - intros vb L e HL He. rewrite lookup_fmap in HL. apply fmap_Some in HL as (d & _ & ->).
    by apply elem_of_nil in He.
Qed.
End Progress.
