(* ===== verification/Delivery.v ===== *)
(** * From the connection worker to the checkpoint coordinator

    The worker checks each message against its [PartitionProgress] before it delivers the
    event, and [CheckpointStream] registers the event with the coordinator before the
    application sees it.  The two sides keep separate state; here they are shown to stay
    in step, so that the coordinator accepts every event of every accepted message,
    however acknowledgements are interleaved. *)
From S2P Require Import Prelude Types Frame Dcp Errors Event Checkpoint.
From S2P Require Import Async Transport Topology Stream Worker CheckpointRuntime.

(** The worker's progress and the coordinator's partition describe the same position, and
    nothing registered is beyond it. *)
Record in_step (p : PartitionProgress) (q : PartitionState) : Prop := {
  is_last : ps_last_registered_seqno q = pp_last_seqno p;
  is_snapshot : ps_snapshot q = pp_snapshot p;
  is_processed : ck_seqno (ps_processed q) ≤ pp_last_seqno p;
  is_pending : Forall (λ a, ck_seqno (pa_checkpoint a) ≤ pp_last_seqno p) (ps_pending q);
  is_ordered : ∀ first final, pp_snapshot p = Some (first, final) → first ≤ final;
  is_ids : 0 ≤ ps_next_delivery_id q
}.

(** Messages as [parse_dcp_message] returns them: markers are ordered. *)
Definition marker_ordered (m : DcpMessage) : Prop :=
  match m with
  | MSnapshotMarker e => Dcp.snap_start_seqno e ≤ Dcp.snap_end_seqno e
  | _ => True
  end.

Lemma parse_marker_ordered f m : parse_dcp_message f = Ok m → marker_ordered m.
Proof.
  destruct m; try done. cbn [marker_ordered]. unfold parse_dcp_message.
  destruct (negb _); [done|].
  repeat match goal with |- (if ?b then _ else _) = _ → _ => destruct b end; intros Hm.
  4: { unfold parse_snapshot_marker in Hm.
       destruct (if len (extras f) =? 20 then _ else _) as [mk| |]; [|done..].
       destruct (Z.ltb_spec (Dcp.snap_end_seqno mk) (Dcp.snap_start_seqno mk)); [done|].
       by simplify_eq. }
  all: unfold parse_mutation, parse_deletion, parse_expiration, parse_system_event in Hm.
  all: by repeat (case_match; simplify_eq/=).
Qed.

(** A sequence-bearing event inside the current snapshot is registered. *)
Lemma register_in_step vb s manifest p q first final :
  in_step p q → pp_snapshot p = Some (first, final) → first ≤ s ≤ final →
  pp_last_seqno p < s → ps_next_delivery_id q < u64_max →
  ∃ ack q', register_delivery vb s manifest q = (Ok (Some ack), q')
    ∧ in_step (mkProgress s (pp_end_seqno p) (pp_stream_id p) (pp_opaque p) (pp_snapshot p)) q'
    ∧ ps_next_delivery_id q' = ps_next_delivery_id q + 1.
Proof.
  intros [Hl Hs Hpr Hpe Hord Hid] Hsn Hin Hlt Hmax. unfold register_delivery.
  rewrite Hs, Hsn, Hl.
  destruct (Z.leb_spec s (pp_last_seqno p)); [lia|]. destruct (Z.ltb_spec s first); [lia|].
  destruct (Z.ltb_spec final s); [lia|]. cbn [orb].
  set (base := match last (ps_pending q) with Some a => pa_checkpoint a | None => _ end).
  set (ck := match manifest with Some uid => _ | None => _ end).
  assert (ck_valid ck ∧ ck_seqno ck = s) as [Hv Hck].
  { unfold ck, ck_valid. destruct manifest; cbn; lia. }
  rewrite (ck_validate_ok _ Hv). unfold checked_add.
  destruct (Z.leb_spec (ps_next_delivery_id q + 1) u64_max); [|lia].
  eexists _, _. split; [done|]. split; [|done]. split; cbn; try done; try lia.
  - apply Forall_app_2; [eapply Forall_impl; [exact Hpe|cbn; lia]|]. constructor; [cbn; lia|done].
  - intros f' l'. rewrite <-Hsn. rewrite Hsn. intros [= <- <-]. lia.
Qed.

(** Every event of an accepted message is registered, and the two sides stay in step. *)
Lemma track_in_step vb m ev p p' q :
  observe m p = Ok p' → convert_event m = Ok ev → marker_ordered m →
  in_step p q → ps_next_delivery_id q < u64_max →
  ∃ ack q', track_partition vb ev q = (Ok ack, q') ∧ in_step p' q'
    ∧ ps_next_delivery_id q' ≤ ps_next_delivery_id q + 1.
Proof.
  intros Hob Hcv Hmk Hst Hmax.
  destruct (message_seqno m) as [s|] eqn:Hsq.
  - pose proof (observe_spec m p) as Hos. rewrite Hob, Hsq in Hos.
    destruct Hos as (_ & _ & _ & (Hlt & _) & _ & _ & first & final & Hsn & Hin).
    assert (p' = mkProgress s (pp_end_seqno p) (pp_stream_id p) (pp_opaque p) (pp_snapshot p)) as ->.
    { destruct m; try done; cbn [observe message_seqno] in *; injection Hsq as Hsq; rewrite Hsq in Hob;
        rewrite Hsn in *; by repeat (case_match; simplify_eq/=). }
    destruct (register_in_step vb s (event_manifest ev) p q first final)
      as (ack & q' & Hr & Hst' & Hid); [done..|lia|done|].
    exists (Some ack), q'. split_and!; [|done|lia]. rewrite <-Hr.
    destruct m; try done; injection Hcv as <-; injection Hsq as <-; done.
  - destruct m as [| | |marker|e| | |e| |]; try done; injection Hcv as <-.
    + cbn [observe] in Hob. case_match eqn:Hb; [done|]. injection Hob as <-.
      apply orb_false_iff in Hb as [Hb1 Hb2].
      cbn [track_partition register_snapshot Event.snap_end_seqno Event.snap_start_seqno
        convert_snapshot_marker]. unfold register_snapshot. cbn in Hmk |- *.
      destruct Hst as [Hl Hs Hpr Hpe Hord Hid].
      destruct (Z.ltb_spec (Dcp.snap_end_seqno marker) (Dcp.snap_start_seqno marker)); [lia|].
      destruct (Z.ltb_spec (Dcp.snap_end_seqno marker) (ck_seqno (ps_processed q))); [lia|].
      cbn. eexists _, _. split; [done|]. split; [|cbn; lia].
      split; cbn; try done. intros first final [= <- <-]. done.
    + injection Hob as <-. exists None, q. split_and!; [done..|lia].
    + injection Hob as <-. exists None, q. split_and!; [done..|lia].
Qed.

(** Acknowledging keeps the sides in step: the processed position is one of the registered
    ones. *)
Lemma pop_acknowledged_bound n l : ∀ processed advanced l' c' a',
  Forall (λ a, ck_seqno (pa_checkpoint a) ≤ n) l → ck_seqno processed ≤ n →
  pop_acknowledged l processed advanced = (l', c', a') →
  Forall (λ a, ck_seqno (pa_checkpoint a) ≤ n) l' ∧ ck_seqno c' ≤ n.
Proof.
  induction l as [|a l IH]; intros processed advanced l' c' a' Hl Hp; cbn [pop_acknowledged].
  { by intros [= <- <- _]. }
  destruct (pa_acknowledged a); [|by intros [= <- <- _]].
  apply Forall_cons in Hl as [Ha Hl]. by apply IH.
Qed.
Lemma mark_acknowledged_bound n id l l' :
  Forall (λ a, ck_seqno (pa_checkpoint a) ≤ n) l → mark_acknowledged id l = Some l' →
  Forall (λ a, ck_seqno (pa_checkpoint a) ≤ n) l'.
Proof.
  revert l'. induction l as [|a l IH]; intros l' Hl; cbn [mark_acknowledged]; [done|].
  apply Forall_cons in Hl as [Ha Hl]. destruct (pa_delivery_id a =? id).
  - intros [= <-]. by constructor.
  - destruct (mark_acknowledged id l) as [l1|]; [|done]. intros [= <-]. constructor; [done|].
    by apply IH.
Qed.
Lemma acknowledge_in_step t p q :
  in_step p q → in_step p (acknowledge_partition t q).2
    ∧ ps_next_delivery_id (acknowledge_partition t q).2 = ps_next_delivery_id q.
Proof.
  intros Hst. unfold acknowledge_partition.
  destruct (mark_acknowledged _ _) as [marked|] eqn:Hm; [|done].
  destruct Hst as [Hl Hs Hpr Hpe Hord Hid].
  pose proof (mark_acknowledged_bound _ _ _ _ Hpe Hm) as Hmk.
  destruct (pop_acknowledged marked (ps_processed q) None) as [[pending processed] advanced] eqn:Hpop.
  pose proof (pop_acknowledged_bound _ _ _ _ _ _ _ Hmk Hpr Hpop) as [Hpd Hpc].
  destruct advanced as [c|]; [destruct (checked_add _ _ _)|]; done.
Qed.

(** ** A delivery session *)

(** The life of a partition as the two components see it: messages that arrive and
    acknowledgements of the application, in any order. *)
Inductive SessionOp : Type :=
| Arrives (m : DcpMessage)
| Acked (t : EventAck).

(** The session stops with [None] when the worker rejects a message. *)
Fixpoint session (vb : Z) (ops : list SessionOp) (p : PartitionProgress) (q : PartitionState)
    : option (list (result (option EventAck)) * PartitionProgress * PartitionState) :=
  match ops with
  | [] => Some ([], p, q)
  | Arrives m :: ops =>
      match observe m p, convert_event m with
      | Ok p, Ok ev =>
          let '(r, q) := track_partition vb ev q in
          match session vb ops p q with
          | Some (rs, p, q) => Some (r :: rs, p, q)
          | None => None
          end
      | _, _ => None
      end
  | Acked t :: ops => session vb ops p (acknowledge_partition t q).2
  end.

Lemma session_in_step vb ops : ∀ p q rs p' q',
  in_step p q → ps_next_delivery_id q + len ops ≤ u64_max →
  Forall (λ op, match op with Arrives m => marker_ordered m | Acked _ => True end) ops →
  session vb ops p q = Some (rs, p', q') →
  Forall (λ r, is_ok r = true) rs ∧ in_step p' q'.
Proof.
  induction ops as [|[m|t] ops IH]; intros p q rs p' q' Hst Hid Hmk Hrun; cbn [session] in Hrun.
  - by injection Hrun as <- <- <-.
  - apply Forall_cons in Hmk as [Hm Hmk]. rewrite len_cons in Hid.
    pose proof (len_nonneg ops).
    destruct (observe m p) as [p1| |] eqn:Hob; [|done..].
    destruct (convert_event m) as [ev| |] eqn:Hcv; [|done..].
    destruct (track_in_step vb m ev p p1 q) as (ack & q1 & Htr & Hst1 & Hid1); [done..|lia|].
    rewrite Htr in Hrun. destruct (session vb ops p1 q1) as [[[rs1 p2] q2]|] eqn:Hrest; [|done].
    injection Hrun as <- <- <-. apply IH in Hrest as [Hrs Hst2]; [|done|lia|done].
    split; [by constructor|done].
  - apply Forall_cons in Hmk as [_ Hmk]. rewrite len_cons in Hid.
    destruct (acknowledge_in_step t p q Hst) as [Hst1 Hid1].
    eapply IH; [exact Hst1| |done|exact Hrun]. lia.
Qed.

Lemma in_step_start c end_seqno sid opaque :
  in_step (progress_new (ck_seqno c) end_seqno sid opaque) (partition_new c).
Proof. split; cbn; try done; lia. Qed.

(** ** Property *)

(** C17: the worker and the checkpoint coordinator agree on what may be delivered: when both
    start from the checkpoint the stream was opened at, the coordinator accepts the event
    of every message the worker accepts, however the application's acknowledgements are
    interleaved, and both end at the same position and snapshot. *)
Theorem accepted_events_are_tracked vb c end_seqno sid opaque ops rs p q :
  Forall (λ op, match op with Arrives m => marker_ordered m | Acked _ => True end) ops →
  len ops < u64_max →
  session vb ops (progress_new (ck_seqno c) end_seqno sid opaque) (partition_new c)
    = Some (rs, p, q) →
  Forall (λ r, is_ok r = true) rs
  ∧ ps_last_registered_seqno q = pp_last_seqno p ∧ ps_snapshot q = pp_snapshot p
  ∧ ck_seqno (ps_processed q) ≤ pp_last_seqno p.
Proof.
  intros Hmk Hlen Hrun.
  destruct (session_in_step vb ops _ _ _ _ _ (in_step_start c end_seqno sid opaque)
    ltac:(cbn; lia) Hmk Hrun) as [Hrs []]. done.
Qed.

Lemma accepted_events_are_tracked_witness :
  let ops := [Arrives (MSnapshotMarker (Dcp.mkSnapshotMarker 3 None 1 5 0 None None None None));
    Arrives (MSeqNoAdvanced (Dcp.mkSeqNoAdvanced 3 None 2)); Acked (mkEventAck 3 1 2);
    Arrives (MSeqNoAdvanced (Dcp.mkSeqNoAdvanced 3 None 4))] in
  ∃ rs p q, session 3 ops (progress_new (ck_seqno (earliest 3)) 100 None 9)
      (partition_new (earliest 3)) = Some (rs, p, q)
    ∧ length rs = 3%nat ∧ Forall (λ r, is_ok r = true) rs ∧ pp_last_seqno p = 4.
Proof.
  intros ops. eexists _, _, _. split; [vm_compute; reflexivity|].
  split; [reflexivity|]. split; [|reflexivity].
  eapply (accepted_events_are_tracked 3 (earliest 3) 100 None 9 ops).
  - repeat constructor; vm_compute; discriminate.
  - vm_compute. reflexivity.
  - vm_compute. reflexivity.
Defined.
