(* ===== verification/Generation.v ===== *)
(** * Opening a connection generation ([rust-dcp-core/src/client.rs], first part)

    One generation is a DCP connection per active node of the assigned vBuckets.  Opening
    it groups the vBuckets by node, bootstraps each node, resolves every start position,
    with a rollback decided before the stream request where the checkpoint is beyond the
    high sequence number, and collects the effective positions.  A failure shuts every
    stream down that was opened before it.

    Bootstrapping a node is the parameter [boot], what the shutdown of its stream answers the
    parameter [stop]; JSON serialization and parsing are
    [to_vec] and [manifest_from_slice]; the application's rollback handler is [handler],
    whose attempt 0 is the decision before the first request. *)
From stdpp Require Import gmultiset.
From S2P Require Import Prelude Text Types Frame Codec Dcp Command Errors Event Checkpoint.
From S2P Require Import Config Async Auth Transport Topology Cccp Settings Mitigation Stream.
From S2P Require Import Bootstrap Collections Worker.

Abbreviation Handler := (option (nat → RollbackRequest → outcome RollbackAction)).

Record OpenGenerationRequest : Type := mkOpenRequest {
  og_config : DcpConfig;
  og_topology : ClusterTopology;
  og_starts : gmap Z StartPosition;
  og_frozen_end_seqnos : option (gmap Z Z);
  og_stream_id : option Z;
  og_rollback_handler : Handler
}.

(** The streams carry the node they are connected to. *)
Record OpenedGeneration : Type := mkOpenedGeneration {
  gn_streams : list (NodeId * DcpStream);
  gn_effective_checkpoints : gmap Z DcpCheckpoint;
  gn_end_seqnos : gmap Z Z;
  gn_registry : CollectionRegistry;
  gn_rollback_count : Z;
  gn_mitigation : option (TokioMitigationSource * MitigationSnapshot)
}.

(** ** Debug text of the B-tree collections *)
Definition debug_keys (s : gset Z) : string :=
  "{" +:+ join ", " (pretty <$> merge_sort Z.le (elements s)) +:+ "}".
Definition debug_map (m : gmap Z Z) : string :=
  "{" +:+ join ", " ((λ e, pretty e.1 +:+ ": " +:+ pretty e.2) <$> btree_to_list m) +:+ "}".

(** ** Validation of the opened partitions *)
Definition validate_opened_partitions (starts : gmap Z StartPosition)
    (effective : gmap Z DcpCheckpoint) (end_seqnos : gmap Z Z) (frozen : option (gmap Z Z))
    (stream_count : Z) : result unit :=
  let requested : gset Z := dom starts in
  let opened : gset Z := dom effective in
  let ends : gset Z := dom end_seqnos in
  if negb (bool_decide (requested = opened)) then
    Err (Topology ("opened vBuckets " +:+ debug_keys opened
      +:+ " do not match requested vBuckets " +:+ debug_keys requested))
  else if negb (bool_decide (requested = ends)) then
    Err (Topology ("opened end-seqno vBuckets " +:+ debug_keys ends
      +:+ " do not match requested vBuckets " +:+ debug_keys requested))
  else
    do? match frozen with
        | Some frozen =>
            if bool_decide (frozen = end_seqnos) then Ok tt
            else Err (StreamError 0 ("reopened finite endpoints " +:+ debug_map end_seqnos
                   +:+ " do not match frozen endpoints " +:+ debug_map frozen))
        | None => Ok tt
        end in
    do? for_res (btree_to_list effective) tt (λ _ '(vbucket, checkpoint),
      match end_seqnos !! vbucket with
      | None => Panic
      | Some end_seqno =>
          if end_seqno <? ck_seqno checkpoint then
            Err (StreamError vbucket ("stream end " +:+ pretty end_seqno
              +:+ " is behind effective start " +:+ pretty (ck_seqno checkpoint)))
          else Ok tt
      end) in
    if stream_count =? 0 then Err (Topology "a DCP generation opened no node connections")
    else Ok tt.

Definition bucket_identity (t : ClusterTopology) : string :=
  default (ct_bucket t) (ct_bucket_uuid t).

Definition apply_frozen_end_seqno (request : VBucketStreamRequest) (frozen : option Z)
    : result VBucketStreamRequest :=
  match frozen with
  | Some end_seqno => with_frozen_end_seqno end_seqno request
  | None => Ok request
  end.

(** ** [resolve_vbucket_request] *)

(** The checkpoint as it is reported to the handler. *)
Definition rejected_checkpoint (bucket_uuid : string) (log : list FailoverEntry)
    (c : DcpCheckpoint) : DcpCheckpoint :=
  let c := match ck_bucket_uuid c with
           | None => ck_set_bucket_uuid (Some bucket_uuid) c
           | Some _ => c
           end in
  if ck_vbucket_uuid c =? 0
  then ck_set_vbucket_uuid (from_option fe_vbucket_uuid 0 (head log)) c
  else c.

Definition preflight_action (policy : RollbackPolicy) (handler : Handler)
    (q : RollbackRequest) : io KvConnection RollbackAction :=
  match policy with
  | PolicyStopAndReport => io_ret ActionStopAndReport
  | PolicyRewindAndReplay => io_ret ActionRewindAndReplay
  | PolicyDelegateToHandler =>
      match handler with
      | None => io_lift (Err (InvalidConfiguration
                  "DelegateToHandler rollback policy requires a rollback handler"))
      | Some h => λ c, (h 0%nat q, c)
      end
  end.

(** The request and whether a rollback was applied before it. *)
Definition resolve_vbucket_request (vbucket : Z) (bucket_uuid : string) (start : StartPosition)
    (mode : DcpMode) (high_seqno : Z) (failover_log : list FailoverEntry)
    (filter : option StreamFilter) (policy : RollbackPolicy) (handler : Handler)
    (frozen : option Z) : io KvConnection (VBucketStreamRequest * Z) :=
  match resolve vbucket (Some bucket_uuid) start mode high_seqno failover_log filter with
  | Ok request =>
      let! request := io_lift (apply_frozen_end_seqno request frozen) in io_ret (request, 0)
  | Err (RollbackRequired _ requested_seqno rollback_seqno observed_log) =>
      let report :=
        RollbackRequired vbucket requested_seqno rollback_seqno observed_log in
      match start with
      | StartCheckpoint checkpoint =>
          let rejected := rejected_checkpoint bucket_uuid observed_log checkpoint in
          let! action := preflight_action policy handler
            (mkRollbackRequest vbucket rejected rollback_seqno observed_log) in
          match action with
          | ActionStopAndReport => io_lift (Err report)
          | ActionRewindAndReplay =>
              let! branch := io_lift (ok_or
                (List.find (λ e, fe_seqno e <=? rollback_seqno) observed_log)
                (Topology ("failover log has no branch covering rollback seqno "
                   +:+ pretty rollback_seqno +:+ " for vBucket " +:+ pretty vbucket))) in
              let rewound := ck_set_manifest_uid None
                (ck_at rollback_seqno rollback_seqno rollback_seqno
                   (ck_set_vbucket_uuid (fe_vbucket_uuid branch) rejected)) in
              do! io_lift (ck_validate rewound) in
              let! request := io_lift (resolve vbucket (Some bucket_uuid)
                (StartCheckpoint rewound) mode high_seqno observed_log filter) in
              let! request := io_lift (apply_frozen_end_seqno request frozen) in
              io_ret (request, 1)
          end
      | _ => io_lift (Err report)
      end
  | Err e => io_lift (Err e)
  | Panic => io_lift Panic
  end.

(** ** Nodes *)

(** The streams that are open, by the node they are connected to. *)
Abbreviation Fleet := (gmultiset NodeId).

(** What [ManagedNodeStream::shutdown] of a node's stream answers: its result, or nothing when
    the stream's worker is held up ([StreamHandleSpec]). *)
Inductive StopReply : Type :=
| StopAnswered (r : option DcpError)
| StopNever.
Definition stop_answers (r : StopReply) : bool :=
  match r with StopAnswered _ => true | StopNever => false end.

(** [stream.shutdown().await], which consumes the stream. *)
Definition shutdown_stream (stop : NodeId → StopReply) (node : NodeId) : io Fleet unit := λ live,
  match stop node with
  | StopAnswered None => (Done (Ok tt), live ∖ {[+ node +]})
  | StopAnswered (Some error) => (Done (Err error), live ∖ {[+ node +]})
  | StopNever => (Hang, live)
  end.
(** [shutdown_stream_vec]: one stream after the other; an error is only logged. *)
Definition shutdown_stream_vec (stop : NodeId → StopReply) (streams : list (NodeId * DcpStream))
    : io Fleet unit :=
  io_for streams (λ stream, do! io_try (shutdown_stream stop stream.1) in io_ret tt).

Section Generation.
Context `{Snappy} (to_vec : WireFilter → res string bytes).
Context (manifest_from_slice : bytes → string + WireManifest).
Context (boot : NodeId → outcome DcpConnection) (stop : NodeId → StopReply).

(** One vBucket of a node: its position resolved against the node's answers. *)
Definition node_request (q : OpenGenerationRequest) (node : NodeId)
    (selection : CollectionSelection) (high_seqnos : gmap Z Z) (vbucket : Z)
    : io KvConnection (VBucketStreamRequest * Z) :=
  let! high_seqno := io_lift (ok_or (high_seqnos !! vbucket)
    (Topology ("node " +:+ node +:+ " omitted active high seqno for assigned vBucket "
       +:+ pretty vbucket))) in
  let! failover_log := fetch_failover_log vbucket in
  let! start := io_lift (ok_or (og_starts q !! vbucket)
    (Topology ("missing start position for vBucket " +:+ pretty vbucket))) in
  let! frozen := io_lift (match og_frozen_end_seqnos q with
    | Some end_seqnos =>
        let? e := ok_or (end_seqnos !! vbucket)
          (Topology ("missing frozen end seqno for vBucket " +:+ pretty vbucket)) in
        Ok (Some e)
    | None => Ok None
    end) in
  resolve_vbucket_request vbucket (bucket_identity (og_topology q)) start
    (dc_mode (og_config q)) high_seqno failover_log (selection_stream_filter selection)
    (dc_rollback_policy (og_config q)) (og_rollback_handler q) frozen.

Fixpoint node_requests (q : OpenGenerationRequest) (node : NodeId)
    (selection : CollectionSelection) (high_seqnos : gmap Z Z) (vbuckets : list Z)
    (requests : list VBucketStreamRequest) (rollbacks : Z)
    : io KvConnection (list VBucketStreamRequest * Z) :=
  match vbuckets with
  | [] => io_ret (requests, rollbacks)
  | vbucket :: vbuckets =>
      let! resolved := node_request q node selection high_seqnos vbucket in
      let! rollbacks := io_lift (ok_or (checked_add usize_max rollbacks resolved.2)
        (StreamError vbucket "preflight rollback counter overflow")) in
      node_requests q node selection high_seqnos vbuckets (requests ++ [resolved.1]) rollbacks
  end.

(** The exchange on the node's connection. *)
Definition open_on_connection (q : OpenGenerationRequest) (node : NodeId) (vbuckets : list Z)
    (existing : option CollectionSelection) (capabilities : BootstrapCapabilities)
    : io KvConnection (DcpStream * CollectionSelection * Z) :=
  let! selection := match existing with
    | Some selection => io_ret selection
    | None => resolve_collection_selection manifest_from_slice capabilities
                (dc_collections (og_config q)) (og_stream_id q)
    end in
  let! high_seqnos := fetch_selection_high_seqnos selection in
  let! resolved := node_requests q node selection high_seqnos vbuckets [] 0 in
  let! stream := open_dcp_stream to_vec capabilities resolved.1
    (dc_flow_control (og_config q)) (dc_rollback_policy (og_config q))
    (og_rollback_handler q) in
  io_ret (stream, selection, resolved.2).

Definition open_tokio_node (q : OpenGenerationRequest) (node : NodeId) (vbuckets : list Z)
    (existing : option CollectionSelection) : io Fleet (DcpStream * CollectionSelection * Z) :=
  let! endpoint := io_lift (ok_or (ct_endpoints (og_topology q) !! node)
    (Topology ("node " +:+ node +:+ " has no KV endpoint"))) in
  do! io_lift (seed_from_str (ep_address endpoint)) in
  let! connection := (λ live, (boot node, live)) in
  let! opened := (λ live,
    ((open_on_connection q node vbuckets existing (bs_capabilities connection)
        (bs_connection connection)).1, live)) in
  do! io_modify (λ live, {[+ node +]} ⊎ live) in
  io_ret opened.

(** ** The generation *)
Record GenerationAcc : Type := mkGenerationAcc {
  ga_streams : list (NodeId * DcpStream);
  ga_effective : gmap Z DcpCheckpoint;
  ga_end_seqnos : gmap Z Z;
  ga_rollback_count : Z;
  ga_selection : option CollectionSelection
}.

(** The positions of one node's report, or a vBucket another node opened already. *)
Fixpoint merge_report (entries : list (Z * PartitionOpenState))
    (effective : gmap Z DcpCheckpoint) (end_seqnos : gmap Z Z)
    : Z + gmap Z DcpCheckpoint * gmap Z Z :=
  match entries with
  | [] => inr (effective, end_seqnos)
  | (vbucket, state) :: entries =>
      match effective !! vbucket, end_seqnos !! vbucket with
      | None, None =>
          merge_report entries (<[vbucket := po_effective_checkpoint state]> effective)
            (<[vbucket := po_end_seqno state]> end_seqnos)
      | _, _ => inl vbucket
      end
  end.

(** An error with every stream shut down. *)
Definition fail_generation {A} (streams : list (NodeId * DcpStream)) (e : DcpError)
    : io Fleet A :=
  do! shutdown_stream_vec stop streams in io_lift (Err e).

Definition rollback_overflow : DcpError := StreamError 0 "rollback counter overflow".

(** One node of the loop. *)
Definition add_node (node : NodeId) (a : GenerationAcc) (stream : DcpStream)
    (selection : CollectionSelection) (preflight : Z) : io Fleet GenerationAcc :=
  let streams := ga_streams a ++ [(node, stream)] in
  let report := ds_open_report stream in
  match checked_add usize_max preflight (len (or_rollbacks report)) with
  | None => fail_generation streams rollback_overflow
  | Some node_rollbacks =>
      match checked_add usize_max (ga_rollback_count a) node_rollbacks with
      | None => fail_generation streams rollback_overflow
      | Some rollbacks =>
          match merge_report (btree_to_list (or_partitions report)) (ga_effective a)
                  (ga_end_seqnos a) with
          | inl vbucket =>
              fail_generation streams (Topology ("vBucket " +:+ pretty vbucket
                +:+ " was opened on more than one node"))
          | inr (effective, end_seqnos) =>
              io_ret (mkGenerationAcc streams effective end_seqnos rollbacks
                (Some (default selection (ga_selection a))))
          end
      end
  end.

Fixpoint open_nodes (q : OpenGenerationRequest) (groups : list (NodeId * list Z))
    (a : GenerationAcc) : io Fleet GenerationAcc :=
  match groups with
  | [] => io_ret a
  | (node, vbuckets) :: groups =>
      let! opened := io_try (open_tokio_node q node vbuckets (ga_selection a)) in
      match opened with
      | Ok (stream, selection, preflight) =>
          let! a := add_node node a stream selection preflight in
          open_nodes q groups a
      | Err error => fail_generation (ga_streams a) error
      | Panic => io_lift Panic
      end
  end.

(** A map keyed by node in key order. *)
Definition node_entries {A} (m : gmap NodeId A) : list (NodeId * A) :=
  omap (λ node, (λ a, (node, a)) <$> m !! node) (node_list (dom m)).

Definition open_tokio_generation (q : OpenGenerationRequest) : io Fleet OpenedGeneration :=
  if bool_decide (og_starts q = ∅) then
    io_lift (Err (InvalidConfiguration "a DCP subscription must own at least one vBucket"))
  else
    let! grouped := io_lift
      (active_vbuckets_by_node (og_topology q) (btree_keys (og_starts q))) in
    let! a := open_nodes q (node_entries grouped) (mkGenerationAcc [] ∅ ∅ 0 None) in
    let! selection := io_lift (ok_or (ga_selection a)
      (Topology "the active topology produced no node-level DCP streams")) in
    match validate_opened_partitions (og_starts q) (ga_effective a) (ga_end_seqnos a)
            (og_frozen_end_seqnos q) (len (ga_streams a)) with
    | Err error => fail_generation (ga_streams a) error
    | Panic => io_lift Panic
    | Ok _ =>
        match spawn_tokio_mitigator (dc_rollback_mitigation (og_config q)) (og_topology q)
                (ga_effective a) with
        | Err error => fail_generation (ga_streams a) error
        | Panic => io_lift Panic
        | Ok mitigation =>
            io_ret (mkOpenedGeneration (ga_streams a) (ga_effective a) (ga_end_seqnos a)
              (registry_new selection) (ga_rollback_count a) mitigation)
        end
    end.
End Generation.

(** ** Lemmas: resolution of one vBucket *)

Definition requested_end (mode : DcpMode) (high : Z) (frozen : option Z) : Z :=
  default (match mode with Finite => high | Infinite => u64_max end) frozen.

Lemma apply_frozen_ok r frozen r' :
  apply_frozen_end_seqno r frozen = Ok r' →
  vr_checkpoint r' = vr_checkpoint r ∧ vr_end_seqno r' = default (vr_end_seqno r) frozen.
Proof.
  unfold apply_frozen_end_seqno, with_frozen_end_seqno. destruct frozen as [e|].
  - destruct (_ <? _); [done|]. by intros [= <-].
  - by intros [= <-].
Qed.
Lemma apply_frozen_no_panic r frozen : apply_frozen_end_seqno r frozen ≠ Panic.
Proof. unfold apply_frozen_end_seqno, with_frozen_end_seqno. by repeat case_match. Qed.

Lemma resolve_no_panic vb bu start mode high log filter :
  resolve vb bu start mode high log filter ≠ Panic.
Proof. intros Hp. pose proof (resolve_spec vb bu start mode high log filter) as H. by rewrite Hp in H. Qed.

Lemma resolve_vbucket_request_ok vb bu start mode high log filter policy handler frozen c r n c' :
  resolve_vbucket_request vb bu start mode high log filter policy handler frozen c
    = (Done (Ok (r, n)), c') →
  vr_vbucket r = vb ∧ ck_bucket_uuid (vr_checkpoint r) = Some bu
  ∧ ck_seqno (vr_checkpoint r) ≤ ck_seqno (start_checkpoint vb start high)
  ∧ vr_end_seqno r = requested_end mode high frozen.
Proof.
  unfold resolve_vbucket_request. intros Hrun.
  pose proof (resolve_spec vb (Some bu) start mode high log filter) as Hs.
  destruct (resolve vb (Some bu) start mode high log filter) as [r0|e|].
  - apply io_bind_ok in Hrun as (r1 & c1 & Hf & Hrun). injection Hf as Hf _.
    injection Hrun as -> _ _. apply apply_frozen_ok in Hf as [Hc He].
    destruct Hs as (_ & Hvb & Hsq & _ & Hend & Hbu & _). unfold vr_vbucket, requested_end.
    rewrite Hc, He, Hend. split_and!; [done|by apply Hbu|lia|by destruct frozen].
  - destruct e; try done. destruct start as [| |ck]; try done.
    apply io_bind_ok in Hrun as (a & c1 & _ & Hrun). destruct a; [done|].
    apply io_bind_ok in Hrun as (branch & c2 & _ & Hrun).
    apply io_bind_ok in Hrun as (u & c3 & _ & Hrun).
    apply io_bind_ok in Hrun as (r0 & c4 & Hr & Hrun). injection Hr as Hr _.
    apply io_bind_ok in Hrun as (r1 & c5 & Hf & Hrun). injection Hf as Hf _.
    injection Hrun as -> _ _. apply apply_frozen_ok in Hf as [Hc He].
    destruct Hs as (_ & -> & Hlt & _ & Hreq).
    match type of Hr with resolve ?a ?b ?s ?m ?h ?l ?f = _ =>
      pose proof (resolve_spec a b s m h l f) as Hs2 end.
    rewrite Hr in Hs2. destruct Hs2 as (_ & Hvb & Hsq & _ & Hend & Hbu & _).
    unfold vr_vbucket, requested_end. rewrite Hc, He, Hend.
    split_and!; [done|by apply Hbu| |by destruct frozen].
    rewrite Hsq. cbn in Hreq |- *. lia.
  - done.
Qed.

(** The application's handler and the foreign serializer return. *)
Definition handler_total (handler : Handler) : Prop :=
  ∀ h n q, handler = Some h → h n q ≠ Hang ∧ h n q ≠ Done Panic.

Lemma resolve_vbucket_request_total vb bu start mode high log filter policy handler frozen :
  handler_total handler →
  io_total (resolve_vbucket_request vb bu start mode high log filter policy handler frozen).
Proof.
  intros Hh. unfold resolve_vbucket_request.
  pose proof (resolve_no_panic vb (Some bu) start mode high log filter) as Hnp.
  destruct (resolve _ _ _ _ _ _ _) as [r|e|]; [| |done].
  - apply io_total_bind; [apply io_total_lift, apply_frozen_no_panic|intros; apply io_total_ret].
  - destruct e; try by apply io_total_lift. destruct start; try by apply io_total_lift.
    apply io_total_bind.
    + unfold preflight_action. destruct policy; [apply io_total_ret..|].
      destruct handler as [h|] eqn:Hhd; [|by apply io_total_lift]. intros s. by apply Hh.
    + intros []; [by apply io_total_lift|].
      apply io_total_bind; [apply io_total_lift; by destruct (List.find _ _)|intros branch].
      apply io_total_bind; [apply io_total_lift, ck_validate_no_panic|intros _].
      apply io_total_bind; [apply io_total_lift, resolve_no_panic|intros r].
      apply io_total_bind; [apply io_total_lift, apply_frozen_no_panic|intros; apply io_total_ret].
Qed.

(** ** Lemmas: every exchange ends *)
Section Total.
Context `{Snappy} (to_vec : WireFilter → res string bytes).
Context (manifest_from_slice : bytes → string + WireManifest).
Context (boot : NodeId → outcome DcpConnection).

Lemma conn_request_total q : io_total (conn_request q).
Proof using.
  intros c. destruct (conn_request q c) as [o c'] eqn:Hq.
  destruct (conn_request_spec _ _ _ _ Hq) as (_ & _ & _ & _ & _ & _ & _ & (r & -> & Hr) & _).
  split; [done|]. cbn. by intros [= ->].
Qed.

Lemma fetch_failover_log_total vb : io_total (fetch_failover_log vb).
Proof using.
  intros c. destruct (fetch_failover_log_exchange true (λ _, True) vb (λ _, I) c) as (H1 & H2 & _).
  split; [done|by apply H2].
Qed.

Lemma fetch_active_high_seqnos_total id : io_total (fetch_active_high_seqnos id).
Proof using.
  apply io_total_bind; [apply conn_request_total|intros f].
  apply io_total_bind; [apply io_total_lift, ensure_success_response_no_panic|intros _].
  apply io_total_bind; [apply io_total_lift, from_protocol_no_panic, parse_vbucket_seqnos_no_panic|].
  intros l. apply io_total_lift, for_res_no_panic. intros m e. by destruct (m !! _).
Qed.

Lemma fetch_merged_total ids : ∀ m, io_total (fetch_merged ids m).
Proof using.
  induction ids as [|id ids IH]; intros m; cbn [fetch_merged]; [apply io_total_ret|].
  apply io_total_bind; [apply fetch_active_high_seqnos_total|intros; apply IH].
Qed.

Lemma collection_filter_validate_no_panic f : collection_filter_validate f ≠ Panic.
Proof using.
  unfold collection_filter_validate, config_validate_collection_name.
  repeat first [apply let_no_panic|apply for_res_no_panic|intros ?|by repeat case_match].
Qed.

Lemma manifest_resolve_no_panic m f sid : manifest_resolve m f sid ≠ Panic.
Proof using.
  unfold manifest_resolve. apply let_no_panic; [apply collection_filter_validate_no_panic|].
  intros _. apply let_no_panic; [apply ok_or_no_panic|]. intros s.
  apply let_no_panic; [|by intros []]. destruct (cf_collections f); [done|].
  apply for_res_no_panic. intros ? ?. unfold resolve_name. apply let_no_panic; [|done].
  apply ok_or_no_panic.
Qed.

Lemma resolve_collection_selection_total caps filter sid :
  io_total (resolve_collection_selection manifest_from_slice caps filter sid).
Proof using.
  apply io_total_bind; [apply io_total_lift, collection_filter_validate_no_panic|intros _].
  destruct (_ && _); [by apply io_total_lift|]. destruct (supports caps HfCollections).
  - apply io_total_bind; [|intros m; apply io_total_bind;
      [apply io_total_lift, manifest_resolve_no_panic|intros; apply io_total_ret]].
    apply io_total_bind; [apply conn_request_total|intros f].
    apply io_total_bind; [apply io_total_lift, from_protocol_no_panic|intros p].
    + unfold parse_collection_manifest. apply let_no_panic; [apply ensure_response_no_panic|done].
    + apply io_total_lift. unfold manifest_parse. destruct (manifest_from_slice p) as [|w]; [done|].
      intros Hp. pose proof (manifest_from_wire_wf w) as Hw. by rewrite Hp in Hw.
  - destruct (negb _); [by apply io_total_lift|apply io_total_ret].
Qed.

Lemma fetch_selection_high_seqnos_total sel : io_total (fetch_selection_high_seqnos sel).
Proof using.
  unfold fetch_selection_high_seqnos.
  destruct (high_seqno_collection_ids sel); [apply fetch_merged_total|apply fetch_active_high_seqnos_total].
Qed.

Context (q : OpenGenerationRequest).
Hypothesis handler_ok : handler_total (og_rollback_handler q).
Hypothesis to_vec_ok : ∀ w, to_vec w ≠ Panic.
Hypothesis boot_ok : ∀ n, boot n ≠ Hang ∧ boot n ≠ Done Panic.

Lemma node_requests_total node sel high vbs : ∀ rs n,
  io_total (node_requests q node sel high vbs rs n).
Proof using handler_ok.
  induction vbs as [|vb vbs IH]; intros rs n; cbn [node_requests]; [apply io_total_ret|].
  apply io_total_bind; [|intros r; apply io_total_bind;
    [apply io_total_lift, ok_or_no_panic|intros; apply IH]].
  unfold node_request. apply io_total_bind; [apply io_total_lift, ok_or_no_panic|intros h].
  apply io_total_bind; [apply fetch_failover_log_total|intros log].
  apply io_total_bind; [apply io_total_lift, ok_or_no_panic|intros start].
  apply io_total_bind; [|intros; by apply resolve_vbucket_request_total].
  apply io_total_lift. destruct (og_frozen_end_seqnos q) as [m|]; [|done].
  by destruct (m !! vb).
Qed.

Lemma open_on_connection_total node vbs existing caps :
  io_total (open_on_connection to_vec manifest_from_slice q node vbs existing caps).
Proof using handler_ok to_vec_ok.
  apply io_total_bind; [destruct existing; [apply io_total_ret|apply resolve_collection_selection_total]|].
  intros sel. apply io_total_bind; [apply fetch_selection_high_seqnos_total|intros high].
  apply io_total_bind; [apply node_requests_total|intros rs].
  apply io_total_bind; [|intros; apply io_total_ret]. intros c.
  destruct (open_dcp_stream to_vec caps rs.1 _ _ _ c) as [o c'] eqn:Ho.
  by apply (open_dcp_stream_spec to_vec caps rs.1) in Ho as (? & ? & _).
Qed.

Lemma open_tokio_node_total node vbs existing :
  io_total (open_tokio_node to_vec manifest_from_slice boot q node vbs existing).
Proof using handler_ok to_vec_ok boot_ok.
  apply io_total_bind; [apply io_total_lift, ok_or_no_panic|intros ep].
  apply io_total_bind; [apply io_total_lift, seed_from_str_no_panic|intros _].
  apply io_total_bind; [intros s; apply boot_ok|intros b].
  apply io_total_bind; [intros s; apply open_on_connection_total|intros x].
  apply io_total_bind; [apply io_total_modify|intros; apply io_total_ret].
Qed.
End Total.

(** ** Lemmas: what an opened generation holds *)

Definition not_beyond (start : StartPosition) (seqno : Z) : Prop :=
  match start with
  | StartEarliest => seqno ≤ 0
  | StartLatest => True
  | StartCheckpoint c => seqno ≤ ck_seqno c
  end.

(** An open partition: a valid position of the bucket, not beyond the requested start nor
    the stream end, which is the frozen one when there is one. *)
Definition partition_ok (q : OpenGenerationRequest) (vb : Z) (c : DcpCheckpoint) (e : Z) : Prop :=
  ck_vbucket c = vb ∧ ck_valid c ∧ ck_bucket_uuid c = Some (bucket_identity (og_topology q))
  ∧ ck_seqno c ≤ e
  ∧ (∃ start, og_starts q !! vb = Some start ∧ not_beyond start (ck_seqno c))
  ∧ ∀ frozen, og_frozen_end_seqnos q = Some frozen → frozen !! vb = Some e.

Definition request_for (q : OpenGenerationRequest) (vb : Z) (r : VBucketStreamRequest) : Prop :=
  vr_vbucket r = vb ∧ ck_bucket_uuid (vr_checkpoint r) = Some (bucket_identity (og_topology q))
  ∧ (∃ start, og_starts q !! vb = Some start ∧ not_beyond start (ck_seqno (vr_checkpoint r)))
  ∧ ∀ frozen, og_frozen_end_seqnos q = Some frozen → frozen !! vb = Some (vr_end_seqno r).

(** A stream that serves exactly the vBuckets [vbs]. *)
Definition serves (q : OpenGenerationRequest) (vbs : list Z) (ds : DcpStream) : Prop :=
  (∀ vb, is_Some (ds_partitions ds !! vb) ↔ vb ∈ vbs)
  ∧ (∀ vb, is_Some (or_partitions (ds_open_report ds) !! vb) ↔ vb ∈ vbs)
  ∧ ∀ vb st, or_partitions (ds_open_report ds) !! vb = Some st →
      partition_ok q vb (po_effective_checkpoint st) (po_end_seqno st).

Lemma opened_in_partition_ok q rep vb r st :
  request_for q vb r → opened_in rep r → or_partitions rep !! vb = Some st →
  partition_ok q vb (po_effective_checkpoint st) (po_end_seqno st).
Proof.
  intros (Hvb & Hbu & (start & Hst & Hnb) & Hfr) (st' & Hl & Hof & Hle) Hl'.
  rewrite Hvb in Hl. rewrite Hl in Hl'. injection Hl' as ->.
  destruct Hof as (O1 & O2 & O3 & O4 & O5 & O6 & O7 & O8 & O9). split_and!.
  - rewrite O6, O1. exact Hvb.
  - done.
  - by rewrite O9.
  - by rewrite O7.
  - exists start. split; [done|]. rewrite O7. unfold not_beyond in *. destruct start; [lia|done|lia].
  - rewrite O2. exact Hfr.
Qed.

Lemma seen_snoc (P : Z → list Z → Prop) (seen : list (NodeId * list Z)) node vbs vb :
  (∃ n l, (n, l) ∈ seen ++ [(node, vbs)] ∧ P vb l) ↔
  (∃ n l, (n, l) ∈ seen ∧ P vb l) ∨ P vb vbs.
Proof.
  setoid_rewrite elem_of_app. setoid_rewrite list_elem_of_singleton. naive_solver.
Qed.

Lemma is_Some_iff {A} (o : option A) (P : A → Prop) Q :
  (∀ a, o = Some a ↔ P a) → ((∃ a, P a) ↔ Q) → (is_Some o ↔ Q).
Proof. intros H1 H2. rewrite <-H2. split; intros [a Ha]; exists a; by apply H1. Qed.

Lemma exists_or_image {A B} (P : A → Prop) (Q : B → Prop) (f : B → A) :
  (∃ a, P a ∨ ∃ b, Q b ∧ a = f b) ↔ (∃ a, P a) ∨ ∃ b, Q b.
Proof. naive_solver. Qed.

Lemma elem_of_node_entries {A} (m : gmap NodeId A) n a :
  (n, a) ∈ node_entries m ↔ m !! n = Some a.
Proof.
  unfold node_entries. rewrite list_elem_of_omap. split.
  - intros (k & _ & Hk). apply fmap_Some in Hk as (x & Hx & [= -> ->]). done.
  - intros Hm. exists n. split; [|by rewrite Hm]. unfold node_list.
    rewrite merge_sort_Permutation. apply elem_of_elements, elem_of_dom. by exists a.
Qed.

Lemma node_entries_keys {A} (m : gmap NodeId A) : NoDup (node_entries m).*1.
Proof.
  unfold node_entries. assert (NoDup (node_list (dom m))) as Hnd.
  { unfold node_list. rewrite merge_sort_Permutation. apply NoDup_elements. }
  induction Hnd as [|n l Hni _ IH]; cbn; [constructor|].
  destruct (m !! n) as [a|]; cbn; [|exact IH]. constructor; [|exact IH].
  intros ([k x] & -> & (k' & Hk' & Hx)%list_elem_of_omap)%list_elem_of_fmap.
  apply fmap_Some in Hx as (y & _ & [= <- <-]). done.
Qed.

Lemma validate_opened_no_panic starts eff ends frozen n :
  validate_opened_partitions starts eff ends frozen n ≠ Panic.
Proof.
  unfold validate_opened_partitions. case_bool_decide as H1; [|done]. cbn [negb].
  case_bool_decide as H2; [|done]. cbn [negb].
  apply let_no_panic; [by repeat case_match|intros _]. apply let_no_panic; [|by intros _; case_match].
  pose proof (for_res_checks (btree_to_list eff) (λ '(vb, c), match ends !! vb with
    | None => Panic
    | Some e => if e <? ck_seqno c
        then Err (StreamError vb ("stream end " +:+ pretty e +:+ " is behind effective start "
               +:+ pretty (ck_seqno c))) else Ok tt end : result unit)) as Hc.
  destruct (for_res _ _ _); [done..|]. destruct Hc as ([vb c] & Hin & Hp).
  apply elem_of_btree_to_list in Hin. assert (vb ∈ dom ends) as [e He]%elem_of_dom.
  { rewrite <-H2, H1. apply elem_of_dom. by exists c. }
  rewrite He in Hp. by destruct (_ <? _).
Qed.

Lemma active_node_no_panic t vb : active_node t vb ≠ Panic.
Proof. unfold active_node, route_of. by destruct (ct_vbuckets t !! vb). Qed.

Lemma spawn_no_panic `{Snappy} config t cks : spawn_tokio_mitigator config t cks ≠ Panic.
Proof.
  unfold spawn_tokio_mitigator. destruct (negb _); [done|].
  apply let_no_panic; [|intros plan; apply let_no_panic; [|done]].
  - apply let_no_panic; [|done]. apply for_res_no_panic. intros plan [vb uuid].
    unfold plan_vbucket. destruct (uuid =? 0); [done|]. apply let_no_panic; [|intros copies].
    + unfold vbucket_copies. apply let_no_panic; [apply active_node_no_panic|intros a].
      apply let_no_panic; [|done]. unfold replica_nodes, route_of. by destruct (ct_vbuckets t !! vb).
    + apply let_no_panic; [|done]. apply for_res_no_panic. intros ns n. unfold plan_node.
      apply let_no_panic; [apply ok_or_no_panic|done].
  - unfold snapshot_new. by destruct (bool_decide _).
Qed.

Section Accumulate.
Context (q : OpenGenerationRequest).

Lemma merge_report_ok entries : ∀ eff ends eff' ends',
  merge_report entries eff ends = inr (eff', ends') →
  (∀ vb c, eff' !! vb = Some c ↔
     eff !! vb = Some c ∨ ∃ st, (vb, st) ∈ entries ∧ c = po_effective_checkpoint st)
  ∧ (∀ vb e, ends' !! vb = Some e ↔
     ends !! vb = Some e ∨ ∃ st, (vb, st) ∈ entries ∧ e = po_end_seqno st).
Proof.
  induction entries as [|[vb st] l IH]; intros eff ends eff' ends' Hm; cbn [merge_report] in Hm.
  { injection Hm as <- <-. split; intros; (split; [by left|]); by intros [?|(? & ?%elem_of_nil & _)]. }
  destruct (eff !! vb) eqn:He; [done|]. destruct (ends !! vb) eqn:Hn; [done|].
  apply IH in Hm as [H1 H2]. split.
  - intros vb' c. rewrite H1, lookup_insert_Some. setoid_rewrite elem_of_cons. split.
    + intros [[[<- <-]|[Hne Hl]]|(s & Hin & ->)]; eauto 6.
    + intros [Hl|(s & [[= -> ->]|Hin] & ->)]; [|eauto 6..].
      left. right. split; [by intros ->; congruence|done].
  - intros vb' c. rewrite H2, lookup_insert_Some. setoid_rewrite elem_of_cons. split.
    + intros [[[<- <-]|[Hne Hl]]|(s & Hin & ->)]; eauto 6.
    + intros [Hl|(s & [[= -> ->]|Hin] & ->)]; [|eauto 6..].
      left. right. split; [by intros ->; congruence|done].
Qed.

(** The loop's state after the groups [seen]. *)
Record acc_ok (seen : list (NodeId * list Z)) (live0 live : Fleet) (a : GenerationAcc) : Prop := {
  ao_streams : Forall2 (λ g s, g.1 = s.1 ∧ serves q g.2 s.2) seen (ga_streams a);
  ao_live : live = list_to_set_disj (ga_streams a).*1 ⊎ live0;
  ao_effective : ∀ vb c, ga_effective a !! vb = Some c →
    ∃ e, ga_end_seqnos a !! vb = Some e ∧ partition_ok q vb c e;
  ao_dom : ∀ vb, is_Some (ga_effective a !! vb) ↔ ∃ n vbs, (n, vbs) ∈ seen ∧ vb ∈ vbs;
  ao_dom_ends : ∀ vb, is_Some (ga_end_seqnos a !! vb) ↔ ∃ n vbs, (n, vbs) ∈ seen ∧ vb ∈ vbs;
  ao_selection : is_Some (ga_selection a) ↔ seen ≠ [];
  ao_registry : ∀ sel, ga_selection a = Some sel → registry_wf (registry_new sel)
}.

(** A failure either has every stream shut down or waits for one that never answers. *)
Definition hung (stop : NodeId → StopReply) (live0 live : Fleet) : Prop :=
  ∃ node rest, stop node = StopNever ∧ live = list_to_set_disj (node :: rest) ⊎ live0.
Lemma shutdown_vec_live stop streams live0 :
  let '(o, live) := shutdown_stream_vec stop streams (list_to_set_disj streams.*1 ⊎ live0) in
  o = Done (Ok tt) ∧ live = live0 ∨ o = Hang ∧ hung stop live0 live.
Proof.
  unfold shutdown_stream_vec. induction streams as [|[node ds] streams IH]; cbn [io_for].
  { left. split; [done|]. apply (left_id_L ∅ (⊎)). }
  unfold io_bind at 1, io_bind at 1, io_try, shutdown_stream. cbn [fst].
  assert ((list_to_set_disj ((node, ds) :: streams).*1 ⊎ live0) ∖ {[+ node +]}
    = list_to_set_disj streams.*1 ⊎ live0) as Hd.
  { change ((node, ds) :: streams).*1 with (node :: streams.*1).
    cbn [list_to_set_disj]. clear. generalize (list_to_set_disj streams.*1 : Fleet).
    intros X. multiset_solver. }
  destruct (stop node) as [[e|]|] eqn:Hs; [rewrite Hd; apply IH..|].
  right. split; [done|]. by exists node, streams.*1.
Qed.
Lemma shutdown_vec_total stop streams : ∀ live,
  (∃ live', shutdown_stream_vec stop streams live = (Done (Ok tt), live'))
  ∨ ∃ node, node ∈ streams.*1 ∧ stop node = StopNever.
Proof.
  unfold shutdown_stream_vec. induction streams as [|[node ds] streams IH]; intros live.
  { left. by exists live. }
  cbn [io_for]. unfold io_bind at 1, io_bind at 1, io_try, shutdown_stream. cbn [fst].
  destruct (stop node) as [[e|]|] eqn:Hs.
  3: { right. exists node. split; [left|done]. }
  all: destruct (IH (live ∖ {[+ node +]})) as [?|(node' & Hin & ?)]; [by left|].
  all: right; exists node'; split; [by right|done].
Qed.
Lemma fail_generation_live {A} stop streams e live0 o live :
  fail_generation (A:=A) stop streams e (list_to_set_disj streams.*1 ⊎ live0) = (o, live) →
  o = Done (Err e) ∧ live = live0 ∨ o = Hang ∧ hung stop live0 live.
Proof.
  unfold fail_generation, io_bind, io_lift. pose proof (shutdown_vec_live stop streams live0) as Hv.
  destruct (shutdown_stream_vec _ _ _) as [o1 live1].
  destruct Hv as [[-> ->]|[-> Hv]]; intros [= <- <-]; auto.
Qed.

Lemma fail_generation_not_ok {A} stop streams e live a live' :
  fail_generation (A:=A) stop streams e live ≠ (Done (Ok a), live').
Proof. intros (u & l & _ & [=])%io_bind_ok. Qed.

Lemma add_node_ok stop seen live0 a node vbs ds sel n live o live' :
  acc_ok seen live0 live a → serves q vbs ds → registry_wf (registry_new sel) →
  add_node stop node a ds sel n ({[+ node +]} ⊎ live) = (o, live') →
  match o with
  | Done (Ok a') => acc_ok (seen ++ [(node, vbs)]) live0 live' a'
  | Done (Err _) => live' = live0
  | Done Panic => False
  | Hang => hung stop live0 live'
  end.
Proof.
  intros [Hst Hlive Heff Hdom Hends Hsel Hreg] Hserve Hnew.
  assert ({[+ node +]} ⊎ live = list_to_set_disj (ga_streams a ++ [(node, ds)]).*1 ⊎ live0) as ->.
  { rewrite Hlive, fmap_app, list_to_set_disj_app. cbn [fmap list_fmap fst list_to_set_disj].
    clear. generalize (list_to_set_disj (ga_streams a).*1 : Fleet). intros X. multiset_solver. }
  unfold add_node.
  destruct (checked_add usize_max n _) as [k|]; [|intros [[-> ->]|[-> ?]]%fail_generation_live; done].
  destruct (checked_add usize_max (ga_rollback_count a) k) as [m|];
    [|intros [[-> ->]|[-> ?]]%fail_generation_live; done].
  destruct (merge_report _ _ _) as [vb|[eff ends]] eqn:Hm;
    [intros [[-> ->]|[-> ?]]%fail_generation_live; done|].
  intros [= <- <-]. apply merge_report_ok in Hm as [Hm1 Hm2].
  setoid_rewrite elem_of_btree_to_list in Hm1. setoid_rewrite elem_of_btree_to_list in Hm2.
  pose proof Hserve as (Hp & Hr & Hok). split; cbn.
  - apply Forall2_app; [done|]. constructor; [done|constructor].
  - done.
  - intros vb c [Hc|(st & Hl & ->)]%Hm1.
    + destruct (Heff vb c Hc) as (e & He & Hpo). exists e. rewrite Hm2. auto.
    + exists (po_end_seqno st). split; [|by apply Hok]. rewrite Hm2. eauto.
  - intros vb. rewrite (seen_snoc (λ vb l, vb ∈ l)), <-Hdom, <-Hr.
    eapply is_Some_iff; [intros c; apply Hm1|]. apply exists_or_image.
  - intros vb. rewrite (seen_snoc (λ vb l, vb ∈ l)), <-Hends, <-Hr.
    eapply is_Some_iff; [intros c; apply Hm2|]. apply exists_or_image.
  - split; [by intros _ [_ ?]%app_nil|by eexists].
  - intros sel' [= <-]. destruct (ga_selection a) as [s|]; [by apply Hreg|done].
Qed.

(** The outcome of opening a generation. *)
Definition generation_ok (g : OpenedGeneration) : Prop :=
  dom (gn_effective_checkpoints g) = dom (og_starts q)
  ∧ dom (gn_end_seqnos g) = dom (og_starts q)
  ∧ (∀ vb c, gn_effective_checkpoints g !! vb = Some c →
       ∃ e, gn_end_seqnos g !! vb = Some e ∧ partition_ok q vb c e)
  ∧ NoDup (gn_streams g).*1
  ∧ (∀ vb, vb ∈ dom (og_starts q) → ∃ node, active_node (og_topology q) vb = Ok node
       ∧ node ∈ (gn_streams g).*1
       ∧ ∀ node' ds, (node', ds) ∈ gn_streams g →
           (is_Some (ds_partitions ds !! vb) ↔ node' = node))
  ∧ (∀ vb node ds, (node, ds) ∈ gn_streams g → is_Some (ds_partitions ds !! vb) →
       vb ∈ dom (og_starts q))
  ∧ registry_wf (gn_registry g).

Lemma acc_ok_init live : acc_ok [] live live (mkGenerationAcc [] ∅ ∅ 0 None).
Proof.
  split; cbn [ga_streams ga_effective ga_end_seqnos ga_selection].
  - constructor.
  - symmetry. apply (left_id_L ∅ (⊎)).
  - intros vb c Hc. by rewrite lookup_empty in Hc.
  - intros vb. rewrite lookup_empty. split; [by intros [? ?]|]. by intros (? & ? & ?%elem_of_nil & _).
  - intros vb. rewrite lookup_empty. split; [by intros [? ?]|]. by intros (? & ? & ?%elem_of_nil & _).
  - split; [by intros [? ?]|done].
  - done.
Qed.

Lemma validate_opened_ok starts eff ends frozen n u :
  validate_opened_partitions starts eff ends frozen n = Ok u →
  dom eff = dom starts ∧ dom ends = dom starts.
Proof.
  unfold validate_opened_partitions. case_bool_decide as H1; [|done]. cbn [negb].
  by case_bool_decide as H2.
Qed.

Lemma acc_generation_ok grouped live0 live a registry mitigation n :
  (∀ node vb, vb ∈ default [] (grouped !! node) ↔
     vb ∈ btree_keys (og_starts q) ∧ active_node (og_topology q) vb = Ok node) →
  acc_ok (node_entries grouped) live0 live a →
  dom (ga_effective a) = dom (og_starts q) → dom (ga_end_seqnos a) = dom (og_starts q) →
  registry_wf registry →
  generation_ok (mkOpenedGeneration (ga_streams a) (ga_effective a) (ga_end_seqnos a)
    registry n mitigation).
Proof.
  intros Hg [Hst _ Heff Hdom _ _ _] Hv1 Hv2 Hwf.
  assert (∀ vb node ds, (node, ds) ∈ ga_streams a →
    is_Some (ds_partitions ds !! vb) ↔ vb ∈ dom (og_starts q)
      ∧ active_node (og_topology q) vb = Ok node) as Hserve.
  { intros vb node ds [i Hi]%list_elem_of_lookup.
    destruct (Forall2_lookup_r _ _ _ _ _ Hst Hi) as ([node' vbs] & Hl & Hn & Hs). cbn in Hn, Hs.
    subst node'. destruct Hs as [Hp _]. rewrite Hp.
    assert (grouped !! node = Some vbs) as Hgr by (by apply elem_of_node_entries, list_elem_of_lookup; eauto).
    specialize (Hg node vb). rewrite Hgr in Hg. cbn in Hg. rewrite Hg, elem_of_btree_keys, elem_of_dom.
    done. }
  assert ((ga_streams a).*1 = (node_entries grouped).*1) as Hnodes.
  { clear -Hst. induction Hst as [|g s l k [Hgs _] _ IH]; [done|]. cbn. by rewrite Hgs, IH. }
  split_and!; cbn; try done.
  - rewrite Hnodes. apply node_entries_keys.
  - intros vb Hvb. rewrite <-Hv1 in Hvb. apply elem_of_dom, Hdom in Hvb as (node & vbs & Hin & Hvb).
    assert (node ∈ (ga_streams a).*1) as Hnode
      by (rewrite Hnodes; apply (list_elem_of_fmap_2 fst _ _ Hin)).
    apply elem_of_node_entries in Hin. specialize (Hg node vb). rewrite Hin in Hg.
    apply Hg in Hvb as [Hk Ha]. exists node. split_and!; [done..|]. intros node' ds Hds.
    rewrite (Hserve vb node' ds Hds), Ha. split; [by intros [_ [= ->]]|intros ->].
    split; [|done]. by apply elem_of_dom, elem_of_btree_keys.
  - intros vb node ds Hds Hp. by apply (Hserve vb node ds Hds) in Hp as [? _].
Qed.
End Accumulate.

Section Opened.
Context `{Snappy} (to_vec : WireFilter → res string bytes).
Context (manifest_from_slice : bytes → string + WireManifest).
Context (boot : NodeId → outcome DcpConnection) (stop : NodeId → StopReply).
Context (q : OpenGenerationRequest).

Lemma node_request_ok node sel high vb c r n c' :
  node_request q node sel high vb c = (Done (Ok (r, n)), c') → request_for q vb r.
Proof using.
  unfold node_request. intros Hrun.
  apply io_bind_ok in Hrun as (h & c1 & _ & Hrun).
  apply io_bind_ok in Hrun as (log & c2 & _ & Hrun).
  apply io_bind_ok in Hrun as (start & c3 & Hstart & Hrun). injection Hstart as Hstart _.
  destruct (og_starts q !! vb) as [start'|] eqn:Hs; [|done]. injection Hstart as ->.
  apply io_bind_ok in Hrun as (frozen & c4 & Hfr & Hrun). injection Hfr as Hfr _.
  apply resolve_vbucket_request_ok in Hrun as (H1 & H2 & H3 & H4). split_and!; [done..| |].
  - exists start. split; [done|]. unfold not_beyond, start_checkpoint in *. by destruct start.
  - intros f Hf. rewrite Hf in Hfr. destruct (f !! vb) as [e|] eqn:He; [|done].
    cbn in Hfr. injection Hfr as <-. by rewrite H4.
Qed.

Lemma node_requests_ok node sel high vbs : ∀ rs n c rs' n' c',
  node_requests q node sel high vbs rs n c = (Done (Ok (rs', n')), c') →
  ∃ new, rs' = rs ++ new ∧ Forall2 (request_for q) vbs new.
Proof using.
  induction vbs as [|vb vbs IH]; intros rs n c rs' n' c' Hrun; cbn [node_requests] in Hrun.
  { injection Hrun as <- _ _. exists []. by rewrite app_nil_r. }
  apply io_bind_ok in Hrun as ([r k] & c1 & Hr & Hrun).
  apply io_bind_ok in Hrun as (m & c2 & _ & Hrun). apply IH in Hrun as (new & -> & Hall).
  exists (r :: new). cbn [fst]. rewrite <-app_assoc. split; [done|].
  constructor; [by eapply node_request_ok|done].
Qed.

Lemma resolve_selection_ok caps filter sid c sel c' :
  resolve_collection_selection manifest_from_slice caps filter sid c = (Done (Ok sel), c') →
  registry_wf (registry_new sel).
Proof using.
  intros Hrun. apply io_bind_ok in Hrun as (u & c1 & _ & Hrun).
  destruct (_ && _) in Hrun; [done|]. destruct (supports caps HfCollections).
  - apply io_bind_ok in Hrun as (m & c2 & Hm & Hrun).
    apply io_bind_ok in Hrun as (r & c3 & Hr & Hrun). injection Hr as Hr _.
    injection Hrun as <- _.
    apply io_bind_ok in Hm as (f & c4 & _ & Hm). apply io_bind_ok in Hm as (p & c5 & _ & Hm).
    injection Hm as Hm _. unfold manifest_parse in Hm.
    destruct (manifest_from_slice p) as [|w]; [done|].
    pose proof (manifest_from_wire_wf w) as Hwf. rewrite Hm in Hwf.
    by eapply registry_new_wf, manifest_resolve_ok.
  - destruct (negb _) in Hrun; [done|]. injection Hrun as <- _. apply registry_legacy_wf.
Qed.

Lemma open_on_connection_ok node vbs existing caps c ds sel n c' :
  open_on_connection to_vec manifest_from_slice q node vbs existing caps c
    = (Done (Ok (ds, sel, n)), c') →
  handler_total (og_rollback_handler q) → (∀ w, to_vec w ≠ Panic) →
  (∀ s, existing = Some s → registry_wf (registry_new s)) →
  serves q vbs ds ∧ registry_wf (registry_new sel).
Proof using.
  intros Hrun Hh Hv Hex. unfold open_on_connection in Hrun.
  apply io_bind_ok in Hrun as (sel' & c1 & Hsel & Hrun).
  assert (registry_wf (registry_new sel')) as Hwf.
  { destruct existing as [s|]; [|by eapply resolve_selection_ok].
    injection Hsel as <- _. by apply Hex. }
  clear Hsel.
  apply io_bind_ok in Hrun as (high & c2 & _ & Hrun).
  apply io_bind_ok in Hrun as ([rs k] & c3 & Hrs & Hrun).
  apply io_bind_ok in Hrun as (ds' & c4 & Ho & Hrun). injection Hrun as -> <- _ _.
  split; [|done].
  apply node_requests_ok in Hrs as (new & Heq & Hall). cbn [app] in Heq. subst new.
  cbn [fst] in Ho. apply (open_dcp_stream_spec to_vec) in Ho as (_ & _ & _ & Hok); [|done..].
  destruct (Hok ds eq_refl) as [Hin Hdom].
  assert (vr_vbucket <$> rs = vbs) as Hvbs.
  { clear -Hall. induction Hall as [|vb r vbs rs (Hvb & _) _ IH]; [done|]. cbn. by rewrite Hvb, IH. }
  rewrite Hvbs in Hdom. split_and!.
  - intros vb. apply Hdom.
  - intros vb. destruct (Hdom vb) as [Hl Hiff]. rewrite <-Hiff, Hl. by rewrite fmap_is_Some.
  - intros vb st Hl. destruct (Hdom vb) as [Hd Hiff].
    assert (vb ∈ vbs) as Hmem by (apply Hiff; rewrite Hd, Hl; by eexists).
    apply list_elem_of_lookup in Hmem as [i Hi].
    destruct (Forall2_lookup_l _ _ _ _ _ Hall Hi) as (r & Hr & Hfor).
    rewrite Forall_lookup in Hin. by eapply opened_in_partition_ok; [..|exact Hl]; [exact Hfor|eapply Hin].
Qed.

Lemma open_tokio_node_ok node vbs existing live o live' :
  handler_total (og_rollback_handler q) → (∀ w, to_vec w ≠ Panic) →
  (∀ s, existing = Some s → registry_wf (registry_new s)) →
  open_tokio_node to_vec manifest_from_slice boot q node vbs existing live = (o, live') →
  match o with
  | Done (Ok (ds, sel, _)) =>
      live' = {[+ node +]} ⊎ live ∧ serves q vbs ds ∧ registry_wf (registry_new sel)
  | _ => live' = live
  end.
Proof using.
  intros Hh Hv Hex. unfold open_tokio_node, io_bind, io_lift, io_modify, io_ret.
  destruct (ok_or (ct_endpoints (og_topology q) !! node) _) as [ep|e|]; [|by intros [= <- <-]..].
  destruct (seed_from_str (ep_address ep)) as [u|e|]; [|by intros [= <- <-]..].
  destruct (boot node) as [[b|e|]|]; [|by intros [= <- <-]..].
  destruct (open_on_connection _ _ _ _ _ _ _ (bs_connection b)) as [o1 c1] eqn:Ho.
  cbn [fst]. destruct o1 as [[[[ds sel] n]|e|]|]; [|by intros [= <- <-]..].
  intros [= <- <-]. split; [done|]. by eapply open_on_connection_ok.
Qed.

Hypothesis handler_ok : handler_total (og_rollback_handler q).
Hypothesis to_vec_ok : ∀ w, to_vec w ≠ Panic.
Hypothesis boot_ok : ∀ n, boot n ≠ Hang ∧ boot n ≠ Done Panic.

Lemma open_nodes_ok groups : ∀ seen live0 live a o live',
  acc_ok q seen live0 live a →
  open_nodes to_vec manifest_from_slice boot stop q groups a live = (o, live') →
  match o with
  | Done (Ok a') => acc_ok q (seen ++ groups) live0 live' a'
  | Done (Err _) => live' = live0
  | Done Panic => False
  | Hang => hung stop live0 live'
  end.
Proof using handler_ok to_vec_ok boot_ok.
  induction groups as [|[node vbs] groups IH]; intros seen live0 live a o live' Ha Hrun;
    cbn [open_nodes] in Hrun.
  { injection Hrun as <- <-. by rewrite app_nil_r. }
  unfold io_bind at 1, io_try in Hrun.
  destruct (open_tokio_node _ _ _ _ _ _ _ live) as [o1 live1] eqn:Hn.
  destruct (open_tokio_node_total to_vec manifest_from_slice boot q handler_ok to_vec_ok boot_ok
    node vbs (ga_selection a) live) as [Hh Hp]. rewrite Hn in Hh, Hp.
  apply open_tokio_node_ok in Hn; [|done|done|by apply (ao_registry _ _ _ _ _ Ha)].
  destruct o1 as [[[[ds sel] n]|e|]|]; try done.
  - destruct Hn as (-> & Hserve & Hwf). unfold io_bind in Hrun.
    destruct (add_node stop node a ds sel n _) as [o2 live2] eqn:Hadd.
    pose proof (add_node_ok q stop _ _ _ _ _ _ _ _ _ _ _ Ha Hserve Hwf Hadd) as Hok.
    destruct o2 as [[a'|e|]|]; [|by injection Hrun as <- <-|done|by injection Hrun as <- <-].
    assert (seen ++ (node, vbs) :: groups = (seen ++ [(node, vbs)]) ++ groups) as ->
      by (by rewrite <-app_assoc). by eapply IH.
  - subst live1. destruct Ha as [_ Hlive _ _ _ _ _]. rewrite Hlive in Hrun.
    by apply fail_generation_live in Hrun as [[-> ->]|[-> ?]].
Qed.

Lemma open_tokio_generation_spec live o live' :
  open_tokio_generation to_vec manifest_from_slice boot stop q live = (o, live') →
  match o with
  | Done (Ok g) => live' = list_to_set_disj (gn_streams g).*1 ⊎ live ∧ generation_ok q g
  | Done (Err _) => live' = live
  | Done Panic => False
  | Hang => hung stop live live'
  end.
Proof using handler_ok to_vec_ok boot_ok.
  unfold open_tokio_generation. case_bool_decide as Hemp; [by intros [= <- <-]|].
  unfold io_bind at 1, io_lift at 1.
  pose proof (grouping_by_node_spec (og_topology q) (btree_keys (og_starts q))) as Hg.
  destruct (active_vbuckets_by_node _ _) as [grouped|e|]; [|by intros [= <- <-]|done].
  destruct Hg as [Hg _]. unfold io_bind at 1.
  destruct (open_nodes _ _ _ _ _ _ _ live) as [o1 live1] eqn:Hn.
  apply (open_nodes_ok _ [] live) in Hn; [|exact (acc_ok_init q live)]. cbn [app] in Hn.
  destruct o1 as [[a|e|]|]; [|by intros [= <- <-]; subst|done|by intros [= <- <-]].
  pose proof Hn as [Hst Hlive Heff Hdom Hends Hsel Hreg]. subst live1.
  unfold io_bind at 1, io_lift at 1. destruct (ga_selection a) as [sel|]; cbn [ok_or].
  2:{ intros [= <- <-]. destruct (node_entries grouped).
      - apply Forall2_nil_inv_l in Hst. rewrite Hst. apply (left_id_L ∅ (⊎)).
      - destruct Hsel as [_ Hsel]. destruct Hsel as [? ?]; done. }
  pose proof (validate_opened_no_panic (og_starts q) (ga_effective a) (ga_end_seqnos a)
    (og_frozen_end_seqnos q) (len (ga_streams a))) as Hnp1.
  destruct (validate_opened_partitions _ _ _ _ _) as [u|e|] eqn:Hv;
    [|intros [[-> ->]|[-> ?]]%fail_generation_live; done|done].
  pose proof (spawn_no_panic (dc_rollback_mitigation (og_config q)) (og_topology q)
    (ga_effective a)) as Hnp2.
  destruct (spawn_tokio_mitigator _ _ _) as [m|e|];
    [|intros [[-> ->]|[-> ?]]%fail_generation_live; done|done].
  intros [= <- <-]. split; [done|]. apply validate_opened_ok in Hv as [Hv1 Hv2].
  eapply (acc_generation_ok q grouped); try done. by apply Hreg.
Qed.
End Opened.

(** ** Properties *)

(** C13: opening a generation is all or nothing.  With total foreign code it never panics; a
    failure at any point, on any node, shuts down every stream it had opened, one after the
    other, and is reported when none of them is left open; the call does not return only if
    the shutdown of one of these streams never answers, and then that stream and the ones
    after it are still open.  When it succeeds the open streams are exactly the ones returned,
    one per node; every assigned vBucket, and no other, is served, by the stream of its active
    node alone; its effective position is a valid one of this bucket, not beyond the requested
    start, and its end is the frozen one when the subscription has one; the collection
    registry is well formed. *)
Theorem open_generation_correct `{Snappy} to_vec manifest_from_slice boot stop q live o live' :
  handler_total (og_rollback_handler q) → (∀ w, to_vec w ≠ Panic) →
  (∀ n, boot n ≠ Hang ∧ boot n ≠ Done Panic) →
  open_tokio_generation to_vec manifest_from_slice boot stop q live = (o, live') →
  (∃ e, o = Done (Err e) ∧ live' = live)
  ∨ (∃ g, o = Done (Ok g) ∧ live' = list_to_set_disj (gn_streams g).*1 ⊎ live
      ∧ generation_ok q g)
  ∨ (o = Hang ∧ ∃ node rest, stop node = StopNever
      ∧ live' = list_to_set_disj (node :: rest) ⊎ live).
Proof.
  intros Hh Hv Hb Hrun. apply open_tokio_generation_spec in Hrun; [|done..].
  destruct o as [[g|e|]|]; [right; left; by exists g|left; by exists e|done|by right; right].
Qed.

(** A generation on one node: the checkpoint is beyond the node's high sequence number, and
    the policy rewinds before the stream request. *)
Definition sample_node : DcpConnection :=
  mkDcpConnection (mkBootstrapCapabilities [] SaslPlain [])
    (from_io "a:11210" (from_secs 1) 0
      [reply OP_GET_ALL_VB_SEQNOS STATUS_SUCCESS 1 (put_u16 0 ++ put_u64 95);
       reply OP_DCP_GET_FAILOVER_LOG STATUS_SUCCESS 2 (mjoin (failover_layout <$> sample_log));
       reply OP_DCP_STREAM_REQUEST STATUS_SUCCESS 3 (mjoin (failover_layout <$> sample_log))] []).
Definition sample_config : DcpConfig :=
  let c := builder (mkCredentials "user" "password") "bucket" in
  mkDcpConfig ["a:11210"] (dc_credentials c) (dc_bucket c) (dc_collections c) (dc_mode c)
    (dc_start_from c) (dc_listener c) (dc_flow_control c) (dc_checkpoint c)
    PolicyRewindAndReplay (dc_rollback_mitigation c) (dc_priority c)
    (dc_disable_change_streams c) (dc_connect_timeout c) (dc_tls c) (dc_network c)
    (dc_health_check c).
Definition sample_open : OpenGenerationRequest :=
  mkOpenRequest sample_config (sample_topology 1 1)
    {[ 0 := StartCheckpoint (mkCheckpoint None 0 7 100 100 100 None) ]} None None None.
Definition sample_boot : NodeId → outcome DcpConnection := λ _, Done (Ok sample_node).
Definition sample_stops : NodeId → StopReply := λ _, StopAnswered None.

Lemma open_generation_correct_witness :
  let run := open_tokio_generation (H:=stored_only) no_json (λ _, inl "no decoder") sample_boot
    sample_stops sample_open ∅ in
  ∃ g, run.1 = Done (Ok g) ∧ run.2 = {[+ "a" +]} ∧ generation_ok sample_open g
    ∧ ck_seqno <$> gn_effective_checkpoints g !! 0 = Some 95 ∧ gn_rollback_count g = 1.
Proof.
  intros run.
  destruct (open_generation_correct (H:=stored_only) no_json (λ _, inl "no decoder") sample_boot
    sample_stops sample_open ∅ run.1 run.2) as [(e & He & _)|[(g & Hg & _ & Hok)|[He _]]];
    [by intros|by intros|by split|apply surjective_pairing|vm_compute in He; discriminate He|
     |vm_compute in He; discriminate He].
  exists g. split; [exact Hg|]. split; [vm_compute; reflexivity|]. split; [exact Hok|].
  assert (Done (Ok g) = run.1) as Hr by (symmetry; exact Hg). vm_compute in Hr.
  injection Hr as ->. split; vm_compute; reflexivity.
Defined.
