(* ===== verification/Observability.v ===== *)
(** * Metrics and health ([rust-dcp-core/src/observability.rs])

    The counters are atomics that wrap around, except the rollback count, which saturates,
    and the two gauges, which are stored.  The health state never reports a poisoned lock:
    the guard is recovered from the poison error. *)
From S2P Require Import Prelude Types Event.

(** ** Counters *)
Inductive Counter : Type :=
| BootstrapAttempts | BootstrapSuccesses | BootstrapFailures | TopologyUpdates | Reconnects
| HealthChecks | HealthFailures | ActiveConnections | AssignedVbuckets | DeliveredEvents
| Mutations | Deletions | Expirations | SnapshotMarkers | SeqnoAdvancedEvents | SystemEvents
| StreamEnds | OsoSnapshots | ProcessedEvents | UnknownFrames | StreamErrors
| StaleGenerationDrops | Rollbacks | RollbackMitigationDelays | RollbackMitigationFailures.

#[export] Instance Counter_eq_dec : EqDecision Counter.
Proof. solve_decision. Defined.

(** [MetricCounters]: the value of each atomic. *)
Definition MetricCounters : Type := Counter → Z.
Definition metrics_zero : MetricCounters := λ _, 0.

Definition store (c : Counter) (v : Z) (m : MetricCounters) : MetricCounters :=
  λ d, if decide (d = c) then v else m d.
(** [fetch_add(1)] *)
Definition increment (c : Counter) (m : MetricCounters) : MetricCounters :=
  store c ((m c + 1) `mod` (u64_max + 1)) m.

Record DcpMetricsSnapshot : Type := mkMetricsSnapshot {
  dm_bootstrap_attempts : Z; dm_bootstrap_successes : Z; dm_bootstrap_failures : Z;
  dm_topology_updates : Z; dm_reconnects : Z; dm_health_checks : Z; dm_health_failures : Z;
  dm_active_connections : Z; dm_assigned_vbuckets : Z; dm_delivered_events : Z;
  dm_mutations : Z; dm_deletions : Z; dm_expirations : Z; dm_snapshot_markers : Z;
  dm_seqno_advanced_events : Z; dm_system_events : Z; dm_stream_ends : Z;
  dm_oso_snapshots : Z; dm_processed_events : Z; dm_unknown_frames : Z;
  dm_stream_errors : Z; dm_stale_generation_drops : Z; dm_rollbacks : Z;
  dm_rollback_mitigation_delays : Z; dm_rollback_mitigation_failures : Z
}.

Definition metrics_snapshot (m : MetricCounters) : DcpMetricsSnapshot :=
  mkMetricsSnapshot (m BootstrapAttempts) (m BootstrapSuccesses) (m BootstrapFailures)
    (m TopologyUpdates) (m Reconnects) (m HealthChecks) (m HealthFailures)
    (m ActiveConnections) (m AssignedVbuckets) (m DeliveredEvents) (m Mutations)
    (m Deletions) (m Expirations) (m SnapshotMarkers) (m SeqnoAdvancedEvents)
    (m SystemEvents) (m StreamEnds) (m OsoSnapshots) (m ProcessedEvents) (m UnknownFrames)
    (m StreamErrors) (m StaleGenerationDrops) (m Rollbacks) (m RollbackMitigationDelays)
    (m RollbackMitigationFailures).

Definition delivery_counter (e : DcpEvent) : Counter :=
  match e with
  | EMutation _ => Mutations
  | EDeletion _ => Deletions
  | EExpiration _ => Expirations
  | ESnapshotMarker _ => SnapshotMarkers
  | EStreamEnd _ => StreamEnds
  | ESeqNoAdvanced _ => SeqnoAdvancedEvents
  | ESystemEvent _ => SystemEvents
  | EOsoSnapshot _ => OsoSnapshots
  end.
Definition record_delivery (e : DcpEvent) (m : MetricCounters) : MetricCounters :=
  increment (delivery_counter e) (increment DeliveredEvents m).

(** [saturating_add] *)
Definition record_rollbacks (count : Z) (m : MetricCounters) : MetricCounters :=
  store Rollbacks (Z.min u64_max (m Rollbacks + Z.min u64_max count)) m.

(** ** Health *)
Inductive DcpHealthStatus : Type := Starting | Healthy | Degraded | Stopped.

#[export] Instance DcpHealthStatus_eq_dec : EqDecision DcpHealthStatus.
Proof. solve_decision. Defined.

Record DcpHealthSnapshot : Type := mkHealth {
  hl_status : DcpHealthStatus;
  hl_last_check : option Z;
  hl_consecutive_failures : Z;
  hl_active_connections : Z;
  hl_topology_generation : Z;
  hl_message : option string
}.

Definition health_default : DcpHealthSnapshot := mkHealth Starting None 0 0 0 None.

Definition record_success (checked_at active_connections topology_generation : Z)
    (h : DcpHealthSnapshot) : DcpHealthSnapshot :=
  mkHealth Healthy (Some checked_at) 0 active_connections topology_generation None.

Definition record_failure (checked_at : Z) (message : string) (h : DcpHealthSnapshot)
    : DcpHealthSnapshot :=
  mkHealth Degraded (Some checked_at) (Z.min u64_max (hl_consecutive_failures h + 1))
    (hl_active_connections h) (hl_topology_generation h) (Some message).

Definition record_stopped (checked_at : Z) (h : DcpHealthSnapshot) : DcpHealthSnapshot :=
  mkHealth Stopped (Some checked_at) (hl_consecutive_failures h) 0 (hl_topology_generation h)
    (Some "client stopped").
