(* ===== verification/Client.v ===== *)
(** * The client's subscription runtime ([rust-dcp-core/src/client.rs], second part)

    One task supervises the generations of a subscription: it drives the streams of the
    current generation, sends tracked events to the application, and after a failure or a
    topology change shuts the generation down, takes a new connection generation and opens
    it at the processed positions.  The application polls and acknowledges, and the health
    task applies newer topologies, at any time in between.

    The task's awaits are the constructors of [Phase]; [client_step] executes, for an input
    of the environment, the code from one await to the next, and the other tasks' calls.
    [None] is an input that cannot happen there. *)
From stdpp Require Import gmultiset.
From S2P Require Import Prelude Text Types Frame Codec Dcp Command Errors Event Checkpoint.
From S2P Require Import Assignment Config Async Transport Topology Cccp Settings Mitigation.
From S2P Require Import Stream Bootstrap Collections Worker CheckpointRuntime Observability.
From S2P Require Import Generation.

Definition INITIAL_RECONNECT_BACKOFF : Duration := from_millis 100.
Definition MAX_RECONNECT_BACKOFF : Duration := from_secs 5.

Record TopologySnapshot : Type := mkTopologySnapshot {
  tn_generation : Z;
  tn_topology : ClusterTopology
}.

(** ** Classification *)
Definition is_retryable (e : DcpError) : bool :=
  match e with
  | DcpIo _ | Timeout _ | DeadConnection _ _ | Topology _ | StreamError _ _ | Cancelled => true
  | _ => false
  end.

Definition document_cas (e : DcpEvent) : option Z :=
  match e with
  | EMutation e => Some (Event.mut_cas e)
  | EDeletion e => Some (Event.del_cas e)
  | EExpiration e => Some (Event.exp_cas e)
  | _ => None
  end.

(** A cut-off before the epoch skips nothing. *)
Definition document_is_before_listener_cutoff (config : DcpConfig) (e : DcpEvent) : bool :=
  match lc_skip_until (dc_listener config), document_cas e with
  | Some skip_until, Some cas =>
      (0 <=? skip_until) && (from_secs (cas / 1000000000) <? skip_until)
  | _, _ => false
  end.

Definition next_backoff (backoff : Duration) : Duration :=
  Z.min (backoff * 2) MAX_RECONNECT_BACKOFF.

Definition combine_generation_shutdown (streams mitigation : result unit) : result unit :=
  match streams, mitigation with
  | Ok _, Ok _ => Ok tt
  | Ok _, other => other
  | other, _ => other
  end.

(** ** Deliveries *)
Record DcpDelivery : Type := mkDelivery {
  dl_tracked : TrackedEvent;
  dl_connection_generation : Z;
  dl_assignment_generation : Z
}.
Record ManagedOutput : Type := mkOutput {
  mo_generation : Z;
  mo_item : result DcpDelivery
}.

Inductive GenerationAction : Type :=
| GaStop
| GaComplete
| GaReopen (s : TopologySnapshot)
| GaReconnect
| GaFatal (e : DcpError)
| GaRefused (e : DcpError).

(** ** The supervising task's await points *)
Inductive Phase : Type :=
| PhDrive
| PhGate (e : DcpEvent)
| PhSend (o : ManagedOutput)
| PhPublish (s : TopologySnapshot)
| PhShutdown (a : GenerationAction)
| PhReopen (s : TopologySnapshot) (backoff : Duration)
| PhOpening (s : TopologySnapshot) (backoff : Duration) (starts : gmap Z StartPosition)
| PhBackoff (s : TopologySnapshot) (backoff : Duration)
| PhNotify (e : DcpError)
| PhFlush (e : option DcpError)
| PhDone (r : result unit).

(** What a subscription was created with. *)
Record SubscriptionSettings : Type := mkSubscriptionSettings {
  ss_config : DcpConfig;
  ss_bucket_uuid : string;
  ss_stream_id : option Z;
  ss_handler : Handler;
  ss_assignment_generation : Z;
  ss_frozen_end_seqnos : gmap Z Z
}.

(** The health task's await points: between two checks, while a probe that began at a time
    is under way, and between accepting a topology and publishing it. *)
Inductive HealthPhase : Type :=
| HpSleep
| HpProbe (checked_at : Z)
| HpPublish (s : TopologySnapshot) (checked_at : Z)
| HpEnded (panicked : bool).

(** What the tasks of a client share: the handles of [ClientInner] that every task holds a
    clone of, the health task's await point, and the node streams that are open. *)
Record Shared : Type := mkShared {
  sh_topology : TopologyState;
  sh_published : TopologySnapshot;
  sh_health_task : HealthPhase;
  sh_metrics : MetricCounters;
  sh_health : DcpHealthSnapshot;
  sh_global_cancel : bool;
  sh_active : bool;
  sh_live : Fleet
}.
Definition set_topology (x : TopologyState) (h : Shared) : Shared :=
  mkShared x (sh_published h) (sh_health_task h) (sh_metrics h) (sh_health h)
    (sh_global_cancel h) (sh_active h) (sh_live h).
Definition set_published (x : TopologySnapshot) (h : Shared) : Shared :=
  mkShared (sh_topology h) x (sh_health_task h) (sh_metrics h) (sh_health h)
    (sh_global_cancel h) (sh_active h) (sh_live h).
Definition set_health_task (x : HealthPhase) (h : Shared) : Shared :=
  mkShared (sh_topology h) (sh_published h) x (sh_metrics h) (sh_health h) (sh_global_cancel
    h) (sh_active h) (sh_live h).
Definition set_metrics (x : MetricCounters) (h : Shared) : Shared :=
  mkShared (sh_topology h) (sh_published h) (sh_health_task h) x (sh_health h)
    (sh_global_cancel h) (sh_active h) (sh_live h).
Definition set_health (x : DcpHealthSnapshot) (h : Shared) : Shared :=
  mkShared (sh_topology h) (sh_published h) (sh_health_task h) (sh_metrics h) x
    (sh_global_cancel h) (sh_active h) (sh_live h).
Definition set_global_cancel (x : bool) (h : Shared) : Shared :=
  mkShared (sh_topology h) (sh_published h) (sh_health_task h) (sh_metrics h) (sh_health h)
    x (sh_active h) (sh_live h).
Definition set_active (x : bool) (h : Shared) : Shared :=
  mkShared (sh_topology h) (sh_published h) (sh_health_task h) (sh_metrics h) (sh_health h)
    (sh_global_cancel h) x (sh_live h).
Definition set_live (x : Fleet) (h : Shared) : Shared :=
  mkShared (sh_topology h) (sh_published h) (sh_health_task h) (sh_metrics h) (sh_health h)
    (sh_global_cancel h) (sh_active h) x.

(** The shared state as the supervising task sees it, and the task's own. *)
Record Subscription : Type := mkSubscription {
  sb_settings : SubscriptionSettings;
  sb_shared : Shared;
  sb_snapshot : TopologySnapshot;
  sb_coordinator : CoordinatorState;
  sb_registry : CollectionRegistry;
  sb_generation : Z;
  sb_channel : list ManagedOutput;
  sb_receiver_open : bool;
  sb_local_cancel : bool;
  sb_streams : list (NodeId * DcpStream);
  sb_mitigating : bool;
  sb_phase : Phase
}.
Definition sb_topology (s : Subscription) : TopologyState := sh_topology (sb_shared s).
Definition sb_published (s : Subscription) : TopologySnapshot := sh_published (sb_shared s).
Definition sb_health_task (s : Subscription) : HealthPhase := sh_health_task (sb_shared s).
Definition sb_metrics (s : Subscription) : MetricCounters := sh_metrics (sb_shared s).
Definition sb_health (s : Subscription) : DcpHealthSnapshot := sh_health (sb_shared s).
Definition sb_global_cancel (s : Subscription) : bool := sh_global_cancel (sb_shared s).
Definition sb_active (s : Subscription) : bool := sh_active (sb_shared s).
Definition sb_live (s : Subscription) : Fleet := sh_live (sb_shared s).

(** Field assignments. *)
Definition put_shared (x : Shared) (s : Subscription) : Subscription :=
  mkSubscription (sb_settings s) x (sb_snapshot s) (sb_coordinator s) (sb_registry s)
    (sb_generation s) (sb_channel s) (sb_receiver_open s) (sb_local_cancel s) (sb_streams s)
    (sb_mitigating s) (sb_phase s).
Definition put_topology (x : TopologyState) (s : Subscription) : Subscription :=
  put_shared (set_topology x (sb_shared s)) s.
Definition put_published (x : TopologySnapshot) (s : Subscription) : Subscription :=
  put_shared (set_published x (sb_shared s)) s.
Definition put_health_task (x : HealthPhase) (s : Subscription) : Subscription :=
  put_shared (set_health_task x (sb_shared s)) s.
Definition put_metrics (x : MetricCounters) (s : Subscription) : Subscription :=
  put_shared (set_metrics x (sb_shared s)) s.
Definition put_health (x : DcpHealthSnapshot) (s : Subscription) : Subscription :=
  put_shared (set_health x (sb_shared s)) s.
Definition put_global_cancel (x : bool) (s : Subscription) : Subscription :=
  put_shared (set_global_cancel x (sb_shared s)) s.
Definition put_active (x : bool) (s : Subscription) : Subscription :=
  put_shared (set_active x (sb_shared s)) s.
Definition put_live (x : Fleet) (s : Subscription) : Subscription :=
  put_shared (set_live x (sb_shared s)) s.
Definition put_snapshot (x : TopologySnapshot) (s : Subscription) : Subscription :=
  mkSubscription (sb_settings s) (sb_shared s) x (sb_coordinator s) (sb_registry s)
    (sb_generation s) (sb_channel s) (sb_receiver_open s) (sb_local_cancel s) (sb_streams s)
    (sb_mitigating s) (sb_phase s).
Definition put_coordinator (x : CoordinatorState) (s : Subscription) : Subscription :=
  mkSubscription (sb_settings s) (sb_shared s) (sb_snapshot s) x (sb_registry s)
    (sb_generation s) (sb_channel s) (sb_receiver_open s) (sb_local_cancel s) (sb_streams s)
    (sb_mitigating s) (sb_phase s).
Definition put_registry (x : CollectionRegistry) (s : Subscription) : Subscription :=
  mkSubscription (sb_settings s) (sb_shared s) (sb_snapshot s) (sb_coordinator s) x
    (sb_generation s) (sb_channel s) (sb_receiver_open s) (sb_local_cancel s) (sb_streams s)
    (sb_mitigating s) (sb_phase s).
Definition put_generation (x : Z) (s : Subscription) : Subscription :=
  mkSubscription (sb_settings s) (sb_shared s) (sb_snapshot s) (sb_coordinator s)
    (sb_registry s) x (sb_channel s) (sb_receiver_open s) (sb_local_cancel s) (sb_streams s)
    (sb_mitigating s) (sb_phase s).
Definition put_channel (x : list ManagedOutput) (s : Subscription) : Subscription :=
  mkSubscription (sb_settings s) (sb_shared s) (sb_snapshot s) (sb_coordinator s)
    (sb_registry s) (sb_generation s) x (sb_receiver_open s) (sb_local_cancel s) (sb_streams s)
    (sb_mitigating s) (sb_phase s).
Definition put_receiver_open (x : bool) (s : Subscription) : Subscription :=
  mkSubscription (sb_settings s) (sb_shared s) (sb_snapshot s) (sb_coordinator s)
    (sb_registry s) (sb_generation s) (sb_channel s) x (sb_local_cancel s) (sb_streams s)
    (sb_mitigating s) (sb_phase s).
Definition put_local_cancel (x : bool) (s : Subscription) : Subscription :=
  mkSubscription (sb_settings s) (sb_shared s) (sb_snapshot s) (sb_coordinator s)
    (sb_registry s) (sb_generation s) (sb_channel s) (sb_receiver_open s) x (sb_streams s)
    (sb_mitigating s) (sb_phase s).
Definition put_streams (x : list (NodeId * DcpStream)) (s : Subscription) : Subscription :=
  mkSubscription (sb_settings s) (sb_shared s) (sb_snapshot s) (sb_coordinator s)
    (sb_registry s) (sb_generation s) (sb_channel s) (sb_receiver_open s) (sb_local_cancel s) x
    (sb_mitigating s) (sb_phase s).
Definition put_mitigating (x : bool) (s : Subscription) : Subscription :=
  mkSubscription (sb_settings s) (sb_shared s) (sb_snapshot s) (sb_coordinator s)
    (sb_registry s) (sb_generation s) (sb_channel s) (sb_receiver_open s) (sb_local_cancel s)
    (sb_streams s) x (sb_phase s).
Definition put_phase (x : Phase) (s : Subscription) : Subscription :=
  mkSubscription (sb_settings s) (sb_shared s) (sb_snapshot s) (sb_coordinator s)
    (sb_registry s) (sb_generation s) (sb_channel s) (sb_receiver_open s) (sb_local_cancel s)
    (sb_streams s) (sb_mitigating s) x.

Definition shared_count (c : Counter) (h : Shared) : Shared :=
  set_metrics (increment c (sh_metrics h)) h.
Definition shared_gauge (c : Counter) (v : Z) (h : Shared) : Shared :=
  set_metrics (store c v (sh_metrics h)) h.
Definition shared_failure (now : Z) (e : DcpError) (h : Shared) : Shared :=
  set_health (record_failure now (dcp_error_to_string e) (sh_health h)) h.
Definition count (c : Counter) (s : Subscription) : Subscription :=
  put_shared (shared_count c (sb_shared s)) s.
Definition gauge (c : Counter) (v : Z) (s : Subscription) : Subscription :=
  put_shared (shared_gauge c v (sb_shared s)) s.
Definition health_failure (now : Z) (e : DcpError) (s : Subscription) : Subscription :=
  put_shared (shared_failure now e (sb_shared s)) s.

(** [*global_cancel.borrow() || *local_cancel.borrow()] *)
Definition cancelled (s : Subscription) : bool := sb_global_cancel s || sb_local_cancel s.
(** The published topology, when it is newer than [than]. *)
Definition newer_topology (than : TopologySnapshot) (s : Subscription)
    : option TopologySnapshot :=
  if tn_generation than <? tn_generation (sb_published s) then Some (sb_published s) else None.

(** A panic unwinds through the guard that releases the subscription. *)
Definition finish_task (r : result unit) (s : Subscription) : Subscription :=
  put_phase (PhDone r) (gauge AssignedVbuckets 0 (gauge ActiveConnections 0 (put_active false s))).

(** ** Topology candidates *)

(** [apply_topology_candidate] up to the end of its lock section; the accepted topology is
    published after the lock is released. *)
Definition apply_topology_candidate (candidate : ClusterTopology) (h : Shared)
    : result (option TopologySnapshot) * Shared :=
  match topology_apply candidate (sh_topology h) with
  | (Err e, t) => (Err e, set_topology t h)
  | (Panic, t) => (Panic, set_topology t h)
  | (Ok None, t) => (Ok None, set_topology t h)
  | (Ok (Some change), t) =>
      (Ok (Some (mkTopologySnapshot (tc_generation change) (ts_topology t))), set_topology t h)
  end.

(** [sender.send_replace(snapshot)] *)
Definition publish_topology (snapshot : TopologySnapshot) (h : Shared) : Shared :=
  set_published snapshot (shared_count TopologyUpdates h).

Definition health_success (checked_at : Z) (h : Shared) : Shared :=
  set_health (record_success checked_at (sh_metrics h ActiveConnections)
    (tn_generation (sh_published h)) (sh_health h)) h.

(** [run_health_checks] when its sleep or its cancellation ends the select: a cancelled task
    returns, otherwise a probe begins. *)
Definition health_wake (now : Z) (h : Shared) : option Shared :=
  match sh_health_task h with
  | HpSleep =>
      Some (if sh_global_cancel h then set_health_task (HpEnded false) h
            else set_health_task (HpProbe now) (shared_count HealthChecks h))
  | _ => None
  end.
(** The end of the probe, up to the publication: [probe] is what discovery yields before the
    deadline. *)
Definition health_round (config : DcpConfig) (probe : option (result ClusterTopology))
    (h : Shared) : option Shared :=
  match sh_health_task h with
  | HpProbe checked_at =>
      let failed e h := set_health_task HpSleep (shared_failure checked_at e
        (shared_count BootstrapFailures (shared_count HealthFailures h))) in
      Some match probe with
      | None => failed (Timeout (hc_timeout (dc_health_check config))) h
      | Some (Err e) => failed e h
      | Some Panic => set_health_task (HpEnded true) h
      | Some (Ok candidate) =>
          match apply_topology_candidate candidate h with
          | (Err e, h) => failed e h
          | (Panic, h) => set_health_task (HpEnded true) h
          | (Ok None, h) => set_health_task HpSleep (health_success checked_at h)
          | (Ok (Some snapshot), h) => set_health_task (HpPublish snapshot checked_at) h
          end
      end
  | _ => None
  end.
Definition health_publish (h : Shared) : option Shared :=
  match sh_health_task h with
  | HpPublish snapshot checked_at =>
      Some (set_health_task HpSleep (health_success checked_at (publish_topology snapshot h)))
  | _ => None
  end.

(** ** Driving a generation *)
Section Client.
Context (cccp_from_slice : bytes → string + RawBucketConfig).

Definition shutdown_for (a : GenerationAction) : Subscription → Subscription :=
  put_phase (PhShutdown a).

(** [handle_stream_item] once the event may be delivered: events before the listener's
    cut-off are tracked and acknowledged at once, all others are named, tracked and sent. *)
Definition deliver_event (e : DcpEvent) (s : Subscription) : Subscription :=
  if document_is_before_listener_cutoff (ss_config (sb_settings s)) e then
    match track_event e (sb_coordinator s) with
    | (Err error, c) => shutdown_for (GaFatal error) (put_coordinator c s)
    | (Panic, c) => finish_task Panic (put_coordinator c s)
    | (Ok tracked, c) =>
        match tracked_acknowledge tracked c with
        | (Err error, c) => shutdown_for (GaFatal error) (put_coordinator c s)
        | (Panic, c) => finish_task Panic (put_coordinator c s)
        | (Ok _, c) => put_phase PhDrive (put_coordinator c s)
        end
    end
  else
    match decorate e (sb_registry s) with
    | (Err error, g) => shutdown_for (GaFatal error) (put_registry g s)
    | (Panic, g) => finish_task Panic (put_registry g s)
    | (Ok e, g) =>
        let s := put_registry g s in
        match track_event e (sb_coordinator s) with
        | (Err error, c) => shutdown_for (GaFatal error) (put_coordinator c s)
        | (Panic, c) => finish_task Panic (put_coordinator c s)
        | (Ok tracked, c) =>
            put_phase (PhSend (mkOutput (sb_generation s)
              (Ok (mkDelivery tracked (sb_generation s)
                     (ss_assignment_generation (sb_settings s))))))
              (put_coordinator c s)
        end
    end.

Definition handle_stream_item (now : Z) (item : result DcpStreamItem) (s : Subscription)
    : Subscription :=
  match item with
  | Ok (ItemEvent e) =>
      if sb_mitigating s && bool_decide (is_Some (mitigation_position e)) then
        put_phase (PhGate e) s
      else deliver_event e s
  | Ok (ItemUnknown _) => put_phase PhDrive (count UnknownFrames s)
  | Ok (ItemTopologyConfig source payload) =>
      match from_json cccp_from_slice payload source
              (tls_enabled (dc_tls (ss_config (sb_settings s))))
              (dc_network (ss_config (sb_settings s))) with
      | Err error => shutdown_for (GaFatal error) s
      | Panic => finish_task Panic s
      | Ok candidate =>
          let '(r, h) := apply_topology_candidate candidate (sb_shared s) in
          let s := put_shared h s in
          match r with
          | Ok (Some snapshot) => put_phase (PhPublish snapshot) s
          | Ok None => put_phase PhDrive s
          | Err error => shutdown_for (GaFatal error) s
          | Panic => finish_task Panic s
          end
      end
  | Err error =>
      shutdown_for (if is_retryable error then GaReconnect else GaFatal error)
        (health_failure now error (count StreamErrors s))
  | Panic => finish_task Panic s
  end.

(** What the streams yield: nothing before a wake-up, the end of all of them, or an item. *)
Inductive Polled : Type :=
| PolledNothing
| PolledEnd
| PolledItem (item : result DcpStreamItem).

(** A round of [drive_generation]: cancellation, then a newer topology, then the streams. *)
Definition drive_round (now : Z) (p : Polled) (s : Subscription) : Subscription :=
  if cancelled s then shutdown_for GaStop s
  else
    match newer_topology (sb_snapshot s) s with
    | Some latest => shutdown_for (GaReopen latest) s
    | None =>
        match p with
        | PolledNothing => s
        | PolledEnd =>
            shutdown_for (match dc_mode (ss_config (sb_settings s)) with
                          | Finite => GaComplete
                          | Infinite => GaReconnect
                          end) s
        | PolledItem item => handle_stream_item now item s
        end
    end.

(** The end of the wait of [wait_for_mitigation]: a cancellation, a change of the topology
    channel, or the gate's answer. *)
Inductive GateEnd : Type :=
| GateCancelled
| GateTopology
| GateAnswer (m : MitigationSnapshot) (expired : bool) (wakes : list Wake).

Definition gate_round (now : Z) (w : GateEnd) (e : DcpEvent) (s : Subscription)
    : option Subscription :=
  match w with
  | GateCancelled => if cancelled s then Some (shutdown_for GaStop s) else None
  | GateTopology =>
      Some match newer_topology (sb_snapshot s) s with
           | Some snapshot => shutdown_for (GaReopen snapshot) s
           | None => shutdown_for GaReconnect s
           end
  | GateAnswer m expired wakes =>
      match mitigation_position e with
      | None => None
      | Some (vbucket, seqno) =>
          if cancelled s || bool_decide (is_Some (newer_topology (sb_snapshot s) s)) then None
          else
          match wait_until_safe
                  (rm_maximum_stall (dc_rollback_mitigation (ss_config (sb_settings s))))
                  vbucket seqno m expired wakes with
          | Hang => None
          | Done (Ok delayed) =>
              Some (deliver_event e (if delayed then count RollbackMitigationDelays s else s))
          | Done (Err error) =>
              Some (shutdown_for (GaFatal error)
                (health_failure now error (count RollbackMitigationFailures s)))
          | Done Panic => Some (finish_task Panic s)
          end
      end
  end.

Definition queue_capacity (s : Subscription) : Z :=
  fc_event_queue_capacity (dc_flow_control (ss_config (sb_settings s))).

(** The branches of [send_output]: a reserved slot, a dropped receiver, or a wake-up. *)
Inductive SendEnd : Type := SendReserved | SendClosed | SendWake.

Definition send_round (w : SendEnd) (o : ManagedOutput) (s : Subscription)
    : option Subscription :=
  match w with
  | SendReserved =>
      if sb_receiver_open s && (len (sb_channel s) <? queue_capacity s)
      then Some (put_phase PhDrive (put_channel (sb_channel s ++ [o]) s)) else None
  | SendClosed => if sb_receiver_open s then None else Some (shutdown_for GaStop s)
  | SendWake =>
      Some (if cancelled s then shutdown_for GaStop s
            else match newer_topology (sb_snapshot s) s with
                 | Some snapshot => shutdown_for (GaReopen snapshot) s
                 | None => s
                 end)
  end.

(** ** Between generations *)

(** [finish_subscription] up to its first await. *)
Definition finish (terminal : option DcpError) (s : Subscription) : Subscription :=
  match terminal with
  | Some error => if cancelled s then put_phase (PhFlush (Some error)) s
                  else put_phase (PhNotify error) s
  | None => put_phase (PhFlush None) s
  end.

(** [reopen_generation] up to its loop: a newer published topology is taken over and the
    connection generation advances, which makes every queued delivery stale. *)
Definition begin_reopen (snapshot : TopologySnapshot) (s : Subscription) : Subscription :=
  let snapshot := default snapshot (newer_topology snapshot s) in
  match checked_add u64_max (sb_generation s) 1 with
  | None => finish (Some (StreamError 0 "connection generation overflow")) s
  | Some generation =>
      put_phase (PhReopen snapshot INITIAL_RECONNECT_BACKOFF)
        (count Reconnects (put_generation generation s))
  end.

Definition record_reopen_shutdown_failure (now : Z) (r : result unit) (s : Subscription)
    : Subscription :=
  match r with
  | Err error => health_failure now error (count StreamErrors s)
  | _ => s
  end.

(** [run_subscription] after [drive_generation]: the streams and the mitigation are shut
    down, then the action is taken.  For a reopened generation that was refused, the end of
    [accept_reopened_generation], the errors of the shutdown are only logged; its streams were
    never counted. *)
Definition shutdown_generation (now : Z) (streams mitigation : result unit)
    (action : GenerationAction) (s : Subscription) : Subscription :=
  let s := gauge ActiveConnections 0 (put_mitigating false (put_streams []
    (put_live (sb_live s ∖ list_to_set_disj (sb_streams s).*1) s))) in
  let r := combine_generation_shutdown streams mitigation in
  match action with
  | GaStop | GaComplete =>
      match r with
      | Err error => finish (Some error) (health_failure now error (count StreamErrors s))
      | _ => finish None s
      end
  | GaFatal error => finish (Some error) (health_failure now error (count StreamErrors s))
  | GaRefused error => finish (Some error) s
  | GaReconnect =>
      let s := record_reopen_shutdown_failure now r s in begin_reopen (sb_published s) s
  | GaReopen snapshot => begin_reopen snapshot (record_reopen_shutdown_failure now r s)
  end.

(** The top of the reopen loop: the processed positions are read for the next attempt. *)
Definition reopen_attempt (snapshot : TopologySnapshot) (backoff : Duration) (s : Subscription)
    : Subscription :=
  if cancelled s then finish None s
  else
    match processed_checkpoints (sb_coordinator s) with
    | Err error => finish (Some error) s
    | Panic => finish_task Panic s
    | Ok checkpoints =>
        put_phase (PhOpening snapshot backoff (StartCheckpoint <$> checkpoints)) s
    end.

(** The request of an attempt. *)
Definition reopen_request (snapshot : TopologySnapshot) (starts : gmap Z StartPosition)
    (s : Subscription) : OpenGenerationRequest :=
  mkOpenRequest (ss_config (sb_settings s)) (tn_topology snapshot) starts
    (Some (ss_frozen_end_seqnos (sb_settings s))) (ss_stream_id (sb_settings s))
    (ss_handler (sb_settings s)).

(** The streams of an opened generation are the task's. *)
Definition own_streams (opened : OpenedGeneration) (s : Subscription) : Subscription :=
  put_mitigating (bool_decide (is_Some (gn_mitigation opened)))
    (put_streams (gn_streams opened)
       (put_live (list_to_set_disj (gn_streams opened).*1 ⊎ sb_live s) s)).
(** A generation that does not fit is shut down again. *)
Definition refuse_generation (error : DcpError) (opened : OpenedGeneration) (s : Subscription)
    : Subscription :=
  put_phase (PhShutdown (GaRefused error)) (own_streams opened s).

Definition accept_reopened_generation (now : Z) (snapshot : TopologySnapshot)
    (starts : gmap Z StartPosition) (opened : OpenedGeneration) (s : Subscription)
    : Subscription :=
  match validate_opened_partitions starts (gn_effective_checkpoints opened)
          (gn_end_seqnos opened) (Some (ss_frozen_end_seqnos (sb_settings s)))
          (len (gn_streams opened)) with
  | Err error => refuse_generation error opened s
  | Panic => finish_task Panic s
  | Ok _ =>
      match rebase_partitions (ss_bucket_uuid (sb_settings s))
              (gn_effective_checkpoints opened) (sb_coordinator s) with
      | (Err error, c) => refuse_generation error opened (put_coordinator c s)
      | (Panic, c) => finish_task Panic (put_coordinator c s)
      | (Ok _, c) =>
          let connections := len (gn_streams opened) in
          let s := put_registry (gn_registry opened) (put_coordinator c s) in
          let s := put_metrics (record_rollbacks (gn_rollback_count opened) (sb_metrics s)) s in
          let s := gauge ActiveConnections connections s in
          let s := put_health (record_success now connections (tn_generation snapshot)
                     (sb_health s)) s in
          put_phase PhDrive (put_snapshot snapshot (own_streams opened s))
      end
  end.

(** The end of an attempt: its result, or a wake-up that drops it. *)
Inductive OpenEnd : Type :=
| OpenResult (r : result OpenedGeneration)
| OpenWake.

Definition open_round (now : Z) (w : OpenEnd) (snapshot : TopologySnapshot)
    (backoff : Duration) (starts : gmap Z StartPosition) (s : Subscription) : Subscription :=
  match w with
  | OpenResult (Ok opened) => accept_reopened_generation now snapshot starts opened s
  | OpenResult (Err error) =>
      if is_retryable error then
        put_phase (PhBackoff snapshot backoff) (health_failure now error (count StreamErrors s))
      else finish (Some error) s
  | OpenResult Panic => finish_task Panic s
  | OpenWake =>
      if cancelled s then finish None s
      else put_phase (PhReopen (default snapshot (newer_topology snapshot s)) backoff) s
  end.

(** The end of the back-off sleep. *)
Definition backoff_round (elapsed : bool) (snapshot : TopologySnapshot) (backoff : Duration)
    (s : Subscription) : Subscription :=
  if elapsed then put_phase (PhReopen snapshot (next_backoff backoff)) s
  else if cancelled s then finish None s
  else put_phase (PhReopen (default snapshot (newer_topology snapshot s))
         (next_backoff backoff)) s.

(** ** The end of the subscription *)

(** The terminal error is sent as the last item, unless a cancellation, or the receiver's
    end, comes first. *)
Definition notify_round (sent : bool) (error : DcpError) (s : Subscription)
    : option Subscription :=
  let next := put_phase (PhFlush (Some (StreamError 0 (dcp_error_to_string error)))) in
  if sent then
    if negb (cancelled s) && sb_receiver_open s && (len (sb_channel s) <? queue_capacity s) then
      Some (next (put_channel (sb_channel s ++ [mkOutput (sb_generation s) (Err error)]) s))
    else None
  else if cancelled s || negb (sb_receiver_open s) then Some (next s) else None.

(** [CheckpointCoordinator::shutdown], the join of its scheduler and the final flush, and
    what the task returns. *)
Definition flush_round (now : Z) (scheduler : option string) (gate : bool)
    (save : list DcpCheckpoint → SaveReply) (elapsed : Duration)
    (return_error : option DcpError) (s : Subscription) : Subscription :=
  let '(r, c) :=
    match scheduler with
    | Some error =>
        (Err (Checkpoint ("checkpoint scheduler task failed: " +:+ error)), sb_coordinator s)
    | None => flush (cc_timeout (Settings.dc_checkpoint (ss_config (sb_settings s)))) gate save
                elapsed (sb_coordinator s)
    end in
  let s := put_coordinator c s in
  match return_error, r with
  | _, Panic => finish_task Panic s
  | Some error, Err e => finish_task (Err error) (health_failure now e s)
  | Some error, Ok _ => finish_task (Err error) s
  | None, Err e => finish_task (Err e) (health_failure now e s)
  | None, Ok _ =>
      finish_task (Ok tt) (put_health (record_success now 0 (tn_generation (sb_published s))
        (sb_health s)) s)
  end.

(** ** The application *)

(** [poll_next] on one queued output: outputs of an earlier generation are dropped. *)
Definition poll_output (s : Subscription) : option (option (result DcpDelivery) * Subscription) :=
  match sb_channel s with
  | [] => None
  | o :: rest =>
      let s := put_channel rest s in
      if negb (mo_generation o =? sb_generation s) then
        Some (None, count StaleGenerationDrops s)
      else
        Some (Some (mo_item o),
              match mo_item o with
              | Ok d => put_metrics (record_delivery (te_event (dl_tracked d)) (sb_metrics s)) s
              | _ => s
              end)
  end.

(** [DcpDelivery::mark_processed] *)
Definition mark_processed (d : DcpDelivery) (s : Subscription)
    : result (option AckOutcome) * Subscription :=
  let '(r, c) := tracked_acknowledge (dl_tracked d) (sb_coordinator s) in
  let s := put_coordinator c s in
  match r with
  | Ok outcome => (Ok outcome, count ProcessedEvents s)
  | r => (r, s)
  end.

(** ** The steps *)
Inductive Input : Type :=
| InDrive (p : Polled)
| InGate (w : GateEnd)
| InSend (w : SendEnd)
| InPublish
| InShutdown (streams mitigation : result unit)
| InReopen
| InOpen (w : OpenEnd)
| InBackoff (elapsed : bool)
| InNotify (sent : bool)
| InFlush (scheduler : option string) (gate : bool) (save : list DcpCheckpoint → SaveReply) (elapsed : Duration)
| InPoll
| InProcessed (d : DcpDelivery)
| InAppFlush (gate : bool) (save : list DcpCheckpoint → SaveReply) (elapsed : Duration)
| InClose (drop : bool)
| InClientClose
| InHealthWake
| InHealth (probe : option (result ClusterTopology))
| InHealthPublish.

(** What the application observes of a step. *)
Inductive Label : Type :=
| Silent
| Yielded (item : result DcpDelivery).

Definition silently (s : Subscription) : option (Label * Subscription) := Some (Silent, s).
Definition shares (s : Subscription) (h : Shared) : Label * Subscription :=
  (Silent, put_shared h s).

Definition client_step (now : Z) (i : Input) (s : Subscription)
    : option (Label * Subscription) :=
  match i, sb_phase s with
  | InDrive p, PhDrive => silently (drive_round now p s)
  | InGate w, PhGate e => (Silent,.) <$> gate_round now w e s
  | InSend w, PhSend o => (Silent,.) <$> send_round w o s
  | InPublish, PhPublish snapshot =>
      silently (shutdown_for (GaReopen snapshot)
        (put_shared (publish_topology snapshot (sb_shared s)) s))
  | InShutdown streams mitigation, PhShutdown a =>
      silently (shutdown_generation now streams mitigation a s)
  | InReopen, PhReopen snapshot backoff => silently (reopen_attempt snapshot backoff s)
  | InOpen w, PhOpening snapshot backoff starts =>
      silently (open_round now w snapshot backoff starts s)
  | InBackoff elapsed, PhBackoff snapshot backoff =>
      silently (backoff_round elapsed snapshot backoff s)
  | InNotify sent, PhNotify error => (Silent,.) <$> notify_round sent error s
  | InFlush scheduler gate save elapsed, PhFlush error =>
      silently (flush_round now scheduler gate save elapsed error s)
  | InPoll, _ =>
      if sb_receiver_open s then
        (λ '(y, s), (match y with Some item => Yielded item | None => Silent end, s))
          <$> poll_output s
      else None
  | InProcessed d, _ => silently (mark_processed d s).2
  | InAppFlush gate save elapsed, _ =>
      silently (put_coordinator (flush (cc_timeout (Settings.dc_checkpoint (ss_config (sb_settings s))))
        gate save elapsed (sb_coordinator s)).2 s)
  | InClose drop, _ =>
      silently (put_local_cancel true
        (if drop then put_receiver_open false (put_channel [] s) else s))
  | InClientClose, _ => silently (put_global_cancel true s)
  | InHealthWake, _ => shares s <$> health_wake now (sb_shared s)
  | InHealth probe, _ => shares s <$> health_round (ss_config (sb_settings s)) probe (sb_shared s)
  | InHealthPublish, _ => shares s <$> health_publish (sb_shared s)
  | _, _ => None
  end.
End Client.

(** ** Starting a subscription *)
Definition resolve_assignment (mode : AssignmentMode) (t : ClusterTopology)
    : result (list Z * Z) :=
  let? assigned :=
    (match mode with
     | Standalone =>
         let? vbuckets := mapM_res (λ vbucket,
           ok_or (try_from u16_max vbucket)
             (Topology ("invalid vBucket identifier: " +:+ try_from_int_error)))
           (seqZ 0 (Z.of_nat (size (ct_vbuckets t)))) in
         Ok (vbuckets, 0)
     | External a => Ok (as_vbucket_list a, as_generation a)
     end) in
  let '(vbuckets, generation) := assigned in
  if bool_decide (vbuckets = []) then
    Err (InvalidConfiguration "a DCP subscription must own at least one vBucket")
  else
    do? for_res vbuckets tt (λ _ vbucket, let? _ := active_node t vbucket in Ok tt) in
    Ok (vbuckets, generation).

Definition initial_start (loaded : gmap Z DcpCheckpoint) (fallback : StartPosition)
    (vbucket : Z) : result (Z * StartPosition) :=
  let? start :=
    (match loaded !! vbucket with
     | Some checkpoint => Ok (StartCheckpoint checkpoint)
     | None =>
         match fallback with
         | StartEarliest => Ok StartEarliest
         | StartLatest => Ok StartLatest
         | StartCheckpoint checkpoint =>
             if ck_vbucket checkpoint =? vbucket then Ok (StartCheckpoint checkpoint)
             else Err (InvalidConfiguration ("fallback checkpoint for vBucket "
                    +:+ pretty (ck_vbucket checkpoint)
                    +:+ " cannot initialize missing vBucket " +:+ pretty vbucket))
         end
     end) in
  Ok (vbucket, start).
Definition resolve_initial_starts (vbuckets : list Z) (loaded : gmap Z DcpCheckpoint)
    (fallback : StartPosition) : result (gmap Z StartPosition) :=
  let? starts := mapM_res (initial_start loaded fallback) vbuckets in
  Ok (btree_collect starts).

Fixpoint mark_changed (loaded : gmap Z DcpCheckpoint) (effective : list (Z * DcpCheckpoint))
    (c : CoordinatorState) : result unit * CoordinatorState :=
  match effective with
  | [] => (Ok tt, c)
  | (vbucket, checkpoint) :: effective =>
      if bool_decide (loaded !! vbucket = Some checkpoint) then mark_changed loaded effective c
      else
        match mark_dirty vbucket c with
        | (Ok _, c) => mark_changed loaded effective c
        | r => r
        end
  end.
Definition mark_changed_initial_positions (loaded effective : gmap Z DcpCheckpoint)
    (c : CoordinatorState) : result unit * CoordinatorState :=
  mark_changed loaded (btree_to_list effective) c.

(** The persistent part of [DcpSubscriptionSpec]; the store is seen through its replies. *)
Record DcpSubscriptionSpec : Type := mkSpec {
  sp_assignment : AssignmentMode;
  sp_stream_id : option Z;
  sp_rollback_handler : Handler
}.

Definition validate_subscription_spec (closed : bool) (config : DcpConfig)
    (spec : DcpSubscriptionSpec) : result unit :=
  if closed then Err Cancelled
  else if bool_decide (sp_stream_id spec = Some 0) then
    Err (InvalidConfiguration "DCP stream ID must be non-zero")
  else if bool_decide (dc_rollback_policy config = PolicyDelegateToHandler)
          && bool_decide (¬ is_Some (sp_rollback_handler spec)) then
    Err (InvalidConfiguration "DelegateToHandler rollback policy requires a rollback handler")
  else Ok tt.

Record PreparedSubscription : Type := mkPrepared {
  pr_topology_snapshot : TopologySnapshot;
  pr_vbuckets : list Z;
  pr_assignment_generation : Z;
  pr_bucket_uuid : string;
  pr_opened : OpenedGeneration;
  pr_coordinator : CoordinatorState
}.

(** *** The backend

    [open_generation] is all or nothing, and its result is one of the request; it does not
    return only if the shutdown of a stream never does.  [backend_stop] is what the shutdown
    of its streams answers. *)
Definition open_contract (stop : NodeId → StopReply) (q : OpenGenerationRequest) (live : Fleet)
    (run : outcome OpenedGeneration * Fleet) : Prop :=
  match run.1 with
  | Done (Ok g) => run.2 = list_to_set_disj (gn_streams g).*1 ⊎ live ∧ generation_ok q g
  | Done (Err _) => run.2 = live
  | Done Panic => False
  | Hang => hung stop live run.2
  end.
Class ClientBackend (B : Type) : Type := {
  backend_open : B → OpenGenerationRequest → io Fleet OpenedGeneration;
  backend_stop : B → NodeId → StopReply;
  backend_open_ok : ∀ b q live, handler_total (og_rollback_handler q) →
    open_contract (backend_stop b) q live (backend_open b q live)
}.

(** The Tokio backend: the foreign code it runs on, which returns, and the answers of its
    streams. *)
Record TokioClientBackend : Type := mkTokioBackend {
  tb_to_vec : WireFilter → res string bytes;
  tb_manifest_from_slice : bytes → string + WireManifest;
  tb_boot : NodeId → outcome DcpConnection;
  tb_stop : NodeId → StopReply;
  tb_to_vec_ok : ∀ w, tb_to_vec w ≠ Panic;
  tb_boot_ok : ∀ n, tb_boot n ≠ Hang ∧ tb_boot n ≠ Done Panic
}.
#[export, program] Instance tokio_backend `{Snappy} : ClientBackend TokioClientBackend := {
  backend_open b q :=
    open_tokio_generation (tb_to_vec b) (tb_manifest_from_slice b) (tb_boot b) (tb_stop b) q;
  backend_stop := tb_stop
}.
Next Obligation.
  intros H b q live Hh. unfold open_contract.
  destruct (open_tokio_generation _ _ _ _ q live) as [o live'] eqn:Ho.
  apply open_tokio_generation_spec in Ho; [|done|apply tb_to_vec_ok|apply tb_boot_ok]. done.
Qed.

Section Subscribe.
Context `{ClientBackend B} (b : B).

(** Every failure shuts down the streams that were opened; the shutdown of the coordinator
    after a failed mark, whose outcome the source discards, is not modelled. *)

Definition prepare_subscription (config : DcpConfig) (topology : TopologySnapshot)
    (spec : DcpSubscriptionSpec) (load_reply : option (result (gmap Z DcpCheckpoint)))
    : io Fleet PreparedSubscription :=
  let! assigned := io_lift (resolve_assignment (sp_assignment spec) (tn_topology topology)) in
  let! loaded := io_lift (load_checkpoints (bucket_identity (tn_topology topology)) assigned.1
    (cc_timeout (Settings.dc_checkpoint config)) load_reply) in
  let! starts := io_lift (resolve_initial_starts assigned.1 loaded (dc_start_from config)) in
  let! opened := backend_open b (mkOpenRequest config (tn_topology topology) starts None
    (sp_stream_id spec) (sp_rollback_handler spec)) in
  match validate_opened_partitions starts (gn_effective_checkpoints opened)
          (gn_end_seqnos opened) None (len (gn_streams opened)) with
  | Err error => fail_generation (backend_stop b) (gn_streams opened) error
  | Panic => io_lift Panic
  | Ok _ =>
      match coordinator_new (Settings.dc_checkpoint config)
              (gn_effective_checkpoints opened) with
      | Err error => fail_generation (backend_stop b) (gn_streams opened) error
      | Panic => io_lift Panic
      | Ok (bucket_uuid, coordinator) =>
          match mark_changed_initial_positions loaded (gn_effective_checkpoints opened)
                  coordinator with
          | (Err error, _) => fail_generation (backend_stop b) (gn_streams opened) error
          | (Panic, _) => io_lift Panic
          | (Ok _, coordinator) =>
              io_ret (mkPrepared topology assigned.1 assigned.2 bucket_uuid opened coordinator)
          end
      end
  end.
End Subscribe.

(** [activate_subscription]: the state the supervising task starts in. *)
Definition activate_subscription (now : Z) (config : DcpConfig) (spec : DcpSubscriptionSpec)
    (p : PreparedSubscription) (h : Shared) : Subscription :=
  let connections := len (gn_streams (pr_opened p)) in
  mkSubscription
    (mkSubscriptionSettings config (pr_bucket_uuid p) (sp_stream_id spec)
       (sp_rollback_handler spec) (pr_assignment_generation p)
       (gn_end_seqnos (pr_opened p)))
    (set_health
       (record_success now connections (tn_generation (pr_topology_snapshot p)) (sh_health h))
       (set_metrics
          (record_rollbacks (gn_rollback_count (pr_opened p))
             (store ActiveConnections connections
                (store AssignedVbuckets (len (pr_vbuckets p)) (sh_metrics h)))) h))
    (pr_topology_snapshot p) (pr_coordinator p) (gn_registry (pr_opened p))
    1 [] true false (gn_streams (pr_opened p))
    (bool_decide (is_Some (gn_mitigation (pr_opened p)))) PhDrive.
