(* ===== verification/ClientSpec.v ===== *)
(** * What a subscription promises ([rust-dcp-core/src/client.rs])

    The supervising task, the application and the health task of [Client] in any
    interleaving, with a history that records what happened and that no step reads: the
    ledger of every vBucket ([CheckpointSpec]), the deliveries the task accepted for the
    application and those the application received, and the acknowledgements.

    The invariant connects the parts: the coordinator's progress ([Progress]), the
    generation fence of the queue, the streams that are open, and the positions an attempt
    to reopen starts from. *)
From stdpp Require Import gmultiset.
From S2P Require Import Prelude Text Types Frame Codec Dcp Command Errors Event Checkpoint.
From S2P Require Import Assignment Config Async Transport Topology Cccp Settings Mitigation.
From S2P Require Import Stream Collections Worker CheckpointRuntime CheckpointSpec.
From S2P Require Import CheckpointFlush Progress Observability Generation Client.

(** ** The history *)
Record History : Type := mkHistory {
  hy_ledgers : gmap Z Ledger;
  hy_accepted : list DcpDelivery;     (** tracked, on their way to the application *)
  hy_yielded : list DcpDelivery;      (** received by the application *)
  hy_processed : list TrackedEvent;   (** acknowledged by the application *)
  hy_skipped : list TrackedEvent      (** acknowledged because of the listener's cut-off *)
}.

Definition issued (h : History) : list TrackedEvent := (dl_tracked <$> hy_accepted h) ++ hy_skipped h.
Definition acked (h : History) : list TrackedEvent := hy_processed h ++ hy_skipped h.

Definition with_hy_ledgers (ls : gmap Z Ledger) (h : History) : History :=
  mkHistory ls (hy_accepted h) (hy_yielded h) (hy_processed h) (hy_skipped h).

(** The event an input lets the task deliver: it passed the gate, or there is none. *)
Definition delivered_event (i : Input) (s : Subscription) : option DcpEvent :=
  match i, sb_phase s with
  | InDrive (PolledItem (Ok (ItemEvent e))), PhDrive =>
      if cancelled s || bool_decide (is_Some (newer_topology (sb_snapshot s) s))
         || (sb_mitigating s && bool_decide (is_Some (mitigation_position e))) then None
      else Some e
  | InGate (GateAnswer m expired wakes), PhGate e =>
      match mitigation_position e with
      | Some (vbucket, seqno) =>
          match wait_until_safe
                  (rm_maximum_stall (dc_rollback_mitigation (ss_config (sb_settings s))))
                  vbucket seqno m expired wakes with
          | Done (Ok _) => Some e
          | _ => None
          end
      | None => None
      end
  | _, _ => None
  end.

Definition ack_ledgers (t : TrackedEvent) (ls : gmap Z Ledger) : gmap Z Ledger :=
  match te_ack t with
  | Some a => alter (ledger_ack (ea_delivery_id a)) (ea_vbucket a) ls
  | None => ls
  end.

Definition record_event (e : DcpEvent) (s : Subscription) (h : History) : History :=
  if document_is_before_listener_cutoff (ss_config (sb_settings s)) e then
    let '(r, c) := track_event e (sb_coordinator s) in
    let ls := ledgers_track r c (hy_ledgers h) in
    match r with
    | Ok t => mkHistory (ack_ledgers t ls) (hy_accepted h) (hy_yielded h) (hy_processed h)
                (hy_skipped h ++ [t])
    | _ => with_hy_ledgers ls h
    end
  else
    match decorate e (sb_registry s) with
    | (Ok e, _) =>
        let '(r, c) := track_event e (sb_coordinator s) in
        let ls := ledgers_track r c (hy_ledgers h) in
        match r with
        | Ok t => mkHistory ls (hy_accepted h ++ [mkDelivery t (sb_generation s)
                      (ss_assignment_generation (sb_settings s))])
                    (hy_yielded h) (hy_processed h) (hy_skipped h)
        | _ => with_hy_ledgers ls h
        end
    | _ => h
    end.

(** The history after a step from [s] to [s']. *)
Definition record_step (i : Input) (s : Subscription) (y : Label) (s' : Subscription) (h : History)
    : History :=
  match i with
  | InPoll =>
      match y with
      | Yielded (Ok d) => mkHistory (hy_ledgers h) (hy_accepted h) (hy_yielded h ++ [d])
                            (hy_processed h) (hy_skipped h)
      | _ => h
      end
  | InProcessed d =>
      mkHistory (ack_ledgers (dl_tracked d) (hy_ledgers h)) (hy_accepted h) (hy_yielded h)
        (hy_processed h ++ [dl_tracked d]) (hy_skipped h)
  | InOpen (OpenResult (Ok g)) =>
      match sb_phase s' with
      | PhDrive => with_hy_ledgers (ledgers_rebase (Ok tt) (gn_effective_checkpoints g)
                     (hy_ledgers h)) h
      | _ => h
      end
  | i => match delivered_event i s with Some e => record_event e s h | None => h end
  end.

(** ** Runs *)
Section Runs.
Context (cccp_from_slice : bytes → string + RawBucketConfig).
Context `{ClientBackend B}.

(** What may arrive: the result of an attempt is an answer of a backend to its request, the
    application acknowledges what it received, and the other tasks do not panic. *)
Definition input_ok (h : History) (i : Input) (s : Subscription) : Prop :=
  match i with
  | InDrive (PolledItem r) => r ≠ Panic
  | InShutdown streams mitigation => streams ≠ Panic ∧ mitigation ≠ Panic
  | InOpen (OpenResult r) =>
      match sb_phase s with
      | PhOpening snapshot _ starts => ∃ (b : B) live',
          backend_open b (reopen_request snapshot starts s) (sb_live s) = (Done r, live')
      | _ => True
      end
  | InProcessed d => d ∈ hy_yielded h
  | _ => True
  end.

Inductive client_reachable : Subscription → History → Prop :=
| cr_init now (b : B) config topology spec load_reply p h :
    handler_total (sp_rollback_handler spec) → sh_active h = true →
    prepare_subscription b config topology spec load_reply ∅ = (Done (Ok p), sh_live h) →
    client_reachable (activate_subscription now config spec p h)
      (mkHistory ((λ c, mkLedger c []) <$> gn_effective_checkpoints (pr_opened p)) [] [] [] [])
| cr_step now i s h y s' :
    client_reachable s h → input_ok h i s →
    client_step cccp_from_slice now i s = Some (y, s') →
    client_reachable s' (record_step i s y s' h).
End Runs.

(** ** The invariant *)

Definition driving (p : Phase) : bool :=
  match p with
  | PhDrive | PhGate _ | PhSend _ | PhPublish _ | PhShutdown _ => true
  | _ => false
  end.
Definition reopening (p : Phase) : bool :=
  match p with PhReopen _ _ | PhOpening _ _ _ | PhBackoff _ _ => true | _ => false end.
Definition is_done (p : Phase) : bool := match p with PhDone _ => true | _ => false end.

(** The vBuckets are served by the open streams, each by one of them. *)
Definition served (vbs : gset Z) (streams : list (NodeId * DcpStream)) : Prop :=
  NoDup streams.*1
  ∧ (∀ vb, vb ∈ vbs → ∃ node, node ∈ streams.*1 ∧ ∀ node' ds, (node', ds) ∈ streams →
       (is_Some (ds_partitions ds !! vb) ↔ node' = node))
  ∧ ∀ vb node ds, (node, ds) ∈ streams → is_Some (ds_partitions ds !! vb) → vb ∈ vbs.

(** Exactly the streams of the driven generation are open; none between generations. *)
Definition fleet_ok (s : Subscription) : Prop :=
  if driving (sb_phase s) then
    sb_live s = list_to_set_disj (sb_streams s).*1
    ∧ served (dom (cs_partitions (sb_coordinator s))) (sb_streams s)
  else sb_streams s = [] ∧ sb_live s = ∅.

Definition of_generation (g : Z) (l : list DcpDelivery) : list DcpDelivery :=
  filter (λ d, dl_connection_generation d = g) l.
Definition queued_delivery (g : Z) (o : ManagedOutput) : option DcpDelivery :=
  if mo_generation o =? g then match mo_item o with Ok d => Some d | _ => None end else None.
Definition queued (g : Z) (l : list ManagedOutput) : list DcpDelivery := omap (queued_delivery g) l.

(** The delivery the task holds: the one it waits to send, or the one it has dropped. *)
Definition held_ok (g : Z) (p : Phase) (held : list DcpDelivery) : Prop :=
  match p with
  | PhSend o => ∃ d, o = mkOutput g (Ok d) ∧ dl_connection_generation d = g ∧ held = [d]
  | PhDrive | PhGate _ | PhPublish _ | PhReopen _ _ | PhOpening _ _ _ | PhBackoff _ _ => held = []
  | _ => (length held ≤ 1)%nat
  end.

(** While the receiver is open nothing between the task and the application is lost. *)
Definition fence_ok (s : Subscription) (h : History) : Prop :=
  (∀ o, o ∈ sb_channel s → mo_item o ≠ Panic ∧ mo_generation o ≤ sb_generation s
     ∧ ∀ d, mo_item o = Ok d → dl_connection_generation d = mo_generation o)
  ∧ (∀ d, d ∈ hy_accepted h → dl_connection_generation d ≤ sb_generation s)
  ∧ (∀ g, of_generation g (hy_yielded h) `prefix_of` of_generation g (hy_accepted h))
  ∧ (sb_receiver_open s = false → sb_channel s = [])
  ∧ ∃ held, held_ok (sb_generation s) (sb_phase s) held
      ∧ (sb_receiver_open s = true →
         of_generation (sb_generation s) (hy_accepted h)
         = of_generation (sb_generation s) (hy_yielded h)
           ++ queued (sb_generation s) (sb_channel s) ++ held).

(** The positions of an attempt are not beyond the processed ones. *)
Definition opening_ok (s : Subscription) : Prop :=
  match sb_phase s with
  | PhOpening _ _ starts =>
      dom starts = dom (cs_partitions (sb_coordinator s))
      ∧ ∀ vb start, starts !! vb = Some start → ∃ c p, start = StartCheckpoint c
          ∧ cs_partitions (sb_coordinator s) !! vb = Some p
          ∧ ck_seqno c ≤ ck_seqno (ps_processed p)
  | _ => True
  end.

(** The deliveries accepted since the streams were opened are in the ledgers; an attempt to
    reopen starts with none. *)
Definition log_ok (s : Subscription) (h : History) : Prop :=
  (∀ d, d ∈ hy_accepted h →
     document_is_before_listener_cutoff (ss_config (sb_settings s)) (te_event (dl_tracked d)) = false
     ∧ (dl_connection_generation d = sb_generation s → logged (hy_ledgers h) (dl_tracked d)))
  ∧ (reopening (sb_phase s) = true →
     ∀ d, d ∈ hy_accepted h → dl_connection_generation d ≠ sb_generation s).

Record client_inv (s : Subscription) (h : History) : Prop := mk_client_inv {
  ci_progress : progress_inv (ss_bucket_uuid (sb_settings s)) (sb_coordinator s)
                  (hy_ledgers h) (issued h) (acked h);
  ci_processed : ∀ t, t ∈ hy_processed h → t ∈ dl_tracked <$> hy_yielded h;
  ci_skipped : ∀ t, t ∈ hy_skipped h →
    document_is_before_listener_cutoff (ss_config (sb_settings s)) (te_event t) = true;
  ci_registry : registry_wf (sb_registry s);
  ci_handler : handler_total (ss_handler (sb_settings s));
  ci_fence : fence_ok s h;
  ci_log : log_ok s h;
  ci_fleet : fleet_ok s;
  ci_opening : opening_ok s;
  ci_active : sb_active s = negb (is_done (sb_phase s));
  ci_no_panic : sb_phase s ≠ PhDone Panic
}.

(** ** Lemmas: parts of the invariant *)

Lemma progress_weaken uuid c ls I D I' D' :
  progress_inv uuid c ls I D → (∀ t, t ∈ I' → t ∈ I) → (∀ t, t ∈ D → t ∈ D') →
  progress_inv uuid c ls I' D'.
Proof.
  intros [H1 H2 HU H3] HI HD. split; [done|by auto|by intros t t' a a' ??; apply HU; apply HI|].
  intros vb L e HL He Ha. destruct (H3 vb L e HL He Ha) as (t & Ht & ?). exists t. auto.
Qed.

Lemma held_short g p held : held_ok g p held → (length held ≤ 1)%nat.
Proof.
  destruct p; cbn; try (intros ->; cbn; lia); try done. intros (d & _ & _ & ->). cbn. lia.
Qed.

(** Steps that change nothing the parts below depend on. *)
Definition quiet (s s' : Subscription) : Prop :=
  sb_settings s' = sb_settings s ∧ sb_coordinator s' = sb_coordinator s
  ∧ sb_registry s' = sb_registry s ∧ sb_channel s' = sb_channel s
  ∧ sb_generation s' = sb_generation s ∧ sb_receiver_open s' = sb_receiver_open s
  ∧ sb_active s' = sb_active s ∧ sb_live s' = sb_live s ∧ sb_streams s' = sb_streams s.

Lemma fleet_ok_mono s s' :
  fleet_ok s → driving (sb_phase s') = driving (sb_phase s) → sb_live s' = sb_live s →
  sb_streams s' = sb_streams s →
  dom (cs_partitions (sb_coordinator s')) = dom (cs_partitions (sb_coordinator s)) →
  fleet_ok s'.
Proof. unfold fleet_ok. by intros H -> -> -> ->. Qed.

Lemma opening_ok_mono s s' :
  opening_ok s → sb_phase s' = sb_phase s → advances (sb_coordinator s) (sb_coordinator s') →
  opening_ok s'.
Proof.
  unfold opening_ok. intros Ho -> [Hd Hadv]. destruct (sb_phase s); try done.
  destruct Ho as [Hdom Ho]. split; [by rewrite Hd|]. intros vb start Hs.
  destruct (Ho vb start Hs) as (c & p & -> & Hp & Hle).
  destruct (Hadv vb p Hp) as (p' & Hp' & ? & _). exists c, p'. split_and!; [done..|lia].
Qed.
Lemma opening_ok_not s :
  (∀ snapshot backoff starts, sb_phase s ≠ PhOpening snapshot backoff starts) → opening_ok s.
Proof. unfold opening_ok. destruct (sb_phase s); naive_solver. Qed.

Lemma fence_ok_phase s s' h :
  fence_ok s h → quiet s s' →
  (∀ held, held_ok (sb_generation s) (sb_phase s) held →
           held_ok (sb_generation s) (sb_phase s') held) →
  fence_ok s' h.
Proof.
  intros (F1 & F2 & F3 & F4 & held & F5 & F6) (_ & _ & _ & Hc & Hg & Hr & _) Hheld.
  unfold fence_ok. rewrite Hc, Hg, Hr. split_and!; try done. exists held. auto.
Qed.

Lemma log_ok_same s s' h :
  log_ok s h → sb_settings s' = sb_settings s → sb_generation s' = sb_generation s →
  (reopening (sb_phase s') = true → reopening (sb_phase s) = true) → log_ok s' h.
Proof. intros [H1 H2] Hs Hg Hr. unfold log_ok. rewrite Hs, Hg. split; auto. Qed.

(** A step within the driven part, or within the part between generations. *)
Lemma quiet_inv s s' h :
  client_inv s h → quiet s s' →
  driving (sb_phase s') = driving (sb_phase s) → is_done (sb_phase s') = is_done (sb_phase s) →
  (∀ held, held_ok (sb_generation s) (sb_phase s) held →
           held_ok (sb_generation s) (sb_phase s') held) →
  (reopening (sb_phase s') = true → reopening (sb_phase s) = true) →
  opening_ok s' → sb_phase s' ≠ PhDone Panic → client_inv s' h.
Proof.
  intros [I1 I2 I3 I4 I5 I6 IL I7 I8 I9 I10] Hq Hdr Hdn Hheld Hre Hop Hnp.
  pose proof (fence_ok_phase _ _ _ I6 Hq Hheld) as Hf.
  destruct Hq as (Q1 & Q2 & Q3 & Q4 & Q5 & Q6 & Q7 & Q8 & Q9).
  split; rewrite ?Q1, ?Q2, ?Q3, ?Q7, ?Hdn; try done.
  - by apply (log_ok_same s).
  - apply (fleet_ok_mono s); congruence.
Qed.

(** Nothing but data outside the invariant changes. *)
Lemma quiet_same s s' h :
  client_inv s h → quiet s s' → sb_phase s' = sb_phase s → client_inv s' h.
Proof.
  intros Hi Hq Hp. eapply quiet_inv; try done; rewrite ?Hp; try done; [|apply Hi].
  destruct Hq as (_ & Hc & _). eapply opening_ok_mono; [apply Hi|done|].
  rewrite Hc. apply advances_refl.
Qed.

(** The generation is given up: the streams are still to be shut down. *)
Lemma shutdown_for_inv a s s' h :
  client_inv s h → driving (sb_phase s) = true → quiet s s' → client_inv (shutdown_for a s') h.
Proof.
  intros Hi Hd Hq. eapply (quiet_inv s); try done.
  - by destruct (sb_phase s).
  - intros held. apply held_short.
Qed.

(** The end of the subscription begins. *)
Lemma finish_inv e s h :
  client_inv s h → driving (sb_phase s) = false → is_done (sb_phase s) = false →
  client_inv (finish e s) h.
Proof.
  intros Hi Hd Hn.
  unfold finish. destruct e as [e|]; [destruct (cancelled s)|];
    (eapply (quiet_inv s); try done; by intros held ?%held_short).
Qed.

Ltac quiet := by repeat split.

(** ** Lemmas: delivering *)

Lemma issued_accept h ls d : ∀ t,
  t ∈ issued (mkHistory ls (hy_accepted h ++ [d]) (hy_yielded h) (hy_processed h) (hy_skipped h)) →
  t ∈ issued h ++ [dl_tracked d].
Proof. intros t. unfold issued. cbn. rewrite fmap_app, !elem_of_app. cbn. tauto. Qed.
Lemma issued_skip h ls t0 : ∀ t,
  t ∈ issued (mkHistory ls (hy_accepted h) (hy_yielded h) (hy_processed h) (hy_skipped h ++ [t0])) →
  t ∈ issued h ++ [t0].
Proof. intros t. unfold issued. cbn. by rewrite app_assoc. Qed.

Lemma of_generation_app g l k : of_generation g (l ++ k) = of_generation g l ++ of_generation g k.
Proof. apply filter_app. Qed.
Lemma of_generation_one d : of_generation (dl_connection_generation d) [d] = [d].
Proof. unfold of_generation. cbn. by rewrite decide_True. Qed.
Lemma of_generation_none g l :
  (∀ d, d ∈ l → dl_connection_generation d ≠ g) → of_generation g l = [].
Proof.
  intros Hl. apply elem_of_nil_inv. intros d [Hg Hd]%list_elem_of_filter. by eapply Hl.
Qed.

(** An accepted delivery of the current generation is held until it is sent. *)
Lemma fence_accept s s' h ls d :
  fence_ok s h → sb_phase s = PhDrive ∨ (∃ e, sb_phase s = PhGate e) →
  sb_channel s' = sb_channel s → sb_generation s' = sb_generation s →
  sb_receiver_open s' = sb_receiver_open s →
  dl_connection_generation d = sb_generation s →
  sb_phase s' = PhSend (mkOutput (sb_generation s) (Ok d)) →
  fence_ok s' (mkHistory ls (hy_accepted h ++ [d]) (hy_yielded h) (hy_processed h) (hy_skipped h)).
Proof.
  intros (F1 & F2 & F3 & F4 & held & F5 & F6) Hph Hc Hg Hr Hd Hp.
  assert (held = []) as -> by (destruct Hph as [Hph|[e Hph]]; by rewrite Hph in F5).
  unfold fence_ok. rewrite Hc, Hg, Hr, Hp. cbn [hy_accepted hy_yielded]. split_and!; try done.
  - intros d' [Hd'|Hd'%list_elem_of_singleton]%elem_of_app; [by apply F2|]. subst d'. lia.
  - intros g. rewrite of_generation_app. by apply prefix_app_r.
  - exists [d]. split; [by exists d|]. intros Hopen. specialize (F6 Hopen).
    rewrite of_generation_app, F6, <-Hd, of_generation_one, app_nil_r, <-app_assoc. done.
Qed.

(** Tracking and acknowledging an event that the listener skips. *)
Lemma progress_skip uuid c ls I D e t c1 r c2 :
  progress_inv uuid c ls I D → track_event e c = (Ok t, c1) → tracked_acknowledge t c1 = (r, c2) →
  r ≠ Panic ∧ advances c c2
  ∧ progress_inv uuid c2 (ack_ledgers t (ledgers_track (Ok t) c1 ls)) (I ++ [t]) (D ++ [t]).
Proof.
  intros Hpi Htr Hack. destruct (progress_track _ _ _ _ _ _ _ _ Hpi Htr) as (_ & Hpi1 & Hadv1).
  cbn [issue] in Hpi1. unfold tracked_acknowledge, ack_ledgers in *.
  destruct (te_ack t) as [a|] eqn:Ha.
  - destruct (acknowledge a c1) as [r1 c1'] eqn:Hrun. injection Hack as <- <-.
    destruct (progress_ack _ _ _ _ _ t a _ _ Hpi1 ltac:(set_solver) Ha Hrun)
      as (Hr & Hpi2 & Hadv2).
    split; [by destruct r1|]. split; [by eapply advances_trans|done].
  - injection Hack as <- <-. split_and!; [done..|]. eapply progress_weaken; [exact Hpi1|done|].
    set_solver.
Qed.

Lemma track_event_event e c t c' : track_event e c = (Ok t, c') → te_event t = e.
Proof.
  unfold track_event, with_lock. destruct (cs_poisoned c); [done|].
  destruct (cs_partitions c !! event_vbucket e) as [p|]; [|done].
  destruct (track_partition _ _ p) as [[a|err|] p']; cbn [res_map]; [|done..].
  by intros [= <- <-].
Qed.

(** The coordinator moves on, the task stays in the driven part and sends nothing. *)
Lemma coordinator_inv s h c p h' :
  client_inv s h → sb_phase s = PhDrive ∨ (∃ e, sb_phase s = PhGate e) →
  advances (sb_coordinator s) c → p = PhDrive ∨ (∃ a, p = PhShutdown a) →
  progress_inv (ss_bucket_uuid (sb_settings s)) c (hy_ledgers h') (issued h') (acked h') →
  hy_accepted h' = hy_accepted h → hy_yielded h' = hy_yielded h →
  hy_processed h' = hy_processed h →
  (∀ t, logged (hy_ledgers h) t → logged (hy_ledgers h') t) →
  (∀ t, t ∈ hy_skipped h' → t ∈ hy_skipped h ∨
     document_is_before_listener_cutoff (ss_config (sb_settings s)) (te_event t) = true) →
  client_inv (put_phase p (put_coordinator c s)) h'.
Proof.
  intros [I1 I2 I3 I4 I5 I6 IL I7 I8 I9 I10] Hph Hadv Hp Hpi Ha Hy Hpr Hlog Hsk.
  assert (driving (sb_phase s) = true ∧ is_done (sb_phase s) = false) as [Hdr Hdn]
    by by destruct Hph as [->|[e ->]].
  split; cbn [sb_settings sb_coordinator sb_registry sb_active sb_phase put_phase put_coordinator];
    try done.
  - intros t. rewrite Hpr, Hy. apply I2.
  - intros t [Ht|?]%Hsk; [by apply I3|done].
  - destruct I6 as (F1 & F2 & F3 & F4 & held & F5 & F6).
    assert (held = []) as -> by (destruct Hph as [Hph|[e Hph]]; by rewrite Hph in F5).
    unfold fence_ok. cbn [sb_channel sb_generation sb_receiver_open sb_phase put_phase
      put_coordinator]. rewrite Ha, Hy. split_and!; try done. exists [].
    split; [|done]. destruct Hp as [-> |[a ->]]; cbn; [done|lia].
  - split; [|by destruct Hp as [-> |[a ->]]]. cbn [sb_settings sb_generation put_phase put_coordinator].
    rewrite Ha. intros d Hd. destruct (proj1 IL d Hd) as [Hc Hl]. auto.
  - eapply fleet_ok_mono; [exact I7|..]; try done; [|apply Hadv].
    cbn [sb_phase put_phase]. rewrite Hdr. by destruct Hp as [-> |[a ->]].
  - apply opening_ok_not. cbn. by destruct Hp as [-> |[a ->]].
  - etrans; [exact I9|]. rewrite Hdn. by destruct Hp as [-> |[a ->]].
  - by destruct Hp as [-> |[a ->]].
Qed.

(** Naming the collection does not change what the cut-off looks at. *)
Lemma decorate_cutoff config e e' g g' :
  decorate e g = (Ok e', g') → document_is_before_listener_cutoff config e = false →
  document_is_before_listener_cutoff config e' = false.
Proof.
  intros Hdec. assert (document_cas e' = document_cas e) as Hc.
  { unfold decorate in Hdec. destruct (rg_poisoned g); [done|].
    destruct e as [m|m|m|m|m|m|se|m]; cbn [decorate_document] in Hdec;
      try (unfold required_collection_name in Hdec; destruct (selection_collection_name _ _); [|done]);
      try (cbn in Hdec; by injection Hdec as <- _).
    destruct (apply_system_event se (rg_state g)); by simplify_eq. }
  unfold document_is_before_listener_cutoff. by rewrite Hc.
Qed.

Lemma deliver_event_inv e s h :
  client_inv s h → sb_phase s = PhDrive ∨ (∃ e, sb_phase s = PhGate e) →
  client_inv (deliver_event e s) (record_event e s h).
Proof.
  intros Hi Hph. pose proof (ci_progress _ _ Hi) as Hpi.
  assert (driving (sb_phase s) = true) as Hdr by by destruct Hph as [->|[? ->]].
  unfold deliver_event, record_event.
  destruct (document_is_before_listener_cutoff _ e) eqn:Hcut.
  - destruct (track_event e (sb_coordinator s)) as [r c1] eqn:Htr.
    destruct (progress_track _ _ _ _ _ _ _ _ Hpi Htr) as (Hnp & Hpi1 & Hadv1).
    destruct r as [t|err|]; [| |done].
    + destruct (tracked_acknowledge t c1) as [r2 c2] eqn:Hack.
      destruct (progress_skip _ _ _ _ _ _ _ _ _ _ Hpi Htr Hack) as (Hnp2 & Hadv2 & Hpi2).
      assert (client_inv (put_phase PhDrive (put_coordinator c2 s))
        (mkHistory (ack_ledgers t (ledgers_track (Ok t) c1 (hy_ledgers h))) (hy_accepted h)
          (hy_yielded h) (hy_processed h) (hy_skipped h ++ [t]))) as Hinv.
      { eapply coordinator_inv; try done; [by left| | |].
        - eapply progress_weaken; [exact Hpi2|apply issued_skip|].
          intros t'. unfold acked. cbn. by rewrite app_assoc.
        - intros t' Ht'. unfold ack_ledgers. cbn [hy_ledgers].
          assert (logged (ledgers_track (Ok t) c1 (hy_ledgers h)) t') as Hl
            by (eapply logged_track; [apply Hpi|exact Htr|by left]).
          destruct (te_ack t); [by apply logged_ack|done].
        - intros t' [?|Ht%list_elem_of_singleton]%elem_of_app; [by left|right]. subst t'.
          by rewrite (track_event_event _ _ _ _ Htr). }
      destruct r2 as [o|err|]; [done| |done]. by eapply (shutdown_for_inv _ _ _ _ Hinv); [|quiet].
    + eapply (coordinator_inv s h c1 (PhShutdown (GaFatal err))); try done; eauto.
  - pose proof (decorate_wf e (sb_registry s) (ci_registry _ _ Hi)) as (Hwf & Hnp & _).
    destruct (decorate e (sb_registry s)) as [[e'|err|] g] eqn:Hdec; cbn [fst snd] in *; [| |done].
    2:{ assert (client_inv (put_registry g s) h) as Hinv.
        { destruct Hi. by split. }
        by eapply (shutdown_for_inv _ _ _ _ Hinv); [|quiet]. }
    destruct (track_event e' (sb_coordinator s)) as [r c1] eqn:Htr.
    change (sb_coordinator (put_registry g s)) with (sb_coordinator s). rewrite Htr.
    destruct (progress_track _ _ _ _ _ _ _ _ Hpi Htr) as (Hnp1 & Hpi1 & Hadv1).
    destruct r as [t|err|]; [| |done].
    + destruct Hi as [I1 I2 I3 I4 I5 I6 IL I7 I8 I9 I10]. split; try done.
      * eapply progress_weaken; [exact Hpi1|apply issued_accept|done].
      * by eapply fence_accept.
      * split; [|done]. cbn [hy_accepted hy_ledgers sb_settings sb_generation put_phase put_coordinator
          put_registry]. intros d [Hd|Hd%list_elem_of_singleton]%elem_of_app.
        -- destruct (proj1 IL d Hd) as [Hc Hl]. split; [done|]. intros Hgd.
           eapply logged_track; [apply Hpi|exact Htr|]. left. by apply Hl.
        -- subst d. cbn [dl_tracked]. split.
           ++ rewrite (track_event_event _ _ _ _ Htr). by eapply decorate_cutoff.
           ++ intros _. eapply logged_track; [apply Hpi|exact Htr|by right].
      * eapply fleet_ok_mono; [exact I7|..]; try done. apply Hadv1.
      * transitivity (sb_active s); [done|]. rewrite I9. by destruct Hph as [->|[? ->]].
    + assert (client_inv (put_phase (PhShutdown (GaFatal err)) (put_coordinator c1 s))
        (with_hy_ledgers (ledgers_track (Err err) c1 (hy_ledgers h)) h)) as Hinv.
      { eapply coordinator_inv; try done; eauto. }
      destruct Hinv. by split.
Qed.

(** ** Lemmas: the steps of the task *)

Lemma topology_apply_no_panic candidate t : (topology_apply candidate t).1 ≠ Panic.
Proof.
  unfold topology_apply. pose proof (validate_bucket_identity_spec (ts_topology t) candidate) as Hv.
  destruct (validate_bucket_identity _ _); [|done..]. destruct (negb _); [done|].
  by destruct (checked_add _ _ _).
Qed.
Lemma apply_candidate_quiet candidate s r s' :
  apply_topology_candidate candidate (sb_shared s) = (r, s') →
  r ≠ Panic ∧ quiet s (put_shared s' s) ∧ sh_published s' = sb_published s.
Proof.
  unfold apply_topology_candidate. pose proof (topology_apply_no_panic candidate (sb_topology s)) as Ht.
  unfold sb_topology in Ht.
  destruct (topology_apply candidate _) as [[[ch|]|e|] t]; [..|done];
    intros [= <- <-]; (split; [done|]); by split; [quiet|].
Qed.


(** The health task touches neither the streams nor the flags of the subscription. *)
Lemma health_wake_quiet now s h :
  health_wake now (sb_shared s) = Some h → quiet s (put_shared h s).
Proof.
  unfold health_wake. destruct (sh_health_task _); try done. intros [= <-].
  destruct (sh_global_cancel _); quiet.
Qed.
Lemma health_round_quiet config probe s h :
  health_round config probe (sb_shared s) = Some h → quiet s (put_shared h s).
Proof.
  unfold health_round. destruct (sh_health_task _); try done. intros [= <-].
  destruct probe as [[candidate|e|]|]; try quiet.
  unfold apply_topology_candidate. destruct (topology_apply _ _) as [[[ch|]|e|] t]; quiet.
Qed.
Lemma health_publish_quiet s h :
  health_publish (sb_shared s) = Some h → quiet s (put_shared h s).
Proof. unfold health_publish. destruct (sh_health_task _); try done. intros [= <-]. quiet. Qed.

Lemma wait_no_panic stall vb seqno m expired wakes :
  wait_until_safe stall vb seqno m expired wakes ≠ Done Panic.
Proof.
  unfold wait_until_safe. destruct (seqno =? 0); [done|]. generalize false as delayed.
  revert m expired. induction wakes as [|[m1 e1| |m1] wakes IH]; intros m expired delayed;
    cbn [wait_loop]; destruct (m !! vb); try done; destruct (partition_safe _ _); try done;
    by destruct expired.
Qed.

Section Steps.
Context (cccp_from_slice : bytes → string + RawBucketConfig).

Lemma drive_round_inv now p s h :
  client_inv s h → sb_phase s = PhDrive → p ≠ PolledItem Panic →
  client_inv (drive_round cccp_from_slice now p s) (record_step (InDrive p) s Silent s h).
Proof.
  intros Hi Hph Hok. assert (driving (sb_phase s) = true) as Hdr by by rewrite Hph.
  cbn [record_step delivered_event]. unfold delivered_event. rewrite Hph. unfold drive_round.
  destruct (cancelled s) eqn:Hc; [destruct p as [| |[[]| |]]; by apply (shutdown_for_inv _ s); [..|quiet]|].
  destruct (newer_topology (sb_snapshot s) s) as [latest|] eqn:Hn.
  { destruct p as [| |[[]| |]]; by apply (shutdown_for_inv _ s); [..|quiet]. }
  rewrite bool_decide_false by by intros []. cbn [orb].
  destruct p as [| |item]; [done|by destruct (dc_mode _); apply (shutdown_for_inv _ s); [..|quiet]|].
  unfold handle_stream_item. destruct item as [[e|source payload|f]|err|].
  - destruct (sb_mitigating s && _).
    + eapply quiet_inv; try done; rewrite ?Hph; [quiet|done..].
    + apply deliver_event_inv; auto.
  - pose proof (from_json_no_panic cccp_from_slice payload source
      (tls_enabled (dc_tls (ss_config (sb_settings s)))) (dc_network (ss_config (sb_settings s)))) as Hnp.
    destruct (from_json _ _ _ _ _) as [candidate|err|]; [|by apply (shutdown_for_inv _ s); [..|quiet]|done].
    destruct (apply_topology_candidate candidate (sb_shared s)) as [r s1] eqn:Ha.
    apply apply_candidate_quiet in Ha as (Hr & Hq & _).
    destruct r as [[snap|]|err|]; [| |by eapply shutdown_for_inv|done].
    + eapply (quiet_inv s); try done; rewrite ?Hph; try done.
    + eapply (quiet_inv s); try done; rewrite ?Hph; try done.
  - eapply quiet_inv; try done; rewrite ?Hph; [quiet|done..].
  - destruct (is_retryable err); by apply (shutdown_for_inv _ s); [..|quiet].
  - done.
Qed.

Lemma gate_round_inv now w e s h s' :
  client_inv s h → sb_phase s = PhGate e → gate_round now w e s = Some s' →
  client_inv s' (record_step (InGate w) s Silent s' h).
Proof.
  intros Hi Hph Hrun. assert (driving (sb_phase s) = true) as Hdr by by rewrite Hph.
  cbn [record_step]. unfold delivered_event. rewrite Hph. unfold gate_round in Hrun.
  destruct w as [| |m expired wakes].
  - destruct (cancelled s); [|done]. injection Hrun as <-. by apply (shutdown_for_inv _ s); [..|quiet].
  - injection Hrun as <-. destruct (newer_topology _ s); by apply (shutdown_for_inv _ s); [..|quiet].
  - destruct (mitigation_position e) as [[vb seqno]|]; [|done]. destruct (_ || _); [done|].
    pose proof (wait_no_panic (rm_maximum_stall (dc_rollback_mitigation (ss_config (sb_settings s))))
      vb seqno m expired wakes) as Hnp.
    destruct (wait_until_safe _ _ _ _ _ _) as [[delayed|err|]|]; [| |done..]; injection Hrun as <-.
    + set (s1 := if delayed then _ else s).
      assert (client_inv s1 h ∧ sb_phase s1 = PhGate e) as [Hi1 Hp1].
      { unfold s1. destruct delayed; [|done]. split; [|done].
        eapply quiet_same; [done|quiet|done]. }
      assert (record_event e s h = record_event e s1 h) as -> by by unfold s1; destruct delayed.
      apply deliver_event_inv; eauto.
    + by apply (shutdown_for_inv _ s); [..|quiet].
Qed.

Lemma queued_app g l k : queued g (l ++ k) = queued g l ++ queued g k.
Proof. apply omap_app. Qed.
Lemma queued_ok d : queued (dl_connection_generation d) [mkOutput (dl_connection_generation d) (Ok d)] = [d].
Proof. unfold queued, queued_delivery. cbn. by rewrite Z.eqb_refl. Qed.

Lemma send_round_inv w o s h s' :
  client_inv s h → sb_phase s = PhSend o → send_round w o s = Some s' → client_inv s' h.
Proof.
  intros Hi Hph Hrun. assert (driving (sb_phase s) = true) as Hdr by by rewrite Hph.
  destruct w; cbn [send_round] in Hrun.
  - destruct (sb_receiver_open s) eqn:Hopen; [cbn [andb] in Hrun|done].
    destruct (_ <? _); [|done]. injection Hrun as <-.
    destruct Hi as [I1 I2 I3 I4 I5 I6 IL I7 I8 I9 I10]. split; try done.
    + destruct I6 as (F1 & F2 & F3 & F4 & held & F5 & F6). rewrite Hph in F5.
      destruct F5 as (d & -> & Hd & ->). specialize (F6 Hopen).
      unfold fence_ok. cbn [sb_channel sb_generation sb_receiver_open sb_phase put_phase put_channel].
      split_and!; try done.
      * intros o [Ho|Ho%list_elem_of_singleton]%elem_of_app; [by apply F1|]. subst o. cbn.
        split_and!; [done|lia|by intros ? [= <-]].
      * by rewrite Hopen.
      * exists []. split; [done|]. intros _.
        by rewrite F6, queued_app, <-Hd, queued_ok, app_nil_r.
    + by apply (log_ok_same s).
    + eapply fleet_ok_mono; [exact I7|..]; by rewrite ?Hph.
    + transitivity (sb_active s); [done|]. by rewrite I9, Hph.
  - destruct (sb_receiver_open s); [done|]. injection Hrun as <-.
    by apply (shutdown_for_inv _ s); [..|quiet].
  - destruct (cancelled s); [|destruct (newer_topology _ s)]; injection Hrun as <-;
      [by apply (shutdown_for_inv _ s); [..|quiet]..|done].
Qed.

(** *** Between generations *)

(** The next generation makes everything queued stale. *)
Lemma fence_next s h g :
  fence_ok s h → sb_generation s < g → ∀ s',
  sb_channel s' = sb_channel s → sb_receiver_open s' = sb_receiver_open s →
  sb_generation s' = g → driving (sb_phase s') = false → fence_ok s' h.
Proof.
  intros (F1 & F2 & F3 & F4 & _) Hlt s' Hc Hr Hg Hd. unfold fence_ok. rewrite Hc, Hr, Hg.
  split_and!; try done.
  - intros o Ho. destruct (F1 o Ho) as (? & ? & ?). split_and!; [done|lia|done].
  - intros d Hin. specialize (F2 d Hin). lia.
  - exists []. split; [destruct (sb_phase s'); cbn; done || lia|]. intros _.
    assert (of_generation g (hy_accepted h) = []) as Ha.
    { apply of_generation_none. intros d Hin. specialize (F2 d Hin). lia. }
    specialize (F3 g). rewrite Ha in F3. apply prefix_nil_inv in F3. rewrite Ha, F3.
    assert (queued g (sb_channel s) = []) as ->; [|done].
    unfold queued. apply elem_of_nil_inv. intros d (o & Ho & Hq)%list_elem_of_omap.
    unfold queued_delivery in Hq. destruct (F1 o Ho) as (_ & Hle & _).
    destruct (Z.eqb_spec (mo_generation o) g); [lia|done].
Qed.

Lemma begin_reopen_inv snapshot s h :
  client_inv s h → driving (sb_phase s) = false → is_done (sb_phase s) = false →
  client_inv (begin_reopen snapshot s) h.
Proof.
  intros Hi Hd Hn. unfold begin_reopen.
  destruct (checked_add u64_max (sb_generation s) 1) as [g|] eqn:Hg; [|by apply finish_inv].
  apply checked_add_inv in Hg as [-> _]. destruct Hi as [I1 I2 I3 I4 I5 I6 IL I7 I8 I9 I10].
  split; try done.
  - eapply (fence_next s _ (sb_generation s + 1)); try done; lia.
  - destruct I6 as (_ & F2 & _).
    assert (∀ d, d ∈ hy_accepted h → dl_connection_generation d ≠ sb_generation s + 1) as Hne.
    { intros d Hin. specialize (F2 d Hin). lia. }
    split; [|done]. intros d Hin. split; [by apply (proj1 IL)|]. intros Heq. by destruct (Hne d Hin).
  - eapply fleet_ok_mono; [exact I7|..]; done.
  - transitivity (sb_active s); [done|]. by rewrite I9, Hn.
Qed.

(** Shutting the generation down closes its streams. *)
Lemma closed_inv s s' h a :
  client_inv s h → sb_phase s = PhShutdown a →
  s' = gauge ActiveConnections 0 (put_mitigating false (put_streams []
    (put_live (sb_live s ∖ list_to_set_disj (sb_streams s).*1) s))) →
  client_inv (put_phase (PhFlush None) s') h.
Proof.
  intros [I1 I2 I3 I4 I5 I6 IL I7 I8 I9 I10] Hph ->. split; try done.
  - destruct I6 as (F1 & F2 & F3 & F4 & held & F5 & F6). unfold fence_ok.
    cbn [sb_channel sb_generation sb_receiver_open sb_phase put_phase gauge put_metrics
      put_mitigating put_streams put_live]. split_and!; try done. exists held.
    split; [by eapply held_short|done].
  - by apply (log_ok_same s).
  - unfold fleet_ok in *. rewrite Hph in I7. cbn [driving] in I7. destruct I7 as [I7 _].
    cbn [driving sb_phase put_phase]. split; [done|].
    cbn [sb_live put_phase gauge put_metrics put_mitigating put_streams put_live]. rewrite I7.
    apply gmultiset_difference_diag.
  - transitivity (sb_active s); [done|]. by rewrite I9, Hph.
Qed.

(** [finish] and [begin_reopen] do not read the phase. *)
Lemma finish_phase e p s : finish e (put_phase p s) = finish e s.
Proof.
  unfold finish. change (cancelled (put_phase p s)) with (cancelled s).
  destruct e; [|done]. by destruct (cancelled s).
Qed.
Lemma begin_reopen_phase snapshot p s :
  begin_reopen snapshot (put_phase p s) = begin_reopen snapshot s.
Proof.
  unfold begin_reopen. cbn [sb_generation put_phase].
  destruct (checked_add _ _ _); [done|]. apply finish_phase.
Qed.

Lemma shutdown_generation_inv now streams mitigation a s h :
  client_inv s h → sb_phase s = PhShutdown a →
  client_inv (shutdown_generation now streams mitigation a s) h.
Proof.
  intros Hi Hph. unfold shutdown_generation.
  set (s1 := gauge ActiveConnections 0 _). pose proof (closed_inv s s1 h a Hi Hph eq_refl) as Hc.
  assert (∀ e s2, quiet s1 s2 → sb_phase s2 = sb_phase s1 → client_inv (finish e s2) h) as Hfin.
  { intros e s2 Hq Hp. rewrite <-(finish_phase e (PhFlush None)). apply finish_inv; [|done..].
    eapply quiet_same; [exact Hc|done|done]. }
  assert (∀ n s2, quiet s1 s2 → sb_phase s2 = sb_phase s1 → client_inv (begin_reopen n s2) h) as Hre.
  { intros n s2 Hq Hp. rewrite <-(begin_reopen_phase n (PhFlush None)).
    apply begin_reopen_inv; [|done..]. eapply quiet_same; [exact Hc|done|done]. }
  destruct a as [| |snap| |err|err]; destruct (combine_generation_shutdown streams mitigation);
    first [apply Hfin|apply Hre]; try done; quiet.
Qed.
End Steps.

(** *** Opening the next generation *)

(** A step between generations that stays there. *)
Lemma between_inv s s' h :
  client_inv s h → driving (sb_phase s) = false → is_done (sb_phase s) = false → quiet s s' →
  driving (sb_phase s') = false → is_done (sb_phase s') = false →
  (reopening (sb_phase s') = true → reopening (sb_phase s) = true) → opening_ok s' →
  client_inv s' h.
Proof.
  intros Hi Hd Hn Hq Hd' Hn' Hre Ho. eapply quiet_inv; try done; [congruence..| |by intros Hp; rewrite Hp in Hn'].
  intros held Hh. pose proof (held_short _ _ _ Hh) as Hs.
  destruct (sb_phase s'); try done; specialize (Hre eq_refl); by destruct (sb_phase s).
Qed.

Lemma reopen_attempt_inv snapshot backoff s h :
  client_inv s h → sb_phase s = PhReopen snapshot backoff →
  client_inv (reopen_attempt snapshot backoff s) h.
Proof.
  intros Hi Hph. unfold reopen_attempt.
  destruct (cancelled s); [by apply finish_inv; rewrite ?Hph|].
  pose proof (pi_coord _ _ _ _ _ (ci_progress _ _ Hi)) as [Hpo _ _].
  unfold processed_checkpoints, read_lock. rewrite Hpo.
  eapply (between_inv s); rewrite ?Hph; try done.
  unfold opening_ok. cbn [sb_phase put_phase sb_coordinator]. rewrite !dom_fmap_L. split; [done|].
  intros vb start Hs. rewrite !lookup_fmap in Hs.
  destruct (cs_partitions (sb_coordinator s) !! vb) as [p|]; [|done]. cbn in Hs. injection Hs as <-.
  exists (ps_processed p), p. split_and!; [done..|lia].
Qed.

(** What a backend's answer brings. *)
Lemma opened_starts q g :
  generation_ok q g →
  served (dom (og_starts q)) (gn_streams g) ∧ registry_wf (gn_registry g)
  ∧ dom (gn_effective_checkpoints g) = dom (og_starts q)
  ∧ ∀ vb d c, gn_effective_checkpoints g !! vb = Some d →
      og_starts q !! vb = Some (StartCheckpoint c) → ck_seqno d ≤ ck_seqno c.
Proof.
  intros (G1 & G2 & G3 & G4 & G5 & G6 & G7). split_and!; try done.
  - split_and!; [done| |done]. intros vb Hvb. destruct (G5 vb Hvb) as (node & _ & Hin & Hs).
    by exists node.
  - intros vb d c Hd Hc. destruct (G3 vb d Hd) as (e & _ & _ & _ & _ & _ & (start & Hs & Hnb) & _).
    rewrite Hc in Hs. by injection Hs as <-.
Qed.

(** The streams of a generation, opened or refused, serve the coordinator's vBuckets. *)
Lemma own_streams_fleet snapshot backoff starts g s s' :
  fleet_ok s → opening_ok s → sb_phase s = PhOpening snapshot backoff starts →
  generation_ok (reopen_request snapshot starts s) g →
  driving (sb_phase s') = true → sb_streams s' = gn_streams g →
  sb_live s' = list_to_set_disj (gn_streams g).*1 ⊎ sb_live s →
  dom (cs_partitions (sb_coordinator s')) = dom (cs_partitions (sb_coordinator s)) →
  fleet_ok s'.
Proof.
  intros Hf Ho Hph Hg Hd Hst Hl Hdom. apply opened_starts in Hg as (Hserved & _). cbn in Hserved.
  unfold fleet_ok in *. unfold opening_ok in Ho. rewrite Hph in Hf, Ho. cbn [driving] in Hf.
  destruct Hf as [_ Hf], Ho as [Hds _]. rewrite Hd, Hst, Hl, Hdom, Hf, <-Hds.
  split; [apply (right_id_L ∅ (⊎))|done].
Qed.
Lemma refuse_inv snapshot backoff starts g e s h :
  client_inv s h → sb_phase s = PhOpening snapshot backoff starts →
  generation_ok (reopen_request snapshot starts s) g →
  client_inv (refuse_generation e g s) h.
Proof.
  intros Hi Hph Hg. pose proof (ci_fleet _ _ Hi) as Hf. pose proof (ci_opening _ _ Hi) as Ho.
  destruct Hi as [I1 I2 I3 I4 I5 I6 IL I7 I8 I9 I10]. split; try done.
  - destruct I6 as (F1 & F2 & F3 & F4 & held & F5 & F6). rewrite Hph in F5. cbn in F5.
    split_and!; try done. exists held. split; [by rewrite F5; cbn; lia|done].
  - split; [by apply IL|done].
  - by eapply (own_streams_fleet snapshot backoff starts g s).
  - transitivity (sb_active s); [done|]. by rewrite I9, Hph.
Qed.

Lemma accept_inv now snapshot backoff starts g s h :
  client_inv s h → sb_phase s = PhOpening snapshot backoff starts →
  generation_ok (reopen_request snapshot starts s) g →
  client_inv (accept_reopened_generation now snapshot starts g s)
    (record_step (InOpen (OpenResult (Ok g))) s Silent
       (accept_reopened_generation now snapshot starts g s) h).
Proof.
  intros Hi Hph Hg. pose proof Hg as (_ & Hwf & _)%opened_starts.
  unfold accept_reopened_generation.
  pose proof (validate_opened_no_panic starts (gn_effective_checkpoints g) (gn_end_seqnos g)
    (Some (ss_frozen_end_seqnos (sb_settings s))) (len (gn_streams g))) as Hnp.
  destruct (validate_opened_partitions _ _ _ _ _) as [u|e|]; [| |done].
  2: by eapply (refuse_inv snapshot backoff starts g).
  destruct (rebase_partitions _ _ (sb_coordinator s)) as [r c] eqn:Hrb.
  pose proof (progress_rebase _ _ _ _ _ _ _ _ (ci_progress _ _ Hi) Hrb) as Hr.
  destruct r as [u'|e|]; [| |done].
  2:{ subst c. replace (put_coordinator (sb_coordinator s) s) with s by by destruct s.
      by eapply (refuse_inv snapshot backoff starts g). }
  destruct Hr as (Hpi & Hdc & _). destruct u'. cbn [record_step sb_phase put_phase].
  destruct Hi as [I1 I2 I3 I4 I5 I6 IL I7 I8 I9 I10]. split; try done.
  - destruct I6 as (F1 & F2 & F3 & F4 & held & F5 & F6). unfold fence_ok.
    cbn [sb_channel sb_generation sb_receiver_open sb_phase put_phase put_snapshot own_streams put_mitigating
      put_streams put_live put_health gauge put_metrics put_registry put_coordinator].
    split_and!; try done. exists held. rewrite Hph in F5. by split.
  - split; [|done]. intros d Hd. split; [by apply (proj1 IL)|].
    intros Hgd. destruct (proj2 IL ltac:(by rewrite Hph) d Hd Hgd).
  - by eapply (own_streams_fleet snapshot backoff starts g s).
  - transitivity (sb_active s); [done|]. by rewrite I9, Hph.
Qed.

Lemma backoff_round_inv elapsed snapshot backoff s h :
  client_inv s h → sb_phase s = PhBackoff snapshot backoff →
  client_inv (backoff_round elapsed snapshot backoff s) h.
Proof.
  intros Hi Hph. unfold backoff_round.
  destruct elapsed; [|destruct (cancelled s); [by apply finish_inv; rewrite ?Hph|]];
    eapply (between_inv s); rewrite ?Hph; try done; quiet.
Qed.

(** *** The end *)
Lemma notify_round_inv sent e s h s' :
  client_inv s h → sb_phase s = PhNotify e → notify_round sent e s = Some s' → client_inv s' h.
Proof.
  intros Hi Hph. unfold notify_round. destruct sent.
  - destruct (_ && _) eqn:Hcond; [|done]. intros [= <-].
    rewrite !andb_true_iff in Hcond. destruct Hcond as [[_ Hopen] _].
    destruct Hi as [I1 I2 I3 I4 I5 I6 IL I7 I8 I9 I10]. split; try done.
    + destruct I6 as (F1 & F2 & F3 & F4 & held & F5 & F6). unfold fence_ok.
      cbn [sb_channel sb_generation sb_receiver_open sb_phase put_phase put_channel].
      split_and!; try done.
      * intros o [Ho|Ho%list_elem_of_singleton]%elem_of_app; [by apply F1|]. subst o. cbn.
        split_and!; [done|lia|done].
      * by rewrite Hopen.
      * exists held. rewrite Hph in F5. split; [done|]. intros _. rewrite (F6 Hopen), queued_app.
        assert (queued (sb_generation s) [mkOutput (sb_generation s) (Err e)] = []) as ->.
        { unfold queued, queued_delivery. cbn. by destruct (_ =? _). }
        by rewrite app_nil_r.
    + by apply (log_ok_same s).
    + eapply fleet_ok_mono; [exact I7|..]; by rewrite ?Hph.
    + transitivity (sb_active s); [done|]. by rewrite I9, Hph.
  - destruct (_ || _); [|done]. intros [= <-]. eapply (between_inv s); rewrite ?Hph; try done; quiet.
Qed.

(** The task ends; the guard releases the subscription. *)
Lemma finish_task_inv r s h :
  client_inv s h → driving (sb_phase s) = false → r ≠ Panic → client_inv (finish_task r s) h.
Proof.
  intros [I1 I2 I3 I4 I5 I6 IL I7 I8 I9 I10] Hd Hr. split; try done; [| | |by intros [= ->]].
  - destruct I6 as (F1 & F2 & F3 & F4 & held & F5 & F6). unfold fence_ok.
    cbn [sb_channel sb_generation sb_receiver_open sb_phase put_phase gauge put_metrics
      put_active finish_task]. split_and!; try done. exists held.
    split; [by eapply held_short|done].
  - by apply (log_ok_same s).
  - by eapply fleet_ok_mono; [exact I7|..].
Qed.

(** The coordinator moves on by itself. *)
Lemma advance_inv s h c h' :
  client_inv s h → advances (sb_coordinator s) c →
  progress_inv (ss_bucket_uuid (sb_settings s)) c (hy_ledgers h') (issued h') (acked h') →
  hy_accepted h' = hy_accepted h → hy_yielded h' = hy_yielded h → hy_skipped h' = hy_skipped h →
  (∀ t, t ∈ hy_processed h' → t ∈ dl_tracked <$> hy_yielded h) →
  (∀ t, logged (hy_ledgers h) t → logged (hy_ledgers h') t) →
  client_inv (put_coordinator c s) h'.
Proof.
  intros [I1 I2 I3 I4 I5 I6 IL I7 I8 I9 I10] Hadv Hpi Ha Hy Hs Hp Hlog. split; try done.
  - by rewrite Hy.
  - by rewrite Hs.
  - unfold fence_ok in *. cbn [sb_channel sb_generation sb_receiver_open sb_phase put_coordinator].
    by rewrite Ha, Hy.
  - destruct IL as [L1 L2]. unfold log_ok. rewrite Ha. split; [|done].
    intros d Hd. destruct (L1 d Hd) as [Hc Hl]. auto.
  - eapply fleet_ok_mono; [exact I7|..]; try done. apply Hadv.
  - by eapply opening_ok_mono; [exact I8|..].
Qed.

Lemma flush_round_inv now scheduler gate save elapsed e s h :
  client_inv s h → sb_phase s = PhFlush e →
  client_inv (flush_round now scheduler gate save elapsed e s) h.
Proof.
  intros Hi Hph. unfold flush_round.
  destruct (match scheduler with Some _ => _ | None => _ end) as [r c] eqn:Hrun.
  assert (r ≠ Panic ∧ client_inv (put_coordinator c s) h) as [Hr Hc].
  { destruct scheduler as [m|].
    - injection Hrun as <- <-. split; [done|].
      by replace (put_coordinator (sb_coordinator s) s) with s by by destruct s.
    - destruct (progress_flush _ _ _ _ _ _ _ _ _ _ _ (ci_progress _ _ Hi) Hrun) as (? & ? & ?).
      split; [done|]. eapply advance_inv; try done. apply Hi. }
  assert (∀ r' s', r' ≠ Panic → quiet (put_coordinator c s) s' →
    sb_phase s' = sb_phase s → client_inv (finish_task r' s') h) as Hfin.
  { intros r' s' Hr' Hq Hp. apply finish_task_inv; [|by rewrite Hp, Hph|done].
    by eapply quiet_same; [exact Hc|..]. }
  destruct e as [e|], r as [rep|err|]; try done; apply Hfin; try done; quiet.
Qed.

(** *** The application and the health task *)
Lemma queued_cons g o l :
  queued g (o :: l) = match queued_delivery g o with Some d => [d] | None => [] end ++ queued g l.
Proof. unfold queued. cbn. by destruct (queued_delivery g o). Qed.

(** The head of the queue moves to the application, or is dropped. *)
Lemma fence_poll s s' h o rest :
  fence_ok s h → sb_receiver_open s = true → sb_channel s = o :: rest →
  sb_channel s' = rest → sb_generation s' = sb_generation s →
  sb_receiver_open s' = sb_receiver_open s → sb_phase s' = sb_phase s →
  let y := match queued_delivery (sb_generation s) o with Some d => [d] | None => [] end in
  fence_ok s' (mkHistory (hy_ledgers h) (hy_accepted h) (hy_yielded h ++ y) (hy_processed h)
                 (hy_skipped h))
  ∧ ∀ d, queued_delivery (sb_generation s) o = Some d →
      dl_connection_generation d = sb_generation s.
Proof.
  intros (F1 & F2 & F3 & F4 & held & F5 & F6) Hopen Hch Hc Hg Hr Hp y.
  rewrite Hch in F1, F6. specialize (F6 Hopen).
  assert (∀ d, queued_delivery (sb_generation s) o = Some d →
    dl_connection_generation d = sb_generation s) as Hgen.
  { intros d. unfold queued_delivery. destruct (Z.eqb_spec (mo_generation o) (sb_generation s)) as [<-|];
      [|done]. destruct (F1 o (list_elem_of_here _ _)) as (_ & _ & Hgen).
    destruct (mo_item o) as [d'|er|]; try done. intros [= ->]. by apply Hgen. }
  assert (∀ d, d ∈ y → dl_connection_generation d = sb_generation s) as Hy.
  { intros d. unfold y. destruct (queued_delivery _ o); [|by intros ?%elem_of_nil].
    intros ->%list_elem_of_singleton. by apply Hgen. }
  assert (of_generation (sb_generation s) y = y) as Hcur.
  { unfold y. destruct (queued_delivery _ o) as [d|]; [|done].
    rewrite <-(Hgen d eq_refl). apply of_generation_one. }
  rewrite queued_cons in F6. fold y in F6. split; [|done].
  unfold fence_ok. rewrite Hc, Hg, Hr, Hp. cbn [hy_accepted hy_yielded]. split_and!; try done.
  - intros o' Ho'. apply F1. by right.
  - intros g. rewrite of_generation_app. destruct (decide (g = sb_generation s)) as [-> |Hne].
    + rewrite F6, Hcur, <-!app_assoc. apply prefix_app, prefix_app_r. done.
    + rewrite (of_generation_none g y); [by rewrite app_nil_r|]. intros d Hd%Hy. congruence.
  - by rewrite Hopen.
  - exists held. split; [done|]. intros _. by rewrite F6, of_generation_app, Hcur, <-!app_assoc.
Qed.

Lemma poll_inv s h y s' :
  client_inv s h → sb_receiver_open s = true → poll_output s = Some (y, s') →
  client_inv s' (record_step InPoll s (match y with Some item => Yielded item | None => Silent end) s' h)
  ∧ ∀ d, y = Some (Ok d) → dl_connection_generation d = sb_generation s.
Proof.
  intros Hi Hopen Hpoll. unfold poll_output in Hpoll.
  destruct (sb_channel s) as [|o rest] eqn:Hch; [done|].
  assert (∀ s1, quiet (put_channel rest s) s1 → sb_phase s1 = sb_phase s →
    client_inv s1 (mkHistory (hy_ledgers h) (hy_accepted h) (hy_yielded h ++
      match queued_delivery (sb_generation s) o with Some d => [d] | None => [] end)
      (hy_processed h) (hy_skipped h))) as Hinv.
  { intros s1 Hq Hp. destruct Hq as (Q1 & Q2 & Q3 & Q4 & Q5 & Q6 & Q7 & Q8 & Q9).
    destruct Hi as [I1 I2 I3 I4 I5 I6 IL I7 I8 I9 I10].
    split; rewrite ?Q1, ?Q2, ?Q3, ?Q7, ?Hp; try done.
    - intros t Ht%I2. cbn. rewrite fmap_app. apply elem_of_app. by left.
    - by apply (fence_poll s s1 h o rest).
    - apply (log_ok_same s); [done..|]. by rewrite Hp.
    - eapply fleet_ok_mono; [exact I7|..]; by rewrite ?Hp, ?Q2.
    - eapply opening_ok_mono; [exact I8|done|]. rewrite Q2. apply advances_refl. }
  destruct (fence_poll s (put_channel rest s) h o rest) as [_ Hgen]; [apply Hi|done..|].
  unfold queued_delivery in *. change (sb_generation (put_channel rest s)) with (sb_generation s) in Hpoll.
  destruct (mo_generation o =? sb_generation s) eqn:Hg; cbn [negb] in Hpoll.
  - injection Hpoll as <- <-. cbn [record_step]. destruct (ci_fence _ _ Hi) as (F1 & _).
    rewrite Hch in F1. destruct (F1 o (list_elem_of_here _ _)) as (Hnp & _).
    destruct (mo_item o) as [d|e|]; [| |done].
    + split; [|intros ? [= <-]; by apply Hgen]. apply Hinv; quiet.
    + rewrite app_nil_r in Hinv. destruct h. split; [|done]. apply Hinv; quiet.
  - injection Hpoll as <- <-. cbn [record_step]. rewrite app_nil_r in Hinv. split; [|done].
    destruct h. apply Hinv; quiet.
Qed.

Lemma mark_processed_inv d s h :
  client_inv s h → d ∈ hy_yielded h →
  client_inv (mark_processed d s).2 (record_step (InProcessed d) s Silent s h).
Proof.
  intros Hi Hd. cbn [record_step].
  assert (d ∈ hy_accepted h) as Hacc.
  { pose proof (ci_fence _ _ Hi) as (_ & _ & F3 & _).
    assert (d ∈ of_generation (dl_connection_generation d) (hy_accepted h)) as Hin.
    { eapply elem_of_prefix; [|apply F3]. by apply list_elem_of_filter. }
    by apply list_elem_of_filter in Hin as [_ ?]. }
  pose proof (ci_progress _ _ Hi) as Hpi.
  unfold mark_processed, tracked_acknowledge, ack_ledgers.
  assert (∀ t, t ∈ hy_processed h ++ [dl_tracked d] → t ∈ dl_tracked <$> hy_yielded h) as Hpr.
  { intros t [Ht|Ht%list_elem_of_singleton]%elem_of_app; [by apply (ci_processed _ _ Hi)|].
    subst t. by apply list_elem_of_fmap_2. }
  assert (∀ t, t ∈ acked h ++ [dl_tracked d] → t ∈ (hy_processed h ++ [dl_tracked d]) ++ hy_skipped h)
    as Hack by (intros t; unfold acked; rewrite !elem_of_app; tauto).
  destruct (te_ack (dl_tracked d)) as [a|] eqn:Ha.
  - destruct (acknowledge a (sb_coordinator s)) as [r c] eqn:Hrun.
    destruct (progress_ack _ _ _ _ _ (dl_tracked d) a r c Hpi) as (Hr & Hpi' & Hadv); [|done..|].
    { unfold issued. apply elem_of_app. left. by apply list_elem_of_fmap_2. }
    match goal with |- client_inv _ ?h' => assert (client_inv (put_coordinator c s) h') as Hinv end.
    { eapply advance_inv; try done.
      - eapply progress_weaken; [exact Hpi'|done|exact Hack].
      - intros t. apply logged_ack. }
    destruct r; cbn [res_map snd]; [|done..]. eapply quiet_same; [exact Hinv|quiet|done].
  - cbn [snd].
    match goal with |- client_inv _ ?h' =>
      assert (client_inv (put_coordinator (sb_coordinator s) s) h') as Hinv end.
    { eapply advance_inv; try done; [apply advances_refl|].
      eapply progress_weaken; [exact Hpi|done|].
      intros t Ht. apply Hack, elem_of_app. by left. }
    eapply quiet_same; [exact Hinv|quiet|done].
Qed.

Section Reachable.
Context (cccp_from_slice : bytes → string + RawBucketConfig).
Context `{ClientBackend B}.

Lemma open_answer_ok (b : B) q live r live' :
  handler_total (og_rollback_handler q) → backend_open b q live = (Done r, live') →
  r ≠ Panic ∧ ∀ g, r = Ok g → generation_ok q g.
Proof.
  intros Hh Hrun. pose proof (backend_open_ok b q live Hh) as Hc. unfold open_contract in Hc.
  rewrite Hrun in Hc. cbn in Hc. destruct r as [g|e|]; [|done..]. split; [done|].
  intros g' [= <-]. apply Hc.
Qed.

Lemma open_round_inv now w snapshot backoff starts s h :
  client_inv s h → sb_phase s = PhOpening snapshot backoff starts →
  input_ok (B:=B) h (InOpen w) s →
  client_inv (open_round now w snapshot backoff starts s)
    (record_step (InOpen w) s Silent (open_round now w snapshot backoff starts s) h).
Proof.
  intros Hi Hph Hok. destruct w as [r|].
  - cbn [input_ok] in Hok. rewrite Hph in Hok. destruct Hok as (b & live' & Hrun).
    apply open_answer_ok in Hrun as [Hr Hg]; [|apply (ci_handler _ _ Hi)].
    destruct r as [g|e|]; [| |done].
    + by apply (accept_inv now snapshot backoff starts g); [..|apply Hg].
    + cbn [record_step delivered_event]. unfold delivered_event, open_round.
      destruct (is_retryable e); [|by apply finish_inv; rewrite ?Hph].
      eapply (between_inv s); rewrite ?Hph; try done; quiet.
  - cbn [record_step]. unfold delivered_event, open_round.
    destruct (cancelled s); [by apply finish_inv; rewrite ?Hph|].
    eapply (between_inv s); rewrite ?Hph; try done; quiet.
Qed.

Lemma step_record i s y s' s0 h :
  (∀ g, i ≠ InOpen (OpenResult (Ok g))) → i ≠ InPoll →
  record_step i s y s' h = record_step i s Silent s0 h.
Proof. intros Hi Hp. destruct i as [| | | | | |[[]|]| | | | | | | | | | |]; try done; by destruct (Hi a). Qed.

Lemma client_step_inv now i s h y s' :
  client_inv s h → input_ok (B:=B) h i s →
  client_step cccp_from_slice now i s = Some (y, s') →
  client_inv s' (record_step i s y s' h).
Proof.
  intros Hi Hok Hrun. unfold client_step in Hrun.
  destruct i as [p|w|w| |streams mitigation| |w|elapsed|sent|scheduler gate save elapsed| |d
    |gate save elapsed|drop| | |probe| ].
  1-10: destruct (sb_phase s) eqn:Hph; try done.
  - injection Hrun as <- <-. rewrite (step_record _ _ _ _ s) by done. apply drive_round_inv; [done..|].
    intros ->. by apply Hok.
  - apply fmap_Some in Hrun as (s1 & Hr & [= -> ->]). by eapply gate_round_inv.
  - apply fmap_Some in Hrun as (s1 & Hr & [= -> ->]). cbn [record_step]. unfold delivered_event. by eapply send_round_inv.
  - injection Hrun as <- <-. cbn [record_step]. unfold delivered_event.
    apply (shutdown_for_inv _ s); [done|by rewrite Hph|quiet].
  - injection Hrun as <- <-. cbn [record_step]. unfold delivered_event.
    by apply shutdown_generation_inv.
  - injection Hrun as <- <-. cbn [record_step]. unfold delivered_event. by apply reopen_attempt_inv.
  - injection Hrun as <- <-. by apply open_round_inv.
  - injection Hrun as <- <-. cbn [record_step]. unfold delivered_event. by apply backoff_round_inv.
  - apply fmap_Some in Hrun as (s1 & Hr & [= -> ->]). cbn [record_step]. unfold delivered_event.
    by eapply notify_round_inv.
  - injection Hrun as <- <-. cbn [record_step]. unfold delivered_event. by apply flush_round_inv.
  - destruct (sb_receiver_open s) eqn:Hopen; [|done].
    apply fmap_Some in Hrun as ([y1 s1] & Hr & Heq). cbv beta iota in Heq.
    injection Heq as -> ->. by apply poll_inv.
  - injection Hrun as <- <-. rewrite (step_record _ _ _ _ s) by done. by apply mark_processed_inv.
  - injection Hrun as <- <-. cbn [record_step]. unfold delivered_event.
    destruct (flush _ gate save elapsed (sb_coordinator s)) as [r c] eqn:Hf.
    destruct (progress_flush _ _ _ _ _ _ _ _ _ _ _ (ci_progress _ _ Hi) Hf) as (? & ? & ?).
    eapply advance_inv; try done. apply Hi.
  - injection Hrun as <- <-. cbn [record_step]. unfold delivered_event. destruct drop.
    + destruct Hi as [I1 I2 I3 I4 I5 I6 IL I7 I8 I9 I10]. split; try done.
      destruct I6 as (F1 & F2 & F3 & F4 & held & F5 & F6). unfold fence_ok.
      cbn [sb_channel sb_generation sb_receiver_open sb_phase put_local_cancel put_receiver_open
        put_channel]. split_and!; try done; [by intros ? ?%elem_of_nil|]. by exists held.
    + eapply quiet_same; [exact Hi|quiet|done].
  - injection Hrun as <- <-. eapply quiet_same; [exact Hi|quiet|done].
  - apply fmap_Some in Hrun as (h1 & Hr & [= -> ->]). cbn [record_step]. unfold delivered_event.
    apply health_wake_quiet in Hr. eapply quiet_same; [exact Hi|exact Hr|done].
  - apply fmap_Some in Hrun as (h1 & Hr & [= -> ->]). cbn [record_step]. unfold delivered_event.
    apply health_round_quiet in Hr. eapply quiet_same; [exact Hi|exact Hr|done].
  - apply fmap_Some in Hrun as (h1 & Hr & [= -> ->]). cbn [record_step]. unfold delivered_event.
    apply health_publish_quiet in Hr. eapply quiet_same; [exact Hi|exact Hr|done].
Qed.

(** *** The start *)
Lemma mark_changed_progress uuid loaded effective : ∀ c ls I D r c',
  progress_inv uuid c ls I D → mark_changed loaded effective c = (r, c') →
  progress_inv uuid c' ls I D ∧ advances c c'.
Proof.
  induction effective as [|[vb d] l IH]; intros c ls I D r c' Hpi Hrun; cbn [mark_changed] in Hrun.
  { injection Hrun as <- <-. split; [done|apply advances_refl]. }
  case_bool_decide; [by eapply IH|]. destruct (mark_dirty vb c) as [r1 c1] eqn:Hm.
  destruct (progress_mark_dirty _ _ _ _ _ _ _ _ Hpi Hm) as (_ & Hpi1 & Hadv1).
  destruct r1 as [u|e|]; [|by injection Hrun as _ <-..].
  destruct (IH _ _ _ _ _ _ Hpi1 Hrun) as [? ?]. split; [done|by eapply advances_trans].
Qed.

Lemma prepare_ok (b : B) config topology spec load_reply p live :
  handler_total (sp_rollback_handler spec) →
  prepare_subscription b config topology spec load_reply ∅ = (Done (Ok p), live) →
  progress_inv (pr_bucket_uuid p) (pr_coordinator p)
    ((λ c, mkLedger c []) <$> gn_effective_checkpoints (pr_opened p)) [] []
  ∧ live = list_to_set_disj (gn_streams (pr_opened p)).*1
  ∧ served (dom (cs_partitions (pr_coordinator p))) (gn_streams (pr_opened p))
  ∧ registry_wf (gn_registry (pr_opened p)).
Proof.
  intros Hh Hrun. unfold prepare_subscription in Hrun.
  apply io_bind_ok in Hrun as (assigned & l1 & H1 & Hrun). injection H1 as _ <-.
  apply io_bind_ok in Hrun as (loaded & l2 & H2 & Hrun). injection H2 as _ <-.
  apply io_bind_ok in Hrun as (starts & l3 & H3 & Hrun). injection H3 as _ <-.
  apply io_bind_ok in Hrun as (g & l4 & H4 & Hrun).
  match type of H4 with backend_open b ?q _ = _ => pose proof (backend_open_ok b q ∅ Hh) as Hc end.
  unfold open_contract in Hc. rewrite H4 in Hc. cbn in Hc. destruct Hc as [-> Hg].
  apply opened_starts in Hg as (Hserved & Hwf & Hdom & _). cbn in Hserved, Hdom.
  destruct (validate_opened_partitions _ _ _ _ _) as [u|e|];
    [|by apply fail_generation_not_ok in Hrun|done].
  destruct (coordinator_new _ _) as [[uuid c]|e|] eqn:Hnew;
    [|by apply fail_generation_not_ok in Hrun|done].
  destruct (mark_changed_initial_positions _ _ c) as [[u1|e|] c1] eqn:Hm;
    [|by apply fail_generation_not_ok in Hrun|done].
  injection Hrun as <- <-. cbn [pr_bucket_uuid pr_coordinator pr_opened].
  destruct (progress_new _ _ _ _ Hnew) as [Hpi Hd].
  destruct (mark_changed_progress _ _ _ _ _ _ _ _ _ Hpi Hm) as [Hpi1 Hadv].
  split_and!; [done|apply (right_id_L ∅ (⊎))| |done].
  by rewrite (proj1 Hadv), Hd, Hdom.
Qed.

Lemma activate_inv now (b : B) config topology spec reply p h :
  handler_total (sp_rollback_handler spec) → sh_active h = true →
  prepare_subscription b config topology spec reply ∅ = (Done (Ok p), sh_live h) →
  client_inv (activate_subscription now config spec p h)
    (mkHistory ((λ c, mkLedger c []) <$> gn_effective_checkpoints (pr_opened p)) [] [] [] []).
Proof.
  intros Hh Hact Hprep.
  apply prepare_ok in Hprep as (Hpi & Hlive & Hserved & Hwf); [|done]. split; try done.
  - by intros t ?%elem_of_nil.
  - unfold fence_ok. cbn. split_and!; try done.
    + by intros ? ?%elem_of_nil.
    + by intros ? ?%elem_of_nil.
    + by exists [].
  - split; [|done]. by intros ? ?%elem_of_nil.
Qed.

Lemma client_reachable_inv s h :
  client_reachable (B:=B) cccp_from_slice s h → client_inv s h.
Proof.
  induction 1; [by eapply activate_inv|by eapply client_step_inv].
Qed.
End Reachable.

(** ** Runs of inputs *)
Section Run.
Context (cccp_from_slice : bytes → string + RawBucketConfig).
Context `{ClientBackend B}.

Fixpoint client_run (inputs : list (Z * Input)) (s : Subscription) (h : History)
    : option (Subscription * History) :=
  match inputs with
  | [] => Some (s, h)
  | (now, i) :: inputs =>
      match client_step cccp_from_slice now i s with
      | Some (y, s') => client_run inputs s' (record_step i s y s' h)
      | None => None
      end
  end.
Fixpoint inputs_ok (inputs : list (Z * Input)) (s : Subscription) (h : History) : Prop :=
  match inputs with
  | [] => True
  | (now, i) :: inputs => input_ok (B:=B) h i s ∧
      match client_step cccp_from_slice now i s with
      | Some (y, s') => inputs_ok inputs s' (record_step i s y s' h)
      | None => True
      end
  end.

Lemma client_run_reachable inputs : ∀ s h s' h',
  client_reachable (B:=B) cccp_from_slice s h → inputs_ok inputs s h →
  client_run inputs s h = Some (s', h') → client_reachable (B:=B) cccp_from_slice s' h'.
Proof.
  induction inputs as [|[now i] inputs IH]; intros s h s' h' Hr Hok Hrun; cbn in *.
  { by injection Hrun as <- <-. }
  destruct Hok as [Hi Hok]. destruct (client_step _ _ _ _) as [[y s1]|] eqn:Hs; [|done].
  eapply IH; [|done..]. by eapply cr_step.
Qed.
End Run.

(** ** Lemmas: the end after a cancellation *)

(** The inputs the supervising task executes. *)
Definition is_task (i : Input) : bool :=
  match i with
  | InPoll | InProcessed _ | InAppFlush _ _ _ | InClose _ | InClientClose | InHealthWake | InHealth _
  | InHealthPublish => false
  | _ => true
  end.

(** How many of them a cancelled task executes at most. *)
Definition steps_left (p : Phase) : nat :=
  match p with
  | PhDone _ => 0
  | PhFlush _ => 1
  | PhNotify _ | PhReopen _ _ => 2
  | PhShutdown _ | PhBackoff _ _ => 3
  | PhDrive | PhPublish _ | PhGate _ => 4
  | PhSend _ | PhOpening _ _ _ => 5
  end.

Section Stop.
Context (cccp_from_slice : bytes → string + RawBucketConfig).

Definition same_flags (s s' : Subscription) : Prop :=
  sb_global_cancel s' = sb_global_cancel s ∧ sb_local_cancel s' = sb_local_cancel s.

Lemma finish_stop e s :
  cancelled s = true → (steps_left (sb_phase (finish e s)) ≤ 1)%nat ∧ same_flags s (finish e s).
Proof. intros Hc. unfold finish. rewrite Hc. destruct e; cbn; split; [lia|done|lia|done]. Qed.
Lemma begin_reopen_stop n s :
  cancelled s = true →
  (steps_left (sb_phase (begin_reopen n s)) ≤ 2)%nat ∧ same_flags s (begin_reopen n s).
Proof.
  intros Hc. unfold begin_reopen. destruct (checked_add _ _ _); [cbn; split; [lia|done]|].
  destruct (finish_stop (Some (StreamError 0 "connection generation overflow")) s Hc). split; [lia|done].
Qed.
Lemma shutdown_stop now streams mitigation a s :
  cancelled s = true →
  (steps_left (sb_phase (shutdown_generation now streams mitigation a s)) ≤ 2)%nat
  ∧ same_flags s (shutdown_generation now streams mitigation a s).
Proof.
  intros Hc. unfold shutdown_generation. set (s1 := gauge ActiveConnections 0 _).
  assert (∀ e s2, same_flags s s2 → (steps_left (sb_phase (finish e s2)) ≤ 2)%nat
    ∧ same_flags s (finish e s2)) as Hfin.
  { intros e s2 [F1 F2]. destruct (finish_stop e s2) as [? [G1 G2]];
      [unfold cancelled in *; by rewrite F1, F2|]. split; [lia|split; congruence]. }
  assert (∀ n s2, same_flags s s2 → (steps_left (sb_phase (begin_reopen n s2)) ≤ 2)%nat
    ∧ same_flags s (begin_reopen n s2)) as Hre.
  { intros n s2 [F1 F2]. destruct (begin_reopen_stop n s2) as [? [G1 G2]];
      [unfold cancelled in *; by rewrite F1, F2|]. split; [lia|split; congruence]. }
  destruct a; destruct (combine_generation_shutdown streams mitigation);
    first [by apply Hfin|by apply Hre].
Qed.
Lemma accept_stop now snapshot starts g s :
  cancelled s = true →
  (steps_left (sb_phase (accept_reopened_generation now snapshot starts g s)) ≤ 4)%nat
  ∧ same_flags s (accept_reopened_generation now snapshot starts g s).
Proof.
  intros Hc. unfold accept_reopened_generation.
  destruct (validate_opened_partitions _ _ _ _ _); [|cbn; split; [lia|done]..].
  destruct (rebase_partitions _ _ _) as [[u|e|] c]; cbn; (split; [lia|done]).
Qed.
Lemma flush_stop now scheduler gate save elapsed e s :
  steps_left (sb_phase (flush_round now scheduler gate save elapsed e s)) = 0%nat
  ∧ same_flags s (flush_round now scheduler gate save elapsed e s).
Proof.
  unfold flush_round. destruct (match scheduler with Some _ => _ | None => _ end) as [[]]; by destruct e.
Qed.

Lemma task_stop now i s y s' :
  cancelled s = true → is_task i = true → client_step cccp_from_slice now i s = Some (y, s') →
  (steps_left (sb_phase s') < steps_left (sb_phase s))%nat ∧ same_flags s s'.
Proof.
  intros Hc Ht Hrun. unfold client_step in Hrun.
  destruct i as [p|w|w| |streams mitigation| |w|elapsed|sent|scheduler gate save elapsed| | | | | | | | ];
    try done; destruct (sb_phase s) eqn:Hph; try done; cbn [steps_left].
  - injection Hrun as <- <-. unfold drive_round. rewrite Hc. cbn. split; [lia|done].
  - apply fmap_Some in Hrun as (s1 & Hr & [= -> ->]). unfold gate_round in Hr.
    destruct w as [| |m x ws]; rewrite ?Hc in Hr.
    + injection Hr as <-. cbn. split; [lia|done].
    + destruct (newer_topology _ _); injection Hr as <-; cbn; (split; [lia|done]).
    + by destruct (mitigation_position e) as [[]|].
  - apply fmap_Some in Hrun as (s1 & Hr & [= -> ->]). destruct w; cbn [send_round] in Hr;
      [destruct (_ && _)|destruct (sb_receiver_open s)|rewrite Hc in Hr]; try done;
      injection Hr as <-; cbn; (split; [lia|done]).
  - injection Hrun as <- <-. cbn. split; [lia|done].
  - injection Hrun as <- <-. destruct (shutdown_stop now streams mitigation a s Hc). split; [lia|done].
  - injection Hrun as <- <-. unfold reopen_attempt. rewrite Hc.
    destruct (finish_stop None s Hc). split; [lia|done].
  - injection Hrun as <- <-. destruct w as [[g|e|]|]; cbn [open_round].
    + destruct (accept_stop now s0 starts g s Hc). split; [lia|done].
    + destruct (is_retryable e); [cbn; split; [lia|done]|].
      destruct (finish_stop (Some e) s Hc). split; [lia|done].
    + cbn. split; [lia|done].
    + rewrite Hc. destruct (finish_stop None s Hc). split; [lia|done].
  - injection Hrun as <- <-. unfold backoff_round. rewrite Hc. destruct elapsed; [cbn; split; [lia|done]|].
    destruct (finish_stop None s Hc). split; [lia|done].
  - apply fmap_Some in Hrun as (s1 & Hr & [= -> ->]). unfold notify_round in Hr. rewrite Hc in Hr.
    destruct sent; cbn in Hr; [done|]. injection Hr as <-. cbn. split; [lia|done].
  - injection Hrun as <- <-. destruct (flush_stop now scheduler gate save elapsed e s) as [-> ?].
    split; [lia|done].
Qed.

Lemma health_wake_cancel now h h' :
  health_wake now h = Some h' → sh_global_cancel h' = sh_global_cancel h.
Proof.
  unfold health_wake. destruct (sh_health_task _); try done. intros [= <-].
  by destruct (sh_global_cancel h) eqn:Hc.
Qed.
Lemma health_round_cancel config probe h h' :
  health_round config probe h = Some h' → sh_global_cancel h' = sh_global_cancel h.
Proof.
  unfold health_round. destruct (sh_health_task _); try done. intros [= <-].
  destruct probe as [[candidate|e|]|]; try done.
  unfold apply_topology_candidate. by destruct (topology_apply _ _) as [[[ch|]|e|] t].
Qed.
Lemma health_publish_cancel h h' :
  health_publish h = Some h' → sh_global_cancel h' = sh_global_cancel h.
Proof. unfold health_publish. destruct (sh_health_task _); try done. by intros [= <-]. Qed.

Lemma other_stop now i s y s' :
  is_task i = false → client_step cccp_from_slice now i s = Some (y, s') →
  sb_phase s' = sb_phase s ∧ (cancelled s = true → cancelled s' = true).
Proof.
  intros Ht Hrun. unfold client_step in Hrun.
  destruct i as [| | | | | | | | | | |d|gate save elapsed|drop| | |probe| ]; try done.
  - destruct (sb_receiver_open s); [|done]. apply fmap_Some in Hrun as ([y1 s1] & Hr & Heq).
    cbv beta iota in Heq. injection Heq as -> ->. unfold poll_output in Hr.
    destruct (sb_channel s) as [|o l]; [done|]. destruct (negb _); injection Hr as <- <-; [done|].
    by destruct (mo_item o).
  - injection Hrun as <- <-. unfold mark_processed.
    destruct (tracked_acknowledge _ _) as [[o|e|] c]; done.
  - by injection Hrun as <- <-.
  - injection Hrun as <- <-. destruct drop; (split; [done|]); intros _; unfold cancelled; cbn;
      apply orb_true_r.
  - injection Hrun as <- <-. by split.
  - apply fmap_Some in Hrun as (h1 & Hr & [= -> ->]). split; [done|]. unfold cancelled.
    intros [Hc|Hc]%orb_true_iff; apply orb_true_iff; [left|by right].
    etrans; [apply (health_wake_cancel _ _ _ Hr)|exact Hc].
  - apply fmap_Some in Hrun as (h1 & Hr & [= -> ->]). split; [done|]. unfold cancelled.
    intros [Hc|Hc]%orb_true_iff; apply orb_true_iff; [left|by right].
    etrans; [apply (health_round_cancel _ _ _ _ Hr)|exact Hc].
  - apply fmap_Some in Hrun as (h1 & Hr & [= -> ->]). split; [done|]. unfold cancelled.
    intros [Hc|Hc]%orb_true_iff; apply orb_true_iff; [left|by right].
    etrans; [apply (health_publish_cancel _ _ Hr)|exact Hc].
Qed.

Lemma run_stop inputs : ∀ s h s' h',
  cancelled s = true → client_run cccp_from_slice inputs s h = Some (s', h') →
  cancelled s' = true ∧
  (length (filter (λ ni, is_task ni.2 = true) inputs) + steps_left (sb_phase s')
   ≤ steps_left (sb_phase s))%nat.
Proof.
  induction inputs as [|[now i] inputs IH]; intros s h s' h' Hc Hrun; cbn [client_run] in Hrun.
  { injection Hrun as <- <-. cbn. by split. }
  destruct (client_step _ _ _ _) as [[y s1]|] eqn:Hs; [|done].
  destruct (is_task i) eqn:Ht.
  - destruct (task_stop _ _ _ _ _ Hc Ht Hs) as [Hlt [F1 F2]].
    destruct (IH _ _ _ _ ltac:(unfold cancelled in *; by rewrite F1, F2) Hrun) as [Hc' Hle].
    split; [done|]. rewrite filter_cons_True by done. cbn [length]. lia.
  - destruct (other_stop _ _ _ _ _ Ht Hs) as [Hp Hcc].
    destruct (IH _ _ _ _ (Hcc Hc) Hrun) as [Hc' Hle]. split; [done|].
    rewrite filter_cons_False by (cbn; by rewrite Ht). by rewrite Hp in Hle.
Qed.

(** The input that the cancellation itself makes available. *)
Definition stop_input (p : Phase) : Input :=
  match p with
  | PhDrive | PhDone _ => InDrive PolledNothing
  | PhGate _ => InGate GateCancelled
  | PhSend _ => InSend SendWake
  | PhPublish _ => InPublish
  | PhShutdown _ => InShutdown (Ok tt) (Ok tt)
  | PhReopen _ _ => InReopen
  | PhOpening _ _ _ => InOpen OpenWake
  | PhBackoff _ _ => InBackoff false
  | PhNotify _ => InNotify false
  | PhFlush _ => InFlush None true (λ _, SaveOk) 0
  end.
Lemma stop_enabled `{ClientBackend B} now s h :
  cancelled s = true → is_done (sb_phase s) = false →
  is_task (stop_input (sb_phase s)) = true ∧ input_ok (B:=B) h (stop_input (sb_phase s)) s
  ∧ is_Some (client_step cccp_from_slice now (stop_input (sb_phase s)) s).
Proof.
  intros Hc Hn. unfold client_step. destruct (sb_phase s); try done; cbn;
    unfold notify_round; rewrite ?Hc; cbn; by eexists.
Qed.
End Stop.

(** ** Properties *)
Section Properties.
Context (cccp_from_slice : bytes → string + RawBucketConfig).
Context `{ClientBackend B}.
Abbreviation reachable := (client_reachable (B:=B) cccp_from_slice).
Abbreviation step := (client_step cccp_from_slice).

(** C8: the queue delivers each generation in order and nothing of another one.  In every
    reachable state, what the application has received of a connection generation is a
    prefix of what the task accepted in it; while the generation is driven and the receiver
    is open, the rest is exactly what is queued; and whatever the application receives next
    belongs to the current generation, however many stale outputs the queue still holds. *)
Theorem deliveries_in_order s h :
  reachable s h →
  (∀ g, of_generation g (hy_yielded h) `prefix_of` of_generation g (hy_accepted h))
  ∧ (sb_phase s = PhDrive → sb_receiver_open s = true →
     of_generation (sb_generation s) (hy_accepted h)
     = of_generation (sb_generation s) (hy_yielded h) ++ queued (sb_generation s) (sb_channel s))
  ∧ (∀ now d s', step now InPoll s = Some (Yielded (Ok d), s') →
     dl_connection_generation d = sb_generation s).
Proof.
  intros Hr. apply client_reachable_inv in Hr.
  pose proof (ci_fence _ _ Hr) as (_ & _ & Hpre & _ & held & Hheld & Hcur). split_and!; [done| |].
  - intros Hph Hopen. rewrite Hph in Hheld. cbn in Hheld. subst held.
    by rewrite (Hcur Hopen), app_nil_r.
  - intros now d s' Hs. unfold client_step in Hs.
    destruct (sb_receiver_open s) eqn:Hopen; [|done].
    apply fmap_Some in Hs as ([y s1] & Hp & Heq). cbv beta iota in Heq.
    destruct (poll_inv s h y s1 Hr Hopen Hp) as [_ Hgen]. apply Hgen.
    destruct y as [item|]; by simplify_eq.
Qed.

(** C5: at least once, end to end.  In every reachable state, a delivery that the task
    accepted on the current connection generation and that the processed position of its
    vBucket covers was received by the application and acknowledged by it: no cancellation,
    reconnection, stale acknowledgement, listener cut-off or flush lets a checkpoint pass an
    event the application has not handled. *)
Theorem processed_was_acknowledged s h d a p :
  reachable s h → d ∈ hy_accepted h → dl_connection_generation d = sb_generation s →
  te_ack (dl_tracked d) = Some a → cs_partitions (sb_coordinator s) !! ea_vbucket a = Some p →
  ea_seqno a ≤ ck_seqno (ps_processed p) →
  dl_tracked d ∈ hy_processed h ∧ dl_tracked d ∈ dl_tracked <$> hy_yielded h.
Proof.
  intros Hr Hd Hg Ha Hp Hle. apply client_reachable_inv in Hr.
  destruct (proj1 (ci_log _ _ Hr) d Hd) as [Hcut Hlog].
  destruct (Hlog Hg a Ha) as (L & e & HL & He & Hid).
  pose proof (ci_progress _ _ Hr) as [[_ _ Href] Htok Huniq Hack].
  assert (dl_tracked d ∈ issued h) as Hiss by (apply elem_of_app; left; by apply list_elem_of_fmap_2).
  destruct (Htok _ Hiss a Ha) as (_ & _ & _ & Hsq). pose proof (Hsq L e HL He Hid) as Hseq.
  pose proof (Href _ _ _ Hp HL) as [Hwf Hpr _ _ _].
  assert (pa_acknowledged e = true) as Hacked.
  { eapply ledger_processed_covers; [exact Hwf|done|]. by rewrite <-Hpr, Hseq. }
  destruct (Hack _ _ _ HL He Hacked) as (t & Ht & a' & Ha' & Hvb & Hid' & _).
  assert (t ∈ hy_processed h → t ∈ dl_tracked <$> hy_accepted h) as Hsub.
  { intros (d' & -> & Hy)%(ci_processed _ _ Hr)%list_elem_of_fmap. apply list_elem_of_fmap_2.
    pose proof (ci_fence _ _ Hr) as (_ & _ & F3 & _).
    assert (d' ∈ of_generation (dl_connection_generation d') (hy_accepted h)) as Hin.
    { eapply elem_of_prefix; [|apply F3]. by apply list_elem_of_filter. }
    by apply list_elem_of_filter in Hin as [_ ?]. }
  apply elem_of_app in Ht as Ht'.
  assert (t ∈ issued h) as Hti by (apply elem_of_app; destruct Ht'; [left; auto|by right]).
  assert (t = dl_tracked d) as -> by (eapply (Huniq t (dl_tracked d)); try done; congruence).
  destruct Ht' as [Ht'|Ht']; [split; [done|by apply (ci_processed _ _ Hr)]|].
  apply (ci_skipped _ _ Hr) in Ht'. congruence.
Qed.

(** C6: a reconnection loses nothing.  When an attempt to reopen is accepted, every event
    that the ledgers still hold as unacknowledged lies beyond the position from which the
    new generation streams its vBucket, every vBucket is served by exactly one of the new
    streams, and nothing of the new generation has been accepted yet. *)
Theorem reopen_loses_nothing now g s h s' vb L e :
  reachable s h → input_ok (B:=B) h (InOpen (OpenResult (Ok g))) s →
  step now (InOpen (OpenResult (Ok g))) s = Some (Silent, s') → sb_phase s' = PhDrive →
  hy_ledgers h !! vb = Some L → e ∈ lg_log L → pa_acknowledged e = false →
  (∃ p', cs_partitions (sb_coordinator s') !! vb = Some p'
     ∧ ck_seqno (ps_processed p') < ck_seqno (pa_checkpoint e))
  ∧ (∃ node, node ∈ (sb_streams s').*1 ∧ ∀ node' ds, (node', ds) ∈ sb_streams s' →
       (is_Some (ds_partitions ds !! vb) ↔ node' = node))
  ∧ of_generation (sb_generation s') (hy_accepted h) = [].
Proof.
  intros Hr Hok Hrun Hph' HL He Hun. apply client_reachable_inv in Hr.
  pose proof (client_step_inv cccp_from_slice _ _ _ _ _ _ Hr Hok Hrun) as Hi'.
  unfold client_step in Hrun. cbn [input_ok] in Hok.
  destruct (sb_phase s) as [| | | | | |snapshot backoff starts| | | |] eqn:Hph; try done.
  destruct Hok as (b & live' & Hb). apply open_answer_ok in Hb as [_ Hg]; [|apply (ci_handler _ _ Hr)].
  specialize (Hg g eq_refl). apply opened_starts in Hg as (Hserved & _ & Hdom & Hback).
  cbn in Hserved, Hdom, Hback. injection Hrun as <-. cbn [open_round] in *.
  pose proof (ci_opening _ _ Hr) as Ho. unfold opening_ok in Ho. rewrite Hph in Ho.
  destruct Ho as [Hds Hstarts]. pose proof (ci_progress _ _ Hr) as Hpi.
  pose proof (pi_coord _ _ _ _ _ Hpi) as [_ Hld Href].
  assert (vb ∈ dom starts) as Hvb by (rewrite Hds, <-Hld; apply elem_of_dom; by exists L).
  unfold accept_reopened_generation in *.
  destruct (validate_opened_partitions _ _ _ _ _) as [u|er|]; [|done..].
  destruct (rebase_partitions _ _ (sb_coordinator s)) as [r c] eqn:Hrb.
  pose proof (progress_rebase _ _ _ _ _ _ _ _ Hpi Hrb) as Hreb.
  destruct r as [u'|er|]; [|done..].
  destruct Hreb as (_ & Hdc & Heff).
  split_and!.
  - assert (is_Some (gn_effective_checkpoints g !! vb)) as [d Hd]
      by (apply elem_of_dom; by rewrite Hdom).
    destruct (Heff vb d Hd) as (p' & Hp' & Hpd). exists p'. split; [exact Hp'|]. rewrite Hpd.
    apply elem_of_dom in Hvb as [start Hs].
    destruct (Hstarts vb start Hs) as (c0 & p & -> & Hp & Hle). specialize (Hback vb d c0 Hd Hs).
    pose proof (Href _ _ _ Hp HL) as [Hwf Hpr _ _ _]. rewrite Hpr in Hle.
    destruct (Z.lt_ge_cases (ck_seqno d) (ck_seqno (pa_checkpoint e))) as [?|Hge]; [done|].
    rewrite (ledger_processed_covers _ _ _ _ e Hwf He) in Hun by lia. done.
  - destruct Hserved as (_ & Hserved & _). by apply Hserved.
  - apply of_generation_none. apply (proj2 (ci_log _ _ Hr)). by rewrite Hph.
Qed.

(** The subscription owns what it opens.  In every reachable state the task has not
    panicked; while it drives a generation, exactly the streams of that generation are open
    and they serve every tracked vBucket, each by one stream, and no other; at all other
    times no stream is open; and the client's slot is taken exactly until the task ends. *)
Lemma subscription_owns_its_streams s h :
  reachable s h →
  sb_phase s ≠ PhDone Panic
  ∧ (driving (sb_phase s) = true → sb_live s = list_to_set_disj (sb_streams s).*1
     ∧ served (dom (cs_partitions (sb_coordinator s))) (sb_streams s))
  ∧ (driving (sb_phase s) = false → sb_live s = ∅)
  ∧ sb_active s = negb (is_done (sb_phase s)).
Proof.
  intros Hr. apply client_reachable_inv in Hr. pose proof (ci_fleet _ _ Hr) as Hf.
  unfold fleet_ok in Hf. split_and!; [apply Hr| | |apply Hr].
  - intros Hd. by rewrite Hd in Hf.
  - intros Hd. rewrite Hd in Hf. apply Hf.
Qed.

(** C7: cancelling ends the subscription.  Once the client or the subscription is cancelled,
    the supervising task executes at most five more of its steps, whatever the application,
    the health task, the backend and the store do in between; until it has ended, its next
    step is possible as soon as what it awaits has answered (the streams it shuts down, the
    attempt to reopen them, or the flush), and the cancellation itself ends its other waits;
    when it has ended, no stream is open and the client may subscribe again.  The shutdown of
    a stream need not answer: [StreamHandleSpec]. *)
Theorem cancellation_ends_subscription inputs s h s' h' :
  reachable s h → cancelled s = true → inputs_ok (B:=B) cccp_from_slice inputs s h →
  client_run cccp_from_slice inputs s h = Some (s', h') →
  (length (filter (λ ni, is_task ni.2 = true) inputs) ≤ 5)%nat
  ∧ (is_done (sb_phase s') = false → ∃ i, is_task i = true ∧ input_ok (B:=B) h' i s'
       ∧ ∀ now, is_Some (step now i s'))
  ∧ (is_done (sb_phase s') = true → sb_live s' = ∅ ∧ sb_active s' = false).
Proof.
  intros Hr Hc Hok Hrun. destruct (run_stop _ _ _ _ _ _ Hc Hrun) as [Hc' Hle].
  pose proof (client_run_reachable _ _ _ _ _ _ Hr Hok Hrun) as Hr'.
  apply client_reachable_inv in Hr'. split_and!.
  - assert (steps_left (sb_phase s) ≤ 5)%nat by (destruct (sb_phase s); cbn; lia). lia.
  - intros Hn. exists (stop_input (sb_phase s')). split_and!; [| |intros now];
      by apply (stop_enabled cccp_from_slice 0 s' h' Hc' Hn)
        || apply (stop_enabled (B:=B) cccp_from_slice now s' h' Hc' Hn).
  - intros Hd. pose proof (ci_fleet _ _ Hr') as Hf. pose proof (ci_active _ _ Hr') as Ha.
    unfold fleet_ok in Hf. destruct (sb_phase s'); try done. by destruct Hf.
Qed.
End Properties.

(** ** A sample run

    One vBucket on one node: a snapshot and two mutations pass the mitigation gate and are
    queued, the application takes two of them and acknowledges the first mutation.  Then the
    connection is lost and the generation is reopened at the acknowledged position. *)

(** Inputs that are always allowed. *)
Definition plain_input (i : Input) : bool :=
  match i with
  | InDrive (PolledItem Panic) | InShutdown _ Panic | InShutdown Panic _ | InOpen (OpenResult _)
  | InProcessed _ => false
  | _ => true
  end.
Lemma plain_inputs_ok `{ClientBackend B} cccp inputs : ∀ s h,
  forallb (λ ni, plain_input ni.2) inputs = true → inputs_ok (B:=B) cccp inputs s h.
Proof.
  induction inputs as [|[now i] inputs IH]; intros s h Hp; cbn in *; [done|].
  apply andb_true_iff in Hp as [Hi Hp]. split; [|destruct (client_step _ _ _ _) as [[]|]; auto].
  destruct i as [[| |[]]| | | |[] []| |[[]|]| | | | | | | | | | |]; done.
Qed.

Definition sample_backend : TokioClientBackend.
Proof. refine (mkTokioBackend no_json (λ _, inl "no decoder") sample_boot sample_stops _ _);
  [done|by split].
Defined.
#[local] Instance sample_instance : ClientBackend TokioClientBackend := tokio_backend (H:=stored_only).
Definition sample_cccp : bytes → string + RawBucketConfig := λ _, inl "no decoder".
Definition sample_spec : DcpSubscriptionSpec := mkSpec Standalone None None.
Definition sample_snapshot : TopologySnapshot := mkTopologySnapshot 1 (sample_topology 1 1).
Definition sample_prepared : outcome PreparedSubscription * Fleet :=
  prepare_subscription sample_backend sample_config sample_snapshot sample_spec (Some (Ok ∅)) ∅.


(** The value of a run that is known to succeed. *)
Definition the {A : Type} (o : option A) : match o with Some _ => A | None => unit end :=
  match o with Some a => a | None => tt end.

Definition sample_subscription : PreparedSubscription :=
  (the (match sample_prepared.1 with Done (Ok p) => Some p | _ => None end)
   <: PreparedSubscription).
Definition sample_s0 : Subscription :=
  activate_subscription 0 sample_config sample_spec sample_subscription
    (mkShared (mkTopologyState 1 (sample_topology 1 1)) sample_snapshot HpSleep metrics_zero
       health_default false true sample_prepared.2).
Definition sample_h0 : History :=
  mkHistory ((λ c, mkLedger c []) <$> gn_effective_checkpoints (pr_opened sample_subscription))
    [] [] [] [].

Definition sample_event (e : DcpEvent) : list (Z * Input) :=
  [(1, InDrive (PolledItem (Ok (ItemEvent e))));
   (2, InGate (GateAnswer {[ 0 := mkMitigationPartition 7 (Some 50) None ]} false []));
   (3, InSend SendReserved)].
Definition sample_inputs : list (Z * Input) :=
  sample_event (ESnapshotMarker (Event.mkSnapshotMarker 0 0 20 1 None None None))
  ++ sample_event (sample_mutation_event 0 11) ++ sample_event (sample_mutation_event 0 12)
  ++ [(4, InPoll); (5, InPoll)].
Definition sample_1 : Subscription * History :=
  (the (client_run sample_cccp sample_inputs sample_s0 sample_h0) <: Subscription * History).
Definition sample_delivery : DcpDelivery :=
  (the (last (hy_yielded sample_1.2)) <: DcpDelivery).
(** After the acknowledgement. *)
Definition sample_2 : Subscription * History :=
  (the (client_run sample_cccp [(6, InProcessed sample_delivery)] sample_1.1 sample_1.2)
   <: Subscription * History).
(** The connection is lost; the next attempt waits for the backend. *)
Definition sample_lost : list (Z * Input) :=
  [(7, InDrive (PolledItem (Err (DeadConnection "a" (from_secs 1))))); (8, InShutdown (Ok tt) (Ok tt));
   (9, InReopen)].
Definition sample_3 : Subscription * History :=
  (the (client_run sample_cccp sample_lost sample_2.1 sample_2.2) <: Subscription * History).

Lemma sample_reachable_2 : client_reachable sample_cccp sample_2.1 sample_2.2.
Proof.
  assert (client_reachable sample_cccp sample_s0 sample_h0) as H0.
  { apply (cr_init _ 0 sample_backend sample_config sample_snapshot sample_spec (Some (Ok ∅)));
      [done|done|]. vm_compute. reflexivity. }
  assert (client_reachable sample_cccp sample_1.1 sample_1.2) as H1.
  { apply (client_run_reachable sample_cccp sample_inputs sample_s0 sample_h0);
      [exact H0|by apply plain_inputs_ok|vm_compute; reflexivity]. }
  apply (client_run_reachable sample_cccp [(6, InProcessed sample_delivery)] sample_1.1 sample_1.2);
    [exact H1| |vm_compute; reflexivity].
  split; [|by destruct (client_step _ _ _ _) as [[]|]]. cbn [input_ok].
  vm_compute. right. left.
Qed.
Lemma sample_reachable_3 : client_reachable sample_cccp sample_3.1 sample_3.2.
Proof.
  apply (client_run_reachable sample_cccp sample_lost sample_2.1 sample_2.2);
    [apply sample_reachable_2|by apply plain_inputs_ok|vm_compute; reflexivity].
Qed.

(** The answer of the backend to the attempt. *)
Definition sample_request : OpenGenerationRequest :=
  match sb_phase sample_3.1 with
  | PhOpening snapshot _ starts => reopen_request snapshot starts sample_3.1
  | _ => reopen_request sample_snapshot ∅ sample_3.1
  end.
Definition sample_opened : OpenedGeneration :=
  match (backend_open sample_backend sample_request ∅).1 with
  | Done (Ok g) => g
  | _ => pr_opened sample_subscription
  end.
Definition sample_4 : Subscription * History :=
  (the (client_run sample_cccp [(10, InOpen (OpenResult (Ok sample_opened)))] sample_3.1 sample_3.2)
   <: Subscription * History).

Lemma sample_open_allowed :
  input_ok sample_3.2 (InOpen (OpenResult (Ok sample_opened))) sample_3.1.
Proof.
  unfold input_ok.
  assert (backend_open sample_backend sample_request (sb_live sample_3.1)
    = (Done (Ok sample_opened), {[+ "a" +]})) as Ho by (vm_compute; reflexivity).
  unfold sample_request in Ho. revert Ho. generalize sample_opened as g.
  destruct (sb_phase sample_3.1); try done. intros g Ho. by eexists _, _.
Qed.

Lemma deliveries_in_order_witness :
  of_generation 1 (hy_accepted sample_2.2)
  = of_generation 1 (hy_yielded sample_2.2) ++ queued 1 (sb_channel sample_2.1)
  ∧ length (queued 1 (sb_channel sample_2.1)) = 1%nat.
Proof.
  destruct (deliveries_in_order sample_cccp sample_2.1 sample_2.2 sample_reachable_2) as (_ & Hq & _).
  split; [|vm_compute; reflexivity]. apply Hq; vm_compute; reflexivity.
Defined.

Lemma processed_was_acknowledged_witness :
  dl_tracked sample_delivery ∈ hy_processed sample_2.2
  ∧ ck_seqno <$> (ps_processed <$> cs_partitions (sb_coordinator sample_2.1) !! 0) = Some 11.
Proof.
  split; [|vm_compute; reflexivity].
  destruct (cs_partitions (sb_coordinator sample_2.1) !! 0) as [p|] eqn:Hp;
    [|vm_compute in Hp; discriminate Hp].
  assert (ck_seqno <$> (ps_processed <$> Some p) = Some 11) as Hs
    by (rewrite <-Hp; vm_compute; reflexivity). injection Hs as Hs.
  apply (processed_was_acknowledged sample_cccp sample_2.1 sample_2.2 sample_delivery
    (mkEventAck 0 1 11) p sample_reachable_2).
  - vm_compute. right. left.
  - vm_compute. reflexivity.
  - vm_compute. reflexivity.
  - exact Hp.
  - rewrite Hs. cbn. lia.
Defined.

(** The mutation 12 is queued but not acknowledged when the connection is lost; the new
    stream starts at 11. *)
Lemma reopen_loses_nothing_witness :
  ∃ p', cs_partitions (sb_coordinator sample_4.1) !! 0 = Some p' ∧ ck_seqno (ps_processed p') < 12.
Proof.
  set (ck z := mkCheckpoint (Some "bucket") 0 7 z 0 20 None).
  set (e := mkPendingAck 2 (ck 12) false).
  set (L := mkLedger (mkCheckpoint (Some "bucket") 0 7 0 0 0 None) [mkPendingAck 1 (ck 11) true; e]).
  destruct (reopen_loses_nothing sample_cccp 10 sample_opened sample_3.1 sample_3.2 sample_4.1 0 L e
    sample_reachable_3) as [(p' & Hp' & Hlt) _].
  - exact sample_open_allowed.
  - vm_compute. reflexivity.
  - vm_compute. reflexivity.
  - vm_compute. reflexivity.
  - right. left.
  - reflexivity.
  - exists p'. split; [exact Hp'|exact Hlt].
Defined.

(** The subscription is dropped while the attempt is under way. *)
Definition sample_5 : Subscription * History :=
  (the (client_run sample_cccp [(11, InClose true)] sample_3.1 sample_3.2) <: Subscription * History).
Definition sample_stop : list (Z * Input) :=
  [(12, InOpen OpenWake); (13, InFlush None true (λ _, SaveOk) 1)].
Definition sample_6 : Subscription * History :=
  (the (client_run sample_cccp sample_stop sample_5.1 sample_5.2) <: Subscription * History).

Lemma cancellation_ends_subscription_witness :
  is_done (sb_phase sample_6.1) = true ∧ sb_live sample_6.1 = ∅ ∧ sb_active sample_6.1 = false.
Proof.
  assert (client_reachable sample_cccp sample_5.1 sample_5.2) as Hr.
  { apply (client_run_reachable sample_cccp [(11, InClose true)] sample_3.1 sample_3.2);
      [apply sample_reachable_3|by apply plain_inputs_ok|vm_compute; reflexivity]. }
  destruct (cancellation_ends_subscription sample_cccp sample_stop sample_5.1 sample_5.2
    sample_6.1 sample_6.2 Hr) as (_ & _ & Hd).
  - vm_compute. reflexivity.
  - by apply plain_inputs_ok.
  - vm_compute. reflexivity.
  - assert (is_done (sb_phase sample_6.1) = true) as Hdone by (vm_compute; reflexivity).
    split; [exact Hdone|]. apply Hd, Hdone.
Defined.

(** ** A race

    A topology is published after the lock of the topology state is released.  The health
    task accepts revision 2, the supervising task accepts revision 3 and publishes it, then
    the health task publishes revision 2: the channel, from which a reconnection takes its
    topology, is behind the accepted state and stays there. *)
Definition sample_config_3 : bytes → string + RawBucketConfig := λ _,
  inr (mkRawBucketConfig 3 1 "bucket" "" "vbucket"
    [mkRawNodeExt (Some "a") (mkRawServices 11210 11207) None (Some "a") None]
    (mkRawServerMap "CRC" 0 ["a:11210"] [[0]])).
Definition sample_race : list (Z * Input) :=
  [(0, InHealthWake); (1, InHealth (Some (Ok (sample_topology 1 2))));
   (2, InDrive (PolledItem (Ok (ItemTopologyConfig "a:11210" []))));
   (3, InPublish); (4, InHealthPublish)].
Example topology_publication_regresses :
  (λ sh, (tr_revision (ct_revision (ts_topology (sb_topology sh.1))), ts_generation (sb_topology sh.1),
          tn_generation (sb_published sh.1)))
    <$> client_run sample_config_3 sample_race sample_s0 sample_h0
  = Some (3, 3, 2).
Proof. vm_compute. reflexivity. Qed.
