(* ===== verification/Lifecycle.v ===== *)
(** * The life of a client ([rust-dcp-core/src/client.rs], third part)

    [DcpClient::connect], [subscribe] and [close], the reservation of the single active
    subscription, the handles on its task, and [DcpSubscription::close], by any number of
    concurrent callers, any of whom may be dropped at an await.

    A client is the state its tasks share ([Client.Shared]), the flags and locks of
    [ClientInner], the subscriptions started so far and the calls under way.  Each call is at
    one of its awaits; [life_step] executes the code from one await to the next, of a call, of
    a supervising task ([Client.client_step]) or of the health task.  [None] is an action that
    cannot happen there: an await that is not ready.

    The lock of [subscription] is only taken inside the lifecycle section, so that no call
    ever waits for it, and it is not part of the state. *)
From stdpp Require Import gmultiset.
From S2P Require Import Prelude Text Types Frame Codec Dcp Command Errors Event Checkpoint.
From S2P Require Import Assignment Config Async Transport Topology Cccp Settings Mitigation.
From S2P Require Import Stream Collections Worker CheckpointRuntime CheckpointSpec.
From S2P Require Import CheckpointFlush Progress Observability Generation Client ClientSpec.

(** ** Waiting for a subscription *)
Inductive SubscriptionCompletion : Type :=
| Succeeded
| Failed (message : string).
Definition into_result (c : SubscriptionCompletion) : result unit :=
  match c with
  | Succeeded => Ok tt
  | Failed message => Err (StreamError 0 message)
  end.
(** What the spawned closure publishes after [run_subscription]; a panic publishes nothing. *)
Definition completion_of (r : result unit) : option SubscriptionCompletion :=
  match r with
  | Ok _ => Some Succeeded
  | Err error => Some (Failed (dcp_error_to_string error))
  | Panic => None
  end.

(** A mutex around an optional join handle: the handle is there, a call has taken it and
    holds the lock while it joins, it was joined, or that call was dropped. *)
Inductive JoinState : Type :=
| JoinAvailable
| JoinTaken (call : nat)
| JoinJoined
| JoinDropped.

(** A subscription: its supervising task with its own state, the history of [ClientSpec],
    which no step reads, whether the spawned closure has returned, and the join handle. *)
Record Control : Type := mkControl {
  ct_task : Subscription;
  ct_history : History;
  ct_returned : bool;
  ct_join : JoinState
}.
Definition ct_done (t : Control) : bool := is_done (sb_phase (ct_task t)).
Definition ct_result (t : Control) : result unit :=
  match sb_phase (ct_task t) with PhDone r => r | _ => Panic end.
Definition set_join (j : JoinState) (t : Control) : Control :=
  mkControl (ct_task t) (ct_history t) (ct_returned t) j.
Definition set_returned (t : Control) : Control :=
  mkControl (ct_task t) (ct_history t) true (ct_join t).

(** The awaits of [SubscriptionControl::wait]. *)
Inductive Wait : Type := WaitLock | WaitJoin | WaitCompletion.

(** [SubscriptionControl::wait] by [call]; [text] displays the join error of a panic. *)
Definition wait_step (call : nat) (text : string) (w : Wait) (t : Control)
    : option ((Wait + result unit) * Control) :=
  match w with
  | WaitLock =>
      match ct_join t with
      | JoinAvailable => Some (inl WaitJoin, set_join (JoinTaken call) t)
      | JoinTaken _ => None
      | JoinJoined | JoinDropped => Some (inl WaitCompletion, t)
      end
  | WaitJoin =>
      if ct_returned t then
        Some (inr match ct_result t with
                  | Panic => Err (Topology ("subscription task failed: " +:+ text))
                  | r => r
                  end, set_join JoinJoined t)
      else None
  | WaitCompletion =>
      if ct_returned t then
        Some (inr match completion_of (ct_result t) with
                  | Some completion => into_result completion
                  | None => Err (Topology "subscription task stopped without a completion result")
                  end, t)
      else None
  end.

(** ** Calls *)

(** The awaits of the calls.  [CallWait] waits for a subscription, in [DcpClient::close] or in
    [DcpSubscription::close]; [waited] is the subscription a close has waited for, and
    [joined] says which callers of [DcpSubscription::close] joined the task. *)
Inductive Call : Type :=
| SubscribePrepare (spec : DcpSubscriptionSpec) (topology : TopologySnapshot)
| SubscribeLock (spec : DcpSubscriptionSpec) (p : PreparedSubscription)
| SubscribeDiscard (p : PreparedSubscription)
| SubscribeReturned (r : result nat)
| CallWait (closing : bool) (n : nat) (w : Wait)
| SubscriptionClosed (n : nat) (joined : bool) (r : result unit)
| CloseLock
| CloseHealthLock (waited : option nat) (first_error : option DcpError)
| CloseHealthJoin (waited : option nat) (first_error : option DcpError)
| CloseReturned (waited : option nat) (r : result unit)
| CallDropped.

(** [ClientInner]; [cl_holder] is the call that holds [lifecycle] across an await. *)
Record ClientInner : Type := mkInner {
  cl_config : DcpConfig;
  cl_shared : Shared;
  cl_closed : bool;
  cl_released : bool;
  cl_slot : option nat;
  cl_holder : option nat;
  cl_health_join : JoinState;
  cl_controls : list Control;
  cl_calls : list Call
}.

Definition put_shared_state (h : Shared) (c : ClientInner) : ClientInner :=
  mkInner (cl_config c) h (cl_closed c) (cl_released c) (cl_slot c) (cl_holder c)
    (cl_health_join c) (cl_controls c) (cl_calls c).
Definition put_closed (c : ClientInner) : ClientInner :=
  mkInner (cl_config c) (cl_shared c) true (cl_released c) (cl_slot c) (cl_holder c)
    (cl_health_join c) (cl_controls c) (cl_calls c).
Definition put_released (c : ClientInner) : ClientInner :=
  mkInner (cl_config c) (cl_shared c) (cl_closed c) true (cl_slot c) (cl_holder c)
    (cl_health_join c) (cl_controls c) (cl_calls c).
Definition put_slot (x : option nat) (c : ClientInner) : ClientInner :=
  mkInner (cl_config c) (cl_shared c) (cl_closed c) (cl_released c) x (cl_holder c)
    (cl_health_join c) (cl_controls c) (cl_calls c).
Definition put_holder (x : option nat) (c : ClientInner) : ClientInner :=
  mkInner (cl_config c) (cl_shared c) (cl_closed c) (cl_released c) (cl_slot c) x
    (cl_health_join c) (cl_controls c) (cl_calls c).
Definition put_health_join (x : JoinState) (c : ClientInner) : ClientInner :=
  mkInner (cl_config c) (cl_shared c) (cl_closed c) (cl_released c) (cl_slot c) (cl_holder c)
    x (cl_controls c) (cl_calls c).
Definition put_controls (x : list Control) (c : ClientInner) : ClientInner :=
  mkInner (cl_config c) (cl_shared c) (cl_closed c) (cl_released c) (cl_slot c) (cl_holder c)
    (cl_health_join c) x (cl_calls c).
Definition put_calls (x : list Call) (c : ClientInner) : ClientInner :=
  mkInner (cl_config c) (cl_shared c) (cl_closed c) (cl_released c) (cl_slot c) (cl_holder c)
    (cl_health_join c) (cl_controls c) x.
Definition put_control (n : nat) (t : Control) (c : ClientInner) : ClientInner :=
  put_controls (<[n := t]> (cl_controls c)) c.
Definition put_call (k : nat) (call : Call) (c : ClientInner) : ClientInner :=
  put_calls (<[k := call]> (cl_calls c)) c.
Definition new_call (call : Call) (c : ClientInner) : ClientInner :=
  put_calls (cl_calls c ++ [call]) c.
Definition on_shared (f : Shared → Shared) (c : ClientInner) : ClientInner :=
  put_shared_state (f (cl_shared c)) c.

(** *** Connecting *)

(** [connect_with_backend]: [discovered] is what the backend's discovery yields.  Without
    health checks there is no task to join. *)
Definition connect_with_backend (now : Z) (config : DcpConfig)
    (discovered : result ClusterTopology) : result ClientInner :=
  do? config_validate config in
  let? topology := discovered in
  let metrics := increment BootstrapSuccesses (increment BootstrapAttempts metrics_zero) in
  let enabled := hc_enabled (dc_health_check config) in
  Ok (mkInner config
        (mkShared (topology_state_new topology) (mkTopologySnapshot 1 topology)
           (if enabled then HpSleep else HpEnded false) metrics
           (record_success now 0 1 health_default) false false ∅)
        false false None None (if enabled then JoinAvailable else JoinJoined) [] []).

(** *** Cancelling *)

(** A value sent on a watch channel without receivers is not stored: the receivers are the
    health task and the supervising tasks that have not ended. *)
Definition has_receiver (c : ClientInner) : bool :=
  match sh_health_task (cl_shared c) with HpEnded _ => false | _ => true end
  || existsb (λ t, negb (ct_done t)) (cl_controls c).
Definition send_cancel (c : ClientInner) : ClientInner :=
  if has_receiver c then on_shared (set_global_cancel true) c else c.

(** *** Subscribing *)

(** [ActiveReservation::acquire] *)
Definition acquire (h : Shared) : result Shared :=
  if sh_active h then
    Err (InvalidConfiguration "this DCP client already has an active subscription")
  else Ok (set_active true h).

(** [subscribe] up to the first await of [prepare_subscription]. *)
Definition subscribe_begin (spec : DcpSubscriptionSpec) (c : ClientInner) : ClientInner :=
  match (do? validate_subscription_spec (cl_closed c) (cl_config c) spec in
         acquire (cl_shared c)) with
  | Ok h => new_call (SubscribePrepare spec (sh_published h)) (put_shared_state h c)
  | Err e => new_call (SubscribeReturned (Err e)) c
  | Panic => new_call (SubscribeReturned Panic) c
  end.

(** The reservation is dropped.  The streams of a preparation that is dropped are dropped with
    it, which aborts their workers. *)
Definition drop_reservation (c : ClientInner) : ClientInner := on_shared (set_active false) c.
Definition drop_prepared (p : PreparedSubscription) (c : ClientInner) : ClientInner :=
  on_shared (λ h, set_live (sh_live h ∖ list_to_set_disj (gn_streams (pr_opened p)).*1) h) c.

(** [activate_subscription] and the commit of the reservation. *)
Definition initial_history (p : PreparedSubscription) : History :=
  mkHistory ((λ c, mkLedger c []) <$> gn_effective_checkpoints (pr_opened p)) [] [] [] [].
Definition activate (now : Z) (k : nat) (spec : DcpSubscriptionSpec) (p : PreparedSubscription)
    (c : ClientInner) : ClientInner :=
  let n := length (cl_controls c) in
  let s := activate_subscription now (cl_config c) spec p (cl_shared c) in
  put_call k (SubscribeReturned (Ok n))
    (put_slot (Some n)
       (put_controls (cl_controls c ++ [mkControl s (initial_history p) false JoinAvailable])
          (put_shared_state (sb_shared s) c))).

(** [subscribe] from the lifecycle lock on. *)
Definition subscribe_locked (now : Z) (k : nat) (spec : DcpSubscriptionSpec)
    (p : PreparedSubscription) (c : ClientInner) : option ClientInner :=
  match cl_holder c with
  | Some _ => None
  | None =>
      Some (if cl_closed c then put_holder (Some k) (put_call k (SubscribeDiscard p) c)
            else activate now k spec p c)
  end.

(** *** Closing *)

(** The lifecycle section of [close]. *)
Definition close_locked (k : nat) (c : ClientInner) : option ClientInner :=
  match cl_holder c with
  | Some _ => None
  | None =>
      let c := send_cancel (put_closed c) in
      Some (put_call k (match cl_slot c with
                        | Some n => CallWait true n WaitLock
                        | None => CloseHealthLock None None
                        end) c)
  end.

(** The end of [close]. *)
Definition close_finish (now : Z) (k : nat) (waited : option nat)
    (first_error : option DcpError) (c : ClientInner) : ClientInner :=
  put_call k (CloseReturned waited (match first_error with None => Ok tt | Some e => Err e end))
    (on_shared (λ h, set_health (record_stopped now (sh_health h))
       (shared_gauge AssignedVbuckets 0 (shared_gauge ActiveConnections 0 h))) c).

(** [close] joins the health task: the lock of its handle, then the task. *)
Definition close_health_lock (now : Z) (k : nat) (waited : option nat)
    (first_error : option DcpError) (c : ClientInner) : option ClientInner :=
  match cl_health_join c with
  | JoinAvailable =>
      Some (put_call k (CloseHealthJoin waited first_error) (put_health_join (JoinTaken k) c))
  | JoinTaken _ => None
  | JoinJoined | JoinDropped => Some (close_finish now k waited first_error c)
  end.
Definition close_health_join (now : Z) (k : nat) (text : string) (waited : option nat)
    (first_error : option DcpError) (c : ClientInner) : option ClientInner :=
  match sh_health_task (cl_shared c) with
  | HpEnded panicked =>
      let error := Topology ("health-check task failed: " +:+ text) in
      let first_error :=
        if panicked then Some (default error first_error) else first_error in
      Some (close_finish now k waited first_error (put_health_join JoinJoined c))
  | _ => None
  end.

(** A step of a call that waits for a subscription, and what follows the wait. *)
Definition joins (w : Wait) : bool := match w with WaitJoin => true | _ => false end.
Definition wait_answered (closing : bool) (n : nat) (w : Wait) (r : result unit) : Call :=
  if closing then CloseHealthLock (Some n) (match r with Err e => Some e | _ => None end)
  else SubscriptionClosed n (joins w) r.
Definition call_wait (k : nat) (text : string) (c : ClientInner) : option ClientInner :=
  match cl_calls c !! k with
  | Some (CallWait closing n w) =>
      t ← cl_controls c !! n;
      '(a, t) ← wait_step k text w t;
      Some (put_call k (match a with
                        | inl w => CallWait closing n w
                        | inr r => wait_answered closing n w r
                        end) (put_control n t c))
  | _ => None
  end.

(** A call's future is dropped at its await. *)
Definition abandon_wait (n : nat) (w : Wait) (c : ClientInner) : ClientInner :=
  match w, cl_controls c !! n with
  | WaitJoin, Some t => put_control n (set_join JoinDropped t) c
  | _, _ => c
  end.
Definition drop_call (k : nat) (c : ClientInner) : option ClientInner :=
  put_call k CallDropped <$>
  match cl_calls c !! k with
  | Some (SubscribePrepare _ _) => Some (drop_reservation c)
  | Some (SubscribeLock _ p) => Some (drop_reservation (drop_prepared p c))
  | Some (SubscribeDiscard p) => Some (drop_reservation (put_holder None (drop_prepared p c)))
  | Some (CallWait _ n w) => Some (abandon_wait n w c)
  | Some CloseLock | Some (CloseHealthLock _ _) => Some c
  | Some (CloseHealthJoin _ _) => Some (put_health_join JoinDropped c)
  | _ => None
  end.

(** [Drop for ClientInner]: the last handle is gone, so no call of the client is under way. *)
Definition call_pending (call : Call) : bool :=
  match call with
  | SubscribeReturned _ | CallWait false _ _ | SubscriptionClosed _ _ _ | CloseReturned _ _
  | CallDropped => false
  | _ => true
  end.
Definition client_drop (now : Z) (c : ClientInner) : option ClientInner :=
  if cl_released c || existsb call_pending (cl_calls c) then None
  else Some (put_released (on_shared (λ h, set_health (record_stopped now (sh_health h)) h)
               (send_cancel c))).

(** ** The steps *)
Inductive Action : Type :=
| ActSubscribe (spec : DcpSubscriptionSpec)
| ActPrepared (k : nat) (load_reply : option (result (gmap Z DcpCheckpoint)))
| ActSubscribeLock (k : nat)
| ActDiscarded (k : nat)
| ActClose
| ActCloseLock (k : nat)
| ActWait (k : nat) (text : string)
| ActHealthLock (k : nat)
| ActHealthJoin (k : nat) (text : string)
| ActSubscriptionClose (n : nat)
| ActDrop (k : nat)
| ActClientDrop
| ActTask (n : nat) (i : Input)
| ActReturn (n : nat)
| ActHealthWake
| ActHealth (probe : option (result ClusterTopology))
| ActHealthPublish.

(** The inputs of a subscription that are its own and its application's. *)
Definition own_input (i : Input) : bool :=
  match i with
  | InClientClose | InHealthWake | InHealth _ | InHealthPublish => false
  | _ => true
  end.
(** The supervising task's state with what the tasks share. *)
Definition view (c : ClientInner) (t : Control) : Subscription :=
  put_shared (cl_shared c) (ct_task t).

Section Life.
Context (cccp_from_slice : bytes → string + RawBucketConfig).
Context `{ClientBackend B} (b : B).

(** [PreparedSubscription::discard], which shuts the streams down with [lifecycle] held. *)
Definition subscribe_discarded (k : nat) (p : PreparedSubscription) (c : ClientInner)
    : option ClientInner :=
  match shutdown_stream_vec (backend_stop b) (gn_streams (pr_opened p)) (sh_live (cl_shared c)) with
  | (Done _, live) =>
      Some (put_call k (SubscribeReturned (Err Cancelled))
              (drop_reservation (put_holder None (on_shared (set_live live) c))))
  | (Hang, _) => None
  end.

(** The shutdown of a generation ends when the shutdown of each of its streams has answered. *)
Definition input_arrives (i : Input) (t : Control) : bool :=
  match i with
  | InShutdown _ _ => forallb (λ s, stop_answers (backend_stop b s.1)) (sb_streams (ct_task t))
  | _ => true
  end.
Definition task_step (now : Z) (n : nat) (i : Input) (c : ClientInner) : option ClientInner :=
  t ← cl_controls c !! n;
  if own_input i && input_arrives i t then
    '(y, s) ← client_step cccp_from_slice now i (view c t);
    Some (put_control n (mkControl s (record_step i (view c t) y s (ct_history t))
                           (ct_returned t) (ct_join t)) (put_shared_state (sb_shared s) c))
  else None.

(** [prepare_subscription] with what the store loads; a panic unwinds through the streams it
    has opened, which closes them. *)
Definition subscribe_prepared (k : nat) (reply : option (result (gmap Z DcpCheckpoint)))
    (spec : DcpSubscriptionSpec) (topology : TopologySnapshot) (c : ClientInner)
    : option ClientInner :=
  match prepare_subscription b (cl_config c) topology spec reply (sh_live (cl_shared c)) with
  | (Done (Ok p), live) =>
      Some (put_call k (SubscribeLock spec p) (on_shared (set_live live) c))
  | (Done (Err e), live) =>
      Some (put_call k (SubscribeReturned (Err e))
              (drop_reservation (on_shared (set_live live) c)))
  | (Done Panic, _) => Some (put_call k (SubscribeReturned Panic) (drop_reservation c))
  | (Hang, _) => None
  end.

Definition life_step (now : Z) (a : Action) (c : ClientInner) : option ClientInner :=
  match a with
  | ActSubscribe spec => if cl_released c then None else Some (subscribe_begin spec c)
  | ActPrepared k reply =>
      match cl_calls c !! k with
      | Some (SubscribePrepare spec topology) => subscribe_prepared k reply spec topology c
      | _ => None
      end
  | ActSubscribeLock k =>
      match cl_calls c !! k with
      | Some (SubscribeLock spec p) => subscribe_locked now k spec p c
      | _ => None
      end
  | ActDiscarded k =>
      match cl_calls c !! k with
      | Some (SubscribeDiscard p) => subscribe_discarded k p c
      | _ => None
      end
  | ActClose => if cl_released c then None else Some (new_call CloseLock c)
  | ActCloseLock k =>
      match cl_calls c !! k with Some CloseLock => close_locked k c | _ => None end
  | ActWait k text => call_wait k text c
  | ActHealthLock k =>
      match cl_calls c !! k with
      | Some (CloseHealthLock waited first_error) => close_health_lock now k waited first_error c
      | _ => None
      end
  | ActHealthJoin k text =>
      match cl_calls c !! k with
      | Some (CloseHealthJoin waited first_error) =>
          close_health_join now k text waited first_error c
      | _ => None
      end
  | ActSubscriptionClose n =>
      new_call (CallWait false n WaitLock) <$> task_step now n (InClose false) c
  | ActDrop k => drop_call k c
  | ActClientDrop => client_drop now c
  | ActTask n i => task_step now n i c
  | ActReturn n =>
      t ← cl_controls c !! n;
      if ct_done t && negb (ct_returned t) then Some (put_control n (set_returned t) c) else None
  | ActHealthWake => (λ h, put_shared_state h c) <$> health_wake now (cl_shared c)
  | ActHealth probe =>
      (λ h, put_shared_state h c) <$> health_round (cl_config c) probe (cl_shared c)
  | ActHealthPublish => (λ h, put_shared_state h c) <$> health_publish (cl_shared c)
  end.
End Life.
