(* ===== verification/LifecycleSpec.v ===== *)
(** * What a client promises ([rust-dcp-core/src/client.rs])

    The machine of [Lifecycle] in any interleaving: the client has one active subscription at
    most, a close is final and its callers agree on how the subscription ended, and a closed
    client comes to rest.

    The invariant counts the owners of the reservation: the subscribe calls that hold it and
    the supervising tasks that run.  The running task's view of the client satisfies the
    invariant of [ClientSpec]. *)
From stdpp Require Import gmultiset.
From S2P Require Import Prelude Text Types Frame Codec Dcp Command Errors Event Checkpoint.
From S2P Require Import Assignment Config Async Transport Topology Cccp Settings Mitigation.
From S2P Require Import Stream Collections Worker CheckpointRuntime CheckpointSpec.
From S2P Require Import CheckpointFlush Progress Observability Generation Client ClientSpec.
From S2P Require Import Lifecycle.

(** ** Owners *)
Lemma sum_list_with_insert {A} (f : A → nat) l i x y :
  l !! i = Some x → (sum_list_with f (<[i := y]> l) + f x = sum_list_with f l + f y)%nat.
Proof.
  revert i. induction l as [|z l IH]; intros [|i] Hi; try done.
  - injection Hi as ->. cbn. lia.
  - specialize (IH i Hi).
    change (f z + sum_list_with f (<[i := y]> l) + f x = f z + sum_list_with f l + f y)%nat. lia.
Qed.
Lemma sum_list_with_two {A} (f : A → nat) l i j x y :
  l !! i = Some x → l !! j = Some y → i ≠ j → (f x + f y ≤ sum_list_with f l)%nat.
Proof.
  revert i j. induction l as [|z l IH]; intros [|i] [|j] Hi Hj Hne; cbn in *; try done.
  - injection Hi as ->. apply list_elem_of_lookup_2, (sum_list_with_in _ f) in Hj. lia.
  - injection Hj as ->. apply list_elem_of_lookup_2, (sum_list_with_in _ f) in Hi. lia.
  - assert (i ≠ j) by congruence. specialize (IH i j Hi Hj). lia.
Qed.

Definition holds_reservation (call : Call) : bool :=
  match call with SubscribePrepare _ _ | SubscribeLock _ _ | SubscribeDiscard _ => true | _ => false end.
Definition running (t : Control) : bool := negb (ct_done t).
Definition owners (c : ClientInner) : nat :=
  (sum_list_with (λ call, Nat.b2n (holds_reservation call)) (cl_calls c)
   + sum_list_with (λ t, Nat.b2n (running t)) (cl_controls c))%nat.
Definition prepared_of (call : Call) : option PreparedSubscription :=
  match call with SubscribeLock _ p | SubscribeDiscard p => Some p | _ => None end.

(** ** The answers of the waits *)

(** How a caller learns the result of the task: the one that joins it gets the result itself,
    the others its text. *)
Definition told (joined : bool) (r : result unit) : result unit :=
  match r with
  | Err e => if joined then Err e else Err (StreamError 0 (dcp_error_to_string e))
  | r => r
  end.
Definition waited_ok (c : ClientInner) (n : nat) (joined : bool) (r : result unit) : Prop :=
  ∃ t, cl_controls c !! n = Some t ∧ ct_returned t = true ∧ r = told joined (ct_result t).
Definition join_gone (j : JoinState) : Prop := j = JoinJoined ∨ j = JoinDropped.
Definition wait_ok (c : ClientInner) (k n : nat) (w : Wait) : Prop :=
  ∃ t, cl_controls c !! n = Some t ∧
    match w with
    | WaitLock => True
    | WaitJoin => ct_join t = JoinTaken k
    | WaitCompletion => join_gone (ct_join t)
    end.

(** ** A closed client *)
Definition all_done (c : ClientInner) : Prop :=
  ∀ n t, cl_controls c !! n = Some t → ct_done t = true.
Definition gauges_zero (h : Shared) : Prop :=
  sh_metrics h ActiveConnections = 0 ∧ sh_metrics h AssignedVbuckets = 0.
(** The health task has ended and the client is recorded as stopped, unless the close that
    joined the task was dropped. *)
Definition stopped (c : ClientInner) : Prop :=
  cl_health_join c = JoinDropped
  ∨ (∃ panicked, sh_health_task (cl_shared c) = HpEnded panicked)
    ∧ hl_status (sh_health (cl_shared c)) = Stopped.
(** A close waits for the subscription in the slot, if there ever was one, and is successful
    only if that subscription is. *)
Definition close_result_ok (c : ClientInner) (waited : option nat) (r : result unit) : Prop :=
  match waited with
  | Some n => ∃ t, cl_controls c !! n = Some t ∧ ct_returned t = true
      ∧ (r = Ok tt → ct_result t = Ok tt)
  | None => cl_controls c = []
  end.

Definition first_result (first_error : option DcpError) : result unit :=
  match first_error with None => Ok tt | Some e => Err e end.

Definition call_ok (c : ClientInner) (k : nat) (call : Call) : Prop :=
  match call with
  | CallWait closing n w => wait_ok c k n w
      ∧ (closing = true → cl_closed c = true
         ∧ ∀ m t, cl_controls c !! m = Some t → running t = true → m = n)
  | SubscriptionClosed n joined r => waited_ok c n joined r
  | CloseHealthLock waited e => cl_closed c = true ∧ all_done c ∧ close_result_ok c waited (first_result e)
  | CloseHealthJoin waited e =>
      cl_closed c = true ∧ all_done c ∧ close_result_ok c waited (first_result e)
      ∧ cl_health_join c = JoinTaken k
  | CloseReturned waited r =>
      cl_closed c = true ∧ all_done c ∧ gauges_zero (cl_shared c) ∧ stopped c
      ∧ close_result_ok c waited r
  | _ => True
  end.

Section Spec.
Context (cccp_from_slice : bytes → string + RawBucketConfig).
Context `{ClientBackend B} (b : B).

(** What may arrive, besides what [ClientSpec] allows: the rollback handler returns. *)
Definition action_ok (a : Action) (c : ClientInner) : Prop :=
  match a with
  | ActSubscribe spec => handler_total (sp_rollback_handler spec)
  | ActTask n i => ∀ t, cl_controls c !! n = Some t →
      input_ok (B:=B) (ct_history t) i (view c t)
  | _ => True
  end.

Inductive life_reachable : ClientInner → Prop :=
| lr_connect now config discovered c :
    connect_with_backend now config discovered = Ok c → life_reachable c
| lr_step now a c c' :
    life_reachable c → action_ok a c → life_step cccp_from_slice b now a c = Some c' →
    life_reachable c'.

(** ** The invariant *)
Definition control_ok (c : ClientInner) (n : nat) (t : Control) : Prop :=
  (ct_done t = false → client_inv (view c t) (ct_history t) ∧ cl_slot c = Some n)
  ∧ sb_phase (ct_task t) ≠ PhDone Panic
  ∧ (ct_returned t = true → ct_done t = true)
  ∧ match ct_join t with
    | JoinTaken k =>
        ∃ closing, cl_calls c !! k = Some (CallWait closing n WaitJoin)
    | JoinJoined => ct_returned t = true
    | _ => True
    end.
(** A subscribe call in flight: its preparation has opened exactly its streams. *)
Definition subscribe_ok (c : ClientInner) (call : Call) : Prop :=
  match call with
  | SubscribePrepare spec _ => handler_total (sp_rollback_handler spec)
  | SubscribeLock spec p =>
      handler_total (sp_rollback_handler spec) ∧
      ∃ topology reply, prepare_subscription b (cl_config c) topology spec reply ∅
                        = (Done (Ok p), sh_live (cl_shared c))
  | SubscribeDiscard p =>
      sh_live (cl_shared c) = list_to_set_disj (gn_streams (pr_opened p)).*1
      ∧ cl_closed c = true
  | _ => True
  end.

Record life_inv (c : ClientInner) : Prop := mk_life_inv {
  li_owner : owners c = Nat.b2n (sh_active (cl_shared c));
  li_control : ∀ n t, cl_controls c !! n = Some t → control_ok c n t;
  li_subscribe : ∀ k call, cl_calls c !! k = Some call → subscribe_ok c call;
  li_idle : (∀ k call, cl_calls c !! k = Some call → prepared_of call = None) → all_done c →
    sh_live (cl_shared c) = ∅;
  li_fresh : cl_closed c = false → cl_released c = false →
    sh_global_cancel (cl_shared c) = false;
  li_stopping : cl_closed c = true ∨ cl_released c = true →
    has_receiver c = true → sh_global_cancel (cl_shared c) = true;
  li_holder : ∀ k, cl_holder c = Some k ↔ ∃ p, cl_calls c !! k = Some (SubscribeDiscard p);
  li_slot : ∀ n, cl_slot c = Some n → is_Some (cl_controls c !! n);
  li_no_slot : cl_slot c = None → cl_controls c = [];
  li_released : cl_released c = true → ∀ k call, cl_calls c !! k = Some call →
    call_pending call = false;
  li_call : ∀ k call, cl_calls c !! k = Some call → call_ok c k call;
  li_health : match cl_health_join c with
    | JoinTaken k => ∃ waited e, cl_calls c !! k = Some (CloseHealthJoin waited e)
    | JoinJoined => ∃ panicked, sh_health_task (cl_shared c) = HpEnded panicked
    | _ => True
    end
}.
(** ** Steps of a subscription *)

(** What a subscription's own steps leave alone: the client's flag and the health task. *)
Definition same_client (s s' : Subscription) : Prop :=
  sb_global_cancel s' = sb_global_cancel s ∧ sb_health_task s' = sb_health_task s.
Lemma same_client_trans s1 s2 s3 : same_client s1 s2 → same_client s2 s3 → same_client s1 s3.
Proof. intros [? ?] [? ?]. split; congruence. Qed.

Lemma finish_client e s : same_client s (finish e s).
Proof. unfold finish. destruct e; [destruct (cancelled s)|]; done. Qed.
Lemma begin_reopen_client n s : same_client s (begin_reopen n s).
Proof.
  unfold begin_reopen. destruct (checked_add _ _ _); [done|]. apply finish_client.
Qed.
Lemma deliver_client e s : same_client s (deliver_event e s).
Proof.
  unfold deliver_event. repeat (case_match; try done).
Qed.
Lemma apply_candidate_client candidate h r h' :
  apply_topology_candidate candidate h = (r, h') →
  sh_global_cancel h' = sh_global_cancel h ∧ sh_health_task h' = sh_health_task h.
Proof.
  unfold apply_topology_candidate.
  destruct (topology_apply _ _) as [[[ch|]|e|] t]; by intros [= <- <-].
Qed.
Lemma stream_item_client now item s :
  same_client s (handle_stream_item cccp_from_slice now item s).
Proof.
  unfold handle_stream_item. destruct item as [[e|source payload|f]|e|]; [|..|done].
  - destruct (_ && _); [done|apply deliver_client].
  - destruct (from_json _ _ _ _ _); [|done|done].
    destruct (apply_topology_candidate _ _) as [r h'] eqn:Ha.
    apply apply_candidate_client in Ha. by destruct r as [[snap|]|e|].
  - done.
  - done.
Qed.
Lemma shutdown_client now streams mitigation a s :
  same_client s (shutdown_generation now streams mitigation a s).
Proof.
  unfold shutdown_generation. set (s1 := gauge ActiveConnections 0 _).
  assert (same_client s s1) as H1 by done.
  destruct a; destruct (combine_generation_shutdown streams mitigation);
    match goal with
    | |- same_client _ (finish _ ?x) => apply (same_client_trans _ x); [|apply finish_client]
    | |- same_client _ (begin_reopen _ ?x) =>
        apply (same_client_trans _ x); [|apply begin_reopen_client]
    end; done.
Qed.
Lemma accept_client now snapshot starts g s :
  same_client s (accept_reopened_generation now snapshot starts g s).
Proof.
  unfold accept_reopened_generation. destruct (validate_opened_partitions _ _ _ _ _); [|done..].
  by destruct (rebase_partitions _ _ _) as [[u|e|] c].
Qed.
Lemma flush_client now scheduler gate save elapsed e s :
  same_client s (flush_round now scheduler gate save elapsed e s).
Proof.
  unfold flush_round. destruct (match scheduler with Some _ => _ | None => _ end) as [[]]; by destruct e.
Qed.

Lemma own_step_client now i s y s' :
  own_input i = true → client_step cccp_from_slice now i s = Some (y, s') → same_client s s'.
Proof.
  intros Ho Hrun. unfold client_step in Hrun.
  destruct i as [p|w|w| |streams mitigation| |w|elapsed|sent|scheduler gate save elapsed| |d
    |gate save elapsed|drop| | | | ]; try done.
  1-10: destruct (sb_phase s) eqn:Hph; try done.
  - injection Hrun as <- <-. unfold drive_round. destruct (cancelled s); [done|].
    destruct (newer_topology _ _); [done|]. destruct p; [done|done|apply stream_item_client].
  - apply fmap_Some in Hrun as (s1 & Hr & [= -> ->]). unfold gate_round in Hr.
    repeat (case_match; simplify_eq; try done);
      (eapply same_client_trans; [|apply deliver_client]; done).
  - apply fmap_Some in Hrun as (s1 & Hr & [= -> ->]). unfold send_round in Hr.
    repeat (case_match; simplify_eq; try done).
  - by injection Hrun as <- <-.
  - injection Hrun as <- <-. apply shutdown_client.
  - injection Hrun as <- <-. unfold reopen_attempt.
    repeat (case_match; simplify_eq; try done; try apply finish_client).
  - injection Hrun as <- <-. unfold open_round.
    repeat (case_match; simplify_eq; try done; try apply finish_client; try apply accept_client).
  - injection Hrun as <- <-. unfold backoff_round.
    repeat (case_match; simplify_eq; try done; try apply finish_client).
  - apply fmap_Some in Hrun as (s1 & Hr & [= -> ->]). unfold notify_round in Hr.
    repeat (case_match; simplify_eq; try done).
  - injection Hrun as <- <-. apply flush_client.
  - destruct (sb_receiver_open s); [|done]. apply fmap_Some in Hrun as ([y1 s1] & Hr & Heq).
    cbv beta iota in Heq. injection Heq as -> ->. unfold poll_output in Hr.
    destruct (sb_channel s) as [|o l]; [done|]. destruct (negb _); injection Hr as <- <-; [done|].
    by destruct (mo_item o).
  - injection Hrun as <- <-. unfold mark_processed.
    by destruct (tracked_acknowledge _ _) as [[o|e|] c].
  - by injection Hrun as <- <-.
  - injection Hrun as <- <-. by destruct drop.
Qed.

(** Once the task has ended, only the application's steps are left: they change neither the
    flags, nor the streams, nor the health state, nor the gauges. *)
Definition same_rest (h h' : Shared) : Prop :=
  sh_active h' = sh_active h ∧ sh_live h' = sh_live h ∧ sh_global_cancel h' = sh_global_cancel h
  ∧ sh_health_task h' = sh_health_task h ∧ sh_health h' = sh_health h
  ∧ sh_metrics h' ActiveConnections = sh_metrics h ActiveConnections
  ∧ sh_metrics h' AssignedVbuckets = sh_metrics h AssignedVbuckets.
Lemma record_delivery_gauge e m c :
  c = ActiveConnections ∨ c = AssignedVbuckets → record_delivery e m c = m c.
Proof. intros [-> | ->]; by destruct e. Qed.

Lemma done_step now i s y s' :
  own_input i = true → is_done (sb_phase s) = true →
  client_step cccp_from_slice now i s = Some (y, s') →
  sb_phase s' = sb_phase s ∧ same_rest (sb_shared s) (sb_shared s').
Proof.
  intros Ho Hd Hrun. unfold client_step in Hrun. unfold same_rest.
  destruct i as [| | | | | | | | | | |d|gate save elapsed|drop| | | | ]; try done.
  1-10: by destruct (sb_phase s).
  - destruct (sb_receiver_open s); [|done]. apply fmap_Some in Hrun as ([y1 s1] & Hr & Heq).
    cbv beta iota in Heq. injection Heq as -> ->. unfold poll_output in Hr.
    destruct (sb_channel s) as [|o l]; [done|]. destruct (negb _); injection Hr as <- <-; [done|].
    destruct (mo_item o); [|done..]. split_and!; try done; cbn; apply record_delivery_gauge; auto.
  - injection Hrun as <- <-. unfold mark_processed.
    by destruct (tracked_acknowledge _ _) as [[o|e|] c].
  - by injection Hrun as <- <-.
  - injection Hrun as <- <-. by destruct drop.
Qed.

(** ** Evolution

    What a step of anyone but the call [k] itself leaves true for that call: [k0] is the call
    that makes the step. *)
Record control_evolves (k0 : nat) (t t' : Control) : Prop := {
  ce_done : ct_done t = true → sb_phase (ct_task t') = sb_phase (ct_task t);
  ce_returned : ct_returned t = true → ct_returned t' = true;
  ce_taken : ∀ k, k ≠ k0 → ct_join t = JoinTaken k → ct_join t' = JoinTaken k;
  ce_gone : join_gone (ct_join t) → join_gone (ct_join t')
}.
Record evolves (k0 : nat) (c c' : ClientInner) : Prop := {
  ev_closed : cl_closed c = true → cl_closed c' = true;
  ev_control : ∀ n t, cl_controls c !! n = Some t →
    ∃ t', cl_controls c' !! n = Some t' ∧ control_evolves k0 t t';
  ev_length : cl_closed c = true → length (cl_controls c') = length (cl_controls c);
  ev_taken : ∀ k, k ≠ k0 → cl_health_join c = JoinTaken k → cl_health_join c' = JoinTaken k;
  ev_gauges : cl_closed c = true → all_done c → gauges_zero (cl_shared c) →
    gauges_zero (cl_shared c');
  ev_stopped : cl_closed c = true → all_done c → stopped c → stopped c'
}.

Lemma control_evolves_refl k0 t : control_evolves k0 t t.
Proof. by split. Qed.
Lemma control_evolves_result k0 t t' :
  control_evolves k0 t t' → ct_done t = true → ct_done t' = true ∧ ct_result t' = ct_result t.
Proof. intros He Hd. unfold ct_done, ct_result in *. by rewrite (ce_done _ _ _ He Hd). Qed.

Lemma ev_lookup k0 c c' n t' :
  evolves k0 c c' → cl_closed c = true → cl_controls c' !! n = Some t' →
  ∃ t, cl_controls c !! n = Some t ∧ control_evolves k0 t t'.
Proof.
  intros He Hc Ht'. destruct (cl_controls c !! n) as [t|] eqn:Ht.
  - destruct (ev_control _ _ _ He n t Ht) as (t1 & Ht1 & ?). rewrite Ht' in Ht1.
    injection Ht1 as <-. eauto.
  - apply lookup_ge_None in Ht. apply lookup_lt_Some in Ht'.
    rewrite (ev_length _ _ _ He Hc) in Ht'. lia.
Qed.
Lemma ev_all_done k0 c c' : evolves k0 c c' → cl_closed c = true → all_done c → all_done c'.
Proof.
  intros He Hc Hd n t' Ht'. destruct (ev_lookup _ _ _ _ _ He Hc Ht') as (t & Ht & Hct).
  apply (control_evolves_result _ _ _ Hct). by eapply Hd.
Qed.
Lemma ev_wait k0 c c' k n w : evolves k0 c c' → k ≠ k0 → wait_ok c k n w → wait_ok c' k n w.
Proof.
  intros He Hk (t & Ht & Hw). destruct (ev_control _ _ _ He n t Ht) as (t' & Ht' & Hct).
  exists t'. split; [done|]. destruct w; [done|by eapply ce_taken|by eapply ce_gone].
Qed.
Lemma ev_returned k0 c c' n t :
  life_inv c → evolves k0 c c' → cl_controls c !! n = Some t → ct_returned t = true →
  ∃ t', cl_controls c' !! n = Some t' ∧ ct_returned t' = true ∧ ct_result t' = ct_result t.
Proof.
  intros Hi He Ht Hr. destruct (ev_control _ _ _ He n t Ht) as (t' & Ht' & Hct).
  destruct (li_control _ Hi n t Ht) as (_ & _ & Hd & _). exists t'.
  split_and!; [done|by eapply ce_returned|]. apply (control_evolves_result _ _ _ Hct), Hd, Hr.
Qed.
Lemma ev_waited k0 c c' n joined r :
  life_inv c → evolves k0 c c' → waited_ok c n joined r → waited_ok c' n joined r.
Proof.
  intros Hi He (t & Ht & Hr & Ha). destruct (ev_returned _ _ _ _ _ Hi He Ht Hr) as (t' & ? & ? & E).
  exists t'. by rewrite E.
Qed.
Lemma ev_no_controls k0 c c' :
  evolves k0 c c' → cl_closed c = true → cl_controls c = [] → cl_controls c' = [].
Proof.
  intros He Hc Hn. apply nil_length_inv. by rewrite (ev_length _ _ _ He Hc), Hn.
Qed.
Lemma ev_close_result k0 c c' waited r :
  life_inv c → evolves k0 c c' → cl_closed c = true → close_result_ok c waited r →
  close_result_ok c' waited r.
Proof.
  intros Hi He Hc. destruct waited as [n|]; cbn; [|by eapply ev_no_controls].
  intros (t & Ht & Hret & Hr).
  destruct (ev_returned _ _ _ _ _ Hi He Ht Hret) as (t' & ? & ? & E). exists t'. by rewrite E.
Qed.

Lemma call_ok_evolves k0 c c' k call :
  life_inv c → evolves k0 c c' → k ≠ k0 → call_ok c k call → call_ok c' k call.
Proof.
  intros Hi He Hk. destruct call; cbn [call_ok]; try done.
  - intros [Hw Hr]. split; [by eapply ev_wait|]. intros Hcl. destruct (Hr Hcl) as [Hc Hm].
    split; [by eapply ev_closed|]. intros m t' Ht' Hrun. destruct (ev_lookup _ _ _ _ _ He Hc Ht') as (t & Ht & Hct).
    apply (Hm m t Ht). unfold running in *. destruct (ct_done t) eqn:Hd; [|done].
    apply (control_evolves_result _ _ _ Hct) in Hd as [Hd _]. by rewrite Hd in Hrun.
  - by eapply ev_waited.
  - intros (Hc & Hd & Hw). split_and!;
      [by eapply ev_closed|by eapply ev_all_done|by eapply ev_close_result].
  - intros (Hc & Hd & Hw & Ht). split_and!;
      [by eapply ev_closed|by eapply ev_all_done|by eapply ev_close_result|by eapply ev_taken].
  - intros (Hc & Hd & Hg & Hs & Hr). split_and!; [by eapply ev_closed|by eapply ev_all_done|
      by eapply ev_gauges|by eapply ev_stopped|by eapply ev_close_result].
Qed.

(** ** Parts of the invariant after a step *)
Lemma put_call_lookup k call c k' call' :
  cl_calls (put_call k call c) !! k' = Some call' →
  k' = k ∧ call' = call ∨ k' ≠ k ∧ cl_calls c !! k' = Some call'.
Proof. intros [(-> & -> & _)|[? ?]]%list_lookup_insert_Some; auto. Qed.
Lemma put_call_kept k call c k' call' :
  k' ≠ k → cl_calls c !! k' = Some call' → cl_calls (put_call k call c) !! k' = Some call'.
Proof. intros. by apply list_lookup_insert_Some; right. Qed.
Lemma new_call_lookup call c k' call' :
  cl_calls (new_call call c) !! k' = Some call' →
  k' = length (cl_calls c) ∧ call' = call
  ∨ k' ≠ length (cl_calls c) ∧ cl_calls c !! k' = Some call'.
Proof.
  intros [Hl|[Hl <-]]%lookup_snoc_Some; [right|by left].
  destruct Hl as [Hlt Hl]. split; [lia|done].
Qed.
Lemma new_call_kept call c k' call' :
  cl_calls c !! k' = Some call' → cl_calls (new_call call c) !! k' = Some call'.
Proof. apply lookup_app_l_Some. Qed.

Lemma owners_put_call k old call c :
  cl_calls c !! k = Some old →
  (owners (put_call k call c) + Nat.b2n (holds_reservation old)
   = owners c + Nat.b2n (holds_reservation call))%nat.
Proof.
  intros Hk. pose proof (sum_list_with_insert (λ call, Nat.b2n (holds_reservation call)) _ _ _ call Hk).
  unfold owners, put_call, put_calls. cbn [cl_calls cl_controls]. lia.
Qed.
Lemma owners_new_call call c :
  owners (new_call call c) = (owners c + Nat.b2n (holds_reservation call))%nat.
Proof.
  unfold owners, new_call, put_calls. cbn [cl_calls cl_controls].
  rewrite sum_list_with_app. cbn. lia.
Qed.
Lemma owners_put_control n t t' c :
  cl_controls c !! n = Some t →
  (owners (put_control n t' c) + Nat.b2n (running t) = owners c + Nat.b2n (running t'))%nat.
Proof.
  intros Hn. pose proof (sum_list_with_insert (λ t, Nat.b2n (running t)) _ _ _ t' Hn).
  unfold owners, put_control, put_controls. cbn [cl_calls cl_controls]. lia.
Qed.

Lemma owner_call c k call :
  life_inv c → cl_calls c !! k = Some call → holds_reservation call = true →
  sh_active (cl_shared c) = true ∧ all_done c
  ∧ ∀ k' call', k' ≠ k → cl_calls c !! k' = Some call' → holds_reservation call' = false.
Proof.
  intros Hi Hk Hh. pose proof (li_owner _ Hi) as Ho. unfold owners in Ho.
  pose proof (sum_list_with_in _ (λ call, Nat.b2n (holds_reservation call)) _
    (list_elem_of_lookup_2 _ _ _ Hk)) as H1. cbn beta in H1. rewrite Hh in H1. cbn in H1.
  assert (Nat.b2n (sh_active (cl_shared c)) ≤ 1)%nat by (destruct (sh_active _); cbn; lia).
  split_and!.
  - destruct (sh_active _); [done|]. cbn in Ho. lia.
  - intros n t Ht. destruct (ct_done t) eqn:Hd; [done|].
    pose proof (sum_list_with_in _ (λ t, Nat.b2n (running t)) _ (list_elem_of_lookup_2 _ _ _ Ht)) as H2.
    cbn beta in H2. unfold running in H2 at 1. rewrite Hd in H2. cbn in H2. lia.
  - intros k' call' Hne Hk'. destruct (holds_reservation call') eqn:Hh'; [|done].
    pose proof (sum_list_with_two (λ call, Nat.b2n (holds_reservation call)) _ _ _ _ _ Hk' Hk Hne) as H2.
    cbn beta in H2. rewrite Hh, Hh' in H2. cbn in H2. lia.
Qed.
Lemma owner_task c n t :
  life_inv c → cl_controls c !! n = Some t → ct_done t = false →
  sh_active (cl_shared c) = true
  ∧ (∀ k call, cl_calls c !! k = Some call → holds_reservation call = false)
  ∧ ∀ m u, m ≠ n → cl_controls c !! m = Some u → ct_done u = true.
Proof.
  intros Hi Hn Hd. pose proof (li_owner _ Hi) as Ho. unfold owners in Ho.
  pose proof (sum_list_with_in _ (λ t, Nat.b2n (running t)) _ (list_elem_of_lookup_2 _ _ _ Hn)) as H1.
  cbn beta in H1. unfold running in H1 at 1. rewrite Hd in H1. cbn in H1.
  assert (Nat.b2n (sh_active (cl_shared c)) ≤ 1)%nat by (destruct (sh_active _); cbn; lia).
  split_and!.
  - destruct (sh_active _); [done|]. cbn in Ho. lia.
  - intros k call Hk. destruct (holds_reservation call) eqn:Hh; [|done].
    destruct (owner_call _ _ _ Hi Hk Hh) as (_ & Ha & _). by rewrite (Ha n t Hn) in Hd.
  - intros m u Hne Hm. destruct (ct_done u) eqn:Hdu; [done|].
    pose proof (sum_list_with_two (λ t, Nat.b2n (running t)) _ _ _ _ _ Hm Hn Hne) as H2.
    cbn beta in H2. unfold running in H2 at 1 2. rewrite Hd, Hdu in H2. cbn in H2. lia.
Qed.

Lemma view_shared c c' t h :
  client_inv (view c t) h → sh_active (cl_shared c') = sh_active (cl_shared c) →
  sh_live (cl_shared c') = sh_live (cl_shared c) → client_inv (view c' t) h.
Proof. intros Hi Ha Hl. eapply quiet_same; [exact Hi|by split_and!|done]. Qed.

Definition joining (n : nat) (call : Call) : Prop :=
  ∃ closing, call = CallWait closing n WaitJoin.
Lemma controls_kept c c' :
  life_inv c → cl_controls c' = cl_controls c → cl_slot c' = cl_slot c →
  (∀ k n call, cl_calls c !! k = Some call → joining n call → cl_calls c' !! k = Some call) →
  all_done c ∨ (sh_active (cl_shared c') = sh_active (cl_shared c)
                ∧ sh_live (cl_shared c') = sh_live (cl_shared c)) →
  ∀ n t, cl_controls c' !! n = Some t → control_ok c' n t.
Proof.
  intros Hi Hc Hs Hj Hsh n t Ht. rewrite Hc in Ht. destruct (li_control _ Hi n t Ht) as (C1 & C2 & C3 & C4).
  split_and!; [|done|done|].
  - intros Hd. destruct Hsh as [Ha|[Ha Hl]]; [by rewrite (Ha n t Ht) in Hd|].
    destruct (C1 Hd) as [? ?]. split; [by eapply view_shared|congruence].
  - destruct (ct_join t) as [|k| |]; try done. destruct C4 as (closing & Hk). exists closing.
    by eapply Hj; [|eexists].
Qed.

Lemma calls_step k0 c c' :
  life_inv c → evolves k0 c c' →
  (∀ k call, cl_calls c' !! k = Some call →
     k ≠ k0 ∧ cl_calls c !! k = Some call ∨ call_ok c' k call) →
  ∀ k call, cl_calls c' !! k = Some call → call_ok c' k call.
Proof.
  intros Hi He Hstep k call Hk. destruct (Hstep k call Hk) as [[Hne Hc]|?]; [|done].
  eapply call_ok_evolves; [done..|]. by apply (li_call _ Hi).
Qed.
Lemma subscribes_step c c' :
  life_inv c → cl_config c' = cl_config c → (cl_closed c = true → cl_closed c' = true) →
  (∀ k call, cl_calls c' !! k = Some call →
     subscribe_ok c' call
     ∨ cl_calls c !! k = Some call
       ∧ (holds_reservation call = false ∨ sh_live (cl_shared c') = sh_live (cl_shared c))) →
  ∀ k call, cl_calls c' !! k = Some call → subscribe_ok c' call.
Proof.
  intros Hi Hcfg Hcl Hstep k call Hk. destruct (Hstep k call Hk) as [?|[Hc Hor]]; [done|].
  pose proof (li_subscribe _ Hi k call Hc) as Hs. destruct Hor as [?|Hl]; [by destruct call|].
  destruct call; cbn [subscribe_ok] in *; try done; rewrite ?Hl, ?Hcfg; [done|naive_solver].
Qed.

(** Steps that leave the subscriptions, the handles and what is observed alone. *)
Lemma evolves_same k0 c c' :
  (cl_closed c = true → cl_closed c' = true) → cl_controls c' = cl_controls c →
  cl_health_join c' = cl_health_join c →
  sh_metrics (cl_shared c') = sh_metrics (cl_shared c) →
  sh_health (cl_shared c') = sh_health (cl_shared c) →
  sh_health_task (cl_shared c') = sh_health_task (cl_shared c) → evolves k0 c c'.
Proof.
  intros Hcl Hc Hj Hm Hh Ht. split; rewrite ?Hc, ?Hj; try done.
  - intros n t Hn. exists t. split; [done|apply control_evolves_refl].
  - intros _ _. unfold gauges_zero. by rewrite Hm.
  - intros _ _. unfold stopped. by rewrite Hj, Hh, Ht.
Qed.

Lemma put_control_lookup n t t' c :
  cl_controls c !! n = Some t → cl_controls (put_control n t' c) !! n = Some t'.
Proof.
  intros Hn. apply list_lookup_insert_Some. left. split_and!; [done..|by eapply lookup_lt_Some].
Qed.
(** Steps of one subscription. *)
Lemma evolves_control k0 c c' n t t' :
  cl_controls c !! n = Some t → control_evolves k0 t t' →
  cl_controls c' = <[n := t']> (cl_controls c) → cl_closed c' = cl_closed c →
  cl_health_join c' = cl_health_join c →
  (ct_done t = true → same_rest (cl_shared c) (cl_shared c')) → evolves k0 c c'.
Proof.
  intros Hn Hce Hc Hcl Hj Hsh. split; rewrite ?Hcl, ?Hj; try done.
  - intros m u Hm. rewrite Hc. destruct (decide (n = m)) as [->|Hne].
    + rewrite Hn in Hm. injection Hm as <-. exists t'. split; [by eapply (put_control_lookup m)|done].
    + exists u. split; [by apply list_lookup_insert_Some; right|apply control_evolves_refl].
  - intros _. rewrite Hc. apply length_insert.
  - intros _ Hd. destruct (Hsh (Hd n t Hn)) as (_ & _ & _ & _ & _ & Ha & Hv).
    unfold gauges_zero. by rewrite Ha, Hv.
  - intros _ Hd. destruct (Hsh (Hd n t Hn)) as (_ & _ & _ & Ht & Hh & _).
    unfold stopped. by rewrite Hj, Ht, Hh.
Qed.

Lemma has_receiver_spec c :
  has_receiver c = true ↔
  (∀ panicked, sh_health_task (cl_shared c) ≠ HpEnded panicked)
  ∨ ∃ n t, cl_controls c !! n = Some t ∧ ct_done t = false.
Proof.
  unfold has_receiver. rewrite orb_true_iff, existsb_exists. f_equiv.
  - destruct (sh_health_task _) as [| | |p]; try by split; intros. split; [done|]. intros Hp. by destruct (Hp p).
  - split.
    + intros (t & Ht & Hd). apply list_elem_of_In, list_elem_of_lookup in Ht as [n Hn].
      exists n, t. split; [done|by apply negb_true_iff].
    + intros (n & t & Hn & Hd). exists t. rewrite Hd.
      split; [by apply list_elem_of_In, list_elem_of_lookup_2 with n|done].
Qed.
(** No step of a subscription or of the health task adds a receiver. *)
Lemma has_receiver_mono c c' :
  (∀ panicked, sh_health_task (cl_shared c) = HpEnded panicked →
     sh_health_task (cl_shared c') = HpEnded panicked) →
  (∀ n t', cl_controls c' !! n = Some t' → ct_done t' = false →
     ∃ t, cl_controls c !! n = Some t ∧ ct_done t = false) →
  has_receiver c' = true → has_receiver c = true.
Proof.
  intros Hh Hc. rewrite !has_receiver_spec. intros [Hn|(n & t' & Hn & Hd)].
  - left. intros p Hp. by destruct (Hn p (Hh p Hp)).
  - right. destruct (Hc n t' Hn Hd) as (t & ? & ?). eauto.
Qed.

(** A step of one call: [k0] is its index. *)
Definition health_join_ok (c : ClientInner) : Prop :=
  match cl_health_join c with
  | JoinTaken k => ∃ waited e, cl_calls c !! k = Some (CloseHealthJoin waited e)
  | JoinJoined => ∃ panicked, sh_health_task (cl_shared c) = HpEnded panicked
  | _ => True
  end.
Definition holder_ok (c : ClientInner) : Prop :=
  ∀ k, cl_holder c = Some k ↔ ∃ p, cl_calls c !! k = Some (SubscribeDiscard p).
Definition cancel_ok (c : ClientInner) : Prop :=
  (cl_closed c = false → cl_released c = false → sh_global_cancel (cl_shared c) = false)
  ∧ (cl_closed c = true ∨ cl_released c = true → has_receiver c = true →
     sh_global_cancel (cl_shared c) = true).

Lemma call_step_inv k0 c c' :
  life_inv c → cl_config c' = cl_config c → cl_controls c' = cl_controls c →
  cl_slot c' = cl_slot c → cl_released c' = cl_released c → evolves k0 c c' →
  (∀ k call, cl_calls c' !! k = Some call →
     k ≠ k0 ∧ cl_calls c !! k = Some call
     ∨ call_ok c' k call ∧ subscribe_ok c' call
       ∧ (cl_released c = true → call_pending call = false)) →
  (∀ k n call, cl_calls c !! k = Some call → joining n call → cl_calls c' !! k = Some call) →
  owners c' = Nat.b2n (sh_active (cl_shared c')) →
  all_done c ∧ (∀ k call, k ≠ k0 → cl_calls c !! k = Some call → holds_reservation call = false)
  ∨ (sh_active (cl_shared c') = sh_active (cl_shared c)
     ∧ sh_live (cl_shared c') = sh_live (cl_shared c)) →
  ((∀ k call, cl_calls c' !! k = Some call → prepared_of call = None) → all_done c →
   sh_live (cl_shared c') = ∅) →
  cancel_ok c' → holder_ok c' → health_join_ok c' → life_inv c'.
Proof.
  intros Hi Hcfg Hc Hs Hrel He Hcalls Hj Ho Hsh Hidle [Hf Hst] Hh Hhj. split; try done.
  - apply (controls_kept c); try done. destruct Hsh as [[? _]|?]; auto.
  - apply (subscribes_step c); [done..|apply He|]. intros k call Hk.
    destruct (Hcalls k call Hk) as [[Hne Hk']|(_ & ? & _)]; [right|by left].
    split; [done|]. destruct Hsh as [[_ Hn]|[_ Hl]]; [left; by eapply Hn|by right].
  - intros Hp Hd. apply Hidle; [done|]. intros n t Ht. apply (Hd n t). by rewrite Hc.
  - intros n. rewrite Hs, Hc. apply (li_slot _ Hi).
  - rewrite Hs, Hc. apply (li_no_slot _ Hi).
  - rewrite Hrel. intros Hr k call Hk. destruct (Hcalls k call Hk) as [[_ Hk']|(_ & _ & Hp)];
      [by eapply (li_released _ Hi Hr)|by apply Hp].
  - apply (calls_step k0 c); try done. intros k call Hk.
    destruct (Hcalls k call Hk) as [?|(? & _ & _)]; auto.
Qed.

Lemma cancel_ok_inv c : life_inv c → cancel_ok c.
Proof. intros Hi. split; [apply (li_fresh _ Hi)|apply (li_stopping _ Hi)]. Qed.
Lemma holder_free c : life_inv c → cl_holder c = None →
  ∀ k call, cl_calls c !! k = Some call → ∀ p, call ≠ SubscribeDiscard p.
Proof.
  intros Hi Hn k call Hk p ->. destruct (li_holder _ Hi k) as [_ Hh].
  rewrite Hh in Hn by eauto. done.
Qed.

(** *** Subscribing *)
Lemma new_call_inv call c :
  life_inv c → (cl_released c = true → call_pending call = false) → holds_reservation call = false →
  call_ok c (length (cl_calls c)) call → subscribe_ok c call → life_inv (new_call call c).
Proof.
  intros Hi Hrel Hh Hok Hsub. apply (call_step_inv (length (cl_calls c)) c); try done.
  - by apply evolves_same.
  - intros k call' [[-> ->]|?]%new_call_lookup; [right|by left].
    by split_and!.
  - intros k n call' Hk _. by apply new_call_kept.
  - rewrite owners_new_call, Hh, (li_owner _ Hi). cbn. lia.
  - by right.
  - intros Hp. apply (li_idle _ Hi). intros k call' Hk. by eapply Hp, new_call_kept.
  - exact (cancel_ok_inv c Hi).
  - intros k. cbn. rewrite (li_holder _ Hi k). split; intros [p Hp].
    + exists p. by apply new_call_kept.
    + apply new_call_lookup in Hp as [[_ <-]|[_ ?]]; [done|by exists p].
  - unfold health_join_ok. cbn [cl_health_join new_call put_calls cl_shared].
    pose proof (li_health _ Hi) as Hl. destruct (cl_health_join c); try done.
    destruct Hl as (w & e & Hl). exists w, e. by apply new_call_kept.
Qed.

(** A call moves between awaits at which it holds no lock. *)
Definition plain (call : Call) : bool :=
  match call with
  | SubscribeDiscard _ | CloseHealthJoin _ _ | CallWait _ _ WaitJoin => false
  | _ => true
  end.
Lemma holder_plain k old new c c1 :
  holder_ok c → cl_calls c1 = cl_calls c → cl_holder c1 = cl_holder c →
  cl_calls c !! k = Some old → plain old = true → plain new = true →
  holder_ok (put_call k new c1).
Proof.
  intros Hh Hc1 Hh1 Hk Ho Hn k'. cbn [cl_holder put_call put_calls]. rewrite Hh1, (Hh k'), <- Hc1.
  split; intros [p Hp].
  - exists p. apply put_call_kept; [|done]. intros ->. rewrite Hc1, Hk in Hp. by injection Hp as ->.
  - apply put_call_lookup in Hp as [[-> <-]|[_ Hp]]; [done|by exists p].
Qed.
Lemma health_join_plain k old new c c1 :
  health_join_ok c → cl_calls c1 = cl_calls c → cl_health_join c1 = cl_health_join c →
  sh_health_task (cl_shared c1) = sh_health_task (cl_shared c) →
  cl_calls c !! k = Some old → plain old = true → health_join_ok (put_call k new c1).
Proof.
  intros Hh Hc1 Hj Ht Hk Ho. unfold health_join_ok in *.
  cbn [cl_health_join put_call put_calls cl_shared]. rewrite Hj, Ht. destruct (cl_health_join c); try done.
  destruct Hh as (w & e & Hh). exists w, e. apply put_call_kept; [|by rewrite Hc1].
  intros ->. rewrite Hk in Hh. by injection Hh as ->.
Qed.
Lemma joining_plain k old new c c1 :
  cl_calls c1 = cl_calls c → cl_calls c !! k = Some old → plain old = true →
  ∀ k' n call, cl_calls c !! k' = Some call → joining n call →
    cl_calls (put_call k new c1) !! k' = Some call.
Proof.
  intros Hc1 Hk Ho k' n call Hk' Hj. apply put_call_kept; [|by rewrite Hc1].
  intros ->. rewrite Hk in Hk'. injection Hk' as ->. by destruct Hj as [? ->].
Qed.

Lemma plain_step_inv k old new c c1 :
  life_inv c → cl_calls c !! k = Some old → plain old = true → plain new = true →
  cl_config c1 = cl_config c → cl_controls c1 = cl_controls c → cl_slot c1 = cl_slot c →
  cl_released c1 = cl_released c → cl_calls c1 = cl_calls c → cl_holder c1 = cl_holder c →
  cl_health_join c1 = cl_health_join c →
  sh_health_task (cl_shared c1) = sh_health_task (cl_shared c) →
  evolves k c (put_call k new c1) → cancel_ok (put_call k new c1) →
  call_ok (put_call k new c1) k new → subscribe_ok (put_call k new c1) new →
  (cl_released c = true → call_pending new = false) →
  (Nat.b2n (sh_active (cl_shared c1)) + Nat.b2n (holds_reservation old)
   = Nat.b2n (sh_active (cl_shared c)) + Nat.b2n (holds_reservation new))%nat →
  holds_reservation old = true
  ∨ (sh_active (cl_shared c1) = sh_active (cl_shared c)
     ∧ sh_live (cl_shared c1) = sh_live (cl_shared c) ∧ prepared_of new = None) →
  (holds_reservation old = true → prepared_of new = None → sh_live (cl_shared c1) = ∅) →
  life_inv (put_call k new c1).
Proof.
  intros Hi Hk Ho Hn Hcfg Hc Hs Hr Hc1 Hh Hj Ht He Hcan Hok Hsub Hrel Hown Hsh Hidle.
  apply (call_step_inv k c); try done.
  - intros k' call [[-> ->]|[? Hk']]%put_call_lookup; [by right|left]. by rewrite <- Hc1.
  - by eapply joining_plain.
  - assert (owners c1 = owners c) as Hoc by (unfold owners; by rewrite Hc, Hc1).
    assert (cl_calls c1 !! k = Some old) as Hk1 by by rewrite Hc1.
    pose proof (owners_put_call k old new c1 Hk1) as Hp.
    rewrite Hoc, (li_owner _ Hi) in Hp. cbn [cl_shared put_call put_calls]. lia.
  - destruct Hsh as [Hres|(? & ? & _)]; [left|by right].
    destruct (owner_call _ _ _ Hi Hk Hres) as (_ & ? & ?). done.
  - intros Hp Hd. cbn [cl_shared put_call put_calls].
    assert (prepared_of new = None) as Hpn.
    { apply (Hp k). apply list_lookup_insert_Some. left. rewrite Hc1.
      split_and!; [done..|by eapply lookup_lt_Some]. }
    destruct (holds_reservation old) eqn:Hres; [by apply Hidle|]. destruct Hsh as [?|(_ & -> & _)]; [done|].
    apply (li_idle _ Hi); [|done]. intros k' call Hk'. destruct (decide (k' = k)) as [->|Hne].
    + rewrite Hk in Hk'. injection Hk' as <-. by destruct old.
    + apply (Hp k'). apply put_call_kept; [done|by rewrite Hc1].
  - eapply (holder_plain _ _ _ c); try done. exact (li_holder _ Hi).
  - eapply (health_join_plain _ _ _ c); try done. exact (li_health _ Hi).
Qed.

Lemma no_owner c :
  life_inv c → sh_active (cl_shared c) = false →
  all_done c ∧ ∀ k call, cl_calls c !! k = Some call → holds_reservation call = false.
Proof.
  intros Hi Ha. split.
  - intros n t Ht. destruct (ct_done t) eqn:Hd; [done|].
    destruct (owner_task _ _ _ Hi Ht Hd) as (? & _). congruence.
  - intros k call Hk. destruct (holds_reservation call) eqn:Hh; [|done].
    destruct (owner_call _ _ _ Hi Hk Hh) as (? & _). congruence.
Qed.
Lemma not_reserved call : holds_reservation call = false → prepared_of call = None.
Proof. by destruct call. Qed.
Lemma idle_live c :
  life_inv c → all_done c →
  (∀ k call, cl_calls c !! k = Some call → prepared_of call = None) → sh_live (cl_shared c) = ∅.
Proof. intros Hi Hd Hp. by apply (li_idle _ Hi). Qed.

Lemma subscribe_begin_inv spec c :
  life_inv c → cl_released c = false → handler_total (sp_rollback_handler spec) →
  life_inv (subscribe_begin spec c).
Proof.
  intros Hi Hrel Hh. unfold subscribe_begin.
  destruct (validate_subscription_spec _ _ _); cbn; [|by apply new_call_inv..].
  unfold acquire. destruct (sh_active (cl_shared c)) eqn:Ha; [by apply new_call_inv|].
  destruct (no_owner _ Hi Ha) as [Hd Hno].
  apply (call_step_inv (length (cl_calls c)) c); try done.
  - by apply evolves_same.
  - intros k call [[-> ->]|?]%new_call_lookup; [right|by left]. split_and!; [done..|].
    intros ?. congruence.
  - intros k n call Hk _. by apply (new_call_kept _ (put_shared_state _ c)).
  - rewrite owners_new_call. change (owners (put_shared_state _ c)) with (owners c).
    rewrite (li_owner _ Hi), Ha. done.
  - left. split; [done|]. intros k call _. apply Hno.
  - intros _ _. apply (idle_live c); [done..|]. intros k call Hk. by eapply not_reserved, Hno.
  - exact (cancel_ok_inv c Hi).
  - intros k. cbn. rewrite (li_holder _ Hi k). split; intros [p Hp].
    + by specialize (Hno _ _ Hp).
    + apply new_call_lookup in Hp as [[_ [=]]|[_ ?]]. by exists p.
  - unfold health_join_ok. cbn [cl_health_join new_call put_calls cl_shared put_shared_state
      set_active sh_health_task].
    pose proof (li_health _ Hi) as Hl. destruct (cl_health_join c); try done.
    destruct Hl as (w & e & Hl). exists w, e. by apply (new_call_kept _ (put_shared_state _ c)).
Qed.

Lemma fail_generation_fleet {A} stop (streams : list (NodeId * DcpStream)) e r live' :
  fail_generation (A:=A) stop streams e (list_to_set_disj streams.*1) = (Done r, live') → live' = ∅.
Proof.
  rewrite <-(right_id_L ∅ (⊎) (list_to_set_disj streams.*1 : Fleet)).
  by intros [[_ ->]|[? _]]%fail_generation_live.
Qed.
Lemma io_bind_err {S X Y} (m : io S X) (k : X → io S Y) s e s' :
  io_bind m k s = (Done (Err e), s') →
  m s = (Done (Err e), s') ∨ ∃ a s1, m s = (Done (Ok a), s1) ∧ k a s1 = (Done (Err e), s').
Proof. unfold io_bind. destruct (m s) as [[[a|e'|]|] s1]; [eauto| |done..]. intros [= -> ->]. by left. Qed.
Lemma prepare_err config topology spec reply e live :
  handler_total (sp_rollback_handler spec) →
  prepare_subscription b config topology spec reply ∅ = (Done (Err e), live) → live = ∅.
Proof.
  intros Hh Hrun. unfold prepare_subscription in Hrun.
  apply io_bind_err in Hrun as [[= _ <-]|(a & l1 & [= _ <-] & Hrun)]; [done|].
  apply io_bind_err in Hrun as [[= _ <-]|(loaded & l1 & [= _ <-] & Hrun)]; [done|].
  apply io_bind_err in Hrun as [[= _ <-]|(starts & l1 & [= _ <-] & Hrun)]; [done|].
  match type of Hrun with io_bind (backend_open b ?q) _ _ = _ =>
    pose proof (backend_open_ok b q ∅ Hh) as Hc end. unfold open_contract in Hc.
  apply io_bind_err in Hrun as [Hb|(g & l1 & Hb & Hrun)]; rewrite Hb in Hc; [done|].
  destruct Hc as [Hl _]. cbn in Hl. rewrite (right_id_L ∅ (⊎)) in Hl. subst l1.
  destruct (validate_opened_partitions _ _ _ _ _); [|by eapply fail_generation_fleet|done].
  destruct (coordinator_new _ _) as [[u c]|e'|]; [|by eapply fail_generation_fleet|done].
  destruct (mark_changed_initial_positions _ _ c) as [[u1|e'|] c1];
    [done|by eapply fail_generation_fleet|done].
Qed.

Lemma subscribe_prepared_inv k reply spec topology c c' :
  life_inv c → cl_calls c !! k = Some (SubscribePrepare spec topology) →
  subscribe_prepared b k reply spec topology c = Some c' → life_inv c'.
Proof.
  intros Hi Hk Hrun. destruct (owner_call _ _ _ Hi Hk eq_refl) as (Ha & Hd & Hno).
  pose proof (li_subscribe _ Hi _ _ Hk) as Hh. cbn in Hh.
  assert (sh_live (cl_shared c) = ∅) as Hl.
  { apply (idle_live c); [done..|]. intros k' call Hk'. destruct (decide (k' = k)) as [->|Hne].
    - rewrite Hk in Hk'. by injection Hk' as <-.
    - by eapply not_reserved, Hno. }
  assert (cl_released c = false) as Hrel.
  { destruct (cl_released c) eqn:Hr; [|done]. by pose proof (li_released _ Hi Hr _ _ Hk). }
  unfold subscribe_prepared in Hrun. rewrite Hl in Hrun.
  destruct (prepare_subscription _ _ _ _ _ _) as [[[p|e|]|] live] eqn:Hp; [..|done];
    injection Hrun as <-; eapply plain_step_inv; try done; try (by apply evolves_same);
    try exact (cancel_ok_inv c Hi); try (by left); try (by rewrite Hrel);
    try (cbn; by rewrite Ha).
  - split; [done|]. exists topology, reply. done.
  - intros _ _. cbn. by eapply prepare_err.
Qed.

(** *** Activating *)
Lemma subscribe_fresh c k spec p :
  life_inv c → cl_calls c !! k = Some (SubscribeLock spec p) → cl_released c = false.
Proof.
  intros Hi Hk. destruct (cl_released c) eqn:Hr; [|done].
  by pose proof (li_released _ Hi Hr _ _ Hk).
Qed.
Lemma prepared_live c k spec p :
  life_inv c → cl_calls c !! k = Some (SubscribeLock spec p) →
  sh_live (cl_shared c) = list_to_set_disj (gn_streams (pr_opened p)).*1.
Proof.
  intros Hi Hk. destruct (li_subscribe _ Hi _ _ Hk) as (Hh & topology & reply & Hp).
  by apply prepare_ok in Hp as (_ & ? & _).
Qed.

Lemma discard_begin_inv k spec p c :
  life_inv c → cl_calls c !! k = Some (SubscribeLock spec p) → cl_closed c = true →
  cl_holder c = None →
  life_inv (put_holder (Some k) (put_call k (SubscribeDiscard p) c)).
Proof.
  intros Hi Hk Hcl Hn. pose proof (holder_free _ Hi Hn) as Hfree.
  assert (∀ k' call, cl_calls (put_call k (SubscribeDiscard p) c) !! k' = Some call →
    k' = k ∧ call = SubscribeDiscard p ∨ k' ≠ k ∧ cl_calls c !! k' = Some call) as Hlk
    by apply put_call_lookup.
  apply (call_step_inv k c); try done.
  - by apply evolves_same.
  - intros k' call [[-> ->]|?]%Hlk; [right|by left]. split; [done|split].
    + exact (conj (prepared_live c k spec p Hi Hk) Hcl).
    + intros Hr. by rewrite (subscribe_fresh _ _ _ _ Hi Hk) in Hr.
  - by eapply (joining_plain k _ (SubscribeDiscard p) c c).
  - pose proof (owners_put_call k _ (SubscribeDiscard p) c Hk) as Hp.
    change (owners (put_holder _ ?x)) with (owners x). cbn in Hp |- *.
    rewrite (li_owner _ Hi) in Hp. lia.
  - by right.
  - intros Hp _. specialize (Hp k (SubscribeDiscard p)). discriminate Hp.
    apply list_lookup_insert_Some. left. split_and!; [done..|by eapply lookup_lt_Some].
  - exact (cancel_ok_inv c Hi).
  - intros k'. cbn [cl_holder put_holder]. split.
    + intros [= <-]. exists p. apply list_lookup_insert_Some. left.
      split_and!; [done..|by eapply lookup_lt_Some].
    + intros [p' Hp']. apply Hlk in Hp' as [[-> _]|[_ Hp']]; [done|]. by destruct (Hfree _ _ Hp' p').
  - eapply (health_join_plain k _ _ c c); try done. exact (li_health _ Hi).
Qed.

Lemma activate_inv_life now k spec p c :
  life_inv c → cl_calls c !! k = Some (SubscribeLock spec p) → cl_closed c = false →
  life_inv (activate now k spec p c).
Proof.
  intros Hi Hk Hcl. destruct (owner_call _ _ _ Hi Hk eq_refl) as (Ha & Hd & Hno).
  pose proof (subscribe_fresh _ _ _ _ Hi Hk) as Hrel.
  destruct (li_subscribe _ Hi _ _ Hk) as (Hh & topology & reply & Hp).
  unfold activate. set (s := activate_subscription _ _ _ _ _). set (n := length _).
  set (t := mkControl _ _ _ _). set (c1 := put_shared_state _ c). set (c' := put_call _ _ _).
  assert (∀ m u, cl_controls c' !! m = Some u →
    m = n ∧ u = t ∨ cl_controls c !! m = Some u ∧ ct_done u = true) as Hctl.
  { intros m u [[_ Hm]|[-> <-]]%lookup_snoc_Some; [right|by left]. split; [done|by eapply Hd]. }
  assert (∀ k' call, cl_calls c' !! k' = Some call →
    k' = k ∧ call = SubscribeReturned (Ok n) ∨ k' ≠ k ∧ cl_calls c !! k' = Some call) as Hlk
    by exact (put_call_lookup k (SubscribeReturned (Ok n)) c).
  assert (evolves k c c') as He.
  { split; try done; try congruence. intros m u Hm. exists u. split; [|apply control_evolves_refl].
    by apply lookup_app_l_Some. }
  assert (has_receiver c' = true) as Hrec.
  { unfold has_receiver. apply orb_true_iff. right. apply existsb_exists. exists t.
    split; [|done]. apply in_or_app. right. by left. }
  split.
  - pose proof (owners_put_call k _ (SubscribeReturned (Ok n)) c Hk) as Hw.
    unfold owners in *. cbn [cl_calls cl_controls c' put_call put_calls put_slot put_controls c1
      put_shared_state cl_shared] in *. rewrite sum_list_with_app.
    pose proof (li_owner _ Hi) as Ho. unfold owners in Ho. rewrite Ha in Ho.
    change (sh_active (sb_shared s)) with (sh_active (cl_shared c)). rewrite Ha.
    cbn in Hw, Ho |- *. lia.
  - intros m u [[-> ->]|[Hm Hdu]]%Hctl.
    + split_and!; [|done..]. intros _. split; [|done].
      change (view c' t) with s. by eapply (activate_inv now b).
    + destruct (li_control _ Hi m u Hm) as (_ & C2 & C3 & C4). split_and!; [congruence|done..|].
      destruct (ct_join u) as [|k'| |]; try done. destruct C4 as (closing & Hk'). exists closing.
      apply (put_call_kept k _ c); [|done]. intros ->. by rewrite Hk in Hk'.
  - intros k' call [[-> ->]|[Hne Hk']]%Hlk; [done|].
    pose proof (Hno _ _ Hne Hk'). by destruct call.
  - intros _ Hdone. assert (ct_done t = true) as Hdt; [|done].
    apply (Hdone n). apply lookup_snoc_Some. by right.
  - intros _ _. exact (li_fresh _ Hi Hcl Hrel).
  - intros [Hx|Hx]; cbn in Hx; congruence.
  - intros k'. cbn [cl_holder c' put_call put_calls put_slot put_controls c1 put_shared_state].
    rewrite (li_holder _ Hi k'). split; intros [p' Hp'].
    + exists p'. apply (put_call_kept k _ c); [|done]. intros ->. by rewrite Hk in Hp'.
    + apply Hlk in Hp' as [[_ [=]]|[_ ?]]. by exists p'.
  - intros m [= <-]. exists t. apply lookup_snoc_Some. by right.
  - done.
  - intros Hr. cbn in Hr. congruence.
  - apply (calls_step k c); [done..|]. intros k' call [[-> ->]|?]%Hlk; [by right|by left].
  - by apply (health_join_plain k _ (SubscribeReturned (Ok n)) c c1 (li_health _ Hi) eq_refl eq_refl
      eq_refl Hk).
Qed.

(** *** Giving up a preparation *)
Lemma drop_prepared_live p c :
  sh_live (cl_shared c) = list_to_set_disj (gn_streams (pr_opened p)).*1 →
  sh_live (cl_shared (drop_prepared p c)) = ∅.
Proof.
  intros Hl. cbn. rewrite Hl. generalize (list_to_set_disj (gn_streams (pr_opened p)).*1 : Fleet).
  intros X. multiset_solver.
Qed.
Lemma discarded_inv k p live new c :
  life_inv c → cl_calls c !! k = Some (SubscribeDiscard p) →
  live = ∅ → new = SubscribeReturned (Err Cancelled) ∨ new = CallDropped →
  life_inv (put_call k new (drop_reservation (put_holder None (on_shared (set_live live) c)))).
Proof.
  intros Hi Hk Hl Hnew. destruct (owner_call _ _ _ Hi Hk eq_refl) as (Ha & Hd & Hno).
  destruct (li_subscribe _ Hi _ _ Hk) as [_ Hcl].
  set (c1 := drop_reservation _).
  assert (plain new = true ∧ holds_reservation new = false) as [Hpl Hhn]
    by by destruct Hnew as [-> | ->].
  apply (call_step_inv k c); try done.
  - by apply evolves_same.
  - intros k' call [[-> ->]|?]%put_call_lookup; [right|by left].
    destruct Hnew as [-> | ->]; (split_and!; done).
  - intros k' n call Hk' Hj. apply (put_call_kept k _ c1); [|done]. intros ->.
    rewrite Hk in Hk'. injection Hk' as <-. by destruct Hj.
  - pose proof (owners_put_call k _ new c1 Hk) as Hp. change (owners c1) with (owners c) in Hp.
    rewrite (li_owner _ Hi), Ha, Hhn in Hp. cbn in Hp |- *. lia.
  - by left.
  - exact (cancel_ok_inv c Hi).
  - intros k'. cbn. split; [done|]. intros [p' Hp'].
    apply (put_call_lookup k new c1) in Hp' as [[_ <-]|[Hne Hp']]; [done|].
    by pose proof (Hno _ _ Hne Hp').
  - unfold health_join_ok. cbn [cl_health_join put_call put_calls c1 drop_reservation on_shared
      put_shared_state put_holder cl_shared set_active set_live sh_health_task].
    pose proof (li_health _ Hi) as Hlh. destruct (cl_health_join c); try done.
    destruct Hlh as (w & e & Hlh). exists w, e. apply (put_call_kept k _ c1); [|done].
    intros ->. by rewrite Hk in Hlh.
Qed.

Lemma subscribe_discarded_inv k p c c' :
  life_inv c → cl_calls c !! k = Some (SubscribeDiscard p) →
  subscribe_discarded b k p c = Some c' → life_inv c'.
Proof.
  intros Hi Hk Hrun. unfold subscribe_discarded in Hrun.
  destruct (li_subscribe _ Hi _ _ Hk) as [Hl _]. rewrite Hl in Hrun.
  pose proof (shutdown_vec_live (backend_stop b) (gn_streams (pr_opened p)) ∅) as Hv.
  rewrite (right_id_L ∅ (⊎)) in Hv. destruct (shutdown_stream_vec _ _ _) as [o live].
  destruct Hv as [[-> ->]|[-> _]]; [|done]. injection Hrun as <-.
  by eapply discarded_inv; [..|left].
Qed.

Lemma dropped_inv k old c c1 :
  life_inv c → cl_calls c !! k = Some old → plain old = true →
  c1 = c ∧ holds_reservation old = false
  ∨ c1 = drop_reservation c ∧ holds_reservation old = true ∧ prepared_of old = None
  ∨ (∃ spec p, old = SubscribeLock spec p ∧ c1 = drop_reservation (drop_prepared p c)) →
  life_inv (put_call k CallDropped c1).
Proof.
  intros Hi Hk Hp Hor.
  destruct Hor as [[-> Hn]|[(-> & Hh & Hn)|(spec & p & -> & ->)]].
  - eapply plain_step_inv; try done; [by apply evolves_same|exact (cancel_ok_inv c Hi)|..].
    + by rewrite Hn.
    + by right.
    + congruence.
  - destruct (owner_call _ _ _ Hi Hk Hh) as (Ha & Hd & Hno).
    eapply plain_step_inv; try done; [by apply evolves_same|exact (cancel_ok_inv c Hi)|..].
    + rewrite Hh. cbn. by rewrite Ha.
    + by left.
    + intros _ _. apply (idle_live c); [done..|]. intros k' call Hk'.
      destruct (decide (k' = k)) as [->|Hne]; [congruence|by eapply not_reserved, Hno].
  - destruct (owner_call _ _ _ Hi Hk eq_refl) as (Ha & Hd & Hno).
    eapply plain_step_inv; try done; [by apply evolves_same|exact (cancel_ok_inv c Hi)|..].
    + cbn. by rewrite Ha.
    + by left.
    + intros _ _. apply (drop_prepared_live p c). by eapply prepared_live.
Qed.

(** *** Closing *)
Lemma close_locked_inv k c c' :
  life_inv c → cl_calls c !! k = Some CloseLock → close_locked k c = Some c' → life_inv c'.
Proof.
  intros Hi Hk Hrun. unfold close_locked in Hrun. destruct (cl_holder c) eqn:Hn; [done|].
  injection Hrun as <-. set (c1 := send_cancel (put_closed c)).
  assert (cl_released c = false) as Hrel.
  { destruct (cl_released c) eqn:Hr; [|done]. by pose proof (li_released _ Hi Hr _ _ Hk). }
  assert (cl_config c1 = cl_config c ∧ cl_controls c1 = cl_controls c ∧ cl_slot c1 = cl_slot c
    ∧ cl_released c1 = cl_released c ∧ cl_calls c1 = cl_calls c ∧ cl_holder c1 = cl_holder c
    ∧ cl_health_join c1 = cl_health_join c ∧ cl_closed c1 = true
    ∧ sh_health_task (cl_shared c1) = sh_health_task (cl_shared c)
    ∧ sh_metrics (cl_shared c1) = sh_metrics (cl_shared c)
    ∧ sh_health (cl_shared c1) = sh_health (cl_shared c)
    ∧ sh_active (cl_shared c1) = sh_active (cl_shared c)
    ∧ sh_live (cl_shared c1) = sh_live (cl_shared c)
    ∧ (has_receiver c = true → sh_global_cancel (cl_shared c1) = true))
    as (E1 & E2 & E3 & E4 & E5 & E6 & E7 & E8 & E9 & E10 & E11 & E12 & E13 & E14).
  { unfold c1, send_cancel. change (has_receiver (put_closed c)) with (has_receiver c).
    destruct (has_receiver c); by split_and!. }
  assert (∀ new, call_ok (put_call k new c1) k new → plain new = true →
    holds_reservation new = false → life_inv (put_call k new c1)) as Hgo.
  { intros new Hok Hpl Hh. eapply plain_step_inv; try done.
    - by apply evolves_same.
    - split; [by cbn; rewrite E8|]. intros _ Hr. apply E14. revert Hr. unfold has_receiver.
      cbn [cl_shared cl_controls put_call put_calls]. by rewrite E9, E2.
    - by destruct new.
    - intros ?. congruence.
    - rewrite E12, Hh. done.
    - right. split_and!; [done..|by apply not_reserved]. }
  rewrite E3. destruct (cl_slot c) as [n|] eqn:Hs; apply Hgo; try done; cbn [call_ok].
  - destruct (li_slot _ Hi n Hs) as [t Ht]. split; [|intros _; split; [done|]].
    + exists t. split; [by cbn; rewrite E2|done].
    + intros m u Hm Hr. cbn in Hm. rewrite E2 in Hm. apply negb_true_iff in Hr.
      destruct (proj1 (li_control _ Hi m u Hm) Hr) as [_ Hsm]. congruence.
  - pose proof (li_no_slot _ Hi Hs) as Hnc. split; [done|split; [|by cbn; rewrite E2]].
    intros m u Hm. cbn in Hm. by rewrite E2, Hnc in Hm.
Qed.

(** *** Waiting *)
Lemma returned_no_panic c n t :
  life_inv c → cl_controls c !! n = Some t → ct_returned t = true → ct_result t ≠ Panic.
Proof.
  intros Hi Hn Hr. destruct (li_control _ Hi n t Hn) as (_ & Hp & Hd & _). specialize (Hd Hr).
  unfold ct_done, ct_result in *. destruct (sb_phase (ct_task t)); try done. congruence.
Qed.
(** What a step of a wait does to the control and answers. *)
Lemma wait_step_spec c k n w text t a t' :
  life_inv c → cl_controls c !! n = Some t → wait_ok c k n w →
  wait_step k text w t = Some (a, t') →
  (∃ j, t' = set_join j t) ∧ control_evolves k t t'
  ∧ match a with
    | inl WaitLock => False
    | inl WaitJoin => ct_join t' = JoinTaken k
    | inl WaitCompletion => t' = t ∧ join_gone (ct_join t)
    | inr r => ct_returned t = true ∧ join_gone (ct_join t') ∧ r = told (joins w) (ct_result t) ∧ r ≠ Panic
    end.
Proof.
  intros Hi Hn (t0 & Ht0 & Hw) Hrun. rewrite Hn in Ht0. injection Ht0 as <-.
  pose proof (returned_no_panic c n t Hi Hn) as Hnp.
  destruct w; cbn in Hrun.
  - destruct (ct_join t) eqn:Hj; [|done|..]; injection Hrun as <- <-.
    + split_and!; [by eexists| |done]. split; [done|done|..]; rewrite Hj; [done|by intros [?|?]].
    + split_and!; [exists JoinJoined; destruct t; cbn in *; by subst|apply control_evolves_refl|done|by left].
    + split_and!; [exists JoinDropped; destruct t; cbn in *; by subst|apply control_evolves_refl|done|by right].
  - destruct (ct_returned t) eqn:Hr; [|done]. injection Hrun as <- <-. specialize (Hnp eq_refl).
    split_and!; [by eexists| |done|by left|by destruct (ct_result t)|by destruct (ct_result t)].
    split; try done; [|by left]. intros k' Hne. rewrite Hw. intros [= ->]. done.
  - destruct (ct_returned t) eqn:Hr; [|done]. injection Hrun as <- <-. specialize (Hnp eq_refl).
    split_and!; [exists (ct_join t); by destruct t|apply control_evolves_refl|done|done| |];
      by destruct (ct_result t) as [[]|e|].
Qed.

(** A control whose handle changes: the call [k] holds its lock, or takes it. *)
Lemma join_step_inv c k n t j closing w new :
  life_inv c → cl_controls c !! n = Some t → cl_calls c !! k = Some (CallWait closing n w) →
  control_evolves k t (set_join j t) →
  (j = JoinTaken k → joining n new) → (j = JoinJoined → ct_returned t = true) →
  (∀ k', j = JoinTaken k' → k' = k) →
  call_ok (put_call k new (put_control n (set_join j t) c)) k new →
  holds_reservation new = false → (cl_released c = true → call_pending new = false) →
  life_inv (put_call k new (put_control n (set_join j t) c)).
Proof.
  intros Hi Hn Hk Hce Hjt Hjj Hjk Hok Hh Hrel. set (t' := set_join j t). set (c1 := put_control n t' c).
  assert (∀ m u, cl_controls c1 !! m = Some u →
    m = n ∧ u = t' ∨ m ≠ n ∧ cl_controls c !! m = Some u) as Hctl.
  { intros m u [(-> & <- & _)|[? ?]]%list_lookup_insert_Some; auto. }
  assert (∀ p, new ≠ SubscribeDiscard p) as Hnew by (intros p ->; done).
  assert (evolves k c (put_call k new c1)) as He.
  { by apply (evolves_control k c _ n t t'). }
  split.
  - pose proof (owners_put_call k _ new c1 Hk) as H1. pose proof (owners_put_control n t t' c Hn) as H2.
    change (running t') with (running t) in H2. rewrite Hh in H1. cbn [holds_reservation Nat.b2n] in H1.
    pose proof (li_owner _ Hi). change (cl_shared (put_call k new c1)) with (cl_shared c).
    fold c1 in H2. lia.
  - intros m u [[-> ->]|[Hne Hm]]%Hctl.
    + destruct (li_control _ Hi n t Hn) as (C1 & C2 & C3 & _). split_and!; [done..|].
      cbn [ct_join t' set_join]. destruct j as [|k'| |] eqn:Ej; try done; [|by apply Hjj].
      specialize (Hjk k' eq_refl) as ->. destruct (Hjt eq_refl) as [cl' ->]. exists cl'.
      apply list_lookup_insert_Some. left. split_and!; [done..|by eapply lookup_lt_Some].
    + destruct (li_control _ Hi m u Hm) as (C1 & C2 & C3 & C4). split_and!; [done..|].
      destruct (ct_join u) as [|k'| |]; try done. destruct C4 as (cl' & Hk'). exists cl'.
      apply (put_call_kept k _ c1); [|done]. intros ->. rewrite Hk in Hk'. congruence.
  - intros k' call [[-> ->]|[_ Hk']]%put_call_lookup; [by destruct new|].
    by apply (li_subscribe _ Hi _ _ Hk').
  - intros Hp Hd. apply (li_idle _ Hi).
    + intros k' call Hk'. destruct (decide (k' = k)) as [->|Hne].
      * rewrite Hk in Hk'. by injection Hk' as <-.
      * apply (Hp k'). by apply (put_call_kept k _ c1).
    + intros m u Hm. destruct (decide (n = m)) as [->|Hne].
      * rewrite Hn in Hm. injection Hm as <-. apply (Hd m t'). by apply (put_control_lookup m t).
      * apply (Hd m). by apply list_lookup_insert_Some; right.
  - apply (li_fresh _ Hi).
  - intros Hor Hr. apply (li_stopping _ Hi Hor). revert Hr. apply has_receiver_mono; [done|].
    intros m u [[-> ->]|[_ Hm]]%Hctl Hd; eauto.
  - intros k'. change (cl_holder (put_call k new c1)) with (cl_holder c). rewrite (li_holder _ Hi k').
    split; intros [p Hp].
    + exists p. apply (put_call_kept k _ c1); [|done]. intros ->. by rewrite Hk in Hp.
    + apply put_call_lookup in Hp as [[_ Hp]|[_ Hp]]; [by destruct (Hnew p)|by exists p].
  - intros m Hs. destruct (li_slot _ Hi m Hs) as [u Hu].
    destruct (ev_control _ _ _ He m u Hu) as (u' & ? & _). by exists u'.
  - intros Hs. pose proof (li_no_slot _ Hi Hs) as Hnil. by rewrite Hnil in Hn.
  - intros Hr k' call [[-> ->]|[_ Hk']]%put_call_lookup; [by apply Hrel|by eapply (li_released _ Hi Hr)].
  - apply (calls_step k c); [done..|]. intros k' call [[-> ->]|?]%put_call_lookup; [by right|by left].
  - cbn [cl_health_join put_call put_calls c1 put_control put_controls cl_shared].
    pose proof (li_health _ Hi) as Hlh. destruct (cl_health_join c); try done.
    destruct Hlh as (w' & e & Hlh). exists w', e. apply (put_call_kept k _ c1); [|done].
    intros ->. by rewrite Hk in Hlh.
Qed.

Lemma wait_call_pending c k closing n w :
  life_inv c → cl_calls c !! k = Some (CallWait closing n w) → cl_released c = true →
  closing = false.
Proof. intros Hi Hk Hr. pose proof (li_released _ Hi Hr _ _ Hk). by destruct closing. Qed.

Lemma call_wait_inv k text c c' : life_inv c → call_wait k text c = Some c' → life_inv c'.
Proof.
  intros Hi Hrun. unfold call_wait in Hrun. destruct (cl_calls c !! k) as [call|] eqn:Hk; [|done].
  destruct call; try done. destruct (cl_controls c !! n) as [t|] eqn:Hn; [|done]. cbn in Hrun.
  destruct (wait_step k text w t) as [[a t']|] eqn:Hw; [|done]. injection Hrun as <-.
  destruct (li_call _ Hi k _ Hk) as [Hok Hcl].
  destruct (wait_step_spec _ _ _ _ _ _ _ _ Hi Hn Hok Hw) as ([j ->] & Hce & Hstep).
  pose proof (put_control_lookup n t (set_join j t) c Hn) as Hnj.
  pose proof (wait_call_pending _ _ _ _ _ Hi Hk) as Hrel.
  assert (∀ m u, cl_controls (put_control n (set_join j t) c) !! m = Some u →
    ∃ u0, cl_controls c !! m = Some u0 ∧ ct_done u = ct_done u0) as Hrj.
  { intros m u [(-> & <- & _)|[_ ?]]%list_lookup_insert_Some; eauto. }
  assert (closing = true → ∀ m u, cl_controls (put_control n (set_join j t) c) !! m = Some u →
    running u = true → m = n) as Hrun.
  { intros Hc m u Hm Hr. destruct (Hrj m u Hm) as (u0 & Hu0 & E). destruct (Hcl Hc) as [_ Hx].
    apply (Hx m u0 Hu0). unfold running in *. by rewrite <- E. }
  assert (ct_returned t = true → ct_done t = true) as Hret by apply (li_control _ Hi n t Hn).
  destruct a as [w'|r].
  - apply (join_step_inv c k n t j closing w); try done.
    + intros ->. destruct w'; [done|by eexists|]. destruct Hstep as [Ht [Hg|Hg]]; rewrite <- Ht in Hg; done.
    + intros ->. destruct w'; [done|done|]. destruct Hstep as [Ht _].
      destruct (li_control _ Hi n t Hn) as (_ & _ & _ & C4). by rewrite <- Ht in C4.
    + intros k' ->. destruct w'; [done|by injection Hstep|].
      destruct Hstep as [Ht [Hg|Hg]]; rewrite <- Ht in Hg; done.
    + cbn [call_ok]. split.
      * exists (set_join j t). split; [done|]. destruct w'; [done|done|]. destruct Hstep as [E Hg].
        by rewrite E.
      * intros Hc. split; [by apply Hcl|by apply Hrun].
    + intros Hr. by rewrite (Hrel Hr).
  - destruct Hstep as (Hr & Hg & Ha & Hnp).
    assert (waited_ok (put_control n (set_join j t) c) n (joins w) r) as Hwt
      by by exists (set_join j t).
    apply (join_step_inv c k n t j closing w); try done.
    + intros ->. by destruct Hg.
    + intros k' ->. by destruct Hg.
    + unfold wait_answered. destruct closing; cbn [call_ok]; [|done]. split_and!.
      * by apply Hcl.
      * intros m u Hm. destruct (ct_done u) eqn:Hd; [done|]. assert (m = n) as ->
          by (apply (Hrun eq_refl m u); [done|unfold running; by rewrite Hd]).
        change (cl_controls (put_control n (set_join j t) c) !! n = Some u) in Hm.
        rewrite Hnj in Hm. injection Hm as <-. change (ct_done t = false) in Hd. by rewrite (Hret Hr) in Hd.
      * exists (set_join j t). split_and!; [done..|]. change (ct_result (set_join j t)) with (ct_result t).
        clear Hwt. subst r. destruct (ct_result t) as [[]|e|]; [done|by destruct (joins w)|done].
    + by destruct closing.
    + intros Hrl. by rewrite (Hrel Hrl).
Qed.

Lemma abandon_wait_inv k closing n w c :
  life_inv c → cl_calls c !! k = Some (CallWait closing n w) →
  life_inv (put_call k CallDropped (abandon_wait n w c)).
Proof.
  intros Hi Hk. destruct (li_call _ Hi k _ Hk) as [(t & Ht & Hw) _]. unfold abandon_wait. rewrite Ht.
  destruct w; [by eapply dropped_inv; [..|left]| |by eapply dropped_inv; [..|left]].
  apply (join_step_inv c k n t JoinDropped closing WaitJoin); try done.
  split; try done; [|by right]. intros k' Hne. rewrite Hw. congruence.
Qed.

(** *** The health task's handle *)
Lemma close_finish_inv now k waited e c :
  life_inv c → cl_calls c !! k = Some (CloseHealthLock waited e) → join_gone (cl_health_join c) →
  life_inv (close_finish now k waited e c).
Proof.
  intros Hi Hk Hg. destruct (li_call _ Hi k _ Hk) as (Hcl & Hd & Hr). unfold close_finish.
  set (c1 := on_shared _ c). set (new := CloseReturned _ _).
  assert (stopped c1) as Hst.
  { destruct Hg as [Hg|Hg]; [right|by left]. split; [|done].
    pose proof (li_health _ Hi) as Hl. by rewrite Hg in Hl. }
  eapply plain_step_inv; try done; try exact (cancel_ok_inv c Hi); [|by right].
  split; try done. intros n t Hn. exists t. split; [done|apply control_evolves_refl].
Qed.

(** The call that holds the handle's lock lets it go. *)
Lemma health_unlock_inv k waited e j new c :
  life_inv c → cl_calls c !! k = Some (CloseHealthJoin waited e) →
  j = JoinDropped ∨ j = JoinJoined ∧ (∃ panicked, sh_health_task (cl_shared c) = HpEnded panicked) →
  new = CallDropped ∨ (∃ e', new = CloseHealthLock waited e' ∧ (e' = None → e = None)) →
  life_inv (put_call k new (put_health_join j c)).
Proof.
  intros Hi Hk Hj Hnew. destruct (li_call _ Hi k _ Hk) as (Hcl & Hd & Hr & Ht).
  set (c1 := put_health_join j c). apply (call_step_inv k c); try done.
  - split; try done.
    + intros n t Hn. exists t. split; [done|apply control_evolves_refl].
    + intros k' Hne Hk'. rewrite Ht in Hk'. congruence.
    + intros _ _ [Hs|[Hs1 Hs2]]; [congruence|]. destruct Hj as [-> |[-> _]]; [by left|by right].
  - intros k' call [[-> ->]|?]%put_call_lookup; [right|by left].
    assert (cl_released c = false) as Hrel.
    { destruct (cl_released c) eqn:Hrl; [|done]. by pose proof (li_released _ Hi Hrl _ _ Hk). }
    rewrite Hrel. destruct Hnew as [-> |(e' & -> & He)]; [done|]. split; [|done].
    split; [done|split; [done|]]. destruct waited as [n|]; [|done].
    destruct Hr as (t & Hn & Hret & Hok). exists t. split_and!; [done..|]. intros Hr'. apply Hok.
    destruct e' as [e'|]; [done|by rewrite He].
  - intros k' n call Hk' [cl' ->]. apply (put_call_kept k _ c1); [|done]. intros ->. congruence.
  - pose proof (owners_put_call k _ new c1 Hk) as Hp. change (owners c1) with (owners c) in Hp.
    assert (holds_reservation new = false) as Hh by by destruct Hnew as [-> |(? & -> & _)].
    rewrite (li_owner _ Hi), Hh in Hp. cbn in Hp |- *. lia.
  - by right.
  - intros Hp _. apply (li_idle _ Hi); [|done]. intros k' call Hk'.
    destruct (decide (k' = k)) as [->|Hne]; [rewrite Hk in Hk'; by injection Hk' as <-|].
    apply (Hp k'). by apply (put_call_kept k _ c1).
  - exact (cancel_ok_inv c Hi).
  - intros k'. change (cl_holder _) with (cl_holder c). rewrite (li_holder _ Hi k'). split; intros [p Hp].
    + exists p. apply (put_call_kept k _ c1); [|done]. intros ->. by rewrite Hk in Hp.
    + apply put_call_lookup in Hp as [[_ Hp]|[_ ?]]; [|by exists p].
      destruct Hnew as [-> |(? & -> & _)]; done.
  - unfold health_join_ok. cbn [cl_health_join put_call put_calls c1 put_health_join cl_shared].
    by destruct Hj as [-> |[-> ?]].
Qed.

Lemma close_health_lock_inv now k waited e c c' :
  life_inv c → cl_calls c !! k = Some (CloseHealthLock waited e) →
  close_health_lock now k waited e c = Some c' → life_inv c'.
Proof.
  intros Hi Hk Hrun. unfold close_health_lock in Hrun.
  destruct (cl_health_join c) eqn:Hj; try done; injection Hrun as <-;
    [|apply close_finish_inv; [done..|rewrite Hj; by (left + right)]..].
  destruct (li_call _ Hi k _ Hk) as (Hcl & Hd & Hr). set (new := CloseHealthJoin waited e).
  set (c1 := put_health_join (JoinTaken k) c).
  assert (cl_released c = false) as Hrel.
  { destruct (cl_released c) eqn:Hrl; [|done]. by pose proof (li_released _ Hi Hrl _ _ Hk). }
  apply (call_step_inv k c); try done.
  - split; try done.
    + intros n t Hn. exists t. split; [done|apply control_evolves_refl].
    + intros k' Hne Hk'. congruence.
    + intros _ _ [Hs|Hs]; [congruence|by right].
  - intros k' call [[-> ->]|?]%put_call_lookup; [right|by left]. rewrite Hrel. done.
  - by apply (joining_plain k _ new c c1 eq_refl Hk).
  - pose proof (owners_put_call k _ new c1 Hk) as Hp. change (owners c1) with (owners c) in Hp.
    rewrite (li_owner _ Hi) in Hp. cbn in Hp |- *. lia.
  - by right.
  - intros Hp _. apply (li_idle _ Hi); [|done]. intros k' call Hk'.
    destruct (decide (k' = k)) as [->|Hne]; [rewrite Hk in Hk'; by injection Hk' as <-|].
    apply (Hp k'). by apply (put_call_kept k _ c1).
  - exact (cancel_ok_inv c Hi).
  - intros k'. change (cl_holder _) with (cl_holder c). rewrite (li_holder _ Hi k'). split; intros [p Hp].
    + exists p. apply (put_call_kept k _ c1); [|done]. intros ->. by rewrite Hk in Hp.
    + apply put_call_lookup in Hp as [[_ Hp]|[_ ?]]; [done|by exists p].
  - exists waited, e. apply list_lookup_insert_Some. left.
    split_and!; [done..|by eapply lookup_lt_Some].
Qed.

Lemma put_call_twice k a a' c : put_call k a (put_call k a' c) = put_call k a c.
Proof. unfold put_call, put_calls. cbn. by rewrite list_insert_insert_eq. Qed.
Lemma close_health_join_inv now k text waited e c c' :
  life_inv c → cl_calls c !! k = Some (CloseHealthJoin waited e) →
  close_health_join now k text waited e c = Some c' → life_inv c'.
Proof.
  intros Hi Hk Hrun. unfold close_health_join in Hrun.
  destruct (sh_health_task (cl_shared c)) as [| | |panicked] eqn:Ht; try done. injection Hrun as <-.
  set (e' := if panicked then _ else e).
  assert (life_inv (put_call k (CloseHealthLock waited e') (put_health_join JoinJoined c))) as Hm.
  { apply (health_unlock_inv k waited e); [done..|right; eauto|]. right. exists e'. split; [done|].
    unfold e'. by destruct panicked. }
  apply (close_finish_inv now k waited e') in Hm; [| |by left].
  - unfold close_finish in *. rewrite <- (put_call_twice k _ (CloseHealthLock waited e')). exact Hm.
  - apply list_lookup_insert_Some. left. split_and!; [done..|by eapply lookup_lt_Some].
Qed.

(** *** Steps of a subscription *)
Lemma control_step_inv c c' n t t' :
  life_inv c → cl_controls c !! n = Some t → control_evolves (length (cl_calls c)) t t' →
  cl_controls c' = <[n := t']> (cl_controls c) → cl_calls c' = cl_calls c →
  cl_config c' = cl_config c → cl_closed c' = cl_closed c → cl_slot c' = cl_slot c →
  cl_holder c' = cl_holder c → cl_released c' = cl_released c →
  cl_health_join c' = cl_health_join c →
  sh_health_task (cl_shared c') = sh_health_task (cl_shared c) →
  sh_global_cancel (cl_shared c') = sh_global_cancel (cl_shared c) →
  (ct_done t = true → same_rest (cl_shared c) (cl_shared c')) →
  (ct_done t = false → sh_active (cl_shared c') = negb (ct_done t')
                       ∧ (ct_done t' = true → sh_live (cl_shared c') = ∅)) →
  control_ok c' n t' → life_inv c'.
Proof.
  intros Hi Hn Hce Hc Hcalls Hcfg Hcl Hs Hh Hrel Hj Hht Hgc Hrest Hrun Hok.
  assert (cl_controls c' !! n = Some t') as Hn' by (rewrite Hc; by apply (put_control_lookup n t)).
  assert (∀ m u, cl_controls c' !! m = Some u →
    m = n ∧ u = t' ∨ m ≠ n ∧ cl_controls c !! m = Some u) as Hctl.
  { intros m u. rewrite Hc. intros [(-> & <- & _)|[? ?]]%list_lookup_insert_Some; auto. }
  assert (ct_done t = true → ct_done t' = true) as Hdd by apply (control_evolves_result _ _ _ Hce).
  assert (evolves (length (cl_calls c)) c c') as He by by eapply evolves_control.
  split.
  - pose proof (owners_put_control n t t' c Hn) as Ho. rewrite (li_owner _ Hi) in Ho.
    assert (owners c' = owners (put_control n t' c)) as -> by (unfold owners; by rewrite Hc, Hcalls).
    unfold running in Ho. destruct (ct_done t) eqn:Hd.
    + destruct (Hrest eq_refl) as [-> _]. rewrite (Hdd eq_refl) in Ho. cbn [negb Nat.b2n] in Ho. lia.
    + destruct (owner_task _ _ _ Hi Hn Hd) as [Ha _]. destruct (Hrun eq_refl) as [-> _].
      rewrite Ha in Ho. cbn [negb Nat.b2n] in Ho. lia.
  - intros m u [[-> ->]|[Hne Hm]]%Hctl; [done|].
    destruct (li_control _ Hi m u Hm) as (C1 & C2 & C3 & C4). rewrite <- Hcalls in C4.
    split_and!; [|done..]. intros Hdu. destruct (C1 Hdu) as [Hci Hsl].
    destruct (ct_done t) eqn:Hd.
    + destruct (Hrest eq_refl) as (Ha & Hl & _). split; [by eapply view_shared|congruence].
    + destruct (owner_task _ _ _ Hi Hn Hd) as (_ & _ & Hx). by rewrite (Hx m u Hne Hm) in Hdu.
  - apply (subscribes_step c); [done..|by rewrite Hcl|]. intros k call Hk. right.
    rewrite Hcalls in Hk. split; [done|]. destruct (ct_done t) eqn:Hd.
    + right. by destruct (Hrest eq_refl) as (_ & ? & _).
    + left. destruct (owner_task _ _ _ Hi Hn Hd) as (_ & Hx & _). by eapply Hx.
  - intros Hp Hall. destruct (ct_done t) eqn:Hd.
    + destruct (Hrest eq_refl) as (_ & -> & _). apply (li_idle _ Hi); [by rewrite <- Hcalls|].
      intros m u Hm. destruct (decide (m = n)) as [->|Hne]; [congruence|].
      apply (Hall m). rewrite Hc. by apply list_lookup_insert_Some; right.
    + apply Hrun; [done|]. by apply (Hall n).
  - rewrite Hcl, Hrel, Hgc. apply (li_fresh _ Hi).
  - rewrite Hcl, Hrel, Hgc. intros Hor Hr. apply (li_stopping _ Hi Hor). revert Hr.
    apply has_receiver_mono; [by rewrite Hht|]. intros m u [[-> ->]|[_ Hm]]%Hctl Hd; [|eauto].
    exists t. split; [done|]. destruct (ct_done t); [by rewrite Hdd in Hd|done].
  - rewrite Hcalls, Hh. apply (li_holder _ Hi).
  - rewrite Hs. intros m Hm. destruct (li_slot _ Hi m Hm) as [u Hu].
    destruct (ev_control _ _ _ He m u Hu) as (u' & ? & _). by exists u'.
  - rewrite Hs. intros Hx. by rewrite (li_no_slot _ Hi Hx) in Hn.
  - rewrite Hcalls, Hrel. apply (li_released _ Hi).
  - apply (calls_step (length (cl_calls c)) c); [done..|]. intros k call Hk. left.
    rewrite Hcalls in Hk. split; [|done]. apply lookup_lt_Some in Hk. lia.
  - rewrite Hj, Hht, Hcalls. apply (li_health _ Hi).
Qed.

Lemma return_inv n t c :
  life_inv c → cl_controls c !! n = Some t → ct_done t = true →
  life_inv (put_control n (set_returned t) c).
Proof.
  intros Hi Hn Hd. destruct (li_control _ Hi n t Hn) as (C1 & C2 & C3 & C4).
  apply (control_step_inv c _ n t (set_returned t)); try done; [congruence|].
  split_and!; [done..|]. change (ct_join (set_returned t)) with (ct_join t).
  by destruct (ct_join t).
Qed.

Lemma task_life_inv now n i c c' :
  life_inv c → action_ok (ActTask n i) c → task_step cccp_from_slice b now n i c = Some c' →
  life_inv c'.
Proof.
  intros Hi Hok Hrun. unfold task_step in Hrun.
  destruct (cl_controls c !! n) as [t|] eqn:Hn; [|done]. cbn in Hrun.
  destruct (own_input i && _) eqn:Hown; [|done]. apply andb_true_iff in Hown as [Hown _].
  destruct (client_step _ now i (view c t)) as [[y s]|] eqn:Hstep; [|done]. injection Hrun as <-.
  specialize (Hok t Hn). destruct (li_control _ Hi n t Hn) as (C1 & C2 & C3 & C4).
  set (h := record_step _ _ _ _ _). set (t' := mkControl _ _ _ _). set (c' := put_control _ _ _).
  destruct (own_step_client _ _ _ _ _ Hown Hstep) as [Hgc Hht].
  assert (ct_done t = true → sb_phase s = sb_phase (ct_task t)
    ∧ same_rest (cl_shared c) (sb_shared s)) as Hdone.
  { intros Hd. exact (done_step now i (view c t) y s Hown Hd Hstep). }
  assert (ct_done t = false → client_inv s h) as Hinv.
  { intros Hd. eapply client_step_inv; [by apply C1|done..]. }
  assert (sb_phase s ≠ PhDone Panic) as Hnp.
  { destruct (ct_done t) eqn:Hd; [by destruct (Hdone eq_refl) as [-> _]|].
    exact (ci_no_panic _ _ (Hinv eq_refl)). }
  apply (control_step_inv c c' n t t'); try done.
  - split; try done. intros Hd. by apply Hdone.
  - intros Hd. by apply Hdone.
  - intros Hd. specialize (Hinv Hd). split; [exact (ci_active _ _ Hinv)|]. intros Hd'.
    pose proof (ci_fleet _ _ Hinv) as Hf. unfold fleet_ok in Hf.
    change (is_done (sb_phase s) = true) in Hd'. destruct (sb_phase s); try done. apply Hf.
  - split_and!; [|done| |done].
    + intros Hd'. destruct (ct_done t) eqn:Hd.
      { change (is_done (sb_phase s) = false) in Hd'. destruct (Hdone eq_refl) as [E _].
        rewrite E in Hd'. unfold ct_done in Hd. congruence. }
      split; [|by apply C1]. assert (view c' t' = s) as -> by by destruct s. by apply Hinv.
    + intros Hr. change (is_done (sb_phase s) = true).
      destruct (Hdone (C3 Hr)) as [-> _]. by apply C3.
Qed.

(** *** The health task and the last handle *)
Lemma health_step_inv now probe c h :
  life_inv c →
  health_wake now (cl_shared c) = Some h ∨ health_round (cl_config c) probe (cl_shared c) = Some h
  ∨ health_publish (cl_shared c) = Some h →
  life_inv (put_shared_state h c).
Proof.
  intros Hi Hstep.
  assert ((∀ p, sh_health_task (cl_shared c) ≠ HpEnded p)
    ∧ sh_active h = sh_active (cl_shared c) ∧ sh_live h = sh_live (cl_shared c)
    ∧ sh_global_cancel h = sh_global_cancel (cl_shared c)
    ∧ sh_metrics h ActiveConnections = sh_metrics (cl_shared c) ActiveConnections
    ∧ sh_metrics h AssignedVbuckets = sh_metrics (cl_shared c) AssignedVbuckets)
    as (Hne & Ha & Hl & Hgc & Hm1 & Hm2).
  { destruct Hstep as [Hs|[Hs|Hs]].
    - unfold health_wake in Hs. destruct (sh_health_task _); try done. injection Hs as <-.
      destruct (sh_global_cancel (cl_shared c)) eqn:E; by split_and!.
    - unfold health_round in Hs. destruct (sh_health_task _); try done. injection Hs as <-.
      destruct probe as [[candidate|e|]|]; try done.
      unfold apply_topology_candidate. by destruct (topology_apply _ _) as [[[ch|]|e|] t].
    - unfold health_publish in Hs. destruct (sh_health_task _); try done. by injection Hs as <-. }
  assert (has_receiver c = true) as Hrec by (apply has_receiver_spec; by left).
  apply (call_step_inv (length (cl_calls c)) c); try done.
  - split; try done.
    + intros n t Hn. exists t. split; [done|apply control_evolves_refl].
    + intros _ _ [G1 G2]. split; cbn; congruence.
    + intros _ _ [Hs|[[p Hp] _]]; [by left|]. by destruct (Hne p).
  - intros k call Hk. left. split; [|done]. apply lookup_lt_Some in Hk. cbn in Hk. lia.
  - etrans; [apply (li_owner _ Hi)|]. cbn. by rewrite Ha.
  - by right.
  - cbn. rewrite Hl. apply (li_idle _ Hi).
  - split; cbn; rewrite Hgc; [apply (li_fresh _ Hi)|]. intros Hor _. by apply (li_stopping _ Hi Hor).
  - exact (li_holder _ Hi).
  - unfold health_join_ok. cbn [cl_health_join put_shared_state cl_shared cl_calls].
    pose proof (li_health _ Hi) as Hlh. destruct (cl_health_join c); try done.
    destruct Hlh as [p Hp]. by destruct (Hne p).
Qed.

Lemma client_drop_inv now c c' : life_inv c → client_drop now c = Some c' → life_inv c'.
Proof.
  intros Hi Hrun. unfold client_drop in Hrun. destruct (_ || _) eqn:Hg; [done|].
  apply orb_false_iff in Hg as [Hrel Hp]. injection Hrun as <-.
  set (c1 := put_released _).
  assert (∀ k call, cl_calls c !! k = Some call → call_pending call = false) as Hnp.
  { intros k call Hk. destruct (call_pending call) eqn:Hc; [|done]. rewrite <- Hp. symmetry.
    apply existsb_exists. exists call. split; [|done].
    by apply list_elem_of_In, list_elem_of_lookup_2 with k. }
  assert (sh_active (cl_shared c1) = sh_active (cl_shared c)
    ∧ sh_live (cl_shared c1) = sh_live (cl_shared c)
    ∧ sh_health_task (cl_shared c1) = sh_health_task (cl_shared c)
    ∧ sh_metrics (cl_shared c1) = sh_metrics (cl_shared c)
    ∧ cl_controls c1 = cl_controls c ∧ cl_calls c1 = cl_calls c ∧ cl_config c1 = cl_config c
    ∧ cl_closed c1 = cl_closed c ∧ cl_slot c1 = cl_slot c ∧ cl_holder c1 = cl_holder c
    ∧ cl_health_join c1 = cl_health_join c ∧ hl_status (sh_health (cl_shared c1)) = Stopped
    ∧ (has_receiver c = true → sh_global_cancel (cl_shared c1) = true))
    as (E1 & E2 & E3 & E4 & E5 & E6 & E7 & E8 & E9 & E10 & E11 & E12 & E13).
  { unfold c1, send_cancel. destruct (has_receiver c); by split_and!. }
  split; rewrite ?E5, ?E6, ?E9, ?E10.
  - rewrite E1, <- (li_owner _ Hi). unfold owners. by rewrite E5, E6.
  - rewrite <- E5. apply (controls_kept c); try done; [by rewrite E6|by right].
  - rewrite <- E6. apply (subscribes_step c); [done..|by rewrite E8|]. rewrite E6. intros. by right; auto.
  - intros Hpr Hd. rewrite E2. apply (li_idle _ Hi); [done|]. intros n t Hn. apply (Hd n). by rewrite E5.
  - done.
  - intros _ Hr. apply E13. revert Hr. apply has_receiver_mono; [by rewrite E3|]. rewrite E5. eauto.
  - exact (li_holder _ Hi).
  - apply (li_slot _ Hi).
  - apply (li_no_slot _ Hi).
  - intros _. exact Hnp.
  - rewrite <- E6. apply (calls_step (length (cl_calls c)) c); [done| |].
    + split; rewrite ?E5, ?E8, ?E11; try done.
      * intros n t Hn. exists t. split; [done|apply control_evolves_refl].
      * intros _ _. unfold gauges_zero. by rewrite E4.
      * intros _ _ [Hs|[Hs _]]; [left; congruence|right; by rewrite E3].
    + rewrite E6. intros k call Hk. left. split; [|done]. apply lookup_lt_Some in Hk. lia.
  - rewrite E11, E3. apply (li_health _ Hi).
Qed.

(** *** Every step *)
Lemma drop_call_inv k c c' : life_inv c → drop_call k c = Some c' → life_inv c'.
Proof.
  intros Hi Hrun. apply fmap_Some in Hrun as (c1 & Hc & ->).
  destruct (cl_calls c !! k) as [call|] eqn:Hk; [|done].
  destruct call; try done; injection Hc as <-.
  - eapply dropped_inv; [done..|]. by right; left.
  - eapply dropped_inv; [done..|]. right; right. by eexists _, _.
  - eapply (discarded_inv k p _ CallDropped c); [done..| |by right].
    by apply (drop_prepared_live p c), (li_subscribe _ Hi _ _ Hk).
  - by eapply abandon_wait_inv.
  - eapply dropped_inv; [done..|]. by left.
  - eapply dropped_inv; [done..|]. by left.
  - eapply health_unlock_inv; [done..|by left|by left].
Qed.

Lemma life_step_inv now a c c' :
  life_inv c → action_ok a c → life_step cccp_from_slice b now a c = Some c' → life_inv c'.
Proof.
  intros Hi Hok Hrun. destruct a; cbn [life_step] in Hrun.
  - destruct (cl_released c) eqn:Hr; [done|]. injection Hrun as <-. by apply subscribe_begin_inv.
  - destruct (cl_calls c !! k) as [[]|] eqn:Hk; try done. by eapply subscribe_prepared_inv.
  - destruct (cl_calls c !! k) as [[]|] eqn:Hk; try done. unfold subscribe_locked in Hrun.
    destruct (cl_holder c) eqn:Hh; [done|]. injection Hrun as <-.
    destruct (cl_closed c) eqn:Hcl; [by eapply discard_begin_inv|by apply activate_inv_life].
  - destruct (cl_calls c !! k) as [[]|] eqn:Hk; try done. by eapply subscribe_discarded_inv.
  - destruct (cl_released c) eqn:Hr; [done|]. injection Hrun as <-. apply new_call_inv; try done. congruence.
  - destruct (cl_calls c !! k) as [[]|] eqn:Hk; try done. by eapply close_locked_inv.
  - by eapply call_wait_inv.
  - destruct (cl_calls c !! k) as [[]|] eqn:Hk; try done. by eapply close_health_lock_inv.
  - destruct (cl_calls c !! k) as [[]|] eqn:Hk; try done. by eapply close_health_join_inv.
  - apply fmap_Some in Hrun as (c1 & Hs & ->).
    assert (life_inv c1) as H1 by by eapply (task_life_inv now n (InClose false)).
    apply new_call_inv; [done..| |done]. split; [|done]. unfold task_step in Hs.
    destruct (cl_controls c !! n) as [t|] eqn:Hn; [|done]. cbn in Hs. injection Hs as <-.
    eexists. split; [by apply (put_control_lookup n t)|done].
  - by eapply drop_call_inv.
  - by eapply client_drop_inv.
  - by eapply task_life_inv.
  - destruct (cl_controls c !! n) as [t|] eqn:Hn; [|done]. cbn in Hrun.
    destruct (ct_done t) eqn:Hd; [|done]. destruct (ct_returned t); [done|]. injection Hrun as <-.
    by apply return_inv.
  - apply fmap_Some in Hrun as (h & Hh & ->). eapply (health_step_inv now None); auto.
  - apply fmap_Some in Hrun as (h & Hh & ->). eapply (health_step_inv now probe); auto.
  - apply fmap_Some in Hrun as (h & Hh & ->). eapply (health_step_inv now None); auto.
Qed.

Lemma connect_inv now config discovered c :
  connect_with_backend now config discovered = Ok c → life_inv c.
Proof.
  unfold connect_with_backend. destruct (config_validate config); [|done..].
  destruct discovered as [topology|e|]; [|done..]. cbn. intros [= <-].
  split; cbn [cl_controls cl_calls cl_slot cl_holder cl_closed cl_released]; try done.
  - by intros [].
  - intros k. split; [done|]. by intros [? ?].
  - cbn. destruct (hc_enabled (dc_health_check config)); [done|by eexists].
Qed.
Lemma life_reachable_inv c : life_reachable c → life_inv c.
Proof. induction 1; [by eapply connect_inv|by eapply life_step_inv]. Qed.

(** ** Runs *)
Inductive life_steps : ClientInner → ClientInner → Prop :=
| ls_refl c : life_steps c c
| ls_step now a c c1 c' :
    action_ok a c → life_step cccp_from_slice b now a c = Some c1 → life_steps c1 c' →
    life_steps c c'.
Lemma life_steps_reachable c c' : life_reachable c → life_steps c c' → life_reachable c'.
Proof. intros Hr Hs. induction Hs; [done|]. apply IHHs. by eapply lr_step. Qed.

(** A call that has returned or was dropped. *)
Definition finished (call : Call) : bool :=
  match call with
  | SubscribeReturned _ | SubscriptionClosed _ _ _ | CloseReturned _ _ | CallDropped => true
  | _ => false
  end.
Definition subscribed (call : Call) : bool :=
  match call with SubscribeReturned (Ok _) => true | _ => false end.

(** What a step does to the calls: it leaves them, makes a new one, or moves one that has
    not finished; a subscribe call succeeds only on a client that is open. *)
Definition calls_move (c c' : ClientInner) : Prop :=
  cl_calls c' = cl_calls c
  ∨ (∃ new, cl_calls c' = cl_calls c ++ [new] ∧ subscribed new = false)
  ∨ ∃ k old new, cl_calls c !! k = Some old ∧ finished old = false
      ∧ cl_calls c' = <[k := new]> (cl_calls c) ∧ (cl_closed c = true → subscribed new = false).

Lemma task_step_calls now n i c c' :
  task_step cccp_from_slice b now n i c = Some c' →
  cl_calls c' = cl_calls c ∧ cl_closed c' = cl_closed c
  ∧ length (cl_controls c') = length (cl_controls c).
Proof.
  unfold task_step. destruct (cl_controls c !! n); [|done]. cbn. destruct (own_input i && _); [|done].
  destruct (client_step _ _ _ _) as [[y s]|]; [|done]. intros [= <-].
  split_and!; [done..|apply length_insert].
Qed.
Lemma send_cancel_calls c :
  cl_calls (send_cancel c) = cl_calls c ∧ cl_closed (send_cancel c) = cl_closed c
  ∧ cl_controls (send_cancel c) = cl_controls c ∧ cl_slot (send_cancel c) = cl_slot c.
Proof. unfold send_cancel. by destruct (has_receiver c). Qed.

Lemma life_step_calls now a c c' :
  life_step cccp_from_slice b now a c = Some c' →
  calls_move c c'
  ∧ (cl_closed c = true → cl_closed c' = true
     ∧ length (cl_controls c') = length (cl_controls c)).
Proof.
  intros Hrun.
  assert (∀ k old new, cl_calls c !! k = Some old → cl_calls c' = <[k := new]> (cl_calls c) →
    finished old = false → subscribed new = false → calls_move c c') as Hmv.
  { intros k old new ????. right; right. by exists k, old, new. }
  destruct a; cbn [life_step] in Hrun.
  - destruct (cl_released c); [done|]. injection Hrun as <-. unfold subscribe_begin.
    destruct (do? _ in _); (split; [right; left; by eexists|done]).
  - destruct (cl_calls c !! k) as [[]|] eqn:Hk; try done. unfold subscribe_prepared in Hrun.
    destruct (prepare_subscription _ _ _ _ _ _) as [[[p|e|]|] live]; try done; injection Hrun as <-;
      (split; [eapply Hmv; [done|reflexivity|done|done]|done]).
  - destruct (cl_calls c !! k) as [[]|] eqn:Hk; try done. unfold subscribe_locked in Hrun.
    destruct (cl_holder c); [done|]. injection Hrun as <-. destruct (cl_closed c) eqn:Hcl.
    + split; [eapply Hmv; [done|reflexivity|done|done]|done].
    + split; [|done]. right; right. eexists k, _, _. split_and!; [done..|congruence].
  - destruct (cl_calls c !! k) as [[]|] eqn:Hk; try done. unfold subscribe_discarded in Hrun.
    destruct (shutdown_stream_vec _ _ _) as [[r|] live]; [|done]. injection Hrun as <-.
    split; [eapply Hmv; [done|reflexivity|done|done]|done].
  - destruct (cl_released c); [done|]. injection Hrun as <-. split; [right; left; by eexists|done].
  - destruct (cl_calls c !! k) as [[]|] eqn:Hk; try done. unfold close_locked in Hrun.
    destruct (cl_holder c); [done|]. injection Hrun as <-.
    destruct (send_cancel_calls (put_closed c)) as (E1 & E2 & E3 & E4). split.
    + eapply Hmv; [done|cbn; by rewrite E1|done|]. by destruct (cl_slot _).
    + intros _. cbn. by rewrite E2, E3.
  - unfold call_wait in Hrun. destruct (cl_calls c !! k) as [[]|] eqn:Hk; try done.
    destruct (cl_controls c !! n); [|done]. cbn in Hrun. destruct (wait_step _ _ _ _) as [[a t']|]; [|done].
    injection Hrun as <-. split; [|intros Hcl; split; [done|apply length_insert]].
    eapply Hmv; [done|reflexivity|done|]. destruct a as [w'|r]; [done|by destruct closing].
  - destruct (cl_calls c !! k) as [[]|] eqn:Hk; try done. unfold close_health_lock in Hrun.
    destruct (cl_health_join c); try done; injection Hrun as <-; (split; [eapply Hmv; [done|reflexivity|done|done]|done]).
  - destruct (cl_calls c !! k) as [[]|] eqn:Hk; try done. unfold close_health_join in Hrun.
    destruct (sh_health_task _); try done; injection Hrun as <-; (split; [eapply Hmv; [done|reflexivity|done|done]|done]).
  - apply fmap_Some in Hrun as (c1 & Hs & ->). apply task_step_calls in Hs as (E1 & E2 & E3). split.
    + right; left. eexists. cbn. by rewrite E1.
    + intros Hcl. cbn. by rewrite E2, E3.
  - apply fmap_Some in Hrun as (c1 & Hs & ->). destruct (cl_calls c !! k) as [call|] eqn:Hk; [|done].
    assert (finished call = false ∧ cl_calls c1 = cl_calls c ∧ cl_closed c1 = cl_closed c
      ∧ length (cl_controls c1) = length (cl_controls c)) as (E1 & E2 & E3 & E4).
    { destruct call; try done; injection Hs as <-; try done. unfold abandon_wait.
      destruct w; try done. destruct (cl_controls c !! n); [|done].
      split_and!; [done..|apply length_insert]. }
    split; [eapply Hmv; [done|by cbn; rewrite E2|done|done]|]. intros Hcl. cbn. by rewrite E3, E4.
  - unfold client_drop in Hrun. destruct (_ || _); [done|]. injection Hrun as <-.
    destruct (send_cancel_calls c) as (E1 & E2 & E3 & _). split; [by left|].
    intros Hcl. cbn. by rewrite E2, E3.
  - apply task_step_calls in Hrun as (E1 & E2 & E3). split; [by left|]. by rewrite E2, E3.
  - destruct (cl_controls c !! n); [|done]. cbn in Hrun. destruct (_ && _); [|done]. injection Hrun as <-.
    split; [by left|]. intros Hcl. split; [done|apply length_insert].
  - apply fmap_Some in Hrun as (h & _ & ->). split; [by left|done].
  - apply fmap_Some in Hrun as (h & _ & ->). split; [by left|done].
  - apply fmap_Some in Hrun as (h & _ & ->). split; [by left|done].
Qed.

Lemma calls_move_finished c c' k call :
  calls_move c c' → cl_calls c !! k = Some call → finished call = true →
  cl_calls c' !! k = Some call.
Proof.
  intros [-> |[(new & -> & _)|(k0 & old & new & Hk0 & Ho & -> & _)]] Hk Hf; [done|by apply lookup_app_l_Some|].
  apply list_lookup_insert_Some. right. split; [|done]. intros ->. congruence.
Qed.
Lemma calls_move_subscribed c c' k call :
  calls_move c c' → cl_closed c = true → cl_calls c' !! k = Some call → subscribed call = true →
  cl_calls c !! k = Some call.
Proof.
  intros [-> |[(new & -> & Hn)|(k0 & old & new & Hk0 & Ho & -> & Hn)]] Hcl Hk Hs; [done|..].
  - apply lookup_snoc_Some in Hk as [[_ ?]|[_ ->]]; [done|congruence].
  - apply list_lookup_insert_Some in Hk as [(_ & -> & _)|[_ ?]]; [|done]. by rewrite Hn in Hs.
Qed.

(** ** Coming to rest *)

(** The actions a closed client still executes by itself. *)
Definition internal (a : Action) : bool :=
  match a with
  | ActSubscribe _ | ActClose | ActSubscriptionClose _ | ActDrop _ | ActClientDrop => false
  | ActTask _ i => is_task i
  | _ => true
  end.
(** How many of them are left, at most. *)
Definition call_left (call : Call) : nat :=
  match call with
  | CloseLock => 5
  | CallWait _ _ WaitLock => 4
  | CallWait _ _ _ | SubscribePrepare _ _ => 3
  | CloseHealthLock _ _ | SubscribeLock _ _ => 2
  | CloseHealthJoin _ _ | SubscribeDiscard _ => 1
  | _ => 0
  end.
Definition task_left (t : Control) : nat :=
  steps_left (sb_phase (ct_task t)) + (if ct_returned t then 0 else 1).
Definition health_left (h : HealthPhase) : nat :=
  match h with HpEnded _ => 0 | HpSleep => 1 | HpPublish _ _ => 2 | HpProbe _ => 3 end.
Definition settle (c : ClientInner) : nat :=
  sum_list_with call_left (cl_calls c) + sum_list_with task_left (cl_controls c)
  + health_left (sh_health_task (cl_shared c)).

Lemma settle_call c c' k old new :
  cl_calls c !! k = Some old → cl_calls c' = <[k := new]> (cl_calls c) →
  cl_controls c' = cl_controls c →
  sh_health_task (cl_shared c') = sh_health_task (cl_shared c) →
  (call_left new < call_left old)%nat → (settle c' < settle c)%nat.
Proof.
  intros Hk Hc Ht Hh Hl. unfold settle. rewrite Hc, Ht, Hh.
  pose proof (sum_list_with_insert call_left _ _ _ new Hk). lia.
Qed.
Lemma settle_control c c' n t t' :
  cl_controls c !! n = Some t → cl_controls c' = <[n := t']> (cl_controls c) →
  cl_calls c' = cl_calls c → sh_health_task (cl_shared c') = sh_health_task (cl_shared c) →
  (task_left t' < task_left t)%nat → (settle c' < settle c)%nat.
Proof.
  intros Hn Ht Hc Hh Hl. unfold settle. rewrite Hc, Ht, Hh.
  pose proof (sum_list_with_insert task_left _ _ _ t' Hn). lia.
Qed.

Lemma settle_wait k text c c' :
  life_inv c → call_wait k text c = Some c' → (settle c' < settle c)%nat.
Proof.
  intros Hi Hrun. unfold call_wait in Hrun. destruct (cl_calls c !! k) as [[]|] eqn:Hk; try done.
  destruct (cl_controls c !! n) as [t|] eqn:Hn; [|done]. cbn in Hrun.
  destruct (wait_step k text w t) as [[a t']|] eqn:Hw; [|done]. injection Hrun as <-.
  destruct (li_call _ Hi k _ Hk) as [Hok _].
  destruct (wait_step_spec _ _ _ _ _ _ _ _ Hi Hn Hok Hw) as ([j ->] & _ & _).
  unfold settle. cbn [cl_calls cl_controls cl_shared put_call put_calls put_control put_controls].
  pose proof (sum_list_with_insert task_left _ _ _ (set_join j t) Hn) as H1.
  change (task_left (set_join j t)) with (task_left t) in H1.
  match goal with |- context [<[k := ?new]> _] =>
    pose proof (sum_list_with_insert call_left _ _ _ new Hk) as H2;
    assert (call_left new < call_left (CallWait closing n w))%nat as H3 end; [|lia].
  destruct a as [w'|r].
  - destruct w; cbn in Hw; repeat (case_match; simplify_eq/=); lia.
  - destruct closing, w; cbn; lia.
Qed.

Lemma settle_step now a c c' :
  life_inv c → cl_closed c = true → internal a = true →
  life_step cccp_from_slice b now a c = Some c' → (settle c' < settle c)%nat.
Proof.
  intros Hi Hcl Ha Hrun. destruct a; try done; cbn [life_step] in Hrun.
  - destruct (cl_calls c !! k) as [[]|] eqn:Hk; try done. unfold subscribe_prepared in Hrun.
    destruct (prepare_subscription _ _ _ _ _ _) as [[[p|e|]|] live]; try done; injection Hrun as <-;
      (eapply settle_call; [exact Hk|reflexivity|done|done|cbn; lia]).
  - destruct (cl_calls c !! k) as [[]|] eqn:Hk; try done. unfold subscribe_locked in Hrun.
    destruct (cl_holder c); [done|]. rewrite Hcl in Hrun. injection Hrun as <-.
    eapply settle_call; [exact Hk|reflexivity|done|done|cbn; lia].
  - destruct (cl_calls c !! k) as [[]|] eqn:Hk; try done. unfold subscribe_discarded in Hrun.
    destruct (shutdown_stream_vec _ _ _) as [[r|] live]; [|done]. injection Hrun as <-.
    eapply settle_call; [exact Hk|reflexivity|done|done|cbn; lia].
  - destruct (cl_calls c !! k) as [[]|] eqn:Hk; try done. unfold close_locked in Hrun.
    destruct (cl_holder c); [done|]. injection Hrun as <-.
    destruct (send_cancel_calls (put_closed c)) as (E1 & E2 & E3 & E4).
    eapply settle_call; [exact Hk|cbn; by rewrite E1|cbn; by rewrite E3| |].
    + cbn. unfold send_cancel. by destruct (has_receiver _).
    + destruct (cl_slot _); cbn; lia.
  - by eapply settle_wait.
  - destruct (cl_calls c !! k) as [[]|] eqn:Hk; try done. unfold close_health_lock in Hrun.
    destruct (cl_health_join c); try done; injection Hrun as <-;
      (eapply settle_call; [exact Hk|reflexivity|done|done|cbn; lia]).
  - destruct (cl_calls c !! k) as [[]|] eqn:Hk; try done. unfold close_health_join in Hrun.
    destruct (sh_health_task (cl_shared c)); try done; injection Hrun as <-;
      (eapply settle_call; [exact Hk|reflexivity|done|done|cbn; lia]).
  - unfold task_step in Hrun. destruct (cl_controls c !! n) as [t|] eqn:Hn; [|done]. cbn in Hrun, Ha.
    destruct (own_input i && _) eqn:Hown; [|done]. apply andb_true_iff in Hown as [Hown _].
    destruct (client_step _ now i (view c t)) as [[y s]|] eqn:Hs; [|done]. injection Hrun as <-.
    destruct (own_step_client _ _ _ _ _ Hown Hs) as [_ Hht].
    eapply settle_control; [exact Hn|reflexivity|done|exact Hht|].
    assert (ct_done t = false) as Hd.
    { destruct (ct_done t) eqn:Hd; [|done]. exfalso. unfold client_step in Hs.
      unfold ct_done in Hd. change (sb_phase (view c t)) with (sb_phase (ct_task t)) in Hs.
      destruct i; try done; destruct (sb_phase (ct_task t)); done. }
    assert (cancelled (view c t) = true) as Hcan.
    { apply orb_true_iff. left. apply (li_stopping _ Hi); [by left|].
      apply has_receiver_spec. right. eauto. }
    destruct (task_stop _ _ _ _ _ _ Hcan Ha Hs) as [Hlt _].
    change (sb_phase (view c t)) with (sb_phase (ct_task t)) in Hlt. unfold task_left. cbn. lia.
  - destruct (cl_controls c !! n) as [t|] eqn:Hn; [|done]. cbn in Hrun.
    destruct (ct_done t); [|done]. destruct (ct_returned t) eqn:Hr; [done|]. injection Hrun as <-.
    eapply settle_control; [exact Hn|reflexivity|done|done|]. unfold task_left. cbn. rewrite Hr. lia.
  - apply fmap_Some in Hrun as (h & Hh & ->). unfold health_wake in Hh. unfold settle. cbn.
    destruct (sh_health_task (cl_shared c)) eqn:Ht; try done.
    rewrite (li_stopping _ Hi) in Hh; [|by left|apply has_receiver_spec; left; by rewrite Ht].
    injection Hh as <-. cbn. lia.
  - apply fmap_Some in Hrun as (h & Hh & ->). unfold health_round in Hh. unfold settle. cbn.
    destruct (sh_health_task (cl_shared c)) eqn:Ht; try done. injection Hh as <-.
    destruct probe as [[candidate|e|]|]; try (cbn; lia). unfold apply_topology_candidate.
    destruct (topology_apply _ _) as [[[ch|]|e|] t]; cbn; lia.
  - apply fmap_Some in Hrun as (h & Hh & ->). unfold health_publish in Hh. unfold settle. cbn.
    destruct (sh_health_task (cl_shared c)) eqn:Ht; try done. injection Hh as <-. cbn. lia.
Qed.

(** *** Something can always be done *)
Definition enabled (c : ClientInner) : Prop :=
  ∃ now a, internal a = true ∧ action_ok a c ∧ is_Some (life_step cccp_from_slice b now a c).

(** Something waits for the shutdown of a stream that never answers: a subscribe call that
    gives its streams up, after [close] or on an error, or a supervising task. *)
Definition held_up (c : ClientInner) : Prop := ∃ node, backend_stop b node = StopNever ∧
  ((∃ k p, cl_calls c !! k = Some (SubscribeDiscard p) ∧ node ∈ (gn_streams (pr_opened p)).*1)
   ∨ (∃ k spec topology, cl_calls c !! k = Some (SubscribePrepare spec topology))
   ∨ (∃ n t a, cl_controls c !! n = Some t ∧ sb_phase (ct_task t) = PhShutdown a
      ∧ node ∈ (sb_streams (ct_task t)).*1)).

Lemma fail_generation_total {A} stop streams e live :
  (∃ r live', fail_generation (A:=A) stop streams e live = (Done r, live'))
  ∨ ∃ node, stop node = StopNever.
Proof.
  unfold fail_generation, io_bind. destruct (shutdown_vec_total stop streams live) as [[l ->]|(n & _ & ?)];
    [left|right]; eauto.
Qed.
Lemma prepare_total config topology spec reply :
  handler_total (sp_rollback_handler spec) →
  (∃ r live, prepare_subscription b config topology spec reply ∅ = (Done r, live))
  ∨ ∃ node, backend_stop b node = StopNever.
Proof.
  intros Hh. unfold prepare_subscription. unfold io_bind, io_lift.
  destruct (resolve_assignment _ _) as [a|e|]; [|eauto..].
  destruct (load_checkpoints _ _ _ _) as [loaded|e|]; [|eauto..].
  destruct (resolve_initial_starts _ _ _) as [starts|e|]; [|eauto..].
  match goal with |- context [backend_open b ?q] => pose proof (backend_open_ok b q ∅ Hh) as Hc end.
  unfold open_contract in Hc.
  destruct (backend_open b _ ∅) as [[[g|e|]|] l]; [|by eauto|done|by destruct Hc as (n & ? & ? & _); eauto].
  repeat (case_match; eauto using fail_generation_total).
Qed.

Lemma holder_enabled c k : life_inv c → cl_holder c = Some k → enabled c ∨ held_up c.
Proof.
  intros Hi Hh. apply (li_holder _ Hi) in Hh as [p Hp].
  destruct (shutdown_vec_total (backend_stop b) (gn_streams (pr_opened p)) (sh_live (cl_shared c)))
    as [[live Hl]|(node & Hin & Hs)].
  - left. exists 0, (ActDiscarded k). split_and!; [done..|]. cbn. rewrite Hp.
    unfold subscribe_discarded. rewrite Hl. by eexists.
  - right. exists node. split; [done|]. left. by exists k, p.
Qed.
Lemma task_enabled c n t :
  life_inv c → cl_closed c = true → cl_controls c !! n = Some t → ct_returned t = false →
  enabled c ∨ held_up c.
Proof.
  intros Hi Hcl Hn Hr. destruct (ct_done t) eqn:Hd.
  - left. exists 0, (ActReturn n). split_and!; [done..|]. cbn. rewrite Hn. cbn. rewrite Hd, Hr. by eexists.
  - assert (cancelled (view c t) = true) as Hcan.
    { apply orb_true_iff. left. apply (li_stopping _ Hi); [by left|].
      apply has_receiver_spec. right. eauto. }
    destruct (stop_enabled (B:=B) cccp_from_slice 0 (view c t) (ct_history t) Hcan Hd) as (Ht & Hok & s & Hs).
    set (i := stop_input _) in *. destruct (input_arrives b i t) eqn:Hin.
    + left. exists 0, (ActTask n i). split_and!; [done| |].
      * intros u Hu. rewrite Hn in Hu. by injection Hu as <-.
      * cbn. unfold task_step. rewrite Hn. cbn. assert (own_input i = true) as -> by by destruct i.
        rewrite Hin. cbn. rewrite Hs. destruct s. by eexists.
    + right. unfold i, stop_input in Hin. change (sb_phase (view c t)) with (sb_phase (ct_task t)) in Hin.
      destruct (sb_phase (ct_task t)) eqn:Hph; try done. cbn in Hin.
      apply not_true_iff_false in Hin. rewrite forallb_forall in Hin.
      destruct (existsb (λ s, negb (stop_answers (backend_stop b s.1))) (sb_streams (ct_task t))) eqn:He.
      * apply existsb_exists in He as ([node ds] & Hx%list_elem_of_In & Hnode). exists node. split.
        -- cbn in Hnode. by destruct (backend_stop b node).
        -- right; right. exists n, t, a. split_and!; [done..|]. by apply (list_elem_of_fmap_2 fst) in Hx.
      * destruct Hin. intros x Hx. destruct (stop_answers _) eqn:Ha; [done|].
        apply not_true_iff_false in He. destruct He. apply existsb_exists. exists x. by rewrite Ha.
Qed.
Lemma join_enabled c k closing n t w :
  life_inv c → cl_closed c = true → cl_calls c !! k = Some (CallWait closing n w) →
  cl_controls c !! n = Some t → w = WaitJoin ∨ w = WaitCompletion → enabled c ∨ held_up c.
Proof.
  intros Hi Hcl Hk Hn Hw. destruct (ct_returned t) eqn:Hr; [left|by eapply task_enabled].
  exists 0, (ActWait k ""). split_and!; [done..|]. cbn. unfold call_wait. rewrite Hk, Hn. cbn.
  destruct Hw as [-> | ->]; cbn; rewrite Hr; by eexists.
Qed.
Lemma health_enabled c k waited e :
  life_inv c → cl_calls c !! k = Some (CloseHealthJoin waited e) → enabled c.
Proof.
  intros Hi Hk. destruct (sh_health_task (cl_shared c)) eqn:Ht.
  - exists 0, ActHealthWake. split_and!; [done..|]. cbn. unfold health_wake. rewrite Ht. by eexists.
  - exists 0, (ActHealth None). split_and!; [done..|]. cbn. unfold health_round. rewrite Ht. by eexists.
  - exists 0, ActHealthPublish. split_and!; [done..|]. cbn. unfold health_publish. rewrite Ht. by eexists.
  - exists 0, (ActHealthJoin k ""). split_and!; [done..|]. cbn. unfold close_health_join.
    rewrite Hk, Ht. by eexists.
Qed.

Lemma call_enabled c k call :
  life_inv c → cl_closed c = true → cl_calls c !! k = Some call → finished call = false →
  enabled c ∨ held_up c.
Proof.
  intros Hi Hcl Hk Hf. destruct call; try done.
  - destruct (owner_call _ _ _ Hi Hk eq_refl) as (_ & Hd & Hno).
    assert (sh_live (cl_shared c) = ∅) as Hl.
    { apply (idle_live c); [done..|]. intros k' call Hk'. destruct (decide (k' = k)) as [->|Hne].
      - rewrite Hk in Hk'. by injection Hk' as <-.
      - by eapply not_reserved, Hno. }
    pose proof (li_subscribe _ Hi _ _ Hk) as Hh. cbn in Hh.
    destruct (prepare_total (cl_config c) topology spec None Hh) as [(r & live & Hp)|(node & Hs)].
    2: { right. exists node. split; [done|]. right; left. eauto. }
    left. exists 0, (ActPrepared k None). split_and!; [done..|]. cbn. rewrite Hk. unfold subscribe_prepared.
    rewrite Hl, Hp. destruct r; by eexists.
  - destruct (cl_holder c) eqn:Hh; [by eapply holder_enabled|left]. exists 0, (ActSubscribeLock k).
    split_and!; [done..|]. cbn. rewrite Hk. unfold subscribe_locked. rewrite Hh. by eexists.
  - eapply (holder_enabled c k); [done|]. apply (li_holder _ Hi). by exists p.
  - destruct (li_call _ Hi k _ Hk) as [(t & Hn & Hw) _].
    destruct w; [|by eapply join_enabled; [..|left]|by eapply join_enabled; [..|right]].
    destruct (ct_join t) as [|k'| |] eqn:Hj.
    2: { destruct (li_control _ Hi n t Hn) as (_ & _ & _ & C4). rewrite Hj in C4.
         destruct C4 as [closing' Hk']. by eapply join_enabled; [..|left]. }
    all: left; exists 0, (ActWait k ""); split_and!; [done..|]; cbn; unfold call_wait; rewrite Hk, Hn; cbn;
      rewrite Hj; by eexists.
  - destruct (cl_holder c) eqn:Hh; [by eapply holder_enabled|left]. exists 0, (ActCloseLock k).
    split_and!; [done..|]. cbn. rewrite Hk. unfold close_locked. rewrite Hh. by eexists.
  - destruct (cl_health_join c) as [|k'| |] eqn:Hj.
    2: { pose proof (li_health _ Hi) as Hl. rewrite Hj in Hl. destruct Hl as (w' & e' & Hk').
         left. by eapply health_enabled. }
    all: left; exists 0, (ActHealthLock k); split_and!; [done..|]; cbn; rewrite Hk; unfold close_health_lock;
      rewrite Hj; by eexists.
  - left. by eapply health_enabled.
Qed.

Inductive internal_steps : nat → ClientInner → ClientInner → Prop :=
| is_refl c : internal_steps 0 c c
| is_step now a m c c1 c' :
    internal a = true → action_ok a c → life_step cccp_from_slice b now a c = Some c1 →
    internal_steps m c1 c' → internal_steps (S m) c c'.
Lemma internal_steps_settle m c c' :
  life_inv c → cl_closed c = true → internal_steps m c c' → (m + settle c' ≤ settle c)%nat.
Proof.
  intros Hi Hcl Hs. induction Hs as [|now a m c c1 c' Ha Hok Hstep Hs IH]; [lia|].
  pose proof (settle_step _ _ _ _ Hi Hcl Ha Hstep).
  assert (cl_closed c1 = true) as Hcl1 by by apply (life_step_calls _ _ _ _ Hstep).
  specialize (IH (life_step_inv _ _ _ _ Hi Hok Hstep) Hcl1). lia.
Qed.

(** ** Properties *)

(** C9: a client has one active subscription at most.  In every reachable state, whatever the
    callers, the tasks and their interleaving, the reservation has at most one owner, a
    subscribe call that is preparing or the supervising task that runs, and the flag is set
    exactly then; without an owner no node stream is open.  The running subscription is the
    one a close waits for, and what it sees of the client satisfies the invariant of a single
    subscription; while there is an owner, another subscribe call fails at once and changes
    nothing. *)
Theorem one_active_subscription c :
  life_reachable c →
  (owners c ≤ 1)%nat
  ∧ (sh_active (cl_shared c) = true ↔ owners c = 1%nat)
  ∧ (owners c = 0%nat → sh_live (cl_shared c) = ∅)
  ∧ (∀ n t, cl_controls c !! n = Some t → running t = true →
       cl_slot c = Some n ∧ client_inv (view c t) (ct_history t))
  ∧ (∀ spec, owners c = 1%nat →
       ∃ e, subscribe_begin spec c = new_call (SubscribeReturned (Err e)) c).
Proof.
  intros Hr. apply life_reachable_inv in Hr as Hi. pose proof (li_owner _ Hi) as Ho.
  split_and!.
  - rewrite Ho. destruct (sh_active _); cbn; lia.
  - rewrite Ho. by destruct (sh_active _).
  - rewrite Ho. intros Hz. destruct (sh_active (cl_shared c)) eqn:Ha; [done|].
    destruct (no_owner _ Hi Ha) as [Hd Hno]. apply idle_live; [done..|].
    intros k call Hk. by eapply not_reserved, Hno.
  - intros n t Hn Hrun. apply negb_true_iff in Hrun. split; by apply (li_control _ Hi n t Hn).
  - rewrite Ho. intros spec Ha. unfold subscribe_begin, acquire, validate_subscription_spec.
    destruct (sh_active _); [|done]. repeat case_match; simplify_eq/=; eauto.
Qed.


(** C12: the callers that wait for a subscription agree.  However many callers close the same
    subscription, and whichever of them are dropped while they wait, each one that returns has
    waited for the end of the task; a caller that joined the task gets its result itself, any
    other gets, for an error, a stream error with its text; so either all of them succeed or
    none does, and a close of the client succeeds only if they do. *)
Theorem waiters_agree c :
  life_reachable c →
  (∀ k n joined r, cl_calls c !! k = Some (SubscriptionClosed n joined r) →
     ∃ t, cl_controls c !! n = Some t ∧ ct_returned t = true ∧ ct_result t ≠ Panic
       ∧ match ct_result t with
         | Err e => r = if joined then Err e else Err (StreamError 0 (dcp_error_to_string e))
         | _ => r = Ok tt
         end)
  ∧ (∀ k k' n j j' r r', cl_calls c !! k = Some (SubscriptionClosed n j r) →
       cl_calls c !! k' = Some (SubscriptionClosed n j' r') → is_ok r = is_ok r')
  ∧ (∀ k k' n j r, cl_calls c !! k = Some (SubscriptionClosed n j r) →
       cl_calls c !! k' = Some (CloseReturned (Some n) (Ok tt)) → r = Ok tt).
Proof.
  intros Hr. apply life_reachable_inv in Hr as Hi. split_and!.
  - intros k n joined r Hk. destruct (li_call _ Hi _ _ Hk) as (t & Ht & Hret & Ha).
    pose proof (returned_no_panic _ _ _ Hi Ht Hret) as Hnp. exists t. split_and!; [done..|].
    destruct (ct_result t) as [[]|e|]; [done..|done].
  - intros k k' n j j' r r' Hk Hk'. destruct (li_call _ Hi _ _ Hk) as (t & Ht & _ & ->).
    destruct (li_call _ Hi _ _ Hk') as (t' & Ht' & _ & ->). rewrite Ht in Ht'. injection Ht' as <-.
    by destruct (ct_result t), j, j'.
  - intros k k' n j r Hk Hk'. destruct (li_call _ Hi _ _ Hk) as (t & Ht & _ & ->).
    destruct (li_call _ Hi _ _ Hk') as (_ & _ & _ & _ & t' & Ht' & _ & Hok).
    rewrite Ht in Ht'. injection Ht' as <-. by rewrite (Hok eq_refl).
Qed.


(** ** Runs that every environment allows *)
Definition plain_action (a : Action) : bool :=
  match a with
  | ActSubscribe spec => match sp_rollback_handler spec with None => true | _ => false end
  | ActTask _ i => plain_input i
  | _ => true
  end.
Fixpoint life_run (actions : list (Z * Action)) (c : ClientInner) : option ClientInner :=
  match actions with
  | [] => Some c
  | (now, a) :: actions =>
      c ← life_step cccp_from_slice b now a c; life_run actions c
  end.
Lemma plain_action_ok a c : plain_action a = true → action_ok a c.
Proof.
  intros Hp. destruct a; try done; cbn in *.
  - by destruct (sp_rollback_handler spec).
  - intros t _. by destruct i as [[| |[]]| | | |[] []| |[[]|]| | | | | | | | | | |].
Qed.
Lemma life_run_steps actions : ∀ c c',
  forallb (λ na, plain_action na.2) actions = true → life_run actions c = Some c' →
  life_steps c c'.
Proof.
  induction actions as [|[now a] actions IH]; intros c c' Hp Hrun; cbn in *.
  { injection Hrun as <-. apply ls_refl. }
  apply andb_true_iff in Hp as [Ha Hp]. destruct (life_step _ _ _ _ _) as [c1|] eqn:Hs; [|done].
  eapply ls_step; [by apply plain_action_ok|done|by apply IH].
Qed.
End Spec.

(** ** A sample run

    A client with health checks subscribes, and the application closes the subscription; a
    second subscribe call is preparing while the client is closed, and is turned away. *)
#[local] Instance sample_instance : ClientBackend TokioClientBackend := tokio_backend (H:=stored_only).
Definition sample_client : ClientInner :=
  (the (match connect_with_backend 0 sample_config (Ok (sample_topology 1 1)) with
        | Ok c => Some c
        | _ => None
        end) <: ClientInner).
Definition sample_run : list (Z * Action) → ClientInner → option ClientInner :=
  life_run sample_cccp sample_backend.
Definition sample_reachable : ClientInner → Prop := life_reachable sample_cccp sample_backend.
Definition sample_subscribe : list (Z * Action) :=
  [(1, ActSubscribe sample_spec); (2, ActPrepared 0 (Some (Ok ∅))); (3, ActSubscribeLock 0)].
Definition sample_active : ClientInner :=
  (the (sample_run sample_subscribe sample_client) <: ClientInner).

(** The supervising task of a cancelled subscription ends. *)
Definition sample_end (n : nat) : list (Z * Action) :=
  [(4, ActTask n (InDrive PolledNothing)); (5, ActTask n (InShutdown (Ok tt) (Ok tt)));
   (6, ActTask n (InFlush None true (λ _, SaveOk) 1)); (7, ActReturn n)].
(** Two callers wait for it: one joins it, one reads the completion. *)
Definition sample_waits : list (Z * Action) :=
  [(3, ActSubscriptionClose 0); (3, ActSubscriptionClose 0); (3, ActWait 1 "")]
  ++ sample_end 0 ++ [(8, ActWait 1 ""); (8, ActWait 2 ""); (8, ActWait 2 "")].
Definition sample_waited : ClientInner :=
  (the (sample_run sample_waits sample_active) <: ClientInner).
(** The client is closed while a subscribe call is preparing. *)
Definition sample_close : list (Z * Action) :=
  [(9, ActSubscribe sample_spec); (9, ActClose); (10, ActCloseLock 4)].
Definition sample_closing : ClientInner :=
  (the (sample_run sample_close sample_waited) <: ClientInner).
Definition sample_rest : list (Z * Action) :=
  [(10, ActWait 4 ""); (10, ActWait 4 ""); (11, ActHealthLock 4);
   (12, ActHealthWake); (12, ActHealthJoin 4 "")].
Definition sample_closed : ClientInner :=
  (the (sample_run sample_rest sample_closing) <: ClientInner).
Definition sample_late : list (Z * Action) :=
  [(13, ActPrepared 3 (Some (Ok ∅))); (13, ActSubscribeLock 3); (14, ActDiscarded 3)].
Definition sample_final : ClientInner :=
  (the (sample_run sample_late sample_closed) <: ClientInner).

Lemma sample_steps actions c c' :
  forallb (λ na, plain_action na.2) actions = true → sample_run actions c = Some c' →
  life_steps sample_cccp sample_backend c c'.
Proof. apply life_run_steps. Qed.
Lemma sample_reach actions c c' :
  sample_reachable c → forallb (λ na, plain_action na.2) actions = true →
  sample_run actions c = Some c' → sample_reachable c'.
Proof. intros Hr Hp Hs. eapply life_steps_reachable; [exact Hr|by eapply sample_steps]. Qed.
Lemma sample_reachable_active : sample_reachable sample_active.
Proof.
  apply (sample_reach sample_subscribe sample_client); [|done|vm_compute; reflexivity].
  apply (lr_connect _ _ 0 sample_config (Ok (sample_topology 1 1))). vm_compute. reflexivity.
Qed.
Lemma sample_reachable_waited : sample_reachable sample_waited.
Proof.
  apply (sample_reach sample_waits sample_active);
    [apply sample_reachable_active|done|vm_compute; reflexivity].
Qed.
Lemma sample_reachable_closing : sample_reachable sample_closing.
Proof.
  apply (sample_reach sample_close sample_waited);
    [apply sample_reachable_waited|done|vm_compute; reflexivity].
Qed.
Lemma sample_reachable_closed : sample_reachable sample_closed.
Proof.
  apply (sample_reach sample_rest sample_closing);
    [apply sample_reachable_closing|done|vm_compute; reflexivity].
Qed.

Lemma one_active_subscription_witness :
  owners sample_active = 1%nat ∧ sh_active (cl_shared sample_active) = true
  ∧ ∃ e, subscribe_begin sample_spec sample_active
         = new_call (SubscribeReturned (Err e)) sample_active.
Proof.
  destruct (one_active_subscription sample_cccp sample_backend sample_active sample_reachable_active)
    as (_ & Ha & _ & _ & He).
  assert (owners sample_active = 1%nat) as Ho by (vm_compute; reflexivity).
  split_and!; [exact Ho|by apply Ha|by apply He].
Defined.

Lemma no_prepared c :
  forallb (λ call, negb (holds_reservation call)) (cl_calls c) = true →
  ∀ k call, cl_calls c !! k = Some call → prepared_of call = None.
Proof.
  intros Hf k call Hk. apply not_reserved, negb_true_iff. rewrite forallb_forall in Hf.
  by apply Hf, list_elem_of_In, list_elem_of_lookup_2 with k.
Qed.

Lemma waiters_agree_witness :
  cl_calls sample_waited !! 1%nat = Some (SubscriptionClosed 0 true (Ok tt))
  ∧ cl_calls sample_waited !! 2%nat = Some (SubscriptionClosed 0 false (Ok tt))
  ∧ ∃ t, cl_controls sample_waited !! 0%nat = Some t ∧ ct_returned t = true
      ∧ ct_result t ≠ Panic
      ∧ match ct_result t with
        | Err e => (Ok tt : result unit) = Err e
        | _ => (Ok tt : result unit) = Ok tt
        end.
Proof.
  assert (cl_calls sample_waited !! 1%nat = Some (SubscriptionClosed 0 true (Ok tt))) as Hk
    by (vm_compute; reflexivity).
  split; [exact Hk|]. split; [vm_compute; reflexivity|].
  apply (waiters_agree sample_cccp sample_backend sample_waited sample_reachable_waited) in Hk. exact Hk.
Defined.


(** ** The health state after the end

    A close that is dropped while it joins the health task loses the task's handle: the next
    close does not wait for the task, whose probe then reports a closed client as healthy. *)
Definition sample_dropped_close : list (Z * Action) :=
  [(9, ActHealthWake); (9, ActClose); (9, ActCloseLock 3); (10, ActWait 3 ""); (10, ActWait 3 "");
   (10, ActHealthLock 3); (11, ActDrop 3);
   (12, ActClose); (12, ActCloseLock 4); (12, ActWait 4 ""); (12, ActWait 4 "");
   (12, ActHealthLock 4); (13, ActHealth (Some (Ok (sample_topology 1 1)))); (14, ActHealthWake)].
Example health_after_dropped_close :
  (λ c, (cl_calls c !! 4%nat, hl_status (sh_health (cl_shared c)), sh_health_task (cl_shared c)))
    <$> sample_run sample_dropped_close sample_waited
  = Some (Some (CloseReturned (Some 0%nat) (Ok tt)), Healthy, HpEnded false).
Proof. vm_compute. reflexivity. Qed.

(** The last handle of the client is dropped while a subscription is active: the client is
    recorded as stopped before the task ends, and the task reports it as healthy again. *)
Definition sample_released : list (Z * Action) :=
  [(4, ActClientDrop)] ++ sample_end 0 ++ [(8, ActHealthWake)].
Example health_after_client_drop :
  (λ c, (cl_released c, hl_status (sh_health (cl_shared c)), owners c,
         sh_health_task (cl_shared c)))
    <$> sample_run sample_released sample_active
  = Some (true, Healthy, 0%nat, HpEnded false).
Proof. vm_compute. reflexivity. Qed.

(** ** A client that is held up

    A stream never answers its shutdown.  A subscribe call that finds the client closed gives
    its streams up with the lock held, so that a second close never gets the lock. *)
Definition held_backend : TokioClientBackend.
Proof.
  refine (mkTokioBackend no_json (λ _, inl "no decoder") sample_boot (λ _, StopNever) _ _);
    [done|by split].
Defined.
Definition sample_held : list (Z * Action) :=
  [(1, ActSubscribe sample_spec); (2, ActPrepared 0 (Some (Ok ∅))); (3, ActClose);
   (3, ActCloseLock 1); (4, ActSubscribeLock 0); (5, ActClose)].
Example close_held_up :
  (λ c, (cl_closed c, cl_holder c, cl_calls c !! 2%nat,
         life_step sample_cccp held_backend 6 (ActCloseLock 2) c,
         life_step sample_cccp held_backend 6 (ActDiscarded 0) c))
    <$> life_run sample_cccp held_backend sample_held sample_client
  = Some (true, Some 0%nat, Some CloseLock, None, None).
Proof. vm_compute. reflexivity. Qed.
