(* ===== verification/Membership.v ===== *)
(** * Group membership: the registry document
      ([rust-dcp-membership-couchbase/src/model.rs] and [error.rs])

    The versioned document the members of a group share: registration, heartbeats, pruning
    of stale members, removal, and the assignment each member derives from it. *)
From S2P Require Import Prelude Text Types Errors Assignment.

(** ** Errors *)
Inductive CouchbaseMembershipError : Type :=
| MConfiguration (m : string)
| MDuplicateMember (member_id : string)
| MFenced (member_id : string)
| MRegistry (m : string)
| MJson (m : string)
| MDcp (e : DcpError)
| MTimeout (d : Duration)
| MStore (m : string)
| MLeaseExpired (idle_for : Duration) (last_error : string)
| MCancelled
| MTask (m : string).

Abbreviation mresult := (res CouchbaseMembershipError).

Definition membership_error_to_string (e : CouchbaseMembershipError) : string :=
  match e with
  | MConfiguration m => "invalid Couchbase membership configuration: " +:+ m
  | MDuplicateMember id => "Couchbase membership member " +:+ debug_str id +:+ " is already live"
  | MFenced id =>
      "Couchbase membership member " +:+ debug_str id +:+ " was fenced by another incarnation"
  | MRegistry m => "invalid Couchbase membership registry: " +:+ m
  | MJson m => "Couchbase membership JSON error: " +:+ m
  | MDcp e => "Couchbase membership KV error: " +:+ dcp_error_to_string e
  | MTimeout d => "Couchbase membership operation timed out after " +:+ duration_debug d
  | MStore m => "Couchbase membership store error: " +:+ m
  | MLeaseExpired idle last =>
      "Couchbase membership lease expired after " +:+ duration_debug idle
        +:+ " without a successful renewal: " +:+ last
  | MCancelled => "Couchbase membership runtime was cancelled"
  | MTask m => "Couchbase membership task failed: " +:+ m
  end.

(** ** Data *)
Definition REGISTRY_SCHEMA_VERSION : Z := 1.
Definition MAX_ID_LEN : Z := 251.

Record MemberIdentity : Type := mkIdentity {
  mi_member_id : string;
  mi_incarnation : string
}.

(** [RegistryMember]; [MemberInfo] has the same fields. *)
Record RegistryMember : Type := mkMember {
  rm_member_id : string;
  rm_incarnation : string;
  rm_joined_at_millis : Z;
  rm_heartbeat_at_millis : Z
}.

Record MembershipSnapshot : Type := mkMembershipSnapshot {
  sn_assignment : VBucketAssignment;
  sn_members : list RegistryMember
}.

Record RegistryDocument : Type := mkRegistryDocument {
  rd_schema_version : Z;
  rd_vbucket_count : Z;
  rd_stale_after_millis : Z;
  rd_generation : Z;
  rd_members : gmap string RegistryMember
}.

#[export] Instance MemberIdentity_eq_dec : EqDecision MemberIdentity.
Proof. solve_decision. Defined.
#[export] Instance RegistryMember_eq_dec : EqDecision RegistryMember.
Proof. solve_decision. Defined.
#[export] Instance RegistryDocument_eq_dec : EqDecision RegistryDocument.
Proof. solve_decision. Defined.

(** ** Validation *)
Definition validate_identifier (kind value : string) : mresult unit :=
  if bool_decide (value = "") || (MAX_ID_LEN <? str_len value)
     || negb (forallb is_ascii_graphic (as_bytes value)) then
    Err (MConfiguration (kind +:+ " must contain 1..=" +:+ pretty MAX_ID_LEN
      +:+ " visible ASCII bytes"))
  else Ok tt.

Definition identity_new (member_id incarnation : string) : mresult MemberIdentity :=
  do? validate_identifier "member ID" member_id in
  do? validate_identifier "incarnation" incarnation in
  Ok (mkIdentity member_id incarnation).

Definition validate_vbucket_count (count : Z) : mresult unit :=
  if (count =? 0) || (u16_max + 1 <? count) then
    Err (MConfiguration ("vBucket count must be in 1..=" +:+ pretty (u16_max + 1)))
  else Ok tt.

(** [.map_err(|error| Registry(error.to_string()))] *)
Definition as_registry_error {A} (r : mresult A) : mresult A :=
  map_err (λ e, MRegistry (membership_error_to_string e)) r.

Definition validate_member (e : string * RegistryMember) : mresult unit :=
  let '(key, member) := e in
  do? as_registry_error (validate_identifier "member ID" key) in
  do? as_registry_error (validate_identifier "incarnation" (rm_incarnation member)) in
  if negb (bool_decide (key = rm_member_id member)) then
    Err (MRegistry ("member map key " +:+ debug_str key +:+ " does not match payload "
      +:+ debug_str (rm_member_id member)))
  else if rm_heartbeat_at_millis member <? rm_joined_at_millis member then
    Err (MRegistry ("member " +:+ debug_str key +:+ " heartbeat precedes its join time"))
  else Ok tt.

Definition registry_validate (d : RegistryDocument) : mresult unit :=
  if negb (rd_schema_version d =? REGISTRY_SCHEMA_VERSION) then
    Err (MRegistry ("unsupported schema version " +:+ pretty (rd_schema_version d)))
  else
    do? as_registry_error (validate_vbucket_count (rd_vbucket_count d)) in
    if rd_stale_after_millis d =? 0 then
      Err (MRegistry "stale-member timeout must be greater than zero")
    else if rd_vbucket_count d <? Z.of_nat (size (rd_members d)) then
      Err (MRegistry (pretty (Z.of_nat (size (rd_members d))) +:+ " members exceed "
        +:+ pretty (rd_vbucket_count d) +:+ " vBuckets"))
    else for_res (string_entries (rd_members d)) tt (λ _, validate_member).

Definition registry_document_new (vbucket_count stale_after_millis : Z)
    : mresult RegistryDocument :=
  do? validate_vbucket_count vbucket_count in
  if stale_after_millis =? 0 then
    Err (MConfiguration "stale-member timeout must be greater than zero")
  else Ok (mkRegistryDocument REGISTRY_SCHEMA_VERSION vbucket_count stale_after_millis 0 ∅).

Definition validate_settings (d : RegistryDocument) (vbucket_count stale_after_millis : Z)
    : mresult unit :=
  do? registry_validate d in
  if negb (rd_vbucket_count d =? vbucket_count) then
    Err (MConfiguration ("registry vBucket count " +:+ pretty (rd_vbucket_count d)
      +:+ " does not match local " +:+ pretty vbucket_count))
  else if negb (rd_stale_after_millis d =? stale_after_millis) then
    Err (MConfiguration ("registry stale timeout " +:+ pretty (rd_stale_after_millis d)
      +:+ "ms does not match local " +:+ pretty stale_after_millis +:+ "ms"))
  else Ok tt.

(** ** Operations *)
Definition is_stale (m : RegistryMember) (now stale_after : Z) : bool :=
  stale_after <=? Z.max 0 (now - rm_heartbeat_at_millis m).

Definition next_generation (d : RegistryDocument) : mresult Z :=
  ok_or (checked_add u64_max (rd_generation d) 1) (MRegistry "membership generation overflow").

Definition set_members (generation : Z) (ms : gmap string RegistryMember) (d : RegistryDocument)
    : RegistryDocument :=
  mkRegistryDocument (rd_schema_version d) (rd_vbucket_count d) (rd_stale_after_millis d)
    generation ms.

Definition touch (now : Z) (m : RegistryMember) : RegistryMember :=
  mkMember (rm_member_id m) (rm_incarnation m) (rm_joined_at_millis m)
    (Z.max (rm_heartbeat_at_millis m) now).

Definition register (identity : MemberIdentity) (now : Z) (d : RegistryDocument)
    : mresult RegistryDocument :=
  do? registry_validate d in
  let id := mi_member_id identity in
  let join :=
    let? generation := next_generation d in
    Ok (set_members generation
          (<[id := mkMember id (mi_incarnation identity) now now]> (rd_members d)) d) in
  match rd_members d !! id with
  | Some existing =>
      if bool_decide (rm_incarnation existing = mi_incarnation identity) then
        Ok (set_members (rd_generation d) (<[id := touch now existing]> (rd_members d)) d)
      else if negb (is_stale existing now (rd_stale_after_millis d)) then
        Err (MDuplicateMember id)
      else join
  | None =>
      if rd_vbucket_count d <=? Z.of_nat (size (rd_members d)) then
        Err (MConfiguration ("cannot register more than " +:+ pretty (rd_vbucket_count d)
          +:+ " members for " +:+ pretty (rd_vbucket_count d) +:+ " vBuckets"))
      else join
  end.

(** The member when it is the exact incarnation. *)
Definition own_member (identity : MemberIdentity) (d : RegistryDocument)
    : mresult RegistryMember :=
  let? member := ok_or (rd_members d !! mi_member_id identity)
    (MFenced (mi_member_id identity)) in
  if negb (bool_decide (rm_incarnation member = mi_incarnation identity)) then
    Err (MFenced (mi_member_id identity))
  else Ok member.

Definition heartbeat (identity : MemberIdentity) (now : Z) (d : RegistryDocument)
    : mresult RegistryDocument :=
  do? registry_validate d in
  let? member := own_member identity d in
  Ok (set_members (rd_generation d)
        (<[mi_member_id identity := touch now member]> (rd_members d)) d).

(** The document and how many members were removed. *)
Definition prune_stale (now : Z) (d : RegistryDocument) : mresult (Z * RegistryDocument) :=
  do? registry_validate d in
  let fresh := filter (λ kv, is_stale kv.2 now (rd_stale_after_millis d) = false) (rd_members d) in
  let removed := Z.of_nat (size (rd_members d)) - Z.of_nat (size fresh) in
  if removed =? 0 then Ok (0, d)
  else
    let? generation := next_generation d in
    Ok (removed, set_members generation fresh d).

Definition registry_remove (identity : MemberIdentity) (d : RegistryDocument)
    : mresult (bool * RegistryDocument) :=
  do? registry_validate d in
  match rd_members d !! mi_member_id identity with
  | None => Ok (false, d)
  | Some member =>
      if negb (bool_decide (rm_incarnation member = mi_incarnation identity)) then
        Err (MFenced (mi_member_id identity))
      else
        let? generation := next_generation d in
        Ok (true, set_members generation (delete (mi_member_id identity) (rd_members d)) d)
  end.

(** Join time first, then the member identifier. *)
Definition member_le (a b : RegistryMember) : Prop :=
  rm_joined_at_millis a < rm_joined_at_millis b
  ∨ (rm_joined_at_millis a = rm_joined_at_millis b ∧ String.le (rm_member_id a) (rm_member_id b)).
#[export] Instance member_le_dec : RelDecision member_le.
Proof. intros a b. unfold member_le. apply _. Defined.

Definition ordered_members (d : RegistryDocument) : list RegistryMember :=
  merge_sort member_le ((string_entries (rd_members d)).*2).

Fixpoint position (id : string) (l : list RegistryMember) : option Z :=
  match l with
  | [] => None
  | m :: l => if bool_decide (rm_member_id m = id) then Some 0
              else Z.succ <$> position id l
  end.

Definition snapshot (identity : MemberIdentity) (d : RegistryDocument)
    : mresult MembershipSnapshot :=
  do? registry_validate d in
  do? own_member identity d in
  let members := ordered_members d in
  let? member_number := ok_or ((λ i, i + 1) <$> position (mi_member_id identity) members)
    (MFenced (mi_member_id identity)) in
  let? assignment := map_err (λ e, MRegistry (dcp_error_to_string e))
    (balanced (rd_generation d) (rd_vbucket_count d) member_number (len members)) in
  Ok (mkMembershipSnapshot assignment members).

(** ** Lemmas: the members of a document *)

Lemma length_ordered_members d : length (ordered_members d) = size (rd_members d).
Proof.
  unfold ordered_members. rewrite merge_sort_Permutation, length_fmap, string_entries_Permutation.
  apply length_map_to_list.
Qed.

(** ** Lemmas: validity *)

Definition id_ok (s : string) : Prop :=
  s ≠ "" ∧ str_len s ≤ MAX_ID_LEN ∧ forallb is_ascii_graphic (as_bytes s) = true.

Lemma validate_identifier_spec kind s :
  match validate_identifier kind s with
  | Ok _ => id_ok s
  | Err _ => ¬ id_ok s
  | Panic => False
  end.
Proof.
  unfold validate_identifier, id_ok. case_bool_decide as H1; cbn [orb]; [by intros [? _]|].
  destruct (Z.ltb_spec MAX_ID_LEN (str_len s)); cbn [orb]; [intros (_ & ? & _); lia|].
  destruct (forallb is_ascii_graphic (as_bytes s)); cbn [negb]; [done|]. by intros (_ & _ & ?).
Qed.

Definition member_ok (k : string) (m : RegistryMember) : Prop :=
  id_ok k ∧ id_ok (rm_incarnation m) ∧ rm_member_id m = k
  ∧ rm_joined_at_millis m ≤ rm_heartbeat_at_millis m.

(** The invariant of a stored document. *)
Definition doc_valid (d : RegistryDocument) : Prop :=
  rd_schema_version d = REGISTRY_SCHEMA_VERSION
  ∧ 1 ≤ rd_vbucket_count d ≤ max_vbucket_count
  ∧ rd_stale_after_millis d ≠ 0
  ∧ Z.of_nat (size (rd_members d)) ≤ rd_vbucket_count d
  ∧ map_Forall member_ok (rd_members d).

Lemma validate_member_spec k m :
  match validate_member (k, m) with
  | Ok _ => member_ok k m
  | Err _ => ¬ member_ok k m
  | Panic => False
  end.
Proof.
  unfold validate_member, member_ok.
  pose proof (validate_identifier_spec "member ID" k) as H1.
  pose proof (validate_identifier_spec "incarnation" (rm_incarnation m)) as H2.
  destruct (validate_identifier "member ID" k); cbn [as_registry_error map_err]; [|tauto|done].
  destruct (validate_identifier "incarnation" _); cbn [as_registry_error map_err]; [|tauto|done].
  case_bool_decide as Hk; cbn [negb]; [|intros (_ & _ & ? & _); congruence].
  destruct (Z.ltb_spec (rm_heartbeat_at_millis m) (rm_joined_at_millis m)); [|done].
  intros (_ & _ & _ & ?). lia.
Qed.

Lemma registry_validate_spec d :
  0 ≤ rd_vbucket_count d →
  match registry_validate d with
  | Ok _ => doc_valid d
  | Err _ => ¬ doc_valid d
  | Panic => False
  end.
Proof.
  intros Hc. unfold registry_validate, doc_valid.
  destruct (Z.eqb_spec (rd_schema_version d) REGISTRY_SCHEMA_VERSION); cbn [negb]; [|by intros [? _]].
  unfold validate_vbucket_count, max_vbucket_count.
  destruct (Z.eqb_spec (rd_vbucket_count d) 0); cbn [orb as_registry_error map_err].
  { intros (_ & ? & _). lia. }
  destruct (Z.ltb_spec (u16_max + 1) (rd_vbucket_count d)); cbn [as_registry_error map_err].
  { intros (_ & ? & _). lia. }
  destruct (Z.eqb_spec (rd_stale_after_millis d) 0); [by intros (_ & _ & ? & _)|].
  destruct (Z.ltb_spec (rd_vbucket_count d) (Z.of_nat (size (rd_members d)))).
  { intros (_ & _ & _ & ? & _). lia. }
  pose proof (for_res_checks (string_entries (rd_members d)) validate_member) as Hall.
  destruct (for_res _ _ _) as [[]|er|].
  - split_and!; try done; [lia|]. intros k m Hm. rewrite <-elem_of_string_entries in Hm.
    pose proof (validate_member_spec k m) as Hs. by rewrite (Hall _ Hm) in Hs.
  - destruct Hall as ([k m] & Hin & He). rewrite elem_of_string_entries in Hin.
    intros (_ & _ & _ & _ & Hf). pose proof (validate_member_spec k m) as Hs.
    rewrite He in Hs. by apply Hs, Hf.
  - destruct Hall as ([k m] & _ & He). pose proof (validate_member_spec k m) as Hs.
    by rewrite He in Hs.
Qed.

Lemma registry_validate_valid d : doc_valid d → registry_validate d = Ok tt.
Proof.
  intros Hd. pose proof (registry_validate_spec d) as Hs.
  destruct (registry_validate d) as [[]|e|]; [done| |]; exfalso; apply Hs; try done;
    destruct Hd as (_ & ? & _); lia.
Qed.

(** ** Lemmas: the fence *)

(** What a generation stands for: who is a member, in which incarnation, since when. *)
Definition view (d : RegistryDocument) : gmap string (string * Z) :=
  (λ m, (rm_incarnation m, rm_joined_at_millis m)) <$> rd_members d.

(** A later document of a group: same settings; a generation stands for one view. *)
Definition evolves (d d' : RegistryDocument) : Prop :=
  rd_vbucket_count d' = rd_vbucket_count d
  ∧ rd_stale_after_millis d' = rd_stale_after_millis d
  ∧ rd_generation d ≤ rd_generation d'
  ∧ (rd_generation d = rd_generation d' → view d = view d').

#[export] Instance evolves_preorder : PreOrder evolves.
Proof.
  split; [done|]. intros a b c (? & ? & ? & Hab) (? & ? & ? & Hbc).
  split_and!; [congruence..|lia|]. intros Heq. rewrite Hab, Hbc; [done|lia..].
Qed.

Lemma next_generation_ok d g : next_generation d = Ok g → g = rd_generation d + 1.
Proof.
  unfold next_generation, checked_add. destruct (_ <=? _); cbn; [|done]. by intros [= <-].
Qed.

Lemma evolves_next d g ms : next_generation d = Ok g → evolves d (set_members g ms d).
Proof.
  intros ->%next_generation_ok. split_and!; cbn; [done..|lia|]. intros. lia.
Qed.

Lemma view_touch now d id m :
  rd_members d !! id = Some m →
  view (set_members (rd_generation d) (<[id := touch now m]> (rd_members d)) d) = view d.
Proof.
  intros Hm. unfold view. cbn [rd_members set_members]. rewrite fmap_insert.
  apply insert_id. by rewrite lookup_fmap, Hm.
Qed.
Lemma evolves_touch now d id m :
  rd_members d !! id = Some m →
  evolves d (set_members (rd_generation d) (<[id := touch now m]> (rd_members d)) d).
Proof. intros Hm. split_and!; [done..|]. intros _. by rewrite (view_touch now d id m). Qed.

(** *** Validity after a change of the members *)

Lemma doc_valid_members d g ms :
  doc_valid d → Z.of_nat (size ms) ≤ rd_vbucket_count d → map_Forall member_ok ms →
  doc_valid (set_members g ms d).
Proof. intros (H1 & H2 & H3 & _ & _) H4 H5. exact (conj H1 (conj H2 (conj H3 (conj H4 H5)))). Qed.

Lemma member_ok_touch now k m : member_ok k m → member_ok k (touch now m).
Proof. intros (? & ? & ? & ?). split_and!; try done. cbn. lia. Qed.

Lemma size_insert_le (ms : gmap string RegistryMember) k m :
  (size (<[k := m]> ms) ≤ S (size ms))%nat.
Proof.
  destruct (ms !! k) eqn:Hk; [rewrite map_size_insert_Some by (by eexists); lia|].
  by rewrite map_size_insert_None.
Qed.

Lemma doc_valid_touch now d id m :
  doc_valid d → rd_members d !! id = Some m →
  doc_valid (set_members (rd_generation d) (<[id := touch now m]> (rd_members d)) d).
Proof.
  intros Hd Hm. pose proof Hd as (_ & _ & _ & Hsz & Hf). apply doc_valid_members; [done| |].
  - rewrite map_size_insert_Some by (by eexists). done.
  - apply map_Forall_insert_2; [|done]. by apply member_ok_touch, Hf.
Qed.

(** *** The operations *)

Definition identity_ok (i : MemberIdentity) : Prop :=
  id_ok (mi_member_id i) ∧ id_ok (mi_incarnation i).

(** A member that keeps its place. *)
Definition keeps (id : string) (d d' : RegistryDocument) : Prop :=
  ∀ m, rd_members d !! id = Some m → ∃ m', rd_members d' !! id = Some m'
    ∧ rm_incarnation m' = rm_incarnation m ∧ rm_joined_at_millis m' = rm_joined_at_millis m
    ∧ rm_heartbeat_at_millis m ≤ rm_heartbeat_at_millis m'.

Lemma keeps_refl id d : keeps id d d.
Proof. intros m Hm. exists m. by split_and!. Qed.
Lemma keeps_touch now d k m id :
  rd_members d !! k = Some m →
  keeps id d (set_members (rd_generation d) (<[k := touch now m]> (rd_members d)) d).
Proof.
  intros Hm m' Hm'. cbn [rd_members set_members]. destruct (decide (k = id)) as [->|Hne].
  - rewrite lookup_insert_eq. eexists. split; [done|].
    rewrite Hm in Hm'. injection Hm' as <-. split_and!; try done. cbn. lia.
  - rewrite lookup_insert_ne by done. exists m'. by split_and!.
Qed.

Definition live (now : Z) (id : string) (d : RegistryDocument) : Prop :=
  ∃ m, rd_members d !! id = Some m ∧ is_stale m now (rd_stale_after_millis d) = false.

Lemma register_spec identity now d :
  doc_valid d → identity_ok identity →
  match register identity now d with
  | Ok d' => doc_valid d' ∧ evolves d d'
      ∧ (∃ m, rd_members d' !! mi_member_id identity = Some m
           ∧ rm_incarnation m = mi_incarnation identity ∧ now ≤ rm_heartbeat_at_millis m)
      ∧ (∀ id, id ≠ mi_member_id identity → rd_members d' !! id = rd_members d !! id)
      ∧ (live now (mi_member_id identity) d → keeps (mi_member_id identity) d d')
  | Err _ => True
  | Panic => False
  end.
Proof.
  intros Hd [Hid Hinc]. pose proof Hd as (_ & Hc & _ & Hsz & Hf). unfold register.
  rewrite registry_validate_valid by done.
  set (k := mi_member_id identity). set (fresh := mkMember k (mi_incarnation identity) now now).
  assert (∀ g, next_generation d = Ok g → Z.of_nat (size (<[k := fresh]> (rd_members d))) ≤ rd_vbucket_count d →
    ¬ live now k d →
    doc_valid (set_members g (<[k := fresh]> (rd_members d)) d)
    ∧ evolves d (set_members g (<[k := fresh]> (rd_members d)) d)
    ∧ (∃ m, <[k := fresh]> (rd_members d) !! k = Some m ∧ rm_incarnation m = mi_incarnation identity
        ∧ now ≤ rm_heartbeat_at_millis m)
    ∧ (∀ id, id ≠ k → <[k := fresh]> (rd_members d) !! id = rd_members d !! id)
    ∧ (live now k d → keeps k d (set_members g (<[k := fresh]> (rd_members d)) d))) as Hjoin.
  { intros g Hg Hs Hnl. split_and!; [|by apply evolves_next| | |done].
    - apply doc_valid_members; [done..|]. apply map_Forall_insert_2; [|done]. by split_and!.
    - exists fresh. rewrite lookup_insert_eq. split_and!; [done..|]. cbn. lia.
    - intros id Hne. by rewrite lookup_insert_ne. }
  assert (next_generation d ≠ Panic) as Hng
    by (unfold next_generation; by destruct (checked_add _ _ _)).
  destruct (rd_members d !! k) as [m|] eqn:Hm.
  - case_bool_decide as Hi.
    + split_and!; [by apply doc_valid_touch|by apply evolves_touch| | |].
      * exists (touch now m). cbn [rd_members set_members]. rewrite lookup_insert_eq.
        split_and!; [done..|]. cbn. lia.
      * intros id Hne. cbn [rd_members set_members]. by rewrite lookup_insert_ne.
      * intros _. by apply keeps_touch.
    + destruct (is_stale m now (rd_stale_after_millis d)) eqn:Hst; cbn [negb]; [|done].
      destruct (next_generation d) as [g|e|] eqn:Hg; [|done..].
      apply Hjoin; [done| |].
      * by rewrite map_size_insert_Some by (by eexists).
      * intros (m' & Hm' & Hst'). congruence.
  - destruct (Z.leb_spec (rd_vbucket_count d) (Z.of_nat (size (rd_members d)))); [done|].
    destruct (next_generation d) as [g|e|] eqn:Hg; [|done..].
    apply Hjoin; [done| |].
    * pose proof (size_insert_le (rd_members d) k fresh). lia.
    * intros (m' & Hm' & _). congruence.
Qed.

Lemma own_member_spec identity d :
  match own_member identity d with
  | Ok m => rd_members d !! mi_member_id identity = Some m
      ∧ rm_incarnation m = mi_incarnation identity
  | Err e => e = MFenced (mi_member_id identity)
      ∧ ∀ m, rd_members d !! mi_member_id identity = Some m →
          rm_incarnation m ≠ mi_incarnation identity
  | Panic => False
  end.
Proof.
  unfold own_member. destruct (rd_members d !! mi_member_id identity) as [m|] eqn:Hm; cbn [ok_or]; [|done].
  case_bool_decide as Hi; cbn [negb]; [done|]. split; [done|]. by intros ? [= <-].
Qed.

Lemma heartbeat_spec identity now d :
  doc_valid d →
  match heartbeat identity now d with
  | Ok d' => doc_valid d' ∧ evolves d d' ∧ rd_generation d' = rd_generation d
      ∧ (∃ m, rd_members d' !! mi_member_id identity = Some m
           ∧ rm_incarnation m = mi_incarnation identity ∧ now ≤ rm_heartbeat_at_millis m)
      ∧ (∀ id, keeps id d d')
  | Err e => e = MFenced (mi_member_id identity)
      ∧ ∀ m, rd_members d !! mi_member_id identity = Some m →
          rm_incarnation m ≠ mi_incarnation identity
  | Panic => False
  end.
Proof.
  intros Hd. unfold heartbeat. rewrite registry_validate_valid by done.
  pose proof (own_member_spec identity d) as Hs.
  destruct (own_member identity d) as [m|e|]; [|done..]. destruct Hs as [Hm Hi].
  split_and!; [by apply doc_valid_touch|by apply evolves_touch|done| |].
  - exists (touch now m). cbn [rd_members set_members]. rewrite lookup_insert_eq.
    split_and!; [done..|]. cbn. lia.
  - intros id. by apply keeps_touch.
Qed.

Lemma prune_stale_spec now d :
  doc_valid d →
  match prune_stale now d with
  | Ok (n, d') => doc_valid d' ∧ evolves d d'
      ∧ (∀ id m, rd_members d' !! id = Some m ↔
           rd_members d !! id = Some m ∧ is_stale m now (rd_stale_after_millis d) = false)
      ∧ n = Z.of_nat (size (rd_members d)) - Z.of_nat (size (rd_members d'))
  | Err _ => True
  | Panic => False
  end.
Proof.
  intros Hd. pose proof Hd as (_ & _ & _ & Hsz & Hf). unfold prune_stale.
  rewrite registry_validate_valid by done.
  set (fresh := filter _ (rd_members d)).
  assert (∀ id m, fresh !! id = Some m ↔
    rd_members d !! id = Some m ∧ is_stale m now (rd_stale_after_millis d) = false) as Hfresh.
  { intros id m. apply map_lookup_filter_Some. }
  assert (fresh ⊆ rd_members d) as Hsub by apply map_filter_subseteq.
  destruct (Z.eqb_spec (Z.of_nat (size (rd_members d)) - Z.of_nat (size fresh)) 0) as [H0|H0].
  - split_and!; [done..| |lia]. intros id m. rewrite <-Hfresh.
    assert (fresh = rd_members d) as ->; [|done].
    apply map_subseteq_size_eq; [done|]. lia.
  - unfold next_generation. destruct (checked_add u64_max (rd_generation d) 1) as [g|] eqn:Hg; cbn [ok_or]; [|done].
    split_and!; [|by apply evolves_next; unfold next_generation; rewrite Hg|exact Hfresh|done].
    apply map_subseteq_size in Hsub as Hle.
    apply doc_valid_members; [done|lia|]. intros k m [Hm _]%Hfresh. by apply Hf.
Qed.

Lemma registry_remove_spec identity d :
  doc_valid d →
  match registry_remove identity d with
  | Ok (removed, d') => doc_valid d' ∧ evolves d d'
      ∧ rd_members d' !! mi_member_id identity = None
      ∧ (∀ id, id ≠ mi_member_id identity → rd_members d' !! id = rd_members d !! id)
  | Err _ => True
  | Panic => False
  end.
Proof.
  intros Hd. pose proof Hd as (_ & _ & _ & Hsz & Hf). unfold registry_remove.
  rewrite registry_validate_valid by done.
  destruct (rd_members d !! mi_member_id identity) as [m|] eqn:Hm; [|done].
  case_bool_decide as Hi; cbn [negb]; [|done].
  unfold next_generation. destruct (checked_add u64_max (rd_generation d) 1) as [g|] eqn:Hg; cbn [ok_or]; [|done].
  split_and!; [|by apply evolves_next; unfold next_generation; rewrite Hg| |].
  - apply doc_valid_members; [done| |].
    + rewrite map_size_delete, Hm. lia.
    + by apply map_Forall_delete.
  - cbn. by rewrite lookup_delete_eq.
  - intros id Hne. cbn. by rewrite lookup_delete_ne.
Qed.

(** ** Lemmas: snapshots *)

(** Members in order, as pairs of join time and identifier. *)
Definition order_key (m : RegistryMember) : Z * string :=
  (rm_joined_at_millis m, rm_member_id m).
Definition key_pair_le (a b : Z * string) : Prop :=
  a.1 < b.1 ∨ (a.1 = b.1 ∧ String.le a.2 b.2).

#[export] Instance key_pair_le_trans : Transitive key_pair_le.
Proof.
  intros [a x] [b y] [c z] [H1|[H1 H2]] [H3|[H3 H4]]; unfold key_pair_le; cbn in *;
    [left; lia..|]. right. split; [lia|]. by etrans.
Qed.
#[export] Instance key_pair_le_antisymm : AntiSymm (=) key_pair_le.
Proof.
  intros [a x] [b y] [H1|[H1 H2]] [H3|[H3 H4]]; cbn in *; [lia..|].
  f_equal; [lia|]. by apply (anti_symm String.le).
Qed.
#[export] Instance member_le_trans : Transitive member_le.
Proof. intros a b c. apply (key_pair_le_trans (order_key a) (order_key b) (order_key c)). Qed.
#[export] Instance member_le_total : Total member_le.
Proof.
  intros a b. unfold member_le.
  destruct (Z.lt_trichotomy (rm_joined_at_millis a) (rm_joined_at_millis b)) as [|[|]]; [by auto| |by auto].
  destruct (total String.le (rm_member_id a) (rm_member_id b)); [left|right]; right; by split.
Qed.

(** The keys of the ordered members are a function of the view. *)
Lemma order_keys_view d d' :
  doc_valid d → doc_valid d' → view d = view d' →
  order_key <$> ordered_members d = order_key <$> ordered_members d'.
Proof.
  intros Hd Hd' Hv.
  assert (∀ d, doc_valid d → order_key <$> ordered_members d
    ≡ₚ (λ kv : string * (string * Z), (kv.2.2, kv.1)) <$> map_to_list (view d)) as Hperm.
  { clear. intros d (_ & _ & _ & _ & Hf). unfold ordered_members, view.
    rewrite merge_sort_Permutation, string_entries_Permutation, map_to_list_fmap.
    rewrite <-!list_fmap_compose. apply reflexive_eq, list_fmap_ext.
    intros i [k m] Hi. apply list_elem_of_lookup_2, elem_of_map_to_list, Hf in Hi.
    destruct Hi as (_ & _ & Hk & _). unfold order_key. cbn. by rewrite Hk. }
  assert (∀ d, StronglySorted key_pair_le (order_key <$> ordered_members d)) as Hsorted.
  { clear. intros d. apply StronglySorted_fmap with (R1 := member_le); [done|].
    apply (StronglySorted_merge_sort member_le). }
  apply (StronglySorted_unique key_pair_le); [apply Hsorted..|].
  by rewrite (Hperm d Hd), (Hperm d' Hd'), Hv.
Qed.

Lemma position_keys id l l' :
  order_key <$> l = order_key <$> l' → position id l = position id l'.
Proof.
  revert l'. induction l as [|m l IH]; intros [|m' l']; try done.
  rewrite !fmap_cons. intros [= H1 H2 Hl]. cbn [position]. rewrite H2.
  case_bool_decide; [done|]. by rewrite (IH l').
Qed.

Lemma position_spec id l i :
  position id l = Some i → ∃ m, l !! Z.to_nat i = Some m ∧ rm_member_id m = id ∧ 0 ≤ i < len l.
Proof.
  revert i. induction l as [|m l IH]; intros i; cbn [position]; [done|].
  case_bool_decide as Hm.
  - intros [= <-]. exists m. split_and!; [done..|]. unfold len. cbn. lia.
  - destruct (position id l) as [j|]; [|done]. intros [= <-].
    destruct (IH j eq_refl) as (m' & Hl & Hid & Hj). exists m'.
    rewrite Z2Nat.inj_succ by lia. split_and!; [done..|lia|]. unfold len in *. cbn. lia.
Qed.
Lemma position_elem id l : id ∈ rm_member_id <$> l → is_Some (position id l).
Proof.
  induction l as [|m l IH]; [by intros ?%elem_of_nil|]. rewrite fmap_cons. cbn [position].
  intros [-> |Hin]%elem_of_cons; [by rewrite bool_decide_true by done|].
  case_bool_decide; [by eexists|]. destruct (IH Hin) as [i ->]. by eexists.
Qed.

Lemma ordered_members_elem d id :
  doc_valid d → id ∈ rm_member_id <$> ordered_members d ↔ is_Some (rd_members d !! id).
Proof.
  intros (_ & _ & _ & _ & Hf). unfold ordered_members. rewrite merge_sort_Permutation. split.
  - intros (m & -> & ([k m'] & -> & Hin)%list_elem_of_fmap)%list_elem_of_fmap.
    rewrite elem_of_string_entries in Hin. destruct (Hf _ _ Hin) as (_ & _ & Hk & _). cbn.
    rewrite Hk. by eexists.
  - intros [m Hm]. destruct (Hf _ _ Hm) as (_ & _ & Hk & _).
    apply list_elem_of_fmap. exists m. split; [done|]. apply list_elem_of_fmap. exists (id, m).
    split; [done|]. by apply elem_of_string_entries.
Qed.

(** The snapshot of a member: its chunk of the bucket by its place in the order. *)
Lemma snapshot_spec identity d :
  doc_valid d →
  match snapshot identity d with
  | Ok s => ∃ i, position (mi_member_id identity) (ordered_members d) = Some i
      ∧ 0 ≤ i < len (ordered_members d)
      ∧ (∃ m, rd_members d !! mi_member_id identity = Some m
           ∧ rm_incarnation m = mi_incarnation identity)
      ∧ sn_members s = ordered_members d
      ∧ as_generation (sn_assignment s) = rd_generation d
      ∧ ∀ vb, vb ∈ as_vbuckets (sn_assignment s) ↔
          chunk_start (rd_vbucket_count d) (len (ordered_members d)) i ≤ vb
          < chunk_start (rd_vbucket_count d) (len (ordered_members d)) (i + 1)
  | Err e => e = MFenced (mi_member_id identity)
      ∧ ∀ m, rd_members d !! mi_member_id identity = Some m →
          rm_incarnation m ≠ mi_incarnation identity
  | Panic => False
  end.
Proof.
  intros Hd. pose proof Hd as (_ & Hc & _ & Hsz & _). unfold snapshot.
  rewrite registry_validate_valid by done. pose proof (own_member_spec identity d) as Hown.
  destruct (own_member identity d) as [m|e|]; [|done..]. destruct Hown as [Hm Hi].
  destruct (position_elem (mi_member_id identity) (ordered_members d)) as [i Hp].
  { apply ordered_members_elem; [done|]. by eexists. }
  rewrite Hp. cbn [fmap option_fmap option_map ok_or].
  destruct (position_spec _ _ _ Hp) as (_ & _ & _ & Hr).
  assert (len (ordered_members d) = Z.of_nat (size (rd_members d))) as Hlen
    by (unfold len; by rewrite length_ordered_members).
  destruct (balanced_ok (rd_vbucket_count d) (len (ordered_members d)) Hc ltac:(lia)
    (rd_generation d) (i + 1) ltac:(lia)) as (a & Ha & Hg & Hvb).
  rewrite Ha. cbn [map_err]. exists i. split_and!; try done; [lia..| |].
  - by exists m.
  - intros vb. cbn [sn_assignment]. rewrite Hvb. by replace (i + 1 - 1) with i by lia.
Qed.

(** Two members of one view never own a vBucket together, and their generations agree on
    who owns what. *)
Lemma snapshots_disjoint d d' i i' s s' :
  doc_valid d → doc_valid d' → rd_vbucket_count d = rd_vbucket_count d' → view d = view d' →
  snapshot i d = Ok s → snapshot i' d' = Ok s' → mi_member_id i ≠ mi_member_id i' →
  as_vbuckets (sn_assignment s) ## as_vbuckets (sn_assignment s').
Proof.
  intros Hd Hd' Hcount Hv Hs Hs' Hne.
  pose proof (snapshot_spec i d Hd) as H1. rewrite Hs in H1.
  pose proof (snapshot_spec i' d' Hd') as H2. rewrite Hs' in H2.
  destruct H1 as (p & Hp & Hpr & _ & _ & _ & Hvb), H2 as (p' & Hp' & Hpr' & _ & _ & _ & Hvb').
  pose proof (order_keys_view d d' Hd Hd' Hv) as Hk.
  rewrite <-(position_keys _ _ _ Hk) in Hp'.
  assert (len (ordered_members d') = len (ordered_members d)) as Hlen.
  { unfold len. rewrite <-(length_fmap order_key (ordered_members d')), <-Hk.
    by rewrite length_fmap. }
  assert (p ≠ p') as Hpp.
  { intros <-. apply position_spec in Hp as (m & Hm & Hid & _).
    apply position_spec in Hp' as (m' & Hm' & Hid' & _). congruence. }
  pose proof Hd as (_ & Hc & _ & Hsz & _).
  assert (len (ordered_members d) = Z.of_nat (size (rd_members d))) as Hl
    by (unfold len; by rewrite length_ordered_members).
  apply elem_of_disjoint. intros vb Hin%Hvb Hin'%Hvb'. rewrite Hlen in Hin', Hpr'. rewrite <-Hcount in Hin'.
  set (n := len (ordered_members d)) in *.
  assert (1 ≤ n ≤ rd_vbucket_count d) as Hn by lia.
  destruct (Z.lt_trichotomy p p') as [Hlt|[?|Hgt]]; [|done|].
  - pose proof (chunk_start_mono (rd_vbucket_count d) n Hc Hn (p + 1) p'). lia.
  - pose proof (chunk_start_mono (rd_vbucket_count d) n Hc Hn (p' + 1) p). lia.
Qed.

(** The members of one document own every vBucket together. *)
Lemma snapshots_cover d vb :
  doc_valid d → rd_members d ≠ ∅ → 0 ≤ vb < rd_vbucket_count d →
  ∃ i s, snapshot i d = Ok s ∧ vb ∈ as_vbuckets (sn_assignment s).
Proof.
  intros Hd Hne Hvb. pose proof Hd as (_ & Hc & _ & Hsz & Hf).
  assert (len (ordered_members d) = Z.of_nat (size (rd_members d))) as Hl
    by (unfold len; by rewrite length_ordered_members).
  set (n := len (ordered_members d)) in *.
  assert (size (rd_members d) ≠ 0%nat) by (by intros ?%map_size_empty_inv).
  assert (1 ≤ n ≤ rd_vbucket_count d) as Hn by lia.
  destruct (chunk_cover (rd_vbucket_count d) n Hc Hn vb (length (ordered_members d))) as (p & Hp & Hin).
  { unfold n, len. lia. }
  { fold n. change (Z.of_nat (length (ordered_members d))) with n.
    by rewrite chunk_start_total. }
  destruct (lookup_lt_is_Some_2 (ordered_members d) (Z.to_nat p)) as [m Hm]; [lia|].
  assert (m ∈ ordered_members d) as Hmin by by apply list_elem_of_lookup_2 in Hm.
  destruct (proj1 (ordered_members_elem d (rm_member_id m) Hd)) as [m0 Hm0].
  { by apply list_elem_of_fmap_2. }
  assert (NoDup (rm_member_id <$> ordered_members d)) as Hnd.
  { unfold ordered_members. rewrite merge_sort_Permutation.
    replace (rm_member_id <$> (string_entries (rd_members d)).*2) with (string_entries (rd_members d)).*1;
      [rewrite string_entries_keys, merge_sort_Permutation; apply NoDup_elements|].
    rewrite <-list_fmap_compose. apply list_fmap_ext. intros j [k x] Hj.
    apply list_elem_of_lookup_2 in Hj. rewrite elem_of_string_entries in Hj.
    destruct (Hf _ _ Hj) as (_ & _ & Hk & _). done. }
  pose proof (snapshot_spec (mkIdentity (rm_member_id m) (rm_incarnation m0)) d Hd) as Hs.
  destruct (snapshot (mkIdentity (rm_member_id m) (rm_incarnation m0)) d) as [s|e|] eqn:Hsn; [| |done].
  - exists (mkIdentity (rm_member_id m) (rm_incarnation m0)), s. split; [done|].
    destruct Hs as (p' & Hp' & Hpr & _ & _ & _ & Hvs). cbn [mi_member_id] in Hp'.
    apply Hvs. assert (p' = p) as ->; [|done].
    apply position_spec in Hp' as (m' & Hm' & Hid & ?).
    assert (Z.to_nat p' = Z.to_nat p) as Hq; [|lia].
    apply (NoDup_lookup _ _ _ (rm_member_id m) Hnd); rewrite list_lookup_fmap, ?Hm, ?Hm'; cbn; congruence.
  - destruct Hs as [_ Hs]. cbn in Hs. by specialize (Hs m0 Hm0).
Qed.
