(* ===== verification/MembershipRuntime.v ===== *)
(** * Group membership: the runtime
      ([rust-dcp-membership-couchbase/src/runtime.rs] and [store.rs])

    The compare-and-swap loop around the registry document, the renewal task, and the KV
    operations of the built-in store.  Then the group as a transition system: any number of
    processes load, compute and conditionally write the shared document in any
    interleaving.  The JSON codec of documents is a pair of parameters. *)
From S2P Require Import Prelude Text Types Frame Codec Dcp Command Errors Checkpoint Assignment.
From S2P Require Import Config Async Transport Topology Cccp Settings Stream Bootstrap.
From S2P Require Import Collections.
From S2P Require Import Membership.

(** ** Configuration *)
Definition REGISTRY_KEY_PREFIX : string := "rust-dcp:membership:v1:".

Record CouchbaseMembershipConfig : Type := mkMembershipConfig {
  mg_group : string;
  mg_identity : MemberIdentity;
  mg_vbucket_count : Z;
  mg_heartbeat_interval : Duration;
  mg_monitor_interval : Duration;
  mg_stale_after : Duration;
  mg_rebalance_delay : Duration;
  mg_operation_timeout : Duration;
  mg_max_cas_attempts : nat
}.

Definition registry_key (c : CouchbaseMembershipConfig) : string :=
  REGISTRY_KEY_PREFIX +:+ mg_group c.

(** [as_millis] drops the fraction. *)
Definition duration_millis (d : Duration) (kind : string) : mresult Z :=
  ok_or (try_from u64_max (d / 1000000))
    (MConfiguration (kind +:+ " cannot be represented in milliseconds: " +:+ try_from_int_error)).

Definition membership_config_validate (c : CouchbaseMembershipConfig) : mresult unit :=
  if bool_decide (mg_group c = "") || negb (forallb is_ascii_graphic (as_bytes (mg_group c)))
     || (250 <? str_len (registry_key c)) then
    Err (MConfiguration
      "membership group must produce a registry key of at most 250 visible ASCII bytes")
  else
    let? stale_after_millis := duration_millis (mg_stale_after c) "stale timeout" in
    do? registry_document_new (mg_vbucket_count c) stale_after_millis in
    if mg_heartbeat_interval c =? 0 then
      Err (MConfiguration "heartbeat interval must be greater than zero")
    else if mg_monitor_interval c =? 0 then
      Err (MConfiguration "monitor interval must be greater than zero")
    else if mg_operation_timeout c =? 0 then
      Err (MConfiguration "operation timeout must be greater than zero")
    else if mg_stale_after c <=? mg_heartbeat_interval c then
      Err (MConfiguration "stale timeout must be greater than the heartbeat interval")
    else Ok tt.

Definition membership_config_new (group : string) (identity : MemberIdentity)
    (vbucket_count : Z) : mresult CouchbaseMembershipConfig :=
  let config := mkMembershipConfig group identity vbucket_count (from_secs 10) (from_secs 30)
    (from_secs 70) (from_secs 30) (from_secs 30) 16 in
  do? membership_config_validate config in
  Ok config.

(** ** The store contract *)
Record StoredRegistryDocument : Type := mkStored {
  sr_value : bytes;
  sr_cas : Z
}.

Inductive StoreWriteResult : Type := Stored | Conflict.
#[export] Instance StoreWriteResult_eq_dec : EqDecision StoreWriteResult.
Proof. solve_decision. Defined.

(** ** [mutate_registry] *)
Inductive RegistryAction : Type := ActRegister | ActHeartbeat | ActMonitor | ActRemove.

Section Runtime.
Context (from_slice : bytes → string + RegistryDocument)
        (to_vec : RegistryDocument → string + bytes).

Definition apply_action (action : RegistryAction) (identity : MemberIdentity) (now : Z)
    (registry : RegistryDocument) : mresult (RegistryDocument * option MembershipSnapshot) :=
  match action with
  | ActRegister =>
      let? pruned := prune_stale now registry in
      let? registry := register identity now pruned.2 in
      let? s := snapshot identity registry in
      Ok (registry, Some s)
  | ActHeartbeat =>
      let? registry := heartbeat identity now registry in
      let? s := snapshot identity registry in
      Ok (registry, Some s)
  | ActMonitor =>
      let? registry := heartbeat identity now registry in
      let? pruned := prune_stale now registry in
      let? s := snapshot identity pruned.2 in
      Ok (pruned.2, Some s)
  | ActRemove =>
      let? removed := registry_remove identity registry in
      Ok (removed.2, None)
  end.

(** The document an attempt starts from. *)
Definition load_registry (config : CouchbaseMembershipConfig) (action : RegistryAction)
    (stale_after_millis : Z) (stored : option StoredRegistryDocument)
    : mresult RegistryDocument :=
  match stored with
  | Some stored =>
      match from_slice (sr_value stored) with
      | inl error => Err (MJson error)
      | inr registry =>
          do? validate_settings registry (mg_vbucket_count config) stale_after_millis in
          Ok registry
      end
  | None =>
      match action with
      | ActRegister => registry_document_new (mg_vbucket_count config) stale_after_millis
      | _ => Err (MFenced (mi_member_id (mg_identity config)))
      end
  end.

(** An attempt up to its write: nothing to write, or a conditional write. *)
Inductive Attempt : Type :=
| AttemptUnchanged (s : option MembershipSnapshot)
| AttemptWrite (registry : RegistryDocument) (value : bytes) (cas : option Z)
    (s : option MembershipSnapshot).

Definition attempt_begin (config : CouchbaseMembershipConfig) (action : RegistryAction)
    (stale_after_millis : Z) (stored : option StoredRegistryDocument) (now : mresult Z)
    : mresult Attempt :=
  let? before := load_registry config action stale_after_millis stored in
  let? now := now in
  let? applied := apply_action action (mg_identity config) now before in
  let '(registry, s) := applied in
  if bool_decide (registry = before) then Ok (AttemptUnchanged s)
  else
    match to_vec registry with
    | inl error => Err (MJson error)
    | inr value => Ok (AttemptWrite registry value (sr_cas <$> stored) s)
    end.

(** What an attempt meets: the loaded revision, the clock and the write's reply. *)
Record AttemptEnv : Type := mkAttemptEnv {
  ae_load : mresult (option StoredRegistryDocument);
  ae_now : mresult Z;
  ae_write : mresult StoreWriteResult
}.

(** [None] is a loop that is still waiting when its environment ends. *)
Fixpoint mutate_attempts (attempts : nat) (config : CouchbaseMembershipConfig)
    (action : RegistryAction) (stale_after_millis : Z) (env : list AttemptEnv)
    : option (mresult (option MembershipSnapshot)) :=
  match attempts, env with
  | O, _ =>
      Some (Err (MStore ("membership CAS conflicted for all "
        +:+ pretty (Z.of_nat (mg_max_cas_attempts config)) +:+ " attempts")))
  | S _, [] => None
  | S attempts, e :: env =>
      match (let? stored := ae_load e in
             attempt_begin config action stale_after_millis stored (ae_now e)) with
      | Err error => Some (Err error)
      | Panic => Some Panic
      | Ok (AttemptUnchanged s) => Some (Ok s)
      | Ok (AttemptWrite _ _ _ s) =>
          match ae_write e with
          | Err error => Some (Err error)
          | Panic => Some Panic
          | Ok Stored => Some (Ok s)
          | Ok Conflict => mutate_attempts attempts config action stale_after_millis env
          end
      end
  end.

Definition mutate_registry_without_timeout (config : CouchbaseMembershipConfig)
    (action : RegistryAction) (env : list AttemptEnv)
    : option (mresult (option MembershipSnapshot)) :=
  match duration_millis (mg_stale_after config) "stale timeout" with
  | Err error => Some (Err error)
  | Panic => Some Panic
  | Ok stale_after_millis =>
      mutate_attempts (mg_max_cas_attempts config) config action stale_after_millis env
  end.

Definition mutate_registry (config : CouchbaseMembershipConfig) (action : RegistryAction)
    (env : list AttemptEnv) : mresult (option MembershipSnapshot) :=
  default (Err (MTimeout (mg_operation_timeout config)))
    (mutate_registry_without_timeout config action env).

(** ** [run_membership] *)
Definition is_transient_runtime_error (e : CouchbaseMembershipError) : bool :=
  match e with MDcp _ | MTimeout _ | MStore _ => true | _ => false end.

(** The branch a round takes: cancellation, or a tick whose action completes at [at_time]. *)
Inductive MembershipEvent : Type :=
| MemberCancel
| MemberTick (action : RegistryAction) (env : list AttemptEnv) (at_time : Z).

(** [send_replace] only when the assignment changed. *)
Definition publish (s : option MembershipSnapshot) (current : MembershipSnapshot)
    : MembershipSnapshot :=
  match s with
  | Some s => if bool_decide (sn_assignment current = sn_assignment s) then current else s
  | None => current
  end.

(** The result, when the task ends, and the snapshot published last. *)
Fixpoint run_membership (config : CouchbaseMembershipConfig) (remove_env : list AttemptEnv)
    (events : list MembershipEvent) (current : MembershipSnapshot)
    (last_successful_renewal : Z) : option (mresult unit) * MembershipSnapshot :=
  match events with
  | [] => (None, current)
  | MemberCancel :: _ =>
      (Some (let? s := mutate_registry config ActRemove remove_env in Ok tt), current)
  | MemberTick action env at_time :: events =>
      match mutate_registry config action env with
      | Ok s => run_membership config remove_env events (publish s current) at_time
      | Err error =>
          if is_transient_runtime_error error then
            let idle_for := at_time - last_successful_renewal in
            if mg_stale_after config <=? idle_for then
              (Some (Err (MLeaseExpired idle_for (membership_error_to_string error))), current)
            else run_membership config remove_env events current last_successful_renewal
          else (Some (Err error), current)
      | Panic => (Some Panic, current)
      end
  end.

(** ** [close]

    The state behind the task's mutex: the handle, as what joining it yields (a task that
    panicked joins with an error, whose text is [join_error]), and the remembered outcome. *)
Record TaskState : Type := mkTaskState {
  ts_handle : option (mresult unit);
  ts_terminal : option (string + unit)
}.

Definition membership_close (join_error : string) (t : TaskState) : mresult unit * TaskState :=
  match ts_terminal t with
  | Some (inr _) => (Ok tt, t)
  | Some (inl message) => (Err (MTask message), t)
  | None =>
      match ts_handle t with
      | None => (Ok tt, t)
      | Some joined =>
          let result := match joined with Panic => Err (MTask join_error) | r => r end in
          (result,
           mkTaskState None (Some match result with
                                  | Err error => inl (membership_error_to_string error)
                                  | _ => inr tt
                                  end))
      end
  end.

(** [with_store]: the first registration, the task that runs while the group settles, the
    second registration, published over what the task published, and the check that the
    task is still alive. *)
Definition membership_start (config : CouchbaseMembershipConfig) (join_error : string)
    (first second : list AttemptEnv) (settling : list MembershipEvent)
    (remove_env : list AttemptEnv) (start_time : Z) : mresult MembershipSnapshot :=
  do? membership_config_validate config in
  let? initial := mutate_registry config ActRegister first in
  let? initial := ok_or initial
    (MStore "registration did not produce a membership snapshot") in
  let '(finished, current) := run_membership config remove_env settling initial start_time in
  let? refreshed := mutate_registry config ActRegister second in
  do? match finished with
      | Some joined => (membership_close join_error (mkTaskState (Some joined) None)).1
      | None => Ok tt
      end in
  Ok (publish refreshed current).
End Runtime.

(** ** The built-in KV store ([store.rs]) *)
Definition MAX_DOCUMENT_KEY_LEN : Z := 250.
Definition JSON_DATATYPE : Z := 1.

Inductive KvOperation : Type :=
| KvLoad
| KvCreate (value : bytes)
| KvReplace (value : bytes) (cas : Z).

Inductive KvResult : Type :=
| KvLoaded (d : option StoredRegistryDocument)
| KvWritten (r : StoreWriteResult).

Definition kv_request (op : KvOperation) (key : string) (collection_id : option Z)
    (vbucket datatype : Z) : Frame :=
  match op with
  | KvLoad => get_document (as_bytes key) collection_id vbucket 0
  | KvCreate value =>
      store_document (mkDocumentStoreRequest StoreAdd (as_bytes key) value collection_id vbucket
                        0 0 datatype 0 0)
  | KvReplace value cas =>
      store_document (mkDocumentStoreRequest StoreReplace (as_bytes key) value collection_id
                        vbucket 0 0 datatype cas 0)
  end.

Definition kv_server_status (response : Frame) (context : string) : CouchbaseMembershipError :=
  MDcp (DcpServerStatus (status response) (opcode response)
    (context +:+ ": " +:+ from_utf8_lossy (value response))).

Definition kv_parse_response (op : KvOperation) (response : Frame) : mresult KvResult :=
  let st := status response in
  match op with
  | KvLoad =>
      if st =? STATUS_SUCCESS then
        Ok (KvLoaded (Some (mkStored (value response) (cas response))))
      else if st =? STATUS_KEY_NOT_FOUND then Ok (KvLoaded None)
      else Err (kv_server_status response "membership registry load")
  | KvCreate _ =>
      if st =? STATUS_SUCCESS then Ok (KvWritten Stored)
      else if st =? STATUS_KEY_EXISTS then Ok (KvWritten Conflict)
      else Err (kv_server_status response "membership registry create")
  | KvReplace _ _ =>
      if st =? STATUS_SUCCESS then Ok (KvWritten Stored)
      else if (st =? STATUS_KEY_EXISTS) || (st =? STATUS_KEY_NOT_FOUND) then
        Ok (KvWritten Conflict)
      else Err (kv_server_status response "membership registry CAS replace")
  end.

Definition validate_response_envelope (response : Frame) (expected : Opcode) : mresult unit :=
  if negb (magic_is_response (magic response)) then
    Err (MDcp (Protocol (MalformedFrame ("membership KV response used request magic 0x"
      +:+ hex_pad2 (magic_as_u8 (magic response))))))
  else if negb (opcode response =? expected) then
    Err (MDcp (Protocol (MalformedFrame ("membership KV response opcode 0x"
      +:+ hex_pad2 (opcode response) +:+ " does not match request 0x" +:+ hex_pad2 expected))))
  else Ok tt.

Definition validate_document_key (key : string) : mresult unit :=
  if bool_decide (key = "") || (MAX_DOCUMENT_KEY_LEN <? str_len key)
     || negb (forallb is_ascii_graphic (as_bytes key)) then
    Err (MConfiguration ("registry document key must contain 1..="
      +:+ pretty MAX_DOCUMENT_KEY_LEN +:+ " visible ASCII bytes"))
  else Ok tt.

Definition store_validate_collection_name (kind value : string) : mresult unit :=
  if bool_decide (value = "") || (251 <? str_len value)
     || negb (forallb is_collection_char (as_bytes value)) then
    Err (MConfiguration ("registry " +:+ kind
      +:+ " contains a character unsupported by Couchbase Collections"))
  else Ok tt.

Record CouchbaseRegistryCollection : Type := mkRegistryCollection {
  cc_scope : string;
  cc_collection : string
}.
Definition registry_collection_new (scope collection : string)
    : mresult CouchbaseRegistryCollection :=
  do? store_validate_collection_name "scope" scope in
  do? store_validate_collection_name "collection" collection in
  Ok (mkRegistryCollection scope collection).
Definition registry_collection_default : CouchbaseRegistryCollection :=
  mkRegistryCollection "_default" "_default".
Definition registry_collection_is_default (c : CouchbaseRegistryCollection) : bool :=
  bool_decide (cc_scope c = "_default") && bool_decide (cc_collection c = "_default").

Record CouchbaseKvMembershipStore : Type := mkKvMembershipStore {
  km_config : DcpConfig;
  km_collection : CouchbaseRegistryCollection;
  km_routing_attempts : nat
}.
Definition kv_store_in_collection (config : DcpConfig) (collection : CouchbaseRegistryCollection)
    : mresult CouchbaseKvMembershipStore :=
  do? map_err MDcp (config_validate config) in
  Ok (mkKvMembershipStore config collection 3).
Definition kv_store_new (config : DcpConfig) : mresult CouchbaseKvMembershipStore :=
  kv_store_in_collection config registry_collection_default.

(** The sessions bootstrapping yields in one routing attempt: at the seed, and at the
    active node. *)
Record RoutingEnv : Type := mkRoutingEnv {
  re_seed : result KvSession;
  re_node : result KvSession
}.

Section KvStore.
Context `{Snappy} (cccp_from_slice : bytes → string + RawBucketConfig) (crc32 : bytes → Z).

(** Sequencing of connection code inside store code; [None] is an await that never ends. *)
Definition run_io {A B} (m : io KvConnection A) (c : KvConnection)
    (k : A → KvConnection → option (mresult B)) : option (mresult B) :=
  match m c with
  | (Done (Ok a), c') => k a c'
  | (Done (Err e), _) => Some (Err (MDcp e))
  | (Done Panic, _) => Some Panic
  | (Hang, _) => None
  end.
Definition run_res {A B} (r : mresult A) (k : A → option (mresult B)) : option (mresult B) :=
  match r with Ok a => k a | Err e => Some (Err e) | Panic => Some Panic end.

(** [self.resolve_collection_id]: the default collection needs no query. *)
Definition registry_collection_id (collection : CouchbaseRegistryCollection) (supported : bool)
    : io KvConnection (option Z) :=
  if negb supported then
    if registry_collection_is_default collection then io_ret None
    else io_lift (Err (Unsupported ("registry collection " +:+ cc_scope collection +:+ "."
           +:+ cc_collection collection +:+ " requires Couchbase Collections")))
  else if registry_collection_is_default collection then io_ret (Some 0)
  else
    let! id := resolve_collection_id (cc_scope collection) (cc_collection collection) in
    io_ret (Some (ci_collection_id id)).

(** One routing attempt; [Ok None] is [NOT_MY_VBUCKET]. *)
Definition kv_attempt (config : DcpConfig) (collection : CouchbaseRegistryCollection)
    (key : string) (op : KvOperation) (env : RoutingEnv)
    : option (mresult (option KvResult)) :=
  run_res (map_err MDcp (re_seed env)) (λ seed,
  run_io (registry_collection_id collection (supports (ks_capabilities seed) HfCollections))
    (ks_connection seed) (λ collection_id connection,
  run_io (discover_topology cccp_from_slice (dc_bucket config) (tls_enabled (dc_tls config))
            (dc_network config)) connection (λ topology _,
  run_res (map_err MDcp (couchbase_vbucket_for_key crc32 (as_bytes key)
            (Z.of_nat (size (ct_vbuckets topology))))) (λ vbucket,
  run_res (map_err MDcp (active_endpoint topology vbucket)) (λ endpoint,
  run_res (map_err MDcp (seed_from_str (ep_address endpoint))) (λ _,
  run_res (map_err MDcp (re_node env)) (λ node,
  if bool_decide (is_Some collection_id)
     && negb (supports (ks_capabilities node) HfCollections) then
    Some (Err (MDcp (Unsupported
      "registry collection requires Couchbase Collections on the active KV node")))
  else
    let datatype := if supports (ks_capabilities node) HfJson then JSON_DATATYPE else 0 in
    let request := kv_request op key collection_id vbucket datatype in
    run_io (conn_request request) (ks_connection node) (λ response _,
    run_res (validate_response_envelope response (opcode request)) (λ _,
    if status response =? STATUS_NOT_MY_VBUCKET then Some (Ok None)
    else run_res (kv_parse_response op response) (λ r, Some (Ok (Some r)))))))))))).

Fixpoint kv_attempts (attempts : nat) (routing_attempts : Z) (config : DcpConfig)
    (collection : CouchbaseRegistryCollection) (key : string) (op : KvOperation)
    (env : list RoutingEnv) : option (mresult KvResult) :=
  match attempts, env with
  | O, _ => Some (Err (MStore ("active vBucket owner changed during all "
              +:+ pretty routing_attempts +:+ " routing attempts")))
  | S _, [] => None
  | S attempts, e :: env =>
      match kv_attempt config collection key op e with
      | None => None
      | Some (Err error) => Some (Err error)
      | Some Panic => Some Panic
      | Some (Ok (Some r)) => Some (Ok r)
      | Some (Ok None) => kv_attempts attempts routing_attempts config collection key op env
      end
  end.

Definition kv_execute (routing_attempts : nat) (config : DcpConfig)
    (collection : CouchbaseRegistryCollection) (key : string) (op : KvOperation)
    (env : list RoutingEnv) : option (mresult KvResult) :=
  run_res (validate_document_key key) (λ _,
  kv_attempts routing_attempts (Z.of_nat routing_attempts) config collection key op env).

(** [MembershipStore for CouchbaseKvMembershipStore] *)
Definition kv_load (routing_attempts : nat) (config : DcpConfig)
    (collection : CouchbaseRegistryCollection) (key : string) (env : list RoutingEnv)
    : option (mresult (option StoredRegistryDocument)) :=
  match kv_execute routing_attempts config collection key KvLoad env with
  | None => None
  | Some r => Some (let? r := r in match r with
      | KvLoaded d => Ok d
      | KvWritten _ => Err (MStore "KV load returned a write result")
      end)
  end.
Definition kv_create (routing_attempts : nat) (config : DcpConfig)
    (collection : CouchbaseRegistryCollection) (key : string) (value : bytes)
    (env : list RoutingEnv) : option (mresult StoreWriteResult) :=
  match kv_execute routing_attempts config collection key (KvCreate value) env with
  | None => None
  | Some r => Some (let? r := r in match r with
      | KvWritten w => Ok w
      | KvLoaded _ => Err (MStore "KV create returned a load result")
      end)
  end.
Definition kv_replace (routing_attempts : nat) (config : DcpConfig)
    (collection : CouchbaseRegistryCollection) (key : string) (value : bytes) (cas : Z)
    (env : list RoutingEnv) : option (mresult StoreWriteResult) :=
  match kv_execute routing_attempts config collection key (KvReplace value cas) env with
  | None => None
  | Some r => Some (let? r := r in match r with
      | KvWritten w => Ok w
      | KvLoaded _ => Err (MStore "KV replace returned a load result")
      end)
  end.
End KvStore.
