(* ===== verification/MembershipSpec.v ===== *)
(** * Group membership: the group as a transition system

    Any number of processes run [mutate_registry] against one document.  A process loads
    the current revision, computes ([attempt_begin]) and writes conditionally; the writes
    of other processes come in between as they like.  A write succeeds exactly when the
    revision is still the loaded one and then gets a new compare-and-swap token, which is
    the contract of [MembershipStore].  A reply can be lost after the write took effect.
    The document is not deleted behind the group's back. *)
From S2P Require Import Prelude Text Types Errors Assignment Membership MembershipRuntime.

(** ** Lemmas: actions *)

Lemma snapshot_own identity d s :
  doc_valid d → snapshot identity d = Ok s →
  ∃ m, rd_members d !! mi_member_id identity = Some m ∧ rm_incarnation m = mi_incarnation identity.
Proof.
  intros Hd Hs. pose proof (snapshot_spec identity d Hd) as H. rewrite Hs in H.
  by destruct H as (i & _ & _ & Hm & _).
Qed.

Lemma live_evolves now id d d' :
  rd_stale_after_millis d' = rd_stale_after_millis d → keeps id d d' → live now id d →
  live now id d'.
Proof.
  intros Hst Hk (m & Hm & Hs). destruct (Hk m Hm) as (m' & Hm' & _ & _ & Hh).
  exists m'. split; [done|]. unfold is_stale in *. rewrite Hst. lia.
Qed.

Lemma keeps_trans id a b c : keeps id a b → keeps id b c → keeps id a c.
Proof.
  intros H1 H2 m Hm. destruct (H1 m Hm) as (m1 & Hm1 & ? & ? & ?).
  destruct (H2 m1 Hm1) as (m2 & Hm2 & ? & ? & ?). exists m2. split_and!; [done|congruence..|lia].
Qed.

Lemma keeps_prune now id d d' :
  (∀ m, rd_members d' !! id = Some m ↔
     rd_members d !! id = Some m ∧ is_stale m now (rd_stale_after_millis d) = false) →
  live now id d → keeps id d d'.
Proof.
  intros Hp (m & Hm & Hs) m' Hm'. rewrite Hm in Hm'. injection Hm' as <-.
  exists m. rewrite Hp. by split_and!.
Qed.

Lemma keeps_eq id d d' : rd_members d' !! id = rd_members d !! id → keeps id d d'.
Proof. intros Heq m Hm. exists m. rewrite Heq. by split_and!. Qed.

(** An action of one member on a valid document. *)
Lemma apply_action_spec action identity now d :
  doc_valid d → identity_ok identity →
  match apply_action action identity now d with
  | Ok (d', s) => doc_valid d' ∧ evolves d d'
      ∧ (∀ s', s = Some s' → snapshot identity d' = Ok s')
      ∧ (∀ id, id ≠ mi_member_id identity → live now id d → keeps id d d')
  | Err _ => True
  | Panic => False
  end.
Proof.
  intros Hd Hi. destruct action; cbn [apply_action].
  - pose proof (prune_stale_spec now d Hd) as Hp.
    destruct (prune_stale now d) as [[n d1]|e|]; [|done..]. cbn [snd].
    destruct Hp as (Hd1 & He1 & Hm1 & _).
    pose proof (register_spec identity now d1 Hd1 Hi) as Hr.
    destruct (register identity now d1) as [d2|e|]; [|done..].
    destruct Hr as (Hd2 & He2 & _ & Hm2 & _).
    pose proof (snapshot_spec identity d2 Hd2) as Hs.
    destruct (snapshot identity d2) as [s|e|] eqn:Hsn; [|done..]. split_and!; [done|by etrans| |].
    + by intros ? [= <-].
    + intros id Hne Hl. assert (keeps id d d1) as Hk1 by (by apply (keeps_prune now)).
      eapply keeps_trans; [exact Hk1|]. by apply keeps_eq, Hm2.
  - pose proof (heartbeat_spec identity now d Hd) as Hh.
    destruct (heartbeat identity now d) as [d1|e|]; [|done..].
    destruct Hh as (Hd1 & He1 & _ & _ & Hk).
    pose proof (snapshot_spec identity d1 Hd1) as Hs.
    destruct (snapshot identity d1) as [s|e|] eqn:Hsn; [|done..]. split_and!; [done..| |].
    + by intros ? [= <-].
    + by intros.
  - pose proof (heartbeat_spec identity now d Hd) as Hh.
    destruct (heartbeat identity now d) as [d1|e|]; [|done..].
    destruct Hh as (Hd1 & He1 & _ & _ & Hk).
    pose proof (prune_stale_spec now d1 Hd1) as Hp.
    destruct (prune_stale now d1) as [[n d2]|e|]; [|done..]. cbn [snd].
    destruct Hp as (Hd2 & He2 & Hm2 & _).
    pose proof (snapshot_spec identity d2 Hd2) as Hs.
    destruct (snapshot identity d2) as [s|e|] eqn:Hsn; [|done..]. split_and!; [done|by etrans| |].
    + by intros ? [= <-].
    + intros id Hne Hl. eapply keeps_trans; [apply Hk|]. apply (keeps_prune now); [done|].
      apply (live_evolves now id d); [apply He1|apply Hk|done].
  - pose proof (registry_remove_spec identity d Hd) as Hr.
    destruct (registry_remove identity d) as [[b d1]|e|]; [|done..].
    destruct Hr as (Hd1 & He1 & _ & Hm1). split_and!; [done..|].
    intros id Hne _. by apply keeps_eq, Hm1.
Qed.

(** ** The transition system *)
Section Group.
Context (from_slice : bytes → string + RegistryDocument)
        (to_vec : RegistryDocument → string + bytes).

(** A conditional write that was sent but not yet served. *)
Record PendingWrite : Type := mkPendingWrite {
  pw_identity : MemberIdentity;
  pw_registry : RegistryDocument;
  pw_value : bytes;
  pw_cas : option Z;
  pw_snapshot : option MembershipSnapshot
}.

(** The stored revision, the last token, the writes in flight; and, as history, every
    document that was stored (newest first) and every snapshot a process obtained. *)
Record Group : Type := mkGroup {
  gr_store : option StoredRegistryDocument;
  gr_last_cas : Z;
  gr_pending : gmap nat PendingWrite;
  gr_docs : list RegistryDocument;
  gr_issued : list (MemberIdentity * MembershipSnapshot)
}.

Definition issue (i : MemberIdentity) (s : option MembershipSnapshot) (g : Group) : Group :=
  match s with
  | Some s => mkGroup (gr_store g) (gr_last_cas g) (gr_pending g) (gr_docs g)
                ((i, s) :: gr_issued g)
  | None => g
  end.
Definition with_pending (ps : gmap nat PendingWrite) (g : Group) : Group :=
  mkGroup (gr_store g) (gr_last_cas g) ps (gr_docs g) (gr_issued g).
(** The write takes effect under a new token. *)
Definition store_write (w : PendingWrite) (cas : Z) (g : Group) : Group :=
  mkGroup (Some (mkStored (pw_value w) cas)) cas (gr_pending g) (pw_registry w :: gr_docs g)
    (gr_issued g).

Definition member_config (c : CouchbaseMembershipConfig) (stale : Z) : Prop :=
  identity_ok (mg_identity c) ∧ 0 ≤ mg_vbucket_count c
  ∧ duration_millis (mg_stale_after c) "stale timeout" = Ok stale.

Inductive group_step : Group → Group → Prop :=
| gs_unchanged g config stale action now s :
    member_config config stale →
    attempt_begin from_slice to_vec config action stale (gr_store g) (Ok now)
      = Ok (AttemptUnchanged s) →
    group_step g (issue (mg_identity config) s g)
| gs_begin g p config stale action now registry value cas s :
    member_config config stale → gr_pending g !! p = None →
    attempt_begin from_slice to_vec config action stale (gr_store g) (Ok now)
      = Ok (AttemptWrite registry value cas s) →
    group_step g (with_pending
      (<[p := mkPendingWrite (mg_identity config) registry value cas s]> (gr_pending g)) g)
| gs_stored g p w cas :
    gr_pending g !! p = Some w → sr_cas <$> gr_store g = pw_cas w → gr_last_cas g < cas →
    group_step g (issue (pw_identity w) (pw_snapshot w)
      (store_write w cas (with_pending (delete p (gr_pending g)) g)))
| gs_stored_reply_lost g p w cas :
    gr_pending g !! p = Some w → sr_cas <$> gr_store g = pw_cas w → gr_last_cas g < cas →
    group_step g (store_write w cas (with_pending (delete p (gr_pending g)) g))
| gs_not_stored g p :
    group_step g (with_pending (delete p (gr_pending g)) g).

Definition group_empty : Group := mkGroup None 0 ∅ [] [].
Definition group_reachable (g : Group) : Prop := rtc group_step group_empty g.

(** *** The invariant *)
Definition store_ok (g : Group) : Prop :=
  match gr_store g with
  | None => gr_docs g = []
  | Some st => sr_cas st ≤ gr_last_cas g
      ∧ ∃ d ds, gr_docs g = d :: ds ∧ from_slice (sr_value st) = inr d
  end.

Definition write_ok (g : Group) (w : PendingWrite) : Prop :=
  doc_valid (pw_registry w) ∧ to_vec (pw_registry w) = inr (pw_value w)
  ∧ (∀ s, pw_snapshot w = Some s → snapshot (pw_identity w) (pw_registry w) = Ok s)
  ∧ match pw_cas w with
    | None => True
    | Some c => c ≤ gr_last_cas g
        ∧ ∀ st, gr_store g = Some st → sr_cas st = c →
            ∃ d ds, gr_docs g = d :: ds ∧ evolves d (pw_registry w)
    end.

Definition group_inv (g : Group) : Prop :=
  store_ok g
  ∧ Forall doc_valid (gr_docs g)
  ∧ StronglySorted (λ newer older, evolves older newer) (gr_docs g)
  ∧ (∀ p w, gr_pending g !! p = Some w → write_ok g w)
  ∧ ∀ i s, (i, s) ∈ gr_issued g → ∃ d, d ∈ gr_docs g ∧ snapshot i d = Ok s.

Hypothesis json_roundtrip : ∀ d b, to_vec d = inr b → from_slice b = inr d.

Lemma load_registry_spec config action stale g d :
  member_config config stale → group_inv g →
  load_registry from_slice config action stale (gr_store g) = Ok d →
  doc_valid d ∧ match gr_store g with
                | None => rd_members d = ∅
                | Some st => ∃ ds, gr_docs g = d :: ds
                end.
Proof using.
  intros (_ & Hc & _) (Hst & Hall & _). unfold load_registry, store_ok in *.
  destruct (gr_store g) as [st|].
  - destruct Hst as (_ & d0 & ds & Hdocs & Hfs). rewrite Hfs.
    destruct (validate_settings d0 _ _) as [[]|e|]; [|done..]. intros [= <-].
    rewrite Hdocs in Hall. inversion_clear Hall. split; [done|]. by exists ds.
  - destruct action; try done. unfold registry_document_new, validate_vbucket_count.
    destruct (_ || _) eqn:Hb; [done|]. destruct (Z.eqb_spec stale 0); [done|]. intros [= <-].
    split; [|done]. unfold doc_valid, max_vbucket_count. cbn.
    rewrite map_size_empty. split_and!; try lia; [idtac..].
    all: intros k m Hm; by rewrite lookup_empty in Hm.
Qed.

Lemma attempt_begin_spec config action stale g now a :
  member_config config stale → group_inv g →
  attempt_begin from_slice to_vec config action stale (gr_store g) (Ok now) = Ok a →
  ∃ before, load_registry from_slice config action stale (gr_store g) = Ok before
  ∧ match a with
    | AttemptUnchanged s =>
        ∀ s', s = Some s' → snapshot (mg_identity config) before = Ok s'
    | AttemptWrite registry value cas s =>
        doc_valid registry ∧ evolves before registry ∧ to_vec registry = inr value
        ∧ cas = sr_cas <$> gr_store g
        ∧ ∀ s', s = Some s' → snapshot (mg_identity config) registry = Ok s'
    end.
Proof using.
  intros Hc Hinv. unfold attempt_begin.
  destruct (load_registry _ _ _ _ _) as [before|e|] eqn:Hl; [|done..].
  destruct (load_registry_spec config action stale g before Hc Hinv Hl) as [Hd _].
  pose proof (apply_action_spec action (mg_identity config) now before Hd (proj1 Hc)) as Ha.
  destruct (apply_action _ _ _ _) as [[registry s]|e|]; [|done..].
  destruct Ha as (Hv & He & Hs & _). case_bool_decide as Heq.
  - intros [= <-]. subst registry. by exists before.
  - destruct (to_vec registry) as [e|value] eqn:Hj; [done|]. intros [= <-].
    exists before. by split_and!.
Qed.

Lemma issue_inv i s g d :
  d ∈ gr_docs g → (∀ s', s = Some s' → snapshot i d = Ok s') → group_inv g →
  group_inv (issue i s g).
Proof using.
  intros Hd Hs (H1 & H2 & H3 & H4 & H5). destruct s as [s|]; [|done].
  split_and!; [done..|]. intros i' s'. cbn. intros [[= -> ->]|Hin]%elem_of_cons; [|by apply H5].
  exists d. split; [done|]. by apply Hs.
Qed.

Lemma pending_delete_inv p g :
  group_inv g → group_inv (with_pending (delete p (gr_pending g)) g).
Proof using.
  intros (H1 & H2 & H3 & H4 & H5). split_and!; [done..| |done].
  intros q w. cbn. intros [_ Hq]%lookup_delete_Some. by apply (H4 q).
Qed.

Lemma store_write_inv p w cas g :
  group_inv g → gr_pending g !! p = Some w → sr_cas <$> gr_store g = pw_cas w →
  gr_last_cas g < cas →
  group_inv (store_write w cas (with_pending (delete p (gr_pending g)) g)).
Proof using json_roundtrip.
  intros (H1 & H2 & H3 & H4 & H5) Hp Hcas Hlt.
  destruct (H4 p w Hp) as (Hv & Hj & Hs & Hc).
  assert (Forall (λ d, evolves d (pw_registry w)) (gr_docs g)) as Hev.
  { unfold store_ok in H1. destruct (gr_store g) as [st|] eqn:Hst; [|rewrite H1; constructor].
    rewrite <-Hcas in Hc. cbn in Hc. destruct Hc as [_ Hc].
    destruct (Hc st eq_refl eq_refl) as (d & ds & Hdocs & He). rewrite Hdocs in H3 |- *.
    inversion_clear H3 as [|?? _ Hall]. constructor; [done|].
    eapply Forall_impl; [exact Hall|]. intros x Hx. cbn beta in Hx. by etrans. }
  split_and!.
  - cbn. split; [lia|]. exists (pw_registry w), (gr_docs g). split; [done|]. by apply json_roundtrip.
  - by constructor.
  - cbn. constructor; [done|exact Hev].
  - intros q w' Hq. cbn in Hq. apply lookup_delete_Some in Hq as [_ Hq].
    destruct (H4 q w' Hq) as (Hv' & Hj' & Hs' & Hc'). split_and!; [done..|].
    destruct (pw_cas w') as [c|]; [|done]. destruct Hc' as [Hle _]. cbn. split; [lia|].
    intros st [= <-] Heq. cbn in Heq. lia.
  - intros i s Hin. destruct (H5 i s Hin) as (d & Hd & Hsn). exists d. split; [by right|done].
Qed.

Lemma group_step_inv g g' : group_inv g → group_step g g' → group_inv g'.
Proof using json_roundtrip.
  intros Hinv Hstep. inversion Hstep; subst; clear Hstep.
  - destruct (attempt_begin_spec _ _ _ _ _ _ H Hinv H0) as (before & Hl & Hs).
    destruct (load_registry_spec _ _ _ _ _ H Hinv Hl) as [Hd Hdoc].
    destruct s as [s|]; [|done]. specialize (Hs s eq_refl).
    destruct (gr_store g) as [st|].
    + destruct Hdoc as [ds Hdocs]. apply (issue_inv _ _ _ before); [|by intros ? [= <-]|done].
      rewrite Hdocs. left.
    + exfalso. destruct (snapshot_own _ _ _ Hd Hs) as (m & Hm & _). by rewrite Hdoc in Hm.
  - destruct (attempt_begin_spec _ _ _ _ _ _ H Hinv H1) as (before & Hl & Hv & He & Hj & -> & Hs).
    destruct (load_registry_spec _ _ _ _ _ H Hinv Hl) as [Hd Hdoc].
    destruct Hinv as (I1 & I2 & I3 & I4 & I5). split_and!; [done..| |done].
    intros q w. cbn. intros [[<- <-]|[_ Hq]]%lookup_insert_Some; [|by apply (I4 q)].
    split_and!; [done..|]. cbn. unfold store_ok in I1.
    destruct (gr_store g) as [st|]; [|done]. cbn. destruct I1 as [Hle _]. split; [done|].
    intros st' [= <-] _. destruct Hdoc as [ds Hdocs]. by exists before, ds.
  - apply (issue_inv _ _ _ (pw_registry w)); [left| |by eapply store_write_inv].
    destruct Hinv as (_ & _ & _ & I4 & _). by destruct (I4 p w H) as (_ & _ & ? & _).
  - by eapply store_write_inv.
  - by apply pending_delete_inv.
Qed.

Lemma group_reachable_inv g : group_reachable g → group_inv g.
Proof using json_roundtrip.
  intros Hr. unfold group_reachable in Hr. remember group_empty as g0 eqn:H0.
  assert (group_inv g0) as Hi.
  { subst. split_and!; [done|constructor|constructor| |]; cbn.
    - intros p w Hp. by rewrite lookup_empty in Hp.
    - by intros i s ?%elem_of_nil. }
  clear H0. induction Hr as [g|x y z Hxy _ IH]; [done|]. apply IH. by eapply group_step_inv.
Qed.

(** Documents of one generation show the same view. *)
Lemma same_generation_view g d d' :
  group_inv g → d ∈ gr_docs g → d' ∈ gr_docs g → rd_generation d = rd_generation d' →
  rd_vbucket_count d = rd_vbucket_count d' ∧ view d = view d'.
Proof using.
  intros (_ & _ & Hs & _) Hd Hd' Hg.
  assert (evolves d d' ∨ evolves d' d) as [He|He].
  { clear Hg. induction Hs as [|x l Hl IH Hx]; [by apply elem_of_nil in Hd|].
    rewrite Forall_forall in Hx.
    apply elem_of_cons in Hd as [-> |Hd], Hd' as [-> |Hd']; [by left|by right; apply Hx|by left; apply Hx|by apply IH]. }
  - destruct He as (Hc & _ & _ & Hv). split; [done|]. by apply Hv.
  - destruct He as (Hc & _ & _ & Hv). split; [done|]. symmetry. by apply Hv.
Qed.

(** C15: the generation fence of group membership.  However the processes of a group
    interleave their loads and conditional writes, with replies lost and incarnations
    replaced, two snapshots that carry the same generation and belong to different members
    never own a vBucket together. *)
Theorem membership_exclusive g i s i' s' :
  group_reachable g → (i, s) ∈ gr_issued g → (i', s') ∈ gr_issued g →
  as_generation (sn_assignment s) = as_generation (sn_assignment s') →
  mi_member_id i ≠ mi_member_id i' →
  as_vbuckets (sn_assignment s) ## as_vbuckets (sn_assignment s').
Proof using json_roundtrip.
  intros Hr Hi Hi' Hg Hne. apply group_reachable_inv in Hr as Hinv.
  pose proof Hinv as (_ & Hv & _ & _ & Hiss). rewrite Forall_forall in Hv.
  destruct (Hiss i s Hi) as (d & Hd & Hs). destruct (Hiss i' s' Hi') as (d' & Hd' & Hs').
  pose proof (snapshot_spec i d (Hv d Hd)) as H1. rewrite Hs in H1.
  pose proof (snapshot_spec i' d' (Hv d' Hd')) as H2. rewrite Hs' in H2.
  destruct H1 as (_ & _ & _ & _ & _ & Hg1 & _), H2 as (_ & _ & _ & _ & _ & Hg2 & _).
  destruct (same_generation_view g d d' Hinv Hd Hd') as [Hc Hview]; [congruence|].
  by apply (snapshots_disjoint d d' i i'); auto.
Qed.

(** C35: the group covers the bucket.  Every snapshot a process obtained is derived from a
    document that was stored, whose members own every vBucket of the bucket between them;
    the snapshot names exactly those members. *)
Theorem membership_covers g i s :
  group_reachable g → (i, s) ∈ gr_issued g →
  ∃ d, d ∈ gr_docs g ∧ snapshot i d = Ok s ∧ sn_members s = ordered_members d
    ∧ as_generation (sn_assignment s) = rd_generation d
    ∧ ∀ vb, 0 ≤ vb < rd_vbucket_count d →
        ∃ i' s', snapshot i' d = Ok s' ∧ vb ∈ as_vbuckets (sn_assignment s').
Proof using json_roundtrip.
  intros Hr Hi. apply group_reachable_inv in Hr as (_ & Hv & _ & _ & Hiss).
  rewrite Forall_forall in Hv. destruct (Hiss i s Hi) as (d & Hd & Hs). exists d.
  pose proof (snapshot_spec i d (Hv d Hd)) as H1. rewrite Hs in H1.
  destruct H1 as (_ & _ & _ & (m & Hm & _) & Hms & Hg & _). split_and!; [done..|].
  intros vb Hvb. apply snapshots_cover; [by apply Hv| |done]. intros Hemp. by rewrite Hemp in Hm.
Qed.
End Group.

(** A live member keeps its place.  Whatever another member does to a valid document,
    registering, renewing, scanning for stale members or leaving, a member whose heartbeat
    is younger than the stale time-out stays registered with the same incarnation and join
    time; the document stays valid and its generation never goes back. *)
Lemma live_member_is_kept action identity now d d' s id :
  doc_valid d → identity_ok identity → apply_action action identity now d = Ok (d', s) →
  id ≠ mi_member_id identity → live now id d →
  keeps id d d' ∧ live now id d' ∧ doc_valid d' ∧ evolves d d'.
Proof.
  intros Hd Hi Ha Hne Hl. pose proof (apply_action_spec action identity now d Hd Hi) as Hs.
  rewrite Ha in Hs. destruct Hs as (Hv & He & _ & Hk).
  split_and!; [by apply Hk| |done..]. apply (live_evolves now id d); [apply He|by apply Hk|done].
Qed.
(** ** A concrete run: members "a" and "b" register and "a" renews *)
Definition wit_config (id : string) : CouchbaseMembershipConfig :=
  mkMembershipConfig "group" (mkIdentity id "1") 4 1000000000 1000000000 5000000000
    1000000000 1000000000 3.
Definition wit_a : RegistryMember := mkMember "a" "1" 10 10.
Definition wit_b : RegistryMember := mkMember "b" "1" 10 10.
Definition wit_doc1 : RegistryDocument :=
  mkRegistryDocument REGISTRY_SCHEMA_VERSION 4 5000 1 {[ "a" := wit_a ]}.
Definition wit_doc2 : RegistryDocument :=
  mkRegistryDocument REGISTRY_SCHEMA_VERSION 4 5000 2 {[ "a" := wit_a; "b" := wit_b ]}.
(** A codec that knows these two documents. *)
Definition wit_to_vec (d : RegistryDocument) : string + bytes :=
  if decide (d = wit_doc1) then inr [1]
  else if decide (d = wit_doc2) then inr [2] else inl "unsupported".
Definition wit_from_slice (b : bytes) : string + RegistryDocument :=
  if decide (b = [1]) then inr wit_doc1
  else if decide (b = [2]) then inr wit_doc2 else inl "unsupported".

Lemma wit_json_roundtrip d b : wit_to_vec d = inr b → wit_from_slice b = inr d.
Proof.
  unfold wit_to_vec. destruct (decide (d = wit_doc1)) as [->|_]; [by intros [= <-]|].
  destruct (decide (d = wit_doc2)) as [->|_]; [by intros [= <-]|done].
Qed.

Definition wit_snapshot (id : string) (d : RegistryDocument) : MembershipSnapshot :=
  match snapshot (mkIdentity id "1") d with
  | Ok s => s
  | _ => mkMembershipSnapshot (mkAssignment 0 ∅) []
  end.
Definition wit_write (id : string) (d : RegistryDocument) (b : bytes) (cas : option Z) :
    PendingWrite :=
  mkPendingWrite (mkIdentity id "1") d b cas (Some (wit_snapshot id d)).
Definition wit_commit (p : nat) (w : PendingWrite) (cas : Z) (g : Group) : Group :=
  let g := with_pending (<[p := w]> (gr_pending g)) g in
  issue (pw_identity w) (pw_snapshot w)
    (store_write w cas (with_pending (delete p (gr_pending g)) g)).
Definition wit_group1 : Group := wit_commit 0 (wit_write "a" wit_doc1 [1] None) 1 group_empty.
Definition wit_group2 : Group :=
  wit_commit 0 (wit_write "b" wit_doc2 [2] (Some 1)) 2 wit_group1.
Definition wit_group : Group :=
  issue (mkIdentity "a" "1") (Some (wit_snapshot "a" wit_doc2)) wit_group2.

Lemma wit_member_config id :
  id_ok id → member_config (wit_config id) 5000.
Proof. intros Hid. split; [|by vm_compute]. split; [done|]. split_and!; vm_compute; done. Qed.
Lemma wit_id_ok id : bool_decide (id = "a" ∨ id = "b") = true → id_ok id.
Proof. intros [-> | ->]%bool_decide_eq_true; split_and!; vm_compute; done. Qed.

Lemma wit_register id p b cas g d :
  id_ok id → gr_pending g !! p = None → sr_cas <$> gr_store g = cas →
  attempt_begin wit_from_slice wit_to_vec (wit_config id) ActRegister 5000 (gr_store g) (Ok 10)
    = Ok (AttemptWrite d b cas (Some (wit_snapshot id d))) →
  rtc (group_step wit_from_slice wit_to_vec) g
    (wit_commit p (wit_write id d b cas) (gr_last_cas g + 1) g).
Proof.
  intros Hid Hp Hcas Ha. eapply rtc_l; [eapply (gs_begin _ _ g p (wit_config id) 5000 ActRegister 10); [by apply wit_member_config|done|exact Ha]|].
  eapply rtc_l; [|apply rtc_refl]. apply gs_stored; [apply lookup_insert_eq|done|cbn; lia].
Qed.

Lemma wit_group_reachable : group_reachable wit_from_slice wit_to_vec wit_group.
Proof.
  unfold group_reachable.
  etrans; [apply (wit_register "a" 0 [1] None group_empty wit_doc1); [by apply wit_id_ok|done|done|]|].
  { vm_compute. reflexivity. }
  etrans; [apply (wit_register "b" 0 [2] (Some 1) wit_group1 wit_doc2); [by apply wit_id_ok|done|done|]|].
  { vm_compute. reflexivity. }
  apply rtc_once. apply (gs_unchanged _ _ wit_group2 (wit_config "a") 5000 ActHeartbeat 10).
  - by apply wit_member_config, wit_id_ok.
  - vm_compute. reflexivity.
Qed.

Lemma membership_exclusive_witness :
  as_vbuckets (sn_assignment (wit_snapshot "a" wit_doc2))
    ## as_vbuckets (sn_assignment (wit_snapshot "b" wit_doc2)).
Proof.
  apply (membership_exclusive wit_from_slice wit_to_vec wit_json_roundtrip wit_group
           (mkIdentity "a" "1") _ (mkIdentity "b" "1")).
  - exact wit_group_reachable.
  - left.
  - right. left.
  - vm_compute. reflexivity.
  - done.
Defined.

Lemma membership_covers_witness :
  ∃ d, d ∈ gr_docs wit_group ∧ snapshot (mkIdentity "b" "1") d = Ok (wit_snapshot "b" wit_doc2)
    ∧ ∃ i' s', snapshot i' d = Ok s' ∧ 3 ∈ as_vbuckets (sn_assignment s').
Proof.
  destruct (membership_covers wit_from_slice wit_to_vec wit_json_roundtrip wit_group
              (mkIdentity "b" "1") (wit_snapshot "b" wit_doc2) wit_group_reachable)
    as (d & Hd & Hs & _ & _ & Hc).
  - right. left.
  - exists d. split; [done|]. split; [done|]. apply Hc.
    cbn in Hd. repeat (apply elem_of_cons in Hd as [-> |Hd]; [cbn; lia|]). by apply elem_of_nil in Hd.
Defined.

(** At time 5010 member "a", last heard of at 10, has just become stale and is pruned by
    "b", which keeps a member "c" that renewed at 11. *)
Definition wit_doc3 : RegistryDocument :=
  mkRegistryDocument REGISTRY_SCHEMA_VERSION 4 5000 3
    {[ "a" := wit_a; "b" := wit_b; "c" := mkMember "c" "1" 10 11 ]}.

Lemma wit_doc3_valid : doc_valid wit_doc3.
Proof.
  assert (registry_validate wit_doc3 = Ok tt) as H by (vm_compute; reflexivity).
  pose proof (registry_validate_spec wit_doc3) as Hs. rewrite H in Hs. by apply Hs.
Qed.

Definition wit_doc4 : RegistryDocument :=
  mkRegistryDocument REGISTRY_SCHEMA_VERSION 4 5000 4
    {[ "b" := mkMember "b" "1" 10 5010; "c" := mkMember "c" "1" 10 11 ]}.
