(* ===== verification/Kubernetes.v ===== *)
(** * Kubernetes membership ([rust-dcp-membership-kubernetes/src/])

    Membership from the ordinal of a StatefulSet pod, and from a watch of the Ready pods of
    a group: the state machine over watcher events, the snapshots it publishes and the task
    that runs it.  The Kubernetes API client is the environment: a watch is the sequence of
    the items its stream yields. *)
From S2P Require Import Prelude Text Types Errors Assignment.

(** ** Errors ([error.rs]) *)
Inductive KubernetesMembershipError : Type :=
| KConfiguration (m : string)
| KWatchSequence (m : string)
| KFenced (pod_name expected_uid : string) (observed_uid : option string)
| KKubernetes (m : string)
| KWatch (m : string)
| KWatchEnded
| KStartupTimeout (d : Duration)
| KGenerationOverflow
| KAssignment (m : string)
| KCancelled
| KTask (m : string).

Abbreviation kresult := (res KubernetesMembershipError).

Definition kubernetes_error_to_string (e : KubernetesMembershipError) : string :=
  match e with
  | KConfiguration m => "invalid Kubernetes membership configuration: " +:+ m
  | KWatchSequence m => "invalid Kubernetes watch sequence: " +:+ m
  | KFenced pod expected observed =>
      "Kubernetes membership pod " +:+ debug_str pod +:+ " was fenced (expected UID "
        +:+ debug_str expected +:+ ", observed " +:+ debug_option debug_str observed +:+ ")"
  | KKubernetes m => "Kubernetes client error: " +:+ m
  | KWatch m => "Kubernetes pod watch error: " +:+ m
  | KWatchEnded => "Kubernetes pod watch ended"
  | KStartupTimeout d => "Kubernetes membership startup timed out after " +:+ duration_debug d
  | KGenerationOverflow => "Kubernetes membership generation overflow"
  | KAssignment m => "Kubernetes membership assignment error: " +:+ m
  | KCancelled => "Kubernetes membership runtime was cancelled"
  | KTask m => "Kubernetes membership task failed: " +:+ m
  end.

(** ** Names ([stateful.rs]) *)
Definition is_ascii_digit (b : Z) : bool := (48 <=? b) && (b <=? 57).
Definition is_ascii_lowercase (b : Z) : bool := (97 <=? b) && (b <=? 122).
Definition is_ascii_alphanumeric (b : Z) : bool :=
  is_ascii_digit b || is_ascii_lowercase b || ((65 <=? b) && (b <=? 90)).

Definition is_dns_label (v : string) : bool :=
  negb (bool_decide (v = "")) && (str_len v <=? 63)
  && forallb (λ b, is_ascii_lowercase b || is_ascii_digit b || (b =? 45)) (as_bytes v)
  && match head (as_bytes v) with Some b => is_ascii_alphanumeric b | None => false end
  && match last (as_bytes v) with Some b => is_ascii_alphanumeric b | None => false end.

Definition validate_dns_name (kind v : string) : kresult unit :=
  if negb (bool_decide (v = "")) && (str_len v <=? 253) && forallb is_dns_label (split dot v)
  then Ok tt
  else Err (KConfiguration (kind +:+ " name must be a valid lowercase Kubernetes DNS subdomain")).

Definition validate_namespace (v : string) : kresult unit :=
  if negb (is_dns_label v) then
    Err (KConfiguration "namespace must be a valid lowercase Kubernetes DNS label")
  else Ok tt.

(** [.map_err(|error| Configuration(error.to_string()))] *)
Definition as_configuration {A} (r : result A) : kresult A :=
  map_err (λ e, KConfiguration (dcp_error_to_string e)) r.
Definition as_assignment {A} (r : result A) : kresult A :=
  map_err (λ e, KAssignment (dcp_error_to_string e)) r.

(** ** StatefulSet ordinals ([stateful.rs]) *)
Record StatefulSetMembershipConfig : Type := mkStatefulConfig {
  ssc_stateful_set : string;
  ssc_pod_name : string;
  ssc_replicas : Z;
  ssc_start_ordinal : Z;
  ssc_vbucket_count : Z;
  ssc_generation : Z
}.
Record StatefulSetMembership : Type := mkStatefulMembership {
  ssm_assignment : VBucketAssignment;
  ssm_member_number : Z;
  ssm_total_members : Z
}.

Definition ordinal_overflow : KubernetesMembershipError :=
  KConfiguration "StatefulSet ordinal range overflows usize".

Definition stateful_validate (c : StatefulSetMembershipConfig) : kresult unit :=
  do? validate_dns_name "StatefulSet" (ssc_stateful_set c) in
  do? validate_dns_name "pod" (ssc_pod_name c) in
  do? as_configuration
        (balanced (ssc_generation c) (ssc_vbucket_count c) 1 (ssc_replicas c)) in
  do? ok_or (checked_add usize_max (ssc_start_ordinal c) (ssc_replicas c)) ordinal_overflow in
  Ok tt.

Definition stateful_new (stateful_set pod_name : string) (replicas vbucket_count : Z)
    : kresult StatefulSetMembershipConfig :=
  let config := mkStatefulConfig stateful_set pod_name replicas 0 vbucket_count 1 in
  do? stateful_validate config in Ok config.
Definition with_generation (generation : Z) (c : StatefulSetMembershipConfig)
    : StatefulSetMembershipConfig :=
  mkStatefulConfig (ssc_stateful_set c) (ssc_pod_name c) (ssc_replicas c) (ssc_start_ordinal c)
    (ssc_vbucket_count c) generation.
Definition with_start_ordinal (start : Z) (c : StatefulSetMembershipConfig)
    : StatefulSetMembershipConfig :=
  mkStatefulConfig (ssc_stateful_set c) (ssc_pod_name c) (ssc_replicas c) start
    (ssc_vbucket_count c) (ssc_generation c).

(** [str::strip_prefix] with a string *)
Fixpoint strip_prefix_str (p s : string) : option string :=
  match p, s with
  | EmptyString, _ => Some s
  | String a p, String b s => if decide (a = b) then strip_prefix_str p s else None
  | String _ _, EmptyString => None
  end.

Definition stateful_resolve (c : StatefulSetMembershipConfig) : kresult StatefulSetMembership :=
  do? stateful_validate c in
  let pod := debug_str (ssc_pod_name c) in
  let? suffix := ok_or (strip_prefix_str (ssc_stateful_set c +:+ "-") (ssc_pod_name c))
    (KConfiguration ("pod " +:+ pod +:+ " does not belong to StatefulSet "
       +:+ debug_str (ssc_stateful_set c))) in
  let? ordinal := match from_str_radix 10 usize_max suffix with
    | inr n => Ok n
    | inl error => Err (KConfiguration ("pod " +:+ pod
        +:+ " has an invalid StatefulSet ordinal: " +:+ error))
    end in
  if negb (bool_decide (pretty ordinal = suffix)) then
    Err (KConfiguration ("pod " +:+ pod +:+ " has a noncanonical StatefulSet ordinal"))
  else
    let? end_ordinal := ok_or (checked_add usize_max (ssc_start_ordinal c) (ssc_replicas c))
      ordinal_overflow in
    if (ordinal <? ssc_start_ordinal c) || (end_ordinal <=? ordinal) then
      Err (KConfiguration ("pod ordinal " +:+ pretty ordinal +:+ " is outside StatefulSet range "
        +:+ pretty (ssc_start_ordinal c) +:+ ".." +:+ pretty end_ordinal))
    else
      let member_number := ordinal - ssc_start_ordinal c + 1 in
      let? assignment := as_assignment
        (balanced (ssc_generation c) (ssc_vbucket_count c) member_number (ssc_replicas c)) in
      Ok (mkStatefulMembership assignment member_number (ssc_replicas c)).

(** ** Pods ([model.rs]) *)
Record PodIdentity : Type := mkPodIdentity {
  pi_pod_name : string;
  pi_uid : string
}.
Record PodState : Type := mkPod {
  po_pod_name : string;
  po_uid : string;
  po_created_at_millis : Z;
  po_ready : bool;
  po_terminating : bool
}.
Record PodMember : Type := mkPodMember {
  pmb_pod_name : string;
  pmb_uid : string;
  pmb_created_at_millis : Z
}.
Record KubernetesMembershipSnapshot : Type := mkPodSnapshot {
  ksn_assignment : VBucketAssignment;
  ksn_members : list PodMember
}.
#[export] Instance PodIdentity_eq_dec : EqDecision PodIdentity.
Proof. solve_decision. Defined.
#[export] Instance PodState_eq_dec : EqDecision PodState.
Proof. solve_decision. Defined.

Definition validate_uid (uid : string) : kresult unit :=
  if bool_decide (uid = "") || (128 <? str_len uid)
     || negb (forallb is_ascii_graphic (as_bytes uid)) then
    Err (KConfiguration "pod UID must contain 1..=128 visible ASCII bytes")
  else Ok tt.
Definition pod_identity_new (pod_name uid : string) : kresult PodIdentity :=
  do? validate_dns_name "pod" pod_name in
  do? validate_uid uid in
  Ok (mkPodIdentity pod_name uid).
Definition pod_state_new (pod_name uid : string) (created_at_millis : Z) (ready terminating : bool)
    : kresult PodState :=
  do? validate_dns_name "pod" pod_name in
  do? validate_uid uid in
  Ok (mkPod pod_name uid created_at_millis ready terminating).
Definition is_effective (p : PodState) : bool := po_ready p && negb (po_terminating p).

Inductive PodWatchEvent : Type :=
| WatchApply (pod : PodState)
| WatchDelete (pod : PodIdentity)
| WatchInit
| WatchInitApply (pod : PodState)
| WatchInitDone.

Record PodMembershipState : Type := mkPodMembership {
  pm_identity : PodIdentity;
  pm_vbucket_count : Z;
  pm_generation : Z;
  pm_active : gmap string PodState;
  pm_initializing : option (gmap string PodState);
  pm_initialized : bool;
  pm_published_once : bool
}.
Definition pod_membership_new (identity : PodIdentity) (vbucket_count : Z)
    : kresult PodMembershipState :=
  do? as_configuration (balanced 1 vbucket_count 1 1) in
  Ok (mkPodMembership identity vbucket_count 0 ∅ None false false).

Definition set_initializing (b : option (gmap string PodState)) (s : PodMembershipState)
    : PodMembershipState :=
  mkPodMembership (pm_identity s) (pm_vbucket_count s) (pm_generation s) (pm_active s) b
    (pm_initialized s) (pm_published_once s).
Definition set_initialized (s : PodMembershipState) : PodMembershipState :=
  mkPodMembership (pm_identity s) (pm_vbucket_count s) (pm_generation s) (pm_active s)
    (pm_initializing s) true (pm_published_once s).
Definition set_active (generation : Z) (a : gmap string PodState) (s : PodMembershipState)
    : PodMembershipState :=
  mkPodMembership (pm_identity s) (pm_vbucket_count s) generation a (pm_initializing s)
    (pm_initialized s) (pm_published_once s).
Definition set_published (s : PodMembershipState) : PodMembershipState :=
  mkPodMembership (pm_identity s) (pm_vbucket_count s) (pm_generation s) (pm_active s)
    (pm_initializing s) (pm_initialized s) true.

(** Creation time, then UID, then name. *)
Definition pod_le (a b : PodState) : Prop :=
  po_created_at_millis a < po_created_at_millis b
  ∨ po_created_at_millis a = po_created_at_millis b
    ∧ ((String.le (po_uid a) (po_uid b) ∧ po_uid a ≠ po_uid b)
       ∨ po_uid a = po_uid b ∧ String.le (po_pod_name a) (po_pod_name b)).
#[export] Instance pod_le_dec : RelDecision pod_le.
Proof. intros a b. unfold pod_le. apply _. Defined.

Definition ordered_pods (active : gmap string PodState) : list PodState :=
  merge_sort pod_le ((string_entries active).*2).
Definition member_of (p : PodState) : PodMember :=
  mkPodMember (po_pod_name p) (po_uid p) (po_created_at_millis p).
Definition is_pod (i : PodIdentity) (p : PodState) : Prop :=
  po_pod_name p = pi_pod_name i ∧ po_uid p = pi_uid i.
#[export] Instance is_pod_dec i p : Decision (is_pod i p).
Proof. unfold is_pod. apply _. Defined.

Definition fenced_by (i : PodIdentity) (observed : option string) : KubernetesMembershipError :=
  KFenced (pi_pod_name i) (pi_uid i) observed.

Definition pod_snapshot (s : PodMembershipState)
    : kresult (option KubernetesMembershipSnapshot) * PodMembershipState :=
  let identity := pm_identity s in
  match pm_active s !! pi_pod_name identity with
  | None => (if pm_published_once s then Err (fenced_by identity None) else Ok None, s)
  | Some local =>
      if negb (bool_decide (po_uid local = pi_uid identity)) then
        (Err (fenced_by identity (Some (po_uid local))), s)
      else
        let pods := ordered_pods (pm_active s) in
        match (let? member_number :=
                 ok_or ((λ '(i, _), Z.of_nat i + 1) <$> list_find (is_pod identity) pods)
                   (fenced_by identity None) in
               as_assignment
                 (balanced (pm_generation s) (pm_vbucket_count s) member_number (len pods))) with
        | Ok assignment =>
            (Ok (Some (mkPodSnapshot assignment (member_of <$> pods))), set_published s)
        | Err e => (Err e, s)
        | Panic => (Panic, s)
        end
  end.

Definition unique_uid_step (seen : gset string) (p : PodState) : kresult (gset string) :=
  if bool_decide (po_uid p ∈ seen) then
    Err (KWatchSequence ("effective pod list repeated UID " +:+ debug_str (po_uid p)))
  else Ok ({[ po_uid p ]} ∪ seen).
Definition validate_unique_uids (pods : gmap string PodState) : kresult unit :=
  do? for_res ((string_entries pods).*2) ∅ unique_uid_step in Ok tt.

Definition pod_commit (next : gmap string PodState) (s : PodMembershipState)
    : kresult (option KubernetesMembershipSnapshot) * PodMembershipState :=
  match validate_unique_uids next with
  | Err e => (Err e, s)
  | Panic => (Panic, s)
  | Ok _ =>
      if bool_decide (next = pm_active s) then (Ok None, s)
      else
        match checked_add u64_max (pm_generation s) 1 with
        | None => (Err KGenerationOverflow, s)
        | Some generation => pod_snapshot (set_active generation next s)
        end
  end.

Definition ensure_incremental_allowed (kind : string) (s : PodMembershipState) : kresult unit :=
  if negb (pm_initialized s) then
    Err (KWatchSequence (kind +:+ " arrived before the initial list completed"))
  else if bool_decide (is_Some (pm_initializing s)) then
    Err (KWatchSequence (kind +:+ " arrived during an atomic relist"))
  else Ok tt.

Definition pod_apply (event : PodWatchEvent) (s : PodMembershipState)
    : kresult (option KubernetesMembershipSnapshot) * PodMembershipState :=
  match event with
  | WatchInit => (Ok None, set_initializing (Some ∅) s)
  | WatchInitApply pod =>
      match pm_initializing s with
      | None => (Err (KWatchSequence "InitApply arrived without Init"), s)
      | Some buffer =>
          if bool_decide (is_Some (buffer !! po_pod_name pod)) then
            (Err (KWatchSequence ("initial list repeated pod " +:+ debug_str (po_pod_name pod))), s)
          else if is_effective pod then
            (Ok None, set_initializing (Some (<[po_pod_name pod := pod]> buffer)) s)
          else (Ok None, s)
      end
  | WatchInitDone =>
      match pm_initializing s with
      | None => (Err (KWatchSequence "InitDone arrived without Init"), s)
      | Some next => pod_commit next (set_initialized (set_initializing None s))
      end
  | WatchApply pod =>
      match ensure_incremental_allowed "Apply" s with
      | Err e => (Err e, s)
      | Panic => (Panic, s)
      | Ok _ =>
          pod_commit (if is_effective pod then <[po_pod_name pod := pod]> (pm_active s)
                      else delete (po_pod_name pod) (pm_active s)) s
      end
  | WatchDelete pod =>
      match ensure_incremental_allowed "Delete" s with
      | Err e => (Err e, s)
      | Panic => (Panic, s)
      | Ok _ =>
          pod_commit (match pm_active s !! pi_pod_name pod with
                      | Some current =>
                          if bool_decide (po_uid current = pi_uid pod)
                          then delete (pi_pod_name pod) (pm_active s) else pm_active s
                      | None => pm_active s
                      end) s
      end
  end.

(** ** The watch ([source.rs])

    The fields of a pod that are read, and the events of [kube::runtime::watcher]. *)
Record PodStatus : Type := mkPodStatus {
  pst_phase : option string;
  pst_conditions : option (list (string * string))
}.
Record Pod : Type := mkKubePod {
  kp_name : option string;
  kp_uid : option string;
  kp_creation_timestamp_millis : option Z;
  kp_deletion_timestamp_millis : option Z;
  kp_status : option PodStatus
}.
Inductive WatcherEvent : Type :=
| KubeApply (pod : Pod)
| KubeDelete (pod : Pod)
| KubeInit
| KubeInitApply (pod : Pod)
| KubeInitDone.

Definition normalize_deleted_pod (pod : Pod) : kresult PodIdentity :=
  let? pod_name := ok_or (kp_name pod) (KWatchSequence "deleted pod omitted metadata.name") in
  let? uid := ok_or (kp_uid pod)
    (KWatchSequence ("deleted pod " +:+ debug_str pod_name +:+ " omitted metadata.uid")) in
  pod_identity_new pod_name uid.

Definition pod_ready (pod : Pod) : bool :=
  match kp_status pod with
  | Some status =>
      bool_decide (pst_phase status = Some "Running")
      && match pst_conditions status with
         | Some conditions => bool_decide (("Ready", "True") ∈ conditions)
         | None => false
         end
  | None => false
  end.
Definition normalize_pod (pod : Pod) : kresult PodState :=
  let? pod_name := ok_or (kp_name pod) (KWatchSequence "watched pod omitted metadata.name") in
  let watched := "watched pod " +:+ debug_str pod_name in
  let? uid := ok_or (kp_uid pod) (KWatchSequence (watched +:+ " omitted metadata.uid")) in
  let? created_at := ok_or (kp_creation_timestamp_millis pod)
    (KWatchSequence (watched +:+ " omitted metadata.creationTimestamp")) in
  let? created_at_millis := ok_or (try_from u64_max created_at)
    (KWatchSequence (watched +:+ " has a pre-epoch creation timestamp: " +:+ try_from_int_error)) in
  let terminating := bool_decide (is_Some (kp_deletion_timestamp_millis pod)) in
  pod_state_new pod_name uid created_at_millis (pod_ready pod) terminating.

(** The normalized item for an item of the kube watcher. *)
Definition watch_item (item : string + WatcherEvent) : kresult PodWatchEvent :=
  match item with
  | inr (KubeApply pod) => res_map WatchApply (normalize_pod pod)
  | inr (KubeDelete pod) => res_map WatchDelete (normalize_deleted_pod pod)
  | inr KubeInit => Ok WatchInit
  | inr (KubeInitApply pod) => res_map WatchInitApply (normalize_pod pod)
  | inr KubeInitDone => Ok WatchInitDone
  | inl error => Err (KWatch error)
  end.

Record KubePodMembershipSource : Type := mkPodSource {
  kps_namespace : string;
  kps_label_selector : string
}.
Definition empty_selector : KubernetesMembershipError :=
  KConfiguration "pod label selector must not be empty".
Definition pod_source_new (namespace label_selector : string) : kresult KubePodMembershipSource :=
  do? validate_namespace namespace in
  if bool_decide (trim label_selector = "") then Err empty_selector
  else Ok (mkPodSource namespace label_selector).

(** ** The running watcher ([runtime.rs]) *)
Record KubernetesMembershipConfig : Type := mkKubernetesConfig {
  kc_namespace : string;
  kc_label_selector : string;
  kc_identity : PodIdentity;
  kc_vbucket_count : Z;
  kc_startup_timeout : Duration;
  kc_watch_error_backoff : Duration
}.
Definition kubernetes_config_validate (c : KubernetesMembershipConfig) : kresult unit :=
  do? validate_namespace (kc_namespace c) in
  if bool_decide (trim (kc_label_selector c) = "") then Err empty_selector
  else
    do? as_configuration (balanced 1 (kc_vbucket_count c) 1 1) in
    if kc_startup_timeout c =? 0 then
      Err (KConfiguration "startup timeout must be greater than zero")
    else if kc_watch_error_backoff c =? 0 then
      Err (KConfiguration "watch error backoff must be greater than zero")
    else Ok tt.
Definition kubernetes_config_new (namespace label_selector : string) (identity : PodIdentity)
    (vbucket_count : Z) : kresult KubernetesMembershipConfig :=
  let config := mkKubernetesConfig namespace label_selector identity vbucket_count
                  (from_secs 60) (from_secs 1) in
  do? kubernetes_config_validate config in Ok config.
Definition with_startup_timeout (timeout : Duration) (c : KubernetesMembershipConfig)
    : KubernetesMembershipConfig :=
  mkKubernetesConfig (kc_namespace c) (kc_label_selector c) (kc_identity c) (kc_vbucket_count c)
    timeout (kc_watch_error_backoff c).
Definition with_watch_error_backoff (backoff : Duration) (c : KubernetesMembershipConfig)
    : KubernetesMembershipConfig :=
  mkKubernetesConfig (kc_namespace c) (kc_label_selector c) (kc_identity c) (kc_vbucket_count c)
    (kc_startup_timeout c) backoff.

Definition is_recoverable_watch_error (e : KubernetesMembershipError) : bool :=
  match e with KWatch _ => true | _ => false end.

(** Which await of the watcher resolves next: the stream, the start-up deadline, a change of
    the cancellation flag (also when its sender is dropped), the end of a back-off. *)
Inductive Wake : Type := WakeStream | WakeDeadline | WakeCancel | WakeSlept.

(** The items the stream still yields before it ends, and the state machine. *)
Record Watcher : Type := mkWatcher {
  wt_stream : list (kresult PodWatchEvent);
  wt_state : PodMembershipState
}.

(** One poll of the stream: what it does to the watcher, and the snapshot to publish. *)
Inductive WatchPolled : Type :=
| PolledSnapshot (snapshot : option KubernetesMembershipSnapshot)
| PolledBackoff
| PolledEnd (r : kresult unit).
Definition poll_watch (w : Watcher) : WatchPolled * Watcher :=
  match wt_stream w with
  | [] => (PolledEnd (Err KWatchEnded), w)
  | Ok event :: stream =>
      let '(r, s) := pod_apply event (wt_state w) in
      (match r with Ok o => PolledSnapshot o | Err e => PolledEnd (Err e) | Panic => PolledEnd Panic end,
       mkWatcher stream s)
  | Err e :: stream =>
      (if is_recoverable_watch_error e then PolledBackoff else PolledEnd (Err e),
       mkWatcher stream (wt_state w))
  | Panic :: stream => (PolledEnd Panic, mkWatcher stream (wt_state w))
  end.

(** [timeout(startup_timeout, wait_for_initial_snapshot(..))]; [None] while it waits. *)
Fixpoint wait_for_initial_snapshot (timeout : Duration) (wakes : list Wake) (sleeping : bool)
    (w : Watcher) : option (kresult KubernetesMembershipSnapshot) * Watcher :=
  match wakes with
  | [] => (None, w)
  | WakeDeadline :: _ => (Some (Err (KStartupTimeout timeout)), w)
  | WakeCancel :: wakes => wait_for_initial_snapshot timeout wakes sleeping w
  | WakeSlept :: wakes => wait_for_initial_snapshot timeout wakes false w
  | WakeStream :: wakes =>
      if sleeping then wait_for_initial_snapshot timeout wakes sleeping w
      else
        match poll_watch w with
        | (PolledSnapshot (Some snapshot), w) => (Some (Ok snapshot), w)
        | (PolledSnapshot None, w) => wait_for_initial_snapshot timeout wakes false w
        | (PolledBackoff, w) => wait_for_initial_snapshot timeout wakes true w
        | (PolledEnd r, w) =>
            (Some match r with Ok _ => Err KWatchEnded | Err e => Err e | Panic => Panic end, w)
        end
  end.

(** The task, with the snapshots it has published; [None] while it runs. *)
Fixpoint run_membership (wakes : list Wake) (sleeping : bool) (w : Watcher)
    (published : list KubernetesMembershipSnapshot)
    : option (kresult unit) * Watcher * list KubernetesMembershipSnapshot :=
  match wakes with
  | [] => (None, w, published)
  | WakeCancel :: _ => (Some (Ok tt), w, published)
  | WakeDeadline :: wakes => run_membership wakes sleeping w published
  | WakeSlept :: wakes => run_membership wakes false w published
  | WakeStream :: wakes =>
      if sleeping then run_membership wakes sleeping w published
      else
        match poll_watch w with
        | (PolledSnapshot o, w) =>
            run_membership wakes false w (published ++ option_list o)
        | (PolledBackoff, w) => run_membership wakes true w published
        | (PolledEnd r, w) => (Some r, w, published)
        end
  end.

(** [KubernetesMembership::with_source]: the first snapshot, or why there is none; with a
    watcher once there is one. *)
Definition with_source (config : KubernetesMembershipConfig)
    (stream : list (kresult PodWatchEvent)) (wakes : list Wake)
    : option (kresult KubernetesMembershipSnapshot) * option Watcher :=
  match (do? kubernetes_config_validate config in
         pod_membership_new (kc_identity config) (kc_vbucket_count config)) with
  | Ok s =>
      let '(r, w) := wait_for_initial_snapshot (kc_startup_timeout config) wakes false
                       (mkWatcher stream s) in (r, Some w)
  | Err e => (Some (Err e), None)
  | Panic => (Some Panic, None)
  end.

(** [TaskState] and [close]; a handle is given by what awaiting it returns, [Panic] for a
    task that panicked. *)
Record KubernetesTask : Type := mkKubernetesTask {
  kt_handle : option (kresult unit);
  kt_terminal : option (string + unit)
}.
Definition kubernetes_close (join_error : string) (t : KubernetesTask)
    : kresult unit * KubernetesTask :=
  match kt_terminal t with
  | Some (inr _) => (Ok tt, t)
  | Some (inl message) => (Err (KTask message), t)
  | None =>
      match kt_handle t with
      | None => (Ok tt, t)
      | Some joined =>
          let result := match joined with Panic => Err (KTask join_error) | r => r end in
          (result, mkKubernetesTask None (Some match result with
                                               | Err error => inl (kubernetes_error_to_string error)
                                               | _ => inr tt
                                               end))
      end
  end.
