(* ===== verification/KubernetesSpec.v ===== *)
(** * What Kubernetes membership guarantees

    The watcher's state machine follows the pods of the group, its snapshots divide the
    bucket, the running task publishes them in order and stops when the pod is fenced, and a
    StatefulSet ordinal owns its chunk. *)
From S2P Require Import Prelude Text Types Errors Assignment Kubernetes.

(** ** Lemmas: pods in order *)
#[export] Instance pod_le_total : Total pod_le.
Proof.
  intros a b. unfold pod_le.
  destruct (Z.lt_trichotomy (po_created_at_millis a) (po_created_at_millis b)) as [|[|]]; [by auto| |by auto].
  destruct (decide (po_uid a = po_uid b)) as [Hu|Hu].
  - destruct (total String.le (po_pod_name a) (po_pod_name b)); [left|right]; right; split; auto.
  - destruct (total String.le (po_uid a) (po_uid b)); [left|right]; right; split; auto.
Qed.
#[export] Instance pod_le_trans : Transitive pod_le.
Proof.
  intros a b c. unfold pod_le. intros [H1|(E1 & H1)] [H2|(E2 & H2)]; [left; lia..|].
  right. split; [congruence|].
  destruct H1 as [[L1 N1]|[U1 L1]], H2 as [[L2 N2]|[U2 L2]].
  - left. split; [by etrans|]. intros Heq. rewrite <-Heq in L2.
    by apply N1, (anti_symm String.le).
  - left. by rewrite <-U2.
  - left. by rewrite U1.
  - right. split; [congruence|by etrans].
Qed.
(** Members, oldest first: by creation time, then UID, then name. *)
Definition older (x y : PodMember) : Prop :=
  pmb_created_at_millis x < pmb_created_at_millis y
  ∨ pmb_created_at_millis x = pmb_created_at_millis y
    ∧ (pmb_uid x ≠ pmb_uid y ∧ String.le (pmb_uid x) (pmb_uid y)
       ∨ pmb_uid x = pmb_uid y ∧ String.le (pmb_pod_name x) (pmb_pod_name y)).
Lemma ordered_pods_sorted a : StronglySorted older (member_of <$> ordered_pods a).
Proof.
  assert (StronglySorted pod_le (ordered_pods a)) as Hs
    by (unfold ordered_pods; apply StronglySorted_merge_sort; apply _).
  induction Hs as [|x l _ IH Hx]; cbn; constructor; [done|]. apply Forall_fmap.
  eapply Forall_impl; [exact Hx|]. intros y. unfold pod_le, older, compose, member_of. cbn. tauto.
Qed.
Lemma ordered_pods_Permutation a : ordered_pods a ≡ₚ (map_to_list a).*2.
Proof. unfold ordered_pods. by rewrite merge_sort_Permutation, string_entries_Permutation. Qed.
Lemma length_ordered_pods a : length (ordered_pods a) = size a.
Proof. by rewrite ordered_pods_Permutation, length_fmap, length_map_to_list. Qed.
Lemma elem_of_ordered_pods a p : p ∈ ordered_pods a ↔ ∃ n, a !! n = Some p.
Proof.
  rewrite ordered_pods_Permutation, list_elem_of_fmap. split.
  - intros ([n q] & -> & Hin). exists n. by apply elem_of_map_to_list.
  - intros [n Hn]. exists (n, p). split; [done|]. by apply elem_of_map_to_list.
Qed.

Lemma unique_uid_loop l seen seen' :
  for_res l seen unique_uid_step = Ok seen' →
  NoDup (po_uid <$> l) ∧ ∀ p, p ∈ l → po_uid p ∉ seen.
Proof.
  revert seen. induction l as [|p l IH]; intros seen; cbn [for_res].
  { intros _. split; [apply NoDup_nil_2|by intros ? ?%elem_of_nil]. }
  unfold unique_uid_step at 1. case_bool_decide as Hp; [done|]. intros [Hnd Hl]%IH. split.
  - rewrite fmap_cons. apply NoDup_cons. split; [|done].
    intros (q & Hq & Hin)%list_elem_of_fmap. apply (Hl q Hin). rewrite <-Hq. set_solver.
  - intros q [->|Hq]%elem_of_cons; [done|]. specialize (Hl q Hq). set_solver.
Qed.
Lemma unique_uid_error l seen e :
  for_res l seen unique_uid_step = Err e → ∃ m, e = KWatchSequence m.
Proof.
  revert seen. induction l as [|p l IH]; intros seen; cbn [for_res]; [done|].
  unfold unique_uid_step at 1. case_bool_decide; [|by apply IH]. intros [= <-]. by eexists.
Qed.
Lemma validate_unique_uids_spec a :
  match validate_unique_uids a with
  | Ok _ => NoDup (po_uid <$> ordered_pods a)
  | Err e => ∃ m, e = KWatchSequence m
  | Panic => False
  end.
Proof.
  unfold validate_unique_uids. destruct (for_res _ _ _) as [seen|e|] eqn:Hr; [|by eapply unique_uid_error|].
  - apply unique_uid_loop in Hr as [Hnd _].
    by rewrite ordered_pods_Permutation, <-string_entries_Permutation.
  - revert Hr. apply for_res_no_panic. intros. unfold unique_uid_step. by case_bool_decide.
Qed.

(** ** Lemmas: the state machine *)
Definition keyed (a : gmap string PodState) : Prop :=
  ∀ n p, a !! n = Some p → po_pod_name p = n ∧ is_effective p = true.
Record pod_inv (s : PodMembershipState) : Prop := {
  pv_count : 1 ≤ pm_vbucket_count s ≤ max_vbucket_count;
  pv_generation : 0 ≤ pm_generation s ≤ u64_max;
  pv_active : keyed (pm_active s);
  pv_buffer : ∀ b, pm_initializing s = Some b → keyed b;
  pv_uids : NoDup (po_uid <$> ordered_pods (pm_active s))
}.

Lemma keyed_insert a p : keyed a → is_effective p = true → keyed (<[po_pod_name p := p]> a).
Proof. intros Ha Hp n q [[<- <-]|[_ ?]]%lookup_insert_Some; [done|by apply Ha]. Qed.
Lemma keyed_delete a n : keyed a → keyed (delete n a).
Proof. intros Ha m q [_ ?]%lookup_delete_Some. by apply Ha. Qed.
#[local] Hint Resolve keyed_insert keyed_delete : core.

(** The place of a pod in the order of a view. *)
Definition place (i : PodIdentity) (a : gmap string PodState) (n : nat) : Prop :=
  ∃ p, ordered_pods a !! n = Some p ∧ is_pod i p.
(** The snapshot of a view for one of its pods. *)
Record snapshot_of (i : PodIdentity) (count generation : Z) (a : gmap string PodState)
    (sn : KubernetesMembershipSnapshot) : Prop := {
  so_fits : Z.of_nat (size a) ≤ count;
  so_members : ksn_members sn = member_of <$> ordered_pods a;
  so_order : StronglySorted older (ksn_members sn);
  so_generation : as_generation (ksn_assignment sn) = generation;
  so_share : ∃ n, place i a n ∧ ∀ vb, vb ∈ as_vbuckets (ksn_assignment sn) ↔
    chunk_start count (Z.of_nat (size a)) (Z.of_nat n) ≤ vb
    < chunk_start count (Z.of_nat (size a)) (Z.of_nat n + 1)
}.

Lemma place_local i a p :
  keyed a → a !! pi_pod_name i = Some p → po_uid p = pi_uid i →
  ∃ n q, list_find (is_pod i) (ordered_pods a) = Some (n, q) ∧ place i a n ∧ (n < size a)%nat.
Proof.
  intros Ha Hp Hu. destruct (Ha _ _ Hp) as [Hn _].
  destruct (list_find_elem_of (is_pod i) (ordered_pods a) p) as [[n q] Hf].
  - apply elem_of_ordered_pods. eauto.
  - by split.
  - exists n, q. split; [done|]. apply list_find_Some in Hf as (Hl & Hi & _). split; [by exists q|].
    rewrite <-length_ordered_pods. by eapply lookup_lt_Some.
Qed.

Lemma balanced_too_many g c m t :
  1 ≤ c ≤ max_vbucket_count → c < t → ∃ e, balanced g c m t = Err e.
Proof.
  intros Hc Ht. unfold balanced, max_vbucket_count in *. unfold_ranges.
  replace ((c =? 0) || (65535 + 1 <? c)) with false by lia.
  replace ((t =? 0) || (c <? t)) with true by lia. by eexists.
Qed.

Lemma pod_snapshot_spec s :
  pod_inv s →
  match pod_snapshot s with
  | (Ok (Some sn), s') => s' = set_published s
      ∧ snapshot_of (pm_identity s) (pm_vbucket_count s) (pm_generation s) (pm_active s) sn
  | (Ok None, s') => s' = s ∧ pm_active s !! pi_pod_name (pm_identity s) = None
      ∧ pm_published_once s = false
  | (Err e, s') => s' = s
      ∧ ((∃ o, e = fenced_by (pm_identity s) o)
         ∧ (∀ p, pm_active s !! pi_pod_name (pm_identity s) = Some p → po_uid p ≠ pi_uid (pm_identity s))
         ∨ (∃ m, e = KAssignment m) ∧ pm_vbucket_count s < Z.of_nat (size (pm_active s)))
  | (Panic, _) => False
  end.
Proof.
  intros [Hc Hg Ha _ _]. unfold pod_snapshot.
  destruct (pm_active s !! pi_pod_name (pm_identity s)) as [p|] eqn:Hp.
  2: { destruct (pm_published_once s); [|done]. split; [done|]. left. split; [by eexists|done]. }
  case_bool_decide as Hu; cbn [negb].
  2: { split; [done|]. left. split; [by eexists|]. by intros ? [= <-]. }
  destruct (place_local _ _ _ Ha Hp Hu) as (n & q & -> & Hpl & Hn). cbn [fmap option_fmap option_map ok_or].
  assert (len (ordered_pods (pm_active s)) = Z.of_nat (size (pm_active s))) as Hlen
    by (unfold len; by rewrite length_ordered_pods).
  rewrite Hlen. destruct (decide (Z.of_nat (size (pm_active s)) ≤ pm_vbucket_count s)) as [Hle|Hle].
  - assert (1 ≤ Z.of_nat (size (pm_active s)) ≤ pm_vbucket_count s) as Hsz.
    { clear -Hn Hle. lia. }
    destruct (balanced_ok (pm_vbucket_count s) (Z.of_nat (size (pm_active s))) Hc Hsz
      (pm_generation s) (Z.of_nat n + 1) ltac:(lia)) as (a & -> & Hag & Hvb).
    cbn [as_assignment map_err]. split; [done|].
    split; [done|done|apply ordered_pods_sorted|done|]. exists n. split; [done|].
    intros vb. cbn. rewrite Hvb. by replace (Z.of_nat n + 1 - 1) with (Z.of_nat n) by lia.
  - apply Z.nle_gt in Hle.
    destruct (balanced_too_many (pm_generation s) (pm_vbucket_count s) (Z.of_nat n + 1)
      (Z.of_nat (size (pm_active s))) Hc Hle) as [e ->].
    cbn. split; [done|]. right. split; [by eexists|done].
Qed.

(** One commit: nothing changed, or the next generation of the new view. *)
Lemma pod_commit_spec next s :
  pod_inv s → keyed next →
  let '(r, s') := pod_commit next s in
  pod_inv s' ∧ pm_identity s' = pm_identity s ∧ pm_vbucket_count s' = pm_vbucket_count s
  ∧ pm_initializing s' = pm_initializing s ∧ pm_initialized s' = pm_initialized s
  ∧ match r with
    | Ok (Some sn) => pm_active s' = next ∧ next ≠ pm_active s
        ∧ pm_generation s' = pm_generation s + 1 ∧ pm_published_once s' = true
        ∧ snapshot_of (pm_identity s) (pm_vbucket_count s) (pm_generation s') next sn
    | Ok None => pm_active s' = next ∧ pm_published_once s' = pm_published_once s
        ∧ pm_generation s ≤ pm_generation s'
        ∧ (next = pm_active s ∧ s' = s
           ∨ pm_published_once s = false ∧ next !! pi_pod_name (pm_identity s) = None)
    | Err e => ∀ o, e = fenced_by (pm_identity s) o →
        ∀ p, pm_active s' !! pi_pod_name (pm_identity s) = Some p → po_uid p ≠ pi_uid (pm_identity s)
    | Panic => False
    end.
Proof.
  intros Hs Hnext. unfold pod_commit. pose proof (validate_unique_uids_spec next) as Hu.
  destruct (validate_unique_uids next) as [[]|e|] eqn:Hval; [|destruct Hu as [m ->]; by split_and!|done].
  case_bool_decide as Heq; [subst next; split_and!; auto; lia|].
  destruct (checked_add u64_max (pm_generation s) 1) as [g|] eqn:Hg; [|by split_and!].
  apply checked_add_inv in Hg as [-> Hg].
  set (s1 := set_active (pm_generation s + 1) next s).
  assert (pod_inv s1) as Hs1.
  { destruct Hs. split; [done|cbn; lia|done|done|done]. }
  pose proof (pod_snapshot_spec s1 Hs1) as Hsn.
  destruct (pod_snapshot s1) as [[[sn|]|e|] s'].
  - destruct Hsn as [-> Hsn]. split_and!; try done. by destruct Hs1; split.
  - destruct Hsn as (-> & Hl & Hp). split_and!; try done; [cbn; lia|]. by right.
  - destruct Hsn as [-> Hsn]. split_and!; try done. intros o -> p Hp.
    destruct Hsn as [[_ Hf]|[[m ?] _]]; [by apply Hf|done].
  - done.
Qed.

(** The pod is a member of the snapshot. *)
Definition holds (i : PodIdentity) (sn : KubernetesMembershipSnapshot) : Prop :=
  ∃ created, mkPodMember (pi_pod_name i) (pi_uid i) created ∈ ksn_members sn.
Lemma snapshot_holds i count g a sn : snapshot_of i count g a sn → holds i sn.
Proof.
  intros [_ Hm _ _ (n & (p & Hp & [Hn Hu]) & _)]. exists (po_created_at_millis p). rewrite Hm, <-Hn, <-Hu.
  apply list_elem_of_lookup_2 in Hp. by apply (list_elem_of_fmap_2 member_of) in Hp.
Qed.

(** What a watcher has published is in order, names the local pod, and ends with the
    snapshot of the current view. *)
Record watching (published : list KubernetesMembershipSnapshot) (s : PodMembershipState) : Prop := {
  wa_inv : pod_inv s;
  wa_order : StronglySorted Z.lt (as_generation ∘ ksn_assignment <$> published);
  wa_past : ∀ sn, sn ∈ published → as_generation (ksn_assignment sn) ≤ pm_generation s
                                   ∧ holds (pm_identity s) sn;
  wa_current : match last published with
    | None => pm_published_once s = false
    | Some sn => pm_published_once s = true
        ∧ snapshot_of (pm_identity s) (pm_vbucket_count s) (pm_generation s) (pm_active s) sn
    end
}.

Lemma StronglySorted_snoc {A} (R : relation A) l x :
  StronglySorted R l → (∀ y, y ∈ l → R y x) → StronglySorted R (l ++ [x]).
Proof.
  induction 1 as [|y l Hl IH Hy]; intros Hx; cbn; [repeat constructor|].
  constructor; [apply IH; intros; apply Hx; by right|].
  apply Forall_app. split; [done|]. apply Forall_singleton, Hx. left.
Qed.

Lemma option_list_None {A} : option_list (@None A) = [].
Proof. done. Qed.
Lemma commit_watching published next s r s' :
  watching published s → keyed next → pod_commit next s = (Ok r, s') →
  watching (published ++ option_list r) s' ∧ pm_active s' = next
  ∧ pm_initializing s' = pm_initializing s ∧ pm_initialized s' = pm_initialized s
  ∧ pm_identity s' = pm_identity s ∧ pm_vbucket_count s' = pm_vbucket_count s.
Proof.
  intros [Hinv Hord Hpast Hcur] Hnext Hr. pose proof (pod_commit_spec next s Hinv Hnext) as Hc.
  rewrite Hr in Hc. destruct Hc as (Hinv' & Hid & Hct & Hb & Hi & Hc).
  destruct r as [sn|]; [change (option_list (Some sn)) with [sn]|change (option_list None) with (@nil KubernetesMembershipSnapshot)].
  - destruct Hc as (Ha & _ & Hg & Hp & Hsn). split_and!; [|done..].
    assert (as_generation (ksn_assignment sn) = pm_generation s') as Hgen by apply Hsn.
    split; [done|..].
    + rewrite fmap_app. apply StronglySorted_snoc; [done|].
      intros g (sn' & -> & Hsn')%list_elem_of_fmap. destruct (Hpast sn' Hsn'). cbn in *. lia.
    + intros sn' [Hsn'| ->%list_elem_of_singleton]%elem_of_app.
      * destruct (Hpast sn' Hsn'). rewrite Hid. split; [lia|done].
      * rewrite Hid. split; [lia|]. by eapply snapshot_holds.
    + rewrite last_snoc. rewrite Hid, Hct, Ha. done.
  - rewrite app_nil_r. destruct Hc as (Ha & Hp & Hg & Hc). split_and!; [|done..].
    split; [done|done| |].
    + intros sn' Hsn'. destruct (Hpast sn' Hsn'). rewrite Hid. split; [lia|done].
    + destruct Hc as [[-> ->]|[Hpub _]]; [done|].
      destruct (last published); [|congruence]. destruct Hcur; congruence.
Qed.

(** Changes that publish nothing. *)
Lemma watching_same published s s' :
  watching published s → pod_inv s' → pm_identity s' = pm_identity s →
  pm_vbucket_count s' = pm_vbucket_count s → pm_generation s' = pm_generation s →
  pm_active s' = pm_active s → pm_published_once s' = pm_published_once s → watching published s'.
Proof. intros [] ? E1 E2 E3 E4 E5. split; rewrite ?E1, ?E2, ?E3, ?E4, ?E5; done. Qed.

Definition next_view (event : PodWatchEvent) (s : PodMembershipState) : gmap string PodState :=
  match event with
  | WatchApply pod => if is_effective pod then <[po_pod_name pod := pod]> (pm_active s)
                      else delete (po_pod_name pod) (pm_active s)
  | WatchDelete pod => match pm_active s !! pi_pod_name pod with
                       | Some current => if bool_decide (po_uid current = pi_uid pod)
                           then delete (pi_pod_name pod) (pm_active s) else pm_active s
                       | None => pm_active s
                       end
  | WatchInitDone => default ∅ (pm_initializing s)
  | _ => pm_active s
  end.
Definition next_buffer (event : PodWatchEvent) (s : PodMembershipState)
    : option (gmap string PodState) :=
  match event with
  | WatchInit => Some ∅
  | WatchInitApply pod =>
      (λ b, if is_effective pod then <[po_pod_name pod := pod]> b else b) <$> pm_initializing s
  | WatchInitDone => None
  | _ => pm_initializing s
  end.

Lemma keyed_next event s : pod_inv s → keyed (next_view event s).
Proof.
  intros [_ _ Ha Hb _]. destruct event as [p|p| | |]; cbn; try done.
  - destruct (is_effective p) eqn:He; auto.
  - destruct (pm_active s !! pi_pod_name p); [|done]. case_bool_decide; auto.
  - destruct (pm_initializing s) as [b|]; [by apply Hb|]. by intros n q Hq.
Qed.

Lemma pod_apply_watching published event s r s' :
  watching published s → pod_apply event s = (Ok r, s') →
  watching (published ++ option_list r) s'
  ∧ pm_active s' = next_view event s ∧ pm_initializing s' = next_buffer event s
  ∧ pm_identity s' = pm_identity s ∧ pm_vbucket_count s' = pm_vbucket_count s.
Proof.
  intros Hw. pose proof (wa_inv _ _ Hw) as Hinv. pose proof (keyed_next event s Hinv) as Hk.
  destruct event as [p|p| |p|]; cbn [pod_apply next_view next_buffer] in *.
  - destruct (ensure_incremental_allowed "Apply" s); [|done..].
    intros Hr. by destruct (commit_watching _ _ _ _ _ Hw Hk Hr) as (? & ? & ? & ? & ? & ?).
  - destruct (ensure_incremental_allowed "Delete" s); [|done..].
    intros Hr. by destruct (commit_watching _ _ _ _ _ Hw Hk Hr) as (? & ? & ? & ? & ? & ?).
  - intros [= <- <-]. rewrite option_list_None, app_nil_r. split; [|done].
    eapply watching_same; [done| |done..]. destruct Hinv. split; try done. by intros b [= <-] n q Hq.
  - destruct (pm_initializing s) as [b|] eqn:Hb; [|done]. case_bool_decide; [done|].
    pose proof (pv_buffer _ Hinv b Hb) as Hkb.
    destruct (is_effective p) eqn:He; intros [= <- <-]; rewrite option_list_None, app_nil_r; [|done].
    split; [|done]. eapply watching_same; [done| |done..]. destruct Hinv.
    split; try done. intros b' [= <-]. auto.
  - destruct (pm_initializing s) as [b|] eqn:Hb; [|done]. cbn [default from_option id] in Hk.
    assert (watching published (set_initialized (set_initializing None s))) as Hw1.
    { eapply watching_same; [done| |done..]. destruct Hinv. by split. }
    intros Hr. by destruct (commit_watching _ _ _ _ _ Hw1 Hk Hr) as (? & ? & ? & ? & ? & ?).
Qed.

(** An error leaves the watcher who it is, and never panics; when it says that the local pod
    was fenced, the pod is not in the view with its UID. *)
Definition failed_safely (s : PodMembershipState)
    (o : kresult (option KubernetesMembershipSnapshot) * PodMembershipState) : Prop :=
  match o with
  | (Ok _, _) => True
  | (Err e, s') => pm_identity s' = pm_identity s
      ∧ ∀ o, e = fenced_by (pm_identity s) o →
        ∀ p, pm_active s' !! pi_pod_name (pm_identity s) = Some p → po_uid p ≠ pi_uid (pm_identity s)
  | (Panic, _) => False
  end.
Lemma commit_failed_safely next s : pod_inv s → keyed next → failed_safely s (pod_commit next s).
Proof.
  intros Hs Hnext. pose proof (pod_commit_spec next s Hs Hnext) as Hc.
  destruct (pod_commit next s) as [[o|e|] s']; [done| |by destruct Hc as (_ & _ & _ & _ & _ & ?)].
  by destruct Hc as (_ & ? & _ & _ & _ & ?).
Qed.
Lemma pod_apply_failed_safely event s : pod_inv s → failed_safely s (pod_apply event s).
Proof.
  intros Hinv. pose proof (keyed_next event s Hinv) as Hk.
  assert (∀ m, failed_safely s (Err (KWatchSequence m), s)) as Hseq by done.
  destruct event as [p|p| |p|]; cbn [pod_apply next_view] in *.
  1,2: unfold ensure_incremental_allowed; destruct (negb (pm_initialized s)); [done|];
    case_bool_decide; [done|]; by apply commit_failed_safely.
  - done.
  - destruct (pm_initializing s); [|done]. case_bool_decide; [done|]. by destruct (is_effective p).
  - destruct (pm_initializing s) as [b|] eqn:Hb; [|done].
    apply (commit_failed_safely b (set_initialized (set_initializing None s))); [|done].
    destruct Hinv. by split.
Qed.

(** ** The pods of the group

    What the API server reports: a changed pod, a deleted one, a complete list, or a list
    that breaks off (the watcher then starts another one). *)
Inductive Segment : Type :=
| SegApply (pod : PodState)
| SegDelete (pod : PodIdentity)
| SegList (pods : list PodState)
| SegBroken (pods : list PodState).

Definition segment_events (seg : Segment) : list PodWatchEvent :=
  match seg with
  | SegApply p => [WatchApply p]
  | SegDelete i => [WatchDelete i]
  | SegList pods => WatchInit :: (WatchInitApply <$> pods) ++ [WatchInitDone]
  | SegBroken pods => WatchInit :: (WatchInitApply <$> pods)
  end.
(** A list names a pod once. *)
Definition segment_ok (seg : Segment) : Prop :=
  match seg with SegList pods => NoDup (po_pod_name <$> pods) | _ => True end.

(** The pods as they are after a report: a deletion of an earlier pod of the same name is
    late, and changes nothing. *)
Definition pods_map (pods : list PodState) : gmap string PodState :=
  list_to_map ((λ p, (po_pod_name p, p)) <$> pods).
Definition cluster_step (c : gmap string PodState) (seg : Segment) : gmap string PodState :=
  match seg with
  | SegApply p => <[po_pod_name p := p]> c
  | SegDelete i =>
      match c !! pi_pod_name i with
      | Some p => if bool_decide (po_uid p = pi_uid i) then delete (pi_pod_name i) c else c
      | None => c
      end
  | SegList pods => pods_map pods
  | SegBroken _ => c
  end.
Definition cluster_after (segs : list Segment) : gmap string PodState := foldl cluster_step ∅ segs.
Definition effective (c : gmap string PodState) : gmap string PodState :=
  filter (λ kv, is_effective kv.2 = true) c.

(** Applying events up to the first error. *)
Fixpoint apply_all (events : list PodWatchEvent) (s : PodMembershipState)
    : kresult (list KubernetesMembershipSnapshot) * PodMembershipState :=
  match events with
  | [] => (Ok [], s)
  | event :: events =>
      match pod_apply event s with
      | (Ok o, s) =>
          match apply_all events s with
          | (Ok l, s) => (Ok (option_list o ++ l), s)
          | r => r
          end
      | (Err e, s) => (Err e, s)
      | (Panic, s) => (Panic, s)
      end
  end.

Lemma apply_all_cons event events s l s' :
  apply_all (event :: events) s = (Ok l, s') →
  ∃ o s1 l1, pod_apply event s = (Ok o, s1) ∧ apply_all events s1 = (Ok l1, s')
    ∧ l = option_list o ++ l1.
Proof.
  cbn [apply_all]. destruct (pod_apply event s) as [[o|e|] s1]; [|done..].
  destruct (apply_all events s1) as [[l1|e|] s2] eqn:Hl; [|done..]. intros [= <- <-]. eauto 7.
Qed.
Lemma apply_all_app es1 es2 s l s' :
  apply_all (es1 ++ es2) s = (Ok l, s') →
  ∃ l1 s1 l2, apply_all es1 s = (Ok l1, s1) ∧ apply_all es2 s1 = (Ok l2, s') ∧ l = l1 ++ l2.
Proof.
  revert s l. induction es1 as [|e es1 IH]; intros s l; cbn [app].
  { intros Hl. exists [], s, l. done. }
  intros (o & s1 & l1 & Ho & (l2 & s2 & l3 & H2 & H3 & ->)%IH & ->)%apply_all_cons.
  exists (option_list o ++ l2), s2, l3. cbn [apply_all]. rewrite Ho, H2. split_and!; [done..|].
  by rewrite app_assoc.
Qed.

Lemma effective_insert n p c :
  effective (<[n := p]> c)
  = if is_effective p then <[n := p]> (effective c) else delete n (effective c).
Proof.
  unfold effective. rewrite map_filter_insert. cbn. destruct (is_effective p); cbn.
  - done.
  - by rewrite map_filter_delete.
Qed.
Lemma effective_lookup n c : effective c !! n
  = match c !! n with Some p => if is_effective p then Some p else None | None => None end.
Proof.
  unfold effective. rewrite map_lookup_filter. destruct (c !! n) as [p|]; [|done]. cbn.
  destruct (is_effective p); [|done]. cbn. by rewrite option_guard_True.
Qed.

(** The buffer of a list. *)
Definition buffer_step (b : gmap string PodState) (p : PodState) : gmap string PodState :=
  if is_effective p then <[po_pod_name p := p]> b else b.
Lemma buffer_effective pods :
  NoDup (po_pod_name <$> pods) → foldl buffer_step ∅ pods = effective (pods_map pods).
Proof.
  induction pods as [|p pods IH] using rev_ind; [done|]. rewrite fmap_app, foldl_snoc.
  intros (Hnd & Hp & _)%NoDup_app. rewrite (IH Hnd). unfold pods_map. rewrite fmap_app.
  assert (po_pod_name p ∉ po_pod_name <$> pods) as Hni by (intros Hin; by apply (Hp _ Hin); left).
  cbn [fmap list_fmap]. rewrite list_to_map_snoc by (by rewrite <-list_fmap_compose).
  rewrite effective_insert. unfold buffer_step. destruct (is_effective p); [done|].
  rewrite delete_id; [done|]. rewrite effective_lookup.
  rewrite not_elem_of_list_to_map_1; [done|]. by rewrite <-list_fmap_compose.
Qed.

Lemma init_loop published pods s b l s' :
  watching published s → pm_initializing s = Some b →
  apply_all (WatchInitApply <$> pods) s = (Ok l, s') →
  l = [] ∧ watching published s' ∧ pm_active s' = pm_active s
  ∧ pm_initializing s' = Some (foldl buffer_step b pods)
  ∧ pm_identity s' = pm_identity s ∧ pm_vbucket_count s' = pm_vbucket_count s.
Proof.
  revert s b l. induction pods as [|p pods IH]; intros s b l Hw Hb.
  { intros [= <- <-]. by split_and!. }
  rewrite fmap_cons. intros (o & s1 & l1 & Ho & Hl & ->)%apply_all_cons.
  assert (o = None) as ->.
  { clear -Ho Hb. cbn in Ho. rewrite Hb in Ho. repeat case_match; by simplify_eq. }
  destruct (pod_apply_watching _ _ _ _ _ Hw Ho) as (Hw1 & Ha1 & Hb1 & Hi1 & Hc1).
  rewrite option_list_None, app_nil_r in Hw1. cbn [next_buffer next_view] in *. rewrite Hb in Hb1.
  destruct (IH s1 (buffer_step b p) l1 Hw1 Hb1 Hl) as (-> & Hw2 & Ha2 & Hb2 & Hi2 & Hc2).
  split_and!; [done|done|congruence|done|congruence|congruence].
Qed.

Lemma apply_one published event s l s' :
  watching published s → apply_all [event] s = (Ok l, s') →
  watching (published ++ l) s' ∧ pm_active s' = next_view event s
  ∧ pm_initializing s' = next_buffer event s
  ∧ pm_identity s' = pm_identity s ∧ pm_vbucket_count s' = pm_vbucket_count s.
Proof.
  intros Hw (o & s1 & l1 & Ho & [= <- <-] & ->)%apply_all_cons. rewrite app_nil_r.
  by apply pod_apply_watching.
Qed.

Lemma segment_tracks published c seg s l s' :
  watching published s → pm_active s = effective c → segment_ok seg →
  apply_all (segment_events seg) s = (Ok l, s') →
  watching (published ++ l) s' ∧ pm_active s' = effective (cluster_step c seg)
  ∧ pm_identity s' = pm_identity s ∧ pm_vbucket_count s' = pm_vbucket_count s.
Proof.
  intros Hw Ha Hok.
  assert (∀ pods l s', apply_all (WatchInit :: (WatchInitApply <$> pods)) s = (Ok l, s') →
    watching (published ++ l) s' ∧ pm_active s' = pm_active s
    ∧ pm_initializing s' = Some (foldl buffer_step ∅ pods)
    ∧ pm_identity s' = pm_identity s ∧ pm_vbucket_count s' = pm_vbucket_count s) as Hlist.
  { clear -Hw. intros pods l s'. change (WatchInit :: ?l) with ([WatchInit] ++ l).
    intros (l1 & s1 & l2 & H1 & H2 & ->)%apply_all_app.
    destruct (apply_one _ _ _ _ _ Hw H1) as (Hw1 & Ha1 & Hb1 & Hi1 & Hc1).
    destruct (init_loop _ _ _ _ _ _ Hw1 Hb1 H2) as (-> & Hw2 & Ha2 & Hb2 & Hi2 & Hc2).
    rewrite app_nil_r. split_and!; [done|by rewrite Ha2, Ha1|done|congruence|congruence]. }
  destruct seg as [p|i|pods|pods]; cbn [segment_events cluster_step].
  - intros (? & -> & ? & ? & ?)%(apply_one published); [|done]. cbn. rewrite Ha.
    by rewrite effective_insert.
  - intros (? & -> & ? & ? & ?)%(apply_one published); [|done]. split_and!; [done| |done..]. cbn.
    rewrite Ha, effective_lookup. destruct (c !! pi_pod_name i) as [p|] eqn:Hp; [|done].
    destruct (is_effective p) eqn:He; case_bool_decide; try done; unfold effective.
    + by rewrite map_filter_delete.
    + rewrite map_filter_delete. symmetry. apply delete_id. fold (effective c).
      rewrite effective_lookup. by rewrite Hp, He.
  - intros (l1 & s1 & l2 & H1 & H2 & ->)%(apply_all_app (WatchInit :: (WatchInitApply <$> pods))).
    destruct (Hlist _ _ _ H1) as (Hw1 & Ha1 & Hb1 & Hi1 & Hc1).
    destruct (apply_one _ _ _ _ _ Hw1 H2) as (Hw2 & -> & Hb2 & Hi2 & Hc2). rewrite app_assoc.
    split_and!; [done| |congruence|congruence]. cbn [next_view]. rewrite Hb1. cbn.
    by apply buffer_effective.
  - intros (? & -> & _ & ? & ?)%Hlist. by rewrite Ha.
Qed.

Lemma segments_track published c segs s l s' :
  watching published s → pm_active s = effective c → Forall segment_ok segs →
  apply_all (segs ≫= segment_events) s = (Ok l, s') →
  watching (published ++ l) s' ∧ pm_active s' = effective (foldl cluster_step c segs)
  ∧ pm_identity s' = pm_identity s ∧ pm_vbucket_count s' = pm_vbucket_count s.
Proof.
  revert published c s l. induction segs as [|seg segs IH]; intros published c s l Hw Ha Hok.
  { intros [= <- <-]. by rewrite app_nil_r. }
  apply Forall_cons in Hok as [Hseg Hok]. rewrite bind_cons.
  intros (l1 & s1 & l2 & H1 & H2 & ->)%apply_all_app.
  destruct (segment_tracks _ _ _ _ _ _ Hw Ha Hseg H1) as (Hw1 & Ha1 & Hi1 & Hc1).
  destruct (IH _ _ _ _ Hw1 Ha1 Hok H2) as (Hw2 & Ha2 & Hi2 & Hc2).
  rewrite app_assoc. split_and!; [done|done|congruence|congruence].
Qed.

Lemma pod_membership_new_ok identity count s :
  is_u64 count → pod_membership_new identity count = Ok s →
  watching [] s ∧ pm_active s = effective ∅ ∧ pm_identity s = identity
  ∧ pm_vbucket_count s = count.
Proof.
  intros Hu. unfold pod_membership_new. pose proof (balanced_safe 1 count 1 1 Hu) as Hb.
  destruct (decide _) as [(Hc & _)|]; last first.
  { destruct Hb as [m ->]; [unfold_ranges; lia..|]. done. }
  destruct Hb as [a ->]; [unfold_ranges; lia..|]. cbn. intros [= <-].
  split_and!; [|done..]. split; [|apply SSorted_nil|by intros ? ?%elem_of_nil|done].
  split; [done|cbn; unfold_ranges; lia|by intros n p Hp|done|]. cbn. apply NoDup_nil_2.
Qed.

(** C37: A watcher follows the pods of its group.  Over any history of reports of the API
    server, changed pods, deletions (late ones included), complete lists and lists that
    break off, a watcher that has not failed holds exactly the ready, nonterminating pods
    of the group; nothing of a list shows before it is complete.  What it has published
    names the local pod with its exact UID and has strictly increasing generations, and its
    latest snapshot is always that of the current pods: the members oldest first, by
    creation time, UID and name, and the share of the local pod by its place among them. *)
Theorem watch_tracks_cluster identity count segs s0 snapshots s :
  is_u64 count → pod_membership_new identity count = Ok s0 → Forall segment_ok segs →
  apply_all (segs ≫= segment_events) s0 = (Ok snapshots, s) →
  pm_active s = effective (cluster_after segs)
  ∧ StronglySorted Z.lt (as_generation ∘ ksn_assignment <$> snapshots)
  ∧ (∀ sn, sn ∈ snapshots → holds identity sn)
  ∧ ∀ sn, last snapshots = Some sn →
      snapshot_of identity count (pm_generation s) (effective (cluster_after segs)) sn.
Proof.
  intros Hu Hnew Hok Hall. destruct (pod_membership_new_ok _ _ _ Hu Hnew) as (Hw & Ha & Hid & Hc).
  destruct (segments_track [] ∅ segs s0 snapshots s Hw Ha Hok Hall) as (Hw' & Ha' & Hid' & Hc').
  cbn [app] in Hw'. destruct Hw' as [_ Hord Hpast Hcur]. rewrite Hid', Hid, Hc', Hc in *.
  split_and!; [done|done|by intros sn Hsn; apply Hpast|].
  intros sn Hsn. rewrite Hsn, Ha' in Hcur. by destruct Hcur.
Qed.

(** ** Shares *)
Section Shares.
Context (count : Z) (a : gmap string PodState).
Hypothesis Hcount : 1 ≤ count ≤ max_vbucket_count.
Hypothesis Hkeyed : keyed a.
Hypothesis Huids : NoDup (po_uid <$> ordered_pods a).
Hypothesis Hfits : Z.of_nat (size a) ≤ count.

Definition pod_id (p : PodState) : PodIdentity := mkPodIdentity (po_pod_name p) (po_uid p).
Definition view_state (i : PodIdentity) (g : Z) (once : bool) : PodMembershipState :=
  mkPodMembership i count g a None true once.
(** The share of the pod at a place. *)
Definition in_share (n : nat) (vb : Z) : Prop :=
  chunk_start count (Z.of_nat (size a)) (Z.of_nat n) ≤ vb
  < chunk_start count (Z.of_nat (size a)) (Z.of_nat n + 1).

Lemma place_lt i n : place i a n → (n < size a)%nat.
Proof using. intros (p & Hp & _). rewrite <-length_ordered_pods. by eapply lookup_lt_Some. Qed.
Lemma place_unique i n m : place i a n → place i a m → n = m.
Proof using Huids.
  intros (p & Hp & [_ Hu]) (q & Hq & [_ Hu']).
  eapply NoDup_lookup; [exact Huids|rewrite list_lookup_fmap, Hp; done|].
  rewrite list_lookup_fmap, Hq. cbn. congruence.
Qed.
Lemma shares_disjoint n m vb :
  (n < size a)%nat → (m < size a)%nat → n ≠ m → in_share n vb → in_share m vb → False.
Proof using Hcount Hfits.
  unfold in_share. set (t := Z.of_nat (size a)) in *. intros Hn Hm Hne H1 H2.
  assert (1 ≤ t ≤ count) as Ht by lia.
  destruct (Nat.lt_total n m) as [Hlt|[?|Hlt]]; [|done|].
  - pose proof (chunk_start_mono count t Hcount Ht (Z.of_nat n + 1) (Z.of_nat m)). lia.
  - pose proof (chunk_start_mono count t Hcount Ht (Z.of_nat m + 1) (Z.of_nat n)). lia.
Qed.

Lemma view_snapshot n p g once :
  0 ≤ g ≤ u64_max → a !! n = Some p →
  ∃ sn m, (pod_snapshot (view_state (pod_id p) g once)).1 = Ok (Some sn)
    ∧ ksn_members sn = member_of <$> ordered_pods a
    ∧ as_generation (ksn_assignment sn) = g
    ∧ place (pod_id p) a m ∧ ∀ vb, vb ∈ as_vbuckets (ksn_assignment sn) ↔ in_share m vb.
Proof using Hcount Hkeyed Huids Hfits.
  intros Hg Hp. set (s := view_state (pod_id p) g once). destruct (Hkeyed _ _ Hp) as [Hn _].
  assert (pod_inv s) as Hs by (split; try done).
  assert (pm_active s !! pi_pod_name (pm_identity s) = Some p) as Hl by (cbn; by rewrite Hn).
  pose proof (pod_snapshot_spec s Hs) as Hsn. destruct (pod_snapshot s) as [[[sn|]|e|] s'].
  - destruct Hsn as [_ [_ Hm _ Hgen (m & Hpl & Hvb)]]. by exists sn, m.
  - destruct Hsn as (_ & Hnone & _). congruence.
  - destruct Hsn as [_ [[_ Hf]|[_ Hbig]]]; [by destruct (Hf p Hl)|]. cbn in Hbig. lia.
  - done.
Qed.
End Shares.

(** C38: The pods of a group divide the bucket: for every set of ready pods with distinct
    UIDs that is not larger than the bucket, the watcher of each pod that sees this set
    derives a snapshot of it, whatever it has seen and published before; the snapshots list
    the same members, two pods never share a vBucket, every vBucket is owned, and each pod
    owns at least one. *)
Theorem pods_partition count a :
  1 ≤ count ≤ max_vbucket_count → keyed a → NoDup (po_uid <$> ordered_pods a) →
  Z.of_nat (size a) ≤ count →
  ∃ share : string → Z → Prop,
    (∀ n p g once, a !! n = Some p → 0 ≤ g ≤ u64_max →
       ∃ sn, (pod_snapshot (view_state count a (pod_id p) g once)).1 = Ok (Some sn)
         ∧ ksn_members sn = member_of <$> ordered_pods a
         ∧ (∀ vb, vb ∈ as_vbuckets (ksn_assignment sn) ↔ share n vb))
    ∧ (∀ n m vb, is_Some (a !! n) → is_Some (a !! m) → n ≠ m → share n vb → share m vb → False)
    ∧ (∀ vb, a ≠ ∅ → 0 ≤ vb < count → ∃ n, is_Some (a !! n) ∧ share n vb)
    ∧ ∀ n, is_Some (a !! n) → ∃ vb, 0 ≤ vb < count ∧ share n vb.
Proof.
  intros Hc Hk Hu Hf.
  exists (λ n vb, ∃ p m, a !! n = Some p ∧ place (pod_id p) a m ∧ in_share count a m vb).
  assert (∀ n p, a !! n = Some p → ∃ m, place (pod_id p) a m) as Hplace.
  { intros n p Hp. destruct (Hk _ _ Hp) as [Hn _].
    destruct (place_local (pod_id p) a p Hk) as (m & _ & _ & ? & _); [cbn; by rewrite Hn|done|eauto]. }
  split_and!.
  - intros n p g once Hp Hg.
    destruct (view_snapshot count a Hc Hk Hu Hf n p g once Hg Hp) as (sn & m & Hsn & Hm & _ & Hpl & Hvb).
    exists sn. split_and!; [done|done|]. intros vb. rewrite Hvb. split; [by eauto|].
    intros (q & m' & Hq & Hpl' & Hin). simplify_eq. by rewrite (place_unique a Hu _ _ _ Hpl Hpl').
  - intros n m vb _ _ Hne (p & i & Hp & Hi & Hin) (q & j & Hq & Hj & Hjn).
    eapply (shares_disjoint count a Hc Hf i j vb); [by eapply place_lt..| |done|done].
    intros ->. destruct Hi as (r & Hr & [Hrn _]), Hj as (r' & Hr' & [Hrn' _]). simplify_eq.
    destruct (Hk _ _ Hp) as [Hpn _], (Hk _ _ Hq) as [Hqn _]. cbn in *. congruence.
  - intros vb Hne Hvb. assert (size a ≠ 0%nat) as Hsz by (by intros ?%map_size_empty_inv).
    assert (1 ≤ Z.of_nat (size a) ≤ count) as Ht by (clear -Hsz Hf; lia).
    destruct (chunk_cover count (Z.of_nat (size a)) Hc Ht vb (size a)) as (i & Hi & Hin).
    { lia. } { by rewrite chunk_start_total. }
    destruct (lookup_lt_is_Some_2 (ordered_pods a) (Z.to_nat i)) as [p Hp].
    { rewrite length_ordered_pods. lia. }
    pose proof (list_elem_of_lookup_2 _ _ _ Hp) as [n Hn]%elem_of_ordered_pods.
    exists n. split; [by eexists|]. exists p, (Z.to_nat i).
    split_and!; [done|by exists p|unfold in_share; rewrite Z2Nat.id by lia; lia..].
  - intros n [p Hp]. destruct (Hplace n p Hp) as [m Hm]. pose proof (place_lt a _ _ Hm) as Hlt.
    assert (1 ≤ Z.of_nat (size a) ≤ count) as Ht by (clear -Hlt Hf; lia).
    pose proof (chunk_size count (Z.of_nat (size a)) Hc Ht (Z.of_nat m) ltac:(lia)) as Hsz.
    destruct (div_facts count (Z.of_nat (size a)) Hc Ht) as (_ & _ & Hq).
    exists (chunk_start count (Z.of_nat (size a)) (Z.of_nat m)).
    pose proof (chunk_start_bounds count (Z.of_nat (size a)) Hc Ht (Z.of_nat m + 1) ltac:(lia)).
    pose proof (chunk_start_bounds count (Z.of_nat (size a)) Hc Ht (Z.of_nat m) ltac:(lia)).
    assert (chunk_start count (Z.of_nat (size a)) (Z.of_nat m)
      < chunk_start count (Z.of_nat (size a)) (Z.of_nat m + 1)) by (destruct (_ <? _); lia).
    split; [lia|]. exists p, m. split_and!; [done|done|unfold in_share; lia..].
Qed.

(** ** The running watcher *)

(** Items of the kube watcher are no panics, and never say that a pod was fenced. *)
Definition clean_item (r : kresult PodWatchEvent) : Prop :=
  r ≠ Panic ∧ ∀ i o, r ≠ Err (fenced_by i o).
Lemma clean_bind {A B} (r : kresult A) (k : A → kresult B) :
  (r ≠ Panic ∧ ∀ i o, r ≠ Err (fenced_by i o)) →
  (∀ a, k a ≠ Panic ∧ ∀ i o, k a ≠ Err (fenced_by i o)) →
  (let? a := r in k a) ≠ Panic ∧ ∀ i o, (let? a := r in k a) ≠ Err (fenced_by i o).
Proof. intros [H1 H2] Hk. destruct r as [a|e|]; [apply Hk|split; [done|intros i o [= ->]]; by eapply H2|done]. Qed.
Lemma watch_item_clean item : clean_item (watch_item item).
Proof.
  assert (∀ k v, validate_dns_name k v ≠ Panic ∧ ∀ i o, validate_dns_name k v ≠ Err (fenced_by i o))
    as Hdns by (intros; unfold validate_dns_name; by case_match).
  assert (∀ v, validate_uid v ≠ Panic ∧ ∀ i o, validate_uid v ≠ Err (fenced_by i o))
    as Huid by (intros; unfold validate_uid; by case_match).
  assert (∀ A (x : option A) m, ok_or x (KWatchSequence m) ≠ Panic
    ∧ ∀ i o, ok_or x (KWatchSequence m) ≠ Err (fenced_by i o)) as Hor by (by intros A []).
  assert (∀ pod, normalize_pod pod ≠ Panic ∧ ∀ i o, normalize_pod pod ≠ Err (fenced_by i o)) as Hpod.
  { intros pod. unfold normalize_pod. do 4 (apply clean_bind; [apply Hor|intros ?]).
    do 2 (apply clean_bind; [by auto|intros ?]). done. }
  assert (∀ pod, normalize_deleted_pod pod ≠ Panic
    ∧ ∀ i o, normalize_deleted_pod pod ≠ Err (fenced_by i o)) as Hdel.
  { intros pod. unfold normalize_deleted_pod. do 2 (apply clean_bind; [apply Hor|intros ?]).
    do 2 (apply clean_bind; [by auto|intros ?]). done. }
  unfold clean_item. destruct item as [e|[pod|pod| |pod|]]; cbn; try done;
    by apply (clean_bind (_ pod) (λ a, Ok (_ a))).
Qed.

Definition fenced_out (s : PodMembershipState) : Prop :=
  ∀ p, pm_active s !! pi_pod_name (pm_identity s) = Some p → po_uid p ≠ pi_uid (pm_identity s).

(** One poll of a watcher in order. *)
Lemma poll_watch_spec published w :
  watching published (wt_state w) → Forall clean_item (wt_stream w) →
  let '(r, w') := poll_watch w in
  Forall clean_item (wt_stream w') ∧ pm_identity (wt_state w') = pm_identity (wt_state w)
  ∧ match r with
    | PolledSnapshot o => watching (published ++ option_list o) (wt_state w')
    | PolledBackoff => watching published (wt_state w')
    | PolledEnd (Err e) => ∀ o, e = fenced_by (pm_identity (wt_state w)) o → fenced_out (wt_state w')
    | PolledEnd _ => False
    end.
Proof.
  intros Hw Hcl. unfold poll_watch. destruct (wt_stream w) as [|[event|e|] stream] eqn:Hstream.
  - by split_and!; [rewrite Hstream|..].
  - apply Forall_cons in Hcl as [_ Hcl].
    pose proof (pod_apply_failed_safely event _ (wa_inv _ _ Hw)) as Hf.
    destruct (pod_apply event (wt_state w)) as [[o|e|] s'] eqn:Ha; [|..|done].
    + destruct (pod_apply_watching _ _ _ _ _ Hw Ha) as (? & _ & _ & ? & _). by split_and!.
    + destruct Hf as [Hid Hf]. split_and!; [done|done|]. intros o Ho. unfold fenced_out. cbn.
      rewrite Hid. by eapply Hf.
  - apply Forall_cons in Hcl as [[_ Hc] Hcl]. destruct (is_recoverable_watch_error e); [done|].
    split_and!; [done|done|]. intros o ->. by destruct (Hc (pm_identity (wt_state w)) o).
  - by apply Forall_cons in Hcl as [[? _] _].
Qed.

Lemma wait_spec timeout wakes : ∀ sleeping w,
  watching [] (wt_state w) → Forall clean_item (wt_stream w) →
  let '(r, w') := wait_for_initial_snapshot timeout wakes sleeping w in
  pm_identity (wt_state w') = pm_identity (wt_state w) ∧ Forall clean_item (wt_stream w')
  ∧ ∀ sn, r = Some (Ok sn) → watching [sn] (wt_state w').
Proof.
  induction wakes as [|k wakes IH]; intros sleeping w Hw Hcl; [done|].
  destruct k; cbn [wait_for_initial_snapshot]; [|done|by apply IH..].
  destruct sleeping; [by apply IH|]. pose proof (poll_watch_spec [] w Hw Hcl) as Hp.
  destruct (poll_watch w) as [[[sn|]| |[[]|e|]] w1]; destruct Hp as (Hcl1 & Hid & Hp); try done.
  - split_and!; [done|done|]. by intros ? [= <-].
  - specialize (IH false w1 Hp Hcl1). rewrite <-Hid. exact IH.
  - specialize (IH true w1 Hp Hcl1). rewrite <-Hid. exact IH.
Qed.

Lemma run_spec wakes : ∀ sleeping w published,
  watching published (wt_state w) → Forall clean_item (wt_stream w) →
  let '(r, w', published') := run_membership wakes sleeping w published in
  pm_identity (wt_state w') = pm_identity (wt_state w)
  ∧ (∃ more, published' = published ++ more)
  ∧ StronglySorted Z.lt (as_generation ∘ ksn_assignment <$> published')
  ∧ (∀ sn, sn ∈ published' → holds (pm_identity (wt_state w)) sn)
  ∧ match r with
    | None => (WakeCancel ∉ wakes) ∧ watching published' (wt_state w')
    | Some (Ok _) => WakeCancel ∈ wakes ∧ watching published' (wt_state w')
    | Some (Err e) => ∀ o, e = fenced_by (pm_identity (wt_state w)) o → fenced_out (wt_state w')
    | Some Panic => False
    end.
Proof.
  induction wakes as [|k wakes IH]; intros sleeping w published Hw Hcl.
  { split_and!; [done|by exists []; rewrite app_nil_r|apply Hw|apply Hw|by intros ?%elem_of_nil|done]. }
  assert (∀ sleeping w1 published1, watching published1 (wt_state w1) → Forall clean_item (wt_stream w1) →
    pm_identity (wt_state w1) = pm_identity (wt_state w) → (∃ more, published1 = published ++ more) →
    k ≠ WakeCancel →
    let '(r, w', published') := run_membership wakes sleeping w1 published1 in
    pm_identity (wt_state w') = pm_identity (wt_state w)
    ∧ (∃ more, published' = published ++ more)
    ∧ StronglySorted Z.lt (as_generation ∘ ksn_assignment <$> published')
    ∧ (∀ sn, sn ∈ published' → holds (pm_identity (wt_state w)) sn)
    ∧ match r with
      | None => (WakeCancel ∉ k :: wakes) ∧ watching published' (wt_state w')
      | Some (Ok _) => WakeCancel ∈ k :: wakes ∧ watching published' (wt_state w')
      | Some (Err e) => ∀ o, e = fenced_by (pm_identity (wt_state w)) o → fenced_out (wt_state w')
      | Some Panic => False
      end) as Hgo.
  { intros sl w1 pub1 Hw1 Hcl1 Hid [more1 ->] Hk. specialize (IH sl w1 _ Hw1 Hcl1).
    destruct (run_membership wakes sl w1 _) as [[r w'] pub']. rewrite <-Hid.
    destruct IH as (? & [more2 ->] & ? & ? & Hr). split_and!; [done| |done|done|].
    - exists (more1 ++ more2). by rewrite app_assoc.
    - destruct r as [[u|e|]|]; [|done|done|]; destruct Hr as [Hr1 Hr2]; (split; [|done]).
      + by right.
      + by intros [?|?]%elem_of_cons. }
  assert (∃ more, published = published ++ more) as Hself by (exists []; by rewrite app_nil_r).
  destruct k; cbn [run_membership]; [|by apply Hgo| |by apply Hgo].
  - destruct sleeping; [by apply Hgo|]. pose proof (poll_watch_spec published w Hw Hcl) as Hp.
    destruct (poll_watch w) as [[o| |[[]|e|]] w1]; destruct Hp as (Hcl1 & Hid & Hp); try done.
    + apply Hgo; try done. by eexists.
    + by apply Hgo.
    + split_and!; [done|done|apply Hw|apply Hw|done].
  - split_and!; [done|done|apply Hw|apply Hw|left|done].
Qed.

(** A running membership watcher is safe.  Whatever the kube watcher yields and in
    whichever order the task's awaits resolve, what it publishes (the snapshot start-up
    waited for, then every later one) has strictly increasing generations and always
    contains the local pod with its exact UID; while the task runs, or when cancellation
    stopped it, the last published snapshot is that of the view it holds; when it reports
    the pod as fenced, the view has no such pod; it never panics, and a cancellation ends
    it. *)
Lemma kubernetes_watch_safe config items wakes wakes' initial w r w' published :
  is_u64 (kc_vbucket_count config) →
  with_source config (watch_item <$> items) wakes = (Some (Ok initial), Some w) →
  run_membership wakes' false w [initial] = (r, w', published) →
  (∃ later, published = initial :: later)
  ∧ StronglySorted Z.lt (as_generation ∘ ksn_assignment <$> published)
  ∧ (∀ sn, sn ∈ published → holds (kc_identity config) sn)
  ∧ (WakeCancel ∈ wakes' → is_Some r)
  ∧ match r with
    | Some Panic => False
    | Some (Err e) => ∀ o, e = fenced_by (kc_identity config) o → fenced_out (wt_state w')
    | _ => ∃ sn, last published = Some sn
        ∧ snapshot_of (kc_identity config) (pm_vbucket_count (wt_state w'))
            (pm_generation (wt_state w')) (pm_active (wt_state w')) sn
    end.
Proof.
  intros Hu Hws Hrun. unfold with_source in Hws.
  destruct (kubernetes_config_validate config) as [[]|e|]; [|done..].
  destruct (pod_membership_new (kc_identity config) (kc_vbucket_count config)) as [s|e|] eqn:Hnew; [|done..].
  destruct (pod_membership_new_ok _ _ _ Hu Hnew) as (Hw0 & _ & Hid0 & _).
  assert (Forall clean_item (watch_item <$> items)) as Hcl
    by (apply Forall_fmap, Forall_true; intros; apply watch_item_clean).
  pose proof (wait_spec (kc_startup_timeout config) wakes false (mkWatcher (watch_item <$> items) s) Hw0 Hcl)
    as Hwait.
  destruct (wait_for_initial_snapshot _ _ _ _) as [r0 w0]. injection Hws as -> ->.
  destruct Hwait as (Hid & Hcl1 & Hw1). specialize (Hw1 initial eq_refl).
  pose proof (run_spec wakes' false w [initial] Hw1 Hcl1) as Hr. rewrite Hrun in Hr.
  cbn in Hid. rewrite Hid, Hid0 in Hr. destruct Hr as (Hid' & [more ->] & Hord & Hh & Hr).
  assert (∀ s, watching ([initial] ++ more) s → pm_identity s = kc_identity config →
    ∃ sn, last ([initial] ++ more) = Some sn
      ∧ snapshot_of (kc_identity config) (pm_vbucket_count s) (pm_generation s) (pm_active s) sn) as Hlast.
  { intros s1 Hs1 Hi1. destruct (last ([initial] ++ more)) as [sn|] eqn:Hl.
    - exists sn. split; [done|]. pose proof (wa_current _ _ Hs1) as Hc. rewrite Hl, Hi1 in Hc. by destruct Hc.
    - by apply last_None in Hl. }
  split_and!; [by exists more|done|done| |].
  - intros Hc. destruct r as [r|]; [by eexists|]. by destruct Hr as [[] _].
  - destruct r as [[[]|e|]|]; [|done|done|]; destruct Hr as [_ Hr]; by apply Hlast.
Qed.

(** ** StatefulSet ordinals *)
Lemma strip_prefix_str_spec p s t : strip_prefix_str p s = Some t ↔ s = p +:+ t.
Proof.
  revert s. induction p as [|a p IH]; intros s; [by split; intros [= ->]|].
  destruct s as [|b s]; [by rewrite append_cons|]. rewrite append_cons. cbn.
  case_decide as Hab; [subst b; rewrite IH; naive_solver|]. naive_solver.
Qed.

(** A StatefulSet pod owns the share of its ordinal: [resolve] succeeds exactly for a
    valid configuration whose pod name is the set's name, a dash and the canonical decimal
    form of an ordinal in the set's range; the member number is then the place of the
    ordinal in the range and the assignment the chunk of the bucket at that place, under the
    configured generation, so distinct pods of a set own disjoint chunks that cover the
    bucket.  Every other pod name is refused, also one with leading zeros or a sign, and
    nothing panics or overflows. *)
Lemma stateful_resolve_exact c :
  is_u64 (ssc_replicas c) → is_u64 (ssc_start_ordinal c) → is_u64 (ssc_vbucket_count c) →
  let ordinal k := ssc_pod_name c = ssc_stateful_set c +:+ "-" +:+ pretty k
    ∧ ssc_start_ordinal c ≤ k < ssc_start_ordinal c + ssc_replicas c in
  match stateful_resolve c with
  | Ok m => stateful_validate c = Ok tt ∧ ∃ k, ordinal k
      ∧ ssm_member_number m = k - ssc_start_ordinal c + 1 ∧ ssm_total_members m = ssc_replicas c
      ∧ as_generation (ssm_assignment m) = ssc_generation c
      ∧ ∀ vb, vb ∈ as_vbuckets (ssm_assignment m) ↔
          chunk_start (ssc_vbucket_count c) (ssc_replicas c) (k - ssc_start_ordinal c) ≤ vb
          < chunk_start (ssc_vbucket_count c) (ssc_replicas c) (k - ssc_start_ordinal c + 1)
  | Err _ => stateful_validate c ≠ Ok tt ∨ ∀ k, ¬ ordinal k
  | Panic => False
  end.
Proof.
  intros Hr Hs Hv ordinal. unfold stateful_resolve.
  assert (match stateful_validate c with
    | Ok _ => 1 ≤ ssc_vbucket_count c ≤ max_vbucket_count ∧ 1 ≤ ssc_replicas c ≤ ssc_vbucket_count c
              ∧ ssc_start_ordinal c + ssc_replicas c ≤ usize_max
    | Err _ => True | Panic => False end) as Hval.
  { unfold stateful_validate. pose proof (balanced_safe (ssc_generation c) _ 1 _ Hv ltac:(done) Hr) as Hb.
    destruct (validate_dns_name _ (ssc_stateful_set c)) eqn:H1;
      [|done|unfold validate_dns_name in H1; by case_match].
    destruct (validate_dns_name _ (ssc_pod_name c)) eqn:H2;
      [|done|unfold validate_dns_name in H2; by case_match].
    destruct (decide _) as [(? & ? & _)|]; destruct Hb as [? ->]; [|done]. cbn.
    destruct (checked_add usize_max _ _) eqn:Hc; [|done]. apply checked_add_inv in Hc as [_ ?]. done. }
  destruct (stateful_validate c) as [[]|e|]; [|by left|done]. destruct Hval as (Hc & Ht & Hsum).
  destruct (strip_prefix_str _ _) as [suffix|] eqn:Hsuf; cbn [ok_or]; last first.
  { right. intros k [Hn _]. rewrite <-append_assoc in Hn. apply strip_prefix_str_spec in Hn. congruence. }
  apply strip_prefix_str_spec in Hsuf. rewrite append_assoc in Hsuf.
  assert (∀ k, ordinal k → suffix = pretty k ∧ 0 ≤ k ≤ usize_max) as Hk.
  { intros k [Hn Hrange]. rewrite Hsuf in Hn. do 2 apply append_inj_l in Hn. unfold_ranges. split; [done|lia]. }
  destruct (from_str_radix 10 usize_max suffix) as [e|n] eqn:Hp.
  { right. intros k Hok. destruct (Hk k Hok) as [-> Hkr]. by rewrite parse_pretty in Hp. }
  case_bool_decide as Hcan; cbn [negb]; last first.
  { right. intros k Hok. destruct (Hk k Hok) as [-> Hkr]. rewrite parse_pretty in Hp by done. congruence. }
  destruct (checked_add usize_max _ _) as [e|] eqn:Hce; cbn [ok_or]; last first.
  { unfold checked_add in Hce. destruct (Z.leb_spec (ssc_start_ordinal c + ssc_replicas c) usize_max); [done|lia]. }
  apply checked_add_inv in Hce as [-> _].
  destruct (_ || _) eqn:Hrange.
  { right. intros k Hok. pose proof (Hk k Hok) as [Heq Hkr]. destruct Hok as [_ Hok].
    rewrite Heq, parse_pretty in Hp by done. injection Hp as ->.
    apply orb_true_iff in Hrange as [?%Z.ltb_lt|?%Z.leb_le]; lia. }
  apply orb_false_iff in Hrange as [Hlo%Z.ltb_ge Hhi%Z.leb_gt].
  destruct (balanced_ok _ _ Hc Ht (ssc_generation c) (n - ssc_start_ordinal c + 1) ltac:(lia))
    as (a & -> & Hg & Hvb). cbn.
  split; [done|]. exists n. split; [split; [by rewrite Hsuf, Hcan|lia]|].
  split_and!; [done|done|done|].
  intros vb. rewrite Hvb. by replace (n - ssc_start_ordinal c + 1 - 1) with (n - ssc_start_ordinal c) by lia.
Qed.

(** ** Samples *)
Definition sample_pod (name uid : string) (created : Z) : PodState := mkPod name uid created true false.
Definition sample_local : PodIdentity := mkPodIdentity "dcp-0" "u0".
Definition sample_segments : list Segment :=
  [SegBroken [sample_pod "dcp-9" "u9" 5];
   SegList [sample_pod "dcp-1" "u1" 20; sample_pod "dcp-0" "u0" 10; mkPod "dcp-2" "u2" 5 false false];
   SegApply (sample_pod "dcp-2" "u2" 5); SegDelete (mkPodIdentity "dcp-1" "old")].

Lemma watch_tracks_cluster_witness :
  ∃ snapshots s,
    apply_all (sample_segments ≫= segment_events) (mkPodMembership sample_local 6 0 ∅ None false false)
    = (Ok snapshots, s)
    ∧ pm_active s = effective (cluster_after sample_segments)
    ∧ length snapshots = 2%nat ∧ size (pm_active s) = 3%nat.
Proof.
  set (s0 := mkPodMembership sample_local 6 0 ∅ None false false).
  destruct (apply_all (sample_segments ≫= segment_events) s0) as [[snapshots|e|] s] eqn:Hall;
    [|vm_compute in Hall; discriminate Hall..].
  exists snapshots, s. split; [reflexivity|].
  assert (length snapshots = 2%nat ∧ size (pm_active s) = 3%nat) as Hn
    by (vm_compute in Hall; injection Hall as <- <-; split; reflexivity).
  split; [|exact Hn]. clear Hn.
  apply (watch_tracks_cluster sample_local 6 sample_segments s0 snapshots s).
  - unfold_ranges. lia.
  - reflexivity.
  - repeat (apply Forall_cons; split; [|]); try exact I; [|apply Forall_nil; exact I].
    apply (bool_decide_unpack _). vm_compute. exact I.
  - exact Hall.
Defined.

Definition sample_view : gmap string PodState :=
  effective (cluster_after sample_segments).
Lemma pods_partition_witness :
  ∃ sn, (pod_snapshot (view_state 6 sample_view (mkPodIdentity "dcp-1" "u1") 4 true)).1 = Ok (Some sn).
Proof.
  destruct (pods_partition 6 sample_view) as (share & Hsn & _).
  - unfold max_vbucket_count. unfold_ranges. lia.
  - assert (map_Forall (λ n p, po_pod_name p = n ∧ is_effective p = true) sample_view) as Hk
      by (apply (bool_decide_unpack _); vm_compute; exact I).
    intros n p. apply Hk.
  - apply (bool_decide_unpack _). vm_compute. exact I.
  - vm_compute. discriminate.
  - destruct (Hsn "dcp-1" (sample_pod "dcp-1" "u1" 20) 4 true) as (sn & H1 & _).
    + vm_compute. reflexivity.
    + unfold_ranges. lia.
    + exists sn. exact H1.
Defined.

Definition sample_kube_pod (name uid : string) (created : Z) : Pod :=
  mkKubePod (Some name) (Some uid) (Some created) None
    (Some (mkPodStatus (Some "Running") (Some [("PodScheduled", "True"); ("Ready", "True")]))).
Definition sample_kube_config : KubernetesMembershipConfig :=
  mkKubernetesConfig "default" "app=dcp" sample_local 6 (from_secs 60) (from_secs 1).
Definition sample_items : list (string + WatcherEvent) :=
  [inl "connection reset"; inr KubeInit; inr (KubeInitApply (sample_kube_pod "dcp-0" "u0" 10));
   inr KubeInitDone; inr (KubeApply (sample_kube_pod "dcp-1" "u1" 20));
   inr (KubeApply (sample_kube_pod "dcp-0" "u7" 30))].
Definition sample_kube_start : option (kresult KubernetesMembershipSnapshot) * option Watcher :=
  with_source sample_kube_config (watch_item <$> sample_items)
    [WakeStream; WakeSlept; WakeStream; WakeStream; WakeStream].
