(* ===== verification/Prometheus.v ===== *)
(** * Prometheus exposition ([rust-dcp-prometheus/src/lib.rs])

    The collector: its descriptors and the metric families it makes from a snapshot of the
    counters and of the health state.  [Desc::new] of the [prometheus] crate, which checks
    the names, and the order its label pairs sort in are parameters; samples are IEEE 754
    doubles, with the rounding of [as f64]. *)
From Stdlib Require Import SpecFloat.
From S2P Require Import Prelude Text Types Event Observability.

(** ** Doubles *)
Abbreviation f64 := spec_float.
Definition f64_of_Z (z : Z) : f64 := binary_normalize 53 1024 z 0 false.
Definition number (v : Z) : f64 := f64_of_Z v.
Definition status_value (actual expected : DcpHealthStatus) : f64 :=
  if bool_decide (actual = expected) then f64_of_Z 1 else f64_of_Z 0.
(** [Duration::as_secs_f64] *)
Definition as_secs_f64 (d : Z) : f64 :=
  SFadd 53 1024 (f64_of_Z (d / 1000000000))
    (SFdiv 53 1024 (f64_of_Z (d `mod` 1000000000)) (f64_of_Z 1000000000)).
(** A time is in nanoseconds from the epoch; [duration_since] fails before it. *)
Definition unix_timestamp_seconds (t : Z) : f64 :=
  if t <? 0 then f64_of_Z 0 else as_secs_f64 t.

(** ** Families *)
Record LabelPair : Type := mkLabelPair { lp_name : string; lp_value : string }.
Record Desc : Type := mkDesc {
  fq_name : string;
  help : string;
  const_label_pairs : list LabelPair;
  variable_labels : list string
}.
Inductive MetricType : Type := COUNTER | GAUGE | SUMMARY | UNTYPED | HISTOGRAM.
Inductive MetricValue : Type := CounterValue (v : f64) | GaugeValue (v : f64).
Record Metric : Type := mkMetric { mt_label : list LabelPair; mt_value : MetricValue }.
Record MetricFamily : Type := mkFamily {
  mf_name : string;
  mf_help : string;
  mf_type : MetricType;
  mf_metric : list Metric
}.

(** What is used of the crate: descriptors, and a sort of label pairs. *)
Class PrometheusCrate : Type := {
  desc_new : string → string → list string → string + Desc;
  sort_pairs : list LabelPair → list LabelPair
}.

Section Collector.
Context `{PrometheusCrate}.

Definition desc (name help : string) (labels : list string) : res string Desc :=
  match desc_new name help labels with inr d => Ok d | inl e => Err e end.

(** A debug build checks the number of labels. *)
Definition metric (d : Desc) (t : MetricType) (v : f64) (labels : list string) : res string Metric :=
  if negb (len (variable_labels d) =? len labels) then Panic
  else
    let pairs := sort_pairs (zip_with mkLabelPair (variable_labels d) labels ++ const_label_pairs d) in
    match t with
    | COUNTER => Ok (mkMetric pairs (CounterValue v))
    | GAUGE => Ok (mkMetric pairs (GaugeValue v))
    | _ => Panic
    end.
Definition family (d : Desc) (t : MetricType) (samples : list (f64 * list string))
    : res string MetricFamily :=
  let? metrics := mapM_res (λ '(v, labels), metric d t v labels) samples in
  Ok (mkFamily (fq_name d) (help d) t metrics).
Definition counter_family (d : Desc) (samples : list (f64 * list string)) : res string MetricFamily :=
  family d COUNTER samples.
Definition gauge_family (d : Desc) (samples : list (f64 * list string)) : res string MetricFamily :=
  family d GAUGE samples.

(** ** Descriptors *)
Record Descriptors : Type := mkDescriptors {
  ds_bootstrap_attempts : Desc; ds_bootstrap_successes : Desc; ds_bootstrap_failures : Desc;
  ds_topology_updates : Desc; ds_reconnects : Desc; ds_health_checks : Desc;
  ds_health_failures : Desc; ds_active_connections : Desc; ds_assigned_vbuckets : Desc;
  ds_events_delivered : Desc; ds_event_deliveries : Desc; ds_events_processed : Desc;
  ds_unknown_frames : Desc; ds_stream_errors : Desc; ds_stale_generation_drops : Desc;
  ds_rollbacks : Desc; ds_rollback_mitigation_delays : Desc;
  ds_rollback_mitigation_failures : Desc; ds_health_status : Desc;
  ds_health_consecutive_failures : Desc; ds_health_topology_generation : Desc;
  ds_health_last_check_timestamp_seconds : Desc
}.

Definition lifecycle_descriptors
    : res string (Desc * Desc * Desc * Desc * Desc * Desc * Desc * Desc * Desc) :=
  let? a := desc "rust_dcp_bootstrap_attempts_total" "Total DCP cluster bootstrap attempts." [] in
  let? b := desc "rust_dcp_bootstrap_successes_total" "Total successful DCP cluster bootstraps." [] in
  let? c := desc "rust_dcp_bootstrap_failures_total"
              "Total failed DCP cluster bootstraps or bootstrap health probes." [] in
  let? d := desc "rust_dcp_topology_updates_total"
              "Total accepted DCP cluster topology revisions." [] in
  let? e := desc "rust_dcp_reconnects_total" "Total DCP stream generation reconnects." [] in
  let? f := desc "rust_dcp_health_checks_total" "Total DCP client health probe attempts." [] in
  let? g := desc "rust_dcp_health_failures_total" "Total failed DCP client health probes." [] in
  let? h := desc "rust_dcp_active_connections" "Current open node-level DCP connections." [] in
  let? i := desc "rust_dcp_assigned_vbuckets"
              "Current vBuckets owned by the active DCP subscription." [] in
  Ok (a, b, c, d, e, f, g, h, i).
Definition delivery_descriptors
    : res string (Desc * Desc * Desc * Desc * Desc * Desc * Desc * Desc * Desc) :=
  let? a := desc "rust_dcp_events_delivered_total" "Total DCP events delivered to the application." [] in
  let? b := desc "rust_dcp_event_deliveries_total"
              "Total DCP events delivered to the application by event type." ["event_type"] in
  let? c := desc "rust_dcp_events_processed_total"
              "Total DCP deliveries explicitly marked processed by the application." [] in
  let? d := desc "rust_dcp_unknown_frames_total"
              "Total future protocol frames observed by the high-level DCP runtime." [] in
  let? e := desc "rust_dcp_stream_errors_total" "Total DCP runtime stream failures." [] in
  let? f := desc "rust_dcp_stale_generation_drops_total"
              "Total DCP events discarded by a connection-generation fence." [] in
  let? g := desc "rust_dcp_rollbacks_total"
              "Total explicit DCP rollback rewinds accepted by policy." [] in
  let? h := desc "rust_dcp_rollback_mitigation_delays_total"
              "Total deliveries delayed by replica-persistence rollback mitigation." [] in
  let? i := desc "rust_dcp_rollback_mitigation_failures_total"
              "Total stalls or history changes reported by rollback mitigation." [] in
  Ok (a, b, c, d, e, f, g, h, i).
Definition health_descriptors : res string (Desc * Desc * Desc * Desc) :=
  let? a := desc "rust_dcp_health_status" "Current one-hot DCP health status." ["status"] in
  let? b := desc "rust_dcp_health_consecutive_failures"
              "Current consecutive DCP health or runtime failures." [] in
  let? c := desc "rust_dcp_health_topology_generation"
              "Current local DCP topology generation observed by health checks." [] in
  let? d := desc "rust_dcp_health_last_check_timestamp_seconds"
              "Unix timestamp of the latest DCP health check or state transition, or zero before the first check." [] in
  Ok (a, b, c, d).

Definition descriptors_new : res string Descriptors :=
  let? l := lifecycle_descriptors in
  let? v := delivery_descriptors in
  let? h := health_descriptors in
  let '(l1, l2, l3, l4, l5, l6, l7, l8, l9) := l in
  let '(v1, v2, v3, v4, v5, v6, v7, v8, v9) := v in
  let '(h1, h2, h3, h4) := h in
  Ok (mkDescriptors l1 l2 l3 l4 l5 l6 l7 l8 l9 v1 v2 v3 v4 v5 v6 v7 v8 v9 h1 h2 h3 h4).

Definition descriptors_all (d : Descriptors) : list Desc :=
  [ds_bootstrap_attempts d; ds_bootstrap_successes d; ds_bootstrap_failures d;
   ds_topology_updates d; ds_reconnects d; ds_health_checks d; ds_health_failures d;
   ds_active_connections d; ds_assigned_vbuckets d; ds_events_delivered d;
   ds_event_deliveries d; ds_events_processed d; ds_unknown_frames d; ds_stream_errors d;
   ds_stale_generation_drops d; ds_rollbacks d; ds_rollback_mitigation_delays d;
   ds_rollback_mitigation_failures d; ds_health_status d; ds_health_consecutive_failures d;
   ds_health_topology_generation d; ds_health_last_check_timestamp_seconds d].

(** ** Collection *)
Definition collect_lifecycle (d : Descriptors) (m : DcpMetricsSnapshot) : res string (list MetricFamily) :=
  mapM_res id
    [counter_family (ds_bootstrap_attempts d) [(number (dm_bootstrap_attempts m), [])];
     counter_family (ds_bootstrap_successes d) [(number (dm_bootstrap_successes m), [])];
     counter_family (ds_bootstrap_failures d) [(number (dm_bootstrap_failures m), [])];
     counter_family (ds_topology_updates d) [(number (dm_topology_updates m), [])];
     counter_family (ds_reconnects d) [(number (dm_reconnects m), [])];
     counter_family (ds_health_checks d) [(number (dm_health_checks m), [])];
     counter_family (ds_health_failures d) [(number (dm_health_failures m), [])];
     gauge_family (ds_active_connections d) [(number (dm_active_connections m), [])];
     gauge_family (ds_assigned_vbuckets d) [(number (dm_assigned_vbuckets m), [])]].
Definition collect_delivery_and_recovery (d : Descriptors) (m : DcpMetricsSnapshot)
    : res string (list MetricFamily) :=
  mapM_res id
    [counter_family (ds_events_delivered d) [(number (dm_delivered_events m), [])];
     counter_family (ds_event_deliveries d)
       [(number (dm_mutations m), ["mutation"]); (number (dm_deletions m), ["deletion"]);
        (number (dm_expirations m), ["expiration"]);
        (number (dm_snapshot_markers m), ["snapshot_marker"]);
        (number (dm_seqno_advanced_events m), ["seqno_advanced"]);
        (number (dm_system_events m), ["system_event"]);
        (number (dm_stream_ends m), ["stream_end"]);
        (number (dm_oso_snapshots m), ["oso_snapshot"])];
     counter_family (ds_events_processed d) [(number (dm_processed_events m), [])];
     counter_family (ds_unknown_frames d) [(number (dm_unknown_frames m), [])];
     counter_family (ds_stream_errors d) [(number (dm_stream_errors m), [])];
     counter_family (ds_stale_generation_drops d) [(number (dm_stale_generation_drops m), [])];
     counter_family (ds_rollbacks d) [(number (dm_rollbacks m), [])];
     counter_family (ds_rollback_mitigation_delays d) [(number (dm_rollback_mitigation_delays m), [])];
     counter_family (ds_rollback_mitigation_failures d) [(number (dm_rollback_mitigation_failures m), [])]].
Definition collect_health (d : Descriptors) (h : DcpHealthSnapshot) : res string (list MetricFamily) :=
  mapM_res id
    [gauge_family (ds_health_status d)
       [(status_value (hl_status h) Starting, ["starting"]);
        (status_value (hl_status h) Healthy, ["healthy"]);
        (status_value (hl_status h) Degraded, ["degraded"]);
        (status_value (hl_status h) Stopped, ["stopped"])];
     gauge_family (ds_health_consecutive_failures d) [(number (hl_consecutive_failures h), [])];
     gauge_family (ds_health_topology_generation d) [(number (hl_topology_generation h), [])];
     gauge_family (ds_health_last_check_timestamp_seconds d)
       [(match hl_last_check h with Some t => unix_timestamp_seconds t | None => f64_of_Z 0 end, [])]].

(** [DcpPrometheusCollector]: the handles are read when it collects. *)
Definition collector_new : res string Descriptors := descriptors_new.
Definition collect (d : Descriptors) (metrics : MetricCounters) (health : DcpHealthSnapshot)
    : res string (list MetricFamily) :=
  let m := metrics_snapshot metrics in
  let? lifecycle := collect_lifecycle d m in
  let? delivery := collect_delivery_and_recovery d m in
  let? health := collect_health d health in
  Ok (lifecycle ++ delivery ++ health).
End Collector.

(** ** Correctness *)

(** The data model of Prometheus: what a metric or a label may be called. *)
Definition name_char (a : Ascii.ascii) : bool :=
  let n := char_code a in
  ((97 <=? n) && (n <=? 122)) || ((65 <=? n) && (n <=? 90)) || ((48 <=? n) && (n <=? 57)) || (n =? 95).
Fixpoint name_chars (s : string) : bool :=
  match s with EmptyString => true | String a s => name_char a && name_chars s end.
Definition valid_name (s : string) : bool :=
  match s with
  | EmptyString => false
  | String a _ => name_chars s && negb ((48 <=? char_code a) && (char_code a <=? 57))
  end.

(** Documented behaviour of the crate: a descriptor with valid names, some help and distinct
    labels is accepted and holds what it was given; sorting keeps the pairs. *)
Class PrometheusLaws `{PrometheusCrate} : Prop := {
  desc_law name help labels :
    valid_name name = true → help ≠ "" → forallb valid_name labels = true → NoDup labels →
    desc_new name help labels = inr (mkDesc name help [] labels);
  sort_law l : sort_pairs l ≡ₚ l
}.

(** Under which name and labels a counter is exposed. *)
Definition exposed_name (c : Counter) : string :=
  match c with
  | BootstrapAttempts => "rust_dcp_bootstrap_attempts_total"
  | BootstrapSuccesses => "rust_dcp_bootstrap_successes_total"
  | BootstrapFailures => "rust_dcp_bootstrap_failures_total"
  | TopologyUpdates => "rust_dcp_topology_updates_total"
  | Reconnects => "rust_dcp_reconnects_total"
  | HealthChecks => "rust_dcp_health_checks_total"
  | HealthFailures => "rust_dcp_health_failures_total"
  | ActiveConnections => "rust_dcp_active_connections"
  | AssignedVbuckets => "rust_dcp_assigned_vbuckets"
  | DeliveredEvents => "rust_dcp_events_delivered_total"
  | ProcessedEvents => "rust_dcp_events_processed_total"
  | UnknownFrames => "rust_dcp_unknown_frames_total"
  | StreamErrors => "rust_dcp_stream_errors_total"
  | StaleGenerationDrops => "rust_dcp_stale_generation_drops_total"
  | Rollbacks => "rust_dcp_rollbacks_total"
  | RollbackMitigationDelays => "rust_dcp_rollback_mitigation_delays_total"
  | RollbackMitigationFailures => "rust_dcp_rollback_mitigation_failures_total"
  | _ => "rust_dcp_event_deliveries_total"
  end.
Definition event_type (c : Counter) : option string :=
  match c with
  | Mutations => Some "mutation"
  | Deletions => Some "deletion"
  | Expirations => Some "expiration"
  | SnapshotMarkers => Some "snapshot_marker"
  | SeqnoAdvancedEvents => Some "seqno_advanced"
  | SystemEvents => Some "system_event"
  | StreamEnds => Some "stream_end"
  | OsoSnapshots => Some "oso_snapshot"
  | _ => None
  end.
Definition exposed_labels (c : Counter) : list LabelPair :=
  match event_type c with Some v => [mkLabelPair "event_type" v] | None => [] end.
Definition is_gauge (c : Counter) : bool :=
  bool_decide (c = ActiveConnections) || bool_decide (c = AssignedVbuckets).
Definition status_label (s : DcpHealthStatus) : string :=
  match s with Starting => "starting" | Healthy => "healthy" | Degraded => "degraded"
  | Stopped => "stopped" end.

#[export] Instance LabelPair_eq_dec : EqDecision LabelPair.
Proof. solve_decision. Defined.
(** What a scrape reads for a name and labels. *)
Definition sample (families : list MetricFamily) (name : string) (labels : list LabelPair)
    : option MetricValue :=
  f ← List.find (λ f, bool_decide (mf_name f = name)) families;
  m ← List.find (λ m, bool_decide (mt_label m = labels)) (mf_metric f);
  Some (mt_value m).

Fixpoint ends_with (suffix s : string) : bool :=
  bool_decide (s = suffix)
  || match s with EmptyString => false | String _ s => ends_with suffix s end.
(** The value of a sample fits the type of its family, which its name announces. *)
Definition family_ok (f : MetricFamily) : bool :=
  match mf_type f with
  | COUNTER => ends_with "_total" (mf_name f)
               && forallb (λ m, if mt_value m is CounterValue _ then true else false) (mf_metric f)
  | GAUGE => negb (ends_with "_total" (mf_name f))
             && forallb (λ m, if mt_value m is GaugeValue _ then true else false) (mf_metric f)
  | _ => false
  end && bool_decide (NoDup (mt_label <$> mf_metric f)).

Section Correct.
Context `{PrometheusLaws}.

Lemma sort_short l : (length l ≤ 1)%nat → sort_pairs l = l.
Proof.
  intros Hl. pose proof (sort_law l) as Hp. destruct l as [|x [|y l]]; [|..|cbn in Hl; lia].
  - by apply Permutation_nil_r in Hp.
  - by apply Permutation_singleton_r in Hp.
Qed.
Lemma desc_ok name help labels :
  valid_name name && negb (bool_decide (help = "")) && forallb valid_name labels
  && bool_decide (NoDup labels) = true →
  desc name help labels = Ok (mkDesc name help [] labels).
Proof.
  intros (((Hn & Hh)%andb_true_iff & Hl)%andb_true_iff & Hd)%andb_true_iff. unfold desc.
  rewrite desc_law; [done|done| |done|by apply bool_decide_eq_true in Hd].
  intros ->. by vm_compute in Hh.
Qed.
Lemma metric_ok name help labels t v values :
  length values = length labels → (length labels ≤ 1)%nat →
  metric (mkDesc name help [] labels) t v values
  = match t with
    | COUNTER => Ok (mkMetric (zip_with mkLabelPair labels values) (CounterValue v))
    | GAUGE => Ok (mkMetric (zip_with mkLabelPair labels values) (GaugeValue v))
    | _ => Panic
    end.
Proof.
  intros Hl H1. unfold metric, len. cbn [variable_labels const_label_pairs]. rewrite Hl, Z.eqb_refl.
  cbn [negb]. rewrite app_nil_r, sort_short; [done|]. rewrite length_zip_with. lia.
Qed.
End Correct.

(** C39: The exposition is well-formed and complete.  The static descriptors are accepted; a
    collection never fails or panics and yields one family for every descriptor, in order,
    under distinct names; a family's type is announced by its name, all its samples have
    that type, and no two of them have the same labels.  Every counter and gauge of the
    client is exposed, under its own name and event type, with its value rounded to a
    double; exactly the current health status has the value one; and the failures in a row,
    the topology generation and the time of the last check, in seconds or zero, are those of
    the health state. *)
Theorem prometheus_exposition `{PrometheusCrate} :
  PrometheusLaws →
  ∃ d, collector_new = Ok d ∧ ∀ metrics health, ∃ families,
    collect d metrics health = Ok families
    ∧ mf_name <$> families = fq_name <$> descriptors_all d
    ∧ NoDup (mf_name <$> families) ∧ forallb family_ok families = true
    ∧ (∀ c, sample families (exposed_name c) (exposed_labels c)
            = Some ((if is_gauge c then GaugeValue else CounterValue) (number (metrics c))))
    ∧ (∀ s, sample families "rust_dcp_health_status" [mkLabelPair "status" (status_label s)]
            = Some (GaugeValue (f64_of_Z (if bool_decide (hl_status health = s) then 1 else 0))))
    ∧ sample families "rust_dcp_health_consecutive_failures" []
      = Some (GaugeValue (number (hl_consecutive_failures health)))
    ∧ sample families "rust_dcp_health_topology_generation" []
      = Some (GaugeValue (number (hl_topology_generation health)))
    ∧ sample families "rust_dcp_health_last_check_timestamp_seconds" []
      = Some (GaugeValue (match hl_last_check health with
                          | Some t => if decide (0 ≤ t) then as_secs_f64 t else f64_of_Z 0
                          | None => f64_of_Z 0
                          end)).
Proof.
  intros Hlaws. unfold collector_new, descriptors_new, lifecycle_descriptors, delivery_descriptors,
    health_descriptors. rewrite !desc_ok by (vm_compute; reflexivity). eexists. split; [reflexivity|].
  intros metrics health. unfold collect, collect_lifecycle, collect_delivery_and_recovery, collect_health,
    counter_family, gauge_family, family.
  cbn -[metric number f64_of_Z status_value unix_timestamp_seconds].
  rewrite !metric_ok by (cbn; lia). 
  eexists. split; [reflexivity|]. split; [reflexivity|].
  split; [apply (bool_decide_unpack _); vm_compute; exact I|].
  split; [cbv -[number f64_of_Z unix_timestamp_seconds status_value]; reflexivity|].
  split_and!; [|..|cbv -[number f64_of_Z unix_timestamp_seconds]; reflexivity|cbv -[number f64_of_Z unix_timestamp_seconds]; reflexivity|].
  - intros []; cbv -[number f64_of_Z unix_timestamp_seconds]; reflexivity.
  - intros s. unfold status_value.
    destruct s, (hl_status health); cbv -[number f64_of_Z unix_timestamp_seconds]; reflexivity.
  - destruct (hl_last_check health) as [t|]; [|cbv -[number f64_of_Z unix_timestamp_seconds]; reflexivity].
    transitivity (Some (GaugeValue (unix_timestamp_seconds t)));
      [cbv -[number f64_of_Z unix_timestamp_seconds]; reflexivity|].
    unfold unix_timestamp_seconds.
    by destruct (Z.ltb_spec t 0), (decide (0 ≤ t)); [lia|..|lia].
Qed.

Definition sample_crate : PrometheusCrate := {|
  desc_new name help labels :=
    if valid_name name then inr (mkDesc name help [] labels) else inl "invalid descriptor";
  sort_pairs l := l |}.
Lemma prometheus_exposition_witness :
  ∃ d families, @collector_new sample_crate = Ok d
    ∧ @collect sample_crate d (increment Mutations metrics_zero) health_default = Ok families
    ∧ length families = 22%nat.
Proof.
  assert (@PrometheusLaws sample_crate) as Hl.
  { split; [|intros l; reflexivity]. intros name help labels Hn _ _ _. cbn. rewrite Hn. reflexivity. }
  destruct (@prometheus_exposition sample_crate Hl) as (d & Hd & Hc).
  destruct (Hc (increment Mutations metrics_zero) health_default) as (families & Hf & Hn & _).
  exists d, families. split; [exact Hd|]. split; [exact Hf|].
  rewrite <-(length_fmap mf_name families), Hn. reflexivity.
Defined.
