(* ===== verification/Sdk.v ===== *)
(** * The adapters over the Couchbase SDK ([rust-dcp-couchbase-sdk])

    [checkpoint.rs] and [membership.rs]: the collection of the Couchbase checkpoint store and
    the store of the membership registry, both over a collection of the official SDK.  The
    SDK is a class: [SdkCollection] names what the adapters call, [SdkSubdocLaws] and
    [SdkDocumentLaws] state what its documentation promises.  From these laws the checkpoint adapter is a lawful collection
    ([XattrCollection]), so that every theorem of [StoreCouchbase] holds of it, and the
    membership adapter refines the store of [MembershipSpec]. *)
From S2P Require Import Prelude Text Types Command Errors Checkpoint Config Async.
From S2P Require Import Store StoreSpec StoreCouchbase.
From S2P Require Import Assignment Membership MembershipRuntime MembershipSpec.

(** ** The SDK *)

(** The kinds of error the adapters tell apart, and the text of an error. *)
Inductive ErrorKind : Type :=
| DocumentNotFound
| PathNotFound
| DocumentExists
| CasMismatch
| OtherKind.
#[export] Instance ErrorKind_eq_dec : EqDecision ErrorKind.
Proof. solve_decision. Defined.
Record SdkError : Type := mkSdkError {
  error_kind : ErrorKind;
  error_text : string
}.
Inductive StoreSemantics : Type := SemReplace | SemUpsert | SemInsert.

(** The specs of sub-document calls, a path in the document or in its attributes. *)
Record LookupInSpec : Type := mkLookupInSpec {
  ls_path : string;
  ls_is_xattr : bool
}.
Record MutateInSpec : Type := mkMutateInSpec {
  ms_path : string;
  ms_value : bytes;
  ms_is_xattr : bool
}.
Record MutateInOptions : Type := mkMutateInOptions {
  mi_store_semantics : option StoreSemantics
}.
Record ReplaceOptions : Type := mkReplaceOptions {
  ro_cas : option Z
}.

(** A future of the SDK, [None] while it never completes, and its [?]. *)
Definition SdkFuture (S A : Type) : Type := S → option (SdkError + A) * S.
Definition sdk_ret {S A} (r : SdkError + A) : SdkFuture S A := λ s, (Some r, s).
Definition sdk_bind {S A B} (m : SdkFuture S A) (k : A → SdkFuture S B) : SdkFuture S B := λ s,
  let '(r, s') := m s in
  match r with
  | Some (inr a) => k a s'
  | Some (inl e) => (Some (inl e), s')
  | None => (None, s')
  end.

(** [couchbase::collection::Collection] and [transcoding::raw_json]. *)
Class SdkCollection (C S : Type) : Type := {
  LookupInResult : Type;
  GetResult : Type;
  lookup_in : C → string → list LookupInSpec → SdkFuture S LookupInResult;
  content_as_raw : LookupInResult → nat → SdkError + bytes;
  mutate_in : C → string → list MutateInSpec → MutateInOptions → SdkFuture S unit;
  sdk_remove : C → string → SdkFuture S unit;
  sdk_get : C → string → SdkFuture S GetResult;
  get_content : GetResult → bytes;
  get_cas : GetResult → Z;
  insert_raw : C → string → bytes → Z → SdkFuture S unit;
  replace_raw : C → string → bytes → Z → ReplaceOptions → SdkFuture S unit;
  raw_json_encode : bytes → SdkError + bytes * Z
}.

(** ** The checkpoint collection ([checkpoint.rs]) *)
Class SdkCheckpointClient (T S : Type) : Type := {
  client_get_xattr : T → string → string → SdkFuture S bytes;
  client_upsert_xattr : T → string → string → bytes → SdkFuture S unit;
  client_remove_document : T → string → SdkFuture S unit
}.
Record OfficialCheckpointClient (C : Type) : Type := mkOfficialCheckpoint {
  oc_collection : C
}.
Arguments mkOfficialCheckpoint {C}.
Arguments oc_collection {C}.
Record CouchbaseSdkCheckpointCollection (T : Type) : Type := mkSdkCheckpoint {
  sc_client : T
}.
Arguments mkSdkCheckpoint {T}.
Arguments sc_client {T}.

Definition checkpoint_lookup_spec (xattr : string) : LookupInSpec := mkLookupInSpec xattr true.
Definition checkpoint_upsert_spec (xattr : string) (value : bytes) : MutateInSpec :=
  mkMutateInSpec xattr value true.
Definition checkpoint_upsert_options : MutateInOptions := mkMutateInOptions (Some SemUpsert).
Definition is_missing_xattr (error : SdkError) : bool :=
  match error_kind error with DocumentNotFound | PathNotFound => true | _ => false end.
Definition checkpoint_error (error : SdkError) : DcpError :=
  CheckpointStoreError ("official Couchbase SDK checkpoint operation failed: "
    +:+ error_text error).

Section Official.
Context {C S : Type} `{SdkCollection C S}.

Definition official_get_xattr (self : OfficialCheckpointClient C) (key xattr : string)
    : SdkFuture S bytes :=
  sdk_bind (lookup_in (oc_collection self) key [checkpoint_lookup_spec xattr])
    (λ result, sdk_ret (content_as_raw result 0)).
Definition official_upsert_xattr (self : OfficialCheckpointClient C) (key xattr : string)
    (value : bytes) : SdkFuture S unit :=
  mutate_in (oc_collection self) key [checkpoint_upsert_spec xattr value]
    checkpoint_upsert_options.
Definition official_remove_document (self : OfficialCheckpointClient C) (key : string)
    : SdkFuture S unit :=
  sdk_remove (oc_collection self) key.
#[export] Instance official_checkpoint_client :
  SdkCheckpointClient (OfficialCheckpointClient C) S := {|
  client_get_xattr := official_get_xattr;
  client_upsert_xattr := official_upsert_xattr;
  client_remove_document := official_remove_document
|}.
Definition sdk_checkpoint_new (collection : C)
    : CouchbaseSdkCheckpointCollection (OfficialCheckpointClient C) :=
  mkSdkCheckpoint (mkOfficialCheckpoint collection).
End Official.

Section CheckpointAdapter.
Context {T S : Type} `{SdkCheckpointClient T S}.
Implicit Types self : CouchbaseSdkCheckpointCollection T.

Definition sdk_get_xattr self (key xattr : string) : io S (option bytes) := λ s,
  let '(r, s') := client_get_xattr (sc_client self) key xattr s in
  (match r with
   | None => Hang
   | Some (inr value) => Done (Ok (Some value))
   | Some (inl error) =>
       if is_missing_xattr error then Done (Ok None) else Done (Err (checkpoint_error error))
   end, s').
Definition sdk_upsert_xattr self (key xattr : string) (value : bytes) : io S unit := λ s,
  let '(r, s') := client_upsert_xattr (sc_client self) key xattr value s in
  (match r with
   | None => Hang
   | Some (inr _) => Done (Ok tt)
   | Some (inl error) => Done (Err (checkpoint_error error))
   end, s').
Definition sdk_remove_document self (key : string) : io S unit := λ s,
  let '(r, s') := client_remove_document (sc_client self) key s in
  (match r with
   | None => Hang
   | Some (inr _) => Done (Ok tt)
   | Some (inl error) =>
       if bool_decide (error_kind error = DocumentNotFound) then Done (Ok tt)
       else Done (Err (checkpoint_error error))
   end, s').

#[export] Instance sdk_checkpoint_collection :
  CouchbaseCheckpointCollection (CouchbaseSdkCheckpointCollection T) S := {|
  get_xattr := sdk_get_xattr;
  upsert_xattr := sdk_upsert_xattr;
  remove_document := sdk_remove_document
|}.
End CheckpointAdapter.

(** ** The membership store ([membership.rs]) *)
Record SdkDocument : Type := mkSdkDocument {
  sdk_value : bytes;
  sdk_cas : Z
}.
Class SdkMembershipClient (T S : Type) : Type := {
  client_load : T → string → SdkFuture S SdkDocument;
  client_create : T → string → bytes → SdkFuture S unit;
  client_replace : T → string → bytes → Z → SdkFuture S unit
}.
Record OfficialMembershipClient (C : Type) : Type := mkOfficialMembership {
  om_collection : C
}.
Arguments mkOfficialMembership {C}.
Arguments om_collection {C}.
Record CouchbaseSdkMembershipStore (T : Type) : Type := mkSdkMembership {
  sm_client : T
}.
Arguments mkSdkMembership {T}.
Arguments sm_client {T}.

Section OfficialMembership.
Context {C S : Type} `{SdkCollection C S}.

Definition official_load (self : OfficialMembershipClient C) (key : string)
    : SdkFuture S SdkDocument :=
  sdk_bind (sdk_get (om_collection self) key)
    (λ result, sdk_ret (inr (mkSdkDocument (get_content result) (get_cas result)))).
Definition official_create (self : OfficialMembershipClient C) (key : string) (value : bytes)
    : SdkFuture S unit :=
  sdk_bind (sdk_ret (raw_json_encode value))
    (λ '(value, flags), insert_raw (om_collection self) key value flags).
Definition official_replace (self : OfficialMembershipClient C) (key : string) (value : bytes)
    (cas : Z) : SdkFuture S unit :=
  sdk_bind (sdk_ret (raw_json_encode value))
    (λ '(value, flags),
       replace_raw (om_collection self) key value flags (mkReplaceOptions (Some cas))).
#[export] Instance official_membership_client :
  SdkMembershipClient (OfficialMembershipClient C) S := {|
  client_load := official_load;
  client_create := official_create;
  client_replace := official_replace
|}.
Definition sdk_membership_new (collection : C)
    : CouchbaseSdkMembershipStore (OfficialMembershipClient C) :=
  mkSdkMembership (mkOfficialMembership collection).
End OfficialMembership.

(** [MembershipStore]: the calls of [mutate_registry], [None] while one never completes. *)
Class MembershipStore (T S : Type) : Type := {
  store_load : T → string → S → option (mresult (option StoredRegistryDocument)) * S;
  store_create : T → string → bytes → S → option (mresult StoreWriteResult) * S;
  store_replace : T → string → bytes → Z → S → option (mresult StoreWriteResult) * S
}.
(** The conditional write of an attempt ([runtime.rs], [mutate_registry_without_timeout]). *)
Definition conditional_write {T S} `{MembershipStore T S} (store : T) (key : string)
    (value : bytes) (cas : option Z) : S → option (mresult StoreWriteResult) * S :=
  match cas with
  | Some cas => store_replace store key value cas
  | None => store_create store key value
  end.

Definition membership_error (error : SdkError) : CouchbaseMembershipError :=
  MStore ("official Couchbase SDK membership operation failed: " +:+ error_text error).

Section MembershipAdapter.
Context {T S : Type} `{SdkMembershipClient T S}.
Implicit Types self : CouchbaseSdkMembershipStore T.

Definition sdk_load self (key : string) (s : S)
    : option (mresult (option StoredRegistryDocument)) * S :=
  let '(r, s') := client_load (sm_client self) key s in
  (match r with
   | None => None
   | Some (inr document) => Some (Ok (Some (mkStored (sdk_value document) (sdk_cas document))))
   | Some (inl error) =>
       Some (if bool_decide (error_kind error = DocumentNotFound) then Ok None
             else Err (membership_error error))
   end, s').
Definition sdk_create self (key : string) (value : bytes) (s : S)
    : option (mresult StoreWriteResult) * S :=
  let '(r, s') := client_create (sm_client self) key value s in
  (match r with
   | None => None
   | Some (inr _) => Some (Ok Stored)
   | Some (inl error) =>
       Some (if bool_decide (error_kind error = DocumentExists) then Ok Conflict
             else Err (membership_error error))
   end, s').
Definition sdk_replace self (key : string) (value : bytes) (cas : Z) (s : S)
    : option (mresult StoreWriteResult) * S :=
  let '(r, s') := client_replace (sm_client self) key value cas s in
  (match r with
   | None => None
   | Some (inr _) => Some (Ok Stored)
   | Some (inl error) =>
       Some match error_kind error with
            | CasMismatch | DocumentNotFound => Ok Conflict
            | _ => Err (membership_error error)
            end
   end, s').

#[export] Instance sdk_membership_store : MembershipStore (CouchbaseSdkMembershipStore T) S := {|
  store_load := sdk_load;
  store_create := sdk_create;
  store_replace := sdk_replace
|}.
End MembershipAdapter.

(** ** What the SDK promises *)

(** Sub-document calls on one attribute: a lookup changes nothing and tells a missing
    document or path from every other error; an upsert with upsert semantics creates the
    document if need be, and may have taken effect when it fails; so may a removal. *)
Class SdkSubdocLaws {C S : Type} `{SdkCollection C S} (self : C)
    (xattr : S → string → string → option bytes) : Prop := {
  lookup_law key x s r s' :
    lookup_in self key [mkLookupInSpec x true] s = (r, s') →
    (∀ k y, xattr s' k y = xattr s k y)
    ∧ match r with
      | Some (inr result) =>
          match content_as_raw result 0 with
          | inr v => xattr s key x = Some v
          | inl e => is_missing_xattr e = true → xattr s key x = None
          end
      | Some (inl e) => is_missing_xattr e = true → xattr s key x = None
      | None => True
      end;
  mutate_law key x v s r s' :
    mutate_in self key [mkMutateInSpec x v true] (mkMutateInOptions (Some SemUpsert)) s = (r, s') →
    (∀ k y, (k, y) ≠ (key, x) → xattr s' k y = xattr s k y)
    ∧ (xattr s' key x = xattr s key x ∨ xattr s' key x = Some v)
    ∧ (r = Some (inr tt) → xattr s' key x = Some v);
  sdk_remove_law key s r s' :
    sdk_remove self key s = (r, s') →
    (∀ k y, k ≠ key → xattr s' k y = xattr s k y)
    ∧ ((∀ y, xattr s' key y = xattr s key y) ∨ ∀ y, xattr s' key y = None)
    ∧ match r with
      | Some (inr _) => ∀ y, xattr s' key y = None
      | Some (inl e) => error_kind e = DocumentNotFound → ∀ y, xattr s' key y = None
      | None => True
      end
}.

(** Whole documents under compare-and-swap tokens that only grow.  A replacement with the
    token 0 would be unconditional, and nothing is promised of it. *)
Definition kept {S} (document : S → string → option StoredRegistryDocument) (last_cas : S → Z)
    (key : string) (s s' : S) : Prop :=
  document s' key = document s key ∧ last_cas s ≤ last_cas s'.
Definition written {S} (document : S → string → option StoredRegistryDocument)
    (last_cas : S → Z) (key : string) (value : bytes) (s s' : S) : Prop :=
  document s' key = Some (mkStored value (last_cas s')) ∧ last_cas s < last_cas s'.
Class SdkDocumentLaws {C S : Type} `{SdkCollection C S} (self : C)
    (document : S → string → option StoredRegistryDocument) (last_cas : S → Z) : Prop := {
  encode_law value value' flags : raw_json_encode value = inr (value', flags) → value' = value;
  sdk_get_law key s r s' :
    sdk_get self key s = (r, s') →
    kept document last_cas key s s'
    ∧ match r with
      | Some (inr result) => document s key = Some (mkStored (get_content result) (get_cas result))
      | Some (inl e) => error_kind e = DocumentNotFound → document s key = None
      | None => True
      end;
  insert_law key value flags s r s' :
    insert_raw self key value flags s = (r, s') →
    match r with
    | Some (inl e) => kept document last_cas key s s'
        ∨ error_kind e ≠ DocumentExists
          ∧ document s key = None ∧ written document last_cas key value s s'
    | Some (inr _) => document s key = None ∧ written document last_cas key value s s'
    | None => kept document last_cas key s s'
        ∨ document s key = None ∧ written document last_cas key value s s'
    end;
  replace_law key value flags cas s r s' :
    cas ≠ 0 →
    replace_raw self key value flags (mkReplaceOptions (Some cas)) s = (r, s') →
    let current := sr_cas <$> document s key = Some cas in
    match r with
    | Some (inl e) => kept document last_cas key s s'
        ∨ error_kind e ≠ CasMismatch ∧ error_kind e ≠ DocumentNotFound
          ∧ current ∧ written document last_cas key value s s'
    | Some (inr _) => current ∧ written document last_cas key value s s'
    | None => kept document last_cas key s s'
        ∨ current ∧ written document last_cas key value s s'
    end
}.

(** ** The checkpoint adapter is a lawful collection *)
Section CheckpointLaws.
Context {C S : Type} `{SdkCollection C S} (collection : C)
        (xattr : S → string → string → option bytes) `{!SdkSubdocLaws collection xattr}.

#[export] Instance sdk_checkpoint_lawful : XattrCollection (sdk_checkpoint_new collection) xattr.
Proof.
  split; intros; unfold wp; cbn.
  - unfold sdk_get_xattr. cbn. unfold official_get_xattr, sdk_bind, checkpoint_lookup_spec, sdk_ret.
    cbn [oc_collection].
    destruct (lookup_in collection key [mkLookupInSpec x true] s) as [r s'] eqn:Hr.
    apply lookup_law in Hr as [Hs Hr].
    destruct r as [[e|result]|]; cbn; [..|by split].
    + destruct (is_missing_xattr e); (split; [done|]); intros v [= <-]. by rewrite Hr.
    + destruct (content_as_raw result 0) as [e|v]; cbn.
      * destruct (is_missing_xattr e); (split; [done|]); intros v [= <-]. by rewrite Hr.
      * split; [done|]. by intros v' [= <-].
  - unfold sdk_upsert_xattr. cbn. unfold official_upsert_xattr, checkpoint_upsert_spec, checkpoint_upsert_options.
    cbn [oc_collection]. destruct (mutate_in collection key [mkMutateInSpec x v true] (mkMutateInOptions (Some SemUpsert)) s)
      as [r s'] eqn:Hr.
    apply mutate_law in Hr as (H1 & H2 & H3).
    destruct r as [[e|[]]|]; cbn; (split_and!; [done..|]); try done. intros _. by apply H3.
  - unfold sdk_remove_document. cbn. unfold official_remove_document. cbn [oc_collection].
    destruct (sdk_remove collection key s) as [r s'] eqn:Hr.
    apply sdk_remove_law in Hr as (H1 & H2 & H3).
    destruct r as [[e|[]]|]; cbn; (split_and!; [done..|]); try done.
    case_bool_decide; [|done]. intros _. by apply H3.
Qed.
End CheckpointLaws.

(** ** The membership adapter refines the store of a group *)
Section MembershipLaws.
Context (from_slice : bytes → string + RegistryDocument)
        (to_vec : RegistryDocument → string + bytes).

(** A loaded token is never 0, so that every replacement is conditional. *)
Definition tokens_positive (g : Group) : Prop :=
  0 ≤ gr_last_cas g
  ∧ (∀ st, gr_store g = Some st → 0 < sr_cas st)
  ∧ ∀ p w c, gr_pending g !! p = Some w → pw_cas w = Some c → 0 < c.

Lemma attempt_token config action stale stored now registry value cas s :
  attempt_begin from_slice to_vec config action stale stored now
    = Ok (AttemptWrite registry value cas s) → cas = sr_cas <$> stored.
Proof.
  unfold attempt_begin. intros Ha. repeat (case_match; try done); by simplify_eq.
Qed.
Lemma tokens_step g g' :
  group_step from_slice to_vec g g' → tokens_positive g → tokens_positive g'.
Proof.
  assert (∀ i s g0, tokens_positive g0 → tokens_positive (issue i s g0)) as Hissue
    by (by intros i [s|] g0).
  assert (∀ p g0, tokens_positive g0 →
    tokens_positive (with_pending (delete p (gr_pending g0)) g0)) as Hdelete.
  { intros p g0 (H1 & H2 & H3). split_and!; [done..|]. cbn.
    intros p' w c [_ Hl]%lookup_delete_Some. by eapply H3. }
  assert (∀ w cas g0, gr_last_cas g0 < cas → tokens_positive g0 →
    tokens_positive (store_write w cas g0)) as Hwrite.
  { intros w cas g0 Hc (H1 & H2 & H3). split_and!; cbn; [lia|intros st [= <-]; cbn; lia|done]. }
  intros [] Hg; [by apply Hissue| |apply Hissue, Hwrite; [done|by apply Hdelete]
    |apply Hwrite; [done|by apply Hdelete]|by apply Hdelete].
  destruct Hg as (G1 & G2 & G3). split_and!; [done..|]. cbn.
  intros p' w c [[_ <-]|[_ Hl]]%lookup_insert_Some; [|by eapply G3].
  cbn. match goal with H : attempt_begin _ _ _ _ _ _ _ = _ |- _ => apply attempt_token in H as -> end.
  intros (st & Hst & ->)%fmap_Some. by apply G2.
Qed.
Lemma tokens_reachable g : group_reachable from_slice to_vec g → tokens_positive g.
Proof.
  intros Hg. unfold group_reachable in Hg. remember group_empty as g0 eqn:He.
  assert (tokens_positive g0) as H0.
  { subst. split_and!; cbn; [lia|done|]. intros p w c Hl. by rewrite lookup_empty in Hl. }
  clear He. induction Hg as [|g0 g1 g2 Hstep _ IH]; [done|]. by apply IH, (tokens_step g0).
Qed.

Context {C S : Type} `{SdkCollection C S} (collection : C)
        (document : S → string → option StoredRegistryDocument) (last_cas : S → Z).

(** The group's view of the registry document. *)
Definition holds (key : string) (s : S) (g : Group) : Prop :=
  document s key = gr_store g ∧ gr_last_cas g ≤ last_cas s.

(** The write of a pending attempt took effect, or it did not. *)
Definition not_stored (p : nat) (g : Group) : Group :=
  with_pending (delete p (gr_pending g)) g.
Definition stored_unseen (p : nat) (w : PendingWrite) (cas : Z) (g : Group) : Group :=
  store_write w cas (not_stored p g).

Definition write_effect (key : string) (p : nat) (w : PendingWrite) (g : Group)
    (r : option (mresult StoreWriteResult)) (s' : S) (g' : Group) : Prop :=
  group_step from_slice to_vec g g' ∧ holds key s' g'
  ∧ match r with
    | Some (Ok Stored) =>
        pw_cas w = sr_cas <$> gr_store g
        ∧ g' = issue (pw_identity w) (pw_snapshot w) (stored_unseen p w (last_cas s') g)
    | Some (Ok Conflict) => g' = not_stored p g
    | Some Panic => False
    | _ => g' = not_stored p g ∨ g' = stored_unseen p w (last_cas s') g
    end.

Lemma effect_kept key p w g r s s' :
  holds key s g → kept document last_cas key s s' →
  match r with Some (Ok Stored) | Some Panic => False | _ => True end →
  ∃ g', write_effect key p w g r s' g'.
Proof.
  intros [H1 H2] [K1 K2] Hr. exists (not_stored p g). split_and!; [apply gs_not_stored| |].
  - split; cbn; [congruence|lia].
  - destruct r as [[[]| |]|]; try done; by left.
Qed.
Lemma effect_written key p w g r s s' :
  holds key s g → gr_pending g !! p = Some w → sr_cas <$> document s key = pw_cas w →
  written document last_cas key (pw_value w) s s' →
  match r with Some (Ok Conflict) | Some Panic => False | _ => True end →
  ∃ g', write_effect key p w g r s' g'.
Proof.
  intros [H1 H2] Hp Hc [W1 W2] Hr. rewrite H1 in Hc.
  assert (gr_last_cas g < last_cas s') as Hl by lia.
  assert (∀ i x, holds key s' (issue i x (stored_unseen p w (last_cas s') g))) as Hh
    by (intros i [x|]; split; cbn; [done|lia|done|lia]).
  destruct r as [[[]| |]|]; try done.
  - eexists. split_and!; [by eapply gs_stored|by apply Hh|done..].
  - eexists. split_and!; [by eapply gs_stored_reply_lost|by apply (Hh (pw_identity w) None)|by right].
  - eexists. split_and!; [by eapply gs_stored_reply_lost|by apply (Hh (pw_identity w) None)|by right].
Qed.

Context `{!SdkDocumentLaws collection document last_cas}.

Lemma sdk_load_spec key s g r s' :
  holds key s g → store_load (sdk_membership_new collection) key s = (r, s') →
  holds key s' g ∧ r ≠ Some Panic ∧ ∀ d, r = Some (Ok d) → d = gr_store g.
Proof.
  intros [H1 H2]. cbn. unfold sdk_load. cbn. unfold official_load, sdk_bind, sdk_ret.
  cbn [om_collection].
  destruct (sdk_get collection key s) as [r0 s0] eqn:Hr. apply sdk_get_law in Hr as [[K1 K2] Hr].
  assert (holds key s0 g) as Hh by (split; [congruence|lia]).
  destruct r0 as [[e|result]|]; cbn; intros [= <- <-]; (split_and!; [done|try done..]).
  - by case_bool_decide.
  - case_bool_decide; intros d [= <-]. by rewrite <-H1, Hr.
  - intros d [= <-]. by rewrite <-H1, Hr.
Qed.

Lemma sdk_create_spec key w s g p r s' :
  holds key s g → gr_pending g !! p = Some w → pw_cas w = None →
  store_create (sdk_membership_new collection) key (pw_value w) s = (r, s') → ∃ g', write_effect key p w g r s' g'.
Proof.
  intros Hh Hp Hc. cbn. unfold sdk_create. cbn. unfold official_create, sdk_bind, sdk_ret.
  cbn [om_collection].
  destruct (raw_json_encode (pw_value w)) as [e|[v flags]] eqn:He.
  { intros [= <- <-]. apply (effect_kept _ _ _ _ _ s); [done|by split|]. by case_bool_decide. }
  apply encode_law in He as ->.
  destruct (insert_raw collection key _ flags s) as [r0 s0] eqn:Hr. apply insert_law in Hr.
  destruct r0 as [[e|[]]|]; intros [= <- <-].
  - destruct Hr as [Hk|(Hne & Hd & Hw)].
    + apply (effect_kept _ _ _ _ _ s); [done..|]. by case_bool_decide.
    + rewrite bool_decide_false by done. apply (effect_written _ _ _ _ _ s); [done..| |done|done].
      by rewrite Hd, Hc.
  - destruct Hr as [Hd Hw]. apply (effect_written _ _ _ _ _ s); [done..| |done|done].
    by rewrite Hd, Hc.
  - destruct Hr as [Hk|[Hd Hw]].
    + by apply (effect_kept _ _ _ _ _ s).
    + apply (effect_written _ _ _ _ _ s); [done..| |done|done]. by rewrite Hd, Hc.
Qed.
Lemma sdk_replace_spec key w s g p cas r s' :
  holds key s g → gr_pending g !! p = Some w → pw_cas w = Some cas → cas ≠ 0 →
  store_replace (sdk_membership_new collection) key (pw_value w) cas s = (r, s') → ∃ g', write_effect key p w g r s' g'.
Proof.
  intros Hh Hp Hc H0. cbn. unfold sdk_replace. cbn. unfold official_replace, sdk_bind, sdk_ret.
  cbn [om_collection].
  destruct (raw_json_encode (pw_value w)) as [e|[v flags]] eqn:He.
  { intros [= <- <-]. apply (effect_kept _ _ _ _ _ s); [done|by split|]. by destruct (error_kind e). }
  apply encode_law in He as ->.
  destruct (replace_raw collection key _ flags _ s) as [r0 s0] eqn:Hr. apply replace_law in Hr; [|done].
  destruct r0 as [[e|[]]|]; intros [= <- <-].
  - destruct Hr as [Hk|(Hn1 & Hn2 & Hd & Hw)].
    + apply (effect_kept _ _ _ _ _ s); [done..|]. by destruct (error_kind e).
    + apply (effect_written _ _ _ _ _ s); [done..|by rewrite Hd, Hc|done|].
      by destruct (error_kind e).
  - destruct Hr as [Hd Hw]. apply (effect_written _ _ _ _ _ s); [done..| |done|done].
    by rewrite Hd, Hc.
  - destruct Hr as [Hk|[Hd Hw]].
    + by apply (effect_kept _ _ _ _ _ s).
    + apply (effect_written _ _ _ _ _ s); [done..| |done|done]. by rewrite Hd, Hc.
Qed.

(** C36: the membership adapter refines the store of a group.  From any reachable group whose
    registry document is the one in the collection: a load that returns yields the current
    revision with its token, or its absence, and changes nothing; the conditional write of
    any pending attempt is a step of the group, whatever the SDK answers and even when it
    never answers.  It reports [Stored] only if the revision was still the loaded one and the
    document now holds exactly the attempt's bytes under a new token; it reports a conflict
    only if nothing was written, so that a conflicting revision is never taken for success;
    on any other error the write may or may not have taken effect, which the group allows. *)
Theorem sdk_membership_refines key s g :
  group_reachable from_slice to_vec g → holds key s g →
  (∀ r s', store_load (sdk_membership_new collection) key s = (r, s') →
     holds key s' g ∧ r ≠ Some Panic ∧ ∀ d, r = Some (Ok d) → d = gr_store g)
  ∧ ∀ p w r s', gr_pending g !! p = Some w →
      conditional_write (sdk_membership_new collection) key (pw_value w) (pw_cas w) s = (r, s') →
      ∃ g', write_effect key p w g r s' g'.
Proof.
  intros Hg Hh. split; [intros r s'; by apply sdk_load_spec|].
  intros p w r s' Hp. unfold conditional_write. destruct (pw_cas w) as [cas|] eqn:Hc.
  - apply tokens_reachable in Hg as (_ & _ & Ht). specialize (Ht p w cas Hp Hc).
    apply sdk_replace_spec; [done..|lia].
  - by apply sdk_create_spec.
Qed.
End MembershipLaws.

(** ** A collection in memory *)
Record Memory : Type := mkMemory {
  me_documents : gmap string StoredRegistryDocument;
  me_xattrs : gmap (string * string) bytes;
  me_clock : Z
}.
Definition memory_put (key : string) (value : bytes) : SdkFuture Memory unit := λ m,
  let cas := me_clock m + 1 in
  (Some (inr tt), mkMemory (<[key := mkStored value cas]> (me_documents m)) (me_xattrs m) cas).
Definition memory_fail {A} (kind : ErrorKind) : SdkFuture Memory A :=
  sdk_ret (inl (mkSdkError kind "")).
#[local] Instance memory_collection : SdkCollection unit Memory := {|
  LookupInResult := SdkError + bytes;
  GetResult := StoredRegistryDocument;
  lookup_in _ key specs m :=
    (Some (inr match specs with
               | [spec] => match me_xattrs m !! (key, ls_path spec) with
                           | Some v => inr v
                           | None => inl (mkSdkError PathNotFound "")
                           end
               | _ => inl (mkSdkError OtherKind "")
               end), m);
  content_as_raw result i := if bool_decide (i = 0%nat) then result else inl (mkSdkError OtherKind "");
  mutate_in _ key specs _ m :=
    match specs with
    | [spec] => (Some (inr tt), mkMemory (me_documents m)
                   (<[(key, ms_path spec) := ms_value spec]> (me_xattrs m)) (me_clock m))
    | _ => memory_fail OtherKind m
    end;
  sdk_remove _ key m :=
    (Some (inr tt), mkMemory (me_documents m) (filter (λ e, e.1.1 ≠ key) (me_xattrs m)) (me_clock m));
  sdk_get _ key m :=
    match me_documents m !! key with
    | Some d => sdk_ret (inr d) m
    | None => memory_fail DocumentNotFound m
    end;
  get_content := sr_value;
  get_cas := sr_cas;
  insert_raw _ key value _ m :=
    match me_documents m !! key with
    | Some _ => memory_fail DocumentExists m
    | None => memory_put key value m
    end;
  replace_raw _ key value _ options m :=
    match me_documents m !! key, ro_cas options with
    | Some d, Some cas =>
        if cas =? sr_cas d then memory_put key value m else memory_fail CasMismatch m
    | Some _, None => memory_put key value m
    | None, _ => memory_fail DocumentNotFound m
    end;
  raw_json_encode value := inr (value, 0)
|}.
Definition memory_document (m : Memory) (key : string) : option StoredRegistryDocument :=
  me_documents m !! key.
Lemma memory_put_written key value m :
  written memory_document me_clock key value m (memory_put key value m).2.
Proof. split; [apply lookup_insert_eq|cbn; lia]. Qed.
Lemma memory_laws : SdkDocumentLaws (H := memory_collection) tt memory_document me_clock.
Proof.
  split.
  - by intros value value' flags [= <- _].
  - intros key m r m'. cbn. unfold kept, memory_document.
    destruct (me_documents m !! key) as [d|] eqn:Hd; intros [= <- <-].
    + split; [by split|]. by destruct d.
    + by split.
  - intros key value flags m r m'. cbn. unfold kept, memory_document.
    destruct (me_documents m !! key) as [d|] eqn:Hd.
    + intros [= <- <-]. by left.
    + intros [= <- <-]. split; [done|]. apply (memory_put_written key value m).
  - intros key value flags cas m r m' _. cbn. unfold kept, memory_document.
    destruct (me_documents m !! key) as [d|] eqn:Hd.
    + destruct (Z.eqb_spec cas (sr_cas d)) as [->|].
      * intros [= <- <-]. split; [done|]. apply (memory_put_written key value m).
      * intros [= <- <-]. by left.
    + intros [= <- <-]. by left.
Qed.

(** One member is registered, a second one has loaded that revision. *)
Definition sample_write : PendingWrite := wit_write "b" wit_doc2 [2] (Some 1).
Definition sample_group : Group :=
  with_pending (<[0%nat := sample_write]> (gr_pending wit_group1)) wit_group1.
Definition sample_memory : Memory := mkMemory {["registry" := mkStored [1] 1]} ∅ 1.
Lemma sample_group_reachable : group_reachable wit_from_slice wit_to_vec sample_group.
Proof.
  unfold group_reachable.
  etrans; [apply (wit_register "a" 0 [1] None group_empty wit_doc1); [by apply wit_id_ok|done|done|]|].
  { vm_compute. reflexivity. }
  apply rtc_once. apply (gs_begin _ _ wit_group1 0 (wit_config "b") 5000 ActRegister 10).
  - by apply wit_member_config, wit_id_ok.
  - reflexivity.
  - vm_compute. reflexivity.
Qed.
Lemma sdk_membership_refines_witness :
  let store := sdk_membership_new tt in
  let run := conditional_write store "registry" [2] (Some 1) sample_memory in
  run.1 = Some (Ok Stored)
  ∧ ∃ g', write_effect wit_from_slice wit_to_vec memory_document me_clock "registry" 0
            sample_write sample_group run.1 run.2 g'.
Proof.
  intros store run. split; [vm_compute; reflexivity|].
  destruct (sdk_membership_refines wit_from_slice wit_to_vec (H := memory_collection) tt
    memory_document me_clock (SdkDocumentLaws0 := memory_laws) "registry" sample_memory sample_group)
    as [_ Hw].
  - exact sample_group_reachable.
  - split; [vm_compute; reflexivity|vm_compute; discriminate].
  - apply (Hw 0%nat sample_write); [reflexivity|apply surjective_pairing].
Defined.
(** A token that is no longer current is a conflict, and the document is untouched. *)
Example sdk_stale_write :
  conditional_write (sdk_membership_new tt) "registry" [2] (Some 7)
    sample_memory = (Some (Ok Conflict), sample_memory).
Proof. reflexivity. Qed.
(** An attribute that was never written, and one that was. *)
Example sdk_checkpoint_samples :
  let collection := sdk_checkpoint_new tt in
  get_xattr collection "key" "cbgo" sample_memory = (Done (Ok None), sample_memory)
  ∧ (do! upsert_xattr collection "key" "cbgo" [7] in get_xattr collection "key" "cbgo")
      sample_memory
    = (Done (Ok (Some [7])), mkMemory (me_documents sample_memory) {[("key", "cbgo") := [7]]} 1).
Proof. split; vm_compute; reflexivity. Qed.
